(* ===== verification/_CoqProject ===== *)
-Q . S2P
Prelude.v
Vfs.v
FileFormat.v
Page.v
PagerIo.v
PageCache.v
FreeList.v
PageStore.v
Pager.v
Fence.v
Coherence.v
Durability.v
Reopen.v
Overflow.v
ValueLayout.v
Slots.v
Leaf.v
Interior.v
BTree.v
Delete.v
Tree.v
BTreeRead.v
Splits.v
Siblings.v
Cursor.v
BTreeInsert.v
Rebalance.v
Rotate.v
BTreeDelete.v
BTreeMap.v
BTreeOps.v
Database.v
Snapshot.v
TxnState.v
Codec.v
Ownership.v
Wal.v
WalWriter.v
AppendCoordinator.v
