(* ===== verification/Prelude.v ===== *)
(** * RedDB storage and transaction core: a verification library

    RedDB keeps its records in a single file of 16 KiB pages, indexed by B+ trees, and
    isolates transactions with row versions and snapshots.  This library models the
    parts of it on which durability and isolation rest, in the crates [reddb-file]
    (formats) and [reddb-engine] (pages, pager, trees and transactions) under
    [src/crates], and proves them correct, from the bytes of a page to a tree on a
    pager that survives a crash.

    ** Conventions

    Integers of the program are [Z], wrapped or checked where the code does so; bytes
    are [list Z].  A function that can fail returns a [result]: [Ok], [Err] or [Panic]
    for an index out of range or a failed [expect].  Code with a state is an [eff]: a
    function from the state to the new state and a result, so that what an early return
    leaves behind is part of the model.  Third-party code is a parameter with its
    documented behaviour as hypotheses: the CRC is any function with 32-bit values, zstd
    and LZ4 return what they compressed, a hash map is iterated in any order; each
    theorem with such a hypothesis has an instance with a concrete function.

    ** Parts

    - [Vfs] ([reddb-file/src/vfs.rs]): an open file with stable bytes and writes that are
      not yet synced.  Any operation can be the first that fails, a write after part of its
      bytes; a crash keeps any part of the bytes that were not synced ([crash_image]).
    - [FileFormat] ([reddb-file/src/file_format.rs]): page headers, slotted cells, the
      encryption header, double-write frames, the database header, superblock copies.
    - [Page] ([reddb-engine/src/storage/page.rs], [page/impl.rs]): the page type.
    - [PagerIo] ([storage/pager_io.rs]): pages and superblocks in the file, the
      double-write zone and recovery from it.
    - [PageCache] ([storage/page_cache.rs]): the sharded cache with SIEVE eviction.
    - [FreeList] ([storage/freelist.rs]): free page numbers and their trunk pages.
    - [PageStore] ([storage/page_store.rs]): the [PageStore] trait as a class, the laws
      that its clients rely on as the class [PageStoreLaws], and a store in memory that
      satisfies them.  The trees are proved against the laws.
    - [Pager] ([storage/pager.rs]): reading, writing, allocation, freeing, flushing,
      publication of the header, checkpoints, recovery and opening.  The log behind it is
      the class [WalBarrier].  [Fence] shows what holds of it in any state; [Coherence]
      relates cache, file and free list and proves the laws of [PageStore] ([pager_laws]);
      [Durability] treats [flush] and [sync], [Reopen] crashes and opening again.
    - [Overflow] ([storage/overflow.rs]) and [ValueLayout] ([btree/value_layout.rs],
      [reddb-file/src/btree_value_layout.rs], [vector_value_codec.rs]): values inline,
      compressed, or in chains of pages.
    - [Slots], [Leaf], [Interior] ([storage/btree.rs]): the slot array that both kinds
      of tree pages share, and their cells.
    - [BTree], [Delete], [Cursor] ([storage/btree/impl.rs], [storage/btree.rs]): lookup,
      insertion with splits; deletion with rebalancing and update; cursors and scans.
    - [Tree]: what a B+ tree is, as pages of a store: [tree] (subtrees with their key
      range, leaves and footprint) and [ctx] (a tree with a hole).  [BTreeRead], [Splits],
      [Siblings], [BTreeInsert], [Rebalance], [Rotate], [BTreeDelete] prove the operations
      against it; [BTreeMap] and [BTreeOps] state the result: the tree implements a finite
      map ([represents]).  [Database] puts the tree on the pager.
    - [Snapshot] ([transaction/snapshot.rs], [visibility.rs], [read.rs],
      [mvcc_lifecycle.rs] and [mvcc_reclaim.rs] of [reddb-server]): transaction ids,
      snapshots, vacuum cutoff and reclamation test, serializable checks; a step relation over the manager and the outcome of
      every id.
    - [TxnState] ([transaction/state.rs], [read.rs]): BEGIN, COMMIT, ROLLBACK, savepoints.
    - [Codec], [Wal] ([reddb-file/src/wal_record.rs], [wal_header.rs],
      [reddb-server/src/storage/wal/reader.rs]): log records and the reader.
    - [WalWriter] ([storage/wal/writer.rs]): the buffered writer, opening and syncing.
    - [AppendCoordinator] ([storage/wal/append_coordinator.rs]): concurrent commits, as a
      step relation over any number of threads with a step for each access to what they
      share; the leader's work under the writer's mutex is one step.
    - [Ownership] ([reddb-file/src/page_ownership_journal.rs]): the journal of page
      ownership and the recovery plan.

    ** What is proved

    - End to end: [database_durable].  A tree on a pager answers as a finite map does, and
      after [sync] and a crash a tree opened at the same root represents the same map, if
      that is not empty.
    - The B+ tree refines a finite map: [btree_insert], [btree_upsert], [btree_delete],
      [btree_get], [btree_range], [btree_count]; [btree_refines_map] for any sequence of
      them; the two cursor modes agree ([immutable_scan_agrees], [peek_skip_next]).  Keys
      have at most 353 bytes there: interior pages are split at the middle key, which is
      only certain to fit for short keys.  Deletion and upsert are proved for keys of one
      length: a separator that is replaced may otherwise not fit.  An insertion has room in
      the store for its overflow pages and 34 more, at most one for each level.
    - A working pager implements a map from page numbers to pages ([pager_contract]): the
      device does not fail, no write-back has failed, the log accepts, and the superblocks
      have generations left.  The log may ask for the image of a page before it is
      overwritten, except of pages recorded as reserved ([log_accepts]), as the store's
      recorder does; a page that it may ask for must be readable.  Allocation is proved
      while the free list has no trunk and a number is left.
      [crash_after_sync] opens such a pager again; [sync_durable] says what [sync] does when
      the device or the log may fail.
    - A failed write-back stops all writing ([fenced_pager_frozen], [failed_batch_fences]),
      and pages follow the log ([log_before_data]), for a log that is durable as far as its
      [flush_until] says.
    - The cache loses no dirty page ([cache_accounts_for_dirty_pages]) and evicts as SIEVE
      does ([sieve_insertion]).
    - Crashes inside a batch: [dwb_crash_atomic], [dwb_recovery_restartable],
      [dwb_batch_durable], [superblock_publish_atomic].  Nothing is assumed of the checksum:
      the first two name, as the exceptional outcome, a zone torn between two of its contents
      that passes the checksum by accident ([undetected]).
    - Snapshots: [read_committed_view] and [transaction_view] characterise what a statement
      and a transaction that keeps its snapshot see in every reachable state, with other
      connections running between [begin] and [snapshot]; [vacuum_cutoff_safe] shows that
      no read shows a version that the paced reclamation deletes; guards and the
      serializable check.
    - Transactions: the outcome of every command and [dispatcher_invariant].
    - The log: [commit_durable] and [committed_records_replayed] follow a commit, in every
      interleaving and with failing writes, to what the reader finds after a crash;
      [commit_progress] shows that commits return while the device works, and
      [failed_drain_stalls] that none does after a write has failed; [wal_flush_durable] and
      [wal_replay] for the writer and the reader alone.
    - Recovery: the record theorems, [recovery_plan_correct], [pending_epoch_correct].
    - Storage: round trips of values, chains, trunks and headers; [flush_to_trunks_spec]
      shows that spilling ends and loses no page.

    ** Fuel

    Loops over pages that only a well-formed file bounds take fuel: the overflow chain
    (as many as the chain has pages is enough, and the theorems say so), trunk chains,
    scans (one step more than the map has keys).  [out_of_fuel] is a [Panic], so that no
    theorem about a result is satisfied by running out.  Descents use the code's own
    bound of 64 levels, which [tree_height] shows to be enough: a tree of height 33 has
    more pages than there are page numbers.

    ** Not modelled

    Of the pager, the encryption of pages, which is its host's, the locks and their
    poisoning, and the file lock: each operation is one atomic step.  Allocation from trunk
    pages is modelled and not part of the contract.  Of the trees, the batch operations
    [upsert_batch_sorted] and [bulk_insert_sorted], which have paths of their own into a
    leaf, the reclamation of retired trees, and the locks: writers hold the tree's
    reentrant mutex.  Of the log, its truncation, the [GroupCommit]
    coordinator, which the transaction manager does not use, and weak memory orderings.
    LSNs are unbounded, for logs below 2^64 bytes, and [usize] has 64 bits.  A device that
    works again after a fault is not modelled.  The log of the pager is a parameter: the
    model does not connect it to the writer.  The methods of the snapshot manager are atomic
    steps, and so are the operations of the cache.  [begin] of the dispatcher is two steps,
    its other commands are one each.  Query languages, server, replication,
    indexes, vectors, clients and cryptography are outside this library. *)

From Stdlib Require Import ZArith Lia Sorted.
From stdpp Require Export base list list_numbers gmap strings sorting.

#[global] Open Scope Z_scope.
#[export] Set Warnings "-clear-no-such-hyp".

(** ** Results

    A Rust function returns [Ok], returns [Err], or panics (a slice index out
    of range, a failed [expect]).  A panic is a value here, so that "never
    panics" is a statement about the model. *)

Inductive result (E A : Type) : Type :=
| Ok (a : A)
| Err (e : E)
| Panic.
Arguments Ok {E A} _.
Arguments Err {E A} _.
Arguments Panic {E A}.

#[global] Instance result_ret {E} : MRet (result E) := fun A a => Ok a.

#[global] Instance result_bind {E} : MBind (result E) := fun A B f m =>
  match m with Ok a => f a | Err e => Err e | Panic => Panic end.

#[global] Instance result_fmap {E} : FMap (result E) := fun A B f m =>
  match m with Ok a => Ok (f a) | Err e => Err e | Panic => Panic end.

(** [Result::map_err] *)
Definition map_err {E F A} (f : E -> F) (m : result E A) : result F A :=
  match m with Ok a => Ok a | Err e => Err (f e) | Panic => Panic end.

(** [Option::ok_or] *)
Definition ok_or {E A} (m : option A) (e : E) : result E A :=
  match m with Some a => Ok a | None => Err e end.

(** [Result::ok] on a computation that does not panic *)
Definition result_ok {E A} (m : result E A) : option A :=
  match m with Ok a => Some a | _ => None end.

(** An assertion of the code: a failed one panics. *)
Definition assert_or_panic {E} (b : bool) : result E unit :=
  if b then Ok tt else Panic.

#[global] Instance result_eq_dec {E A} `{EqDecision E, EqDecision A} :
  EqDecision (result E A).
Proof. solve_decision. Defined.

Lemma bind_Ok_inv {E A B} (m : result E A) (f : A -> result E B) b :
  (m ≫= f) = Ok b -> exists a, m = Ok a /\ f a = Ok b.
Proof. destruct m; naive_solver. Qed.

Ltac inv_bind H :=
  let a := fresh "a" in let E := fresh "E" in
  apply bind_Ok_inv in H as (a & E & H).

(** ** Stateful operations

    A method on a shared object changes the object's state whether it succeeds
    or not, so an operation returns the state it leaves behind with its result. *)

Definition eff (S E A : Type) : Type := S -> S * result E A.

#[global] Instance eff_ret {S E} : MRet (eff S E) := fun A a s => (s, Ok a).

#[global] Instance eff_bind {S E} : MBind (eff S E) := fun A B f m s =>
  match m s with
  | (s', Ok a) => f a s'
  | (s', Err e) => (s', Err e)
  | (s', Panic) => (s', Panic)
  end.

(** [return Err(e)] *)
Definition fail {S E A} (e : E) : eff S E A := fun s => (s, Err e).

(** A computation that does not touch the state *)
Definition lift {S E A} (r : result E A) : eff S E A := fun s => (s, r).

(** An operation of a component inside the operation of its owner: [get] and
    [set] reach the component, [f] is the [From] conversion of its error. *)
Definition within {S T E F A} (get : T -> S) (set : S -> T -> T) (f : E -> F) (m : eff S E A)
    : eff T F A := fun t =>
  let '(s, r) := m (get t) in (set s t, map_err f r).

(** [.map_err(f)] on an operation *)
Definition eff_map_err {S E F A} (f : E -> F) (m : eff S E A) : eff S F A := fun s =>
  let '(s, r) := m s in (s, map_err f r).

(** A loop that has not ended when its fuel is used up: neither [Ok] nor [Err]. *)
Definition out_of_fuel {S E A} : eff S E A := fun s => (s, Panic).

Lemma eff_bind_ok {S E A B} (m : eff S E A) (k : A -> eff S E B) s s' a :
  m s = (s', Ok a) -> (m ≫= k) s = k a s'.
Proof. intros H. unfold mbind, eff_bind. by rewrite H. Qed.

Lemma eff_bind_err {S E A B} (m : eff S E A) (k : A -> eff S E B) s s' e :
  m s = (s', Err e) -> (m ≫= k) s = (s', Err e).
Proof. intros H. unfold mbind, eff_bind. by rewrite H. Qed.

Lemma eff_bind_lift {S E A B} (r : result E A) (k : A -> eff S E B) s a :
  r = Ok a -> (lift r ≫= k) s = k a s.
Proof. intros ->. done. Qed.

Lemma within_ok {S T E F A} get set (f : E -> F) (m : eff S E A) (t : T) s a :
  m (get t) = (s, Ok a) -> within get set f m t = (set s t, Ok a).
Proof. intros H. unfold within. by rewrite H. Qed.

Lemma eff_map_err_ok {S E F A} (f : E -> F) (m : eff S E A) s s' a :
  m s = (s', Ok a) -> eff_map_err f m s = (s', Ok a).
Proof. intros H. unfold eff_map_err. by rewrite H. Qed.

(** [for x in l { f(x)?; }] *)
Fixpoint for_each {S E A} (l : list A) (f : A -> eff S E unit) : eff S E unit :=
  match l with
  | [] => mret tt
  | x :: l => _ ← f x; for_each l f
  end.

(** [l.chunks(n)] *)
Fixpoint chunks_fuel {A} (fuel n : nat) (l : list A) : list (list A) :=
  match fuel, l with
  | Datatypes.S fuel, _ :: _ => take n l :: chunks_fuel fuel n (drop n l)
  | _, _ => []
  end.

Definition chunks_of {A} (n : nat) (l : list A) : list (list A) := chunks_fuel (length l) n l.

Lemma concat_chunks_of {A} n (l : list A) : (0 < n)%nat -> concat (chunks_of n l) = l.
Proof.
  intros Hn. unfold chunks_of. assert (Hg : forall fuel (k : list A), (length k <= fuel)%nat -> concat (chunks_fuel fuel n k) = k).
  { induction fuel as [|fuel IH]; intros [|x k] Hk; try done; cbn [length] in Hk; [lia|].
    cbn [chunks_fuel concat]. rewrite IH; [apply take_drop|]. rewrite length_drop. cbn [length]. lia. }
  by apply Hg.
Qed.

Lemma chunks_of_Forall {A} n (l : list A) :
  (0 < n)%nat -> Forall (fun c => c <> [] /\ (length c <= n)%nat) (chunks_of n l).
Proof.
  intros Hn. unfold chunks_of. generalize (length l). intros fuel. revert l.
  induction fuel as [|fuel IH]; intros [|x k]; cbn [chunks_fuel]; constructor; [|done].
  split; [|rewrite length_take; lia]. destruct n; [lia|done].
Qed.

(** ** Machine integers *)

Abbreviation bytes := (list Z).

Definition U8_MAX : Z := 255.
Definition U16_MAX : Z := 65535.
Definition U32_MAX : Z := 4294967295.
Definition U64_MAX : Z := 18446744073709551615.
(** [usize] of a 64-bit target *)
Definition USIZE_MAX : Z := U64_MAX.

(** [x as u16], [x as u32], [x as u64] *)
Definition as_u16 (z : Z) : Z := z mod 65536.
Definition as_u32 (z : Z) : Z := z mod 4294967296.
Definition as_u64 (z : Z) : Z := z mod 18446744073709551616.

Definition byte_ok (b : Z) : Prop := 0 <= b < 256.
Definition u16_ok (z : Z) : Prop := 0 <= z < 65536.
Definition u32_ok (z : Z) : Prop := 0 <= z < 4294967296.
Definition u64_ok (z : Z) : Prop := 0 <= z < 18446744073709551616.

(** [usize::checked_add], [usize::checked_mul], [saturating_sub],
    [saturating_add] *)
Definition checked_add (a b : Z) : option Z :=
  if a + b <=? USIZE_MAX then Some (a + b) else None.
Definition checked_mul (a b : Z) : option Z :=
  if a * b <=? USIZE_MAX then Some (a * b) else None.
Definition sat_sub (a b : Z) : Z := Z.max 0 (a - b).
Definition sat_add (max a b : Z) : Z := Z.min max (a + b).

Lemma as_u16_id z : u16_ok z -> as_u16 z = z.
Proof. unfold u16_ok, as_u16. intros. apply Z.mod_small. lia. Qed.

Lemma as_u32_id z : u32_ok z -> as_u32 z = z.
Proof. unfold u32_ok, as_u32. intros. apply Z.mod_small. lia. Qed.

Lemma as_u64_id z : u64_ok z -> as_u64 z = z.
Proof. unfold u64_ok, as_u64. intros. apply Z.mod_small. lia. Qed.

Lemma lor_byte_ok a b : byte_ok a -> byte_ok b -> byte_ok (Z.lor a b).
Proof.
  unfold byte_ok. intros Ha Hb.
  assert (Hl : forall x, 0 <= x < 256 -> Z.log2 x < 8).
  { intros x Hx. destruct (decide (x = 0)) as [->|]; [done|]. apply Z.log2_lt_pow2; lia. }
  assert (0 <= Z.lor a b) by (apply Z.lor_nonneg; lia). split; [done|].
  destruct (decide (Z.lor a b = 0)) as [->|]; [lia|].
  apply (Z.log2_lt_pow2 _ 8); [lia|]. rewrite Z.log2_lor by lia.
  pose proof (Hl a Ha). pose proof (Hl b Hb). lia.
Qed.

(** ** Byte strings with integer offsets *)

Definition zlen {A} (l : list A) : Z := Z.of_nat (length l).

(** [&l[off .. off + n]] for a range that is in bounds *)
Definition slice {A} (l : list A) (off n : Z) : list A :=
  take (Z.to_nat n) (drop (Z.to_nat off) l).

(** [l[off .. off + bs.len()].copy_from_slice(bs)].  A range that is out of
    bounds leaves the bytes alone; the code panics there, and the definitions
    that can reach such a range test for it and return [Panic]. *)
Definition splice {A} (l : list A) (off : Z) (bs : list A) : list A :=
  if (0 <=? off) && (off + zlen bs <=? zlen l) then
    take (Z.to_nat off) l ++ bs ++ drop (Z.to_nat (off + zlen bs)) l
  else l.

(** The element at an index, and the update of one *)
Definition zget {A} (l : list A) (i : Z) : option A :=
  if i <? 0 then None else l !! Z.to_nat i.

(** [[0u8; n]] *)
Definition zeros (n : Z) : bytes := replicate (Z.to_nat n) 0.

Create Rewrite HintDb zlen.

Lemma zlen_nonneg {A} (l : list A) : 0 <= zlen l.
Proof. unfold zlen. lia. Qed.

Lemma zlen_nil {A} : zlen (@nil A) = 0.
Proof. done. Qed.

Lemma zlen_nil_inv {A} (l : list A) : zlen l = 0 -> l = [].
Proof. destruct l; [done|]. unfold zlen. cbn [length]. lia. Qed.

Lemma zlen_cons {A} (x : A) l : zlen (x :: l) = 1 + zlen l.
Proof. unfold zlen. cbn [length]. lia. Qed.

Lemma zlen_app {A} (l k : list A) : zlen (l ++ k) = zlen l + zlen k.
Proof. unfold zlen. rewrite length_app. lia. Qed.

Lemma zlen_fmap {A B} (f : A -> B) l : zlen (f <$> l) = zlen l.
Proof. unfold zlen. by rewrite length_fmap. Qed.

Lemma zlen_zeros n : 0 <= n -> zlen (zeros n) = n.
Proof. unfold zlen, zeros. intros. rewrite length_replicate. lia. Qed.

Lemma zlen_take {A} (l : list A) n :
  0 <= n <= zlen l -> zlen (take (Z.to_nat n) l) = n.
Proof. unfold zlen. intros. rewrite length_take. lia. Qed.

Lemma zlen_drop {A} (l : list A) n :
  0 <= n <= zlen l -> zlen (drop (Z.to_nat n) l) = zlen l - n.
Proof. unfold zlen. intros. rewrite length_drop. lia. Qed.

Lemma zlen_slice {A} (l : list A) off n :
  0 <= off -> 0 <= n -> off + n <= zlen l -> zlen (slice l off n) = n.
Proof. unfold zlen, slice. intros. rewrite length_take, length_drop. lia. Qed.

Lemma zlen_splice {A} (l : list A) off bs : zlen (splice l off bs) = zlen l.
Proof.
  unfold splice. destruct (_ && _) eqn:E; [|done].
  apply andb_true_iff in E as [E1 E2].
  apply Z.leb_le in E1, E2. rewrite !zlen_app.
  pose proof (zlen_nonneg bs).
  rewrite zlen_take, zlen_drop by lia. lia.
Qed.

#[export] Hint Rewrite @zlen_nil @zlen_cons @zlen_app @zlen_fmap @zlen_splice : zlen.
#[export] Hint Rewrite zlen_zeros using lia : zlen.

Lemma lookup_slice {A} (l : list A) off n i :
  0 <= off -> 0 <= n ->
  slice l off n !! i = if decide (Z.of_nat i < n) then l !! (Z.to_nat off + i)%nat else None.
Proof.
  intros. unfold slice. case_decide.
  - rewrite lookup_take_lt by lia. apply lookup_drop.
  - apply lookup_take_ge. lia.
Qed.

Lemma lookup_splice {A} (l : list A) off bs i :
  0 <= off -> off + zlen bs <= zlen l ->
  splice l off bs !! i =
    if decide (off <= Z.of_nat i < off + zlen bs)
    then bs !! (i - Z.to_nat off)%nat else l !! i.
Proof.
  intros H1 H2. unfold splice.
  rewrite (proj2 (andb_true_iff _ _)) by (split; apply Z.leb_le; lia).
  assert (Htk : length (take (Z.to_nat off) l) = Z.to_nat off).
  { rewrite length_take. unfold zlen in *. lia. }
  case_decide as Hd.
  - rewrite lookup_app_r by lia. rewrite lookup_app_l; [by rewrite Htk|].
    unfold zlen in *. lia.
  - destruct (decide (Z.of_nat i < off)).
    + rewrite lookup_app_l by lia. rewrite lookup_take_lt by lia. done.
    + rewrite lookup_app_r by lia. rewrite lookup_app_r by (unfold zlen in *; lia).
      rewrite lookup_drop. f_equal. unfold zlen in *. lia.
Qed.

Lemma splice_in {A} (l : list A) off bs :
  0 <= off -> off + zlen bs <= zlen l ->
  splice l off bs = take (Z.to_nat off) l ++ bs ++ drop (Z.to_nat (off + zlen bs)) l.
Proof.
  intros. unfold splice. by rewrite (proj2 (andb_true_iff _ _)) by (split; apply Z.leb_le; lia).
Qed.

Lemma splice_oob {A} (l : list A) off bs :
  ~ (0 <= off /\ off + zlen bs <= zlen l) -> splice l off bs = l.
Proof.
  intros H. unfold splice. destruct (_ && _) eqn:E; [|done].
  apply andb_true_iff in E as [E1 E2]. apply Z.leb_le in E1, E2. lia.
Qed.

(** A write outside the range that is read does not change the read. *)
Lemma slice_splice_ne {A} (l : list A) off bs o n :
  0 <= o -> 0 <= n -> (off + zlen bs <= o \/ o + n <= off) ->
  slice (splice l off bs) o n = slice l o n.
Proof.
  intros Ho Hn Hd.
  destruct (decide (0 <= off /\ off + zlen bs <= zlen l)) as [[H1 H2]|H];
    [|by rewrite splice_oob].
  apply list_eq. intros i. rewrite !lookup_slice by done.
  case_decide; [|done]. rewrite lookup_splice by lia.
  rewrite decide_False by lia. done.
Qed.

(** A read inside the range just written reads from the bytes written. *)
Lemma slice_splice_in {A} (l : list A) off bs o n :
  0 <= off -> off + zlen bs <= zlen l ->
  off <= o -> 0 <= n -> o + n <= off + zlen bs ->
  slice (splice l off bs) o n = slice bs (o - off) n.
Proof.
  intros. apply list_eq. intros i. rewrite !lookup_slice by lia.
  case_decide; [|done]. rewrite lookup_splice by lia.
  rewrite decide_True by lia. f_equal. lia.
Qed.

Lemma slice_all {A} (l : list A) n : n = zlen l -> slice l 0 n = l.
Proof. intros ->. unfold slice, zlen. rewrite drop_0. apply take_ge. lia. Qed.

Lemma slice_splice_eq {A} (l : list A) off bs n :
  0 <= off -> off + zlen bs <= zlen l -> n = zlen bs ->
  slice (splice l off bs) off n = bs.
Proof.
  intros. subst n. pose proof (zlen_nonneg bs).
  rewrite slice_splice_in by lia.
  rewrite Z.sub_diag. by apply slice_all.
Qed.

Lemma slice_slice {A} (l : list A) a n b m :
  0 <= a -> 0 <= b -> 0 <= m -> b + m <= n ->
  slice (slice l a n) b m = slice l (a + b) m.
Proof.
  intros. apply list_eq. intros i. rewrite !lookup_slice by lia.
  case_decide; [|done]. rewrite decide_True by lia. f_equal. lia.
Qed.

Lemma slice_0 {A} (l : list A) off : slice l off 0 = [].
Proof. unfold slice. done. Qed.

Lemma slice_app_l {A} (l k : list A) off n :
  0 <= off -> 0 <= n -> off + n <= zlen l -> slice (l ++ k) off n = slice l off n.
Proof.
  intros. apply list_eq. intros i. rewrite !lookup_slice by lia.
  case_decide; [|done]. apply lookup_app_l. unfold zlen in *. lia.
Qed.

Lemma slice_app_r {A} (l k : list A) off n :
  zlen l <= off -> 0 <= n -> slice (l ++ k) off n = slice k (off - zlen l) n.
Proof.
  intros. pose proof (zlen_nonneg l).
  apply list_eq. intros i. rewrite !lookup_slice by lia.
  case_decide; [|done]. rewrite lookup_app_r by (unfold zlen in *; lia).
  f_equal. unfold zlen in *. lia.
Qed.

Lemma Forall_slice {A} (P : A -> Prop) (l : list A) off n :
  Forall P l -> Forall P (slice l off n).
Proof. intros. by apply Forall_take, Forall_drop. Qed.

Lemma Forall_splice {A} (P : A -> Prop) (l : list A) off bs :
  Forall P l -> Forall P bs -> Forall P (splice l off bs).
Proof.
  intros. unfold splice. destruct (_ && _); [|done].
  rewrite !Forall_app. auto using Forall_take, Forall_drop.
Qed.

Lemma Forall_zeros n : Forall byte_ok (zeros n).
Proof. apply Forall_replicate. unfold byte_ok. lia. Qed.

(** ** Little-endian integers ([to_le_bytes], [from_le_bytes]) *)

Fixpoint le_bytes (n : nat) (z : Z) : bytes :=
  match n with
  | O => []
  | S n => z mod 256 :: le_bytes n (z / 256)
  end.

Fixpoint le_val (l : bytes) : Z :=
  match l with
  | [] => 0
  | b :: l => b + 256 * le_val l
  end.

Lemma zlen_le_bytes n z : zlen (le_bytes n z) = Z.of_nat n.
Proof.
  unfold zlen. f_equal. revert z. induction n; intros; cbn; [done|]. by rewrite IHn.
Qed.

Lemma le_bytes_ok n z : Forall byte_ok (le_bytes n z).
Proof.
  revert z. induction n; intros; cbn; constructor; [|done].
  unfold byte_ok. apply Z.mod_pos_bound. lia.
Qed.

Lemma le_val_le_bytes n z : le_val (le_bytes n z) = z mod 256 ^ Z.of_nat n.
Proof.
  revert z. induction n; intros; cbn [le_bytes le_val].
  - by rewrite Z.mod_1_r.
  - rewrite IHn, Nat2Z.inj_succ, Z.pow_succ_r by lia.
    rewrite Z.rem_mul_r by lia. lia.
Qed.

Lemma le_bytes_le_val l : Forall byte_ok l -> le_bytes (length l) (le_val l) = l.
Proof.
  induction 1 as [|b l Hb Hl IH]; cbn [length le_bytes le_val]; [done|].
  unfold byte_ok in Hb. f_equal.
  - rewrite Z.mul_comm, Z.mod_add by lia. apply Z.mod_small. lia.
  - rewrite Z.mul_comm, Z.div_add by lia. rewrite Z.div_small by lia. done.
Qed.

Lemma le_val_bound l : Forall byte_ok l -> 0 <= le_val l < 256 ^ zlen l.
Proof.
  induction 1 as [|b l Hb Hl IH]; cbn [le_val]; [change (256 ^ zlen (@nil Z)) with 1; lia|].
  unfold byte_ok in Hb. rewrite zlen_cons, Z.pow_add_r by (pose proof (zlen_nonneg l); lia).
  lia.
Qed.

Definition u16_at (l : bytes) (off : Z) : Z := le_val (slice l off 2).
Definition u32_at (l : bytes) (off : Z) : Z := le_val (slice l off 4).
Definition u64_at (l : bytes) (off : Z) : Z := le_val (slice l off 8).
Definition u8_at (l : bytes) (off : Z) : Z := le_val (slice l off 1).

Definition put_u8 (l : bytes) (off v : Z) : bytes := splice l off [v].
Definition put_u16 (l : bytes) (off v : Z) : bytes := splice l off (le_bytes 2 v).
Definition put_u32 (l : bytes) (off v : Z) : bytes := splice l off (le_bytes 4 v).
Definition put_u64 (l : bytes) (off v : Z) : bytes := splice l off (le_bytes 8 v).

Lemma le_val_u8 v : le_val [v] = v.
Proof. cbn [le_val]. lia. Qed.

Lemma le_val_u16 v : u16_ok v -> le_val (le_bytes 2 v) = v.
Proof. intros. rewrite le_val_le_bytes. apply Z.mod_small. unfold u16_ok in *. cbn. lia. Qed.

Lemma le_val_u32 v : u32_ok v -> le_val (le_bytes 4 v) = v.
Proof. intros. rewrite le_val_le_bytes. apply Z.mod_small. unfold u32_ok in *. cbn. lia. Qed.

Lemma le_val_u64 v : u64_ok v -> le_val (le_bytes 8 v) = v.
Proof. intros. rewrite le_val_le_bytes. apply Z.mod_small. unfold u64_ok in *. cbn. lia. Qed.

#[export] Hint Rewrite zlen_le_bytes : zlen.

(** ** Reading fields out of updated byte strings *)

Ltac zlia := autorewrite with zlen; lia.

Create HintDb bytesdb.

Lemma u16_at_splice_ne l off bs o :
  0 <= o -> (off + zlen bs <= o \/ o + 2 <= off) -> u16_at (splice l off bs) o = u16_at l o.
Proof. intros. unfold u16_at. by rewrite slice_splice_ne by lia. Qed.

Lemma u32_at_splice_ne l off bs o :
  0 <= o -> (off + zlen bs <= o \/ o + 4 <= off) -> u32_at (splice l off bs) o = u32_at l o.
Proof. intros. unfold u32_at. by rewrite slice_splice_ne by lia. Qed.

Lemma u64_at_splice_ne l off bs o :
  0 <= o -> (off + zlen bs <= o \/ o + 8 <= off) -> u64_at (splice l off bs) o = u64_at l o.
Proof. intros. unfold u64_at. by rewrite slice_splice_ne by lia. Qed.

Lemma u8_at_splice_ne l off bs o :
  0 <= o -> (off + zlen bs <= o \/ o + 1 <= off) -> u8_at (splice l off bs) o = u8_at l o.
Proof. intros. unfold u8_at. by rewrite slice_splice_ne by lia. Qed.

Lemma u8_at_put l off v :
  0 <= off -> off + 1 <= zlen l -> u8_at (splice l off [v]) off = v.
Proof. intros. unfold u8_at. rewrite slice_splice_eq by zlia. cbn [le_val]. lia. Qed.

Lemma u16_at_put l off v :
  0 <= off -> off + 2 <= zlen l -> u16_ok v -> u16_at (splice l off (le_bytes 2 v)) off = v.
Proof. intros. unfold u16_at. rewrite slice_splice_eq by zlia. by apply le_val_u16. Qed.

Lemma u32_at_put l off v :
  0 <= off -> off + 4 <= zlen l -> u32_ok v -> u32_at (splice l off (le_bytes 4 v)) off = v.
Proof. intros. unfold u32_at. rewrite slice_splice_eq by zlia. by apply le_val_u32. Qed.

Lemma u64_at_put l off v :
  0 <= off -> off + 8 <= zlen l -> u64_ok v -> u64_at (splice l off (le_bytes 8 v)) off = v.
Proof. intros. unfold u64_at. rewrite slice_splice_eq by zlia. by apply le_val_u64. Qed.

Lemma u16_at_ok l off :
  Forall byte_ok l -> 0 <= off -> off + 2 <= zlen l -> u16_ok (u16_at l off).
Proof.
  intros Hl H0 H1. unfold u16_at, u16_ok.
  pose proof (le_val_bound (slice l off 2) (Forall_slice _ _ _ _ Hl)) as Hb.
  rewrite zlen_slice in Hb by lia. lia.
Qed.

Lemma u32_at_ok l off :
  Forall byte_ok l -> 0 <= off -> off + 4 <= zlen l -> u32_ok (u32_at l off).
Proof.
  intros Hl H0 H1. unfold u32_at, u32_ok.
  pose proof (le_val_bound (slice l off 4) (Forall_slice _ _ _ _ Hl)) as Hb.
  rewrite zlen_slice in Hb by lia. lia.
Qed.

Lemma u64_at_ok l off :
  Forall byte_ok l -> 0 <= off -> off + 8 <= zlen l -> u64_ok (u64_at l off).
Proof.
  intros Hl H0 H1. unfold u64_at, u64_ok.
  pose proof (le_val_bound (slice l off 8) (Forall_slice _ _ _ _ Hl)) as Hb.
  rewrite zlen_slice in Hb by lia. lia.
Qed.

#[export] Hint Resolve le_bytes_ok Forall_zeros Forall_splice Forall_slice : bytesdb.
#[export] Hint Extern 1 (Forall byte_ok (_ :: _)) => constructor : bytesdb.
#[export] Hint Extern 1 (Forall byte_ok []) => constructor : bytesdb.

(** Rewrite every field read of a chain of writes, with [lia] for the offsets. *)
Ltac fields :=
  unfold put_u8, put_u16, put_u32, put_u64;
  repeat first
    [ rewrite u16_at_splice_ne by zlia | rewrite u32_at_splice_ne by zlia
    | rewrite u64_at_splice_ne by zlia | rewrite u8_at_splice_ne by zlia
    | rewrite u8_at_put by zlia
    | rewrite u16_at_put by (first [zlia | assumption])
    | rewrite u32_at_put by (first [zlia | assumption])
    | rewrite u64_at_put by (first [zlia | assumption]) ].

(** A concrete 32-bit checksum, to instantiate the checksum parameter of the
    statements that have one. *)
Definition byte_sum (b : bytes) : Z := as_u32 (foldr Z.add 0 b).

Lemma byte_sum_u32 b : u32_ok (byte_sum b).
Proof. unfold byte_sum, as_u32, u32_ok. apply Z.mod_pos_bound. lia. Qed.

(** ** The order on keys: [Ord for [u8]] is lexicographic *)

Fixpoint bytes_cmp (a b : bytes) : comparison :=
  match a, b with
  | [], [] => Eq
  | [], _ :: _ => Lt
  | _ :: _, [] => Gt
  | x :: a, y :: b =>
      match Z.compare x y with Eq => bytes_cmp a b | c => c end
  end.

Definition blt (a b : bytes) : Prop := bytes_cmp a b = Lt.
Definition ble (a b : bytes) : Prop := bytes_cmp a b <> Gt.

Lemma bytes_cmp_refl a : bytes_cmp a a = Eq.
Proof. induction a; cbn; [done|]. by rewrite Z.compare_refl. Qed.

Lemma bytes_cmp_eq a b : bytes_cmp a b = Eq <-> a = b.
Proof.
  split; [|intros ->; apply bytes_cmp_refl].
  revert b. induction a as [|x a IH]; intros [|y b]; cbn; try done.
  destruct (Z.compare_spec x y) as [->| |]; try done. intros. by rewrite (IH b).
Qed.

Lemma bytes_cmp_antisym a b : bytes_cmp b a = CompOpp (bytes_cmp a b).
Proof.
  revert b. induction a as [|x a IH]; intros [|y b]; cbn; try done.
  rewrite (Z.compare_antisym x y). destruct (x ?= y); cbn; auto.
Qed.

Lemma blt_trans a b c : blt a b -> blt b c -> blt a c.
Proof.
  unfold blt. revert b c. induction a as [|x a IH]; intros [|y b] [|z c]; cbn; try done.
  destruct (Z.compare_spec x y), (Z.compare_spec y z), (Z.compare_spec x z);
    subst; try lia; try done. apply IH.
Qed.

Lemma blt_irrefl a : ~ blt a a.
Proof. unfold blt. by rewrite bytes_cmp_refl. Qed.

#[export] Instance blt_strict_order : StrictOrder blt.
Proof. split; [intros a; apply blt_irrefl|intros a b c; apply blt_trans]. Qed.

#[export] Instance blt_dec : RelDecision blt.
Proof. intros a b. unfold blt. solve_decision. Defined.

Lemma bytes_cmp_gt a b : bytes_cmp a b = Gt <-> blt b a.
Proof. unfold blt. rewrite (bytes_cmp_antisym a b). by destruct (bytes_cmp a b). Qed.

Lemma blt_neq a b : blt a b -> a <> b.
Proof. intros H ->. by apply blt_irrefl in H. Qed.

Lemma blt_asym a b : blt a b -> ~ blt b a.
Proof. intros H1 H2. apply (blt_irrefl a). by apply (blt_trans _ b). Qed.

Lemma blt_total a b : blt a b \/ a = b \/ blt b a.
Proof.
  destruct (bytes_cmp a b) eqn:E; [right; left; by apply bytes_cmp_eq|by left|].
  right; right. by apply bytes_cmp_gt.
Qed.

(** ** The binary search loop

    [while low < high { mid = (low + high) / 2; ... }] with the loop body as a
    parameter: it answers "go right" ([low = mid + 1]), "go left"
    ([high = mid]) or stops. *)

Inductive probe (R : Type) : Type :=
| GoRight
| GoLeft
| Stop (r : R).
Arguments GoRight {R}.
Arguments GoLeft {R}.
Arguments Stop {R} _.

Fixpoint bsearch {E R} (fuel : nat) (body : Z -> result E (probe R))
    (low high : Z) : result E (R + Z) :=
  if low <? high then
    match fuel with
    | O => Panic
    | S fuel =>
        let mid := (low + high) / 2 in
        match body mid with
        | Ok GoRight => bsearch fuel body (mid + 1) high
        | Ok GoLeft => bsearch fuel body low mid
        | Ok (Stop r) => Ok (inl r)
        | Err e => Err e
        | Panic => Panic
        end
    end
  else Ok (inr low).

Section bsearch.
Context {E R : Type} (body : Z -> result E (probe R)) (cls : Z -> probe R).
Context (lo hi : Z).
Context (Hbody : forall i, lo <= i < hi -> body i = Ok (cls i)).
Context (Hright : forall i j, lo <= i -> i < j < hi -> cls j = GoRight -> cls i = GoRight).
Context (Hleft : forall i j, lo <= i -> i < j < hi -> cls i = GoLeft -> cls j = GoLeft).

Lemma bsearch_spec fuel low high :
  high - low <= Z.of_nat fuel -> lo <= low -> low <= high -> high <= hi ->
  (forall i, lo <= i < low -> cls i = GoRight) ->
  (forall i, high <= i < hi -> cls i = GoLeft) ->
  (exists i r, bsearch fuel body low high = Ok (inl r) /\ lo <= i < hi /\ cls i = Stop r)
  \/ (exists c, bsearch fuel body low high = Ok (inr c) /\ lo <= c <= hi /\
      (forall i, lo <= i < c -> cls i = GoRight) /\
      (forall i, c <= i < hi -> cls i = GoLeft)).
Proof.
  revert low high. induction fuel as [|fuel IH]; intros low high Hf H1 H2 H3 HR HL;
    cbn [bsearch]; destruct (Z.ltb_spec low high) as [Hlt|Hge]; try lia.
  1,3: right; exists low; split; [done|]; split; [lia|]; split; [done|];
       intros; apply HL; lia.
  set (mid := (low + high) / 2).
  assert (low <= mid < high) by (subst mid; split;
    [apply Z.div_le_lower_bound; lia | apply Z.div_lt_upper_bound; lia]).
  rewrite Hbody by lia. destruct (cls mid) as [| |r] eqn:Ec.
  - apply IH; try lia.
    + intros i Hi. destruct (decide (i = mid)) as [->|]; [done|].
      apply (Hright i mid); [lia|lia|done].
    + intros; apply HL; lia.
  - apply IH; try lia; [done|].
    intros i Hi. destruct (decide (i = mid)) as [->|]; [done|].
    apply (Hleft mid i); [lia|lia|done].
  - left. exists mid, r. split; [done|]. split; [lia|done].
Qed.
End bsearch.

(** ** Binary search in a sorted array of keys *)

(** [found i] is what the loop stops with when the key is at index [i]. *)
Definition key_probe (found : Z -> Z) (keys : list bytes) (key : bytes) (i : Z) : probe Z :=
  match keys !! Z.to_nat i with
  | Some k => match bytes_cmp k key with Lt => GoRight | Gt => GoLeft | Eq => Stop (found i) end
  | None => GoLeft
  end.

(** [c] is where [key] belongs in the sorted [keys], which do not contain it. *)
Definition insertion_point (keys : list bytes) (key : bytes) (c : nat) : Prop :=
  (c <= length keys)%nat /\ Forall (fun k => blt k key) (take c keys) /\
  Forall (blt key) (drop c keys).

Lemma StronglySorted_lookup_lt {A} (R : A -> A -> Prop) l i j x y :
  StronglySorted R l -> (i < j)%nat -> l !! i = Some x -> l !! j = Some y -> R x y.
Proof.
  intros Hs. revert i j. induction Hs as [|z l Hs IH Hz]; intros i j Hlt Hx Hy; [done|].
  destruct j as [|j]; [lia|]. destruct i as [|i]; cbn in *.
  - injection Hx as ->. rewrite Forall_lookup in Hz. eauto.
  - apply (IH i j); auto; lia.
Qed.

Lemma sorted_app {A} (R : A -> A -> Prop) l1 l2 :
  StronglySorted R (l1 ++ l2) <->
  StronglySorted R l1 /\ StronglySorted R l2 /\ Forall (fun x => Forall (R x) l2) l1.
Proof.
  induction l1 as [|x l1 IH]; cbn.
  - split; [intros H; split_and!; auto using SSorted_nil|by intros (_ & ? & _)].
  - split.
    + intros H. inversion H as [|? ? Hs Hf]; subst. apply Forall_app in Hf as [Hf1 Hf2].
      apply IH in Hs as (? & ? & ?). split_and!; [by constructor|done|by constructor].
    + intros (H1 & H2 & H3). inversion H1; subst. inversion H3; subst.
      constructor; [by apply IH|by apply Forall_app].
Qed.

Lemma sorted_insertion_point keys key c :
  StronglySorted blt keys -> insertion_point keys key c ->
  StronglySorted blt (take c keys ++ key :: drop c keys).
Proof.
  intros Hs (_ & H1 & H2). rewrite <-(take_drop c keys), sorted_app in Hs.
  destruct Hs as (S1 & S2 & S3). apply sorted_app. split_and!; [done|by constructor|].
  rewrite Forall_forall in *. intros x Hx. constructor; auto.
Qed.

Lemma StronglySorted_last {A} (R : A -> A -> Prop) l x y :
  StronglySorted R l -> last l = Some y -> x ∈ l -> x = y \/ R x y.
Proof.
  intros Hs Hl Hx. apply list_elem_of_lookup in Hx as (i & Hi). rewrite last_lookup in Hl.
  pose proof (lookup_lt_Some _ _ _ Hi). destruct (decide (i = pred (length l))) as [->|].
  - left. congruence.
  - right. eapply (StronglySorted_lookup_lt R l i (pred (length l))); [done|lia|done|done].
Qed.

Lemma insertion_point_exists keys key :
  StronglySorted blt keys -> key ∉ keys -> exists c, insertion_point keys key c.
Proof.
  induction 1 as [|k keys Hs IH Hk]; intros Hni.
  - exists O. by repeat constructor.
  - apply not_elem_of_cons in Hni as [Hne Hni]. destruct (blt_total key k) as [Hlt|[?|Hlt]]; [|done|].
    + exists O. split_and!; cbn; [lia|constructor|]. constructor; [done|].
      eapply Forall_impl; [exact Hk|]. intros x. by apply blt_trans.
    + destruct (IH Hni) as (c & H1 & H2 & H3). exists (S c).
      split_and!; cbn; [lia|by constructor|done].
Qed.

Lemma blt_sorted_NoDup keys : StronglySorted blt keys -> NoDup keys.
Proof.
  induction 1 as [|k keys Hs IH Hk]; constructor; [|done].
  rewrite Forall_forall in Hk. intros Hin. by apply (blt_irrefl k), Hk.
Qed.

Lemma Forall_blt_not_in {A} (es : list (bytes * A)) key : Forall (fun e => blt e.1 key) es -> key ∉ es.*1.
Proof.
  rewrite Forall_forall. intros Hb Hin. apply list_elem_of_fmap in Hin as (e & -> & He).
  by apply (blt_irrefl e.1), Hb.
Qed.

Lemma Forall_bgt_not_in {A} (es : list (bytes * A)) key : Forall (fun e => blt key e.1) es -> key ∉ es.*1.
Proof.
  rewrite Forall_forall. intros Hb Hin. apply list_elem_of_fmap in Hin as (e & -> & He).
  by apply (blt_irrefl e.1), Hb.
Qed.

Lemma insertion_point_not_in keys key c : insertion_point keys key c -> key ∉ keys.
Proof.
  intros (_ & H1 & H2). rewrite <-(take_drop c keys), elem_of_app.
  rewrite Forall_forall in H1, H2.
  intros [H|H]; [apply H1 in H|apply H2 in H]; by apply blt_irrefl in H.
Qed.

Lemma insertion_point_unique keys key c c' :
  insertion_point keys key c -> insertion_point keys key c' -> c = c'.
Proof.
  assert (Hle : forall c c', insertion_point keys key c -> insertion_point keys key c' ->
    ~ (c < c')%nat).
  { intros a b (Ha & _ & Ha2) (Hb & Hb1 & _) Hlt.
    destruct (lookup_lt_is_Some_2 keys a) as [k Hk]; [lia|].
    rewrite Forall_lookup in Ha2, Hb1.
    assert (blt key k) by (apply (Ha2 0%nat); rewrite lookup_drop, Nat.add_0_r; done).
    assert (blt k key) by (apply (Hb1 a); rewrite lookup_take_lt by lia; done).
    by apply (blt_asym key k). }
  intros H1 H2. pose proof (Hle c c' H1 H2). pose proof (Hle c' c H2 H1). lia.
Qed.

Section sorted_keys.
Context (found : Z -> Z) (keys : list bytes) (key : bytes).
Context (Hs : StronglySorted blt keys).

Lemma sorted_keys_lt i j :
  0 <= i -> i < j < zlen keys -> exists k k',
    keys !! Z.to_nat i = Some k /\ keys !! Z.to_nat j = Some k' /\ blt k k'.
Proof.
  intros H0 H1. destruct (lookup_lt_is_Some_2 keys (Z.to_nat i)) as [k Hk];
    [unfold zlen in *; lia|].
  destruct (lookup_lt_is_Some_2 keys (Z.to_nat j)) as [k' Hk']; [unfold zlen in *; lia|].
  exists k, k'. split_and!; [done..|].
  apply (StronglySorted_lookup_lt _ keys (Z.to_nat i) (Z.to_nat j)); auto; lia.
Qed.

Lemma key_probe_right i j :
  0 <= i -> i < j < zlen keys ->
  key_probe found keys key j = GoRight -> key_probe found keys key i = GoRight.
Proof.
  intros H0 H1 Hj. destruct (sorted_keys_lt i j H0 H1) as (k & k' & E1 & E2 & Hlt).
  unfold key_probe in *. rewrite E2 in Hj. rewrite E1.
  destruct (bytes_cmp k' key) eqn:Ec; try done. by rewrite (blt_trans _ _ _ Hlt Ec).
Qed.

Lemma key_probe_left i j :
  0 <= i -> i < j < zlen keys ->
  key_probe found keys key i = GoLeft -> key_probe found keys key j = GoLeft.
Proof.
  intros H0 H1 Hi. destruct (sorted_keys_lt i j H0 H1) as (k & k' & E1 & E2 & Hlt).
  unfold key_probe in *. rewrite E1 in Hi. rewrite E2.
  destruct (bytes_cmp k key) eqn:Ec; try done. apply bytes_cmp_gt in Ec.
  by rewrite (proj2 (bytes_cmp_gt k' key) (blt_trans _ _ _ Ec Hlt)).
Qed.

Lemma key_probe_boundary c :
  0 <= c <= zlen keys ->
  (forall i, 0 <= i < c -> key_probe found keys key i = GoRight) ->
  (forall i, c <= i < zlen keys -> key_probe found keys key i = GoLeft) ->
  insertion_point keys key (Z.to_nat c).
Proof.
  intros Hc HR HL. split; [unfold zlen in *; lia|]. rewrite !Forall_lookup. split.
  - intros i k Hi. apply lookup_take_Some in Hi as [Hi Hlt].
    pose proof (HR (Z.of_nat i) ltac:(lia)) as Hg. unfold key_probe in Hg.
    rewrite Nat2Z.id, Hi in Hg. by destruct (bytes_cmp k key) eqn:?.
  - intros i k Hi. rewrite lookup_drop in Hi. pose proof (lookup_lt_Some _ _ _ Hi).
    pose proof (HL (Z.of_nat (Z.to_nat c + i)) ltac:(unfold zlen in *; lia)) as Hg.
    unfold key_probe in Hg. rewrite Nat2Z.id, Hi in Hg.
    destruct (bytes_cmp k key) eqn:Ec; try done. by apply bytes_cmp_gt.
Qed.

Lemma bsearch_keys {E} (body : Z -> result E (probe Z)) fuel :
  zlen keys <= Z.of_nat fuel ->
  (forall i, 0 <= i < zlen keys -> body i = Ok (key_probe found keys key i)) ->
  (exists i, bsearch fuel body 0 (zlen keys) = Ok (inl (found (Z.of_nat i))) /\
             keys !! i = Some key) \/
  (exists c, bsearch fuel body 0 (zlen keys) = Ok (inr (Z.of_nat c)) /\
             insertion_point keys key c).
Proof.
  intros Hf Hb. pose proof (zlen_nonneg keys).
  destruct (bsearch_spec body (key_probe found keys key) 0 (zlen keys) Hb key_probe_right
    key_probe_left fuel 0 (zlen keys)
    ltac:(lia) ltac:(lia) ltac:(lia) ltac:(lia) ltac:(intros; lia) ltac:(intros; lia))
    as [(i & r & Hr & Hi & Hc)|(c & Hr & Hc & HR & HL)].
  - left. exists (Z.to_nat i). unfold key_probe in Hc.
    destruct (keys !! Z.to_nat i) as [k|] eqn:E1; [|done].
    destruct (bytes_cmp k key) eqn:Ec; try done. injection Hc as <-.
    apply bytes_cmp_eq in Ec as ->. rewrite Z2Nat.id by lia. done.
  - right. exists (Z.to_nat c). rewrite Z2Nat.id by lia. split; [done|].
    by apply key_probe_boundary.
Qed.
End sorted_keys.

(** ** Adjacent writes *)

Lemma splice_splice_app {A} (l : list A) off a off' b :
  0 <= off -> off' = off + zlen a -> off' + zlen b <= zlen l ->
  splice (splice l off a) off' b = splice l off (a ++ b).
Proof.
  intros H0 -> H1. pose proof (zlen_nonneg a). pose proof (zlen_nonneg b).
  apply list_eq. intros i.
  rewrite !lookup_splice by zlia. autorewrite with zlen.
  repeat case_decide; try lia; try done.
  - rewrite lookup_app_r by (unfold zlen in *; lia). f_equal. unfold zlen in *; lia.
  - rewrite lookup_app_l by (unfold zlen in *; lia). done.
Qed.

(** A write of the bytes that are there changes nothing. *)
Lemma splice_id {A} (l : list A) off bs :
  0 <= off -> off + zlen bs <= zlen l -> slice l off (zlen bs) = bs -> splice l off bs = l.
Proof.
  intros H0 H1 H2. apply list_eq. intros i. rewrite lookup_splice by lia.
  case_decide; [|done]. rewrite <-H2, lookup_slice by lia.
  rewrite decide_True by lia. f_equal. lia.
Qed.

Lemma slice_join {A} (l : list A) off n off' m :
  0 <= off -> 0 <= n -> 0 <= m -> off' = off + n ->
  slice l off n ++ slice l off' m = slice l off (n + m).
Proof.
  intros H0 H1 H2 ->. unfold slice.
  rewrite !Z2Nat.inj_add by lia. rewrite <-drop_drop. apply take_take_drop.
Qed.

(** Re-encoding a field that was read gives its bytes back. *)
Lemma le_bytes_slice b off n :
  Forall byte_ok b -> 0 <= off -> off + Z.of_nat n <= zlen b ->
  le_bytes n (le_val (slice b off (Z.of_nat n))) = slice b off (Z.of_nat n).
Proof.
  intros Hb H0 H1.
  pose proof (le_bytes_le_val (slice b off (Z.of_nat n)) (Forall_slice _ _ _ _ Hb)) as E.
  replace (length (slice b off (Z.of_nat n))) with n in E; [done|].
  pose proof (zlen_slice b off (Z.of_nat n)). unfold zlen in *. lia.
Qed.

Lemma slice_1 b off : 0 <= off -> off + 1 <= zlen b -> [u8_at b off] = slice b off 1.
Proof.
  intros. unfold u8_at. pose proof (zlen_slice b off 1) as Hz.
  destruct (slice b off 1) as [|x [|y l]]; unfold zlen in *; cbn [length] in *; try lia.
  cbn [le_val]. f_equal. lia.
Qed.

(** Restate the offset of the slice on the left of the goal. *)
Ltac slice_from o :=
  lazymatch goal with |- slice _ ?x _ = _ => replace x with o by lia end.

(** ** Sets of page numbers *)

(** Membership goals, from the membership facts in the context alone *)
Ltac keep_sets :=
  repeat match goal with
  | H : ?T |- _ =>
      let Ty := type of T in unify Ty Prop;
      lazymatch T with
      | _ ∉ _ => fail | _ ∈ _ => fail | _ ## _ => fail | _ ⊆ _ => fail
      | @eq Z _ _ => fail | @eq (gset Z) _ _ => fail | ~ (@eq Z _ _) => fail
      | _ => clear H
      end
  end.
Ltac sets := keep_sets; set_solver.

(** Disjointness of unions: taken apart, then looked up *)
Ltac disj_norm :=
  repeat match goal with
  | H : _ ∪ _ ## _ |- _ => apply disjoint_union_l in H as [? ?]
  | H : _ ## _ ∪ _ |- _ => apply disjoint_union_r in H as [? ?]
  | H : _ ∉ _ ∪ _ |- _ => apply not_elem_of_union in H as [? ?]
  | H : {[_]} ## _ |- _ => apply disjoint_singleton_l in H
  | H : _ ## {[_]} |- _ => apply disjoint_singleton_r in H
  | H : _ ∉ {[_]} |- _ => apply not_elem_of_singleton in H
  | |- _ ∪ _ ## _ => apply disjoint_union_l; split
  | |- _ ## _ ∪ _ => apply disjoint_union_r; split
  | |- _ ∉ _ ∪ _ => apply not_elem_of_union; split
  | |- {[_]} ## _ => apply disjoint_singleton_l
  | |- _ ## {[_]} => apply disjoint_singleton_r
  | |- _ ∉ {[_]} => apply not_elem_of_singleton
  | |- ∅ ## _ => apply disjoint_empty_l
  | |- _ ## ∅ => apply disjoint_empty_r
  | |- _ ∉ ∅ => apply not_elem_of_empty
  end.
Ltac disj :=
  disj_norm; first [assumption | symmetry; assumption | congruence
                   | apply not_eq_sym; assumption].
