(* ===== verification/Vfs.v ===== *)
(** * Files ([crates/reddb-file/src/vfs.rs])

    The operations of [VfsFile] that the pager uses, on a file whose writes are durable
    only after a sync.  Operations fail from a point on that the file fixes, so that a
    theorem about every file is one about a first fault at any operation; a device that works
    again after a fault is not modelled.  A crash keeps an arbitrary selection of the bytes
    that were not synced. *)

From S2P Require Import Prelude.
From Stdlib Require Import ZArith Lia.

(** ** The bytes of a file *)

(** The byte at [i]; behind the end a file reads as zeros once it is extended. *)
Definition file_byte (b : bytes) (i : Z) : Z := default 0 (zget b i).

(** A write at an offset, which extends the file when it ends behind it *)
Definition write_at (b : bytes) (off : Z) (data : bytes) : bytes :=
  if zlen data =? 0 then b else splice (b ++ zeros (off + zlen data - zlen b)) off data.

(** ** The handle

    [stable] survives a crash; [unsynced] are the writes since the last sync, oldest
    first.  With [faults = Some (n, k)] the next [n] operations succeed and all later
    ones fail, a failing write after [k] of its bytes. *)
Record File : Type := {
  stable : bytes;
  unsynced : list (Z * bytes);
  cursor : Z;
  faults : option (nat * nat);
}.

Definition live (f : File) : bytes := foldl (fun b w => write_at b w.1 w.2) (stable f) (unsynced f).

Definition set_cursor (pos : Z) (f : File) : File :=
  {| stable := stable f; unsynced := unsynced f; cursor := pos; faults := faults f |}.
Definition set_faults (x : option (nat * nat)) (f : File) : File :=
  {| stable := stable f; unsynced := unsynced f; cursor := cursor f; faults := x |}.
Definition add_write (data : bytes) (f : File) : File :=
  {| stable := stable f; unsynced := unsynced f ++ [(cursor f, data)]; cursor := cursor f + zlen data;
     faults := faults f |}.
Definition settle (f : File) : File :=
  {| stable := live f; unsynced := []; cursor := cursor f; faults := faults f |}.

(** An operation, or what is left of it when it fails *)
Definition attempt {A} (ok : eff File string A) (torn : nat -> File -> File) : eff File string A := fun f =>
  match faults f with
  | None => ok f
  | Some (O, k) => (torn k f, Err "i/o error")
  | Some (Datatypes.S n, k) => ok (set_faults (Some (n, k)) f)
  end.

(** [seek(SeekFrom::Start(pos))] *)
Definition seek (pos : Z) : eff File string unit := attempt (fun f => (set_cursor pos f, Ok tt)) (fun _ f => f).

Definition write_all (data : bytes) : eff File string unit :=
  attempt (fun f => (add_write data f, Ok tt)) (fun k f => add_write (take k data) f).

Definition read_exact (n : Z) : eff File string bytes :=
  attempt (fun f =>
    if cursor f + n <=? zlen (live f)
    then (set_cursor (cursor f + n) f, Ok (slice (live f) (cursor f) n))
    else (f, Err "failed to fill whole buffer")) (fun _ f => f).

Definition sync_all : eff File string unit := attempt (fun f => (settle f, Ok tt)) (fun _ f => f).

Definition file_len : eff File string Z := attempt (fun f => (f, Ok (zlen (live f)))) (fun _ f => f).

(** ** Crashes *)

(** The bytes [c] may be found after a crash: every byte is the stable one or one that
    a write put there. *)
Definition crash_image (f : File) (c : bytes) : Prop :=
  zlen (stable f) <= zlen c /\
  forall i, 0 <= i ->
    file_byte c i = file_byte (stable f) i \/
    exists w, w ∈ unsynced f /\ zget w.2 (i - w.1) = Some (file_byte c i).

(** The file after the crash, opened again *)
Definition reopen (c : bytes) (x : option (nat * nat)) : File :=
  {| stable := c; unsynced := []; cursor := 0; faults := x |}.

(** * Lemmas *)

Lemma zget_None {A} (l : list A) i : i < 0 \/ zlen l <= i -> zget l i = None.
Proof.
  intros Hi. unfold zget. destruct (Z.ltb_spec i 0); [done|]. apply lookup_ge_None. unfold zlen in Hi. lia.
Qed.

Lemma zget_is_Some {A} (l : list A) i : is_Some (zget l i) <-> 0 <= i < zlen l.
Proof.
  unfold zget. destruct (Z.ltb_spec i 0); [split; [intros [? ?]; done|lia]|].
  rewrite lookup_lt_is_Some. unfold zlen. lia.
Qed.

Lemma zget_slice {A} (l : list A) o n i :
  0 <= o -> 0 <= n -> zget (slice l o n) i = if decide (0 <= i < n) then zget l (o + i) else None.
Proof.
  intros. unfold zget. destruct (Z.ltb_spec i 0); [by rewrite decide_False by lia|].
  rewrite lookup_slice by lia. rewrite Z2Nat.id by lia. destruct (decide (i < n)).
  - rewrite decide_True by lia. destruct (Z.ltb_spec (o + i) 0); [lia|]. f_equal. lia.
  - by rewrite decide_False by lia.
Qed.

Lemma file_byte_default b i : i < 0 \/ zlen b <= i -> file_byte b i = 0.
Proof. intros. unfold file_byte. by rewrite zget_None. Qed.

Lemma file_byte_get b i x : zget b i = Some x -> file_byte b i = x.
Proof. intros E. unfold file_byte. by rewrite E. Qed.

Lemma zget_file_byte b i : 0 <= i < zlen b -> zget b i = Some (file_byte b i).
Proof. intros Hi. apply zget_is_Some in Hi as [x E]. by rewrite (file_byte_get _ _ _ E). Qed.

Lemma file_byte_splice b off data i :
  0 <= off -> off + zlen data <= zlen b ->
  file_byte (splice b off data) i = default (file_byte b i) (zget data (i - off)).
Proof.
  intros H1 H2. unfold file_byte, zget. destruct (Z.ltb_spec i 0) as [Hi|Hi].
  { destruct (Z.ltb_spec (i - off) 0); [done|lia]. }
  rewrite lookup_splice by done. rewrite Z2Nat.id by lia. pose proof (zlen_nonneg data). case_decide as Hd.
  - destruct (Z.ltb_spec (i - off) 0); [lia|]. replace (Z.to_nat i - Z.to_nat off)%nat with (Z.to_nat (i - off)) by lia.
    destruct (lookup_lt_is_Some_2 data (Z.to_nat (i - off))) as [x E]; [unfold zlen in *; lia|]. by rewrite E.
  - destruct (Z.ltb_spec (i - off) 0); [done|]. rewrite (lookup_ge_None_2 data); [done|]. unfold zlen in *. lia.
Qed.

Lemma file_byte_zeros b n i : file_byte (b ++ zeros n) i = file_byte b i.
Proof.
  unfold file_byte, zget. destruct (Z.ltb_spec i 0); [done|].
  destruct (decide (Z.to_nat i < length b)%nat).
  - by rewrite lookup_app_l.
  - rewrite lookup_app_r by lia. rewrite (lookup_ge_None_2 b) by lia. unfold zeros.
    destruct (replicate (Z.to_nat n) 0 !! _) as [x|] eqn:E; [|done]. by apply lookup_replicate in E as [-> _].
Qed.

Lemma file_byte_write_at b off data i :
  0 <= off -> file_byte (write_at b off data) i = default (file_byte b i) (zget data (i - off)).
Proof.
  intros Ho. unfold write_at. destruct (Z.eqb_spec (zlen data) 0) as [E|E].
  { apply zlen_nil_inv in E as ->. by rewrite (zget_None (@nil Z)) by (change (zlen (@nil Z)) with 0; lia). }
  rewrite file_byte_splice; [by rewrite file_byte_zeros|done|].
  rewrite zlen_app. pose proof (zlen_nonneg data). pose proof (zlen_nonneg b). unfold zlen at 3, zeros.
  rewrite length_replicate. lia.
Qed.

Lemma zlen_write_at b off data :
  0 <= off -> zlen (write_at b off data) = if zlen data =? 0 then zlen b else Z.max (zlen b) (off + zlen data).
Proof.
  intros. unfold write_at. destruct (zlen data =? 0); [done|]. rewrite zlen_splice, zlen_app.
  unfold zlen at 2, zeros. rewrite length_replicate. lia.
Qed.

Lemma zlen_write_at_ge b off data : 0 <= off -> zlen b <= zlen (write_at b off data).
Proof. intros. rewrite zlen_write_at by done. destruct (zlen data =? 0); lia. Qed.

(** Files with the same bytes, whatever their lengths *)
Definition same_bytes (a b : bytes) : Prop := forall i, 0 <= i -> file_byte a i = file_byte b i.

#[export] Instance same_bytes_equiv : Equivalence same_bytes.
Proof.
  split; [by intros a i|by intros a b H i Hi; rewrite H|by intros a b c H1 H2 i Hi; rewrite H1, H2].
Qed.

Lemma slice_same a b o n :
  0 <= o -> 0 <= n -> o + n <= zlen a -> o + n <= zlen b ->
  (forall i, o <= i < o + n -> file_byte a i = file_byte b i) -> slice a o n = slice b o n.
Proof.
  intros Ho Hn Ha Hb Hs. apply list_eq. intros j.
  destruct (decide (Z.of_nat j < n)) as [Hj|Hj].
  2:{ rewrite !lookup_slice by done. by rewrite !decide_False. }
  pose proof (Hs (o + Z.of_nat j) ltac:(lia)) as E.
  pose proof (zget_file_byte a (o + Z.of_nat j) ltac:(lia)) as Ea.
  pose proof (zget_file_byte b (o + Z.of_nat j) ltac:(lia)) as Eb.
  rewrite !lookup_slice by done. rewrite !decide_True by done. unfold zget in Ea, Eb.
  destruct (Z.ltb_spec (o + Z.of_nat j) 0); [lia|].
  replace (Z.to_nat o + j)%nat with (Z.to_nat (o + Z.of_nat j)) by lia. congruence.
Qed.

Lemma file_byte_slice b o n i :
  0 <= o -> 0 <= n -> 0 <= i < n -> file_byte (slice b o n) i = file_byte b (o + i).
Proof. intros. unfold file_byte. rewrite zget_slice by done. by rewrite decide_True. Qed.

(** Writes inside a range leave the rest of the file alone. *)
Definition inside (lo hi : Z) (w : Z * bytes) : Prop := lo <= w.1 /\ w.1 + zlen w.2 <= hi.

Lemma live_outside f i :
  Forall (fun w => 0 <= w.1 /\ zget w.2 (i - w.1) = None) (unsynced f) -> file_byte (live f) i = file_byte (stable f) i.
Proof.
  unfold live. generalize (stable f). induction (unsynced f) as [|w ws IH]; intros b Hf; [done|].
  apply Forall_cons in Hf as [[Hw0 Hw] Hf]. cbn [foldl]. rewrite IH by done. by rewrite file_byte_write_at, Hw.
Qed.

Lemma inside_outside lo hi w i : inside lo hi w -> 0 <= lo -> i < lo \/ hi <= i -> 0 <= w.1 /\ zget w.2 (i - w.1) = None.
Proof. intros [H1 H2] Hlo Hi. split; [lia|]. apply zget_None. lia. Qed.

Lemma crash_outside f c lo hi i :
  crash_image f c -> Forall (inside lo hi) (unsynced f) -> 0 <= lo -> 0 <= i -> i < lo \/ hi <= i ->
  file_byte c i = file_byte (stable f) i.
Proof.
  intros [_ Hc] Hf Hlo Hi Ho. destruct (Hc i Hi) as [E|(w & Hw & E)]; [done|].
  rewrite Forall_forall in Hf. destruct (inside_outside lo hi w i (Hf w Hw) Hlo Ho) as [_ E']. congruence.
Qed.

Lemma crash_synced f c : crash_image f c -> unsynced f = [] -> same_bytes c (stable f).
Proof.
  intros [_ Hc] E i Hi. destruct (Hc i Hi) as [?|(w & Hw & _)]; [done|]. rewrite E in Hw. by apply elem_of_nil in Hw.
Qed.

Lemma zlen_live_ge f : Forall (fun w => 0 <= w.1) (unsynced f) -> zlen (stable f) <= zlen (live f).
Proof.
  unfold live. generalize (stable f). induction (unsynced f) as [|w ws IH]; intros b Hf; [done|].
  apply Forall_cons in Hf as [Hw Hf]. cbn [foldl]. etrans; [by apply (zlen_write_at_ge b w.1 w.2)|by apply IH].
Qed.

(** Without a crash nothing is lost. *)
Lemma live_crash_image f : Forall (fun w => 0 <= w.1) (unsynced f) -> crash_image f (live f).
Proof.
  intros Hf. split; [by apply zlen_live_ge|]. intros i _. unfold live.
  assert (Hg : forall b ws, Forall (fun w => 0 <= w.1) ws ->
    file_byte (foldl (fun b w => write_at b w.1 w.2) b ws) i = file_byte b i \/
    exists w, w ∈ ws /\ zget w.2 (i - w.1) = Some (file_byte (foldl (fun b w => write_at b w.1 w.2) b ws) i)).
  { intros b ws. revert b. induction ws as [|w ws IH]; intros b Hw; [by left|].
    apply Forall_cons in Hw as [Hw0 Hw]. cbn [foldl]. destruct (IH (write_at b w.1 w.2) Hw) as [E|(w' & Hw' & E)].
    - rewrite E, file_byte_write_at by done. destruct (zget w.2 (i - w.1)) as [x|] eqn:Ex; [|by left].
      right. exists w. split; [left|done].
    - right. exists w'. split; [by right|done]. }
  by apply Hg.
Qed.
