(* ===== verification/FileFormat.v ===== *)
(** * The paged file format ([crates/reddb-file/src/file_format.rs])

    Page header, cell pointers and cells of a paged-store page; the database
    header of page 0; the double-write-buffer frame; the superblock pair.
    Every function works on the bytes themselves: a page is the array of its
    16384 bytes. *)

From S2P Require Import Prelude.
From Stdlib Require Import ZArith Lia.

(** ** Constants *)

Definition PAGE_FILE_MAGIC : bytes := [0x52; 0x44; 0x44; 0x42].
Definition PAGE_DWB_ZONE_FILE_VERSION : Z := 0x00010001.
Definition PAGE_CHECKPOINT_UNDO_FILE_VERSION : Z := 0x00010003.
Definition PAGE_DISK_RESIDENCY_FILE_VERSION : Z := 0x00010004.
Definition PAGE_RECOVERY_READ_ONLY_FILE_VERSION : Z := 0x00010006.
Definition PAGE_FILE_VERSION : Z := PAGE_RECOVERY_READ_ONLY_FILE_VERSION.

Definition PAGED_PAGE_SIZE : Z := 16384.
Definition PAGED_PAGE_HEADER_SIZE : Z := 32.
Definition PAGED_CELL_POINTER_SIZE : Z := 2.
Definition PAGED_CELL_HEADER_SIZE : Z := 6.

(** ** Errors and bounded reads and writes *)

Inductive DatabaseHeaderError : Type :=
| ShortPage (need got : Z)
| InvalidMagic
| UnsupportedPageSize (size : Z)
| UnsupportedDatabaseVersion (file_version supported : Z).

Definition ensure_len (b : bytes) (need : Z) : result DatabaseHeaderError unit :=
  if zlen b <? need then Err (ShortPage need (zlen b)) else Ok tt.

Definition read_u32 (b : bytes) (off : Z) : result DatabaseHeaderError Z :=
  _ ← ensure_len b (off + 4); Ok (u32_at b off).
Definition read_u16 (b : bytes) (off : Z) : result DatabaseHeaderError Z :=
  _ ← ensure_len b (off + 2); Ok (u16_at b off).
Definition read_u64 (b : bytes) (off : Z) : result DatabaseHeaderError Z :=
  _ ← ensure_len b (off + 8); Ok (u64_at b off).

Definition write_u32 (b : bytes) (off v : Z) : result DatabaseHeaderError bytes :=
  _ ← ensure_len b (off + 4); Ok (put_u32 b off v).
Definition write_u16 (b : bytes) (off v : Z) : result DatabaseHeaderError bytes :=
  _ ← ensure_len b (off + 2); Ok (put_u16 b off v).
Definition write_u64 (b : bytes) (off v : Z) : result DatabaseHeaderError bytes :=
  _ ← ensure_len b (off + 8); Ok (put_u64 b off v).

(** ** The page header *)

Record PagedPageHeader : Type := {
  pph_page_type : Z;
  pph_flags : Z;
  pph_cell_count : Z;
  pph_free_start : Z;
  pph_free_end : Z;
  pph_page_id : Z;
  pph_parent_id : Z;
  pph_right_child : Z;
  pph_lsn : Z;
  pph_checksum : Z;
}.

Definition encode_paged_page_header (h : PagedPageHeader) : bytes :=
  let buf := zeros PAGED_PAGE_HEADER_SIZE in
  let buf := put_u8 buf 0 (pph_page_type h) in
  let buf := put_u8 buf 1 (pph_flags h) in
  let buf := put_u16 buf 2 (pph_cell_count h) in
  let buf := put_u16 buf 4 (pph_free_start h) in
  let buf := put_u16 buf 6 (pph_free_end h) in
  let buf := put_u32 buf 8 (pph_page_id h) in
  let buf := put_u32 buf 12 (pph_parent_id h) in
  let buf := put_u32 buf 16 (pph_right_child h) in
  let buf := put_u64 buf 20 (pph_lsn h) in
  put_u32 buf 28 (pph_checksum h).

Definition decode_paged_page_header (buf : bytes) : PagedPageHeader := {|
  pph_page_type := u8_at buf 0;
  pph_flags := u8_at buf 1;
  pph_cell_count := u16_at buf 2;
  pph_free_start := u16_at buf 4;
  pph_free_end := u16_at buf 6;
  pph_page_id := u32_at buf 8;
  pph_parent_id := u32_at buf 12;
  pph_right_child := u32_at buf 16;
  pph_lsn := u64_at buf 20;
  pph_checksum := u32_at buf 28;
|}.

(** The field accessors [.expect] a read that cannot fail on a whole page
    ([read_u32_ok] and its siblings below), so they are total here. *)

Definition paged_page_type (page : bytes) : Z := u8_at page 0.
Definition paged_page_id (page : bytes) : Z := u32_at page 8.
Definition paged_page_lsn (page : bytes) : Z := u64_at page 20.
Definition set_paged_page_lsn (page : bytes) (lsn : Z) : bytes := put_u64 page 20 lsn.
Definition paged_page_cell_count (page : bytes) : Z := u16_at page 2.
Definition set_paged_page_cell_count (page : bytes) (count : Z) : bytes := put_u16 page 2 count.
Definition paged_page_parent_id (page : bytes) : Z := u32_at page 12.
Definition set_paged_page_parent_id (page : bytes) (id : Z) : bytes := put_u32 page 12 id.
Definition paged_page_right_child (page : bytes) : Z := u32_at page 16.
Definition set_paged_page_right_child (page : bytes) (id : Z) : bytes := put_u32 page 16 id.
Definition paged_page_free_start (page : bytes) : Z := u16_at page 4.
Definition set_paged_page_free_start (page : bytes) (off : Z) : bytes := put_u16 page 4 off.
Definition paged_page_free_end (page : bytes) : Z := u16_at page 6.
Definition set_paged_page_free_end (page : bytes) (off : Z) : bytes := put_u16 page 6 off.
Definition paged_page_checksum (page : bytes) : Z := u32_at page 28.
Definition clear_paged_page_checksum (page : bytes) : bytes := put_u32 page 28 0.
Definition set_paged_page_checksum (page : bytes) (sum : Z) : bytes := put_u32 page 28 sum.

(** ** Cell pointers and cells *)

Definition paged_cell_pointer_offset (index : Z) : option Z :=
  m ← checked_mul index PAGED_CELL_POINTER_SIZE;
  offset ← checked_add PAGED_PAGE_HEADER_SIZE m;
  if offset + PAGED_CELL_POINTER_SIZE <=? PAGED_PAGE_SIZE then Some offset else None.

Definition paged_cell_pointer (page : bytes) (index : Z) : option Z :=
  off ← paged_cell_pointer_offset index; result_ok (read_u16 page off).

Definition paged_cell_pointer_is_valid (pointer : Z) : bool :=
  (PAGED_PAGE_HEADER_SIZE <=? pointer) && (pointer <? PAGED_PAGE_SIZE).

(** [None] is the code's [false]: nothing was written. *)
Definition set_paged_cell_pointer (page : bytes) (index pointer : Z) : option bytes :=
  off ← paged_cell_pointer_offset index;
  if paged_cell_pointer_is_valid pointer then result_ok (write_u16 page off pointer) else None.

Definition paged_cell_len (key_len value_len : Z) : option Z :=
  n ← checked_add PAGED_CELL_HEADER_SIZE key_len; checked_add n value_len.

Definition paged_cell_total_len (page : bytes) (pointer : Z) : option Z :=
  if PAGED_PAGE_SIZE <? pointer + PAGED_CELL_HEADER_SIZE then None
  else
    key_len ← result_ok (read_u16 page pointer);
    value_len ← result_ok (read_u32 page (pointer + 2));
    total_len ← paged_cell_len key_len value_len;
    if pointer + total_len <=? PAGED_PAGE_SIZE then Some total_len else None.

Definition paged_cell_bytes (page : bytes) (pointer : Z) : option bytes :=
  total_len ← paged_cell_total_len page pointer; Some (slice page pointer total_len).

Definition paged_cell_key_value (cell : bytes) : option (bytes * bytes) :=
  if zlen cell <? PAGED_CELL_HEADER_SIZE then None
  else
    let key_len := u16_at cell 0 in
    let value_len := u32_at cell 2 in
    total_len ← paged_cell_len key_len value_len;
    if zlen cell <? total_len then None
    else
      let key_start := PAGED_CELL_HEADER_SIZE in
      let value_start := key_start + key_len in
      Some (slice cell key_start key_len, slice cell value_start value_len).

(** [None] is the code's [false]: nothing was written. *)
Definition write_paged_cell (page : bytes) (offset : Z) (key value : bytes) : option bytes :=
  if U16_MAX <? zlen key then None
  else if U32_MAX <? zlen value then None
  else
    total_len ← paged_cell_len (zlen key) (zlen value);
    if PAGED_PAGE_SIZE <? offset + total_len then None
    else
      let page := put_u16 page offset (zlen key) in
      let page := put_u32 page (offset + 2) (zlen value) in
      let page := splice page (offset + PAGED_CELL_HEADER_SIZE) key in
      Some (splice page (offset + PAGED_CELL_HEADER_SIZE + zlen key) value).

(** ** The encryption marker and header of page 0 *)

Definition PAGED_ENCRYPTION_MARKER : bytes := [0x52; 0x44; 0x42; 0x45].
Definition PAGED_ENCRYPTION_MARKER_OFFSET : Z := PAGED_PAGE_HEADER_SIZE + 32.
Definition PAGED_ENCRYPTION_SALT_SIZE : Z := 32.
Definition PAGED_ENCRYPTION_KEY_CHECK_BLOB_SIZE : Z := 60.
Definition PAGED_ENCRYPTION_HEADER_SIZE : Z :=
  PAGED_ENCRYPTION_SALT_SIZE + PAGED_ENCRYPTION_KEY_CHECK_BLOB_SIZE.

Record PagedEncryptionHeader : Type := { peh_salt : bytes; peh_key_check : bytes }.

Definition encode_paged_encryption_header (h : PagedEncryptionHeader) : bytes :=
  peh_salt h ++ peh_key_check h.

Definition decode_paged_encryption_header (data : bytes)
    : result DatabaseHeaderError PagedEncryptionHeader :=
  _ ← ensure_len data PAGED_ENCRYPTION_HEADER_SIZE;
  Ok {| peh_salt := slice data 0 PAGED_ENCRYPTION_SALT_SIZE;
        peh_key_check := slice data PAGED_ENCRYPTION_SALT_SIZE
                           (PAGED_ENCRYPTION_HEADER_SIZE - PAGED_ENCRYPTION_SALT_SIZE) |}.

(** [page.get(a..a+n)]: [None] when the range is out of bounds. *)
Definition get_range (b : bytes) (off n : Z) : option bytes :=
  if off + n <=? zlen b then Some (slice b off n) else None.

Definition paged_encryption_marker_present (page : bytes) : bool :=
  bool_decide (get_range page PAGED_ENCRYPTION_MARKER_OFFSET 4 = Some PAGED_ENCRYPTION_MARKER).

Definition paged_encryption_header_bytes (page : bytes) : option bytes :=
  get_range page (PAGED_ENCRYPTION_MARKER_OFFSET + zlen PAGED_ENCRYPTION_MARKER)
    PAGED_ENCRYPTION_HEADER_SIZE.

Definition write_paged_encryption_marker_and_header (page header_bytes : bytes)
    : result DatabaseHeaderError bytes :=
  let marker_end := PAGED_ENCRYPTION_MARKER_OFFSET + zlen PAGED_ENCRYPTION_MARKER in
  let header_end := marker_end + zlen header_bytes in
  _ ← ensure_len page header_end;
  let page := splice page PAGED_ENCRYPTION_MARKER_OFFSET PAGED_ENCRYPTION_MARKER in
  Ok (splice page marker_end header_bytes).

(** ** The database header of page 0 *)

Definition DB_MAGIC_OFFSET : Z := PAGED_PAGE_HEADER_SIZE.
Definition DB_VERSION_OFFSET : Z := PAGED_PAGE_HEADER_SIZE + 4.
Definition DB_PAGE_SIZE_OFFSET : Z := PAGED_PAGE_HEADER_SIZE + 8.
Definition DB_PAGE_COUNT_OFFSET : Z := PAGED_PAGE_HEADER_SIZE + 12.
Definition DB_FREELIST_HEAD_OFFSET : Z := PAGED_PAGE_HEADER_SIZE + 16.
Definition DB_SCHEMA_VERSION_OFFSET : Z := PAGED_PAGE_HEADER_SIZE + 20.
Definition DB_CHECKPOINT_LSN_OFFSET : Z := PAGED_PAGE_HEADER_SIZE + 24.
Definition DB_PHYSICAL_FORMAT_VERSION_OFFSET : Z := PAGED_PAGE_HEADER_SIZE + 32.
Definition DB_PHYSICAL_SEQUENCE_OFFSET : Z := PAGED_PAGE_HEADER_SIZE + 36.
Definition DB_MANIFEST_ROOT_OFFSET : Z := PAGED_PAGE_HEADER_SIZE + 44.
Definition DB_MANIFEST_OLDEST_ROOT_OFFSET : Z := PAGED_PAGE_HEADER_SIZE + 52.
Definition DB_FREE_SET_ROOT_OFFSET : Z := PAGED_PAGE_HEADER_SIZE + 60.
Definition DB_MANIFEST_PAGE_OFFSET : Z := PAGED_PAGE_HEADER_SIZE + 68.
Definition DB_MANIFEST_CHECKSUM_OFFSET : Z := PAGED_PAGE_HEADER_SIZE + 72.
Definition DB_COLLECTION_ROOTS_PAGE_OFFSET : Z := PAGED_PAGE_HEADER_SIZE + 80.
Definition DB_COLLECTION_ROOTS_CHECKSUM_OFFSET : Z := PAGED_PAGE_HEADER_SIZE + 84.
Definition DB_COLLECTION_ROOT_COUNT_OFFSET : Z := PAGED_PAGE_HEADER_SIZE + 92.
Definition DB_SNAPSHOT_COUNT_OFFSET : Z := PAGED_PAGE_HEADER_SIZE + 96.
Definition DB_INDEX_COUNT_OFFSET : Z := PAGED_PAGE_HEADER_SIZE + 100.
Definition DB_CATALOG_COLLECTION_COUNT_OFFSET : Z := PAGED_PAGE_HEADER_SIZE + 104.
Definition DB_CATALOG_TOTAL_ENTITIES_OFFSET : Z := PAGED_PAGE_HEADER_SIZE + 108.
Definition DB_EXPORT_COUNT_OFFSET : Z := PAGED_PAGE_HEADER_SIZE + 116.
Definition DB_GRAPH_PROJECTION_COUNT_OFFSET : Z := PAGED_PAGE_HEADER_SIZE + 120.
Definition DB_ANALYTICS_JOB_COUNT_OFFSET : Z := PAGED_PAGE_HEADER_SIZE + 124.
Definition DB_MANIFEST_EVENT_COUNT_OFFSET : Z := PAGED_PAGE_HEADER_SIZE + 128.
Definition DB_REGISTRY_PAGE_OFFSET : Z := PAGED_PAGE_HEADER_SIZE + 132.
Definition DB_REGISTRY_CHECKSUM_OFFSET : Z := PAGED_PAGE_HEADER_SIZE + 136.
Definition DB_RECOVERY_PAGE_OFFSET : Z := PAGED_PAGE_HEADER_SIZE + 144.
Definition DB_RECOVERY_CHECKSUM_OFFSET : Z := PAGED_PAGE_HEADER_SIZE + 148.
Definition DB_CATALOG_PAGE_OFFSET : Z := PAGED_PAGE_HEADER_SIZE + 156.
Definition DB_CATALOG_CHECKSUM_OFFSET : Z := PAGED_PAGE_HEADER_SIZE + 160.
Definition DB_METADATA_STATE_PAGE_OFFSET : Z := PAGED_PAGE_HEADER_SIZE + 168.
Definition DB_METADATA_STATE_CHECKSUM_OFFSET : Z := PAGED_PAGE_HEADER_SIZE + 172.
Definition DB_VECTOR_ARTIFACT_PAGE_OFFSET : Z := PAGED_PAGE_HEADER_SIZE + 180.
Definition DB_VECTOR_ARTIFACT_CHECKSUM_OFFSET : Z := PAGED_PAGE_HEADER_SIZE + 184.
Definition DB_CHECKPOINT_IN_PROGRESS_OFFSET : Z := PAGED_PAGE_HEADER_SIZE + 192.
Definition DB_CHECKPOINT_TARGET_LSN_OFFSET : Z := PAGED_PAGE_HEADER_SIZE + 193.
Definition DB_HEADER_MIN_LEN : Z := DB_CHECKPOINT_TARGET_LSN_OFFSET + 8.

Record PhysicalFileHeader : Type := {
  format_version : Z;
  sequence : Z;
  manifest_oldest_root : Z;
  manifest_root : Z;
  free_set_root : Z;
  manifest_page : Z;
  manifest_checksum : Z;
  collection_roots_page : Z;
  collection_roots_checksum : Z;
  collection_root_count : Z;
  snapshot_count : Z;
  index_count : Z;
  catalog_collection_count : Z;
  catalog_total_entities : Z;
  export_count : Z;
  graph_projection_count : Z;
  analytics_job_count : Z;
  manifest_event_count : Z;
  registry_page : Z;
  registry_checksum : Z;
  recovery_page : Z;
  recovery_checksum : Z;
  catalog_page : Z;
  catalog_checksum : Z;
  metadata_state_page : Z;
  metadata_state_checksum : Z;
  vector_artifact_page : Z;
  vector_artifact_checksum : Z;
}.

Definition PhysicalFileHeader_default : PhysicalFileHeader := {|
  format_version := 0;
  sequence := 0;
  manifest_oldest_root := 0;
  manifest_root := 0;
  free_set_root := 0;
  manifest_page := 0;
  manifest_checksum := 0;
  collection_roots_page := 0;
  collection_roots_checksum := 0;
  collection_root_count := 0;
  snapshot_count := 0;
  index_count := 0;
  catalog_collection_count := 0;
  catalog_total_entities := 0;
  export_count := 0;
  graph_projection_count := 0;
  analytics_job_count := 0;
  manifest_event_count := 0;
  registry_page := 0;
  registry_checksum := 0;
  recovery_page := 0;
  recovery_checksum := 0;
  catalog_page := 0;
  catalog_checksum := 0;
  metadata_state_page := 0;
  metadata_state_checksum := 0;
  vector_artifact_page := 0;
  vector_artifact_checksum := 0;
|}.

Record DatabaseHeader : Type := {
  version : Z;
  page_size : Z;
  page_count : Z;
  freelist_head : Z;
  schema_version : Z;
  checkpoint_lsn : Z;
  checkpoint_in_progress : bool;
  checkpoint_target_lsn : Z;
  physical : PhysicalFileHeader;
}.

Definition DatabaseHeader_default : DatabaseHeader := {|
  version := PAGE_CHECKPOINT_UNDO_FILE_VERSION;
  page_size := PAGED_PAGE_SIZE;
  page_count := 1;
  freelist_head := 0;
  schema_version := 0;
  checkpoint_lsn := 0;
  checkpoint_in_progress := false;
  checkpoint_target_lsn := 0;
  physical := PhysicalFileHeader_default;
|}.

Definition database_header_magic_matches (page : bytes) : bool :=
  bool_decide (get_range page DB_MAGIC_OFFSET (zlen PAGE_FILE_MAGIC) = Some PAGE_FILE_MAGIC).

Definition database_header_page_count (page : bytes) : result DatabaseHeaderError Z :=
  read_u32 page DB_PAGE_COUNT_OFFSET.
Definition set_database_header_version (page : bytes) (v : Z) : result DatabaseHeaderError bytes :=
  write_u32 page DB_VERSION_OFFSET v.
Definition set_database_header_page_count (page : bytes) (n : Z)
    : result DatabaseHeaderError bytes :=
  write_u32 page DB_PAGE_COUNT_OFFSET n.
Definition database_header_freelist_head (page : bytes) : result DatabaseHeaderError Z :=
  read_u32 page DB_FREELIST_HEAD_OFFSET.
Definition set_database_header_freelist_head (page : bytes) (id : Z)
    : result DatabaseHeaderError bytes :=
  write_u32 page DB_FREELIST_HEAD_OFFSET id.
Definition database_header_page_size (page : bytes) : result DatabaseHeaderError Z :=
  read_u32 page DB_PAGE_SIZE_OFFSET.

Definition decode_database_header (page : bytes) : result DatabaseHeaderError DatabaseHeader :=
  _ ← ensure_len page DB_HEADER_MIN_LEN;
  if negb (database_header_magic_matches page) then Err InvalidMagic
  else
    v ← read_u32 page DB_VERSION_OFFSET;
    ps ← read_u32 page DB_PAGE_SIZE_OFFSET;
    if negb (ps =? PAGED_PAGE_SIZE) then Err (UnsupportedPageSize ps)
    else if PAGE_FILE_VERSION <? v then Err (UnsupportedDatabaseVersion v PAGE_FILE_VERSION)
    else
      pc ← read_u32 page DB_PAGE_COUNT_OFFSET;
      fh ← read_u32 page DB_FREELIST_HEAD_OFFSET;
      sv ← read_u32 page DB_SCHEMA_VERSION_OFFSET;
      cl ← read_u64 page DB_CHECKPOINT_LSN_OFFSET;
      ct ← read_u64 page DB_CHECKPOINT_TARGET_LSN_OFFSET;
      f0 ← read_u32 page DB_PHYSICAL_FORMAT_VERSION_OFFSET;
      f1 ← read_u64 page DB_PHYSICAL_SEQUENCE_OFFSET;
      f2 ← read_u64 page DB_MANIFEST_OLDEST_ROOT_OFFSET;
      f3 ← read_u64 page DB_MANIFEST_ROOT_OFFSET;
      f4 ← read_u64 page DB_FREE_SET_ROOT_OFFSET;
      f5 ← read_u32 page DB_MANIFEST_PAGE_OFFSET;
      f6 ← read_u64 page DB_MANIFEST_CHECKSUM_OFFSET;
      f7 ← read_u32 page DB_COLLECTION_ROOTS_PAGE_OFFSET;
      f8 ← read_u64 page DB_COLLECTION_ROOTS_CHECKSUM_OFFSET;
      f9 ← read_u32 page DB_COLLECTION_ROOT_COUNT_OFFSET;
      f10 ← read_u32 page DB_SNAPSHOT_COUNT_OFFSET;
      f11 ← read_u32 page DB_INDEX_COUNT_OFFSET;
      f12 ← read_u32 page DB_CATALOG_COLLECTION_COUNT_OFFSET;
      f13 ← read_u64 page DB_CATALOG_TOTAL_ENTITIES_OFFSET;
      f14 ← read_u32 page DB_EXPORT_COUNT_OFFSET;
      f15 ← read_u32 page DB_GRAPH_PROJECTION_COUNT_OFFSET;
      f16 ← read_u32 page DB_ANALYTICS_JOB_COUNT_OFFSET;
      f17 ← read_u32 page DB_MANIFEST_EVENT_COUNT_OFFSET;
      f18 ← read_u32 page DB_REGISTRY_PAGE_OFFSET;
      f19 ← read_u64 page DB_REGISTRY_CHECKSUM_OFFSET;
      f20 ← read_u32 page DB_RECOVERY_PAGE_OFFSET;
      f21 ← read_u64 page DB_RECOVERY_CHECKSUM_OFFSET;
      f22 ← read_u32 page DB_CATALOG_PAGE_OFFSET;
      f23 ← read_u64 page DB_CATALOG_CHECKSUM_OFFSET;
      f24 ← read_u32 page DB_METADATA_STATE_PAGE_OFFSET;
      f25 ← read_u64 page DB_METADATA_STATE_CHECKSUM_OFFSET;
      f26 ← read_u32 page DB_VECTOR_ARTIFACT_PAGE_OFFSET;
      f27 ← read_u64 page DB_VECTOR_ARTIFACT_CHECKSUM_OFFSET;
      Ok {|
        version := v; page_size := ps; page_count := pc; freelist_head := fh;
        schema_version := sv; checkpoint_lsn := cl;
        checkpoint_in_progress := negb (u8_at page DB_CHECKPOINT_IN_PROGRESS_OFFSET =? 0);
        checkpoint_target_lsn := ct;
        physical := {|
          format_version := f0;
          sequence := f1;
          manifest_oldest_root := f2;
          manifest_root := f3;
          free_set_root := f4;
          manifest_page := f5;
          manifest_checksum := f6;
          collection_roots_page := f7;
          collection_roots_checksum := f8;
          collection_root_count := f9;
          snapshot_count := f10;
          index_count := f11;
          catalog_collection_count := f12;
          catalog_total_entities := f13;
          export_count := f14;
          graph_projection_count := f15;
          analytics_job_count := f16;
          manifest_event_count := f17;
          registry_page := f18;
          registry_checksum := f19;
          recovery_page := f20;
          recovery_checksum := f21;
          catalog_page := f22;
          catalog_checksum := f23;
          metadata_state_page := f24;
          metadata_state_checksum := f25;
          vector_artifact_page := f26;
          vector_artifact_checksum := f27;
        |}
      |}.

Definition encode_database_header (page : bytes) (header : DatabaseHeader)
    : result DatabaseHeaderError bytes :=
  _ ← ensure_len page DB_HEADER_MIN_LEN;
  let page := splice page DB_MAGIC_OFFSET PAGE_FILE_MAGIC in
  page ← write_u32 page DB_VERSION_OFFSET (version header);
  page ← write_u32 page DB_PAGE_SIZE_OFFSET (page_size header);
  page ← write_u32 page DB_PAGE_COUNT_OFFSET (page_count header);
  page ← write_u32 page DB_FREELIST_HEAD_OFFSET (freelist_head header);
  page ← write_u32 page DB_SCHEMA_VERSION_OFFSET (schema_version header);
  page ← write_u64 page DB_CHECKPOINT_LSN_OFFSET (checkpoint_lsn header);
  page ← write_u32 page DB_PHYSICAL_FORMAT_VERSION_OFFSET (format_version (physical header));
  page ← write_u64 page DB_PHYSICAL_SEQUENCE_OFFSET (sequence (physical header));
  page ← write_u64 page DB_MANIFEST_ROOT_OFFSET (manifest_root (physical header));
  page ← write_u64 page DB_MANIFEST_OLDEST_ROOT_OFFSET (manifest_oldest_root (physical header));
  page ← write_u64 page DB_FREE_SET_ROOT_OFFSET (free_set_root (physical header));
  page ← write_u32 page DB_MANIFEST_PAGE_OFFSET (manifest_page (physical header));
  page ← write_u64 page DB_MANIFEST_CHECKSUM_OFFSET (manifest_checksum (physical header));
  page ← write_u32 page DB_COLLECTION_ROOTS_PAGE_OFFSET (collection_roots_page (physical header));
  page ← write_u64 page DB_COLLECTION_ROOTS_CHECKSUM_OFFSET (collection_roots_checksum (physical header));
  page ← write_u32 page DB_COLLECTION_ROOT_COUNT_OFFSET (collection_root_count (physical header));
  page ← write_u32 page DB_SNAPSHOT_COUNT_OFFSET (snapshot_count (physical header));
  page ← write_u32 page DB_INDEX_COUNT_OFFSET (index_count (physical header));
  page ← write_u32 page DB_CATALOG_COLLECTION_COUNT_OFFSET (catalog_collection_count (physical header));
  page ← write_u64 page DB_CATALOG_TOTAL_ENTITIES_OFFSET (catalog_total_entities (physical header));
  page ← write_u32 page DB_EXPORT_COUNT_OFFSET (export_count (physical header));
  page ← write_u32 page DB_GRAPH_PROJECTION_COUNT_OFFSET (graph_projection_count (physical header));
  page ← write_u32 page DB_ANALYTICS_JOB_COUNT_OFFSET (analytics_job_count (physical header));
  page ← write_u32 page DB_MANIFEST_EVENT_COUNT_OFFSET (manifest_event_count (physical header));
  page ← write_u32 page DB_REGISTRY_PAGE_OFFSET (registry_page (physical header));
  page ← write_u64 page DB_REGISTRY_CHECKSUM_OFFSET (registry_checksum (physical header));
  page ← write_u32 page DB_RECOVERY_PAGE_OFFSET (recovery_page (physical header));
  page ← write_u64 page DB_RECOVERY_CHECKSUM_OFFSET (recovery_checksum (physical header));
  page ← write_u32 page DB_CATALOG_PAGE_OFFSET (catalog_page (physical header));
  page ← write_u64 page DB_CATALOG_CHECKSUM_OFFSET (catalog_checksum (physical header));
  page ← write_u32 page DB_METADATA_STATE_PAGE_OFFSET (metadata_state_page (physical header));
  page ← write_u64 page DB_METADATA_STATE_CHECKSUM_OFFSET (metadata_state_checksum (physical header));
  page ← write_u32 page DB_VECTOR_ARTIFACT_PAGE_OFFSET (vector_artifact_page (physical header));
  page ← write_u64 page DB_VECTOR_ARTIFACT_CHECKSUM_OFFSET (vector_artifact_checksum (physical header));
  let page := put_u8 page DB_CHECKPOINT_IN_PROGRESS_OFFSET
                (if checkpoint_in_progress header then 1 else 0) in
  write_u64 page DB_CHECKPOINT_TARGET_LSN_OFFSET (checkpoint_target_lsn header).

Definition init_database_header_page (page : bytes) (count : Z)
    : result DatabaseHeaderError bytes :=
  encode_database_header page {|
    version := version DatabaseHeader_default; page_size := page_size DatabaseHeader_default;
    page_count := count; freelist_head := freelist_head DatabaseHeader_default;
    schema_version := schema_version DatabaseHeader_default;
    checkpoint_lsn := checkpoint_lsn DatabaseHeader_default;
    checkpoint_in_progress := checkpoint_in_progress DatabaseHeader_default;
    checkpoint_target_lsn := checkpoint_target_lsn DatabaseHeader_default;
    physical := physical DatabaseHeader_default |}.

(** The integer ranges of the Rust field types *)
Definition physical_ok (p : PhysicalFileHeader) : Prop :=
  u32_ok (format_version p) /\
  u64_ok (sequence p) /\
  u64_ok (manifest_oldest_root p) /\
  u64_ok (manifest_root p) /\
  u64_ok (free_set_root p) /\
  u32_ok (manifest_page p) /\
  u64_ok (manifest_checksum p) /\
  u32_ok (collection_roots_page p) /\
  u64_ok (collection_roots_checksum p) /\
  u32_ok (collection_root_count p) /\
  u32_ok (snapshot_count p) /\
  u32_ok (index_count p) /\
  u32_ok (catalog_collection_count p) /\
  u64_ok (catalog_total_entities p) /\
  u32_ok (export_count p) /\
  u32_ok (graph_projection_count p) /\
  u32_ok (analytics_job_count p) /\
  u32_ok (manifest_event_count p) /\
  u32_ok (registry_page p) /\
  u64_ok (registry_checksum p) /\
  u32_ok (recovery_page p) /\
  u64_ok (recovery_checksum p) /\
  u32_ok (catalog_page p) /\
  u64_ok (catalog_checksum p) /\
  u32_ok (metadata_state_page p) /\
  u64_ok (metadata_state_checksum p) /\
  u32_ok (vector_artifact_page p) /\
  u64_ok (vector_artifact_checksum p).

Definition header_ok (h : DatabaseHeader) : Prop :=
  u32_ok (version h) /\ u32_ok (page_size h) /\ u32_ok (page_count h) /\
  u32_ok (freelist_head h) /\ u32_ok (schema_version h) /\ u64_ok (checkpoint_lsn h) /\
  u64_ok (checkpoint_target_lsn h) /\ physical_ok (physical h).

(** ** The double-write-buffer frame and the superblock pair

    [crc32] is [crc32fast::hash]; what the code relies on is that it is a
    function of the bytes with 32-bit values. *)

Definition DWB_MAGIC : bytes := [0x52; 0x44; 0x44; 0x57].
Definition PAGED_DWB_HEADER_SIZE : Z := 12.
Definition PAGED_DWB_ENTRY_HEADER_SIZE : Z := 4.
Definition PAGED_DWB_ENTRY_SIZE : Z := PAGED_DWB_ENTRY_HEADER_SIZE + PAGED_PAGE_SIZE.

Record PagedDwbEntry : Type := { dwb_page_id : Z; dwb_page : bytes }.

Inductive PagedDwbFrameError : Type :=
| DwbShortHeader (got : Z)
| DwbInvalidMagic
| DwbIncompleteFrame (expected got : Z)
| DwbChecksumMismatch (expected actual : Z).

Definition PAGED_SUPERBLOCK_SLOT_SIZE : Z := 4096.
Definition PAGED_SUPERBLOCK_SLOT_COUNT : Z := 2.
Definition PAGED_SUPERBLOCK_ZONE_SIZE : Z :=
  PAGED_SUPERBLOCK_SLOT_SIZE * PAGED_SUPERBLOCK_SLOT_COUNT.
(** [RDBPSBK1] *)
Definition PAGED_SUPERBLOCK_MAGIC : bytes := [0x52; 0x44; 0x42; 0x50; 0x53; 0x42; 0x4B; 0x31].
Definition PAGED_SUPERBLOCK_SLOT_VERSION : Z := 1.
Definition PAGED_SUPERBLOCK_TRAILER_OFFSET : Z := PAGED_SUPERBLOCK_SLOT_SIZE - 32.
Definition PAGED_SUPERBLOCK_VERSION_OFFSET : Z := PAGED_SUPERBLOCK_TRAILER_OFFSET + 8.
Definition PAGED_SUPERBLOCK_COPY_OFFSET : Z := PAGED_SUPERBLOCK_TRAILER_OFFSET + 12.
Definition PAGED_SUPERBLOCK_GENERATION_OFFSET : Z := PAGED_SUPERBLOCK_TRAILER_OFFSET + 16.
Definition PAGED_SUPERBLOCK_CRC_OFFSET : Z := PAGED_SUPERBLOCK_TRAILER_OFFSET + 24.

Record PagedSuperblockSelection : Type := { sel_copy_index : Z; sel_generation : Z }.

Definition paged_superblock_slot_offset (copy_index : Z) : Z :=
  (copy_index mod PAGED_SUPERBLOCK_SLOT_COUNT) * PAGED_SUPERBLOCK_SLOT_SIZE.

Definition paged_superblock_next_copy (newest : option PagedSuperblockSelection) : Z :=
  match newest with
  | Some s => (sel_copy_index s + 1) mod PAGED_SUPERBLOCK_SLOT_COUNT
  | None => 0
  end.

(** [Iterator::max_by_key]: of several maximal elements the last one wins. *)
Definition max_by_generation (l : list PagedSuperblockSelection)
    : option PagedSuperblockSelection :=
  fold_left (fun acc s =>
    match acc with
    | None => Some s
    | Some b => if sel_generation s <? sel_generation b then Some b else Some s
    end) l None.

Section with_crc.
Context (crc32 : bytes -> Z).

Definition encode_paged_dwb_frame (pages : list (Z * bytes)) : bytes :=
  let out := DWB_MAGIC ++ le_bytes 4 (as_u32 (zlen pages)) ++ zeros 4 in
  let out := fold_left (fun out pg => out ++ le_bytes 4 pg.1 ++ pg.2) pages out in
  let checksum := crc32 (drop (Z.to_nat PAGED_DWB_HEADER_SIZE) out) in
  splice out 8 (le_bytes 4 checksum).

Fixpoint decode_paged_dwb_entries (b : bytes) (count : nat) (offset : Z) : list PagedDwbEntry :=
  match count with
  | O => []
  | S count =>
      let id := u32_at b offset in
      let offset := offset + PAGED_DWB_ENTRY_HEADER_SIZE in
      let page := slice b offset PAGED_PAGE_SIZE in
      {| dwb_page_id := id; dwb_page := page |}
        :: decode_paged_dwb_entries b count (offset + PAGED_PAGE_SIZE)
  end.

Definition decode_paged_dwb_frame (b : bytes) : result PagedDwbFrameError (list PagedDwbEntry) :=
  if zlen b <? PAGED_DWB_HEADER_SIZE then Err (DwbShortHeader (zlen b))
  else if negb (bool_decide (slice b 0 4 = DWB_MAGIC)) then Err DwbInvalidMagic
  else
    let count := u32_at b 4 in
    let stored_checksum := u32_at b 8 in
    let expected_len := PAGED_DWB_HEADER_SIZE + count * PAGED_DWB_ENTRY_SIZE in
    if zlen b <? expected_len then Err (DwbIncompleteFrame expected_len (zlen b))
    else
      let actual_checksum :=
        crc32 (slice b PAGED_DWB_HEADER_SIZE (expected_len - PAGED_DWB_HEADER_SIZE)) in
      if negb (actual_checksum =? stored_checksum)
      then Err (DwbChecksumMismatch stored_checksum actual_checksum)
      else Ok (decode_paged_dwb_entries b (Z.to_nat count) PAGED_DWB_HEADER_SIZE).

Definition paged_superblock_crc (b : bytes) : Z := crc32 b.

Definition seal_paged_superblock_slot (slot : bytes) (copy_index generation : Z)
    : result DatabaseHeaderError bytes :=
  _ ← ensure_len slot PAGED_SUPERBLOCK_SLOT_SIZE;
  let slot := splice slot PAGED_SUPERBLOCK_TRAILER_OFFSET PAGED_SUPERBLOCK_MAGIC in
  slot ← write_u32 slot PAGED_SUPERBLOCK_VERSION_OFFSET PAGED_SUPERBLOCK_SLOT_VERSION;
  slot ← write_u32 slot PAGED_SUPERBLOCK_COPY_OFFSET
           (if copy_index <=? U32_MAX then copy_index else U32_MAX);
  slot ← write_u64 slot PAGED_SUPERBLOCK_GENERATION_OFFSET generation;
  let crc := paged_superblock_crc (slice slot 0 PAGED_SUPERBLOCK_CRC_OFFSET) in
  slot ← write_u32 slot PAGED_SUPERBLOCK_CRC_OFFSET crc;
  write_u32 slot (PAGED_SUPERBLOCK_CRC_OFFSET + 4) 0.

Definition paged_superblock_slot_generation (slot : bytes) (copy_index : Z) : option Z :=
  if zlen slot <? PAGED_SUPERBLOCK_SLOT_SIZE then None
  else if negb (bool_decide
      (slice slot PAGED_SUPERBLOCK_TRAILER_OFFSET 8 = PAGED_SUPERBLOCK_MAGIC)) then None
  else
    v ← result_ok (read_u32 slot PAGED_SUPERBLOCK_VERSION_OFFSET);
    if negb (v =? PAGED_SUPERBLOCK_SLOT_VERSION) then None
    else
      c ← result_ok (read_u32 slot PAGED_SUPERBLOCK_COPY_OFFSET);
      ci ← (if copy_index <=? U32_MAX then Some copy_index else None);
      if negb (c =? ci) then None
      else
        stored ← result_ok (read_u32 slot PAGED_SUPERBLOCK_CRC_OFFSET);
        if negb (paged_superblock_crc (slice slot 0 PAGED_SUPERBLOCK_CRC_OFFSET) =? stored)
        then None
        else result_ok (read_u64 slot PAGED_SUPERBLOCK_GENERATION_OFFSET).

Definition select_slot (zone : bytes) (copy_index : Z) : option PagedSuperblockSelection :=
  slot ← get_range zone (copy_index * PAGED_SUPERBLOCK_SLOT_SIZE) PAGED_SUPERBLOCK_SLOT_SIZE;
  generation ← paged_superblock_slot_generation slot copy_index;
  Some {| sel_copy_index := copy_index; sel_generation := generation |}.

Definition select_paged_superblock (zone : bytes) : option PagedSuperblockSelection :=
  max_by_generation (omap (select_slot zone) [0; 1]).

End with_crc.

(** * Theorems *)

(** ** Bounded reads and writes *)

Lemma ensure_len_ok b need : need <= zlen b -> ensure_len b need = Ok tt.
Proof. intros. unfold ensure_len. by rewrite (proj2 (Z.ltb_ge _ _)). Qed.

Lemma read_u16_ok b off : off + 2 <= zlen b -> read_u16 b off = Ok (u16_at b off).
Proof. intros. unfold read_u16. by rewrite ensure_len_ok. Qed.

Lemma read_u32_ok b off : off + 4 <= zlen b -> read_u32 b off = Ok (u32_at b off).
Proof. intros. unfold read_u32. by rewrite ensure_len_ok. Qed.

Lemma read_u64_ok b off : off + 8 <= zlen b -> read_u64 b off = Ok (u64_at b off).
Proof. intros. unfold read_u64. by rewrite ensure_len_ok. Qed.

Lemma write_u16_ok b off v : off + 2 <= zlen b -> write_u16 b off v = Ok (put_u16 b off v).
Proof. intros. unfold write_u16. by rewrite ensure_len_ok. Qed.

Lemma write_u32_ok b off v : off + 4 <= zlen b -> write_u32 b off v = Ok (put_u32 b off v).
Proof. intros. unfold write_u32. by rewrite ensure_len_ok. Qed.

Lemma write_u64_ok b off v : off + 8 <= zlen b -> write_u64 b off v = Ok (put_u64 b off v).
Proof. intros. unfold write_u64. by rewrite ensure_len_ok. Qed.

Lemma write_u32_app b off a off' v :
  0 <= off -> off' = off + zlen a -> off' + 4 <= zlen b ->
  write_u32 (splice b off a) off' v = Ok (splice b off (a ++ le_bytes 4 v)).
Proof.
  intros. rewrite write_u32_ok by zlia. unfold put_u32.
  by rewrite splice_splice_app by zlia.
Qed.

Lemma write_u64_app b off a off' v :
  0 <= off -> off' = off + zlen a -> off' + 8 <= zlen b ->
  write_u64 (splice b off a) off' v = Ok (splice b off (a ++ le_bytes 8 v)).
Proof.
  intros. rewrite write_u64_ok by zlia. unfold put_u64.
  by rewrite splice_splice_app by zlia.
Qed.

(** ** The page header *)

Definition paged_page_header_ok (h : PagedPageHeader) : Prop :=
  byte_ok (pph_page_type h) /\ byte_ok (pph_flags h) /\ u16_ok (pph_cell_count h) /\
  u16_ok (pph_free_start h) /\ u16_ok (pph_free_end h) /\ u32_ok (pph_page_id h) /\
  u32_ok (pph_parent_id h) /\ u32_ok (pph_right_child h) /\ u64_ok (pph_lsn h) /\
  u32_ok (pph_checksum h).

Lemma encode_paged_page_header_eq h :
  encode_paged_page_header h =
    [pph_page_type h; pph_flags h] ++ le_bytes 2 (pph_cell_count h) ++
    le_bytes 2 (pph_free_start h) ++ le_bytes 2 (pph_free_end h) ++
    le_bytes 4 (pph_page_id h) ++ le_bytes 4 (pph_parent_id h) ++
    le_bytes 4 (pph_right_child h) ++ le_bytes 8 (pph_lsn h) ++ le_bytes 4 (pph_checksum h).
Proof. reflexivity. Qed.

Lemma paged_page_header_decode_encode h :
  paged_page_header_ok h -> decode_paged_page_header (encode_paged_page_header h) = h.
Proof.
  intros (H0 & H1 & H2 & H3 & H4 & H5 & H6 & H7 & H8 & H9).
  rewrite encode_paged_page_header_eq. destruct h; cbn in *.
  unfold decode_paged_page_header. f_equal.
  - exact (le_val_u8 pph_page_type0).
  - exact (le_val_u8 pph_flags0).
  - exact (le_val_u16 _ H2).
  - exact (le_val_u16 _ H3).
  - exact (le_val_u16 _ H4).
  - exact (le_val_u32 _ H5).
  - exact (le_val_u32 _ H6).
  - exact (le_val_u32 _ H7).
  - exact (le_val_u64 _ H8).
  - exact (le_val_u32 _ H9).
Qed.

Lemma paged_page_header_encode_decode buf :
  zlen buf = PAGED_PAGE_HEADER_SIZE -> Forall byte_ok buf ->
  encode_paged_page_header (decode_paged_page_header buf) = buf.
Proof.
  intros Hl Hb. change PAGED_PAGE_HEADER_SIZE with 32 in Hl.
  rewrite encode_paged_page_header_eq.
  cbn [decode_paged_page_header pph_page_type pph_flags pph_cell_count pph_free_start
       pph_free_end pph_page_id pph_parent_id pph_right_child pph_lsn pph_checksum].
  unfold u16_at, u32_at, u64_at.
  rewrite !(le_bytes_slice buf _ 2), !(le_bytes_slice buf _ 4), !(le_bytes_slice buf _ 8)
    by (done || lia).
  change [u8_at buf 0; u8_at buf 1] with ([u8_at buf 0] ++ [u8_at buf 1]).
  rewrite !slice_1 by lia. rewrite <-!app_assoc.
  repeat rewrite slice_join by lia. by apply slice_all.
Qed.

(** ** The database header

    The fields are adjacent, so a header write is one write of 201 bytes. *)

Definition physical_header_bytes (p : PhysicalFileHeader) : bytes :=
  le_bytes 4 (format_version p) ++
  le_bytes 8 (sequence p) ++
  le_bytes 8 (manifest_root p) ++
  le_bytes 8 (manifest_oldest_root p) ++
  le_bytes 8 (free_set_root p) ++
  le_bytes 4 (manifest_page p) ++
  le_bytes 8 (manifest_checksum p) ++
  le_bytes 4 (collection_roots_page p) ++
  le_bytes 8 (collection_roots_checksum p) ++
  le_bytes 4 (collection_root_count p) ++
  le_bytes 4 (snapshot_count p) ++
  le_bytes 4 (index_count p) ++
  le_bytes 4 (catalog_collection_count p) ++
  le_bytes 8 (catalog_total_entities p) ++
  le_bytes 4 (export_count p) ++
  le_bytes 4 (graph_projection_count p) ++
  le_bytes 4 (analytics_job_count p) ++
  le_bytes 4 (manifest_event_count p) ++
  le_bytes 4 (registry_page p) ++
  le_bytes 8 (registry_checksum p) ++
  le_bytes 4 (recovery_page p) ++
  le_bytes 8 (recovery_checksum p) ++
  le_bytes 4 (catalog_page p) ++
  le_bytes 8 (catalog_checksum p) ++
  le_bytes 4 (metadata_state_page p) ++
  le_bytes 8 (metadata_state_checksum p) ++
  le_bytes 4 (vector_artifact_page p) ++
  le_bytes 8 (vector_artifact_checksum p).

Definition database_header_bytes (h : DatabaseHeader) : bytes :=
  PAGE_FILE_MAGIC ++ le_bytes 4 (version h) ++ le_bytes 4 (page_size h) ++
  le_bytes 4 (page_count h) ++ le_bytes 4 (freelist_head h) ++ le_bytes 4 (schema_version h) ++
  le_bytes 8 (checkpoint_lsn h) ++ physical_header_bytes (physical h) ++
  [if checkpoint_in_progress h then 1 else 0] ++ le_bytes 8 (checkpoint_target_lsn h).

(** Side conditions of writes at closed offsets *)
Ltac closed_offset :=
  first [ reflexivity
        | vm_compute; congruence
        | lazymatch goal with
          | |- ?x <= zlen _ => let y := eval vm_compute in x in change x with y; zlia
          end ].

Lemma encode_database_header_eq page h :
  DB_HEADER_MIN_LEN <= zlen page ->
  encode_database_header page h = Ok (splice page DB_MAGIC_OFFSET (database_header_bytes h)).
Proof.
  intros Hl. change DB_HEADER_MIN_LEN with 233 in Hl. unfold encode_database_header.
  rewrite ensure_len_ok by closed_offset. cbn [mbind result_bind].
  repeat (first [rewrite write_u32_app by closed_offset | rewrite write_u64_app by closed_offset];
          cbn [mbind result_bind]).
  unfold put_u8. rewrite splice_splice_app by closed_offset.
  rewrite write_u64_app by closed_offset. reflexivity.
Qed.

Lemma zlen_database_header_bytes h : zlen (database_header_bytes h) = 201.
Proof. reflexivity. Qed.

Lemma magic_matches_splice page h :
  DB_HEADER_MIN_LEN <= zlen page ->
  database_header_magic_matches (splice page DB_MAGIC_OFFSET (database_header_bytes h)) = true.
Proof.
  intros Hl. change DB_HEADER_MIN_LEN with 233 in Hl.
  unfold database_header_magic_matches, get_range. apply bool_decide_eq_true.
  rewrite zlen_splice, (proj2 (Z.leb_le _ _)) by closed_offset.
  f_equal. rewrite slice_splice_in by closed_offset. reflexivity.
Qed.

(** The header that the bytes of a page spell *)
Definition physical_header_of (page : bytes) : PhysicalFileHeader := {|
  format_version := u32_at page DB_PHYSICAL_FORMAT_VERSION_OFFSET;
  sequence := u64_at page DB_PHYSICAL_SEQUENCE_OFFSET;
  manifest_oldest_root := u64_at page DB_MANIFEST_OLDEST_ROOT_OFFSET;
  manifest_root := u64_at page DB_MANIFEST_ROOT_OFFSET;
  free_set_root := u64_at page DB_FREE_SET_ROOT_OFFSET;
  manifest_page := u32_at page DB_MANIFEST_PAGE_OFFSET;
  manifest_checksum := u64_at page DB_MANIFEST_CHECKSUM_OFFSET;
  collection_roots_page := u32_at page DB_COLLECTION_ROOTS_PAGE_OFFSET;
  collection_roots_checksum := u64_at page DB_COLLECTION_ROOTS_CHECKSUM_OFFSET;
  collection_root_count := u32_at page DB_COLLECTION_ROOT_COUNT_OFFSET;
  snapshot_count := u32_at page DB_SNAPSHOT_COUNT_OFFSET;
  index_count := u32_at page DB_INDEX_COUNT_OFFSET;
  catalog_collection_count := u32_at page DB_CATALOG_COLLECTION_COUNT_OFFSET;
  catalog_total_entities := u64_at page DB_CATALOG_TOTAL_ENTITIES_OFFSET;
  export_count := u32_at page DB_EXPORT_COUNT_OFFSET;
  graph_projection_count := u32_at page DB_GRAPH_PROJECTION_COUNT_OFFSET;
  analytics_job_count := u32_at page DB_ANALYTICS_JOB_COUNT_OFFSET;
  manifest_event_count := u32_at page DB_MANIFEST_EVENT_COUNT_OFFSET;
  registry_page := u32_at page DB_REGISTRY_PAGE_OFFSET;
  registry_checksum := u64_at page DB_REGISTRY_CHECKSUM_OFFSET;
  recovery_page := u32_at page DB_RECOVERY_PAGE_OFFSET;
  recovery_checksum := u64_at page DB_RECOVERY_CHECKSUM_OFFSET;
  catalog_page := u32_at page DB_CATALOG_PAGE_OFFSET;
  catalog_checksum := u64_at page DB_CATALOG_CHECKSUM_OFFSET;
  metadata_state_page := u32_at page DB_METADATA_STATE_PAGE_OFFSET;
  metadata_state_checksum := u64_at page DB_METADATA_STATE_CHECKSUM_OFFSET;
  vector_artifact_page := u32_at page DB_VECTOR_ARTIFACT_PAGE_OFFSET;
  vector_artifact_checksum := u64_at page DB_VECTOR_ARTIFACT_CHECKSUM_OFFSET;
|}.

Definition database_header_of (page : bytes) : DatabaseHeader := {|
  version := u32_at page DB_VERSION_OFFSET;
  page_size := u32_at page DB_PAGE_SIZE_OFFSET;
  page_count := u32_at page DB_PAGE_COUNT_OFFSET;
  freelist_head := u32_at page DB_FREELIST_HEAD_OFFSET;
  schema_version := u32_at page DB_SCHEMA_VERSION_OFFSET;
  checkpoint_lsn := u64_at page DB_CHECKPOINT_LSN_OFFSET;
  checkpoint_in_progress := negb (u8_at page DB_CHECKPOINT_IN_PROGRESS_OFFSET =? 0);
  checkpoint_target_lsn := u64_at page DB_CHECKPOINT_TARGET_LSN_OFFSET;
  physical := physical_header_of page;
|}.

Lemma decode_database_header_eq page :
  DB_HEADER_MIN_LEN <= zlen page ->
  decode_database_header page =
    if negb (database_header_magic_matches page) then Err InvalidMagic
    else if negb (page_size (database_header_of page) =? PAGED_PAGE_SIZE)
    then Err (UnsupportedPageSize (page_size (database_header_of page)))
    else if PAGE_FILE_VERSION <? version (database_header_of page)
    then Err (UnsupportedDatabaseVersion (version (database_header_of page)) PAGE_FILE_VERSION)
    else Ok (database_header_of page).
Proof.
  intros Hl. change DB_HEADER_MIN_LEN with 233 in Hl.
  unfold decode_database_header. rewrite ensure_len_ok by closed_offset.
  cbn [mbind result_bind]. destruct (database_header_magic_matches page); [|done]. cbn [negb].
  repeat (rewrite read_u32_ok by closed_offset; cbn [mbind result_bind]).
  cbn [page_size version database_header_of].
  destruct (negb _); [done|]. destruct (_ <? _); [done|].
  repeat (first [rewrite read_u32_ok by closed_offset | rewrite read_u64_ok by closed_offset];
          cbn [mbind result_bind]).
  reflexivity.
Qed.

Ltac field_of_header :=
  first [ apply le_val_u32 | apply le_val_u64 ]; assumption.

Lemma u32_at_header page h o :
  DB_HEADER_MIN_LEN <= zlen page -> DB_MAGIC_OFFSET <= o -> o + 4 <= DB_HEADER_MIN_LEN ->
  u32_at (splice page DB_MAGIC_OFFSET (database_header_bytes h)) o =
  le_val (slice (database_header_bytes h) (o - DB_MAGIC_OFFSET) 4).
Proof.
  intros Hl H1 H2. change DB_HEADER_MIN_LEN with 233 in *. change DB_MAGIC_OFFSET with 32 in *.
  unfold u32_at. by rewrite slice_splice_in by (rewrite ?zlen_database_header_bytes; lia).
Qed.

Lemma u64_at_header page h o :
  DB_HEADER_MIN_LEN <= zlen page -> DB_MAGIC_OFFSET <= o -> o + 8 <= DB_HEADER_MIN_LEN ->
  u64_at (splice page DB_MAGIC_OFFSET (database_header_bytes h)) o =
  le_val (slice (database_header_bytes h) (o - DB_MAGIC_OFFSET) 8).
Proof.
  intros Hl H1 H2. change DB_HEADER_MIN_LEN with 233 in *. change DB_MAGIC_OFFSET with 32 in *.
  unfold u64_at. by rewrite slice_splice_in by (rewrite ?zlen_database_header_bytes; lia).
Qed.

Lemma physical_header_of_encoded page h :
  DB_HEADER_MIN_LEN <= zlen page -> physical_ok (physical h) ->
  physical_header_of (splice page DB_MAGIC_OFFSET (database_header_bytes h)) = physical h.
Proof.
  intros Hl Hp. unfold physical_header_of.
  rewrite !u32_at_header, !u64_at_header by (done || vm_compute; congruence).
  destruct h as [? ? ? ? ? ? ? ? p]; cbn [physical] in *. destruct p. unfold physical_ok in Hp.
  cbn in Hp. destruct_and! Hp.
  f_equal; first [ by apply le_val_u32 | by apply le_val_u64 ].
Qed.

Lemma database_header_of_encoded page h :
  DB_HEADER_MIN_LEN <= zlen page -> header_ok h ->
  database_header_of (splice page DB_MAGIC_OFFSET (database_header_bytes h)) = h.
Proof.
  intros Hl (H1 & H2 & H3 & H4 & H5 & H6 & H7 & H8). unfold database_header_of.
  rewrite physical_header_of_encoded by done.
  assert (u8_at (splice page DB_MAGIC_OFFSET (database_header_bytes h))
            DB_CHECKPOINT_IN_PROGRESS_OFFSET = if checkpoint_in_progress h then 1 else 0) as ->.
  { change DB_HEADER_MIN_LEN with 233 in Hl. unfold u8_at.
    rewrite slice_splice_in by closed_offset. apply le_val_u8. }
  rewrite !u32_at_header, !u64_at_header by (done || vm_compute; congruence).
  destruct h; cbn [version page_size page_count freelist_head schema_version checkpoint_lsn
    checkpoint_in_progress checkpoint_target_lsn physical] in *.
  f_equal; first [ by apply le_val_u32 | by apply le_val_u64 | by destruct checkpoint_in_progress0 ].
Qed.

(** A header written to a page is read back unchanged; the other bytes stay. *)
Theorem database_header_roundtrip page h :
  DB_HEADER_MIN_LEN <= zlen page -> header_ok h ->
  page_size h = PAGED_PAGE_SIZE -> version h <= PAGE_FILE_VERSION ->
  exists page', encode_database_header page h = Ok page' /\
    decode_database_header page' = Ok h /\ zlen page' = zlen page /\
    (forall off n, 0 <= off -> 0 <= n ->
       off + n <= DB_MAGIC_OFFSET \/ DB_HEADER_MIN_LEN <= off ->
       slice page' off n = slice page off n).
Proof.
  intros Hl Hok Hps Hv. rewrite encode_database_header_eq by done.
  eexists. split; [reflexivity|]. split; [|split].
  - rewrite decode_database_header_eq by (by rewrite zlen_splice).
    rewrite magic_matches_splice, database_header_of_encoded by done. cbn [negb].
    rewrite Hps, Z.eqb_refl. cbn [negb]. by rewrite (proj2 (Z.ltb_ge _ _)).
  - apply zlen_splice.
  - intros off n H0 H1 H2. apply slice_splice_ne; [done|done|].
    rewrite zlen_database_header_bytes. change DB_HEADER_MIN_LEN with 233 in H2.
    change DB_MAGIC_OFFSET with 32 in *. lia.
Qed.

Lemma physical_header_bytes_of page :
  Forall byte_ok page -> DB_HEADER_MIN_LEN <= zlen page ->
  physical_header_bytes (physical_header_of page) = slice page DB_PHYSICAL_FORMAT_VERSION_OFFSET 160.
Proof.
  intros Hb Hl. change DB_HEADER_MIN_LEN with 233 in Hl.
  unfold physical_header_bytes, physical_header_of.
  cbn [format_version sequence manifest_oldest_root manifest_root free_set_root manifest_page
    manifest_checksum collection_roots_page collection_roots_checksum collection_root_count
    snapshot_count index_count catalog_collection_count catalog_total_entities export_count
    graph_projection_count analytics_job_count manifest_event_count registry_page
    registry_checksum recovery_page recovery_checksum catalog_page catalog_checksum
    metadata_state_page metadata_state_checksum vector_artifact_page vector_artifact_checksum].
  unfold u32_at, u64_at.
  rewrite !(le_bytes_slice page _ 4), !(le_bytes_slice page _ 8) by (done || closed_offset).
  repeat rewrite slice_join by closed_offset. reflexivity.
Qed.

Lemma database_header_bytes_of page :
  Forall byte_ok page -> DB_HEADER_MIN_LEN <= zlen page ->
  database_header_magic_matches page = true ->
  u8_at page DB_CHECKPOINT_IN_PROGRESS_OFFSET <= 1 ->
  database_header_bytes (database_header_of page) = slice page DB_MAGIC_OFFSET 201.
Proof.
  intros Hb Hl Hm Hc. unfold database_header_bytes, database_header_of.
  cbn [version page_size page_count freelist_head schema_version checkpoint_lsn
    checkpoint_in_progress checkpoint_target_lsn physical].
  rewrite physical_header_bytes_of by done. change DB_HEADER_MIN_LEN with 233 in Hl.
  assert (PAGE_FILE_MAGIC = slice page DB_MAGIC_OFFSET 4) as ->.
  { unfold database_header_magic_matches, get_range in Hm.
    apply bool_decide_eq_true in Hm. case_match; [|done]. injection Hm as Hm. by rewrite <-Hm at 1. }
  assert ((if negb (u8_at page DB_CHECKPOINT_IN_PROGRESS_OFFSET =? 0) then 1 else 0) =
          u8_at page DB_CHECKPOINT_IN_PROGRESS_OFFSET) as ->.
  { assert (0 <= u8_at page DB_CHECKPOINT_IN_PROGRESS_OFFSET).
    { unfold u8_at. by apply le_val_bound, Forall_slice. }
    destruct (Z.eqb_spec (u8_at page DB_CHECKPOINT_IN_PROGRESS_OFFSET) 0); cbn [negb]; lia. }
  rewrite slice_1 by closed_offset. unfold u32_at, u64_at.
  rewrite !(le_bytes_slice page _ 4), !(le_bytes_slice page _ 8) by (done || closed_offset).
  repeat rewrite slice_join by closed_offset. reflexivity.
Qed.

(** Writing back the header that was read changes no byte of the page: the
    encryption marker and header, which share bytes with the physical header,
    survive a header write whose fields were loaded from the same page. *)
Theorem database_header_rewrite_id page h :
  Forall byte_ok page -> u8_at page DB_CHECKPOINT_IN_PROGRESS_OFFSET <= 1 ->
  decode_database_header page = Ok h -> encode_database_header page h = Ok page.
Proof.
  intros Hb Hc Hd.
  assert (Hl : DB_HEADER_MIN_LEN <= zlen page).
  { unfold decode_database_header, ensure_len in Hd.
    destruct (Z.ltb_spec (zlen page) DB_HEADER_MIN_LEN); [done|lia]. }
  rewrite decode_database_header_eq in Hd by done.
  destruct (database_header_magic_matches page) eqn:Hm; [|done]. cbn [negb] in Hd.
  repeat case_match; try done. injection Hd as <-.
  rewrite encode_database_header_eq by done. f_equal.
  rewrite database_header_bytes_of by done. change DB_HEADER_MIN_LEN with 233 in Hl.
  assert (zlen (slice page DB_MAGIC_OFFSET 201) = 201) as Hz by (apply zlen_slice; closed_offset).
  apply splice_id; rewrite ?Hz; closed_offset.
Qed.

(** A header write stores [physical.format_version] over the encryption
    marker: unless that field happens to spell the marker, the marker is gone,
    whatever the page held before. *)
Theorem header_write_erases_encryption_marker page h page' :
  u32_ok (format_version (physical h)) ->
  format_version (physical h) <> le_val PAGED_ENCRYPTION_MARKER ->
  encode_database_header page h = Ok page' ->
  paged_encryption_marker_present page' = false.
Proof.
  intros Hok Hne He.
  assert (Hl : DB_HEADER_MIN_LEN <= zlen page).
  { unfold encode_database_header, ensure_len in He.
    destruct (Z.ltb_spec (zlen page) DB_HEADER_MIN_LEN); [done|lia]. }
  rewrite encode_database_header_eq in He by done. injection He as <-.
  change DB_HEADER_MIN_LEN with 233 in Hl.
  unfold paged_encryption_marker_present, get_range. apply bool_decide_eq_false.
  case_match; [|done]. intros [= Hm]. apply Hne. rewrite <-Hm.
  rewrite slice_splice_in by closed_offset. symmetry. exact (le_val_u32 _ Hok).
Qed.

(** ** Cells *)

(** The bytes of a cell *)
Definition cell_bytes (key value : bytes) : bytes :=
  le_bytes 2 (zlen key) ++ le_bytes 4 (zlen value) ++ key ++ value.

Lemma zlen_cell_bytes key value : zlen (cell_bytes key value) = 6 + zlen key + zlen value.
Proof. unfold cell_bytes. zlia. Qed.

#[export] Hint Rewrite zlen_cell_bytes : zlen.

Lemma paged_cell_len_ok k v :
  0 <= k -> 0 <= v -> k <= U16_MAX -> v <= U32_MAX ->
  paged_cell_len k v = Some (6 + k + v).
Proof.
  intros. unfold paged_cell_len, checked_add, PAGED_CELL_HEADER_SIZE, USIZE_MAX, U64_MAX.
  unfold U16_MAX, U32_MAX in *. cbn [mbind option_bind].
  rewrite (proj2 (Z.leb_le _ _)) by lia. cbn. by rewrite (proj2 (Z.leb_le _ _)) by lia.
Qed.

Lemma write_paged_cell_eq page off key value page' :
  zlen page = PAGED_PAGE_SIZE -> 0 <= off -> write_paged_cell page off key value = Some page' ->
  zlen key <= U16_MAX /\ zlen value <= U32_MAX /\
  off + zlen (cell_bytes key value) <= PAGED_PAGE_SIZE /\
  page' = splice page off (cell_bytes key value).
Proof.
  intros Hl Ho. unfold write_paged_cell.
  destruct (Z.ltb_spec U16_MAX (zlen key)); [done|].
  destruct (Z.ltb_spec U32_MAX (zlen value)); [done|].
  rewrite paged_cell_len_ok by (apply zlen_nonneg || done). cbn [mbind option_bind].
  pose proof (zlen_nonneg key). pose proof (zlen_nonneg value).
  destruct (Z.ltb_spec PAGED_PAGE_SIZE (off + (6 + zlen key + zlen value))); [done|].
  intros [= <-]. autorewrite with zlen. do 3 (split; [lia|]).
  unfold put_u16, put_u32, PAGED_CELL_HEADER_SIZE, cell_bytes.
  by rewrite !splice_splice_app by zlia.
Qed.

Lemma write_paged_cell_ok page off key value :
  zlen page = PAGED_PAGE_SIZE -> 0 <= off -> zlen key <= U16_MAX ->
  off + zlen (cell_bytes key value) <= PAGED_PAGE_SIZE ->
  write_paged_cell page off key value = Some (splice page off (cell_bytes key value)).
Proof.
  intros Hl Ho Hk Hfit. pose proof (zlen_nonneg key). pose proof (zlen_nonneg value).
  autorewrite with zlen in Hfit. unfold write_paged_cell. unfold PAGED_PAGE_SIZE in *.
  rewrite (proj2 (Z.ltb_ge _ _)) by done.
  rewrite (proj2 (Z.ltb_ge U32_MAX _)) by (unfold U32_MAX; lia).
  rewrite paged_cell_len_ok by (done || (unfold U32_MAX; lia)). cbn [mbind option_bind].
  rewrite (proj2 (Z.ltb_ge _ _)) by lia.
  unfold put_u16, put_u32, PAGED_CELL_HEADER_SIZE, cell_bytes.
  by rewrite !splice_splice_app by zlia.
Qed.

Lemma cell_bytes_fields key value :
  zlen key <= U16_MAX -> zlen value <= U32_MAX ->
  u16_at (cell_bytes key value) 0 = zlen key /\
  u32_at (cell_bytes key value) 2 = zlen value /\
  slice (cell_bytes key value) 6 (zlen key) = key /\
  slice (cell_bytes key value) (6 + zlen key) (zlen value) = value.
Proof.
  intros Hk Hv. pose proof (zlen_nonneg key). pose proof (zlen_nonneg value).
  unfold U16_MAX, U32_MAX in *. split; [|split; [|split]].
  - apply (le_val_u16 (zlen key)). unfold u16_ok. lia.
  - apply (le_val_u32 (zlen value)). unfold u32_ok. lia.
  - unfold cell_bytes. rewrite !slice_app_r by zlia. autorewrite with zlen.
    rewrite slice_app_l by lia. by apply slice_all.
  - unfold cell_bytes. rewrite !slice_app_r by zlia. autorewrite with zlen.
    slice_from 0. by apply slice_all.
Qed.

(** A cell written at an offset is found there, splits into the key and the
    value that were written, and no byte outside the cell changed. *)
Theorem paged_cell_roundtrip page off key value page' :
  zlen page = PAGED_PAGE_SIZE -> 0 <= off -> write_paged_cell page off key value = Some page' ->
  exists cell, paged_cell_bytes page' off = Some cell /\
    paged_cell_key_value cell = Some (key, value) /\
    zlen page' = PAGED_PAGE_SIZE /\
    (forall o n, 0 <= o -> 0 <= n -> o + n <= off \/ off + zlen cell <= o ->
       slice page' o n = slice page o n).
Proof.
  intros Hl Ho Hw. apply write_paged_cell_eq in Hw as (Hk & Hv & Hfit & ->); [|done..].
  destruct (cell_bytes_fields key value Hk Hv) as (E1 & E2 & E3 & E4).
  pose proof (zlen_nonneg key). pose proof (zlen_nonneg value).
  autorewrite with zlen in Hfit. change PAGED_PAGE_SIZE with 16384 in *.
  exists (cell_bytes key value). split; [|split; [|split]].
  - unfold paged_cell_bytes, paged_cell_total_len.
    change PAGED_CELL_HEADER_SIZE with 6. change PAGED_PAGE_SIZE with 16384.
    rewrite (proj2 (Z.ltb_ge _ _)) by lia.
    rewrite read_u16_ok, read_u32_ok by zlia. cbn [result_ok mbind option_bind].
    unfold u16_at, u32_at in *. rewrite !slice_splice_in by zlia.
    rewrite Z.sub_diag, E1. replace (off + 2 - off) with 2 by lia. rewrite E2.
    rewrite paged_cell_len_ok by done. cbn [mbind option_bind].
    rewrite (proj2 (Z.leb_le _ _)) by lia. cbn. by rewrite slice_splice_eq by zlia.
  - unfold paged_cell_key_value. change PAGED_CELL_HEADER_SIZE with 6.
    rewrite (proj2 (Z.ltb_ge _ _)) by zlia. rewrite E1, E2, paged_cell_len_ok by done.
    cbn [mbind option_bind]. rewrite (proj2 (Z.ltb_ge _ _)) by zlia. by rewrite E3, E4.
  - zlia.
  - intros o n ? ? ?. apply slice_splice_ne; [done|done|]. autorewrite with zlen in *. lia.
Qed.

(** ** The double-write-buffer frame *)

Section dwb.
Context (crc32 : bytes -> Z) (crc32_u32 : forall b, u32_ok (crc32 b)).

Lemma zlen_DWB_MAGIC : zlen DWB_MAGIC = 4.
Proof. reflexivity. Qed.

#[local] Hint Rewrite zlen_DWB_MAGIC : zlen.

Definition dwb_body (pages : list (Z * bytes)) : bytes :=
  concat (map (fun pg => le_bytes 4 pg.1 ++ pg.2) pages).

Definition dwb_page_ok (pg : Z * bytes) : Prop := u32_ok pg.1 /\ zlen pg.2 = PAGED_PAGE_SIZE.

Definition entry_of (pg : Z * bytes) : PagedDwbEntry :=
  {| dwb_page_id := pg.1; dwb_page := pg.2 |}.

Lemma fold_left_dwb pages out :
  fold_left (fun out pg => out ++ le_bytes 4 pg.1 ++ pg.2) pages out = out ++ dwb_body pages.
Proof.
  revert out. induction pages as [|pg pages IH]; intros out; cbn; [by rewrite app_nil_r|].
  rewrite IH. by rewrite <-!app_assoc.
Qed.

Lemma zlen_dwb_body pages :
  Forall dwb_page_ok pages -> zlen (dwb_body pages) = zlen pages * PAGED_DWB_ENTRY_SIZE.
Proof.
  unfold PAGED_DWB_ENTRY_SIZE, PAGED_DWB_ENTRY_HEADER_SIZE, PAGED_PAGE_SIZE.
  induction 1 as [|pg pages [_ Hp] _ IH]; [done|]. unfold dwb_body in *. cbn [map concat].
  unfold PAGED_PAGE_SIZE in Hp. autorewrite with zlen. lia.
Qed.

(** A frame is magic, page count and checksum before the entries. *)
Lemma encode_paged_dwb_frame_eq pages :
  encode_paged_dwb_frame crc32 pages =
    DWB_MAGIC ++ le_bytes 4 (as_u32 (zlen pages)) ++ le_bytes 4 (crc32 (dwb_body pages)) ++
    dwb_body pages.
Proof.
  unfold encode_paged_dwb_frame. rewrite fold_left_dwb.
  rewrite splice_in; [reflexivity|done|].
  pose proof (zlen_nonneg (dwb_body pages)).
  zlia.
Qed.

Lemma decode_entries_body pages pre post off :
  Forall dwb_page_ok pages -> off = zlen pre ->
  decode_paged_dwb_entries (pre ++ dwb_body pages ++ post) (length pages) off =
  map entry_of pages.
Proof.
  intros H. revert pre off.
  induction H as [|pg pages [Hid Hp] _ IH]; intros pre off ->; [done|].
  cbn [length decode_paged_dwb_entries map]. unfold dwb_body. cbn [map concat].
  pose proof (zlen_nonneg pre). unfold PAGED_PAGE_SIZE in Hp. f_equal.
  - unfold entry_of, u32_at, PAGED_DWB_ENTRY_HEADER_SIZE, PAGED_PAGE_SIZE.
    rewrite <-!app_assoc. f_equal; rewrite !slice_app_r by zlia; autorewrite with zlen.
    + rewrite Z.sub_diag, slice_app_l by zlia.
      rewrite slice_all by zlia. by apply le_val_u32.
    + slice_from 0. rewrite slice_app_l by lia. by apply slice_all.
  - erewrite <-(IH (pre ++ le_bytes 4 pg.1 ++ pg.2)).
    + f_equal. unfold dwb_body. by rewrite <-!app_assoc.
    + unfold PAGED_DWB_ENTRY_HEADER_SIZE, PAGED_PAGE_SIZE. zlia.
Qed.

Lemma frame_fields pages post :
  Forall dwb_page_ok pages -> zlen pages <= U32_MAX ->
  let b := encode_paged_dwb_frame crc32 pages ++ post in
  slice b 0 4 = DWB_MAGIC /\ u32_at b 4 = zlen pages /\ u32_at b 8 = crc32 (dwb_body pages) /\
  slice b 12 (zlen pages * PAGED_DWB_ENTRY_SIZE) = dwb_body pages /\
  zlen b = 12 + zlen pages * PAGED_DWB_ENTRY_SIZE + zlen post.
Proof.
  intros Hok Hn b. subst b. rewrite encode_paged_dwb_frame_eq, <-!app_assoc.
  pose proof (zlen_nonneg pages). unfold U32_MAX in Hn.
  split; [done|split; [|split; [|split]]].
  - rewrite as_u32_id by (unfold u32_ok; lia).
    apply (le_val_u32 (zlen pages)). unfold u32_ok; lia.
  - exact (le_val_u32 _ (crc32_u32 _)).
  - rewrite <-zlen_dwb_body by done. pose proof (zlen_nonneg (dwb_body pages)).
    rewrite !slice_app_r by zlia. autorewrite with zlen. slice_from 0.
    rewrite slice_app_l by lia. by apply slice_all.
  - autorewrite with zlen. rewrite zlen_dwb_body by done. lia.
Qed.

(** A complete frame decodes to the pages that were staged, whatever bytes of
    an older frame follow it in the zone. *)
Theorem dwb_frame_roundtrip pages post :
  Forall dwb_page_ok pages -> zlen pages <= U32_MAX ->
  decode_paged_dwb_frame crc32 (encode_paged_dwb_frame crc32 pages ++ post) =
  Ok (map entry_of pages).
Proof.
  intros Hok Hn. destruct (frame_fields pages post Hok Hn) as (E1 & E2 & E3 & E4 & E5).
  pose proof (zlen_nonneg pages). pose proof (zlen_nonneg post).
  unfold decode_paged_dwb_frame, PAGED_DWB_HEADER_SIZE.
  assert (0 <= zlen pages * PAGED_DWB_ENTRY_SIZE)
    by (change PAGED_DWB_ENTRY_SIZE with 16388; lia).
  rewrite (proj2 (Z.ltb_ge _ _)) by lia. rewrite bool_decide_true by done. cbn [negb].
  rewrite E2, E3, (proj2 (Z.ltb_ge _ _)) by lia.
  replace (12 + zlen pages * PAGED_DWB_ENTRY_SIZE - 12)
    with (zlen pages * PAGED_DWB_ENTRY_SIZE) by lia.
  rewrite E4, Z.eqb_refl. cbn [negb]. f_equal.
  rewrite encode_paged_dwb_frame_eq. unfold zlen. rewrite Nat2Z.id.
  rewrite !app_assoc. rewrite <-(app_assoc _ (dwb_body pages)).
  by apply decode_entries_body.
Qed.

(** A frame cut short by a crash is refused, never decoded to fewer pages. *)
Theorem dwb_torn_frame_rejected pages n :
  Forall dwb_page_ok pages -> zlen pages <= U32_MAX ->
  0 <= n < zlen (encode_paged_dwb_frame crc32 pages) ->
  exists e, decode_paged_dwb_frame crc32 (slice (encode_paged_dwb_frame crc32 pages) 0 n) = Err e.
Proof.
  intros Hok Hn Hlt.
  destruct (frame_fields pages [] Hok Hn) as (E1 & E2 & E3 & E4 & E5).
  rewrite app_nil_r in *. set (b := encode_paged_dwb_frame crc32 pages) in *.
  unfold decode_paged_dwb_frame, PAGED_DWB_HEADER_SIZE.
  rewrite zlen_slice by lia.
  destruct (Z.ltb_spec n 12); [eauto|]. destruct (bool_decide _); cbn [negb]; [|eauto].
  unfold u32_at in *. rewrite !slice_slice by lia. rewrite !Z.add_0_l, E2.
  rewrite (proj2 (Z.ltb_lt _ _)); [eauto|]. rewrite zlen_nil in E5. lia.
Qed.

End dwb.

(** ** The superblock pair *)

Section superblock.
Context (crc32 : bytes -> Z) (crc32_u32 : forall b, u32_ok (crc32 b)).

(** The trailer that sealing appends to the first 4064 bytes of a slot *)
Definition sealed_slot (slot : bytes) (copy_index generation : Z) : bytes :=
  let body := splice slot PAGED_SUPERBLOCK_TRAILER_OFFSET
    (PAGED_SUPERBLOCK_MAGIC ++ le_bytes 4 PAGED_SUPERBLOCK_SLOT_VERSION ++
     le_bytes 4 copy_index ++ le_bytes 8 generation) in
  splice body PAGED_SUPERBLOCK_CRC_OFFSET
    (le_bytes 4 (crc32 (slice body 0 PAGED_SUPERBLOCK_CRC_OFFSET)) ++ le_bytes 4 0).

Lemma seal_paged_superblock_slot_eq slot copy_index generation :
  zlen slot = PAGED_SUPERBLOCK_SLOT_SIZE -> u32_ok copy_index ->
  seal_paged_superblock_slot crc32 slot copy_index generation =
  Ok (sealed_slot slot copy_index generation).
Proof.
  intros Hl Hc. change PAGED_SUPERBLOCK_SLOT_SIZE with 4096 in Hl.
  unfold seal_paged_superblock_slot, sealed_slot, paged_superblock_crc.
  rewrite ensure_len_ok by closed_offset. cbn [mbind result_bind].
  rewrite (proj2 (Z.leb_le copy_index U32_MAX)) by (unfold u32_ok, U32_MAX in *; lia).
  rewrite write_u32_app by closed_offset. cbn [mbind result_bind].
  rewrite write_u32_app by closed_offset. cbn [mbind result_bind].
  rewrite write_u64_app by closed_offset. cbn [mbind result_bind].
  rewrite <-!app_assoc. set (body := splice slot _ _).
  assert (zlen body = 4096) by (unfold body; rewrite zlen_splice; done).
  change PAGED_SUPERBLOCK_CRC_OFFSET with 4088.
  rewrite write_u32_ok by lia. cbn [mbind result_bind]. unfold put_u32.
  by rewrite write_u32_app by zlia.
Qed.

Lemma zlen_sealed_slot slot ci gen : zlen (sealed_slot slot ci gen) = zlen slot.
Proof. unfold sealed_slot. by rewrite !zlen_splice. Qed.

Lemma sealed_slot_body slot ci gen o n :
  0 <= o -> 0 <= n -> o + n <= PAGED_SUPERBLOCK_CRC_OFFSET ->
  slice (sealed_slot slot ci gen) o n =
  slice (splice slot PAGED_SUPERBLOCK_TRAILER_OFFSET
    (PAGED_SUPERBLOCK_MAGIC ++ le_bytes 4 PAGED_SUPERBLOCK_SLOT_VERSION ++
     le_bytes 4 ci ++ le_bytes 8 gen)) o n.
Proof. intros. unfold sealed_slot. by rewrite slice_splice_ne by (done || lia). Qed.

Lemma slot_generation_sealed slot ci gen :
  zlen slot = PAGED_SUPERBLOCK_SLOT_SIZE -> u32_ok ci -> u64_ok gen ->
  paged_superblock_slot_generation crc32 (sealed_slot slot ci gen) ci = Some gen.
Proof.
  intros Hl Hc Hg. change PAGED_SUPERBLOCK_SLOT_SIZE with 4096 in Hl.
  assert (Hz : zlen (sealed_slot slot ci gen) = 4096) by (by rewrite zlen_sealed_slot).
  assert (Hbody : forall o n, 4064 <= o -> 0 <= n -> o + n <= 4088 ->
    slice (sealed_slot slot ci gen) o n =
    slice (PAGED_SUPERBLOCK_MAGIC ++ le_bytes 4 PAGED_SUPERBLOCK_SLOT_VERSION ++
     le_bytes 4 ci ++ le_bytes 8 gen) (o - 4064) n).
  { intros o n H1 H2 H3. rewrite sealed_slot_body by (change PAGED_SUPERBLOCK_CRC_OFFSET with 4088; lia).
    by rewrite slice_splice_in by
      (change PAGED_SUPERBLOCK_TRAILER_OFFSET with 4064; change (zlen (_ ++ _)) with 24; lia). }
  assert (Hver : u32_at (sealed_slot slot ci gen) PAGED_SUPERBLOCK_VERSION_OFFSET = 1)
    by (unfold u32_at; rewrite Hbody by (vm_compute; congruence); reflexivity).
  assert (Hcopy : u32_at (sealed_slot slot ci gen) PAGED_SUPERBLOCK_COPY_OFFSET = ci)
    by (unfold u32_at; rewrite Hbody by (vm_compute; congruence); exact (le_val_u32 ci Hc)).
  assert (Hgen : u64_at (sealed_slot slot ci gen) PAGED_SUPERBLOCK_GENERATION_OFFSET = gen)
    by (unfold u64_at; rewrite Hbody by (vm_compute; congruence); exact (le_val_u64 gen Hg)).
  assert (Hcrc : u32_at (sealed_slot slot ci gen) PAGED_SUPERBLOCK_CRC_OFFSET =
    crc32 (slice (sealed_slot slot ci gen) 0 PAGED_SUPERBLOCK_CRC_OFFSET)).
  { rewrite sealed_slot_body by (vm_compute; congruence). unfold u32_at, sealed_slot.
    rewrite slice_splice_in by (rewrite ?zlen_splice, ?Hl; vm_compute; congruence).
    exact (le_val_u32 _ (crc32_u32 _)). }
  unfold paged_superblock_slot_generation, paged_superblock_crc.
  rewrite Hz. rewrite (proj2 (Z.ltb_ge _ _)) by done.
  rewrite (Hbody PAGED_SUPERBLOCK_TRAILER_OFFSET 8) by (vm_compute; congruence).
  rewrite bool_decide_true by reflexivity. cbn [negb].
  rewrite !read_u32_ok, !read_u64_ok by (rewrite Hz; vm_compute; congruence).
  cbn [result_ok mbind option_bind].
  rewrite Hver. change (negb (1 =? PAGED_SUPERBLOCK_SLOT_VERSION)) with false. cbn iota.
  rewrite (proj2 (Z.leb_le ci U32_MAX)) by (unfold u32_ok, U32_MAX in *; lia).
  cbn [mbind option_bind]. rewrite Hcopy, Z.eqb_refl. cbn [negb].
  rewrite Hcrc, Z.eqb_refl. cbn [negb]. by rewrite Hgen.
Qed.

Lemma superblock_slot_size : PAGED_SUPERBLOCK_SLOT_SIZE = 4096.
Proof. reflexivity. Qed.

Lemma get_range_slot zone c :
  zlen zone = PAGED_SUPERBLOCK_ZONE_SIZE -> c = 0 \/ c = 1 ->
  get_range zone (c * PAGED_SUPERBLOCK_SLOT_SIZE) PAGED_SUPERBLOCK_SLOT_SIZE =
  Some (slice zone (c * PAGED_SUPERBLOCK_SLOT_SIZE) PAGED_SUPERBLOCK_SLOT_SIZE).
Proof.
  intros Hz Hc. unfold get_range. rewrite Hz. unfold PAGED_SUPERBLOCK_ZONE_SIZE.
  pose proof superblock_slot_size. unfold PAGED_SUPERBLOCK_SLOT_COUNT.
  by rewrite (proj2 (Z.leb_le _ _)) by lia.
Qed.

Lemma get_range_splice zone c c' slot :
  zlen zone = PAGED_SUPERBLOCK_ZONE_SIZE -> zlen slot = PAGED_SUPERBLOCK_SLOT_SIZE ->
  (c = 0 \/ c = 1) -> (c' = 0 \/ c' = 1) ->
  get_range (splice zone (c' * PAGED_SUPERBLOCK_SLOT_SIZE) slot)
    (c * PAGED_SUPERBLOCK_SLOT_SIZE) PAGED_SUPERBLOCK_SLOT_SIZE =
  if decide (c = c') then Some slot
  else get_range zone (c * PAGED_SUPERBLOCK_SLOT_SIZE) PAGED_SUPERBLOCK_SLOT_SIZE.
Proof.
  intros Hz Hs Hc Hc'. pose proof superblock_slot_size.
  rewrite !get_range_slot by (rewrite ?zlen_splice; done).
  unfold PAGED_SUPERBLOCK_ZONE_SIZE, PAGED_SUPERBLOCK_SLOT_COUNT in Hz. case_decide as Hd.
  - subst c'. rewrite slice_splice_eq by lia. reflexivity.
  - rewrite slice_splice_ne by lia. reflexivity.
Qed.

(** What a slot says once [slot] has been written at copy [c'] *)
Lemma select_slot_splice zone c c' slot :
  zlen zone = PAGED_SUPERBLOCK_ZONE_SIZE -> zlen slot = PAGED_SUPERBLOCK_SLOT_SIZE ->
  (c = 0 \/ c = 1) -> (c' = 0 \/ c' = 1) ->
  select_slot crc32 (splice zone (paged_superblock_slot_offset c') slot) c =
  if decide (c = c')
  then generation ← paged_superblock_slot_generation crc32 slot c;
       Some {| sel_copy_index := c; sel_generation := generation |}
  else select_slot crc32 zone c.
Proof.
  intros Hz Hs Hc Hc'.
  assert (Ho : paged_superblock_slot_offset c' = c' * PAGED_SUPERBLOCK_SLOT_SIZE).
  { unfold paged_superblock_slot_offset. f_equal. by destruct Hc' as [-> | ->]. }
  rewrite Ho. unfold select_slot. rewrite get_range_splice by done.
  case_decide; reflexivity.
Qed.

(** The selected copy is one of the two, and no valid copy is newer. *)
Lemma select_paged_superblock_spec zone s :
  select_paged_superblock crc32 zone = Some s ->
  exists c, (c = 0 \/ c = 1) /\ sel_copy_index s = c /\ select_slot crc32 zone c = Some s /\
    forall c' s', (c' = 0 \/ c' = 1) -> select_slot crc32 zone c' = Some s' ->
      sel_generation s' <= sel_generation s.
Proof.
  unfold select_paged_superblock. cbn [omap list_omap].
  assert (Hci : forall c s, select_slot crc32 zone c = Some s -> sel_copy_index s = c).
  { intros c t. unfold select_slot. destruct (get_range _ _ _); [|done]. cbn [mbind option_bind].
    destruct (paged_superblock_slot_generation _ _ _); [|done]. cbn. by intros [= <-]. }
  destruct (select_slot crc32 zone 0) as [s0|] eqn:E0, (select_slot crc32 zone 1) as [s1|] eqn:E1;
    cbn; intros Hs; try done.
  - destruct (Z.ltb_spec (sel_generation s1) (sel_generation s0)); injection Hs as <-.
    + exists 0. split_and!; [auto|auto|done|].
      intros c' s' [->| ->] Hs'; rewrite ?E0, ?E1 in Hs'; injection Hs' as <-; lia.
    + exists 1. split_and!; [auto|auto|done|].
      intros c' s' [->| ->] Hs'; rewrite ?E0, ?E1 in Hs'; injection Hs' as <-; lia.
  - injection Hs as <-. exists 0. split_and!; [auto|auto|done|].
    intros c' s' [->| ->] Hs'; rewrite ?E0, ?E1 in Hs'; [injection Hs' as <-; lia|done].
  - injection Hs as <-. exists 1. split_and!; [auto|auto|done|].
    intros c' s' [->| ->] Hs'; rewrite ?E0, ?E1 in Hs'; [done|injection Hs' as <-; lia].
Qed.

(** The seal leaves the header alone. *)
Lemma decode_sealed_header image h ci gen :
  zlen image = PAGED_SUPERBLOCK_SLOT_SIZE -> header_ok h -> page_size h = PAGED_PAGE_SIZE -> version h <= PAGE_FILE_VERSION ->
  decode_database_header (sealed_slot (splice image DB_MAGIC_OFFSET (database_header_bytes h)) ci gen) = Ok h.
Proof.
  intros Hl Hok Hps Hv. change PAGED_SUPERBLOCK_SLOT_SIZE with 4096 in Hl. set (slot := sealed_slot _ _ _).
  assert (Hz : zlen slot = 4096) by (unfold slot; by rewrite zlen_sealed_slot, zlen_splice).
  assert (Hs : slice slot DB_MAGIC_OFFSET 201 = database_header_bytes h).
  { unfold slot. rewrite sealed_slot_body by done. rewrite slice_splice_ne by (vm_compute; intuition congruence).
    rewrite <-(zlen_database_header_bytes h). apply slice_splice_eq; rewrite ?zlen_database_header_bytes; rewrite ?Hl; done. }
  rewrite <-(splice_id slot DB_MAGIC_OFFSET (database_header_bytes h)).
  - rewrite decode_database_header_eq by (by rewrite zlen_splice, Hz).
    rewrite magic_matches_splice, database_header_of_encoded by (by rewrite ?Hz). cbn [negb].
    rewrite Hps, Z.eqb_refl. cbn [negb]. by rewrite (proj2 (Z.ltb_ge _ _)).
  - done.
  - by rewrite zlen_database_header_bytes, Hz.
  - by rewrite zlen_database_header_bytes.
Qed.

Lemma next_copy_other s :
  (sel_copy_index s = 0 \/ sel_copy_index s = 1) ->
  paged_superblock_next_copy (Some s) = 1 - sel_copy_index s.
Proof. intros [H|H]; cbn; rewrite H; reflexivity. Qed.

(** A complete write of the other copy makes it the selected one. *)
Lemma superblock_publish_selects zone s image :
  zlen zone = PAGED_SUPERBLOCK_ZONE_SIZE -> select_paged_superblock crc32 zone = Some s ->
  u64_ok (sel_generation s + 1) -> zlen image = PAGED_SUPERBLOCK_SLOT_SIZE ->
  let next := paged_superblock_next_copy (Some s) in
  (next = 0 \/ next = 1) /\
  seal_paged_superblock_slot crc32 image next (sel_generation s + 1) = Ok (sealed_slot image next (sel_generation s + 1)) /\
  select_paged_superblock crc32 (splice zone (paged_superblock_slot_offset next) (sealed_slot image next (sel_generation s + 1))) =
    Some {| sel_copy_index := next; sel_generation := sel_generation s + 1 |}.
Proof.
  intros Hz Hs Hg Hi next.
  destruct (select_paged_superblock_spec _ _ Hs) as (c & Hc & Hsc & Hsel & Hmax).
  assert (Hn : next = 1 - c) by (unfold next; rewrite next_copy_other; subst; auto).
  assert (Hn01 : next = 0 \/ next = 1) by lia. clearbody next. split; [done|].
  rewrite seal_paged_superblock_slot_eq by (done || unfold u32_ok; lia). split; [done|].
  pose proof (slot_generation_sealed image next (sel_generation s + 1) Hi ltac:(unfold u32_ok; lia) Hg) as Hgen.
  unfold select_paged_superblock. cbn [omap list_omap].
  rewrite !select_slot_splice by (auto; by rewrite ?zlen_sealed_slot).
  destruct Hc as [-> | ->];
    (assert (next = 1) as -> by lia) || (assert (next = 0) as -> by lia);
    repeat (case_decide; try done); rewrite Hgen, Hsel;
    unfold max_by_generation; cbn [mbind option_bind fold_left sel_generation].
  - by rewrite (proj2 (Z.ltb_ge _ _)) by lia.
  - by rewrite (proj2 (Z.ltb_lt _ _)) by lia.
Qed.

(** C27. Publishing a superblock is atomic.  With [s] the newest copy, an update
    writes the other copy: if the write completes, the new generation is the one
    selected; if it is torn so that the slot no longer verifies, [s] still is. *)
Theorem superblock_publish_atomic zone s image torn :
  zlen zone = PAGED_SUPERBLOCK_ZONE_SIZE -> select_paged_superblock crc32 zone = Some s ->
  u64_ok (sel_generation s + 1) -> zlen image = PAGED_SUPERBLOCK_SLOT_SIZE ->
  zlen torn = PAGED_SUPERBLOCK_SLOT_SIZE ->
  let next := paged_superblock_next_copy (Some s) in
  (exists slot,
     seal_paged_superblock_slot crc32 image next (sel_generation s + 1) = Ok slot /\
     select_paged_superblock crc32 (splice zone (paged_superblock_slot_offset next) slot) =
       Some {| sel_copy_index := next; sel_generation := sel_generation s + 1 |}) /\
  (paged_superblock_slot_generation crc32 torn next = None ->
   select_paged_superblock crc32 (splice zone (paged_superblock_slot_offset next) torn) = Some s).
Proof.
  intros Hz Hs Hg Hi Ht next. split.
  - exists (sealed_slot image next (sel_generation s + 1)).
    pose proof (superblock_publish_selects zone s image Hz Hs Hg Hi) as (_ & H1 & H2). by split.
  - destruct (select_paged_superblock_spec _ _ Hs) as (c & Hc & Hsc & Hsel & Hmax).
    assert (Hn : next = 1 - c) by (unfold next; rewrite next_copy_other; subst; auto).
    assert (Hn01 : next = 0 \/ next = 1) by lia. clearbody next.
    intros Htorn. unfold select_paged_superblock. cbn [omap list_omap].
    rewrite !select_slot_splice by auto.
    destruct Hc as [-> | ->]; 
      (assert (next = 1) as -> by lia) || (assert (next = 0) as -> by lia);
      repeat (case_decide; try done); rewrite Htorn, Hsel; done.
Qed.

End superblock.

(** * Witnesses *)

Lemma database_header_roundtrip_witness :
  exists page', encode_database_header (zeros 4096) DatabaseHeader_default = Ok page' /\
    decode_database_header page' = Ok DatabaseHeader_default.
Proof.
  destruct (database_header_roundtrip (zeros 4096) DatabaseHeader_default)
    as (page' & H1 & H2 & _ & _).
  - vm_compute; congruence.
  - unfold header_ok, physical_ok. repeat split; vm_compute; congruence.
  - reflexivity.
  - vm_compute; congruence.
  - exists page'. exact (conj H1 H2).
Defined.

Lemma dwb_frame_roundtrip_witness :
  decode_paged_dwb_frame byte_sum
    (encode_paged_dwb_frame byte_sum [(7, zeros PAGED_PAGE_SIZE)] ++ [1; 2; 3]) =
  Ok [entry_of (7, zeros PAGED_PAGE_SIZE)].
Proof.
  apply (dwb_frame_roundtrip byte_sum byte_sum_u32 [(7, zeros PAGED_PAGE_SIZE)] [1; 2; 3]).
  - constructor; [|constructor]. split; [vm_compute; split; congruence|].
    apply zlen_zeros. unfold PAGED_PAGE_SIZE. lia.
  - vm_compute; congruence.
Defined.

(** Page 0 of an encrypted database *)
Definition marked_page : bytes :=
  splice (zeros 4096) PAGED_ENCRYPTION_MARKER_OFFSET PAGED_ENCRYPTION_MARKER.

Lemma header_write_erases_encryption_marker_witness :
  paged_encryption_marker_present marked_page = true /\
  exists page', encode_database_header marked_page DatabaseHeader_default = Ok page' /\
    paged_encryption_marker_present page' = false.
Proof.
  split; [vm_compute; reflexivity|].
  destruct (encode_database_header marked_page DatabaseHeader_default) as [page'| |] eqn:E.
  - exists page'. split; [reflexivity|].
    apply (header_write_erases_encryption_marker marked_page DatabaseHeader_default page').
    + vm_compute; split; congruence.
    + vm_compute; congruence.
    + exact E.
  - exfalso. vm_compute in E. discriminate E.
  - exfalso. vm_compute in E. discriminate E.
Defined.

Lemma dwb_torn_frame_rejected_witness :
  exists e, decode_paged_dwb_frame byte_sum
    (slice (encode_paged_dwb_frame byte_sum [(7, zeros PAGED_PAGE_SIZE)]) 0 100) = Err e.
Proof.
  apply (dwb_torn_frame_rejected byte_sum byte_sum_u32 [(7, zeros PAGED_PAGE_SIZE)] 100).
  - constructor; [|constructor]. split; [vm_compute; split; congruence|].
    apply zlen_zeros. unfold PAGED_PAGE_SIZE. lia.
  - vm_compute; congruence.
  - split; [lia|]. vm_compute. reflexivity.
Defined.

(** The first slot holds generation 1, the second was never written. *)
Definition sample_zone : bytes := sealed_slot byte_sum (zeros 4096) 0 1 ++ zeros 4096.

Lemma superblock_publish_atomic_witness :
  (exists slot,
     seal_paged_superblock_slot byte_sum (zeros 4096) 1 2 = Ok slot /\
     select_paged_superblock byte_sum (splice sample_zone 4096 slot) =
       Some {| sel_copy_index := 1; sel_generation := 2 |}) /\
  select_paged_superblock byte_sum (splice sample_zone 4096 (zeros 4096)) =
    Some {| sel_copy_index := 0; sel_generation := 1 |}.
Proof.
  destruct (superblock_publish_atomic byte_sum byte_sum_u32 sample_zone
    {| sel_copy_index := 0; sel_generation := 1 |} (zeros 4096) (zeros 4096)) as [H1 H2].
  - vm_compute; reflexivity.
  - vm_compute; reflexivity.
  - vm_compute; split; congruence.
  - vm_compute; reflexivity.
  - vm_compute; reflexivity.
  - split; [exact H1|apply H2; vm_compute; reflexivity].
Defined.
