(* ===== verification/Page.v ===== *)
(** * Engine pages ([crates/reddb-engine/src/storage/page.rs], [page/impl.rs])

    The typed page header, the slotted cell area ([insert_cell], [read_cell]),
    the binary search over sorted cells and the page checksum.  A [Page] is its
    16384 bytes; [&mut self] is state passing. *)

From S2P Require Import Prelude FileFormat.
From Stdlib Require Import ZArith Lia.

Definition PAGE_SIZE : Z := PAGED_PAGE_SIZE.
Definition HEADER_SIZE : Z := PAGED_PAGE_HEADER_SIZE.
Definition CONTENT_SIZE : Z := PAGE_SIZE - HEADER_SIZE.

Inductive PageType : Type :=
| Free | BTreeLeaf | BTreeInterior | Overflow | Vector | FreelistTrunk | Header
| GraphNode | GraphEdge | GraphAdjacency | GraphMeta | NativeMeta | Vault | ColumnBlock.

#[global] Instance PageType_eq_dec : EqDecision PageType.
Proof. solve_decision. Defined.

(** [page_type as u8] *)
Definition PageType_as_u8 (t : PageType) : Z :=
  match t with
  | Free => 0 | BTreeLeaf => 1 | BTreeInterior => 2 | Overflow => 3 | Vector => 4
  | FreelistTrunk => 5 | Header => 6 | GraphNode => 7 | GraphEdge => 8 | GraphAdjacency => 9
  | GraphMeta => 10 | NativeMeta => 11 | Vault => 12 | ColumnBlock => 13
  end.

Definition PageType_from_u8 (value : Z) : option PageType :=
  match value with
  | 0 => Some Free | 1 => Some BTreeLeaf | 2 => Some BTreeInterior | 3 => Some Overflow
  | 4 => Some Vector | 5 => Some FreelistTrunk | 6 => Some Header | 7 => Some GraphNode
  | 8 => Some GraphEdge | 9 => Some GraphAdjacency | 10 => Some GraphMeta
  | 11 => Some NativeMeta | 12 => Some Vault | 13 => Some ColumnBlock
  | _ => None
  end.

Inductive PageFlag : Type := Dirty | Locked | Loaded | Pinned | Encrypted.

Definition PageFlag_as_u8 (f : PageFlag) : Z :=
  match f with Dirty => 0x01 | Locked => 0x02 | Loaded => 0x04 | Pinned => 0x08 | Encrypted => 0x10 end.

Inductive PageError : Type :=
| InvalidPageType (t : Z)
| ChecksumMismatch (expected actual : Z)
| InvalidSize (n : Z)
| PageFull
| CellOutOfBounds (i : Z)
| InvalidCellPointer (p : Z)
| OverflowRequired.

#[global] Instance PageError_eq_dec : EqDecision PageError.
Proof. solve_decision. Defined.

Record PageHeader : Type := {
  h_page_type : PageType;
  h_flags : Z;
  h_cell_count : Z;
  h_free_start : Z;
  h_free_end : Z;
  h_page_id : Z;
  h_parent_id : Z;
  h_right_child : Z;
  h_lsn : Z;
  h_checksum : Z;
}.

Definition PageHeader_new (t : PageType) (id : Z) : PageHeader := {|
  h_page_type := t; h_flags := 0; h_cell_count := 0; h_free_start := HEADER_SIZE;
  h_free_end := PAGE_SIZE; h_page_id := id; h_parent_id := 0; h_right_child := 0;
  h_lsn := 0; h_checksum := 0;
|}.

Definition PageHeader_to_bytes (h : PageHeader) : bytes :=
  encode_paged_page_header {|
    pph_page_type := PageType_as_u8 (h_page_type h); pph_flags := h_flags h;
    pph_cell_count := h_cell_count h; pph_free_start := h_free_start h;
    pph_free_end := h_free_end h; pph_page_id := h_page_id h; pph_parent_id := h_parent_id h;
    pph_right_child := h_right_child h; pph_lsn := h_lsn h; pph_checksum := h_checksum h |}.

Definition PageHeader_from_bytes (buf : bytes) : result PageError PageHeader :=
  let raw := decode_paged_page_header buf in
  t ← ok_or (PageType_from_u8 (pph_page_type raw)) (InvalidPageType (pph_page_type raw));
  Ok {| h_page_type := t; h_flags := pph_flags raw; h_cell_count := pph_cell_count raw;
        h_free_start := pph_free_start raw; h_free_end := pph_free_end raw;
        h_page_id := pph_page_id raw; h_parent_id := pph_parent_id raw;
        h_right_child := pph_right_child raw; h_lsn := pph_lsn raw;
        h_checksum := pph_checksum raw |}.

Definition has_flag (h : PageHeader) (f : PageFlag) : bool :=
  negb (Z.land (h_flags h) (PageFlag_as_u8 f) =? 0).

Definition with_flags (h : PageHeader) (flags : Z) : PageHeader := {|
  h_page_type := h_page_type h; h_flags := flags; h_cell_count := h_cell_count h;
  h_free_start := h_free_start h; h_free_end := h_free_end h; h_page_id := h_page_id h;
  h_parent_id := h_parent_id h; h_right_child := h_right_child h; h_lsn := h_lsn h;
  h_checksum := h_checksum h |}.

Definition set_flag (h : PageHeader) (f : PageFlag) : PageHeader :=
  with_flags h (Z.lor (h_flags h) (PageFlag_as_u8 f)).

(** [!(flag as u8)] is the complement within eight bits. *)
Definition clear_flag (h : PageHeader) (f : PageFlag) : PageHeader :=
  with_flags h (Z.land (h_flags h) (255 - PageFlag_as_u8 f)).

Definition header_free_space (h : PageHeader) : Z :=
  if h_free_end h <=? h_free_start h then 0 else h_free_end h - h_free_start h.

(** ** Pages *)

Definition header (p : bytes) : result PageError PageHeader :=
  PageHeader_from_bytes (slice p 0 HEADER_SIZE).

Definition set_header (p : bytes) (h : PageHeader) : bytes := splice p 0 (PageHeader_to_bytes h).

Definition Page_new (t : PageType) (id : Z) : bytes :=
  set_header (zeros PAGE_SIZE) (PageHeader_new t id).

Definition from_slice (s : bytes) : result PageError bytes :=
  if negb (zlen s =? PAGE_SIZE) then Err (InvalidSize (zlen s)) else Ok s.

Definition page_type (p : bytes) : result PageError PageType :=
  ok_or (PageType_from_u8 (paged_page_type p)) (InvalidPageType (paged_page_type p)).

Definition page_id (p : bytes) : Z := paged_page_id p.
Definition lsn (p : bytes) : Z := paged_page_lsn p.
Definition set_lsn (p : bytes) (v : Z) : bytes := set_paged_page_lsn p v.
Definition cell_count (p : bytes) : Z := paged_page_cell_count p.
Definition set_cell_count (p : bytes) (n : Z) : bytes := set_paged_page_cell_count p n.
Definition parent_id (p : bytes) : Z := paged_page_parent_id p.
Definition set_parent_id (p : bytes) (id : Z) : bytes := set_paged_page_parent_id p id.
Definition right_child (p : bytes) : Z := paged_page_right_child p.
Definition set_right_child (p : bytes) (id : Z) : bytes := set_paged_page_right_child p id.
Definition free_start (p : bytes) : Z := paged_page_free_start p.
Definition set_free_start (p : bytes) (o : Z) : bytes := set_paged_page_free_start p o.
Definition free_end (p : bytes) : Z := paged_page_free_end p.
Definition set_free_end (p : bytes) (o : Z) : bytes := set_paged_page_free_end p o.

(** ** Cells *)

Definition get_cell_pointer (p : bytes) (index : Z) : result PageError Z :=
  if cell_count p <=? index then Err (CellOutOfBounds index)
  else ok_or (paged_cell_pointer p index) (CellOutOfBounds index).

Definition set_cell_pointer (p : bytes) (index pointer : Z) : result PageError bytes :=
  if negb (paged_cell_pointer_is_valid pointer) then Err (InvalidCellPointer pointer)
  else ok_or (set_paged_cell_pointer p index pointer) (CellOutOfBounds index).

Definition get_cell (p : bytes) (index : Z) : result PageError bytes :=
  pointer ← get_cell_pointer p index;
  ok_or (paged_cell_bytes p pointer) (InvalidCellPointer pointer).

Definition read_cell (p : bytes) (index : Z) : result PageError (bytes * bytes) :=
  cell ← get_cell p index;
  ok_or (paged_cell_key_value cell) (InvalidCellPointer 0).

(** The page after the call comes with the result: a failure can come after
    the cell bytes were written. *)
Definition insert_cell (p key value : bytes) : bytes * result PageError Z :=
  if U16_MAX <? zlen key then (p, Err OverflowRequired)
  else match paged_cell_len (zlen key) (zlen value) with
  | None => (p, Err OverflowRequired)
  | Some cell_size =>
    if CONTENT_SIZE - 2 <? cell_size then (p, Err OverflowRequired)
    else match header p with
    | Err e => (p, Err e)
    | Panic => (p, Panic)
    | Ok h =>
      if header_free_space h <? 2 + cell_size then (p, Err PageFull)
      else
        let cell_offset := h_free_end h - cell_size in
        match write_paged_cell p (as_u16 cell_offset) key value with
        | None => (p, Err (InvalidCellPointer (as_u16 cell_offset)))
        | Some p =>
          let cell_index := h_cell_count h in
          match set_paged_cell_pointer p cell_index (as_u16 cell_offset) with
          | None => (p, Err (CellOutOfBounds cell_index))
          | Some p =>
            let h := {| h_page_type := h_page_type h; h_flags := h_flags h;
                        h_cell_count := as_u16 (h_cell_count h + 1);
                        h_free_start := as_u16 (h_free_start h + 2);
                        h_free_end := as_u16 cell_offset; h_page_id := h_page_id h;
                        h_parent_id := h_parent_id h; h_right_child := h_right_child h;
                        h_lsn := h_lsn h; h_checksum := h_checksum h |} in
            (set_header p (set_flag h Dirty), Ok cell_index)
          end
        end
    end
  end.

(** The loop body: a cell that cannot be read ends the search at [Err(mid)]. *)
Definition search_key_body (p key : bytes) (mid : Z) : result Z (probe Z) :=
  match read_cell p mid with
  | Ok (cell_key, _) =>
      match bytes_cmp cell_key key with
      | Lt => Ok GoRight
      | Gt => Ok GoLeft
      | Eq => Ok (Stop mid)
      end
  | Err _ => Err mid
  | Panic => Panic
  end.

(** [count] iterations are more than the halving needs. *)
Definition search_key (p key : bytes) : result Z Z :=
  let count := cell_count p in
  if count =? 0 then Err 0
  else match bsearch (Z.to_nat count) (search_key_body p key) 0 count with
       | Ok (inl mid) => Ok mid
       | Ok (inr low) => Err low
       | Err mid => Err mid
       | Panic => Panic
       end.

(** ** Checksums and the header page; [crc32] is [crc32fast] *)

Section with_crc.
Context (crc32 : bytes -> Z).

Definition update_checksum (p : bytes) : bytes :=
  let p := clear_paged_page_checksum p in
  set_paged_page_checksum p (crc32 p).

Definition verify_checksum (p : bytes) : result PageError unit :=
  let stored := paged_page_checksum p in
  let temp := clear_paged_page_checksum p in
  let calculated := crc32 temp in
  if negb (stored =? calculated) then Err (ChecksumMismatch stored calculated) else Ok tt.

(** [.expect] on the fixed-size page *)
Definition expect {A} (m : result DatabaseHeaderError A) : result PageError A :=
  match m with Ok a => Ok a | _ => Panic end.

Definition new_header_page (count : Z) : result PageError bytes :=
  p ← expect (init_database_header_page (Page_new Header 0) count);
  Ok (update_checksum p).

End with_crc.

Definition read_page_count (p : bytes) : result PageError Z :=
  expect (database_header_page_count p).
Definition write_page_count (p : bytes) (count : Z) : result PageError bytes :=
  expect (set_database_header_page_count p count).
Definition read_freelist_head (p : bytes) : result PageError Z :=
  expect (database_header_freelist_head p).
Definition write_freelist_head (p : bytes) (id : Z) : result PageError bytes :=
  expect (set_database_header_freelist_head p id).

Definition verify_header_page (p : bytes) : result PageError unit :=
  if negb (database_header_magic_matches p) then Err (InvalidPageType (u8_at p 0))
  else
    stored ← map_err (fun _ => InvalidSize (zlen p)) (database_header_page_size p);
    if negb (stored =? PAGE_SIZE) then Err (InvalidSize stored) else Ok tt.

(** * Theorems *)

Lemma PageType_from_as t : PageType_from_u8 (PageType_as_u8 t) = Some t.
Proof. by destruct t. Qed.

Lemma PageType_byte t : byte_ok (PageType_as_u8 t).
Proof. by destruct t; unfold byte_ok; cbn. Qed.

Lemma PageType_from_inv v t : PageType_from_u8 v = Some t -> v = PageType_as_u8 t.
Proof.
  unfold PageType_from_u8. intros H.
  repeat case_match; try done; injection H as <-; reflexivity.
Qed.

(** The integer ranges of the Rust field types *)
Definition page_header_ok (h : PageHeader) : Prop :=
  byte_ok (h_flags h) /\ u16_ok (h_cell_count h) /\
  u16_ok (h_free_start h) /\ u16_ok (h_free_end h) /\ u32_ok (h_page_id h) /\
  u32_ok (h_parent_id h) /\ u32_ok (h_right_child h) /\ u64_ok (h_lsn h) /\
  u32_ok (h_checksum h).

Lemma zlen_PageHeader_to_bytes h : zlen (PageHeader_to_bytes h) = 32.
Proof. reflexivity. Qed.

Lemma PageHeader_from_to h : page_header_ok h -> PageHeader_from_bytes (PageHeader_to_bytes h) = Ok h.
Proof.
  intros (H1 & H2 & H3 & H4 & H5 & H6 & H7 & H8 & H9).
  unfold PageHeader_from_bytes, PageHeader_to_bytes.
  rewrite paged_page_header_decode_encode by (unfold paged_page_header_ok; cbn; auto 12 using PageType_byte).
  cbn [pph_page_type]. rewrite PageType_from_as. cbn. by destruct h.
Qed.

Lemma header_set_header p h :
  zlen p = PAGE_SIZE -> page_header_ok h -> header (set_header p h) = Ok h.
Proof.
  intros Hl Hh. change PAGE_SIZE with 16384 in Hl. unfold header, set_header.
  rewrite slice_splice_eq; [by apply PageHeader_from_to|done| |reflexivity].
  rewrite zlen_PageHeader_to_bytes. lia.
Qed.

(** The header of a page is the fields at their offsets. *)
Lemma header_eq p :
  zlen p = PAGE_SIZE ->
  header p = t ← page_type p;
    Ok {| h_page_type := t; h_flags := u8_at p 1; h_cell_count := cell_count p;
          h_free_start := free_start p; h_free_end := free_end p; h_page_id := page_id p;
          h_parent_id := parent_id p; h_right_child := right_child p; h_lsn := lsn p;
          h_checksum := paged_page_checksum p |}.
Proof.
  intros Hl. unfold header, PageHeader_from_bytes, decode_paged_page_header, page_type,
    paged_page_type, HEADER_SIZE, PAGED_PAGE_HEADER_SIZE.
  cbn [pph_page_type pph_flags pph_cell_count pph_free_start
       pph_free_end pph_page_id pph_parent_id pph_right_child pph_lsn pph_checksum].
  unfold u8_at, u16_at, u32_at, u64_at. rewrite !slice_slice by lia. reflexivity.
Qed.

Lemma set_header_fields p h :
  zlen p = PAGE_SIZE -> page_header_ok h ->
  page_type (set_header p h) = Ok (h_page_type h) /\
  cell_count (set_header p h) = h_cell_count h /\
  free_start (set_header p h) = h_free_start h /\ free_end (set_header p h) = h_free_end h /\
  page_id (set_header p h) = h_page_id h.
Proof.
  intros Hl Hh. pose proof (header_set_header p h Hl Hh) as E.
  rewrite header_eq in E by (unfold set_header; by rewrite zlen_splice).
  apply bind_Ok_inv in E as (t & E1 & E2). rewrite E1. injection E2 as E2.
  repeat split; [f_equal; exact (f_equal h_page_type E2) | exact (f_equal h_cell_count E2)
    | exact (f_equal h_free_start E2) | exact (f_equal h_free_end E2) | exact (f_equal h_page_id E2)].
Qed.

Lemma slice_set_header p h o n :
  0 <= n -> 32 <= o -> slice (set_header p h) o n = slice p o n.
Proof.
  intros. unfold set_header. apply slice_splice_ne; rewrite ?zlen_PageHeader_to_bytes; lia.
Qed.

(** ** Checksums *)

Section checksum.
Context (crc32 : bytes -> Z) (crc32_u32 : forall b, u32_ok (crc32 b)).

Lemma clear_set_checksum p v :
  zlen p = PAGE_SIZE -> u32_ok v ->
  clear_paged_page_checksum (set_paged_page_checksum (clear_paged_page_checksum p) v) =
  clear_paged_page_checksum p.
Proof.
  intros Hl Hv. change PAGE_SIZE with 16384 in Hl.
  unfold clear_paged_page_checksum, set_paged_page_checksum, put_u32.
  apply list_eq. intros i. rewrite !lookup_splice by zlia. autorewrite with zlen.
  by case_decide.
Qed.

Lemma zlen_update_checksum p : zlen (update_checksum crc32 p) = zlen p.
Proof.
  unfold update_checksum, set_paged_page_checksum, clear_paged_page_checksum, put_u32.
  by rewrite !zlen_splice.
Qed.

Lemma slice_update_checksum p o n :
  0 <= o -> 0 <= n -> o + n <= 28 \/ 32 <= o ->
  slice (update_checksum crc32 p) o n = slice p o n.
Proof.
  intros. unfold update_checksum, set_paged_page_checksum, clear_paged_page_checksum, put_u32.
  by rewrite !slice_splice_ne by zlia.
Qed.

Lemma update_checksum_verifies p :
  zlen p = PAGE_SIZE -> verify_checksum crc32 (update_checksum crc32 p) = Ok tt.
Proof.
  intros Hl. unfold verify_checksum, update_checksum. rewrite clear_set_checksum by done.
  unfold paged_page_checksum, set_paged_page_checksum, put_u32.
  rewrite u32_at_put; [by rewrite Z.eqb_refl|done| |done].
  unfold clear_paged_page_checksum, put_u32. rewrite zlen_splice, Hl. done.
Qed.

(** A page whose checksum was just updated verifies, and nothing but the
    checksum field was changed. *)
Theorem update_then_verify_checksum p :
  zlen p = PAGE_SIZE ->
  verify_checksum crc32 (update_checksum crc32 p) = Ok tt /\
  zlen (update_checksum crc32 p) = PAGE_SIZE /\
  (forall o n, 0 <= o -> 0 <= n -> o + n <= 28 \/ 32 <= o ->
     slice (update_checksum crc32 p) o n = slice p o n).
Proof.
  intros Hl. split; [by apply update_checksum_verifies|].
  split; [by rewrite zlen_update_checksum|]. intros. by apply slice_update_checksum.
Qed.

(** A page that verifies is left alone by the update: the stored checksum is
    a function of the other bytes. *)
Theorem verified_checksum_is_current p :
  zlen p = PAGE_SIZE -> Forall byte_ok p ->
  verify_checksum crc32 p = Ok tt -> update_checksum crc32 p = p.
Proof.
  intros Hl Hb Hv. unfold verify_checksum in Hv.
  destruct (Z.eqb_spec (paged_page_checksum p) (crc32 (clear_paged_page_checksum p))) as [E|];
    [|done].
  unfold update_checksum. rewrite <-E.
  unfold set_paged_page_checksum, clear_paged_page_checksum, paged_page_checksum, put_u32, u32_at.
  change PAGE_SIZE with 16384 in Hl.
  pose proof (le_bytes_slice p 28 4 Hb ltac:(lia) ltac:(lia)) as E4.
  change (Z.of_nat 4) with 4 in E4. rewrite E4.
  apply list_eq. intros i.
  rewrite !lookup_splice by (rewrite ?zlen_splice, ?zlen_slice, ?zlen_le_bytes by lia; lia).
  rewrite zlen_slice, zlen_le_bytes by lia.
  case_decide; [|by rewrite decide_False by lia]. rewrite lookup_slice by lia.
  rewrite decide_True by lia. f_equal. lia.
Qed.

End checksum.

(** ** The slotted cell area *)

Definition kv_size (kv : bytes * bytes) : Z := 6 + zlen kv.1 + zlen kv.2.

(** Cell [i] of the page: its pointer leads to its bytes, at or above [free_end]. *)
Definition cell_at (p : bytes) (i : nat) (kv : bytes * bytes) : Prop :=
  let ptr := u16_at p (32 + 2 * Z.of_nat i) in
  free_end p <= ptr /\ ptr + kv_size kv <= 16384 /\ zlen kv.1 <= U16_MAX /\
  slice p ptr (kv_size kv) = cell_bytes kv.1 kv.2.

(** The page holds the cells [kvs], in insertion order. *)
Record slotted (p : bytes) (kvs : list (bytes * bytes)) : Prop := {
  slotted_len : zlen p = PAGE_SIZE;
  slotted_bytes : Forall byte_ok p;
  slotted_type : exists t, page_type p = Ok t;
  slotted_count : cell_count p = zlen kvs;
  slotted_start : free_start p = 32 + 2 * zlen kvs;
  slotted_end : free_start p <= free_end p <= 16384;
  slotted_cells : forall i kv, kvs !! i = Some kv -> cell_at p i kv;
}.

Lemma kv_size_pos kv : 6 <= kv_size kv.
Proof. unfold kv_size. pose proof (zlen_nonneg kv.1). pose proof (zlen_nonneg kv.2). lia. Qed.

Lemma paged_cell_pointer_offset_ok i :
  0 <= i -> 34 + 2 * i <= 16384 -> paged_cell_pointer_offset i = Some (32 + 2 * i).
Proof.
  intros. unfold paged_cell_pointer_offset, checked_mul, checked_add, USIZE_MAX, U64_MAX,
    PAGED_CELL_POINTER_SIZE, PAGED_PAGE_HEADER_SIZE, PAGED_PAGE_SIZE.
  rewrite (proj2 (Z.leb_le (i * 2) _)) by lia. cbn [mbind option_bind].
  rewrite (proj2 (Z.leb_le (32 + i * 2) _)) by lia. cbn [mbind option_bind].
  rewrite (proj2 (Z.leb_le _ _)) by lia. f_equal. lia.
Qed.

Lemma paged_cell_bytes_at p ptr k v :
  zlen p = 16384 -> 0 <= ptr -> ptr + (6 + zlen k + zlen v) <= 16384 -> zlen k <= U16_MAX ->
  slice p ptr (6 + zlen k + zlen v) = cell_bytes k v ->
  paged_cell_bytes p ptr = Some (cell_bytes k v).
Proof.
  intros Hl H0 H1 Hk Hs. pose proof (zlen_nonneg k). pose proof (zlen_nonneg v).
  assert (Hv : zlen v <= U32_MAX) by (unfold U32_MAX; lia).
  destruct (cell_bytes_fields k v Hk Hv) as (E1 & E2 & _ & _).
  rewrite <-Hs in E1, E2. unfold u16_at, u32_at in E1, E2. rewrite slice_slice in E1, E2 by lia.
  unfold paged_cell_bytes, paged_cell_total_len, PAGED_PAGE_SIZE, PAGED_CELL_HEADER_SIZE.
  rewrite (proj2 (Z.ltb_ge _ _)) by lia. rewrite read_u16_ok, read_u32_ok by lia.
  cbn [result_ok mbind option_bind]. unfold u16_at, u32_at.
  rewrite Z.add_0_r in E1. rewrite E1, E2, paged_cell_len_ok by done.
  cbn [mbind option_bind]. rewrite (proj2 (Z.leb_le _ _)) by lia. cbn [mbind option_bind].
  by rewrite Hs.
Qed.

Lemma cell_bytes_key_value k v :
  zlen k <= U16_MAX -> zlen v <= U32_MAX -> paged_cell_key_value (cell_bytes k v) = Some (k, v).
Proof.
  intros Hk Hv. destruct (cell_bytes_fields k v Hk Hv) as (E1 & E2 & E3 & E4).
  pose proof (zlen_nonneg k). pose proof (zlen_nonneg v).
  unfold paged_cell_key_value, PAGED_CELL_HEADER_SIZE.
  rewrite (proj2 (Z.ltb_ge _ _)) by zlia. rewrite E1, E2, paged_cell_len_ok by done.
  cbn [mbind option_bind]. rewrite (proj2 (Z.ltb_ge _ _)) by zlia. by rewrite E3, E4.
Qed.

Lemma slotted_capacity p kvs i :
  slotted p kvs -> 0 <= i < zlen kvs -> 34 + 2 * i <= 16384.
Proof. intros H Hi. pose proof (slotted_start _ _ H). pose proof (slotted_end _ _ H). lia. Qed.

Lemma slotted_read p kvs i kv :
  slotted p kvs -> kvs !! i = Some kv -> read_cell p (Z.of_nat i) = Ok kv.
Proof.
  intros H Hi. pose proof (lookup_lt_Some _ _ _ Hi).
  assert (Hlt : 0 <= Z.of_nat i < zlen kvs) by (unfold zlen; lia).
  pose proof (slotted_capacity _ _ _ H Hlt). pose proof (slotted_len _ _ H) as Hl.
  destruct (slotted_cells _ _ H _ _ Hi) as (? & ? & ? & ?).
  pose proof (slotted_end _ _ H). pose proof (slotted_start _ _ H).
  change PAGE_SIZE with 16384 in Hl.
  unfold read_cell, get_cell, get_cell_pointer. rewrite (slotted_count _ _ H).
  rewrite (proj2 (Z.leb_gt _ _)) by lia. unfold paged_cell_pointer.
  rewrite paged_cell_pointer_offset_ok by lia. cbn [mbind option_bind].
  rewrite read_u16_ok by lia. cbn [result_ok ok_or mbind result_bind].
  pose proof (zlen_nonneg kv.1). pose proof (zlen_nonneg kv.2). unfold kv_size in *.
  rewrite (paged_cell_bytes_at p _ kv.1 kv.2) by (done || lia).
  cbn [ok_or mbind result_bind].
  rewrite cell_bytes_key_value; [by destruct kv|done|unfold U32_MAX; lia].
Qed.

Lemma kv_lookup_slotted_range p kvs :
  slotted p kvs -> zlen kvs <= 8176.
Proof. intros H. pose proof (slotted_start _ _ H). pose proof (slotted_end _ _ H). lia. Qed.

(** The page that a successful insertion leaves *)
Definition inserted_page (p : bytes) (h : PageHeader) (key value : bytes) : bytes :=
  let off := h_free_end h - kv_size (key, value) in
  set_header
    (splice (splice p off (cell_bytes key value)) (32 + 2 * h_cell_count h) (le_bytes 2 off))
    (set_flag {| h_page_type := h_page_type h; h_flags := h_flags h;
       h_cell_count := h_cell_count h + 1; h_free_start := h_free_start h + 2; h_free_end := off;
       h_page_id := h_page_id h; h_parent_id := h_parent_id h; h_right_child := h_right_child h;
       h_lsn := h_lsn h; h_checksum := h_checksum h |} Dirty).

(** Room for one more pointer and the cell *)
Definition cell_fits (p key value : bytes) : Prop :=
  2 + kv_size (key, value) <= free_end p - free_start p.

Lemma set_paged_cell_pointer_ok p i ptr :
  zlen p = 16384 -> 0 <= i -> 34 + 2 * i <= 16384 -> 32 <= ptr < 16384 ->
  set_paged_cell_pointer p i ptr = Some (splice p (32 + 2 * i) (le_bytes 2 ptr)).
Proof.
  intros. unfold set_paged_cell_pointer, paged_cell_pointer_is_valid.
  rewrite paged_cell_pointer_offset_ok by lia. cbn [mbind option_bind].
  unfold PAGED_PAGE_HEADER_SIZE, PAGED_PAGE_SIZE.
  rewrite (proj2 (Z.leb_le _ _)), (proj2 (Z.ltb_lt _ _)) by lia. cbn [andb].
  by rewrite write_u16_ok by lia.
Qed.

#[export] Instance cell_fits_dec p key value : Decision (cell_fits p key value).
Proof. unfold cell_fits. apply _. Defined.

Lemma insert_cell_eq p kvs key value h :
  slotted p kvs -> zlen key <= U16_MAX -> cell_fits p key value -> header p = Ok h ->
  insert_cell p key value = (inserted_page p h key value, Ok (zlen kvs)).
Proof.
  intros H Hk Hf Hh. unfold cell_fits in Hf.
  pose proof (slotted_len _ _ H) as Hl. pose proof (slotted_start _ _ H).
  pose proof (slotted_end _ _ H). pose proof (slotted_count _ _ H) as Hc.
  pose proof Hh as Hh'. rewrite header_eq in Hh' by done. inv_bind Hh'. injection Hh' as Hh'.
  assert (Ec : h_cell_count h = zlen kvs) by (rewrite <-Hc, <-Hh'; done).
  assert (Es : h_free_start h = free_start p) by (by rewrite <-Hh').
  assert (Ee : h_free_end h = free_end p) by (by rewrite <-Hh').
  clear Hh'. change PAGE_SIZE with 16384 in Hl.
  pose proof (zlen_nonneg key). pose proof (zlen_nonneg value). pose proof (zlen_nonneg kvs).
  unfold kv_size in *; cbn [fst snd] in *.
  unfold insert_cell. rewrite (proj2 (Z.ltb_ge _ _)) by done.
  rewrite paged_cell_len_ok by (done || (unfold U32_MAX; lia)).
  change (CONTENT_SIZE - 2) with 16350. rewrite (proj2 (Z.ltb_ge _ _)) by lia.
  rewrite Hh. unfold header_free_space. rewrite Es, Ee.
  rewrite (proj2 (Z.leb_gt _ _)) by lia. rewrite (proj2 (Z.ltb_ge _ _)) by lia.
  unfold inserted_page, kv_size; cbn [fst snd]. rewrite Ec, Es, Ee.
  set (off := free_end p - (6 + zlen key + zlen value)).
  assert (Hoff : off + (6 + zlen key + zlen value) = free_end p) by lia. clearbody off.
  rewrite !as_u16_id by (unfold u16_ok; lia).
  rewrite write_paged_cell_ok by (rewrite ?zlen_cell_bytes; unfold PAGED_PAGE_SIZE; done || lia).
  rewrite set_paged_cell_pointer_ok by (rewrite ?zlen_splice; lia). done.
Qed.

Lemma header_ok_of_page p h :
  zlen p = PAGE_SIZE -> Forall byte_ok p -> header p = Ok h -> page_header_ok h.
Proof.
  intros Hl Hb Hh. rewrite header_eq in Hh by done. inv_bind Hh. injection Hh as <-.
  change PAGE_SIZE with 16384 in Hl. unfold page_header_ok; cbn.
  split; [|repeat split_and; first [apply u16_at_ok | apply u32_at_ok | apply u64_at_ok]; done || lia].
  unfold byte_ok, u8_at. pose proof (le_val_bound (slice p 1 1) (Forall_slice _ _ _ _ Hb)) as Hv.
  rewrite zlen_slice in Hv by lia. lia.
Qed.

Lemma encode_header_bytes_ok h : page_header_ok h -> Forall byte_ok (PageHeader_to_bytes h).
Proof.
  intros Hh. unfold PageHeader_to_bytes. rewrite encode_paged_page_header_eq. cbn [pph_page_type pph_flags].
  rewrite !Forall_app. split_and!; auto using le_bytes_ok.
  constructor; [apply PageType_byte|]. constructor; [apply Hh|constructor].
Qed.

Lemma cell_bytes_ok k v : Forall byte_ok k -> Forall byte_ok v -> Forall byte_ok (cell_bytes k v).
Proof. intros. unfold cell_bytes. rewrite !Forall_app. auto using le_bytes_ok. Qed.

(** The pointers and cells that were there before are still there, and the
    new ones are where they were put. *)
Lemma old_cell_kept p kvs off key value i kv :
  slotted p kvs -> kvs !! i = Some kv -> off + kv_size (key, value) = free_end p ->
  free_start p + 2 <= off ->
  let q := splice (splice p off (cell_bytes key value)) (32 + 2 * zlen kvs) (le_bytes 2 off) in
  let ptr := u16_at q (32 + 2 * Z.of_nat i) in
  off <= ptr /\ ptr + kv_size kv <= 16384 /\ zlen kv.1 <= U16_MAX /\
  slice q ptr (kv_size kv) = cell_bytes kv.1 kv.2.
Proof.
  intros H Hi Hoff Hst q. pose proof (slotted_start _ _ H). pose proof (slotted_end _ _ H).
  pose proof (kv_size_pos kv). pose proof (kv_size_pos (key, value)) as Hks.
  assert (Hlt : Z.of_nat i < zlen kvs) by (apply lookup_lt_Some in Hi; unfold zlen; lia).
  destruct (slotted_cells _ _ H _ _ Hi) as (Hc1 & Hc2 & Hc3 & Hc4).
  unfold kv_size in Hks, Hoff; cbn [fst snd] in *.
  assert (E : u16_at q (32 + 2 * Z.of_nat i) = u16_at p (32 + 2 * Z.of_nat i)).
  { unfold q. rewrite !u16_at_splice_ne by zlia. done. }
  rewrite E. split_and!; [lia|done|done|]. rewrite <-Hc4. unfold q.
  rewrite !slice_splice_ne by zlia. done.
Qed.

Lemma new_cell_there p n off key value :
  zlen p = PAGE_SIZE -> 0 <= n -> 34 + 2 * n <= off -> off + kv_size (key, value) <= 16384 ->
  let q := splice (splice p off (cell_bytes key value)) (32 + 2 * n) (le_bytes 2 off) in
  u16_at q (32 + 2 * n) = off /\ slice q off (kv_size (key, value)) = cell_bytes key value.
Proof.
  intros Hl Hn H1 H2 q. pose proof (kv_size_pos (key, value)). change PAGE_SIZE with 16384 in Hl.
  unfold kv_size in *; cbn [fst snd] in *. split.
  - unfold q. rewrite u16_at_put; [done|lia|zlia|unfold u16_ok; lia].
  - unfold q. rewrite slice_splice_ne by zlia. apply slice_splice_eq; zlia.
Qed.

Lemma inserted_page_slotted p kvs key value h :
  slotted p kvs -> zlen key <= U16_MAX -> cell_fits p key value -> header p = Ok h ->
  Forall byte_ok key -> Forall byte_ok value ->
  slotted (inserted_page p h key value) (kvs ++ [(key, value)]).
Proof.
  intros H Hk Hf Hh Hbk Hbv. unfold cell_fits in Hf.
  pose proof (slotted_len _ _ H) as Hl. pose proof (slotted_start _ _ H).
  pose proof (slotted_end _ _ H). pose proof (slotted_count _ _ H) as Hc.
  pose proof (header_ok_of_page _ _ Hl (slotted_bytes _ _ H) Hh) as Hok.
  pose proof Hh as Hh'. rewrite header_eq in Hh' by done. inv_bind Hh'. injection Hh' as Hh'.
  assert (Ec : h_cell_count h = zlen kvs) by (rewrite <-Hc, <-Hh'; done).
  assert (Es : h_free_start h = free_start p) by (by rewrite <-Hh').
  assert (Ee : h_free_end h = free_end p) by (by rewrite <-Hh').
  clear Hh'. pose proof (zlen_nonneg kvs). pose proof (kv_size_pos (key, value)).
  unfold inserted_page. rewrite Ec, Es, Ee.
  set (off := free_end p - kv_size (key, value)) in *.
  set (h' := set_flag _ _). set (q := splice (splice _ _ _) _ _).
  assert (Hok' : page_header_ok h').
  { destruct Hok as (Hfl & ?). unfold page_header_ok, h', set_flag, with_flags; cbn -[Z.lor].
    split; [by apply lor_byte_ok|]. unfold u16_ok, u32_ok, u64_ok in *. lia. }
  assert (Hlq : zlen q = PAGE_SIZE) by (unfold q; by rewrite !zlen_splice).
  destruct (set_header_fields q h' Hlq Hok') as (F1 & F2 & F3 & F4 & F5).
  split.
  - unfold set_header. by rewrite zlen_splice.
  - pose proof (slotted_bytes _ _ H). unfold set_header, q.
    auto 10 using Forall_splice, encode_header_bytes_ok, le_bytes_ok, cell_bytes_ok.
  - eauto.
  - rewrite F2. change (h_cell_count h') with (zlen kvs + 1). zlia.
  - rewrite F3. change (h_free_start h') with (free_start p + 2). zlia.
  - rewrite F3, F4. change (h_free_start h') with (free_start p + 2).
    change (h_free_end h') with off. lia.
  - intros i kv Hi. unfold cell_at. rewrite F4.
    assert (Eu : u16_at (set_header q h') (32 + 2 * Z.of_nat i) = u16_at q (32 + 2 * Z.of_nat i))
      by (unfold u16_at; rewrite slice_set_header by lia; done).
    rewrite Eu. change (h_free_end h') with off.
    apply lookup_app_Some in Hi as [Hi | [Hge Hi]].
    + destruct (old_cell_kept p kvs off key value i kv H Hi ltac:(lia) ltac:(lia))
        as (C1 & C2 & C3 & C4). fold q in C1, C2, C4.
      pose proof (kv_size_pos kv). rewrite slice_set_header by lia.
      exact (conj C1 (conj C2 (conj C3 C4))).
    + apply list_lookup_singleton_Some in Hi as [Hi <-].
      assert (Z.of_nat i = zlen kvs) as -> by (unfold zlen in *; lia).
      destruct (new_cell_there p (zlen kvs) off key value Hl ltac:(lia) ltac:(lia) ltac:(lia))
        as (C1 & C2). fold q in C1, C2. rewrite C1.
      rewrite slice_set_header by lia. split_and!; [lia|lia|done|done].
Qed.

Lemma paged_cell_len_inv k v n : paged_cell_len k v = Some n -> n = 6 + k + v.
Proof.
  unfold paged_cell_len, checked_add, PAGED_CELL_HEADER_SIZE. case_match; [|done].
  cbn [mbind option_bind]. case_match; [|done]. by intros [= <-].
Qed.

Lemma slotted_header p kvs : slotted p kvs -> exists h, header p = Ok h.
Proof.
  intros H. destruct (slotted_type _ _ H) as [t Ht].
  rewrite header_eq by apply H. rewrite Ht. cbn [mbind result_bind]. eauto.
Qed.

Lemma insert_cell_rejects p kvs key value :
  slotted p kvs -> U16_MAX < zlen key \/ ~ cell_fits p key value ->
  exists e, insert_cell p key value = (p, Err e) /\ (e = OverflowRequired \/ e = PageFull).
Proof.
  intros H Hn. unfold insert_cell.
  destruct (Z.ltb_spec U16_MAX (zlen key)); [eauto|]. destruct Hn as [?|Hn]; [lia|].
  destruct (paged_cell_len _ _) as [n|] eqn:En; [|eauto]. apply paged_cell_len_inv in En as ->.
  destruct (_ <? _); [eauto|].
  destruct (slotted_header _ _ H) as [h Hh]. pose proof Hh as Hh'.
  rewrite header_eq in Hh' by apply H. inv_bind Hh'. injection Hh' as Hh'. rewrite Hh.
  rewrite (proj2 (Z.ltb_lt _ _)); [eauto|]. unfold header_free_space. rewrite <-Hh'. cbn -[Z.add].
  unfold cell_fits, kv_size in Hn. cbn [fst snd] in Hn.
  pose proof (zlen_nonneg key). pose proof (zlen_nonneg value).
  destruct (Z.leb_spec (free_end p) (free_start p)); lia.
Qed.

(** On a page that holds the cells [kvs], inserting a pair that fits appends it
    and keeps every other cell; a pair that does not fit is refused and the page
    is not touched. *)
Theorem insert_cell_spec p kvs key value :
  slotted p kvs -> Forall byte_ok key -> Forall byte_ok value ->
  (zlen key <= U16_MAX /\ cell_fits p key value /\
   exists p', insert_cell p key value = (p', Ok (zlen kvs)) /\
              slotted p' (kvs ++ [(key, value)])) \/
  ((U16_MAX < zlen key \/ ~ cell_fits p key value) /\
   exists e, insert_cell p key value = (p, Err e) /\ (e = OverflowRequired \/ e = PageFull)).
Proof.
  intros H Hk Hv.
  destruct (decide (zlen key <= U16_MAX)) as [Hl|Hl];
    [|right; split; [lia|apply (insert_cell_rejects _ kvs); auto; lia]].
  destruct (decide (cell_fits p key value)) as [Hf|Hf];
    [|right; split; [auto|apply (insert_cell_rejects _ kvs); auto]].
  left. split; [done|]. split; [done|]. destruct (slotted_header _ _ H) as [h Hh].
  exists (inserted_page p h key value).
  split; [by apply insert_cell_eq|by apply inserted_page_slotted].
Qed.

(** Every cell of the page is read back as the pair that was inserted. *)
Theorem read_cell_spec p kvs i :
  slotted p kvs -> 0 <= i ->
  read_cell p i = match kvs !! Z.to_nat i with
                  | Some kv => Ok kv
                  | None => Err (CellOutOfBounds i)
                  end.
Proof.
  intros H Hi. destruct (kvs !! Z.to_nat i) as [kv|] eqn:E.
  - rewrite <-(slotted_read p kvs (Z.to_nat i) kv H E). by rewrite Z2Nat.id.
  - apply lookup_ge_None in E. unfold read_cell, get_cell, get_cell_pointer.
    rewrite (slotted_count _ _ H). rewrite (proj2 (Z.leb_le _ _)); [done|unfold zlen; lia].
Qed.

(** ** Search *)

Lemma search_key_body_probe p kvs key i :
  slotted p kvs -> 0 <= i < zlen kvs.*1 -> search_key_body p key i = Ok (key_probe id kvs.*1 key i).
Proof.
  intros Hp Hi. unfold search_key_body, key_probe. rewrite list_lookup_fmap.
  rewrite zlen_fmap in Hi.
  destruct (lookup_lt_is_Some_2 kvs (Z.to_nat i)) as [[k v] E]; [unfold zlen in *; lia|].
  replace i with (Z.of_nat (Z.to_nat i)) at 1 by lia.
  rewrite (slotted_read p kvs _ _ Hp E), E. cbn [fmap option_fmap option_map fst].
  by destruct (bytes_cmp k key).
Qed.

(** On a page whose cells are in key order the search finds the key's index
    when the key is there, and otherwise answers the position that keeps the
    order. *)
Theorem search_key_spec p kvs key :
  slotted p kvs -> StronglySorted blt kvs.*1 ->
  (exists i v, search_key p key = Ok (Z.of_nat i) /\ kvs !! i = Some (key, v)) \/
  (exists c, search_key p key = Err (Z.of_nat c) /\ insertion_point kvs.*1 key c).
Proof.
  intros Hp Hs. unfold search_key. rewrite (slotted_count _ _ Hp).
  destruct (Z.eqb_spec (zlen kvs) 0) as [E|Hne].
  - right. exists 0%nat. split; [done|]. destruct kvs; [|unfold zlen in E; cbn in E; lia].
    split; [done|]. split; constructor.
  - rewrite <-(zlen_fmap fst).
    destruct (bsearch_keys id kvs.*1 key Hs (search_key_body p key) (Z.to_nat (zlen kvs.*1)))
      as [(i & -> & Hi)|(c & -> & Hc)].
    + pose proof (zlen_nonneg kvs.*1). lia.
    + intros i Hi. by apply search_key_body_probe.
    + left. rewrite list_lookup_fmap in Hi.
      destruct (kvs !! i) as [[k v]|] eqn:E; [|done]. cbn in Hi. injection Hi as ->. eauto.
    + right. eauto.
Qed.

(** ** Fresh pages *)

Lemma PageHeader_new_ok t id : u32_ok id -> page_header_ok (PageHeader_new t id).
Proof.
  intros. unfold page_header_ok, PageHeader_new, byte_ok, u16_ok, u32_ok, u64_ok in *.
  cbn [h_flags h_cell_count h_free_start h_free_end h_page_id h_parent_id h_right_child h_lsn
       h_checksum]. change HEADER_SIZE with 32. change PAGE_SIZE with 16384. lia.
Qed.

Lemma zlen_zero_page : zlen (zeros PAGE_SIZE) = PAGE_SIZE.
Proof. apply zlen_zeros. unfold PAGE_SIZE, PAGED_PAGE_SIZE. lia. Qed.

Lemma zlen_Page_new t id : zlen (Page_new t id) = PAGE_SIZE.
Proof. unfold Page_new, set_header. rewrite zlen_splice. apply zlen_zero_page. Qed.

Lemma Page_new_bytes t id : u32_ok id -> Forall byte_ok (Page_new t id).
Proof.
  intros. unfold Page_new, set_header.
  auto using Forall_splice, Forall_zeros, encode_header_bytes_ok, PageHeader_new_ok.
Qed.

Lemma Page_new_fields t id :
  u32_ok id ->
  page_type (Page_new t id) = Ok t /\ cell_count (Page_new t id) = 0 /\
  free_start (Page_new t id) = 32 /\ free_end (Page_new t id) = 16384 /\
  page_id (Page_new t id) = id.
Proof.
  intros Hid. exact (set_header_fields (zeros PAGE_SIZE) (PageHeader_new t id) zlen_zero_page
    (PageHeader_new_ok t id Hid)).
Qed.

(** A fresh page is an empty slotted page of the type and number asked for. *)
Theorem Page_new_slotted t id :
  u32_ok id ->
  slotted (Page_new t id) [] /\ page_type (Page_new t id) = Ok t /\ page_id (Page_new t id) = id.
Proof.
  intros Hid. destruct (Page_new_fields t id Hid) as (F1 & F2 & F3 & F4 & F5).
  split; [|exact (conj F1 F5)]. split.
  - apply zlen_Page_new.
  - by apply Page_new_bytes.
  - eauto.
  - exact F2.
  - exact F3.
  - rewrite F3, F4. lia.
  - intros i kv Hi. by rewrite lookup_nil in Hi.
Qed.

Section header_page.
Context (crc32 : bytes -> Z) (crc32_u32 : forall b, u32_ok (crc32 b)).

Lemma init_header_page_decodes p count :
  zlen p = PAGE_SIZE -> u32_ok count ->
  exists q, init_database_header_page p count = Ok q /\ zlen q = PAGE_SIZE /\
    database_header_magic_matches q = true /\
    u32_at q DB_PAGE_SIZE_OFFSET = PAGE_SIZE /\ u32_at q DB_PAGE_COUNT_OFFSET = count.
Proof.
  intros Hl Hc. change PAGE_SIZE with 16384 in *.
  assert (Hm : DB_HEADER_MIN_LEN <= zlen p) by (rewrite Hl; vm_compute; congruence).
  unfold init_database_header_page. set (h := Build_DatabaseHeader _ _ _ _ _ _ _ _ _).
  assert (Hok : header_ok h).
  { unfold u32_ok in Hc. unfold h, header_ok, physical_ok. cbn [page_count].
    repeat split; first [lia | vm_compute; congruence]. }
  exists (splice p DB_MAGIC_OFFSET (database_header_bytes h)).
  rewrite encode_database_header_eq, zlen_splice, magic_matches_splice by done.
  pose proof (database_header_of_encoded p h Hm Hok) as E.
  split_and!; [done..| |]; [exact (f_equal page_size E)|exact (f_equal page_count E)].
Qed.

(** A new header page passes its own verification, carries the page count and
    a checksum that verifies. *)
Theorem new_header_page_spec count :
  u32_ok count ->
  exists p, new_header_page crc32 count = Ok p /\ verify_header_page p = Ok tt /\
    read_page_count p = Ok count /\ verify_checksum crc32 p = Ok tt.
Proof.
  intros Hc. unfold new_header_page.
  destruct (init_header_page_decodes (Page_new Header 0) count (zlen_Page_new _ _) Hc)
    as (q & -> & Hl & Hm & Hps & Hpc).
  cbn [expect mbind result_bind]. exists (update_checksum crc32 q). split; [done|].
  assert (Hl' : zlen (update_checksum crc32 q) = 16384) by (by rewrite zlen_update_checksum).
  assert (E : forall o, 32 <= o -> u32_at (update_checksum crc32 q) o = u32_at q o).
  { intros o Ho. unfold u32_at. by rewrite slice_update_checksum by lia. }
  split_and!.
  - unfold verify_header_page, database_header_magic_matches, get_range in *.
    rewrite slice_update_checksum, Hl'
      by (change DB_MAGIC_OFFSET with 32; change (zlen PAGE_FILE_MAGIC) with 4; lia).
    rewrite Hl in Hm. change PAGE_SIZE with 16384 in *. rewrite Hm. cbn [negb].
    unfold database_header_page_size. rewrite read_u32_ok by (rewrite Hl'; vm_compute; congruence).
    cbn [map_err mbind result_bind]. rewrite E by (vm_compute; congruence).
    by rewrite Hps.
  - unfold read_page_count, database_header_page_count.
    rewrite read_u32_ok by (rewrite Hl'; vm_compute; congruence). cbn [expect].
    rewrite E by (vm_compute; congruence). by rewrite Hpc.
  - by apply update_checksum_verifies.
Qed.

End header_page.

(** Proofs use the lemmas above, never the 16384 bytes. *)
#[global] Opaque Page_new.
