(* ===== verification/PagerIo.v ===== *)
(** * Page I/O and the double-write zone ([crates/reddb-engine/src/storage/pager_io.rs])

    Reads and writes of pages in the database file, the superblock slots, and the
    protocol that makes a batch of page writes atomic per frame: the batch is staged in a
    zone of the file, synced, written to its home pages, synced, and the zone is
    cleared.  The theorems are about crashes and I/O errors at every operation of that
    protocol and of the recovery from it. *)

From S2P Require Import Prelude Vfs FileFormat Page.
From Stdlib Require Import ZArith Lia.
From stdpp Require Import pretty.
#[local] Open Scope Z_scope.

Definition DWB_ZONE_START_PAGE : Z := 3.
Definition DWB_ZONE_PAGES : Z := 64.
Definition DWB_ZONE_BYTES : Z := DWB_ZONE_PAGES * PAGE_SIZE.
Definition FIRST_ALLOCATABLE_PAGE : Z := DWB_ZONE_START_PAGE + DWB_ZONE_PAGES.
Definition DWB_MAX_PAGES_PER_FRAME : Z := (DWB_ZONE_BYTES - PAGED_DWB_HEADER_SIZE) / PAGED_DWB_ENTRY_SIZE.

Inductive PagerIoError : Type :=
| IoFailed (msg : string)
| IoPage (e : PageError)
| IoInvalidDatabase (msg : string).

(** [Display] of a header error *)
Definition header_error_text (e : DatabaseHeaderError) : string :=
  match e with
  | ShortPage need got =>
      "database header page too short: need " +:+ pretty need +:+ " bytes, got " +:+ pretty got
  | InvalidMagic => "invalid database header magic"
  | UnsupportedPageSize size => "Unsupported page size: " +:+ pretty size
  | UnsupportedDatabaseVersion file_version supported =>
      "Unsupported database version: file version " +:+ pretty file_version +:+
      " is newer than supported " +:+ pretty supported
  end.

(** [From<io::Error>] *)
Definition io {A} (m : eff File string A) : eff File PagerIoError A := eff_map_err IoFailed m.

Definition dwb_zone_offset : Z := DWB_ZONE_START_PAGE * PAGE_SIZE.

(** [0..DWB_ZONE_PAGES] and [DWB_ZONE_START_PAGE..FIRST_ALLOCATABLE_PAGE] *)
Definition zone_indices : list Z := seqZ 0 DWB_ZONE_PAGES.
Definition zone_ids : list Z := seqZ DWB_ZONE_START_PAGE DWB_ZONE_PAGES.

Section with_crc.
Context (crc32 : bytes -> Z).

Definition read_page (page_id : Z) (verify : bool) : eff File PagerIoError bytes :=
  _ ← io (seek (page_id * PAGE_SIZE));
  buffer ← io (read_exact PAGE_SIZE);
  if verify && negb (page_id =? 0)
  then _ ← lift (map_err IoPage (verify_checksum crc32 buffer)); mret buffer
  else mret buffer.

Definition write_page (page_id : Z) (page : bytes) : eff File PagerIoError unit :=
  _ ← io (seek (page_id * PAGE_SIZE));
  io (write_all page).

Definition read_superblock_zone : eff File PagerIoError bytes :=
  len ← io file_len;
  let readable := Z.min len PAGED_SUPERBLOCK_ZONE_SIZE in
  if 0 <? readable then
    _ ← io (seek 0);
    prefix ← io (read_exact readable);
    mret (prefix ++ zeros (PAGED_SUPERBLOCK_ZONE_SIZE - readable))
  else mret (zeros PAGED_SUPERBLOCK_ZONE_SIZE).

Definition write_superblock_slot (slot : bytes) (copy_index generation : Z) : eff File PagerIoError unit :=
  slot ← lift (map_err (fun e => IoInvalidDatabase (header_error_text e))
            (seal_paged_superblock_slot crc32 slot copy_index generation));
  _ ← io (seek (paged_superblock_slot_offset copy_index));
  _ ← io (write_all slot);
  io sync_all.

(** The page [clear_dwb_zone] writes at [page_id] *)
Definition clear_page (page_id : Z) : bytes := update_checksum crc32 (Page_new Page.Header page_id).

Definition clear_dwb_zone : eff File PagerIoError unit :=
  _ ← for_each zone_ids (fun page_id => write_page page_id (clear_page page_id));
  io sync_all.

Definition dwb_zone_is_clear (buffer : bytes) : bool :=
  (zlen buffer =? DWB_ZONE_BYTES) &&
  forallb (fun index =>
    match from_slice (slice buffer (index * PAGE_SIZE) PAGE_SIZE) with
    | Ok page =>
        bool_decide (verify_checksum crc32 page = Ok tt) &&
        (page_id page =? DWB_ZONE_START_PAGE + index) &&
        bool_decide (page_type page = Ok Page.Header)
    | _ => false
    end) zone_indices.

(** One frame of the batch *)
Definition write_frame (chunk : list (Z * bytes)) : eff File PagerIoError unit :=
  let buffer := encode_paged_dwb_frame crc32 chunk in
  _ ← lift (assert_or_panic (zlen buffer <=? DWB_ZONE_BYTES));
  _ ← io (seek dwb_zone_offset);
  _ ← io (write_all buffer);
  _ ← io sync_all;
  _ ← for_each chunk (fun pg => write_page pg.1 pg.2);
  io sync_all.

Definition write_pages (pages : list (Z * bytes)) (double_write : bool) : eff File PagerIoError unit :=
  if negb double_write then for_each pages (fun pg => write_page pg.1 pg.2)
  else
    _ ← for_each (chunks_of (Z.to_nat (Z.max DWB_MAX_PAGES_PER_FRAME 1)) pages) write_frame;
    if bool_decide (pages = []) then mret tt else clear_dwb_zone.

Definition recover_from_dwb : eff File PagerIoError unit :=
  len ← io file_len;
  if len <? dwb_zone_offset + DWB_ZONE_BYTES then mret tt
  else
    _ ← io (seek dwb_zone_offset);
    buffer ← io (read_exact DWB_ZONE_BYTES);
    if negb (bool_decide (slice buffer 0 4 = DWB_MAGIC)) then
      if dwb_zone_is_clear buffer then mret tt else clear_dwb_zone
    else
      match decode_paged_dwb_frame crc32 buffer with
      | Ok entries =>
          _ ← for_each entries (fun e => write_page (dwb_page_id e) (dwb_page e));
          _ ← io sync_all;
          clear_dwb_zone
      | _ => clear_dwb_zone
      end.

Definition read_dwb_pages : eff File PagerIoError (list (Z * bytes)) :=
  len ← io file_len;
  if len <? dwb_zone_offset + DWB_ZONE_BYTES then mret []
  else
    _ ← io (seek dwb_zone_offset);
    buffer ← io (read_exact DWB_ZONE_BYTES);
    mret (map (fun e => (dwb_page_id e, dwb_page e))
      (default [] (result_ok (decode_paged_dwb_frame crc32 buffer)))).

End with_crc.

(** * Crash safety *)

(** ** Programs on a file with faults and crashes

    The crash images of a state depend on the stable bytes and the unsynced writes only. *)

Definition images (s : bytes) (ws : list (Z * bytes)) (c : bytes) : Prop :=
  zlen s <= zlen c /\
  forall i, 0 <= i ->
    file_byte c i = file_byte s i \/ exists w, w ∈ ws /\ zget w.2 (i - w.1) = Some (file_byte c i).

Definition at_state (s : bytes) (ws : list (Z * bytes)) (f : File) : Prop := stable f = s /\ unsynced f = ws.

Definition apply_writes (ws : list (Z * bytes)) (s : bytes) : bytes := foldl (fun b w => write_at b w.1 w.2) s ws.

(** Wherever [m] stops, a crash leaves an image in [C]; when it succeeds, [Q] holds. *)
Definition safe {E A} (P : File -> Prop) (m : eff File E A) (Q : File -> Prop) (C : bytes -> Prop) : Prop :=
  forall f, P f ->
    (forall c, crash_image (m f).1 c -> C c) /\ (forall a, (m f).2 = Ok a -> Q (m f).1).

Lemma images_more s ws w c : images s ws c -> images s (ws ++ [w]) c.
Proof.
  intros [H1 H2]. split; [done|]. intros i Hi. destruct (H2 i Hi) as [?|(w' & Hw & E)]; [by left|].
  right. exists w'. split; [|done]. apply elem_of_app. by left.
Qed.

Lemma zget_take_Some (data : bytes) k i x : zget (take k data) i = Some x -> zget data i = Some x.
Proof.
  unfold zget. destruct (i <? 0); [done|]. intros E. apply lookup_take_Some in E as [E _]. exact E.
Qed.

Lemma images_prefix s ws off data k c : images s (ws ++ [(off, take k data)]) c -> images s (ws ++ [(off, data)]) c.
Proof.
  intros [H1 H2]. split; [done|]. intros i Hi. destruct (H2 i Hi) as [?|(w' & Hw & E)]; [by left|]. right.
  apply elem_of_app in Hw as [Hw|Hw%list_elem_of_singleton].
  - exists w'. split; [apply elem_of_app; by left|done].
  - subst w'. exists (off, data). split; [apply elem_of_app; right; by apply list_elem_of_singleton|].
    by eapply zget_take_Some.
Qed.

Lemma images_settled s ws c :
  Forall (fun w => 0 <= w.1) ws -> images (apply_writes ws s) [] c -> images s ws c.
Proof.
  intros Hw [H1 H2].
  destruct (live_crash_image {| stable := s; unsynced := ws; cursor := 0; faults := None |} Hw) as [L1 L2].
  change (live _) with (apply_writes ws s) in L1, L2. cbn [stable unsynced] in L1, L2. split; [lia|].
  intros i Hi. destruct (H2 i Hi) as [E|(w & Hw' & _)]; [|by apply elem_of_nil in Hw'].
  rewrite E. by apply L2.
Qed.

Lemma safe_bind {E A B} P (m : eff File E A) Q (k : A -> eff File E B) R C :
  safe P m Q C -> (forall a, safe Q (k a) R C) -> safe P (m ≫= k) R C.
Proof.
  intros Hm Hk f Hf. destruct (Hm f Hf) as [H1 H2]. unfold mbind, eff_bind.
  destruct (m f) as [f' [a| |]]; cbn [fst snd] in *; [|by split..]. apply Hk. by apply (H2 a).
Qed.

Lemma safe_lift {E A} P (r : result E A) C :
  (forall f, P f -> forall c, crash_image f c -> C c) -> safe P (lift r) P C.
Proof. intros HC f Hf. split; [by apply HC|done]. Qed.

Lemma safe_weaken {E A} P (m : eff File E A) Q C (C' : bytes -> Prop) :
  safe P m Q C -> (forall c, C c -> C' c) -> safe P m Q C'.
Proof. intros Hm HC f Hf. destruct (Hm f Hf) as [H1 H2]. split; [auto|done]. Qed.

Lemma safe_io {A} P (m : eff File string A) Q C : safe P m Q C -> safe P (io m) Q C.
Proof.
  intros Hm f Hf. destruct (Hm f Hf) as [H1 H2]. unfold io, eff_map_err.
  destruct (m f) as [f' [a| |]]; cbn [fst snd map_err] in *; [|by split..]. split; [done|]. intros _ _. by apply (H2 a).
Qed.

(** A write at an offset adds the write. *)
Lemma safe_write_at s ws off data (C : bytes -> Prop) :
  (forall c, images s (ws ++ [(off, data)]) c -> C c) ->
  safe (at_state s ws) (_ ← io (seek off); io (write_all data)) (at_state s (ws ++ [(off, data)])) C.
Proof.
  intros HC f [<- <-]. unfold seek, write_all, attempt.
  assert (H0 : forall c, crash_image f c -> C c) by (intros c Hc; apply HC; by apply images_more).
  assert (H1 : forall c, images (stable f) (unsynced f ++ [(off, data)]) c -> C c) by done.
  assert (H2 : forall k c, images (stable f) (unsynced f ++ [(off, take k data)]) c -> C c).
  { intros k c Hc. apply HC. by eapply images_prefix. }
  unfold mbind, eff_bind, io, eff_map_err. destruct (faults f) as [[[|[|n]] k]|] eqn:E; cbn; rewrite ?E; cbn;
    (split; [intros c Hc; first [exact (H0 c Hc)|exact (H1 c Hc)|exact (H2 _ c Hc)]|by intros]).
Qed.

(** A sync makes the writes stable. *)
Lemma safe_sync s ws (C : bytes -> Prop) :
  Forall (fun w => 0 <= w.1) ws -> (forall c, images s ws c -> C c) ->
  safe (at_state s ws) (io sync_all) (at_state (apply_writes ws s) []) C.
Proof.
  intros Hw HC. apply safe_io. intros f [<- <-]. unfold sync_all, attempt.
  assert (H1 : forall c, images (apply_writes (unsynced f) (stable f)) [] c -> C c).
  { intros c Hc. apply HC. by apply images_settled. }
  destruct (faults f) as [[[|n] k]|] eqn:E; cbn;
    (split; [intros c Hc; first [exact (HC c Hc)|exact (H1 c Hc)]|by intros]).
Qed.

(** The writes of a list of pages *)
Definition home_write (pg : Z * bytes) : Z * bytes := (pg.1 * PAGE_SIZE, pg.2).

Lemma images_mono s ws ws' c : (forall w, w ∈ ws -> w ∈ ws') -> images s ws c -> images s ws' c.
Proof.
  intros Hs [H1 H2]. split; [done|]. intros i Hi. destruct (H2 i Hi) as [?|(w & Hw & E)]; [by left|right; eauto].
Qed.

Lemma safe_for_each {A} (f : A -> eff File PagerIoError unit) (w : A -> Z * bytes) l s ws (C : bytes -> Prop) :
  (forall x, f x = (_ ← io (seek (w x).1); io (write_all (w x).2))) ->
  (forall c, images s (ws ++ map w l) c -> C c) ->
  safe (at_state s ws) (for_each l f) (at_state s (ws ++ map w l)) C.
Proof.
  intros Hf. revert ws. induction l as [|x l IH]; intros ws HC; cbn [for_each map].
  - rewrite app_nil_r in *. intros g [<- <-]. split; [done|by intros _ _].
  - eapply safe_bind with (Q := at_state s (ws ++ [w x])).
    + rewrite Hf. destruct (w x) as [off data] eqn:Ew. apply safe_write_at. intros c Hc. apply HC.
      eapply images_mono; [|exact Hc]. intros v. cbn [map]. rewrite Ew, !elem_of_app, list_elem_of_singleton, elem_of_cons. tauto.
    + intros _. replace (ws ++ w x :: map w l) with ((ws ++ [w x]) ++ map w l) by (by rewrite <-app_assoc).
      apply IH. intros c Hc. apply HC. by rewrite <-app_assoc in Hc.
Qed.

(** ** The zone and what recovery makes of it *)

Definition zone_end : Z := dwb_zone_offset + DWB_ZONE_BYTES.
Definition in_zone (i : Z) : Prop := dwb_zone_offset <= i < zone_end.
Definition zone (c : bytes) : bytes := slice c dwb_zone_offset DWB_ZONE_BYTES.

Definition put_pages (ps : list (Z * bytes)) (c : bytes) : bytes := apply_writes (map home_write ps) c.

Lemma zone_numbers : dwb_zone_offset = 49152 /\ DWB_ZONE_BYTES = 1048576 /\ zone_end = 1097728 /\ PAGE_SIZE = 16384.
Proof. done. Qed.

(** Files that agree on every page outside the zone *)
Definition same_homes (a b : bytes) : Prop := forall i, 0 <= i -> ~ in_zone i -> file_byte a i = file_byte b i.

#[export] Instance same_homes_equiv : Equivalence same_homes.
Proof.
  split; [by intros a i|by intros a b H i Hi Hz; rewrite H|by intros a b c H1 H2 i Hi Hz; rewrite H1, H2].
Qed.

Definition page_outside (pg : Z * bytes) : Prop :=
  dwb_page_ok pg /\ ~ (DWB_ZONE_START_PAGE <= pg.1 < FIRST_ALLOCATABLE_PAGE).

(** The last byte the writes put at [i] *)
Definition last_byte (ws : list (Z * bytes)) (i : Z) : option Z :=
  foldl (fun acc w => match zget w.2 (i - w.1) with Some x => Some x | None => acc end) None ws.

Lemma last_byte_snoc ws w i :
  last_byte (ws ++ [w]) i = match zget w.2 (i - w.1) with Some x => Some x | None => last_byte ws i end.
Proof. unfold last_byte. by rewrite foldl_snoc. Qed.

Lemma apply_writes_snoc ws w s : apply_writes (ws ++ [w]) s = write_at (apply_writes ws s) w.1 w.2.
Proof. unfold apply_writes. by rewrite foldl_snoc. Qed.

Lemma apply_byte ws s i :
  Forall (fun w => 0 <= w.1) ws -> file_byte (apply_writes ws s) i = default (file_byte s i) (last_byte ws i).
Proof.
  induction ws as [|w ws IH] using rev_ind; intros Hw; [done|].
  apply Forall_app in Hw as [Hws [Hw _]%Forall_cons]. rewrite apply_writes_snoc, last_byte_snoc.
  rewrite file_byte_write_at by done. destruct (zget w.2 (i - w.1)); [done|]. by apply IH.
Qed.

Lemma last_byte_None ws i : last_byte ws i = None <-> Forall (fun w => zget w.2 (i - w.1) = None) ws.
Proof.
  induction ws as [|w ws IH] using rev_ind; [by split|]. rewrite last_byte_snoc, Forall_app, Forall_singleton.
  destruct (zget w.2 (i - w.1)) eqn:E; [|tauto]. split; [done|]. by intros [_ ?].
Qed.

Lemma last_byte_Some ws i x : last_byte ws i = Some x -> exists w, w ∈ ws /\ zget w.2 (i - w.1) = Some x.
Proof.
  induction ws as [|w ws IH] using rev_ind; [done|]. rewrite last_byte_snoc.
  destruct (zget w.2 (i - w.1)) as [y|] eqn:E.
  - intros [= ->]. exists w. split; [|done]. apply elem_of_app. right. by apply list_elem_of_singleton.
  - intros Hx. destruct (IH Hx) as (w' & Hw & E'). exists w'. split; [|done]. apply elem_of_app. by left.
Qed.

Lemma zlen_apply_writes ws s : Forall (fun w => 0 <= w.1) ws -> zlen s <= zlen (apply_writes ws s).
Proof.
  induction ws as [|w ws IH] using rev_ind; intros Hw; [done|].
  apply Forall_app in Hw as [Hws [Hw _]%Forall_cons]. rewrite apply_writes_snoc.
  etrans; [by apply IH|by apply zlen_write_at_ge].
Qed.

Lemma home_writes_nonneg ps : Forall page_outside ps -> Forall (fun w => 0 <= w.1) (map home_write ps).
Proof.
  intros Hp. apply Forall_fmap. eapply Forall_impl; [exact Hp|]. intros pg [[[Hu _] _] _]. cbn.
  change PAGE_SIZE with 16384. lia.
Qed.

(** The home of a page lies outside the zone. *)
Lemma home_write_zone ps i w : Forall page_outside ps -> w ∈ map home_write ps -> in_zone i -> zget w.2 (i - w.1) = None.
Proof.
  intros Hp Hw [H1 H2]. apply list_elem_of_fmap in Hw as (pg & -> & Hpg). rewrite Forall_forall in Hp.
  destruct (Hp pg Hpg) as [[Hu Hl] Ho]. cbn. apply zget_None. rewrite Hl. revert H1 H2 Ho.
  unfold zone_end, DWB_ZONE_BYTES, dwb_zone_offset, FIRST_ALLOCATABLE_PAGE, DWB_ZONE_START_PAGE, DWB_ZONE_PAGES.
  change PAGE_SIZE with 16384. change PAGED_PAGE_SIZE with 16384. lia.
Qed.

Lemma put_pages_homes ps a b : Forall page_outside ps -> same_homes a b -> same_homes (put_pages ps a) (put_pages ps b).
Proof.
  intros Hp Hs i Hi Hz. unfold put_pages. rewrite !apply_byte by (by apply home_writes_nonneg).
  destruct (last_byte _ i); [done|]. by apply Hs.
Qed.

Lemma put_pages_nil c : put_pages [] c = c.
Proof. reflexivity. Qed.

Lemma put_pages_app ps qs c : put_pages (ps ++ qs) c = put_pages qs (put_pages ps c).
Proof. unfold put_pages, apply_writes. by rewrite map_app, foldl_app. Qed.

(** Pages written twice are as if written once. *)
Lemma put_pages_again ps a b :
  Forall page_outside ps -> same_homes a (put_pages ps b) -> same_homes (put_pages ps a) (put_pages ps b).
Proof.
  intros Hp Hs i Hi Hz. unfold put_pages in *. rewrite apply_byte by (by apply home_writes_nonneg).
  destruct (last_byte (map home_write ps) i) eqn:E; [|cbn; by apply Hs].
  by rewrite apply_byte, E by (by apply home_writes_nonneg).
Qed.

(** Writes inside the zone, relative to it *)
Definition in_zone_write (w : Z * bytes) : Prop := dwb_zone_offset <= w.1 /\ w.1 + zlen w.2 <= zone_end.
Definition shift_write (w : Z * bytes) : Z * bytes := (w.1 - dwb_zone_offset, w.2).

Lemma zone_slice c : slice c dwb_zone_offset DWB_ZONE_BYTES = zone c.
Proof. unfold zone. reflexivity. Qed.

Lemma zlen_zone c : zone_end <= zlen c -> zlen (zone c) = DWB_ZONE_BYTES.
Proof. intros. apply zlen_slice; [done|done|exact H]. Qed.

Lemma file_byte_zone c i : 0 <= i < DWB_ZONE_BYTES -> file_byte (zone c) i = file_byte c (dwb_zone_offset + i).
Proof. intros. by apply file_byte_slice. Qed.

Lemma zone_same a b :
  zone_end <= zlen a -> zone_end <= zlen b -> (forall i, in_zone i -> file_byte a i = file_byte b i) -> zone a = zone b.
Proof. intros Ha Hb Hs. unfold zone. apply slice_same; [done|done|done|done|]. intros i Hi. by apply Hs. Qed.

Lemma zone_of c z :
  zone_end <= zlen c -> zlen z = DWB_ZONE_BYTES ->
  (forall i, 0 <= i < DWB_ZONE_BYTES -> file_byte c (dwb_zone_offset + i) = file_byte z i) -> zone c = z.
Proof.
  intros Hc Hz Hs. rewrite <-(slice_all (zone c) DWB_ZONE_BYTES), <-(slice_all z DWB_ZONE_BYTES) by (done || by rewrite zlen_zone).
  apply slice_same; [done|done|by rewrite zlen_zone|by rewrite Hz|].
  intros i Hi. rewrite file_byte_zone by lia. apply Hs. lia.
Qed.

Lemma zlen_apply_inside ws s n :
  Forall (fun w => 0 <= w.1 /\ w.1 + zlen w.2 <= n) ws -> zlen s = n -> zlen (apply_writes ws s) = n.
Proof.
  intros Hw Hs. induction ws as [|w ws IH] using rev_ind; [done|].
  apply Forall_app in Hw as [Hws [[Hw1 Hw2] _]%Forall_cons]. rewrite apply_writes_snoc, zlen_write_at by done.
  rewrite IH by done. destruct (zlen w.2 =? 0); lia.
Qed.

Lemma last_byte_shift ws i : last_byte (map shift_write ws) i = last_byte ws (dwb_zone_offset + i).
Proof.
  induction ws as [|w ws IH] using rev_ind; [done|]. rewrite map_app. cbn [map]. rewrite !last_byte_snoc, IH. cbn.
  by replace (i - (w.1 - dwb_zone_offset)) with (dwb_zone_offset + i - w.1) by lia.
Qed.

Lemma zone_apply ws s :
  Forall in_zone_write ws -> zone_end <= zlen s -> zone (apply_writes ws s) = apply_writes (map shift_write ws) (zone s).
Proof.
  intros Hw Hs.
  assert (H0 : Forall (fun w => 0 <= w.1) ws).
  { eapply Forall_impl; [exact Hw|]. intros w [H _]. change dwb_zone_offset with 49152 in H. lia. }
  assert (H1 : Forall (fun w => 0 <= w.1 /\ w.1 + zlen w.2 <= DWB_ZONE_BYTES) (map shift_write ws)).
  { apply Forall_fmap. eapply Forall_impl; [exact Hw|]. intros w [H H']. unfold zone_end in H'. cbn. lia. }
  apply zone_of.
  - etrans; [exact Hs|by apply zlen_apply_writes].
  - apply zlen_apply_inside; [done|by apply zlen_zone].
  - intros i Hi. rewrite !apply_byte; [|eapply Forall_impl; [exact H1|by intros w [? _]]|done].
    rewrite last_byte_shift, file_byte_zone by done. done.
Qed.

Lemma same_homes_zone_writes ws s : Forall in_zone_write ws -> same_homes (apply_writes ws s) s.
Proof.
  intros Hw i Hi Hz. rewrite apply_byte.
  2:{ eapply Forall_impl; [exact Hw|]. intros w [H _]. change dwb_zone_offset with 49152 in H. lia. }
  rewrite (proj2 (last_byte_None ws i)); [done|]. eapply Forall_impl; [exact Hw|]. intros w [H1 H2].
  apply zget_None. unfold in_zone in Hz. lia.
Qed.

#[local] Opaque zone DWB_ZONE_BYTES.

Section recovery.
Context (crc32 : bytes -> Z) (crc32_u32 : forall b, u32_ok (crc32 b)).

(** The pages of the frame in a zone *)
Definition frame_pages (z : bytes) : option (list (Z * bytes)) :=
  map (fun e => (dwb_page_id e, dwb_page e)) <$> result_ok (decode_paged_dwb_frame crc32 z).

Definition staged (c : bytes) : list (Z * bytes) := default [] (frame_pages (zone c)).
Definition recovered (c : bytes) : bytes := put_pages (staged c) c.

(** The zone after a frame was staged, and after it was cleared *)
Definition staged_zone (z : bytes) (chunk : list (Z * bytes)) : bytes :=
  write_at z 0 (encode_paged_dwb_frame crc32 chunk).
Definition clear_write (page_id : Z) : Z * bytes := (page_id * PAGE_SIZE, clear_page crc32 page_id).
Definition clear_writes : list (Z * bytes) := map clear_write zone_ids.
Definition cleared_zone (z : bytes) : bytes := apply_writes (map shift_write clear_writes) z.

(** A tear between the zones [z] and [z'] that the checksum does not detect: each byte of [m] is
    that of [z] or of [z'], and [m] decodes to pages that neither of them holds.  No checksum
    of 32 bits excludes this. *)
Definition undetected (z z' m : bytes) : Prop :=
  zlen m = zlen z /\
  (forall i, 0 <= i -> file_byte m i = file_byte z i \/ file_byte m i = file_byte z' i) /\
  exists ps, frame_pages m = Some ps /\ frame_pages z <> Some ps /\ frame_pages z' <> Some ps.

(** [m] is such a tear between two zones that follow each other in a batch: one frame after the
    other, then the clear zone *)
Fixpoint undetected_in (z : bytes) (chunks : list (list (Z * bytes))) (m : bytes) : Prop :=
  match chunks with
  | [] => undetected z (cleared_zone z) m
  | chunk :: chunks => undetected z (staged_zone z chunk) m \/ undetected_in (staged_zone z chunk) chunks m
  end.

Lemma undetected_last z chunks m :
  undetected (foldl staged_zone z chunks) (cleared_zone (foldl staged_zone z chunks)) m -> undetected_in z chunks m.
Proof. revert z. induction chunks as [|chunk chunks IH]; intros z H; [exact H|]. right. by apply IH. Qed.

(** Recovery of [c] gives the homes of [h]. *)
Definition sound (h c : bytes) : Prop :=
  zone_end <= zlen c /\ Forall page_outside (staged c) /\ same_homes (recovered c) h.

(** A file between two frames: its homes are those of [h] with or without a replay. *)
Definition settled (h c : bytes) : Prop := sound h c /\ same_homes c h.

Lemma images_zone s ws c :
  Forall in_zone_write ws -> zone_end <= zlen s -> images s ws c -> same_homes c s.
Proof.
  intros Hw Hs [_ Hc] i Hi Hz. destruct (Hc i Hi) as [E|(w & Hin & E)]; [done|]. exfalso. apply Hz.
  rewrite Forall_forall in Hw. destruct (Hw w Hin) as [H1 H2].
  assert (0 <= i - w.1 < zlen w.2) by (apply zget_is_Some; eauto). unfold in_zone. lia.
Qed.

(** Writes at different places *)
Definition separate (ws : list (Z * bytes)) : Prop :=
  forall w w' i, w ∈ ws -> w' ∈ ws -> is_Some (zget w.2 i) -> is_Some (zget w'.2 (w.1 + i - w'.1)) -> w = w'.

Lemma last_byte_separate ws w i x : separate ws -> w ∈ ws -> zget w.2 (i - w.1) = Some x -> last_byte ws i = Some x.
Proof.
  intros Hs Hw E. destruct (last_byte ws i) as [y|] eqn:El.
  - apply last_byte_Some in El as (w' & Hw' & E'). rewrite <-E, <-E'.
    rewrite (Hs w w' (i - w.1) Hw Hw'); [done|by exists x|]. replace (w.1 + (i - w.1) - w'.1) with (i - w'.1) by lia. by exists y.
  - apply last_byte_None in El. rewrite Forall_forall in El. specialize (El w Hw). cbn in El. congruence.
Qed.

(** A tear of writes in the zone *)
Lemma torn_zone s ws c :
  Forall in_zone_write ws -> separate ws -> zone_end <= zlen s -> images s ws c ->
  forall ps, frame_pages (zone c) = Some ps ->
    frame_pages (zone s) = Some ps \/ frame_pages (apply_writes (map shift_write ws) (zone s)) = Some ps \/
    undetected (zone s) (apply_writes (map shift_write ws) (zone s)) (zone c).
Proof.
  intros Hw Hsep Hs [Hl Hc] ps Ep. destruct (decide (frame_pages (zone s) = Some ps)) as [|H1]; [by left|right].
  destruct (decide (frame_pages (apply_writes (map shift_write ws) (zone s)) = Some ps)) as [|H2]; [by left|right].
  split; [rewrite !zlen_zone by lia; done|]. split; [|by exists ps].
  intros i Hi. destruct (decide (i < DWB_ZONE_BYTES)) as [Hlt|Hge].
  - rewrite (file_byte_zone c), (file_byte_zone s) by lia.
    destruct (Hc (dwb_zone_offset + i)) as [E|(w & Hin & E)]; [change dwb_zone_offset with 49152; lia|by left|right].
    rewrite <-zone_apply, file_byte_zone, apply_byte by (done || lia ||
      (eapply Forall_impl; [exact Hw|]; intros v [H _]; change dwb_zone_offset with 49152 in H; lia)).
    by rewrite (last_byte_separate ws w _ _ Hsep Hin E).
  - left. rewrite !file_byte_default; [done|right; rewrite zlen_zone by lia; lia..].
Qed.

Lemma staged_ext a b : zone a = zone b -> staged a = staged b.
Proof. unfold staged. by intros ->. Qed.

(** Writes in the zone on a settled file: recovery gives the old homes or the old homes
    with the pages of the new zone. *)
Lemma zone_write_sound h s ws c ps :
  Forall in_zone_write ws -> separate ws -> settled h s -> images s ws c ->
  default [] (frame_pages (apply_writes (map shift_write ws) (zone s))) = ps -> Forall page_outside ps ->
  sound h c \/ sound (put_pages ps h) c \/ undetected (zone s) (apply_writes (map shift_write ws) (zone s)) (zone c).
Proof.
  intros Hw Hsep [(Hs & Ho & Hr) Hh] Hc E Hp.
  assert (Hcs : same_homes c s) by (by eapply images_zone).
  assert (Hlc : zone_end <= zlen c) by (destruct Hc; lia).
  destruct (frame_pages (zone c)) as [qs|] eqn:Ec.
  - destruct (torn_zone s ws c Hw Hsep Hs Hc qs Ec) as [E1|[E1|E1]]; [| |by right; right].
    + left. assert (Es : staged c = staged s) by (unfold staged; by rewrite Ec, E1).
      split_and!; [done|by rewrite Es|]. unfold recovered in *. rewrite Es.
      etrans; [by apply put_pages_homes|exact Hr].
    + right; left. assert (Es : staged c = ps) by (rewrite <-E; unfold staged; by rewrite Ec, E1).
      split_and!; [done|by rewrite Es|]. unfold recovered. rewrite Es. apply put_pages_homes; [done|]. by rewrite Hcs.
  - left. assert (Es : staged c = []) by (unfold staged; by rewrite Ec).
    split_and!; [done|by rewrite Es; constructor|]. unfold recovered. rewrite Es, put_pages_nil. by rewrite Hcs.
Qed.

(** Page writes while their frame is in the zone *)
Lemma home_write_sound h s c :
  zone_end <= zlen s -> Forall page_outside (staged s) -> same_homes s h ->
  images s (map home_write (staged s)) c -> sound (put_pages (staged s) h) c.
Proof.
  intros Hs Hp Hh [Hl Hc].
  assert (Hz : zone c = zone s).
  { apply zone_same; [lia|done|]. intros i Hi. destruct (Hc i) as [E|(w & Hw & E)]; [|done|].
    - destruct Hi. change dwb_zone_offset with 49152 in *. lia.
    - by rewrite (home_write_zone _ _ _ Hp Hw Hi) in E. }
  pose proof (staged_ext _ _ Hz) as Es. split_and!; [lia|by rewrite Es|].
  unfold recovered. rewrite Es. intros i Hi Hiz. unfold put_pages.
  rewrite !apply_byte by (by apply home_writes_nonneg).
  destruct (last_byte (map home_write (staged s)) i) eqn:El; [done|]. cbn.
  apply last_byte_None in El. rewrite Forall_forall in El.
  destruct (Hc i Hi) as [E|(w & Hw & E)]; [rewrite E; by apply Hh|]. specialize (El w Hw). cbn in El. congruence.
Qed.

Lemma zone_put_pages ps s : Forall page_outside ps -> zone_end <= zlen s -> zone (put_pages ps s) = zone s.
Proof.
  intros Hp Hs. pose proof (home_writes_nonneg ps Hp) as H0.
  apply zone_same; [etrans; [exact Hs|by apply zlen_apply_writes]|done|].
  intros i Hi. unfold put_pages. rewrite apply_byte by done.
  rewrite (proj2 (last_byte_None _ i)); [done|]. apply Forall_forall. intros w Hw. by apply (home_write_zone ps).
Qed.

Lemma home_written_settled h s :
  zone_end <= zlen s -> Forall page_outside (staged s) -> same_homes s h ->
  settled (put_pages (staged s) h) (put_pages (staged s) s).
Proof.
  intros Hs Hp Hh. pose proof (zone_put_pages (staged s) s Hp Hs) as Hz. pose proof (staged_ext _ _ Hz) as Es.
  assert (H1 : same_homes (put_pages (staged s) s) (put_pages (staged s) h)) by (by apply put_pages_homes).
  split; [|done]. split_and!.
  - etrans; [exact Hs|apply zlen_apply_writes; by apply home_writes_nonneg].
  - by rewrite Es.
  - unfold recovered. rewrite Es. by apply put_pages_again.
Qed.

(** *** The zone after staging and after clearing *)

Definition frame_write (chunk : list (Z * bytes)) : Z * bytes := (dwb_zone_offset, encode_paged_dwb_frame crc32 chunk).

Definition chunk_ok (chunk : list (Z * bytes)) : Prop := Forall page_outside chunk /\ zlen chunk <= DWB_MAX_PAGES_PER_FRAME.

Lemma chunk_ok_dwb chunk : chunk_ok chunk -> Forall dwb_page_ok chunk.
Proof. intros [H _]. eapply Forall_impl; [exact H|]. by intros pg [? _]. Qed.

Lemma zlen_frame chunk : chunk_ok chunk -> 12 <= zlen (encode_paged_dwb_frame crc32 chunk) <= DWB_ZONE_BYTES.
Proof.
  intros Hc. pose proof (chunk_ok_dwb _ Hc) as Hd. destruct Hc as [_ Hn].
  rewrite encode_paged_dwb_frame_eq, !zlen_app, !zlen_le_bytes, zlen_dwb_body by done.
  change (zlen DWB_MAGIC) with 4. change (DWB_MAX_PAGES_PER_FRAME) with 63 in Hn.
  change PAGED_DWB_ENTRY_SIZE with 16388. change DWB_ZONE_BYTES with 1048576.
  pose proof (zlen_nonneg chunk). lia.
Qed.

Lemma frame_write_in_zone chunk : chunk_ok chunk -> Forall in_zone_write [frame_write chunk].
Proof.
  intros Hc. apply Forall_singleton. pose proof (zlen_frame _ Hc). split; cbn; [done|]. unfold zone_end. lia.
Qed.

Lemma separate_singleton w : separate [w].
Proof. intros a b i Ha%list_elem_of_singleton Hb%list_elem_of_singleton _ _. by subst. Qed.

Lemma staged_zone_writes z chunk : apply_writes (map shift_write [frame_write chunk]) z = staged_zone z chunk.
Proof. unfold staged_zone, apply_writes, shift_write, frame_write. cbn [map foldl fst snd]. by rewrite Z.sub_diag. Qed.

Lemma frame_pages_staged z chunk :
  zlen z = DWB_ZONE_BYTES -> chunk_ok chunk -> frame_pages (staged_zone z chunk) = Some chunk.
Proof.
  intros Hz Hc. pose proof (zlen_frame _ Hc) as Hl. unfold frame_pages, staged_zone, write_at.
  destruct (Z.eqb_spec (zlen (encode_paged_dwb_frame crc32 chunk)) 0); [lia|].
  replace (zeros _) with (@nil Z) by (unfold zeros; by replace (Z.to_nat _) with 0%nat by lia).
  rewrite app_nil_r, splice_in by lia. rewrite take_0, app_nil_l.
  rewrite dwb_frame_roundtrip; [|done|by apply chunk_ok_dwb|].
  - cbn. f_equal. rewrite map_map. cbn. clear. induction chunk as [|[i p] l IH]; [done|]. cbn. by rewrite IH.
  - destruct Hc as [_ Hn]. change (DWB_MAX_PAGES_PER_FRAME) with 63 in Hn. unfold U32_MAX. lia.
Qed.

Lemma zlen_clear_page id : zlen (clear_page crc32 id) = PAGE_SIZE.
Proof. unfold clear_page. by rewrite zlen_update_checksum, zlen_Page_new. Qed.

Lemma elem_of_zone_ids id : id ∈ zone_ids <-> DWB_ZONE_START_PAGE <= id < FIRST_ALLOCATABLE_PAGE.
Proof. unfold zone_ids. rewrite elem_of_seqZ. change FIRST_ALLOCATABLE_PAGE with (DWB_ZONE_START_PAGE + DWB_ZONE_PAGES). done. Qed.

Lemma clear_writes_in_zone : Forall in_zone_write clear_writes.
Proof.
  apply Forall_forall. intros w Hw. apply list_elem_of_fmap in Hw as (id & -> & Hid%elem_of_zone_ids).
  split; cbn [clear_write fst snd]; rewrite ?zlen_clear_page; revert Hid;
    change zone_end with 1097728; change dwb_zone_offset with 49152; change DWB_ZONE_START_PAGE with 3;
    change FIRST_ALLOCATABLE_PAGE with 67; change PAGE_SIZE with 16384; lia.
Qed.

Lemma clear_writes_separate : separate clear_writes.
Proof.
  intros a b i (x & -> & Hx)%list_elem_of_fmap (y & -> & Hy)%list_elem_of_fmap.
  cbn [clear_write fst snd]. rewrite !zget_is_Some, !zlen_clear_page. change PAGE_SIZE with 16384.
  intros. assert (x = y) as -> by lia. done.
Qed.

Lemma clear_page_tag :
  zget (clear_write DWB_ZONE_START_PAGE).2 (dwb_zone_offset + 0 - (clear_write DWB_ZONE_START_PAGE).1) = Some 6.
Proof.
  change (dwb_zone_offset + 0 - _) with 0. cbn [clear_write snd].
  assert (E : zget (slice (clear_page crc32 DWB_ZONE_START_PAGE) 0 1) 0 = Some 6).
  { unfold clear_page. rewrite slice_update_checksum by lia. by vm_compute. }
  rewrite zget_slice in E by lia. exact E.
Qed.

Lemma cleared_zone_tag z : file_byte (cleared_zone z) 0 = 6.
Proof.
  unfold cleared_zone. rewrite apply_byte.
  2:{ apply Forall_fmap. eapply Forall_impl; [exact clear_writes_in_zone|]. intros w [H _]. cbn. lia. }
  rewrite last_byte_shift, (last_byte_separate _ (clear_write DWB_ZONE_START_PAGE) _ 6); [reflexivity| | |].
  - exact clear_writes_separate.
  - apply list_elem_of_fmap. exists DWB_ZONE_START_PAGE. split; [reflexivity|]. by apply elem_of_zone_ids.
  - exact clear_page_tag.
Qed.

Lemma frame_pages_cleared z : frame_pages (cleared_zone z) = None.
Proof.
  unfold frame_pages, decode_paged_dwb_frame.
  destruct (zlen (cleared_zone z) <? PAGED_DWB_HEADER_SIZE); [reflexivity|].
  destruct (bool_decide (slice (cleared_zone z) 0 4 = DWB_MAGIC)) eqn:Em; cbn [negb]; [|reflexivity].
  apply bool_decide_eq_true in Em. exfalso.
  pose proof (file_byte_slice (cleared_zone z) 0 4 0 ltac:(lia) ltac:(lia) ltac:(lia)) as E.
  rewrite Em in E. change (0 + 0) with 0 in E. rewrite cleared_zone_tag in E. discriminate E.
Qed.

(** *** The protocol is safe at every operation *)

Lemma safe_assoc {E A B D} P (m : eff File E A) (k : A -> eff File E B) (k' : B -> eff File E D) Q C :
  safe P ((m ≫= k) ≫= k') Q C -> safe P (m ≫= (fun a => k a ≫= k')) Q C.
Proof.
  intros H f Hf. specialize (H f Hf). unfold mbind, eff_bind in *. destruct (m f) as [f' [a| |]]; exact H.
Qed.

Lemma safe_exists {E A X} (P : X -> File -> Prop) (m : eff File E A) Q C :
  (forall x, safe (P x) m Q C) -> safe (fun f => exists x, P x f) m Q C.
Proof. intros H f [x Hx]. exact (H x f Hx). Qed.

Lemma safe_post {E A} P (m : eff File E A) (Q Q' : File -> Prop) C :
  safe P m Q C -> (forall f, Q f -> Q' f) -> safe P m Q' C.
Proof. intros H HQ f Hf. destruct (H f Hf) as [H1 H2]. split; [exact H1|]. intros a E'. apply HQ. exact (H2 a E'). Qed.

Lemma safe_ret {A} P (a : A) C :
  (forall f c, P f -> crash_image f c -> C c) -> safe P (mret a : eff File PagerIoError A) P C.
Proof. intros HC f Hf. split; [intros c; exact (HC f c Hf)|by intros]. Qed.

Lemma images_self s ws f c : at_state s ws f -> crash_image f c -> images s ws c.
Proof. intros [<- <-] H. exact H. Qed.

Lemma settled_images h s c : settled h s -> images s [] c -> settled h c.
Proof.
  intros [(H1 & H2 & H3) H4] [Hl Hc].
  assert (Hb : forall i, 0 <= i -> file_byte c i = file_byte s i).
  { intros i Hi. destruct (Hc i Hi) as [E|(w & Hw & _)]; [exact E|by apply elem_of_nil in Hw]. }
  assert (Hs : same_homes c s) by (intros i Hi _; exact (Hb i Hi)).
  assert (Hz : zone c = zone s).
  { apply zone_same; [lia|lia|]. intros i [Hi _]. apply Hb. change dwb_zone_offset with 49152 in Hi. lia. }
  pose proof (staged_ext _ _ Hz) as Es. split; [|etrans; [exact Hs|exact H4]].
  split_and!; [lia|rewrite Es; exact H2|]. etrans; [|exact H3]. unfold recovered. rewrite Es.
  exact (put_pages_homes _ _ _ H2 Hs).
Qed.

Lemma write_page_home pg : write_page pg.1 pg.2 = (_ ← io (seek (home_write pg).1); io (write_all (home_write pg).2)).
Proof. reflexivity. Qed.

(** Clearing the zone of a settled file *)
Lemma cleared_settled h s : settled h s -> settled h (apply_writes clear_writes s) /\ staged (apply_writes clear_writes s) = [].
Proof.
  intros [(Hs & _ & _) Hh]. pose proof clear_writes_in_zone as Hw.
  assert (Es : staged (apply_writes clear_writes s) = []).
  { unfold staged. rewrite zone_apply by done. by rewrite frame_pages_cleared. }
  assert (Hsame : same_homes (apply_writes clear_writes s) h) by (etrans; [by apply same_homes_zone_writes|exact Hh]).
  split; [|exact Es]. split; [|exact Hsame]. split_and!.
  - etrans; [exact Hs|]. apply zlen_apply_writes. eapply Forall_impl; [exact Hw|].
    intros w [H _]. change dwb_zone_offset with 49152 in H. lia.
  - rewrite Es. constructor.
  - unfold recovered. rewrite Es, put_pages_nil. exact Hsame.
Qed.

Lemma safe_clear h s :
  settled h s ->
  safe (at_state s []) (clear_dwb_zone crc32) (at_state (apply_writes clear_writes s) [])
    (fun c => sound h c \/ undetected (zone s) (cleared_zone (zone s)) (zone c)).
Proof.
  intros Hs. pose proof clear_writes_in_zone as Hw.
  assert (HC : forall c, images s clear_writes c -> sound h c \/ undetected (zone s) (cleared_zone (zone s)) (zone c)).
  { intros c Hc. destruct (zone_write_sound h s clear_writes c [] Hw clear_writes_separate Hs Hc) as [H|[H|H]];
      [|constructor|by left|by left|by right]. fold (cleared_zone (zone s)). by rewrite frame_pages_cleared. }
  unfold clear_dwb_zone. eapply safe_bind.
  - apply (safe_for_each _ clear_write zone_ids s []); [reflexivity|exact HC].
  - intros _. apply safe_sync; [|exact HC]. eapply Forall_impl; [exact Hw|].
    intros w [H _]. change dwb_zone_offset with 49152 in H. lia.
Qed.

(** One frame *)
Definition framed (s : bytes) (chunk : list (Z * bytes)) : bytes :=
  put_pages chunk (apply_writes [frame_write chunk] s).

Lemma framed_ok h s chunk :
  settled h s -> chunk_ok chunk ->
  let s1 := apply_writes [frame_write chunk] s in
  zone_end <= zlen s1 /\ staged s1 = chunk /\ same_homes s1 h /\
  settled (put_pages chunk h) (framed s chunk) /\ zone (framed s chunk) = staged_zone (zone s) chunk.
Proof.
  intros [(Hs & _ & _) Hh] Hc s1. pose proof (frame_write_in_zone _ Hc) as Hw.
  assert (Hl : zone_end <= zlen s1).
  { etrans; [exact Hs|]. apply zlen_apply_writes. by apply Forall_singleton. }
  assert (Hz : zone s1 = staged_zone (zone s) chunk) by (unfold s1; by rewrite zone_apply, staged_zone_writes).
  assert (Es : staged s1 = chunk).
  { unfold staged. rewrite Hz, frame_pages_staged; [reflexivity|by apply zlen_zone|exact Hc]. }
  assert (Hsame : same_homes s1 h) by (etrans; [by apply same_homes_zone_writes|exact Hh]).
  destruct Hc as [Hc _].
  split_and!; [exact Hl|exact Es|exact Hsame| |].
  - pose proof (home_written_settled h s1 Hl) as H. rewrite Es in H. by apply H.
  - unfold framed. fold s1. by rewrite zone_put_pages.
Qed.

Lemma safe_frame h s chunk :
  settled h s -> chunk_ok chunk ->
  safe (at_state s []) (write_frame crc32 chunk) (at_state (framed s chunk) [])
    (fun c => sound h c \/ sound (put_pages chunk h) c \/ undetected (zone s) (staged_zone (zone s) chunk) (zone c)).
Proof.
  intros Hs Hc. destruct (framed_ok h s chunk Hs Hc) as (Hl & Es & Hh & _ & _).
  set (s1 := apply_writes [frame_write chunk] s) in *.
  assert (Hst : forall c, images s [frame_write chunk] c ->
    sound h c \/ sound (put_pages chunk h) c \/ undetected (zone s) (staged_zone (zone s) chunk) (zone c)).
  { intros c Hi. rewrite <-(staged_zone_writes (zone s) chunk).
    apply (zone_write_sound h s [frame_write chunk] c chunk); [by apply frame_write_in_zone|
      apply separate_singleton|exact Hs|exact Hi| |by destruct Hc].
    rewrite staged_zone_writes, frame_pages_staged; [reflexivity|apply zlen_zone; apply Hs|exact Hc]. }
  assert (Hho : forall c, images s1 (map home_write chunk) c ->
    sound h c \/ sound (put_pages chunk h) c \/ undetected (zone s) (staged_zone (zone s) chunk) (zone c)).
  { intros c Hi. right; left. pose proof (home_write_sound h s1 c Hl) as H. rewrite Es in H. destruct Hc. by apply H. }
  unfold write_frame. eapply safe_bind; [apply safe_lift|intros _].
  { intros f Hf c Hi. apply Hst. eapply images_mono; [|exact (images_self _ _ _ _ Hf Hi)]. by intros w Hw%elem_of_nil. }
  apply safe_assoc. eapply safe_bind; [exact (safe_write_at s [] dwb_zone_offset _ _ Hst)|intros _].
  eapply safe_bind; [apply safe_sync; [by apply Forall_singleton|exact Hst]|intros _].
  eapply safe_bind; [exact (safe_for_each _ home_write chunk s1 [] _ write_page_home Hho)|intros _].
  apply safe_sync; [|exact Hho]. destruct Hc. by apply home_writes_nonneg.
Qed.

(** The batch: recovery gives the homes with the frames up to some point. *)
Definition batch_point (h : bytes) (chunks : list (list (Z * bytes))) (c : bytes) : Prop :=
  exists k, (k <= length chunks)%nat /\ sound (put_pages (concat (take k chunks)) h) c.

Lemma sound_batch_point h chunks c : sound h c -> batch_point h chunks c.
Proof. intros H. exists 0%nat. split; [lia|]. rewrite take_0. cbn [concat]. by rewrite put_pages_nil. Qed.

Lemma batch_point_cons h chunk chunks c :
  batch_point (put_pages chunk h) chunks c -> batch_point h (chunk :: chunks) c.
Proof.
  intros (k & Hk & H). exists (Datatypes.S k). split; [cbn; lia|].
  rewrite firstn_cons. cbn [concat]. by rewrite put_pages_app.
Qed.

Lemma safe_frames h s chunks :
  settled h s -> Forall chunk_ok chunks ->
  safe (at_state s []) (for_each chunks (write_frame crc32))
    (fun f => exists s', at_state s' [] f /\ settled (put_pages (concat chunks) h) s' /\ zone s' = foldl staged_zone (zone s) chunks)
    (fun c => batch_point h chunks c \/ undetected_in (zone s) chunks (zone c)).
Proof.
  revert h s. induction chunks as [|chunk chunks IH]; intros h s Hs Hc.
  - intros f Hf. split.
    + intros c Hi. left. apply sound_batch_point. exact (proj1 (settled_images _ _ _ Hs (images_self _ _ _ _ Hf Hi))).
    + intros _ _. exists s. cbn [concat]. rewrite put_pages_nil. split; [exact Hf|]. split; [exact Hs|reflexivity].
  - apply Forall_cons in Hc as [Hc Hcs].
    destruct (framed_ok h s chunk Hs Hc) as (_ & _ & _ & Hs' & Hz).
    cbn [for_each]. eapply safe_bind.
    + eapply safe_weaken; [exact (safe_frame h s chunk Hs Hc)|].
      intros c [H|[H|H]]; [left; by apply sound_batch_point|left|right; left; exact H].
      apply batch_point_cons. by apply sound_batch_point.
    + intros _. cbn [concat]. eapply safe_post; [eapply safe_weaken; [exact (IH _ _ Hs' Hcs)|]|].
      * intros c [H|H]; [left; by apply batch_point_cons|]. right; right. rewrite <-Hz. exact H.
      * intros f (s' & H1 & H2 & H3). exists s'. rewrite put_pages_app. split; [exact H1|]. split; [exact H2|].
        cbn [foldl]. rewrite <-Hz. exact H3.
Qed.

Definition frames_of (pages : list (Z * bytes)) : list (list (Z * bytes)) :=
  chunks_of (Z.to_nat (Z.max DWB_MAX_PAGES_PER_FRAME 1)) pages.

Lemma concat_frames_of pages : concat (frames_of pages) = pages.
Proof. apply concat_chunks_of. change (Z.max DWB_MAX_PAGES_PER_FRAME 1) with 63. lia. Qed.

Lemma frames_of_ok pages : Forall page_outside pages -> Forall chunk_ok (frames_of pages).
Proof.
  intros Hp. apply Forall_forall. intros chunk Hin. split.
  - apply Forall_forall. intros pg Hpg. rewrite Forall_forall in Hp. apply Hp.
    rewrite <-(concat_frames_of pages). apply list_elem_of_In, in_concat. exists chunk. by rewrite <-!list_elem_of_In.
  - pose proof (chunks_of_Forall 63 pages ltac:(lia)) as H. rewrite Forall_forall in H.
    destruct (H chunk Hin) as [_ Hl]. change DWB_MAX_PAGES_PER_FRAME with 63. unfold zlen. lia.
Qed.

Lemma safe_write_pages h s pages :
  settled h s -> Forall page_outside pages ->
  safe (at_state s []) (write_pages crc32 pages true)
    (fun f => exists s', at_state s' [] f /\ settled (put_pages pages h) s')
    (fun c => batch_point h (frames_of pages) c \/ undetected_in (zone s) (frames_of pages) (zone c)).
Proof.
  intros Hs Hp. pose proof (safe_frames h s _ Hs (frames_of_ok pages Hp)) as Hf.
  rewrite concat_frames_of in Hf. unfold write_pages. cbn [negb]. fold (frames_of pages).
  eapply safe_bind; [exact Hf|intros _]. apply safe_exists. intros s' f (Ha & Hs' & Ez).
  assert (HC : forall c, sound (put_pages pages h) c -> batch_point h (frames_of pages) c).
  { intros c H. exists (length (frames_of pages)). rewrite firstn_all, concat_frames_of. split; [lia|exact H]. }
  destruct (bool_decide (pages = [])).
  - split; [|intros _ _; exists s'; split; [exact Ha|exact Hs']].
    intros c Hi. left. apply HC. exact (proj1 (settled_images _ _ _ Hs' (images_self _ _ _ _ Ha Hi))).
  - destruct (safe_clear _ _ Hs' f Ha) as [H1 H2]. split.
    { intros c Hi. destruct (H1 c Hi) as [H|H]; [left; exact (HC c H)|right]. apply undetected_last. rewrite <-Ez. exact H. }
    intros a E. exists (apply_writes clear_writes s'). split; [exact (H2 a E)|].
    exact (proj1 (cleared_settled _ _ Hs')).
Qed.

(** *** Recovery *)

(** A read gives the bytes of the file and changes nothing but the cursor. *)
Lemma at_state_images s f c : at_state s [] f -> crash_image f c -> images s [] c.
Proof. apply images_self. Qed.

Lemma at_state_live s f : at_state s [] f -> live f = s.
Proof. intros [<- E]. unfold live. by rewrite E. Qed.

Lemma safe_len {A} s (k : Z -> eff File PagerIoError A) Q (C : bytes -> Prop) :
  (forall c, images s [] c -> C c) -> safe (at_state s []) (k (zlen s)) Q C ->
  safe (at_state s []) (len ← io file_len; k len) Q C.
Proof.
  intros HC Hk f Hf. unfold mbind, eff_bind, io, eff_map_err, file_len, attempt.
  destruct (faults f) as [[[|n] j]|]; cbn [fst snd map_err].
  - split; [intros c Hc; exact (HC c (at_state_images _ _ _ Hf Hc))|by intros].
  - rewrite (at_state_live s (set_faults (Some (n, j)) f) Hf). apply Hk. exact Hf.
  - rewrite (at_state_live s f Hf). apply Hk. exact Hf.
Qed.

Definition at_cursor (s : bytes) (pos : Z) (f : File) : Prop := at_state s [] f /\ cursor f = pos.

Lemma safe_seek {A} s off (k : eff File PagerIoError A) Q (C : bytes -> Prop) :
  (forall c, images s [] c -> C c) -> safe (at_cursor s off) k Q C ->
  safe (at_state s []) (_ ← io (seek off); k) Q C.
Proof.
  intros HC Hk f Hf. unfold mbind, eff_bind, io, eff_map_err, seek, attempt.
  destruct (faults f) as [[[|n] j]|]; cbn [fst snd map_err].
  - split; [intros c Hc; exact (HC c (at_state_images _ _ _ Hf Hc))|by intros].
  - apply Hk. split; [exact Hf|reflexivity].
  - apply Hk. split; [exact Hf|reflexivity].
Qed.

Lemma safe_read {A} s off n (k : bytes -> eff File PagerIoError A) Q (C : bytes -> Prop) :
  (forall c, images s [] c -> C c) -> safe (at_state s []) (k (slice s off n)) Q C ->
  safe (at_cursor s off) (b ← io (read_exact n); k b) Q C.
Proof.
  intros HC Hk f [Hf Ec]. unfold mbind, eff_bind, io, eff_map_err, read_exact, attempt.
  destruct (faults f) as [[[|m] j]|]; cbn [fst snd map_err].
  - split; [intros c Hc; exact (HC c (at_state_images _ _ _ Hf Hc))|by intros].
  - change (cursor (set_faults _ f)) with (cursor f). rewrite (at_state_live s (set_faults (Some (m, j)) f) Hf), Ec.
    destruct (off + n <=? zlen s); cbn [fst snd map_err]; [apply Hk; exact Hf|].
    split; [intros c Hc; exact (HC c (at_state_images _ (set_faults _ f) _ Hf Hc))|by intros].
  - rewrite (at_state_live s f Hf), Ec. destruct (off + n <=? zlen s); cbn [fst snd map_err]; [apply Hk; exact Hf|].
    split; [intros c Hc; exact (HC c (at_state_images _ _ _ Hf Hc))|by intros].
Qed.

(** A file whose zone has a frame: replaying it keeps recovery at the same homes. *)
Lemma sound_images h s c : sound h s -> images s [] c -> sound h c.
Proof.
  intros (H1 & H2 & H3) Hc.
  pose proof (home_write_sound s s c H1 H2 (reflexivity _)) as H. destruct H as (K1 & K2 & K3).
  { eapply images_mono; [|exact Hc]. by intros w Hw%elem_of_nil. }
  split; [exact K1|]. split; [exact K2|]. etrans; [exact K3|exact H3].
Qed.

Lemma replayed_settled h s : sound h s -> settled h (recovered s).
Proof.
  intros (H1 & H2 & H3). destruct (home_written_settled s s H1 H2 (reflexivity _)) as [(K1 & K2 & K3) K4].
  fold (recovered s) in *. split; [split; [exact K1|split; [exact K2|etrans; [exact K3|exact H3]]]|].
  etrans; [exact K4|exact H3].
Qed.

(** Where recovery ends: the zone holds no frame. *)
Definition at_rest (h : bytes) (f : File) : Prop := unsynced f = [] /\ settled h (stable f) /\ staged (stable f) = [].

Lemma safe_clear_rest h s :
  settled h s ->
  safe (at_state s []) (clear_dwb_zone crc32) (at_rest h)
    (fun c => sound h c \/ undetected (zone s) (cleared_zone (zone s)) (zone c)).
Proof.
  intros Hs. eapply safe_post; [exact (safe_clear h s Hs)|]. intros f [E1 E2]. unfold at_rest. rewrite E1, E2.
  split; [reflexivity|]. exact (cleared_settled h s Hs).
Qed.

Lemma frame_pages_magic z : slice z 0 4 <> DWB_MAGIC -> frame_pages z = None.
Proof.
  intros H. unfold frame_pages, decode_paged_dwb_frame.
  destruct (zlen z <? PAGED_DWB_HEADER_SIZE); [reflexivity|]. by rewrite bool_decide_false.
Qed.

(** What recovery needs of clearing the zone of [s]: it leads from the homes [h] to the
    homes [h], and a crash leaves a file in [C]. *)
Definition clears (h s : bytes) (C : bytes -> Prop) : Prop :=
  forall s', settled h s' -> zone s' = zone s -> safe (at_state s' []) (clear_dwb_zone crc32) (at_rest h) C.

Lemma clears_torn h s : clears h s (fun c => sound h c \/ undetected (zone s) (cleared_zone (zone s)) (zone c)).
Proof. intros s' Hs' <-. exact (safe_clear_rest h s' Hs'). Qed.

Lemma safe_for_each_any {A} (f : A -> eff File PagerIoError unit) (w : A -> Z * bytes) l s :
  (forall x, f x = (_ ← io (seek (w x).1); io (write_all (w x).2))) ->
  safe (at_state s []) (for_each l f) (at_state s (map w l)) (fun _ => True).
Proof. intros Hf. by apply (safe_for_each f w l s []). Qed.

Lemma clears_any h s : clears h s (fun _ => True).
Proof.
  intros s' Hs' _. unfold clear_dwb_zone. eapply safe_bind; [by apply (safe_for_each_any _ clear_write)|intros _].
  eapply safe_post; [apply safe_sync; [|by intros]|].
  - eapply Forall_impl; [exact clear_writes_in_zone|]. intros w [H _]. change dwb_zone_offset with 49152 in H. lia.
  - intros f [E1 E2]. unfold at_rest. rewrite E1, E2. split; [reflexivity|]. exact (cleared_settled h s' Hs').
Qed.

(** Replaying a frame and clearing the zone *)
Lemma safe_replay h s entries (C : bytes -> Prop) :
  sound h s -> clears h s C -> (forall c, sound h c -> C c) -> decode_paged_dwb_frame crc32 (zone s) = Ok entries ->
  safe (at_state s [])
    (_ ← for_each entries (fun e => write_page (dwb_page_id e) (dwb_page e)); _ ← io sync_all; clear_dwb_zone crc32)
    (at_rest h) C.
Proof.
  intros Hs Hcl HS Ed. pose proof Hs as (H1 & H2 & H3).
  assert (Ew : map (fun e => (dwb_page_id e * PAGE_SIZE, dwb_page e)) entries = map home_write (staged s)).
  { unfold staged, frame_pages. rewrite Ed. cbn [result_ok fmap option_fmap option_map from_option id]. by rewrite map_map. }
  assert (HC : forall c, images s (map home_write (staged s)) c -> C c).
  { intros c Hc. apply HS. destruct (home_write_sound s s c H1 H2 (reflexivity _) Hc) as (K1 & K2 & K3).
    split; [exact K1|]. split; [exact K2|]. etrans; [exact K3|exact H3]. }
  eapply safe_bind; [refine (safe_for_each _ (fun e => (dwb_page_id e * PAGE_SIZE, dwb_page e)) entries s [] _ (fun _ => eq_refl) _)|].
  { rewrite Ew. exact HC. }
  intros _. cbn [app]. rewrite Ew.
  eapply safe_bind; [apply safe_sync; [by apply home_writes_nonneg|exact HC]|].
  intros _. fold (put_pages (staged s) s). apply Hcl; [exact (replayed_settled h s Hs)|].
  exact (zone_put_pages _ _ H2 H1).
Qed.

Lemma no_frame_settled h s : sound h s -> frame_pages (zone s) = None -> settled h s /\ staged s = [].
Proof.
  intros Hs E. assert (Es : staged s = []) by (unfold staged; by rewrite E). split; [|exact Es].
  split; [exact Hs|]. destruct Hs as (_ & _ & H). unfold recovered in H. by rewrite Es, put_pages_nil in H.
Qed.

Lemma safe_recover h s (C : bytes -> Prop) :
  sound h s -> clears h s C -> (forall c, sound h c -> C c) ->
  safe (at_state s []) (recover_from_dwb crc32) (at_rest h) C.
Proof.
  intros Hs Hcl HS. assert (HC : forall c, images s [] c -> C c) by (intros c Hc; apply HS; by eapply sound_images).
  unfold recover_from_dwb. apply safe_len; [exact HC|].
  destruct (Z.ltb_spec (zlen s) (dwb_zone_offset + DWB_ZONE_BYTES)) as [Hl|_].
  { destruct Hs as [Hs _]. unfold zone_end in Hs. lia. }
  apply safe_seek; [exact HC|]. apply safe_read; [exact HC|]. rewrite zone_slice.
  destruct (bool_decide (slice (zone s) 0 4 = DWB_MAGIC)) eqn:Em; cbn [negb].
  - destruct (decode_paged_dwb_frame crc32 (zone s)) as [entries|e|] eqn:Ed; [by apply safe_replay| |];
      (apply Hcl; [|reflexivity]; apply no_frame_settled; [exact Hs|unfold frame_pages; by rewrite Ed]).
  - apply bool_decide_eq_false in Em. destruct (no_frame_settled h s Hs (frame_pages_magic _ Em)) as [Hset Est].
    destruct (dwb_zone_is_clear crc32 (zone s)); [|by apply Hcl].
    intros f [E1 E2]. split; [intros c Hc; apply HC; rewrite <-E1, <-E2; exact Hc|].
    intros _ _. unfold at_rest. cbn [mret fst]. split; [exact E2|]. cbn. rewrite E1. split; [exact Hset|exact Est].
Qed.

(** *** Without faults *)

(** [m] returns when no operation fails. *)
Definition sure {A} (m : eff File PagerIoError A) : Prop :=
  forall f, faults f = None -> faults (m f).1 = None /\ exists a, (m f).2 = Ok a.

Lemma sure_bind {A B} (m : eff File PagerIoError A) (k : A -> eff File PagerIoError B) :
  sure m -> (forall a, sure (k a)) -> sure (m ≫= k).
Proof.
  intros Hm Hk f Hf. destruct (Hm f Hf) as [Hf' [a E]]. unfold mbind, eff_bind.
  destruct (m f) as [f' r]. cbn [fst snd] in *. subst r. exact (Hk a f' Hf').
Qed.

Lemma sure_for_each {A} (l : list A) (f : A -> eff File PagerIoError unit) :
  (forall x, sure (f x)) -> sure (for_each l f).
Proof.
  intros Hf. induction l as [|x l IH]; cbn [for_each]; [intros g Hg; split; [exact Hg|by eexists]|].
  apply sure_bind; [apply Hf|intros _; exact IH].
Qed.

Lemma sure_seek pos : sure (io (seek pos)).
Proof. intros f Hf. unfold io, eff_map_err, seek, attempt. rewrite Hf. split; [exact Hf|by eexists]. Qed.

Lemma sure_write_all data : sure (io (write_all data)).
Proof. intros f Hf. unfold io, eff_map_err, write_all, attempt. rewrite Hf. split; [exact Hf|by eexists]. Qed.

Lemma sure_sync_all : sure (io sync_all).
Proof. intros f Hf. unfold io, eff_map_err, sync_all, attempt. rewrite Hf. split; [exact Hf|by eexists]. Qed.

Lemma sure_write_page id page : sure (write_page id page).
Proof. apply sure_bind; [apply sure_seek|intros _; apply sure_write_all]. Qed.

Lemma sure_clear : sure (clear_dwb_zone crc32).
Proof. apply sure_bind; [apply sure_for_each; intros id; apply sure_write_page|intros _; apply sure_sync_all]. Qed.

Lemma sure_write_frame chunk : chunk_ok chunk -> sure (write_frame crc32 chunk).
Proof.
  intros Hc. pose proof (zlen_frame _ Hc) as [_ Hl]. unfold write_frame. rewrite (proj2 (Z.leb_le _ _) Hl).
  apply sure_bind; [intros f Hf; split; [exact Hf|by eexists]|intros _].
  repeat (apply sure_bind; [first [apply sure_seek|apply sure_write_all|apply sure_sync_all|
    apply sure_for_each; intros pg; apply sure_write_page]|intros _]). apply sure_sync_all.
Qed.

Lemma sure_write_pages pages : Forall page_outside pages -> sure (write_pages crc32 pages true).
Proof.
  intros Hp. unfold write_pages. cbn [negb]. fold (frames_of pages). apply sure_bind.
  - induction (frames_of_ok pages Hp) as [|chunk chunks Hc _ IH]; cbn [for_each].
    + intros g Hg. split; [exact Hg|by eexists].
    + apply sure_bind; [by apply sure_write_frame|intros _; exact IH].
  - intros _. destruct (bool_decide _); [intros g Hg; split; [exact Hg|by eexists]|exact sure_clear].
Qed.

Lemma sure_recover c : exists f, recover_from_dwb crc32 (reopen c None) = (f, Ok tt).
Proof.
  assert (H : exists a, (recover_from_dwb crc32 (reopen c None)).2 = Ok a).
  2:{ destruct H as [[] E]. destruct (recover_from_dwb crc32 (reopen c None)) as [f r]. exists f. by rewrite <-E. }
  set (g := set_cursor dwb_zone_offset (reopen c None)).
  assert (E1 : io file_len (reopen c None) = (reopen c None, Ok (zlen c))) by reflexivity.
  assert (E2 : io (seek dwb_zone_offset) (reopen c None) = (g, Ok tt)) by reflexivity.
  unfold recover_from_dwb. rewrite (eff_bind_ok _ _ _ _ _ E1).
  destruct (Z.ltb_spec (zlen c) (dwb_zone_offset + DWB_ZONE_BYTES)) as [Hl|Hl]; [by eexists|].
  assert (E3 : io (read_exact DWB_ZONE_BYTES) g = (set_cursor (dwb_zone_offset + DWB_ZONE_BYTES) g, Ok (zone c))).
  { unfold io, eff_map_err, read_exact, attempt, g. cbn [faults reopen set_cursor cursor].
    change (live (set_cursor dwb_zone_offset (reopen c None))) with c. by rewrite (proj2 (Z.leb_le _ _) Hl), zone_slice. }
  rewrite (eff_bind_ok _ _ _ _ _ E2), (eff_bind_ok _ _ _ _ _ E3).
  set (f := set_cursor _ g). assert (Hf : faults f = None) by reflexivity. clearbody f.
  destruct (negb _); [destruct (dwb_zone_is_clear _ _); [by eexists|]; apply sure_clear; exact Hf|].
  destruct (decode_paged_dwb_frame crc32 _) as [es| |]; [|apply sure_clear; exact Hf..].
  apply (sure_bind (for_each es (fun e => write_page (dwb_page_id e) (dwb_page e))) (fun _ => _ ← io sync_all; clear_dwb_zone crc32));
    [apply sure_for_each; intros e; apply sure_write_page|intros _|exact Hf].
  apply sure_bind; [apply sure_sync_all|intros _; exact sure_clear].
Qed.

(** *** The theorems *)

(** A file at rest, with room for the zone and no frame in it *)
Lemma rest_settled f :
  zone_end <= zlen (stable f) -> frame_pages (zone (stable f)) = None -> settled (stable f) (stable f).
Proof.
  intros Hl E. assert (Es : staged (stable f) = []) by (unfold staged; by rewrite E).
  split; [|reflexivity]. split; [exact Hl|]. unfold recovered. rewrite Es, put_pages_nil. by split; [constructor|].
Qed.

(** Recovery of a sound file *)
Lemma recover_sound h c :
  sound h c ->
  exists g, recover_from_dwb crc32 (reopen c None) = (g, Ok tt) /\ unsynced g = [] /\
    same_homes (stable g) h /\ staged (stable g) = [].
Proof.
  intros Hs. destruct (sure_recover c) as [g E]. exists g. split; [exact E|].
  destruct (safe_recover h c (fun _ => True) Hs (clears_any h c) (fun _ _ => I) (reopen c None)) as [_ H].
  { split; reflexivity. }
  rewrite E in H. destruct (H tt eq_refl) as (H1 & H2 & H3). split; [exact H1|]. split; [exact (proj2 H2)|exact H3].
Qed.

(** C17. Whatever operation of a double-written batch fails, and whatever part of the unsynced
    bytes a crash then loses, recovery of the file ends without error in a file whose
    pages outside the zone are those before the batch with the pages of the first [k]
    frames written, each frame as a whole; all of them when the batch had returned.  The only
    exception is a batch that had not returned and a crash that left in the zone a mixture of
    two of its consecutive contents which passes the checksum by accident. *)
Theorem dwb_crash_atomic f pages c :
  unsynced f = [] -> zone_end <= zlen (stable f) -> frame_pages (zone (stable f)) = None ->
  Forall page_outside pages -> crash_image (write_pages crc32 pages true f).1 c ->
  (exists k g, (k <= length (frames_of pages))%nat /\
    ((write_pages crc32 pages true f).2 = Ok tt -> concat (take k (frames_of pages)) = pages) /\
    recover_from_dwb crc32 (reopen c None) = (g, Ok tt) /\ unsynced g = [] /\
    same_homes (stable g) (put_pages (concat (take k (frames_of pages))) (stable f)) /\ staged (stable g) = []) \/
  ((write_pages crc32 pages true f).2 <> Ok tt /\ undetected_in (zone (stable f)) (frames_of pages) (zone c)).
Proof.
  intros Hu Hl E Hp Hc.
  destruct (safe_write_pages _ _ pages (rest_settled f Hl E) Hp f (conj eq_refl Hu)) as [HC HQ].
  destruct (write_pages crc32 pages true f) as [f' r]. cbn [fst snd] in *.
  assert (Hk : (exists k, (k <= length (frames_of pages))%nat /\ (r = Ok tt -> concat (take k (frames_of pages)) = pages) /\
    sound (put_pages (concat (take k (frames_of pages))) (stable f)) c) \/
    (r <> Ok tt /\ undetected_in (zone (stable f)) (frames_of pages) (zone c))).
  { destruct r as [[]|e|].
    2, 3: destruct (HC c Hc) as [(k & Hk & Hs)|H]; [left; exists k; split; [exact Hk|]; split; [by intros|exact Hs]|right; by split].
    left. destruct (HQ tt eq_refl) as (s' & Ha & Hs'). exists (length (frames_of pages)).
    rewrite firstn_all, concat_frames_of. split; [lia|]. split; [done|].
    exact (proj1 (settled_images _ _ _ Hs' (images_self _ _ _ _ Ha Hc))). }
  destruct Hk as [(k & Hk & Hr & Hs)|H]; [left|right; exact H]. destruct (recover_sound _ _ Hs) as (g & H). exists k, g.
  split; [exact Hk|]. split; [exact Hr|exact H].
Qed.

(** C18. Recovery may itself fail or crash at any operation: the next recovery ends in the
    pages that an undisturbed first one would have left, unless the crash left a half-cleared
    zone that passes the checksum by accident. *)
Theorem dwb_recovery_restartable c x c' :
  zone_end <= zlen c -> Forall page_outside (staged c) ->
  crash_image (recover_from_dwb crc32 (reopen c x)).1 c' ->
  (exists g, recover_from_dwb crc32 (reopen c' None) = (g, Ok tt) /\ unsynced g = [] /\
    same_homes (stable g) (recovered c) /\ staged (stable g) = []) \/
  undetected (zone c) (cleared_zone (zone c)) (zone c').
Proof.
  intros Hl Hp Hc.
  assert (Hs : sound (recovered c) c) by (split; [exact Hl|split; [exact Hp|reflexivity]]).
  destruct (safe_recover _ c _ Hs (clears_torn _ c) (fun _ H => or_introl H) (reopen c x) (conj eq_refl eq_refl)) as [H _].
  destruct (H c' Hc) as [H1|H1]; [left; exact (recover_sound _ _ H1)|right; exact H1].
Qed.

(** C36. Without a fault a double-written batch returns, and everything is synced. *)
Theorem dwb_batch_durable f pages :
  faults f = None -> unsynced f = [] -> zone_end <= zlen (stable f) -> frame_pages (zone (stable f)) = None ->
  Forall page_outside pages ->
  exists g, write_pages crc32 pages true f = (g, Ok tt) /\ unsynced g = [] /\
    same_homes (stable g) (put_pages pages (stable f)).
Proof.
  intros Hf Hu Hl E Hp.
  pose proof (sure_write_pages pages Hp) as Hsure.
  destruct (Hsure f Hf) as [_ [[] Er]].
  destruct (safe_write_pages _ _ pages (rest_settled f Hl E) Hp f (conj eq_refl Hu)) as [_ HQ].
  destruct (HQ tt Er) as (s' & [E1 E2] & Hs'). destruct (write_pages crc32 pages true f) as [g r]. cbn [fst snd] in *.
  exists g. rewrite Er. split; [reflexivity|]. split; [exact E2|]. rewrite E1. exact (proj2 Hs').
Qed.

End recovery.

(** ** Witnesses *)

Module Sample.

Definition page : Z * bytes := (67, zeros 16384).

Definition empty : bytes := zeros zone_end.

(** A file that fails while the frame is staged, after a hundred of its bytes *)
Definition file : File := {| stable := empty; unsynced := []; cursor := 0; faults := Some (1, 100)%nat |}.

End Sample.

Lemma sample_page_outside : Forall page_outside [Sample.page].
Proof. apply Forall_singleton. split; [|cbn; change FIRST_ALLOCATABLE_PAGE with 67; lia]. split; [done|]. by apply zlen_zeros. Qed.

Lemma sample_chunk_ok : chunk_ok [Sample.page].
Proof. split; [exact sample_page_outside|done]. Qed.

Lemma sample_empty_byte i : file_byte Sample.empty i = 0.
Proof.
  pose proof (file_byte_zeros [] zone_end i) as E. rewrite app_nil_l in E. unfold Sample.empty. rewrite E.
  unfold file_byte, zget. destruct (i <? 0); reflexivity.
Qed.

Lemma sample_zlen_empty : zlen Sample.empty = zone_end.
Proof. apply zlen_zeros. change zone_end with 1097728. lia. Qed.

Lemma sample_no_frame crc : frame_pages crc (zone Sample.empty) = None.
Proof.
  apply frame_pages_magic. intros E.
  pose proof (file_byte_slice (zone Sample.empty) 0 4 0 ltac:(lia) ltac:(lia) ltac:(lia)) as E0.
  rewrite E, file_byte_zone, sample_empty_byte in E0 by (change DWB_ZONE_BYTES with 1048576; lia). discriminate E0.
Qed.

(** A zone without a frame is no undetected tear. *)
Lemma no_frame_detected crc z z' m : frame_pages crc m = None -> ~ undetected crc z z' m.
Proof. intros E (_ & _ & ps & E' & _). congruence. Qed.

Lemma no_frame_detected_in crc z chunks m : frame_pages crc m = None -> ~ undetected_in crc z chunks m.
Proof.
  intros E. revert z. induction chunks as [|chunk chunks IH]; intros z; [by apply no_frame_detected|].
  intros [H|H]; [by eapply no_frame_detected|by eapply IH].
Qed.

Lemma sample_frames : frames_of [Sample.page] = [[Sample.page]].
Proof. reflexivity. Qed.

(** The state after the fault: a hundred bytes of the frame *)
Definition sample_failed : File :=
  {| stable := Sample.empty; unsynced := [(dwb_zone_offset, take 100 (encode_paged_dwb_frame byte_sum [Sample.page]))];
     cursor := dwb_zone_offset + zlen (take 100 (encode_paged_dwb_frame byte_sum [Sample.page])); faults := Some (0, 100)%nat |}.

Lemma sample_write_fails :
  write_pages byte_sum [Sample.page] true Sample.file = (sample_failed, Err (IoFailed "i/o error")).
Proof.
  pose proof (zlen_frame byte_sum _ sample_chunk_ok) as [_ Hl]. apply Z.leb_le in Hl.
  unfold write_pages. cbn [negb]. fold (frames_of [Sample.page]). rewrite sample_frames. cbn [for_each].
  unfold write_frame. rewrite Hl. reflexivity.
Qed.

(** The crash loses the hundred bytes. *)
Lemma dwb_crash_atomic_witness :
  exists k g, (k <= 1)%nat /\ recover_from_dwb byte_sum (reopen Sample.empty None) = (g, Ok tt) /\
    same_homes (stable g) (put_pages (concat (take k [[Sample.page]])) Sample.empty).
Proof.
  destruct (dwb_crash_atomic byte_sum byte_sum_u32 Sample.file [Sample.page] Sample.empty eq_refl) as [(k & g & H)|[_ H]].
  - change (stable Sample.file) with Sample.empty. rewrite sample_zlen_empty. lia.
  - exact (sample_no_frame byte_sum).
  - exact sample_page_outside.
  - rewrite sample_write_fails. split; [apply Z.le_refl|]. intros i _. left. reflexivity.
  - exists k, g. destruct H as (H1 & _ & H2 & _ & H3 & _). rewrite sample_frames in H1, H3.
    split; [exact H1|]. split; [exact H2|exact H3].
  - destruct (no_frame_detected_in byte_sum _ _ _ (sample_no_frame byte_sum) H).
Defined.

(** The frame of the sample in the zone of a file on which recovery fails at its first operation *)
#[local] Abbreviation sample_crashed := (apply_writes [frame_write byte_sum [Sample.page]] Sample.empty).

Lemma sample_settled : settled byte_sum Sample.empty Sample.empty.
Proof.
  apply (rest_settled byte_sum Sample.file); [|exact (sample_no_frame byte_sum)].
  change (stable Sample.file) with Sample.empty. rewrite sample_zlen_empty. lia.
Qed.

Lemma crash_image_reopen c x : crash_image (reopen c x) c.
Proof. split; [apply Z.le_refl|]. intros i _. left. reflexivity. Qed.

Lemma recover_fails crc c :
  recover_from_dwb crc (reopen c (Some (0, 0)%nat)) = (reopen c (Some (0, 0)%nat), Err (IoFailed "i/o error")).
Proof. reflexivity. Qed.

(** A zone that did not change is no undetected tear. *)
Lemma same_detected crc z z' : ~ undetected crc z z' z.
Proof. intros (_ & _ & ps & E1 & E2 & _). exact (E2 E1). Qed.

Lemma dwb_recovery_restartable_witness :
  exists g, recover_from_dwb byte_sum (reopen sample_crashed None) = (g, Ok tt) /\
    same_homes (stable g) (put_pages [Sample.page] sample_crashed).
Proof.
  destruct (framed_ok byte_sum byte_sum_u32 _ _ _ sample_settled sample_chunk_ok) as (Hl & Es & _).
  destruct (dwb_recovery_restartable byte_sum sample_crashed (Some (0, 0)%nat) sample_crashed Hl) as [(g & H1 & _ & H2 & _)|H].
  - rewrite Es. exact sample_page_outside.
  - rewrite recover_fails. apply crash_image_reopen.
  - exists g. unfold recovered in H2. rewrite Es in H2. split; [exact H1|exact H2].
  - destruct (same_detected _ _ _ H).
Defined.

Lemma dwb_batch_durable_witness :
  exists g, write_pages byte_sum [Sample.page] true (reopen Sample.empty None) = (g, Ok tt) /\
    same_homes (stable g) (put_pages [Sample.page] Sample.empty).
Proof.
  destruct (dwb_batch_durable byte_sum byte_sum_u32 (reopen Sample.empty None) [Sample.page] eq_refl eq_refl) as (g & H1 & _ & H2).
  - change (stable (reopen Sample.empty None)) with Sample.empty. rewrite sample_zlen_empty. lia.
  - exact (sample_no_frame byte_sum).
  - exact sample_page_outside.
  - exists g. split; [exact H1|exact H2].
Defined.
