(* ===== verification/PageCache.v ===== *)
(** * The page cache ([crates/reddb-engine/src/storage/page_cache.rs])

    A cache of pages with SIEVE eviction: a queue of the cached numbers in the order of
    their insertion, a hand that moves along it, and a bit for every slot that a hit sets
    and the hand clears.  The cache is divided into eight shards by the low bits of the
    page number.  The model is the cache as one thread sees it: the locks and the relaxed
    loads and stores of the bits are plain reads and writes. *)

From S2P Require Import Prelude.
From Stdlib Require Import ZArith Lia.

(** ** Entries and slot metadata *)

Definition MIN_CACHE_CAPACITY : nat := 2.
Definition NUM_SHARDS : nat := 8.

(** The tag of a slot without a page *)
Definition TAG_EMPTY : Z := U32_MAX.

Record CacheEntry : Type := {
  entry_id : Z;
  entry_page : bytes;
  pin_count : nat;
  dirty : bool;
}.

Definition CacheEntry_new (page_id : Z) (page : bytes) (dirty : bool) : CacheEntry :=
  {| entry_id := page_id; entry_page := page; pin_count := 0; dirty := dirty |}.

(** The two arrays have one element for each slot below the capacity. *)
Record ShardMeta : Type := { visited : list bool; tag : list Z }.

Definition ShardMeta_new (capacity : nat) : ShardMeta :=
  {| visited := replicate capacity false; tag := replicate capacity TAG_EMPTY |}.

Definition mark_visited (slot : nat) (m : ShardMeta) : ShardMeta :=
  {| visited := <[slot := true]> (visited m); tag := tag m |}.
Definition is_visited (m : ShardMeta) (slot : nat) : bool := default false (visited m !! slot).
Definition clear_visited (slot : nat) (m : ShardMeta) : ShardMeta :=
  {| visited := <[slot := false]> (visited m); tag := tag m |}.
Definition tag_at (m : ShardMeta) (slot : nat) : Z := default TAG_EMPTY (tag m !! slot).
Definition occupy (slot : nat) (page_id : Z) (m : ShardMeta) : ShardMeta :=
  clear_visited slot {| visited := visited m; tag := <[slot := page_id]> (tag m) |}.
Definition vacate (slot : nat) (m : ShardMeta) : ShardMeta :=
  clear_visited slot {| visited := visited m; tag := <[slot := TAG_EMPTY]> (tag m) |}.
Definition reset (m : ShardMeta) : ShardMeta :=
  {| visited := replicate (length (visited m)) false; tag := replicate (length (tag m)) TAG_EMPTY |}.

Record CacheStats : Type := { hits : Z; misses : Z; evictions : Z; writebacks : Z }.
Definition CacheStats_default : CacheStats := {| hits := 0; misses := 0; evictions := 0; writebacks := 0 |}.

Definition add_hit (x : CacheStats) : CacheStats :=
  {| hits := hits x + 1; misses := misses x; evictions := evictions x; writebacks := writebacks x |}.
Definition add_miss (x : CacheStats) : CacheStats :=
  {| hits := hits x; misses := misses x + 1; evictions := evictions x; writebacks := writebacks x |}.
Definition add_eviction (x : CacheStats) : CacheStats :=
  {| hits := hits x; misses := misses x; evictions := evictions x + 1; writebacks := writebacks x |}.
Definition add_writebacks (n : nat) (x : CacheStats) : CacheStats :=
  {| hits := hits x; misses := misses x; evictions := evictions x; writebacks := writebacks x + Z.of_nat n |}.

(** ** A shard; the last free slot comes first in [free_slots] *)

Record PageCacheShard : Type := {
  capacity : nat;
  index : gmap Z nat;
  fifo : list Z;
  entries : list (option CacheEntry);
  meta : ShardMeta;
  free_slots : list nat;
  hand : nat;
  stats : CacheStats;
}.

Definition PageCacheShard_new (n : nat) : PageCacheShard :=
  let n := Nat.max n MIN_CACHE_CAPACITY in
  {| capacity := n; index := ∅; fifo := []; entries := []; meta := ShardMeta_new n; free_slots := [];
     hand := 0; stats := CacheStats_default |}.

Definition set_index (x : gmap Z nat) (s : PageCacheShard) : PageCacheShard :=
  {| capacity := capacity s; index := x; fifo := fifo s; entries := entries s; meta := meta s;
     free_slots := free_slots s; hand := hand s; stats := stats s |}.
Definition set_fifo (x : list Z) (s : PageCacheShard) : PageCacheShard :=
  {| capacity := capacity s; index := index s; fifo := x; entries := entries s; meta := meta s;
     free_slots := free_slots s; hand := hand s; stats := stats s |}.
Definition set_entries (x : list (option CacheEntry)) (s : PageCacheShard) : PageCacheShard :=
  {| capacity := capacity s; index := index s; fifo := fifo s; entries := x; meta := meta s;
     free_slots := free_slots s; hand := hand s; stats := stats s |}.
Definition set_meta (x : ShardMeta) (s : PageCacheShard) : PageCacheShard :=
  {| capacity := capacity s; index := index s; fifo := fifo s; entries := entries s; meta := x;
     free_slots := free_slots s; hand := hand s; stats := stats s |}.
Definition set_free_slots (x : list nat) (s : PageCacheShard) : PageCacheShard :=
  {| capacity := capacity s; index := index s; fifo := fifo s; entries := entries s; meta := meta s;
     free_slots := x; hand := hand s; stats := stats s |}.
Definition set_hand (x : nat) (s : PageCacheShard) : PageCacheShard :=
  {| capacity := capacity s; index := index s; fifo := fifo s; entries := entries s; meta := meta s;
     free_slots := free_slots s; hand := x; stats := stats s |}.
Definition set_stats (x : CacheStats) (s : PageCacheShard) : PageCacheShard :=
  {| capacity := capacity s; index := index s; fifo := fifo s; entries := entries s; meta := meta s;
     free_slots := free_slots s; hand := hand s; stats := x |}.

(** No operation of the cache returns an error; an assertion can fail. *)
Abbreviation cache_op S A := (eff S Empty_set A).

(** [entries.get(slot).and_then(|e| e.as_ref())] *)
Definition entry_at (s : PageCacheShard) (slot : nat) : option CacheEntry := mjoin (entries s !! slot).

Definition len (s : PageCacheShard) : nat := size (index s).
Definition is_empty (s : PageCacheShard) : bool := (len s =? 0)%nat.

Definition shard_get (page_id : Z) : cache_op PageCacheShard (option bytes) := fun s =>
  let miss := (set_stats (add_miss (stats s)) s, Ok None) in
  match index s !! page_id with
  | None => miss
  | Some slot =>
      match entry_at s slot with
      | Some entry =>
          if entry_id entry =? page_id then
            let s := if tag_at (meta s) slot =? page_id then set_meta (mark_visited slot (meta s)) s else s in
            (set_stats (add_hit (stats s)) s, Ok (Some (entry_page entry)))
          else miss
      | None => miss
      end
  end.

(** What [evict] does with the entry it has chosen *)
Definition take_entry (page_id : Z) (slot : nat) (entry : CacheEntry) (s : PageCacheShard) : PageCacheShard :=
  let s := set_entries (<[slot := None]> (entries s)) s in
  let s := set_meta (vacate slot (meta s)) s in
  let s := set_index (base.delete page_id (index s)) s in
  let s := set_fifo (base.delete (hand s) (fifo s)) s in
  let s := set_free_slots (slot :: free_slots s) s in
  set_stats (if dirty entry then add_writebacks 1 (add_eviction (stats s)) else add_eviction (stats s)) s.

(** The sweep; [attempts] are those that are left.  Between the choice of an entry and
    its removal nothing happens, so the second look at the pin count is the first. *)
Fixpoint evict_loop (attempts fifo_len : nat) (s : PageCacheShard) : PageCacheShard * result Empty_set (option bytes) :=
  match attempts with
  | O => (s, Ok None)
  | Datatypes.S attempts =>
      let s := if (fifo_len <=? hand s)%nat then set_hand 0 s else s in
      match fifo s !! hand s with
      | None => (s, Panic)
      | Some page_id =>
          let skip s := evict_loop attempts fifo_len (set_hand (hand s + 1) s) in
          match index s !! page_id with
          | None => skip s
          | Some slot =>
              match entry_at s slot with
              | None => skip s
              | Some entry =>
                  if (0 <? pin_count entry)%nat || is_visited (meta s) slot
                  then skip (set_meta (clear_visited slot (meta s)) s)
                  else if negb (entry_id entry =? page_id) then (s, Panic)
                  else (take_entry page_id slot entry s, Ok (if dirty entry then Some (entry_page entry) else None))
              end
          end
      end
  end.

Definition evict : cache_op PageCacheShard (option bytes) := fun s =>
  if bool_decide (fifo s = []) then (s, Ok None)
  else evict_loop (length (fifo s) * 2) (length (fifo s)) s.

(** The slot of a new entry: a free one, or a new one *)
Definition take_slot (s : PageCacheShard) : PageCacheShard * nat :=
  match free_slots s with
  | slot :: free => (set_free_slots free s, slot)
  | [] => (set_entries (entries s ++ [None]) s, length (entries s))
  end.

(** A new entry: slots up to it, the entry, its number in the index, the metadata and the queue *)
Definition place_entry (page_id : Z) (page : bytes) (is_dirty : bool) (slot : nat) (s : PageCacheShard) : PageCacheShard :=
  let padded := entries s ++ replicate (slot + 1 - length (entries s)) None in
  let s := set_entries (<[slot := Some (CacheEntry_new page_id page is_dirty)]> padded) s in
  let s := set_index (<[page_id := slot]> (index s)) s in
  let s := set_meta (occupy slot page_id (meta s)) s in
  set_fifo (fifo s ++ [page_id]) s.

Definition add_entry (page_id : Z) (page : bytes) (is_dirty : bool) : cache_op PageCacheShard unit := fun s =>
  let '(s, slot) := take_slot s in (place_entry page_id page is_dirty slot s, Ok tt).

Definition make_room : cache_op PageCacheShard (option bytes) := fun s =>
  if (capacity s <=? len s)%nat then evict s else (s, Ok None).

Definition insert_absent (page_id : Z) (page : bytes) (is_dirty : bool) : cache_op PageCacheShard (option bytes) :=
  evicted ← make_room;
  _ ← add_entry page_id page is_dirty;
  mret evicted.

Definition insert_inner (page_id : Z) (page : bytes) (is_dirty replace_existing : bool)
    : cache_op PageCacheShard (option bytes) := fun s =>
  match index s !! page_id with
  | Some slot =>
      let s :=
        match entry_at s slot with
        | Some entry =>
            if replace_existing
            then set_entries (<[slot := Some {| entry_id := entry_id entry; entry_page := page;
                   pin_count := pin_count entry; dirty := dirty entry || is_dirty |}]> (entries s)) s
            else s
        | None => s
        end in
      (set_meta (mark_visited slot (meta s)) s, Ok None)
  | None =>
      insert_absent page_id page is_dirty s
  end.

Definition shard_insert (page_id : Z) (page : bytes) : cache_op PageCacheShard (option bytes) :=
  insert_inner page_id page false true.
Definition shard_insert_dirty (page_id : Z) (page : bytes) : cache_op PageCacheShard (option bytes) :=
  insert_inner page_id page true true.
Definition shard_insert_if_absent (page_id : Z) (page : bytes) : cache_op PageCacheShard (option bytes) :=
  insert_inner page_id page false false.

(** The entry of a page that is cached, or [None] *)
Definition owned_entry (page_id : Z) (s : PageCacheShard) : option (nat * CacheEntry) :=
  slot ← index s !! page_id;
  entry ← entry_at s slot;
  if entry_id entry =? page_id then Some (slot, entry) else None.

Definition set_dirty (is_dirty : bool) (e : CacheEntry) : CacheEntry :=
  {| entry_id := entry_id e; entry_page := entry_page e; pin_count := pin_count e; dirty := is_dirty |}.
Definition set_pins (pins : nat) (e : CacheEntry) : CacheEntry :=
  {| entry_id := entry_id e; entry_page := entry_page e; pin_count := pins; dirty := dirty e |}.
Definition put_entry (slot : nat) (e : CacheEntry) (s : PageCacheShard) : PageCacheShard :=
  set_entries (<[slot := Some e]> (entries s)) s.

Definition shard_mark_dirty (page_id : Z) : cache_op PageCacheShard unit := fun s =>
  match owned_entry page_id s with
  | Some (slot, e) => (put_entry slot (set_dirty true e) s, Ok tt)
  | None => (s, Ok tt)
  end.

Definition shard_mark_clean (page_id : Z) : cache_op PageCacheShard unit := fun s =>
  match owned_entry page_id s with
  | Some (slot, e) => (put_entry slot (set_dirty false e) s, Ok tt)
  | None => (s, Ok tt)
  end.

Definition shard_pin (page_id : Z) : cache_op PageCacheShard bool := fun s =>
  match owned_entry page_id s with
  | Some (slot, e) => (put_entry slot (set_pins (pin_count e + 1) e) s, Ok true)
  | None => (s, Ok false)
  end.

Definition shard_unpin (page_id : Z) : cache_op PageCacheShard bool := fun s =>
  match owned_entry page_id s with
  | Some (slot, e) =>
      if (0 <? pin_count e)%nat then (put_entry slot (set_pins (pin_count e - 1) e) s, Ok true) else (s, Ok false)
  | None => (s, Ok false)
  end.

Definition shard_remove (page_id : Z) : cache_op PageCacheShard (option bytes) := fun s =>
  match index s !! page_id with
  | None => (s, Ok None)
  | Some slot =>
      let s := set_index (base.delete page_id (index s)) s in
      let entry := entry_at s slot in
      let s := set_entries (<[slot := None]> (entries s)) s in
      let s := set_meta (vacate slot (meta s)) s in
      let s := set_fifo (filter (fun id => id <> page_id) (fifo s)) s in
      let s := set_free_slots (slot :: free_slots s) s in
      (s, Ok (entry_page <$> entry))
  end.

Definition take_dirty_page (page_id : Z) : cache_op PageCacheShard (option bytes) := fun s =>
  match (slot ← index s !! page_id; entry ← entry_at s slot; Some (slot, entry)) with
  | Some (slot, e) =>
      if dirty e
      then (set_stats (add_writebacks 1 (stats s)) (put_entry slot (set_dirty false e) s), Ok (Some (entry_page e)))
      else (s, Ok None)
  | None => (s, Ok None)
  end.

Definition shard_clear : cache_op PageCacheShard unit := fun s =>
  (set_hand 0 (set_meta (reset (meta s)) (set_free_slots [] (set_fifo [] (set_entries [] (set_index ∅ s))))), Ok tt).

Definition shard_reset_stats : cache_op PageCacheShard unit := fun s => (set_stats CacheStats_default s, Ok tt).

Definition shard_contains (page_id : Z) (s : PageCacheShard) : bool := bool_decide (is_Some (index s !! page_id)).

(** ** The order in which a hash map is traversed is not specified *)

Section iteration.
Context (iter : gmap Z nat -> list (Z * nat)).

(** The dirty pages in the order of the traversal *)
Definition dirty_list (s : PageCacheShard) : list (Z * bytes) :=
  omap (fun '(page_id, slot) =>
    match entry_at s slot with
    | Some entry => if dirty entry then Some (page_id, entry_page entry) else None
    | None => None
    end) (iter (index s)).

Definition count_writebacks (n : nat) : cache_op PageCacheShard unit := fun s =>
  (set_stats (add_writebacks n (stats s)) s, Ok tt).

(** The pages that were collected are marked clean and counted. *)
Definition clean_all (pages : list (Z * bytes)) : cache_op PageCacheShard (list (Z * bytes)) :=
  _ ← for_each pages (fun pg => shard_mark_clean pg.1);
  _ ← count_writebacks (length pages);
  mret pages.

Definition shard_flush_dirty : cache_op PageCacheShard (list (Z * bytes)) := fun s => clean_all (dirty_list s) s.

Definition shard_flush_some_dirty (max : nat) : cache_op PageCacheShard (list (Z * bytes)) := fun s =>
  if (max =? 0)%nat then (s, Ok []) else clean_all (take max (dirty_list s)) s.

Definition shard_dirty_count (s : PageCacheShard) : nat := length (dirty_list s).
Definition shard_page_ids (s : PageCacheShard) : list Z := (iter (index s)).*1.
Definition shard_dirty_page_ids (max : nat) (s : PageCacheShard) : list Z := take max (dirty_list s).*1.

End iteration.

(** ** The cache *)

Record PageCache : Type := { shards : list PageCacheShard; total_capacity : nat }.

Definition PageCache_new (n : nat) : PageCache :=
  let per_shard := Nat.max (Nat.div (n + (NUM_SHARDS - 1)) NUM_SHARDS) MIN_CACHE_CAPACITY in
  {| shards := replicate NUM_SHARDS (PageCacheShard_new per_shard); total_capacity := per_shard * NUM_SHARDS |}.

Definition shard_for (page_id : Z) : nat := Z.to_nat (Z.land page_id (Z.of_nat NUM_SHARDS - 1)).

(** An operation on the shard at [i] *)
Definition at_shard {A} (i : nat) (m : cache_op PageCacheShard A) : cache_op PageCache A := fun c =>
  match shards c !! i with
  | Some s => let '(s, r) := m s in ({| shards := <[i := s]> (shards c); total_capacity := total_capacity c |}, r)
  | None => (c, Panic)
  end.

Definition on_shard {A} (page_id : Z) (m : cache_op PageCacheShard A) : cache_op PageCache A := at_shard (shard_for page_id) m.

Definition cache_get (page_id : Z) : cache_op PageCache (option bytes) := on_shard page_id (shard_get page_id).
Definition cache_insert (page_id : Z) (page : bytes) : cache_op PageCache (option bytes) :=
  on_shard page_id (shard_insert page_id page).
Definition cache_insert_dirty (page_id : Z) (page : bytes) : cache_op PageCache (option bytes) :=
  on_shard page_id (shard_insert_dirty page_id page).
Definition cache_insert_if_absent (page_id : Z) (page : bytes) : cache_op PageCache (option bytes) :=
  on_shard page_id (shard_insert_if_absent page_id page).
Definition cache_mark_dirty (page_id : Z) : cache_op PageCache unit := on_shard page_id (shard_mark_dirty page_id).
Definition cache_mark_clean (page_id : Z) : cache_op PageCache unit := on_shard page_id (shard_mark_clean page_id).
Definition cache_pin (page_id : Z) : cache_op PageCache bool := on_shard page_id (shard_pin page_id).
Definition cache_unpin (page_id : Z) : cache_op PageCache bool := on_shard page_id (shard_unpin page_id).
Definition cache_remove (page_id : Z) : cache_op PageCache (option bytes) := on_shard page_id (shard_remove page_id).
Definition cache_len (c : PageCache) : nat := sum_list_with len (shards c).
Definition cache_clear : cache_op PageCache unit := for_each (seq 0 NUM_SHARDS) (fun i => at_shard i shard_clear).

Definition cache_reset_stats : cache_op PageCache unit := for_each (seq 0 NUM_SHARDS) (fun i => at_shard i shard_reset_stats).

(** Only the dirty ones of the pages that are asked for *)
Fixpoint flush_dirty_pages (page_ids : list Z) : cache_op PageCache (list (Z * bytes)) :=
  match page_ids with
  | [] => mret []
  | page_id :: page_ids =>
      page ← on_shard page_id (take_dirty_page page_id);
      pages ← flush_dirty_pages page_ids;
      mret (match page with Some page => (page_id, page) :: pages | None => pages end)
  end.

Section cache_iteration.
Context (iter : gmap Z nat -> list (Z * nat)).

(** The loops over the shards, [i] being the next one *)
Fixpoint flush_shards (n i : nat) : cache_op PageCache (list (Z * bytes)) :=
  match n with
  | O => mret []
  | Datatypes.S n =>
      pages ← at_shard i (shard_flush_dirty iter);
      rest ← flush_shards n (i + 1);
      mret (pages ++ rest)
  end.

Definition cache_flush_dirty : cache_op PageCache (list (Z * bytes)) := flush_shards NUM_SHARDS 0.

Fixpoint flush_some_shards (n i max : nat) (out : list (Z * bytes)) : cache_op PageCache (list (Z * bytes)) :=
  match n with
  | O => mret out
  | Datatypes.S n =>
      if (max <=? length out)%nat then mret out
      else
        pages ← at_shard i (shard_flush_some_dirty iter (max - length out));
        flush_some_shards n (i + 1) max (out ++ pages)
  end.

Definition cache_flush_some_dirty (max : nat) : cache_op PageCache (list (Z * bytes)) :=
  if (max =? 0)%nat then mret [] else flush_some_shards NUM_SHARDS 0 max [].

Definition cache_dirty_count (c : PageCache) : nat := sum_list_with (shard_dirty_count iter) (shards c).
Definition cache_page_ids (c : PageCache) : list Z := concat (shard_page_ids iter <$> shards c).

Fixpoint collect_dirty_ids (max : nat) (ids : list Z) (ss : list PageCacheShard) : list Z :=
  match ss with
  | [] => ids
  | s :: ss =>
      if (length ids =? max)%nat then ids
      else collect_dirty_ids max (ids ++ shard_dirty_page_ids iter (max - length ids) s) ss
  end.

Definition cache_dirty_page_ids (max : nat) (c : PageCache) : list Z := collect_dirty_ids max [] (shards c).

End cache_iteration.

(** * The invariant *)

(** Index, slots, queue, free list and tags agree. *)
Record wf (s : PageCacheShard) : Prop := {
  wf_capacity : (MIN_CACHE_CAPACITY <= capacity s)%nat;
  wf_index id slot : index s !! id = Some slot -> exists e, entries s !! slot = Some (Some e) /\ entry_id e = id;
  wf_entries slot e : entries s !! slot = Some (Some e) -> index s !! entry_id e = Some slot;
  wf_fifo_nodup : NoDup (fifo s);
  wf_fifo id : id ∈ fifo s <-> is_Some (index s !! id);
  wf_free_nodup : NoDup (free_slots s);
  wf_free slot : slot ∈ free_slots s <-> entries s !! slot = Some None;
  wf_visited : length (visited (meta s)) = capacity s;
  wf_tag_length : length (tag (meta s)) = capacity s;
  wf_tag slot : (slot < capacity s)%nat -> tag_at (meta s) slot = from_option entry_id TAG_EMPTY (entry_at s slot);
}.

(** The cached pages *)
Definition contents (s : PageCacheShard) : gmap Z CacheEntry := omap (entry_at s) (index s).

Lemma lookup_contents s id : contents s !! id = index s !! id ≫= entry_at s.
Proof. unfold contents. apply lookup_omap. Qed.

Lemma entry_at_Some s slot e : entry_at s slot = Some e <-> entries s !! slot = Some (Some e).
Proof. unfold entry_at. destruct (entries s !! slot) as [[?|]|]; cbn; naive_solver. Qed.

Lemma contents_Some s id e :
  wf s -> contents s !! id = Some e <-> exists slot, index s !! id = Some slot /\ entries s !! slot = Some (Some e) /\ entry_id e = id.
Proof.
  intros W. rewrite lookup_contents, bind_Some. split.
  - intros (slot & E1 & E2%entry_at_Some). destruct (wf_index s W id slot E1) as (e' & E' & Hid).
    exists slot. split_and!; [done|done|]. congruence.
  - intros (slot & E1 & E2 & _). exists slot. by rewrite entry_at_Some.
Qed.

Lemma contents_None s id : wf s -> contents s !! id = None <-> index s !! id = None.
Proof.
  intros W. rewrite lookup_contents, bind_None. split; [|by left].
  intros [?|(slot & E1 & E2)]; [done|]. destruct (wf_index s W id slot E1) as (e & E & _).
  apply entry_at_Some in E. congruence.
Qed.

Lemma contents_id s id e : wf s -> contents s !! id = Some e -> entry_id e = id.
Proof. intros W H. by apply contents_Some in H as (slot & _ & _ & ?). Qed.

Lemma dom_contents s : wf s -> dom (contents s) = dom (index s).
Proof.
  intros W. apply set_eq. intros id. rewrite !elem_of_dom, <-!not_eq_None_Some. by rewrite contents_None.
Qed.

Lemma size_contents s : wf s -> size (contents s) = len s.
Proof. intros W. unfold len. by rewrite <-!size_dom, dom_contents. Qed.

Lemma owned_entry_contents s id :
  wf s -> owned_entry id s = match index s !! id with Some slot => (slot,.) <$> contents s !! id | None => None end.
Proof.
  intros W. unfold owned_entry. destruct (index s !! id) as [slot|] eqn:E; cbn; [|done].
  destruct (wf_index s W id slot E) as (e & E2 & Hid).
  rewrite (proj2 (entry_at_Some s slot e) E2). cbn. rewrite (proj2 (Z.eqb_eq _ _) Hid).
  by rewrite (proj2 (contents_Some s id e W)) by eauto.
Qed.

(** A new value for an entry *)
Lemma put_entry_ok s id slot e e' :
  wf s -> index s !! id = Some slot -> contents s !! id = Some e -> entry_id e' = id ->
  wf (put_entry slot e' s) /\ contents (put_entry slot e' s) = <[id := e']> (contents s).
Proof.
  intros W Ei Ec Hid. apply contents_Some in Ec as (slot' & Ei' & Es & He); [|done].
  assert (slot' = slot) as -> by congruence. pose proof (lookup_lt_Some _ _ _ Es) as Hlt.
  assert (Hinj : forall id', index s !! id' = Some slot -> id' = id).
  { intros id' E'. destruct (wf_index s W id' slot E') as (e2 & E2 & <-). congruence. }
  split.
  - destruct W as [W1 W2 W3 W4 W5 W6 W7 W8 W9 W10]. split; cbn; [done| | |done|done|done| |done|done|].
    + intros id' slot' E'. destruct (decide (slot' = slot)) as [->|Hne].
      * exists e'. rewrite list_lookup_insert_eq by done. split; [done|]. rewrite Hid. symmetry. by apply Hinj.
      * rewrite list_lookup_insert_ne by done. by apply W2.
    + intros slot' e2. rewrite list_lookup_insert_Some. intros [(<- & [= <-] & _)|[_ E2]]; [by rewrite Hid|by apply W3].
    + intros slot'. rewrite W7. destruct (decide (slot' = slot)) as [->|Hne].
      * rewrite list_lookup_insert_eq by done. split; [congruence|done].
      * by rewrite list_lookup_insert_ne.
    + intros slot' Hs. rewrite W10 by done. unfold entry_at. cbn. destruct (decide (slot' = slot)) as [->|Hne].
      * rewrite list_lookup_insert_eq, Es by done. cbn. congruence.
      * by rewrite list_lookup_insert_ne.
  - apply map_eq. intros id'. rewrite !lookup_contents. cbn. destruct (decide (id' = id)) as [->|Hne].
    + rewrite lookup_insert_eq, Ei. cbn. unfold entry_at. cbn. by rewrite list_lookup_insert_eq.
    + rewrite lookup_insert_ne, lookup_contents by done. destruct (index s !! id') as [slot'|] eqn:E'; [|done].
      cbn. unfold entry_at. cbn. rewrite list_lookup_insert_ne; [done|]. intros <-. apply Hne. by apply Hinj.
Qed.

(** Only the metadata, the hand or the counters change. *)
Definition same_pages (s s' : PageCacheShard) : Prop :=
  index s' = index s /\ fifo s' = fifo s /\ entries s' = entries s /\ free_slots s' = free_slots s /\
  capacity s' = capacity s /\ tag (meta s') = tag (meta s) /\ length (visited (meta s')) = length (visited (meta s)).

Lemma same_pages_ok s s' : same_pages s s' -> wf s -> wf s' /\ contents s' = contents s.
Proof.
  intros (E1 & E2 & E3 & E4 & E5 & E6 & E7) W. split.
  - destruct W as [W1 W2 W3 W4 W5 W6 W7 W8 W9 W10].
    split; rewrite ?E1, ?E2, ?E3, ?E4, ?E5, ?E6, ?E7; try done.
    intros slot Hs. unfold tag_at, entry_at. rewrite E6, E3. by apply W10.
  - unfold contents, entry_at. by rewrite E1, E3.
Qed.

Lemma same_pages_mark s slot : same_pages s (set_meta (mark_visited slot (meta s)) s).
Proof. unfold same_pages. cbn. by rewrite length_insert. Qed.

Lemma same_pages_clear s slot : same_pages s (set_meta (clear_visited slot (meta s)) s).
Proof. unfold same_pages. cbn. by rewrite length_insert. Qed.

Lemma same_pages_stats s x : same_pages s (set_stats x s).
Proof. done. Qed.

Lemma same_pages_hand s x : same_pages s (set_hand x s).
Proof. done. Qed.

#[export] Instance same_pages_preorder : PreOrder same_pages.
Proof.
  split; [done|]. intros a b c (A1 & A2 & A3 & A4 & A5 & A6 & A7) (B1 & B2 & B3 & B4 & B5 & B6 & B7).
  unfold same_pages. by rewrite B1, B2, B3, B4, B5, B6, B7.
Qed.

Lemma shard_get_ok s id :
  wf s ->
  exists s', shard_get id s = (s', Ok (entry_page <$> contents s !! id)) /\ same_pages s s'.
Proof.
  intros W. unfold shard_get. rewrite lookup_contents. destruct (index s !! id) as [slot|] eqn:E; cbn.
  2:{ eexists. split; [done|]. apply same_pages_stats. }
  destruct (wf_index s W id slot E) as (e & E2%entry_at_Some & Hid). rewrite E2, (proj2 (Z.eqb_eq _ _) Hid). cbn.
  eexists. split; [done|]. destruct (_ =? id); [|done]. etrans; [apply same_pages_mark|apply same_pages_stats].
Qed.

(** * Removal and eviction *)

Definition removed (id : Z) (slot : nat) (queue : list Z) (h : nat) (x : CacheStats) (s : PageCacheShard) : PageCacheShard :=
  {| capacity := capacity s; index := base.delete id (index s); fifo := queue; entries := <[slot := None]> (entries s);
     meta := vacate slot (meta s); free_slots := slot :: free_slots s; hand := h; stats := x |}.

Lemma removed_ok s id slot queue h x :
  wf s -> index s !! id = Some slot -> NoDup queue -> (forall j, j ∈ queue <-> j ∈ fifo s /\ j <> id) ->
  wf (removed id slot queue h x s) /\ contents (removed id slot queue h x s) = base.delete id (contents s).
Proof.
  intros W Ei Hq Hj. destruct (wf_index s W id slot Ei) as (e & Es & He). pose proof (lookup_lt_Some _ _ _ Es) as Hlt.
  assert (Hinj : forall id', index s !! id' = Some slot -> id' = id).
  { intros id' E'. destruct (wf_index s W id' slot E') as (e2 & E2 & <-). congruence. }
  assert (Hat : forall slot', slot' <> slot -> entry_at (removed id slot queue h x s) slot' = entry_at s slot').
  { intros slot' Hne. unfold entry_at. cbn. by rewrite list_lookup_insert_ne. }
  split.
  - destruct W as [W1 W2 W3 W4 W5 W6 W7 W8 W9 W10]. split; cbn; [done| | |done| | | |by rewrite length_insert|by rewrite length_insert|].
    + intros id' slot' [Hne E']%lookup_delete_Some. rewrite list_lookup_insert_ne; [by apply W2|].
      intros <-. apply Hne. symmetry. by apply Hinj.
    + intros slot' e2. rewrite list_lookup_insert_Some. intros [(_ & ? & _)|[Hne E2]]; [done|].
      rewrite lookup_delete_ne; [by apply W3|]. intros Hid. apply W3 in E2. rewrite <-Hid in E2. congruence.
    + intros j. rewrite Hj, W5, <-!not_eq_None_Some, lookup_delete_None. naive_solver.
    + constructor; [|done]. rewrite W7. congruence.
    + intros slot'. rewrite elem_of_cons, W7. destruct (decide (slot' = slot)) as [->|Hne].
      * rewrite list_lookup_insert_eq by done. naive_solver.
      * rewrite list_lookup_insert_ne by done. naive_solver.
    + intros slot' Hs. unfold tag_at. cbn. destruct (decide (slot' = slot)) as [->|Hne].
      * rewrite list_lookup_insert_eq by lia. unfold entry_at. cbn. by rewrite list_lookup_insert_eq.
      * rewrite list_lookup_insert_ne, Hat by done. by apply W10.
  - apply map_eq. intros id'. rewrite lookup_contents. cbn. destruct (decide (id' = id)) as [->|Hne].
    + by rewrite !lookup_delete_eq.
    + rewrite !lookup_delete_ne, lookup_contents by done. destruct (index s !! id') as [slot'|] eqn:E'; [|done]. cbn.
      apply Hat. intros ->. apply Hne. by apply Hinj.
Qed.

Lemma delete_nodup (l : list Z) i x :
  NoDup l -> l !! i = Some x -> NoDup (base.delete i l) /\ forall j, j ∈ base.delete i l <-> j ∈ l /\ j <> x.
Proof.
  intros Hn Hx. rewrite delete_take_drop. pose proof (take_drop_middle l i x Hx) as El. revert Hn El.
  generalize (take i l) (drop (Datatypes.S i) l). intros p q Hn <-.
  apply NoDup_app in Hn as (H1 & H2 & [H3 H4]%NoDup_cons). split.
  - apply NoDup_app. split_and!; [done| |done]. intros j Hj. specialize (H2 j Hj). set_solver.
  - intros j. rewrite !elem_of_app, elem_of_cons. split; [|naive_solver].
    intros [Hj|Hj]; [split; [by left|intros ->; specialize (H2 x Hj); set_solver]|split; [by do 2 right|congruence]].
Qed.

(** ** What SIEVE evicts

    [sweep] follows the hand over the numbers [l]; the order is that of the queue from
    the hand on, twice. *)
Fixpoint sweep (pinned vis : Z -> bool) (l : list Z) : option Z :=
  match l with
  | [] => None
  | id :: l => if pinned id || vis id then sweep pinned (fun j => if j =? id then false else vis j) l else Some id
  end.

Fixpoint upcoming (n h : nat) (l : list Z) : list Z :=
  match n with
  | O => []
  | Datatypes.S n =>
      let h := if (length l <=? h)%nat then 0%nat else h in
      match l !! h with Some id => id :: upcoming n (h + 1) l | None => [] end
  end.

Definition is_pinned (s : PageCacheShard) (id : Z) : bool :=
  match contents s !! id with Some e => (0 <? pin_count e)%nat | None => false end.
Definition is_hot (s : PageCacheShard) (id : Z) : bool :=
  match index s !! id with Some slot => is_visited (meta s) slot | None => false end.

(** The queue from the hand on *)
Definition rotation (s : PageCacheShard) : list Z :=
  let h := if (length (fifo s) <=? hand s)%nat then 0%nat else hand s in
  drop h (fifo s) ++ take h (fifo s).

(** The first page that is neither pinned nor visited; when there is none, the first that is not pinned *)
Definition sieve_victim (s : PageCacheShard) : option Z :=
  match head (filter (fun id => is_pinned s id = false /\ is_hot s id = false) (rotation s)) with
  | Some id => Some id
  | None => head (filter (fun id => is_pinned s id = false) (rotation s))
  end.

Definition evicted_of (e : CacheEntry) : option bytes := if dirty e then Some (entry_page e) else None.

Lemma sweep_ext p p' v v' l :
  (forall j, j ∈ l -> p j = p' j) -> (forall j, j ∈ l -> v j = v' j) -> sweep p v l = sweep p' v' l.
Proof.
  revert v v'. induction l as [|id l IH]; intros v v' Hp Hv; cbn; [done|].
  rewrite (Hp id), (Hv id) by (by left). destruct (p' id || v' id); [|done].
  apply IH; [intros j Hj; apply Hp; by right|]. intros j Hj. destruct (j =? id); [done|]. apply Hv. by right.
Qed.

Lemma is_visited_clear m slot slot' : is_visited (clear_visited slot m) slot' = if decide (slot' = slot) then false else is_visited m slot'.
Proof.
  unfold is_visited, clear_visited. cbn. case_decide as E.
  - subst slot'. destruct (decide (slot < length (visited m))%nat); [by rewrite list_lookup_insert_eq|].
    by rewrite lookup_ge_None_2 by (rewrite length_insert; lia).
  - by rewrite list_lookup_insert_ne.
Qed.

Lemma take_entry_removed id slot e s :
  take_entry id slot e s = removed id slot (base.delete (hand s) (fifo s)) (hand s)
    (if dirty e then add_writebacks 1 (add_eviction (stats s)) else add_eviction (stats s)) s.
Proof. reflexivity. Qed.

Lemma evict_loop_ok a s :
  wf s -> fifo s <> [] ->
  match sweep (is_pinned s) (is_hot s) (upcoming a (hand s) (fifo s)) with
  | None => exists s', evict_loop a (length (fifo s)) s = (s', Ok None) /\ same_pages s s'
  | Some v => exists s' e, contents s !! v = Some e /\ evict_loop a (length (fifo s)) s = (s', Ok (evicted_of e)) /\
      wf s' /\ contents s' = base.delete v (contents s) /\ capacity s' = capacity s
  end.
Proof.
  revert s. induction a as [|a IH]; intros s W Hne; [by exists s|]. cbn [upcoming evict_loop].
  set (h := if (length (fifo s) <=? hand s)%nat then 0%nat else hand s).
  set (s0 := if (length (fifo s) <=? hand s)%nat then set_hand 0 s else s).
  assert (Hs0 : same_pages s s0) by (unfold s0; destruct (_ <=? _)%nat; [apply same_pages_hand|done]).
  assert (Hh0 : hand s0 = h) by (unfold s0, h; by destruct (_ <=? _)%nat).
  assert (Hm0 : meta s0 = meta s) by (unfold s0; by destruct (_ <=? _)%nat).
  destruct (same_pages_ok s s0 Hs0 W) as [W0 C0]. destruct Hs0 as (E1 & E2 & E3 & E4 & E5 & E6 & E7).
  rewrite Hh0, E2.
  destruct (lookup_lt_is_Some_2 (fifo s) h) as [id Eid].
  { unfold h. destruct (Nat.leb_spec (length (fifo s)) (hand s)); [destruct (fifo s); [done|cbn; lia]|lia]. }
  rewrite Eid, E1. cbn [sweep].
  destruct (proj1 (wf_fifo s W id)) as [slot Ei]; [by eapply list_elem_of_lookup_2|].
  destruct (wf_index s W id slot Ei) as (e & Es & He).
  assert (Ec : contents s !! id = Some e) by (apply contents_Some; eauto).
  assert (Ea : entry_at s0 slot = Some e) by (apply entry_at_Some; by rewrite E3).
  rewrite Ei, Ea, Hm0. unfold is_pinned at 1, is_hot at 1. rewrite Ec, Ei.
  destruct ((0 <? pin_count e)%nat || is_visited (meta s) slot).
  - set (s1 := set_hand (hand (set_meta (clear_visited slot (meta s)) s0) + 1) (set_meta (clear_visited slot (meta s)) s0)).
    assert (S1 : same_pages s s1).
    { unfold same_pages. cbn. by rewrite length_insert. }
    destruct (same_pages_ok s s1 S1 W) as [W1 C1]. pose proof S1 as (F1 & F2 & _ & _ & F5 & _).
    specialize (IH s1 W1). rewrite F2 in IH. specialize (IH Hne).
    change (hand s1) with (hand s0 + 1)%nat in IH. rewrite Hh0 in IH.
    rewrite (sweep_ext (is_pinned s) (is_pinned s1) _ (is_hot s1)).
    + destruct (sweep _ _ _) as [v|].
      * destruct IH as (s' & e' & H1 & H2 & H3 & H4 & H5). exists s', e'. rewrite C1 in *. split_and!; [done|done|done|done|congruence].
      * destruct IH as (s' & H1 & H2). exists s'. split; [done|]. by etrans.
    + intros j _. unfold is_pinned. by rewrite C1.
    + intros j _. unfold is_hot. rewrite F1. cbn [meta set_hand set_meta s1].
      destruct (Z.eqb_spec j id) as [->|Hj]; [by rewrite Ei, is_visited_clear, decide_True|].
      destruct (index s !! j) as [slot'|] eqn:Ej; [|done]. rewrite is_visited_clear, decide_False; [done|].
      intros ->. destruct (wf_index s W j slot Ej) as (e2 & Es2 & <-). congruence.
  - rewrite (proj2 (Z.eqb_eq _ _) He). cbn [negb].
    exists (take_entry id slot e s0), e. split; [done|]. split; [done|].
    destruct (delete_nodup (fifo s0) (hand s0) id (wf_fifo_nodup s0 W0)) as [Hn Hj]; [by rewrite E2, Hh0|].
    rewrite take_entry_removed, <-C0, <-E5. eapply removed_ok in Hn; [|exact W0|by rewrite E1|exact Hj].
    destruct Hn as [R1 R2]. split_and!; [exact R1|exact R2|done].
Qed.

Lemma upcoming_wrap n l : upcoming n (length l) l = upcoming n 0 l.
Proof.
  destruct n as [|n]; [done|]. cbn [upcoming]. rewrite Nat.leb_refl. destruct l as [|x l]; [done|]. done.
Qed.

Lemma upcoming_segment k n h l :
  (h + k <= length l)%nat -> upcoming (k + n) h l = take k (drop h l) ++ upcoming n (h + k) l.
Proof.
  revert h. induction k as [|k IH]; intros h Hl; [by rewrite Nat.add_0_r|].
  cbn [upcoming Nat.add]. destruct (Nat.leb_spec (length l) h); [lia|].
  destruct (lookup_lt_is_Some_2 l h) as [x Hx]; [lia|]. rewrite Hx, IH by lia.
  rewrite (drop_S l x h Hx). cbn [take app].
  by replace (h + Datatypes.S k)%nat with (h + 1 + k)%nat by lia; rewrite Nat.add_1_r.
Qed.

(** The sweep of two rounds passes the rotation twice. *)
Lemma upcoming_rotation s : upcoming (length (fifo s) * 2) (hand s) (fifo s) = rotation s ++ rotation s.
Proof.
  unfold rotation. set (l := fifo s). set (h := if (length l <=? hand s)%nat then 0%nat else hand s).
  destruct (decide (l = [])) as [El|Hl]; [unfold h; by rewrite El|].
  assert (Hh : (h < length l)%nat).
  { unfold h. destruct (Nat.leb_spec (length l) (hand s)); [destruct l; [done|cbn; lia]|lia]. }
  assert (E : upcoming (length l * 2) (hand s) l = upcoming (length l * 2) h l).
  { destruct (length l * 2)%nat as [|n] eqn:En; [done|]. cbn [upcoming]. fold h.
    by rewrite (proj2 (Nat.leb_gt _ _) Hh). }
  rewrite E. replace (length l * 2)%nat with ((length l - h) + (h + ((length l - h) + (h + 0))))%nat by lia.
  rewrite (upcoming_segment (length l - h)) by lia. replace (h + (length l - h))%nat with (length l) by lia.
  rewrite upcoming_wrap, (upcoming_segment h) by lia. rewrite (upcoming_segment (length l - h)) by lia.
  replace (0 + h + (length l - h))%nat with (length l) by lia. rewrite upcoming_wrap, (upcoming_segment h) by lia.
  cbn [upcoming]. rewrite app_nil_r, drop_0, Nat.add_0_l, <-!app_assoc.
  by rewrite !(take_ge (drop h l)) by (rewrite length_drop; lia).
Qed.

Definition passed (l : list Z) (vis : Z -> bool) (j : Z) : bool := if decide (j ∈ l) then false else vis j.

Lemma sweep_app p v l k :
  sweep p v (l ++ k) = match sweep p v l with Some x => Some x | None => sweep p (passed l v) k end.
Proof.
  revert v. induction l as [|id l IH]; intros v; cbn [app sweep].
  - apply sweep_ext; [done|]. intros j _. unfold passed. by rewrite decide_False by set_solver.
  - destruct (p id || v id); [|done]. rewrite IH. destruct (sweep p _ l); [done|]. apply sweep_ext; [done|].
    intros j _. unfold passed. destruct (decide (j ∈ l)) as [Hj|Hj]; [by rewrite decide_True by (by right)|].
    destruct (Z.eqb_spec j id) as [->|Hne]; [by rewrite decide_True by left|].
    rewrite decide_False; [done|]. rewrite elem_of_cons. tauto.
Qed.

Lemma filter_ext_elem {A} (P Q : A -> Prop) `{!forall x, Decision (P x)} `{!forall x, Decision (Q x)} (l : list A) :
  (forall x, x ∈ l -> P x <-> Q x) -> filter P l = filter Q l.
Proof.
  induction l as [|x l IH]; intros Hx; [done|]. rewrite !filter_cons, IH by (intros; apply Hx; by right).
  specialize (Hx x ltac:(by left)). do 2 case_decide; tauto || done.
Qed.

Lemma sweep_head p v l :
  NoDup l -> sweep p v l = head (filter (fun id => p id = false /\ v id = false) l).
Proof.
  revert v. induction l as [|id l IH]; intros v Hn; cbn [sweep]; [done|]. apply NoDup_cons in Hn as [Hid Hn].
  rewrite filter_cons. destruct (p id || v id) eqn:E; case_decide as Hd.
  - destruct Hd as [H1 H2]. by rewrite H1, H2 in E.
  - rewrite IH by done. apply (f_equal head), filter_ext_elem. intros j Hj.
    destruct (Z.eqb_spec j id); [by subst j|done].
  - done.
  - apply orb_false_iff in E. by destruct Hd.
Qed.

Lemma elem_of_rotation s j : j ∈ rotation s <-> j ∈ fifo s.
Proof.
  unfold rotation. set (h := if _ : bool then _ else _). rewrite elem_of_app.
  rewrite <-(take_drop h (fifo s)) at 3. rewrite elem_of_app. tauto.
Qed.

Lemma rotation_nodup s : NoDup (fifo s) -> NoDup (rotation s).
Proof.
  unfold rotation. set (h := if _ : bool then _ else _). rewrite <-(take_drop h (fifo s)) at 1.
  rewrite !NoDup_app. intros (H1 & H2 & H3). split_and!; [done| |done]. intros j Hj Hj'. exact (H2 j Hj' Hj).
Qed.

Lemma sweep_sieve s : wf s -> sweep (is_pinned s) (is_hot s) (rotation s ++ rotation s) = sieve_victim s.
Proof.
  intros W. pose proof (rotation_nodup s (wf_fifo_nodup s W)) as Hn.
  rewrite sweep_app, !sweep_head by done. unfold sieve_victim.
  destruct (head (filter (fun id => is_pinned s id = false /\ is_hot s id = false) (rotation s))); [done|].
  apply (f_equal head), filter_ext_elem. intros j Hj. unfold passed. rewrite decide_True by done. tauto.
Qed.

(** Eviction removes the page that SIEVE chooses; without one, nothing. *)
Lemma evict_ok s :
  wf s ->
  match sieve_victim s with
  | None => exists s', evict s = (s', Ok None) /\ same_pages s s'
  | Some v => exists s' e, contents s !! v = Some e /\ evict s = (s', Ok (evicted_of e)) /\
      wf s' /\ contents s' = base.delete v (contents s) /\ capacity s' = capacity s
  end.
Proof.
  intros W. rewrite <-(sweep_sieve s W), <-upcoming_rotation. unfold evict.
  destruct (bool_decide_reflect (fifo s = [])) as [E|E].
  - rewrite E. cbn. by exists s.
  - by apply evict_loop_ok.
Qed.

Lemma head_filter_None {A} (P : A -> Prop) `{!forall x, Decision (P x)} (l : list A) :
  head (filter P l) = None <-> forall x, x ∈ l -> ~ P x.
Proof.
  rewrite head_None. split.
  - intros E x Hx HP. assert (Hin : x ∈ filter P l) by (by apply list_elem_of_filter).
    rewrite E in Hin. by apply elem_of_nil in Hin.
  - intros Hn. destruct (filter P l) as [|x k] eqn:E; [done|]. assert (Hin : x ∈ filter P l) by (rewrite E; by left).
    apply list_elem_of_filter in Hin as [HP Hx]. by destruct (Hn x Hx).
Qed.

Lemma rotation_contents s id : wf s -> id ∈ rotation s <-> is_Some (contents s !! id).
Proof. intros W. rewrite elem_of_rotation, wf_fifo by done. by rewrite <-!elem_of_dom, dom_contents. Qed.

(** No page can be evicted exactly when all are pinned. *)
Lemma sieve_victim_None s : wf s -> sieve_victim s = None <-> forall id e, contents s !! id = Some e -> (0 < pin_count e)%nat.
Proof.
  intros W.
  assert (Hmain : head (filter (fun id => is_pinned s id = false) (rotation s)) = None <->
    forall id e, contents s !! id = Some e -> (0 < pin_count e)%nat).
  { rewrite head_filter_None. split.
    - intros Hn id e E. specialize (Hn id (proj2 (rotation_contents s id W) (ex_intro _ e E))).
      unfold is_pinned in Hn. rewrite E in Hn. destruct (Nat.ltb_spec 0 (pin_count e)); [done|by destruct Hn].
    - intros Hp id [e E]%rotation_contents; [|done]. unfold is_pinned. rewrite E. specialize (Hp id e E).
      destruct (Nat.ltb_spec 0 (pin_count e)); [done|lia]. }
  rewrite <-Hmain. unfold sieve_victim. destruct (head (filter (fun id => is_pinned s id = false /\ _) _)) as [v|] eqn:E; [|done].
  split; [done|]. rewrite head_filter_None. intros Hn.
  apply head_Some_elem_of, list_elem_of_filter in E as [[E _] Hin]. by destruct (Hn v Hin).
Qed.

Lemma sieve_victim_unpinned s v e : wf s -> sieve_victim s = Some v -> contents s !! v = Some e -> pin_count e = 0%nat.
Proof.
  intros W Hv Ec. assert (Hp : is_pinned s v = false).
  { unfold sieve_victim in Hv. destruct (head (filter (fun id => is_pinned s id = false /\ _) _)) as [w|] eqn:E.
    - injection Hv as ->. by apply head_Some_elem_of, list_elem_of_filter in E as [[E _] _].
    - by apply head_Some_elem_of, list_elem_of_filter in Hv as [? _]. }
  unfold is_pinned in Hp. rewrite Ec in Hp. apply Nat.ltb_ge in Hp. lia.
Qed.

(** ** Insertion *)

(** Slots that are not in the index are free to take. *)
Lemma take_slot_ok s :
  wf s ->
  exists s' slot, take_slot s = (s', slot) /\ (slot <= length (entries s))%nat /\
    index s' = index s /\ fifo s' = fifo s /\ meta s' = meta s /\ capacity s' = capacity s /\
    (length (entries s) <= length (entries s'))%nat /\ NoDup (free_slots s') /\ (slot ∉ free_slots s') /\
    (forall k, k <> slot -> entries s' !! k = entries s !! k) /\ entries s' !! slot = Some None /\
    (forall k, k <> slot -> k ∈ free_slots s' <-> k ∈ free_slots s).
Proof.
  intros W. unfold take_slot. destruct (free_slots s) as [|slot free] eqn:E.
  - do 2 eexists. split; [reflexivity|]. cbn. rewrite length_app. cbn. split_and!; try done; try lia.
    + rewrite E. constructor.
    + rewrite E. by intros ?%elem_of_nil.
    + intros k Hk. destruct (decide (k < length (entries s))%nat); [by rewrite lookup_app_l|].
      rewrite !lookup_ge_None_2; [done|lia|rewrite length_app; cbn; lia].
    + by rewrite lookup_app_r, Nat.sub_diag by lia.
    + intros k _. by rewrite E.
  - pose proof (wf_free_nodup s W) as Hn. rewrite E in Hn. apply NoDup_cons in Hn as [Hs Hn].
    assert (Es : entries s !! slot = Some None) by (apply wf_free; [done|]; rewrite E; by left).
    pose proof (lookup_lt_Some _ _ _ Es).
    do 2 eexists. split; [reflexivity|]. cbn. split_and!; try done; try lia.
    intros k Hk. rewrite elem_of_cons. naive_solver.
Qed.

Definition placed (id : Z) (page : bytes) (d : bool) (slot : nat) (s : PageCacheShard) : PageCacheShard :=
  {| capacity := capacity s; index := <[id := slot]> (index s); fifo := fifo s ++ [id];
     entries := <[slot := Some (CacheEntry_new id page d)]> (entries s); meta := occupy slot id (meta s);
     free_slots := free_slots s; hand := hand s; stats := stats s |}.

Lemma place_entry_placed id page d slot s :
  (slot < length (entries s))%nat -> place_entry id page d slot s = placed id page d slot s.
Proof.
  intros Hs. unfold place_entry. replace (slot + 1 - length (entries s))%nat with 0%nat by lia.
  cbn [replicate]. by rewrite app_nil_r.
Qed.

Lemma place_entry_ok s id page d slot s' :
  wf s -> index s !! id = None -> take_slot s = (s', slot) ->
  wf (place_entry id page d slot s') /\
  contents (place_entry id page d slot s') = <[id := CacheEntry_new id page d]> (contents s) /\
  capacity (place_entry id page d slot s') = capacity s.
Proof.
  intros W Ei Et. destruct (take_slot_ok s W) as (s1 & slot1 & Et' & Hle & I1 & I2 & I3 & I4 & I5 & I6 & I7 & I8 & I9 & I10).
  rewrite Et in Et'. injection Et' as <- <-. set (e := CacheEntry_new id page d).
  pose proof (lookup_lt_Some _ _ _ I9) as Hlt.
  rewrite place_entry_placed by done. set (t := placed id page d slot s').
  assert (Hat : forall k, k <> slot -> entry_at t k = entry_at s k).
  { intros k Hk. unfold entry_at. cbn. rewrite list_lookup_insert_ne by done. by rewrite I8. }
  assert (Hslot : entry_at t slot = Some e) by (unfold entry_at; cbn; by rewrite list_lookup_insert_eq).
  assert (Hfree : forall e', entries s !! slot <> Some (Some e')).
  { intros e' E'. destruct (decide (slot < length (entries s))%nat) as [Hs|Hs]; [|by rewrite lookup_ge_None_2 in E' by lia].
    unfold take_slot in Et. destruct (free_slots s) as [|x free] eqn:Ef; injection Et as <- <-; [lia|].
    assert (Hx : x ∈ free_slots s) by (rewrite Ef; by left). apply wf_free in Hx; [|done]. congruence. }
  split; [|split; [|exact I4]].
  - destruct W as [W1 W2 W3 W4 W5 W6 W7 W8 W9 W10].
    assert (Hnslot : forall j, index s !! j <> Some slot).
    { intros j Ej. destruct (W2 j slot Ej) as (e' & E' & _). by apply Hfree in E'. }
    split; cbn; rewrite ?I1, ?I2, ?I3, ?I4; [done| | | | |done| |by rewrite length_insert|by rewrite length_insert|].
    + intros j k. rewrite lookup_insert_Some. intros [[<- <-]|[Hj E']].
      * exists e. by rewrite list_lookup_insert_eq.
      * rewrite list_lookup_insert_ne; [|by intros <-; apply (Hnslot j)]. rewrite I8; [by apply W2|]. intros ->. by apply (Hnslot j).
    + intros k e'. rewrite list_lookup_insert_Some. intros [(<- & [= <-] & _)|[Hk E']]; [by rewrite lookup_insert_eq|].
      rewrite I8 in E' by done. pose proof (W3 _ _ E') as E2. rewrite lookup_insert_ne; [done|]. intros Hid. rewrite <-Hid in E2. congruence.
    + apply NoDup_app. split_and!; [done| |apply NoDup_singleton]. intros j Hj ->%list_elem_of_singleton.
      apply W5 in Hj. rewrite Ei in Hj. by destruct Hj.
    + intros j. rewrite elem_of_app, W5, list_elem_of_singleton, <-!not_eq_None_Some, lookup_insert_None. 
      destruct (decide (j = id)) as [->|Hne]; naive_solver.
    + intros k. destruct (decide (k = slot)) as [->|Hk].
      * rewrite list_lookup_insert_eq by done. naive_solver.
      * rewrite list_lookup_insert_ne by done. by rewrite I10, W7, I8.
    + intros k Hk. unfold tag_at. cbn. fold t. destruct (decide (k = slot)) as [->|Hne].
      * rewrite Hslot. rewrite list_lookup_insert_eq by lia. done.
      * rewrite Hat, list_lookup_insert_ne by done. by apply W10.
  - apply map_eq. intros j. rewrite lookup_contents. cbn [index placed t]. rewrite I1. destruct (decide (j = id)) as [->|Hne].
    + rewrite !lookup_insert_eq. exact Hslot.
    + rewrite !lookup_insert_ne, lookup_contents by done. destruct (index s !! j) as [k|] eqn:Ej; [|done]. cbn.
      apply Hat. intros ->. destruct (wf_index s W j slot Ej) as (e' & E' & _). by apply Hfree in E'.
Qed.

(** The page that makes room for a new one *)
Definition room_victim (s : PageCacheShard) : option Z :=
  if (capacity s <=? len s)%nat then sieve_victim s else None.

Definition without (v : option Z) (m : gmap Z CacheEntry) : gmap Z CacheEntry :=
  match v with Some v => base.delete v m | None => m end.

(** What an insertion does to the pages, and the page it returns to be written *)
Definition inserted (s : PageCacheShard) (id : Z) (page : bytes) (d replace : bool) : gmap Z CacheEntry * option bytes :=
  match contents s !! id with
  | Some e =>
      (if replace
       then <[id := {| entry_id := id; entry_page := page; pin_count := pin_count e; dirty := dirty e || d |}]> (contents s)
       else contents s, None)
  | None =>
      (<[id := CacheEntry_new id page d]> (without (room_victim s) (contents s)),
       v ← room_victim s; e ← contents s !! v; evicted_of e)
  end.

Lemma make_room_ok s :
  wf s ->
  exists s', make_room s = (s', Ok (v ← room_victim s; e ← contents s !! v; evicted_of e)) /\
    wf s' /\ contents s' = without (room_victim s) (contents s) /\ capacity s' = capacity s.
Proof.
  intros W. unfold make_room, room_victim. destruct (capacity s <=? len s)%nat; [|by exists s].
  pose proof (evict_ok s W) as H. destruct (sieve_victim s) as [v|].
  - destruct H as (s' & e & E & -> & H1 & H2 & H3). exists s'. split; [|done]. cbn. by rewrite E.
  - destruct H as (s' & -> & H). destruct (same_pages_ok s s' H W) as [W' C']. exists s'. split_and!; [done|done|done|]. apply H.
Qed.

Lemma add_entry_ok s id page d :
  wf s -> contents s !! id = None ->
  exists s', add_entry id page d s = (s', Ok tt) /\ wf s' /\ contents s' = <[id := CacheEntry_new id page d]> (contents s) /\
    capacity s' = capacity s.
Proof.
  intros W E%contents_None; [|done]. unfold add_entry. destruct (take_slot s) as [s1 slot] eqn:Et.
  eexists. split; [reflexivity|]. by apply place_entry_ok.
Qed.

Lemma insert_inner_ok s id page d replace :
  wf s ->
  exists s', insert_inner id page d replace s = (s', Ok (inserted s id page d replace).2) /\ wf s' /\
    contents s' = (inserted s id page d replace).1 /\ capacity s' = capacity s.
Proof.
  intros W. unfold insert_inner, inserted. destruct (contents s !! id) as [e|] eqn:Ec.
  - pose proof Ec as (slot & Ei & Es & He)%contents_Some; [|done]. rewrite Ei, (proj2 (entry_at_Some s slot e) Es). cbn [fst snd].
    destruct replace.
    + rewrite He. set (e' := {| entry_id := id |}). fold (put_entry slot e' s).
      destruct (put_entry_ok s id slot e e' W Ei Ec eq_refl) as [W1 C1].
      destruct (same_pages_ok _ _ (same_pages_mark (put_entry slot e' s) slot) W1) as [W2 C2].
      eexists. split; [reflexivity|]. split; [exact W2|]. split; [by rewrite C2|done].
    + destruct (same_pages_ok _ _ (same_pages_mark s slot) W) as [W2 C2].
      eexists. split; [reflexivity|]. split; [exact W2|]. split; [by rewrite C2|done].
  - rewrite (proj1 (contents_None s id W) Ec). unfold insert_absent. cbn [fst snd].
    destruct (make_room_ok s W) as (s1 & E1 & W1 & C1 & K1). rewrite (eff_bind_ok _ _ _ _ _ E1).
    destruct (add_entry_ok s1 id page d W1) as (s2 & E2 & W2 & C2 & K2).
    { rewrite C1. unfold without. destruct (room_victim s); [|done]. by rewrite lookup_delete_None; right. }
    rewrite (eff_bind_ok _ _ _ _ _ E2). exists s2. split; [reflexivity|]. split; [exact W2|]. split; [by rewrite C2, C1|congruence].
Qed.

(** ** The other operations *)

(** An operation that gives the entry of one page a new value *)
Lemma update_entry_ok s id (f : CacheEntry -> CacheEntry) :
  wf s -> (forall e, entry_id (f e) = entry_id e) ->
  match owned_entry id s with
  | Some (slot, e) => contents s !! id = Some e /\ wf (put_entry slot (f e) s) /\
      contents (put_entry slot (f e) s) = alter f id (contents s) /\ capacity (put_entry slot (f e) s) = capacity s
  | None => contents s !! id = None
  end.
Proof.
  intros W Hf. rewrite owned_entry_contents by done. destruct (index s !! id) as [slot|] eqn:Ei.
  - destruct (contents s !! id) as [e|] eqn:Ec; [|done]. cbn [fmap option_fmap option_map].
    destruct (put_entry_ok s id slot e (f e) W Ei Ec) as [W1 C1]; [rewrite Hf; by eapply contents_id|].
    split_and!; [done|done| |done]. rewrite C1. apply map_eq. intros j. destruct (decide (j = id)) as [->|Hne].
    + by rewrite lookup_insert_eq, lookup_alter_eq, Ec.
    + by rewrite lookup_insert_ne, lookup_alter_ne.
  - by apply contents_None.
Qed.

Lemma alter_absent (f : CacheEntry -> CacheEntry) id (m : gmap Z CacheEntry) : m !! id = None -> alter f id m = m.
Proof.
  intros E. apply map_eq. intros j. destruct (decide (j = id)) as [->|?]; [by rewrite lookup_alter_eq, E|by rewrite lookup_alter_ne].
Qed.

Lemma shard_mark_dirty_ok s id :
  wf s -> exists s', shard_mark_dirty id s = (s', Ok tt) /\ wf s' /\ contents s' = alter (set_dirty true) id (contents s) /\ capacity s' = capacity s.
Proof.
  intros W. unfold shard_mark_dirty. pose proof (update_entry_ok s id (set_dirty true) W (fun _ => eq_refl)) as Hu.
  destruct (owned_entry id s) as [[slot e]|]; [destruct Hu as [_ Hu]; eauto|]. exists s. by rewrite alter_absent.
Qed.

Lemma shard_mark_clean_ok s id :
  wf s -> exists s', shard_mark_clean id s = (s', Ok tt) /\ wf s' /\ contents s' = alter (set_dirty false) id (contents s) /\ capacity s' = capacity s.
Proof.
  intros W. unfold shard_mark_clean. pose proof (update_entry_ok s id (set_dirty false) W (fun _ => eq_refl)) as Hu.
  destruct (owned_entry id s) as [[slot e]|]; [destruct Hu as [_ Hu]; eauto|]. exists s. by rewrite alter_absent.
Qed.

Definition pin_entry (e : CacheEntry) : CacheEntry := set_pins (pin_count e + 1) e.
Definition unpin_entry (e : CacheEntry) : CacheEntry := set_pins (pin_count e - 1) e.

Lemma shard_pin_ok s id :
  wf s -> exists s', shard_pin id s = (s', Ok (bool_decide (is_Some (contents s !! id)))) /\ wf s' /\
    contents s' = alter pin_entry id (contents s) /\ capacity s' = capacity s.
Proof.
  intros W. unfold shard_pin. pose proof (update_entry_ok s id pin_entry W (fun _ => eq_refl)) as Hu.
  destruct (owned_entry id s) as [[slot e]|].
  - destruct Hu as [E Hu]. rewrite E, bool_decide_true by done. eauto.
  - exists s. rewrite alter_absent, Hu, bool_decide_false by (done || by intros [? ?]). done.
Qed.

Lemma shard_unpin_ok s id :
  wf s -> exists s', shard_unpin id s = (s', Ok (match contents s !! id with Some e => (0 <? pin_count e)%nat | None => false end)) /\ wf s' /\
    contents s' = alter unpin_entry id (contents s) /\ capacity s' = capacity s.
Proof.
  intros W. unfold shard_unpin. pose proof (update_entry_ok s id unpin_entry W (fun _ => eq_refl)) as Hu.
  destruct (owned_entry id s) as [[slot e]|].
  - destruct Hu as [E Hu]. rewrite E. destruct (Nat.ltb_spec 0 (pin_count e)) as [Hp|Hp]; [eauto|].
    exists s. split_and!; [done|done| |done]. apply map_eq. intros j. destruct (decide (j = id)) as [->|?].
    + rewrite lookup_alter_eq, E. cbn. f_equal. unfold unpin_entry, set_pins. destruct e as [i p n d]. cbn in *. f_equal. lia.
    + by rewrite lookup_alter_ne.
  - exists s. by rewrite alter_absent, Hu.
Qed.

Lemma shard_remove_ok s id :
  wf s -> exists s', shard_remove id s = (s', Ok (entry_page <$> contents s !! id)) /\ wf s' /\
    contents s' = base.delete id (contents s) /\ capacity s' = capacity s.
Proof.
  intros W. unfold shard_remove. rewrite lookup_contents. destruct (index s !! id) as [slot|] eqn:Ei; cbn.
  - eexists. split; [reflexivity|].
    destruct (removed_ok s id slot (filter (fun j => j <> id) (fifo s)) (hand s) (stats s) W Ei) as [W1 C1].
    + apply NoDup_filter, wf_fifo_nodup, W.
    + intros j. rewrite list_elem_of_filter. tauto.
    + split; [exact W1|]. split; [exact C1|done].
  - exists s. split_and!; [done|done| |done]. symmetry. apply delete_id. by apply contents_None.
Qed.

Lemma take_dirty_page_ok s id :
  wf s -> exists s', take_dirty_page id s = (s', Ok (e ← contents s !! id; evicted_of e)) /\ wf s' /\
    contents s' = alter (set_dirty false) id (contents s) /\ capacity s' = capacity s.
Proof.
  intros W. unfold take_dirty_page. rewrite lookup_contents. destruct (index s !! id) as [slot|] eqn:Ei; cbn.
  2:{ exists s. split_and!; [done|done| |done]. rewrite alter_absent; [done|]. by apply contents_None. }
  destruct (wf_index s W id slot Ei) as (e & Es & He). rewrite (proj2 (entry_at_Some s slot e) Es). cbn.
  assert (Ec : contents s !! id = Some e) by (apply contents_Some; eauto). unfold evicted_of.
  destruct (put_entry_ok s id slot e (set_dirty false e) W Ei Ec He) as [W1 C1].
  assert (Ea : alter (set_dirty false) id (contents s) = <[id := set_dirty false e]> (contents s)).
  { apply map_eq. intros j. destruct (decide (j = id)) as [->|?]; [by rewrite lookup_alter_eq, lookup_insert_eq, Ec|].
    by rewrite lookup_alter_ne, lookup_insert_ne. }
  destruct (dirty e) eqn:Ed.
  - eexists. split; [reflexivity|].
    destruct (same_pages_ok _ _ (same_pages_stats (put_entry slot (set_dirty false e) s) (add_writebacks 1 (stats s))) W1) as [W2 C2].
    split; [exact W2|]. split; [by rewrite C2, C1, Ea|done].
  - exists s. split_and!; [done|done| |done]. rewrite Ea. symmetry. apply insert_id. rewrite Ec. f_equal.
    unfold set_dirty. destruct e. cbn in *. by subst.
Qed.

Lemma shard_clear_ok s : wf s -> exists s', shard_clear s = (s', Ok tt) /\ wf s' /\ contents s' = ∅ /\ capacity s' = capacity s.
Proof.
  intros W. eexists. split; [reflexivity|]. split; [|done].
  destruct W as [W1 W2 W3 W4 W5 W6 W7 W8 W9 W10].
  split; cbn; [done|done|done|constructor| |constructor| |by rewrite length_replicate|by rewrite length_replicate|].
  - intros id. rewrite lookup_empty. split; [by intros ?%elem_of_nil|by intros [? ?]].
  - intros slot. rewrite lookup_nil. split; [by intros ?%elem_of_nil|done].
  - intros slot Hs. unfold tag_at. cbn. rewrite lookup_replicate_2 by lia. unfold entry_at. cbn. by rewrite lookup_nil.
Qed.

(** ** Flushing *)

(** The entries of [ids] marked clean *)
Definition cleaned (ids : list Z) (m : gmap Z CacheEntry) : gmap Z CacheEntry :=
  map_imap (fun id e => Some (if decide (id ∈ ids) then set_dirty false e else e)) m.

Lemma lookup_cleaned ids m id :
  cleaned ids m !! id = (fun e => if decide (id ∈ ids) then set_dirty false e else e) <$> m !! id.
Proof. unfold cleaned. rewrite map_lookup_imap. by destruct (m !! id). Qed.

Lemma cleaned_nil m : cleaned [] m = m.
Proof.
  apply map_eq. intros id. rewrite lookup_cleaned. destruct (m !! id) as [e|]; [|done]. cbn.
  by rewrite decide_False by (by intros ?%elem_of_nil).
Qed.

Lemma cleaned_cons id ids m : cleaned ids (alter (set_dirty false) id m) = cleaned (id :: ids) m.
Proof.
  apply map_eq. intros j. rewrite !lookup_cleaned. destruct (decide (j = id)) as [->|Hne].
  - rewrite lookup_alter_eq. destruct (m !! id) as [e|]; [|done]. cbn. rewrite (decide_True (P := id ∈ id :: ids)) by left.
    by case_decide.
  - rewrite lookup_alter_ne by done. destruct (m !! j) as [e|]; [|done]. cbn.
    destruct (decide (j ∈ ids)) as [Hj|Hj]; [by rewrite decide_True by (by right)|].
    rewrite decide_False; [done|]. rewrite elem_of_cons. tauto.
Qed.

Lemma cleaned_app ids ids' m : cleaned ids' (cleaned ids m) = cleaned (ids ++ ids') m.
Proof.
  apply map_eq. intros j. rewrite !lookup_cleaned. destruct (m !! j) as [e|]; [|done]. cbn.
  destruct (decide (j ∈ ids)), (decide (j ∈ ids')); try rewrite (decide_True (P := j ∈ ids ++ ids')) by set_solver; try done.
  by rewrite decide_False by set_solver.
Qed.

Lemma clean_all_ok pages s :
  wf s -> exists s', clean_all pages s = (s', Ok pages) /\ wf s' /\ contents s' = cleaned pages.*1 (contents s) /\ capacity s' = capacity s.
Proof.
  intros W. unfold clean_all.
  assert (Hl : forall l s, wf s -> exists s', for_each l (fun pg : Z * bytes => shard_mark_clean pg.1) s = (s', Ok tt) /\ wf s' /\
    contents s' = cleaned l.*1 (contents s) /\ capacity s' = capacity s).
  { clear s W. induction l as [|pg l IH]; intros s W; cbn [for_each fmap list_fmap]; [exists s; by rewrite cleaned_nil|].
    destruct (shard_mark_clean_ok s pg.1 W) as (s1 & E1 & W1 & C1 & K1). rewrite (eff_bind_ok _ _ _ _ _ E1).
    destruct (IH s1 W1) as (s2 & E2 & W2 & C2 & K2). exists s2. split_and!; [done|done| |congruence].
    by rewrite C2, C1, cleaned_cons. }
  destruct (Hl pages s W) as (s1 & E1 & W1 & C1 & K1). rewrite (eff_bind_ok _ _ _ _ _ E1).
  destruct (same_pages_ok _ _ (same_pages_stats s1 (add_writebacks (length pages) (stats s1))) W1) as [W2 C2].
  eexists. split; [reflexivity|]. split; [exact W2|]. split; [by rewrite C2|done].
Qed.

Section flushing.
Context (iter : gmap Z nat -> list (Z * nat)) (iter_perm : forall m, iter m ≡ₚ map_to_list m).

Lemma elem_of_iter m id slot : (id, slot) ∈ iter m <-> m !! id = Some slot.
Proof. rewrite iter_perm. apply elem_of_map_to_list. Qed.

Lemma elem_of_dirty_list s id page :
  wf s -> (id, page) ∈ dirty_list iter s <-> exists e, contents s !! id = Some e /\ dirty e = true /\ entry_page e = page.
Proof.
  intros W. unfold dirty_list. rewrite list_elem_of_omap. split.
  - intros ([j slot] & Hj%elem_of_iter & E). destruct (entry_at s slot) as [e|] eqn:Ea; [|done].
    destruct (dirty e) eqn:Ed; [|done]. injection E as -> <-. exists e. rewrite lookup_contents, Hj. by split_and!.
  - intros (e & (slot & Ei & Es & _)%contents_Some & Ed & <-); [|done]. exists (id, slot). rewrite elem_of_iter. split; [done|].
    rewrite (proj2 (entry_at_Some s slot e) Es). by rewrite Ed.
Qed.

Lemma omap_fst_sublist {A B C} (f : A * B -> option (A * C)) (l : list (A * B)) :
  (forall x y, f x = Some y -> y.1 = x.1) -> (omap f l).*1 `sublist_of` l.*1.
Proof.
  intros Hf. induction l as [|x l IH]; [done|]. cbn. destruct (f x) as [y|] eqn:E; cbn.
  - rewrite (Hf _ _ E). by constructor.
  - by constructor.
Qed.

Lemma dirty_list_nodup s : wf s -> NoDup (dirty_list iter s).*1.
Proof.
  intros W. unfold dirty_list. eapply sublist_NoDup; [|apply omap_fst_sublist].
  - rewrite iter_perm. apply NoDup_fst_map_to_list.
  - intros [id slot] y E. destruct (entry_at s slot) as [e|]; [|done]. destruct (dirty e); [|done]. by injection E as <-.
Qed.

Lemma elem_of_dirty_ids s id :
  wf s -> id ∈ (dirty_list iter s).*1 <-> exists e, contents s !! id = Some e /\ dirty e = true.
Proof.
  intros W. rewrite list_elem_of_fmap. split.
  - intros ([j page] & -> & (e & E & Ed & _)%elem_of_dirty_list); [|done]. eauto.
  - intros (e & E & Ed). exists (id, entry_page e). split; [done|]. apply elem_of_dirty_list; eauto.
Qed.

Lemma shard_flush_dirty_ok s :
  wf s -> exists s', shard_flush_dirty iter s = (s', Ok (dirty_list iter s)) /\ wf s' /\
    contents s' = set_dirty false <$> contents s /\ capacity s' = capacity s.
Proof.
  intros W. unfold shard_flush_dirty. destruct (clean_all_ok (dirty_list iter s) s W) as (s' & E & W' & C & K).
  exists s'. split_and!; [done|done| |done]. rewrite C. apply map_eq. intros id. rewrite lookup_cleaned, lookup_fmap.
  destruct (contents s !! id) as [e|] eqn:Ec; [|done]. cbn. f_equal. case_decide as Hd; [done|].
  assert (Ed : dirty e = false).
  { destruct (dirty e) eqn:Ed; [|done]. destruct Hd. apply elem_of_dirty_ids; eauto. }
  unfold set_dirty. destruct e. cbn in *. by subst.
Qed.

End flushing.

(** * The sharded cache *)

Record cache_wf (c : PageCache) : Prop := {
  cwf_shards : length (shards c) = NUM_SHARDS;
  cwf_shard i s : shards c !! i = Some s -> wf s;
  cwf_route i s id : shards c !! i = Some s -> is_Some (contents s !! id) -> shard_for id = i;
}.

(** All cached pages *)
Definition cached (c : PageCache) : gmap Z CacheEntry := foldr (fun s m => contents s ∪ m) ∅ (shards c).

Lemma shard_for_lt id : (shard_for id < NUM_SHARDS)%nat.
Proof.
  unfold shard_for. change (Z.of_nat NUM_SHARDS - 1) with (Z.ones 3). rewrite Z.land_ones by lia.
  pose proof (Z.mod_pos_bound id (2 ^ 3) ltac:(lia)). change NUM_SHARDS with 8%nat. lia.
Qed.

Lemma lookup_shards ss id k :
  (forall i s, ss !! i = Some s -> is_Some (contents s !! id) -> i = k) ->
  foldr (fun s m => contents s ∪ m) ∅ ss !! id = ss !! k ≫= (fun s => contents s !! id).
Proof.
  revert k. induction ss as [|s ss IH]; intros k Hk; cbn [foldr]; [done|].
  destruct (contents s !! id) as [e|] eqn:E.
  - specialize (Hk 0%nat s eq_refl ltac:(eauto)). subst k. cbn. rewrite E. by apply lookup_union_Some_l.
  - rewrite lookup_union_r by done. destruct k as [|k].
    + cbn. rewrite E, (IH (length ss)).
      * by rewrite (lookup_ge_None_2 ss) by lia.
      * intros i s' Hi Hs. discriminate (Hk (Datatypes.S i) s' Hi Hs).
    + cbn. apply IH. intros i s' Hi Hs. specialize (Hk (Datatypes.S i) s' Hi Hs). by injection Hk.
Qed.

Lemma cached_shard c id s : cache_wf c -> shards c !! shard_for id = Some s -> cached c !! id = contents s !! id.
Proof.
  intros W E. unfold cached. rewrite (lookup_shards _ id (shard_for id)); [by rewrite E|].
  intros i s' Hi Hs. symmetry. exact (cwf_route c W i s' id Hi Hs).
Qed.

Lemma cached_id c id e : cache_wf c -> cached c !! id = Some e -> entry_id e = id.
Proof.
  intros W E. destruct (lookup_lt_is_Some_2 (shards c) (shard_for id)) as [s Es]; [rewrite (cwf_shards c W); apply shard_for_lt|].
  rewrite (cached_shard c id s W Es) in E. by eapply contents_id; [eapply cwf_shard|].
Qed.

(** An operation on one shard *)
Lemma at_shard_ok {A} c i (m : cache_op PageCacheShard A) :
  cache_wf c -> (i < NUM_SHARDS)%nat ->
  exists s, shards c !! i = Some s /\ wf s /\ (forall j, shard_for j = i -> cached c !! j = contents s !! j) /\
    (forall j, is_Some (contents s !! j) -> shard_for j = i) /\
    forall s' a, m s = (s', Ok a) -> wf s' -> (forall j, is_Some (contents s' !! j) -> shard_for j = i) ->
    exists c', at_shard i m c = (c', Ok a) /\ cache_wf c' /\ total_capacity c' = total_capacity c /\
      forall j, cached c' !! j = if decide (shard_for j = i) then contents s' !! j else cached c !! j.
Proof.
  intros W Hi. destruct (lookup_lt_is_Some_2 (shards c) i) as [s Es]; [by rewrite (cwf_shards c W)|].
  exists s. split; [done|]. split; [by eapply cwf_shard|]. split; [intros j <-; by apply cached_shard|].
  split; [intros j; by apply (cwf_route c W)|]. intros s' a Em W' Hr. unfold at_shard. rewrite Es, Em.
  eexists. split; [reflexivity|]. set (c' := {| shards := _; total_capacity := _ |}).
  pose proof (lookup_lt_Some _ _ _ Es) as Hlt.
  assert (Wc : cache_wf c').
  { split; cbn.
    - rewrite length_insert. apply W.
    - intros k t. rewrite list_lookup_insert_Some. intros [(<- & <- & _)|[_ E]]; [done|by eapply cwf_shard].
    - intros k t id. rewrite list_lookup_insert_Some. intros [(<- & <- & _)|[_ E]]; [apply Hr|by eapply cwf_route]. }
  split; [exact Wc|]. split; [done|]. intros j. case_decide as Hj.
  - rewrite (cached_shard c' j s'); [done|exact Wc|]. cbn. rewrite Hj. by apply list_lookup_insert_eq.
  - destruct (lookup_lt_is_Some_2 (shards c) (shard_for j)) as [t Et]; [rewrite (cwf_shards c W); apply shard_for_lt|].
    rewrite (cached_shard c j t W Et). apply cached_shard; [exact Wc|]. cbn. by rewrite list_lookup_insert_ne.
Qed.

(** An operation that changes the cached pages by a function that works on each page *)
Lemma on_shard_ok {A} c id (m : cache_op PageCacheShard A) :
  cache_wf c ->
  exists s, wf s /\ (forall j, shard_for j = shard_for id -> cached c !! j = contents s !! j) /\
    (forall j, is_Some (contents s !! j) -> shard_for j = shard_for id) /\
    forall s' a, m s = (s', Ok a) -> wf s' -> (forall j, is_Some (contents s' !! j) -> shard_for j = shard_for id) ->
    exists c', on_shard id m c = (c', Ok a) /\ cache_wf c' /\ total_capacity c' = total_capacity c /\
      forall j, cached c' !! j = if decide (shard_for j = shard_for id) then contents s' !! j else cached c !! j.
Proof.
  intros W. destruct (at_shard_ok c (shard_for id) m W (shard_for_lt id)) as (s & _ & H). by exists s.
Qed.

Lemma cache_get_ok c id :
  cache_wf c -> exists c', cache_get id c = (c', Ok (entry_page <$> cached c !! id)) /\ cache_wf c' /\ cached c' = cached c.
Proof.
  intros W. destruct (on_shard_ok c id (shard_get id) W) as (s & Ws & Hc & Hr & Hk).
  destruct (shard_get_ok s id Ws) as (s' & E & Hs). destruct (same_pages_ok s s' Hs Ws) as [W' C'].
  destruct (Hk s' _ E W') as (c' & E' & Wc & _ & Hl); [by rewrite C'|]. exists c'. rewrite Hc by done. split_and!; [done|done|].
  apply map_eq. intros j. rewrite Hl. case_decide; [by rewrite C', Hc|done].
Qed.

(** One page changes; all others stay. *)
Lemma on_shard_one {A} c id (m : cache_op PageCacheShard A) (F : option CacheEntry -> option CacheEntry) (a : option CacheEntry -> A) :
  cache_wf c ->
  (forall s, wf s -> exists s', m s = (s', Ok (a (contents s !! id))) /\ wf s' /\ contents s' = partial_alter F id (contents s)) ->
  exists c', on_shard id m c = (c', Ok (a (cached c !! id))) /\ cache_wf c' /\ cached c' = partial_alter F id (cached c).
Proof.
  intros W Hm. destruct (on_shard_ok c id m W) as (s & Ws & Hc & Hr & Hk). destruct (Hm s Ws) as (s' & E & W' & C').
  destruct (Hk s' _ E W') as (c' & E' & Wc & _ & Hl).
  { intros j. rewrite C'. destruct (decide (j = id)) as [->|Hj]; [done|]. rewrite lookup_partial_alter_ne by done. apply Hr. }
  exists c'. rewrite Hc by done. split_and!; [done|done|]. apply map_eq. intros j. rewrite Hl.
  destruct (decide (j = id)) as [->|Hj].
  - by rewrite decide_True, C', !lookup_partial_alter_eq, Hc by done.
  - rewrite lookup_partial_alter_ne by done. case_decide; [|done]. by rewrite C', lookup_partial_alter_ne, Hc.
Qed.

Lemma cache_mark_dirty_ok c id :
  cache_wf c -> exists c', cache_mark_dirty id c = (c', Ok tt) /\ cache_wf c' /\ cached c' = alter (set_dirty true) id (cached c).
Proof.
  intros W. apply (on_shard_one c id _ _ (fun _ => tt) W). intros s Ws.
  destruct (shard_mark_dirty_ok s id Ws) as (s' & E & W' & C' & _). eauto.
Qed.

Lemma cache_mark_clean_ok c id :
  cache_wf c -> exists c', cache_mark_clean id c = (c', Ok tt) /\ cache_wf c' /\ cached c' = alter (set_dirty false) id (cached c).
Proof.
  intros W. apply (on_shard_one c id _ _ (fun _ => tt) W). intros s Ws.
  destruct (shard_mark_clean_ok s id Ws) as (s' & E & W' & C' & _). eauto.
Qed.

Lemma cache_pin_ok c id :
  cache_wf c -> exists c', cache_pin id c = (c', Ok (bool_decide (is_Some (cached c !! id)))) /\ cache_wf c' /\ cached c' = alter pin_entry id (cached c).
Proof.
  intros W. apply (on_shard_one c id _ _ (fun o => @bool_decide (is_Some o) (is_Some_dec o)) W). intros s Ws.
  destruct (shard_pin_ok s id Ws) as (s' & E & W' & C' & _). eauto.
Qed.

Lemma cache_unpin_ok c id :
  cache_wf c -> exists c', cache_unpin id c = (c', Ok (match cached c !! id with Some e => (0 <? pin_count e)%nat | None => false end)) /\
    cache_wf c' /\ cached c' = alter unpin_entry id (cached c).
Proof.
  intros W. apply (on_shard_one c id _ _ (fun o => match o with Some e => (0 <? pin_count e)%nat | None => false end) W). intros s Ws.
  destruct (shard_unpin_ok s id Ws) as (s' & E & W' & C' & _). eauto.
Qed.

Lemma cache_remove_ok c id :
  cache_wf c -> exists c', cache_remove id c = (c', Ok (entry_page <$> cached c !! id)) /\ cache_wf c' /\ cached c' = base.delete id (cached c).
Proof.
  intros W. apply (on_shard_one c id _ _ (fun o => entry_page <$> o) W). intros s Ws.
  destruct (shard_remove_ok s id Ws) as (s' & E & W' & C' & _). eauto.
Qed.

Lemma cache_take_dirty_ok c id :
  cache_wf c -> exists c', on_shard id (take_dirty_page id) c = (c', Ok (e ← cached c !! id; evicted_of e)) /\ cache_wf c' /\
    cached c' = alter (set_dirty false) id (cached c).
Proof.
  intros W. apply (on_shard_one c id _ _ (fun o => e ← o; evicted_of e) W). intros s Ws.
  destruct (take_dirty_page_ok s id Ws) as (s' & E & W' & C' & _). eauto.
Qed.

Lemma room_victim_contents s v :
  wf s -> room_victim s = Some v -> exists e, contents s !! v = Some e /\ pin_count e = 0%nat /\ (capacity s <= size (contents s))%nat.
Proof.
  intros W. unfold room_victim. rewrite size_contents by done. destruct (Nat.leb_spec (capacity s) (len s)) as [Hl|]; [|done].
  intros Hv. pose proof (evict_ok s W) as He. rewrite Hv in He. destruct He as (s' & e & Ec & _).
  exists e. split_and!; [done| |done]. by eapply sieve_victim_unpinned.
Qed.

(** Insertion into the cache: the victim, if there is one, is a cached page that is not
    pinned, and a dirty victim is returned. *)
Lemma cache_insert_inner_ok c id page d replace :
  cache_wf c ->
  exists c' out, on_shard id (insert_inner id page d replace) c = (c', Ok out) /\ cache_wf c' /\
    match cached c !! id with
    | Some e => out = None /\ cached c' =
        if replace
        then <[id := {| entry_id := id; entry_page := page; pin_count := pin_count e; dirty := dirty e || d |}]> (cached c)
        else cached c
    | None => exists v, cached c' = <[id := CacheEntry_new id page d]> (without v (cached c)) /\
        out = (w ← v; e ← cached c !! w; evicted_of e) /\
        (forall w, v = Some w -> exists e, cached c !! w = Some e /\ pin_count e = 0%nat)
    end.
Proof.
  intros W. destruct (on_shard_ok c id (insert_inner id page d replace) W) as (s & Ws & Hc & Hr & Hk).
  destruct (insert_inner_ok s id page d replace Ws) as (s' & E & W' & C' & _).
  assert (Hr' : forall j, is_Some (contents s' !! j) -> shard_for j = shard_for id).
  { intros j. rewrite C'. unfold inserted. destruct (decide (j = id)) as [->|Hj]; [done|].
    destruct (contents s !! id); cbn [fst].
    - destruct replace; [rewrite lookup_insert_ne by done|]; apply Hr.
    - rewrite lookup_insert_ne by done. unfold without. destruct (room_victim s) as [w|]; [|apply Hr].
      intros [x [_ Hx]%lookup_delete_Some]. apply Hr. by exists x. }
  destruct (Hk s' _ E W' Hr') as (c' & E' & Wc & _ & Hl). exists c', (inserted s id page d replace).2.
  split_and!; [done|done|]. rewrite (Hc id) by done. unfold inserted in *.
  destruct (contents s !! id) as [e|] eqn:Ei; cbn [fst snd] in *.
  - split; [done|]. apply map_eq. intros j. rewrite Hl. case_decide as Hj.
    + rewrite C'. destruct replace; [|by rewrite Hc].
      destruct (decide (j = id)) as [->|?]; [by rewrite !lookup_insert_eq|by rewrite !lookup_insert_ne, Hc].
    + destruct replace; [|done]. rewrite lookup_insert_ne; [done|]. by intros ->.
  - assert (Hv : forall w, room_victim s = Some w -> shard_for w = shard_for id /\ exists e, cached c !! w = Some e /\ pin_count e = 0%nat).
    { intros w Hw. destruct (room_victim_contents s w Ws Hw) as (e & Ee & Hp & _).
      assert (Hs : shard_for w = shard_for id) by (apply Hr; eauto). split; [done|]. exists e. by rewrite Hc. }
    exists (room_victim s). split_and!; [| |intros w Hw; by apply Hv].
    + apply map_eq. intros j. rewrite Hl. destruct (decide (j = id)) as [->|Hj].
      { by rewrite decide_True, C', !lookup_insert_eq by done. }
      rewrite lookup_insert_ne by done. unfold without in *. destruct (room_victim s) as [w|].
      * case_decide as Hs; [rewrite C', lookup_insert_ne by done|].
        -- destruct (decide (j = w)) as [->|?]; [by rewrite !lookup_delete_eq|by rewrite !lookup_delete_ne, Hc].
        -- rewrite lookup_delete_ne; [done|]. intros ->. by destruct (Hv j eq_refl).
      * case_decide; [by rewrite C', lookup_insert_ne, Hc|done].
    + destruct (room_victim s) as [w|]; [|done]. cbn. destruct (Hv w eq_refl) as [Hs _]. by rewrite Hc.
Qed.

Lemma flush_dirty_pages_ok c ids :
  cache_wf c -> NoDup ids ->
  exists c', flush_dirty_pages ids c = (c', Ok (omap (fun id => e ← cached c !! id; (id,.) <$> evicted_of e) ids)) /\ cache_wf c' /\
    cached c' = cleaned ids (cached c).
Proof.
  intros W Hn. revert c W. induction ids as [|id ids IH]; intros c W; cbn [flush_dirty_pages].
  { exists c. by rewrite cleaned_nil. }
  apply NoDup_cons in Hn as [Hid Hn]. destruct (cache_take_dirty_ok c id W) as (c1 & E1 & W1 & C1).
  rewrite (eff_bind_ok _ _ _ _ _ E1). destruct (IH Hn c1 W1) as (c2 & E2 & W2 & C2).
  rewrite (eff_bind_ok _ _ _ _ _ E2). exists c2. split_and!; [|done|by rewrite C2, C1, cleaned_cons].
  unfold mret, eff_ret. f_equal. f_equal.
  assert (Eo : omap (fun j => e ← cached c1 !! j; (j,.) <$> evicted_of e) ids = omap (fun j => e ← cached c !! j; (j,.) <$> evicted_of e) ids).
  { apply list_omap_ext. apply Forall2_same_length_lookup_2; [done|]. intros i x y Hx Hy. replace y with x by congruence.
    rewrite C1, lookup_alter_ne; [done|]. intros ->. apply Hid. by eapply list_elem_of_lookup_2. }
  rewrite Eo. cbn. destruct (cached c !! id) as [e|]; cbn; [|done]. by destruct (evicted_of e).
Qed.

Section dirty_ids.
Context (iter : gmap Z nat -> list (Z * nat)) (iter_perm : forall m, iter m ≡ₚ map_to_list m).

(** The numbers of the dirty pages, shard by shard *)
Definition dirty_ids (c : PageCache) : list Z := concat ((fun s => (dirty_list iter s).*1) <$> shards c).

Lemma collect_dirty_ids_take max ids ss :
  (length ids <= max)%nat ->
  collect_dirty_ids iter max ids ss = take max (ids ++ concat ((fun s => (dirty_list iter s).*1) <$> ss)).
Proof.
  revert ids. induction ss as [|s ss IH]; intros ids Hl; cbn [collect_dirty_ids fmap list_fmap concat].
  - rewrite app_nil_r. by rewrite take_ge.
  - destruct (Nat.eqb_spec (length ids) max) as [E|E].
    + subst max. by rewrite take_app_length.
    + unfold shard_dirty_page_ids. set (l := (dirty_list iter s).*1). rewrite IH by (rewrite length_app, length_take; lia).
      rewrite <-app_assoc, !take_app, length_take, take_take, Nat.min_id. f_equal. f_equal. f_equal. lia.
Qed.

Lemma cache_dirty_page_ids_ok max c : cache_dirty_page_ids iter max c = take max (dirty_ids c).
Proof. unfold cache_dirty_page_ids. by rewrite collect_dirty_ids_take by (cbn; lia). Qed.

Lemma elem_of_dirty_ids_cached c id :
  cache_wf c -> id ∈ dirty_ids c <-> exists e, cached c !! id = Some e /\ dirty e = true.
Proof.
  intros W. unfold dirty_ids. rewrite list_elem_of_In, in_concat. split.
  - intros (l & Hl & Hid). apply list_elem_of_In, list_elem_of_fmap in Hl as (s & -> & Hs).
    apply list_elem_of_lookup in Hs as [i Hi]. pose proof (cwf_shard c W i s Hi) as Ws.
    apply list_elem_of_In, (elem_of_dirty_ids iter iter_perm s id Ws) in Hid as (e & Ee & Ed).
    exists e. rewrite (cached_shard c id s W); [done|]. by rewrite (cwf_route c W i s id Hi) by eauto.
  - intros (e & Ee & Ed). destruct (lookup_lt_is_Some_2 (shards c) (shard_for id)) as [s Es]; [rewrite (cwf_shards c W); apply shard_for_lt|].
    exists (dirty_list iter s).*1. split.
    + apply list_elem_of_In, list_elem_of_fmap. exists s. split; [done|]. by eapply list_elem_of_lookup_2.
    + apply list_elem_of_In, elem_of_dirty_ids; [done|by eapply cwf_shard|]. exists e. by rewrite <-(cached_shard c id s W Es).
Qed.

Lemma dirty_ids_nodup c : cache_wf c -> NoDup (dirty_ids c).
Proof.
  intros W. unfold dirty_ids.
  assert (Hg : forall ss k, (forall i s, ss !! i = Some s -> wf s /\ forall id, is_Some (contents s !! id) -> shard_for id = (k + i)%nat) ->
    NoDup (concat ((fun s => (dirty_list iter s).*1) <$> ss)) /\
    forall id, id ∈ concat ((fun s => (dirty_list iter s).*1) <$> ss) -> (k <= shard_for id)%nat).
  { induction ss as [|s ss IH]; intros k Hs; cbn [fmap list_fmap concat]; [split; [constructor|by intros id ?%elem_of_nil]|].
    destruct (Hs 0%nat s eq_refl) as [Ws Hr]. rewrite Nat.add_0_r in Hr.
    destruct (IH (Datatypes.S k)) as [Hn Hge].
    { intros i t Hi. destruct (Hs (Datatypes.S i) t Hi) as [Wt Hrt]. split; [done|]. intros id Hid. rewrite Hrt by done. lia. }
    assert (Hk : forall id, id ∈ (dirty_list iter s).*1 -> shard_for id = k).
    { intros id (e & Ee & _)%(elem_of_dirty_ids iter iter_perm); [|done]. apply Hr. eauto. }
    split.
    - apply NoDup_app. split_and!; [by apply dirty_list_nodup| |done]. intros id Hid Hid'. apply Hge in Hid'. rewrite Hk in Hid' by done. lia.
    - intros id [Hid|Hid]%elem_of_app; [rewrite Hk by done; lia|]. apply Hge in Hid. lia. }
  apply (Hg (shards c) 0%nat). intros i s Hi. split; [by eapply cwf_shard|]. intros id. by apply (cwf_route c W).
Qed.

Lemma dirty_ids_length c : (length (dirty_ids c) <= cache_len c)%nat.
Proof.
  unfold dirty_ids, cache_len. induction (shards c) as [|s ss IH]; [done|]. cbn. rewrite length_app.
  assert (length ((dirty_list iter s).*1) <= len s)%nat; [|lia]. rewrite length_fmap. unfold dirty_list, len.
  rewrite <-length_map_to_list, <-(iter_perm (index s)). generalize (iter (index s)). intros l.
  induction l as [|[id slot] l IHl]; [done|]. cbn. destruct (entry_at s slot) as [e|]; cbn; [|lia].
  destruct (dirty e); cbn; lia.
Qed.

End dirty_ids.

(** ** Flushing and clearing all shards *)

Lemma cleaned_restrict ids m id : cleaned ids m !! id = None <-> m !! id = None.
Proof. rewrite lookup_cleaned. by destruct (m !! id). Qed.

(** An operation on one shard that marks some of its pages clean *)
Lemma at_shard_clean c i (m : cache_op PageCacheShard (list (Z * bytes))) :
  cache_wf c -> (i < NUM_SHARDS)%nat ->
  (forall s, wf s -> exists s' pages, m s = (s', Ok pages) /\ wf s' /\ contents s' = cleaned pages.*1 (contents s) /\
     forall id page, (id, page) ∈ pages -> exists e, contents s !! id = Some e /\ evicted_of e = Some page) ->
  exists c' pages, at_shard i m c = (c', Ok pages) /\ cache_wf c' /\ cached c' = cleaned pages.*1 (cached c) /\
    forall id page, (id, page) ∈ pages -> exists e, cached c !! id = Some e /\ evicted_of e = Some page.
Proof.
  intros W Hi Hm. destruct (at_shard_ok c i m W Hi) as (s & _ & Ws & Hc & Hr & Hk).
  destruct (Hm s Ws) as (s' & pages & E & W' & C' & Hp).
  assert (Hpc : forall id page, (id, page) ∈ pages -> shard_for id = i /\ exists e, cached c !! id = Some e /\ evicted_of e = Some page).
  { intros id page Hin. destruct (Hp id page Hin) as (e & Ee & Ep). assert (Hs : shard_for id = i) by (apply Hr; eauto).
    split; [done|]. exists e. by rewrite Hc. }
  destruct (Hk s' _ E W') as (c' & E' & Wc & _ & Hl).
  { intros j Hj. apply Hr. rewrite C', <-not_eq_None_Some, cleaned_restrict, not_eq_None_Some in Hj. done. }
  exists c', pages. split_and!; [done|done| |intros id page Hin; by apply Hpc].
  apply map_eq. intros j. rewrite Hl, !lookup_cleaned. case_decide as Hj; [by rewrite C', lookup_cleaned, Hc|].
  destruct (cached c !! j) as [e|]; [|done]. cbn. rewrite decide_False; [done|].
  intros ([j' page] & -> & Hin)%list_elem_of_fmap. by apply Hj, (Hpc j' page).
Qed.

Section flush_all.
Context (iter : gmap Z nat -> list (Z * nat)) (iter_perm : forall m, iter m ≡ₚ map_to_list m).

Lemma clean_some_ok s pages :
  wf s -> (forall pg, pg ∈ pages -> pg ∈ dirty_list iter s) ->
  exists s' pages', clean_all pages s = (s', Ok pages') /\ wf s' /\ contents s' = cleaned pages'.*1 (contents s) /\
    forall id page, (id, page) ∈ pages' -> exists e, contents s !! id = Some e /\ evicted_of e = Some page.
Proof.
  intros W Hp. destruct (clean_all_ok pages s W) as (s' & E & W' & C' & _). exists s', pages. split_and!; [done|done|done|].
  intros id page Hin. apply Hp, (elem_of_dirty_list iter iter_perm) in Hin as (e & Ee & Ed & <-); [|done].
  exists e. split; [done|]. unfold evicted_of. by rewrite Ed.
Qed.

Lemma elem_of_take {A} (l : list A) n x : x ∈ take n l -> x ∈ l.
Proof. intros Hx. rewrite <-(take_drop n l). apply elem_of_app. by left. Qed.

Lemma shard_flush_some_ok max s :
  wf s -> exists s' pages, shard_flush_some_dirty iter max s = (s', Ok pages) /\ wf s' /\ contents s' = cleaned pages.*1 (contents s) /\
    forall id page, (id, page) ∈ pages -> exists e, contents s !! id = Some e /\ evicted_of e = Some page.
Proof.
  intros W. unfold shard_flush_some_dirty. destruct (max =? 0)%nat.
  - exists s, []. split_and!; [done|done|by rewrite cleaned_nil|]. by intros id page ?%elem_of_nil.
  - apply clean_some_ok; [done|]. intros pg. apply elem_of_take.
Qed.

(** Pages that were collected in one shard are clean when the next one is flushed. *)
Lemma evicted_cleaned ids m id e page :
  cleaned ids m !! id = Some e -> evicted_of e = Some page -> exists e', m !! id = Some e' /\ evicted_of e' = Some page.
Proof.
  rewrite lookup_cleaned. destruct (m !! id) as [e'|]; [|done]. cbn. case_decide; intros [= <-]; [done|]. eauto.
Qed.

Lemma flush_shards_ok n i c :
  cache_wf c -> (i + n <= NUM_SHARDS)%nat ->
  exists c' pages, flush_shards iter n i c = (c', Ok pages) /\ cache_wf c' /\ cached c' = cleaned pages.*1 (cached c) /\
    (forall id page, (id, page) ∈ pages -> exists e, cached c !! id = Some e /\ evicted_of e = Some page) /\
    (forall id e, (i <= shard_for id < i + n)%nat -> cached c' !! id = Some e -> dirty e = false).
Proof.
  revert i c. induction n as [|n IH]; intros i c W Hi; cbn [flush_shards].
  { exists c, []. split_and!; [done|done|by rewrite cleaned_nil|by intros id page ?%elem_of_nil|lia]. }
  destruct (at_shard_ok c i (shard_flush_dirty iter) W ltac:(lia)) as (s & _ & Ws & Hc & Hr & Hk).
  destruct (shard_flush_dirty_ok iter iter_perm s Ws) as (s' & E & W' & C' & _).
  destruct (Hk s' _ E W') as (c1 & E1 & W1 & _ & Hl).
  { intros j. rewrite C', lookup_fmap, fmap_is_Some. apply Hr. }
  rewrite (eff_bind_ok _ _ _ _ _ E1). destruct (IH (i + 1)%nat c1 W1 ltac:(lia)) as (c2 & pages & E2 & W2 & C2 & Hp & Hd).
  rewrite (eff_bind_ok _ _ _ _ _ E2). exists c2, (dirty_list iter s ++ pages).
  assert (C1 : cached c1 = cleaned (dirty_list iter s).*1 (cached c)).
  { apply map_eq. intros j. rewrite Hl, lookup_cleaned. case_decide as Hj.
    - rewrite C', lookup_fmap, Hc by done. destruct (contents s !! j) as [e|] eqn:Ej; [|done]. cbn. f_equal.
      case_decide as Hin; [done|]. destruct (dirty e) eqn:Ed; [|destruct e; cbn in *; by subst].
      destruct Hin. apply (elem_of_dirty_ids iter iter_perm); eauto.
    - destruct (cached c !! j) as [e|]; [|done]. cbn. rewrite decide_False; [done|].
      intros (e' & Ee & _)%(elem_of_dirty_ids iter iter_perm); [|done]. apply Hj, Hr. eauto. }
  split_and!; [done|done|by rewrite C2, C1, cleaned_app, fmap_app| |].
  - intros id page [Hin|Hin]%elem_of_app.
    + apply (elem_of_dirty_list iter iter_perm) in Hin as (e & Ee & Ed & <-); [|done]. exists e.
      rewrite Hc by (apply Hr; eauto). split; [done|]. unfold evicted_of. by rewrite Ed.
    + destruct (Hp id page Hin) as (e & Ee & Ep). rewrite C1 in Ee. by eapply evicted_cleaned.
  - intros id e Hid Ee. destruct (decide (shard_for id = i)) as [Hs|Hs]; [|eapply Hd; [|done]; lia].
    rewrite C2, lookup_cleaned, Hl, decide_True, C', lookup_fmap in Ee by done.
    destruct (contents s !! id); [|done]. cbn in Ee. case_decide; by injection Ee as <-.
Qed.

Lemma flush_some_shards_ok n i max out c :
  cache_wf c -> (i + n <= NUM_SHARDS)%nat ->
  exists c' pages, flush_some_shards iter n i max out c = (c', Ok (out ++ pages)) /\ cache_wf c' /\
    cached c' = cleaned pages.*1 (cached c) /\
    forall id page, (id, page) ∈ pages -> exists e, cached c !! id = Some e /\ evicted_of e = Some page.
Proof.
  revert i out c. induction n as [|n IH]; intros i out c W Hi; cbn [flush_some_shards].
  { exists c, []. rewrite app_nil_r. split_and!; [done|done|by rewrite cleaned_nil|by intros id page ?%elem_of_nil]. }
  destruct (max <=? length out)%nat.
  { exists c, []. rewrite app_nil_r. split_and!; [done|done|by rewrite cleaned_nil|by intros id page ?%elem_of_nil]. }
  destruct (at_shard_clean c i (shard_flush_some_dirty iter (max - length out)) W ltac:(lia)) as (c1 & p1 & E1 & W1 & C1 & Hp1).
  { intros s Ws. by apply shard_flush_some_ok. }
  rewrite (eff_bind_ok _ _ _ _ _ E1). destruct (IH (i + 1)%nat (out ++ p1) c1 W1 ltac:(lia)) as (c2 & p2 & E2 & W2 & C2 & Hp2).
  exists c2, (p1 ++ p2). rewrite app_assoc. split_and!; [done|done|by rewrite C2, C1, cleaned_app, fmap_app|].
  intros id page [Hin|Hin]%elem_of_app; [by apply Hp1|]. destruct (Hp2 id page Hin) as (e & Ee & Ep).
  rewrite C1 in Ee. by eapply evicted_cleaned.
Qed.

End flush_all.

Lemma cache_clear_ok c : cache_wf c -> exists c', cache_clear c = (c', Ok tt) /\ cache_wf c' /\ cached c' = ∅.
Proof.
  intros W. unfold cache_clear.
  assert (Hg : forall n i c, cache_wf c -> (i + n <= NUM_SHARDS)%nat ->
    exists c', for_each (seq i n) (fun i => at_shard i shard_clear) c = (c', Ok tt) /\ cache_wf c' /\
      forall id, cached c' !! id = if decide (i <= shard_for id < i + n)%nat then None else cached c !! id).
  { clear c W. induction n as [|n IH]; intros i c W Hi; cbn [seq for_each].
    { exists c. split_and!; [done|done|]. intros id. by rewrite decide_False by lia. }
    destruct (at_shard_ok c i shard_clear W ltac:(lia)) as (s & _ & Ws & _ & _ & Hk).
    destruct (shard_clear_ok s Ws) as (s' & E & W' & C' & _). destruct (Hk s' _ E W') as (c1 & E1 & W1 & _ & Hl).
    { intros j. rewrite C', lookup_empty. by intros [? ?]. }
    rewrite (eff_bind_ok _ _ _ _ _ E1). destruct (IH (Datatypes.S i) c1 W1 ltac:(lia)) as (c2 & E2 & W2 & Hl2).
    exists c2. split_and!; [done|done|]. intros id. rewrite Hl2, Hl, C', lookup_empty. repeat case_decide; done || lia. }
  destruct (Hg NUM_SHARDS 0%nat c W ltac:(lia)) as (c' & E & W' & Hl). exists c'. split_and!; [done|done|].
  apply map_eq. intros id. rewrite Hl, lookup_empty. rewrite decide_True; [done|]. pose proof (shard_for_lt id). lia.
Qed.

Lemma shard_new_wf n : wf (PageCacheShard_new n) /\ contents (PageCacheShard_new n) = ∅.
Proof.
  split; [|done]. split; cbn; [lia|done|done|constructor| |constructor| |by rewrite length_replicate|by rewrite length_replicate|].
  - intros id. rewrite lookup_empty. split; [by intros ?%elem_of_nil|by intros [? ?]].
  - intros slot. rewrite lookup_nil. split; [by intros ?%elem_of_nil|done].
  - intros slot Hs. unfold tag_at. cbn. rewrite lookup_replicate_2 by lia. unfold entry_at. cbn. by rewrite lookup_nil.
Qed.

Lemma cache_new_wf n : cache_wf (PageCache_new n) /\ cached (PageCache_new n) = ∅.
Proof.
  destruct (shard_new_wf (Nat.max (Nat.div (n + (NUM_SHARDS - 1)) NUM_SHARDS) MIN_CACHE_CAPACITY)) as [W C]. split.
  - split; cbn [shards PageCache_new].
    + by rewrite length_replicate.
    + by intros i s [-> _]%lookup_replicate_1.
    + intros i s id [-> _]%lookup_replicate_1. rewrite C, lookup_empty. by intros [? ?].
  - unfold cached. cbn [shards PageCache_new]. revert C. generalize (PageCacheShard_new (Nat.max (Nat.div (n + (NUM_SHARDS - 1)) NUM_SHARDS) MIN_CACHE_CAPACITY)).
    intros s C. generalize NUM_SHARDS. intros k. induction k as [|k IH]; [done|].
    cbn [replicate foldr]. rewrite IH, C. by rewrite (left_id_L ∅ (∪)).
Qed.

(** * No dirty page is lost

    The dirty pages are those that were changed since they were last handed out to be
    written. *)

Definition dirty_pages (c : PageCache) : gmap Z bytes := omap evicted_of (cached c).

Lemma lookup_dirty (m : gmap Z CacheEntry) (id : Z) : omap evicted_of m !! id = m !! id ≫= evicted_of.
Proof. apply lookup_omap. Qed.

Lemma dirty_cleaned ids (m : gmap Z CacheEntry) id :
  omap evicted_of (cleaned ids m) !! id = if decide (id ∈ ids) then None else omap evicted_of m !! id.
Proof.
  rewrite !lookup_dirty, lookup_cleaned. destruct (m !! id) as [e|]; cbn; [|by case_decide]. by case_decide.
Qed.

Lemma dirty_alter f id (m : gmap Z CacheEntry) :
  (forall e, evicted_of (f e) = evicted_of e) -> omap evicted_of (alter f id m) = omap evicted_of m.
Proof.
  intros Hf. apply map_eq. intros j. rewrite !lookup_dirty. destruct (decide (j = id)) as [->|Hj].
  - rewrite lookup_alter_eq. destruct (m !! id); cbn; auto.
  - by rewrite lookup_alter_ne.
Qed.

Lemma dirty_mark_clean id (m : gmap Z CacheEntry) : omap evicted_of (alter (set_dirty false) id m) = base.delete id (omap evicted_of m).
Proof.
  apply map_eq. intros j. rewrite lookup_dirty. destruct (decide (j = id)) as [->|Hj].
  - rewrite lookup_alter_eq, lookup_delete_eq. by destruct (m !! id).
  - by rewrite lookup_alter_ne, lookup_delete_ne, lookup_dirty.
Qed.

Lemma dirty_delete id (m : gmap Z CacheEntry) : omap evicted_of (base.delete id m) = base.delete id (omap evicted_of m).
Proof.
  apply map_eq. intros j. rewrite lookup_dirty. destruct (decide (j = id)) as [->|Hj].
  - by rewrite !lookup_delete_eq.
  - by rewrite !lookup_delete_ne, lookup_dirty.
Qed.

Lemma dirty_insert id e (m : gmap Z CacheEntry) : omap evicted_of (<[id := e]> m) = partial_alter (fun _ => evicted_of e) id (omap evicted_of m).
Proof.
  apply map_eq. intros j. rewrite lookup_dirty. destruct (decide (j = id)) as [->|Hj].
  - by rewrite lookup_insert_eq, lookup_partial_alter_eq.
  - by rewrite lookup_insert_ne, lookup_partial_alter_ne, lookup_dirty.
Qed.

Lemma flush_dirty_pages_any c ids :
  cache_wf c ->
  exists c' pages, flush_dirty_pages ids c = (c', Ok pages) /\ cache_wf c' /\ cached c' = cleaned ids (cached c) /\
    forall id page, (id, page) ∈ pages <-> id ∈ ids /\ dirty_pages c !! id = Some page.
Proof.
  revert c. induction ids as [|id ids IH]; intros c W; cbn [flush_dirty_pages].
  { exists c, []. split_and!; [done|done|by rewrite cleaned_nil|]. intros id page. rewrite !elem_of_nil. tauto. }
  destruct (cache_take_dirty_ok c id W) as (c1 & E1 & W1 & C1). rewrite (eff_bind_ok _ _ _ _ _ E1).
  destruct (IH c1 W1) as (c2 & pages & E2 & W2 & C2 & Hp). rewrite (eff_bind_ok _ _ _ _ _ E2).
  do 2 eexists. split; [reflexivity|]. split; [done|]. split; [by rewrite C2, C1, cleaned_cons|].
  assert (D1 : dirty_pages c1 = base.delete id (dirty_pages c)) by (unfold dirty_pages; by rewrite C1, dirty_mark_clean).
  assert (Dp : (e ← cached c !! id; evicted_of e) = dirty_pages c !! id) by (unfold dirty_pages; by rewrite lookup_dirty).
  rewrite Dp. intros j page. rewrite elem_of_cons. rewrite D1 in Hp.
  assert (Hj : (j, page) ∈ pages <-> j <> id /\ j ∈ ids /\ dirty_pages c !! j = Some page).
  { rewrite Hp, lookup_delete_Some. naive_solver. }
  destruct (dirty_pages c !! id) as [p|] eqn:Ed; [rewrite elem_of_cons|]; rewrite Hj; destruct (decide (j = id)) as [->|?];
    naive_solver.
Qed.

(** ** Commands *)

Inductive cache_cmd : Type :=
| CGet (id : Z)
| CInsert (id : Z) (page : bytes)
| CInsertDirty (id : Z) (page : bytes)
| CInsertIfAbsent (id : Z) (page : bytes)
| CMarkDirty (id : Z)
| CMarkClean (id : Z)
| CPin (id : Z)
| CUnpin (id : Z)
| CRemove (id : Z)
| CFlushDirty
| CFlushPages (ids : list Z)
| CFlushSome (max : nat)
| CClear.

Inductive cache_answer : Type :=
| APage (page : option bytes)
| APages (pages : list (Z * bytes))
| ABool (b : bool)
| AUnit.

(** [o] is what is returned to be written when [id] takes the place of another page. *)
Definition evicts (D : gmap Z bytes) (id : Z) (o : option bytes) (D' : gmap Z bytes) : Prop :=
  match o with
  | None => D' = D
  | Some page => exists w, w <> id /\ D !! w = Some page /\ D' = base.delete w D
  end.

(** What becomes of the dirty pages: each stays, is replaced by a newer image of itself, or is
    part of the answer; [CMarkClean], [CRemove] and [CClear] drop the pages they name. *)
Definition ledger (D : gmap Z bytes) (x : cache_cmd) (a : cache_answer) (D' : gmap Z bytes) : Prop :=
  match x, a with
  | CGet _, APage _ => D' = D
  | CInsert id page, APage o => exists D1, evicts D id o D1 /\ D' = alter (fun _ => page) id D1
  | CInsertDirty id page, APage o => exists D1, evicts D id o D1 /\ D' = <[id := page]> D1
  | CInsertIfAbsent id page, APage o => evicts D id o D'
  | CMarkDirty id, AUnit => base.delete id D' = base.delete id D /\ (is_Some (D !! id) -> D' = D)
  | CMarkClean id, AUnit => D' = base.delete id D
  | CPin _, ABool _ | CUnpin _, ABool _ => D' = D
  | CRemove id, APage o => D' = base.delete id D /\ forall page, D !! id = Some page -> o = Some page
  | CFlushDirty, APages l => D' = ∅ /\ forall id page, (id, page) ∈ l <-> D !! id = Some page
  | CFlushPages ids, APages l =>
      (forall id page, (id, page) ∈ l <-> id ∈ ids /\ D !! id = Some page) /\
      forall id, D' !! id = if decide (id ∈ ids) then None else D !! id
  | CFlushSome max, APages l =>
      (forall id page, (id, page) ∈ l -> D !! id = Some page) /\
      forall id, D' !! id = if decide (id ∈ l.*1) then None else D !! id
  | CClear, AUnit => D' = ∅
  | _, _ => False
  end.

Definition answering {A} (f : A -> cache_answer) (m : cache_op PageCache A) : cache_op PageCache cache_answer :=
  a ← m; mret (f a).

Section commands.
Context (iter : gmap Z nat -> list (Z * nat)) (iter_perm : forall m, iter m ≡ₚ map_to_list m).

Definition cache_exec (x : cache_cmd) : cache_op PageCache cache_answer :=
  match x with
  | CGet id => answering APage (cache_get id)
  | CInsert id page => answering APage (cache_insert id page)
  | CInsertDirty id page => answering APage (cache_insert_dirty id page)
  | CInsertIfAbsent id page => answering APage (cache_insert_if_absent id page)
  | CMarkDirty id => answering (fun _ => AUnit) (cache_mark_dirty id)
  | CMarkClean id => answering (fun _ => AUnit) (cache_mark_clean id)
  | CPin id => answering ABool (cache_pin id)
  | CUnpin id => answering ABool (cache_unpin id)
  | CRemove id => answering APage (cache_remove id)
  | CFlushDirty => answering APages (cache_flush_dirty iter)
  | CFlushPages ids => answering APages (flush_dirty_pages ids)
  | CFlushSome max => answering APages (cache_flush_some_dirty iter max)
  | CClear => answering (fun _ => AUnit) cache_clear
  end.

Lemma answering_ok {A} (f : A -> cache_answer) m c c' (a : A) x :
  m c = (c', Ok a) -> cache_wf c' -> ledger (dirty_pages c) x (f a) (dirty_pages c') ->
  exists c' r, answering f m c = (c', Ok r) /\ cache_wf c' /\ ledger (dirty_pages c) x r (dirty_pages c').
Proof. intros E W L. exists c', (f a). split; [|done]. unfold answering. by rewrite (eff_bind_ok _ _ _ _ _ E). Qed.

(** The dirty pages after an insertion *)
Lemma insert_evicts c id page d replace :
  cache_wf c ->
  exists c' out, on_shard id (insert_inner id page d replace) c = (c', Ok out) /\ cache_wf c' /\
    exists D1, evicts (dirty_pages c) id out D1 /\
      dirty_pages c' = match cached c !! id with
        | Some e => if replace then (if d || dirty e then <[id := page]> D1 else D1) else D1
        | None => if d then <[id := page]> D1 else D1
        end.
Proof.
  intros W. destruct (cache_insert_inner_ok c id page d replace W) as (c' & out & E & W' & H). exists c', out.
  split_and!; [done|done|]. destruct (cached c !! id) as [e|] eqn:Ei.
  - destruct H as [-> C']. exists (dirty_pages c). split; [done|]. unfold dirty_pages. rewrite C'.
    destruct replace; [|done]. rewrite dirty_insert. unfold evicted_of. cbn. rewrite orb_comm. destruct (d || dirty e) eqn:Ed; [done|].
    apply map_eq. intros j. destruct (decide (j = id)) as [->|?]; [|by rewrite lookup_partial_alter_ne].
    rewrite lookup_partial_alter_eq, lookup_dirty, Ei. cbn. apply orb_false_iff in Ed as [_ Ed]. unfold evicted_of. by rewrite Ed.
  - destruct H as (v & C' & Ho & Hv). unfold dirty_pages in *.
    assert (Hid : omap evicted_of (cached c) !! id = None) by (by rewrite lookup_dirty, Ei).
    exists (omap evicted_of (without v (cached c))). split.
    + subst out. unfold evicts. destruct v as [w|]; [|done]. destruct (Hv w eq_refl) as (e & Ee & _). cbn. rewrite Ee. cbn.
      rewrite dirty_delete. destruct (evicted_of e) as [p|] eqn:Ep.
      * exists w. split_and!; [congruence|by rewrite lookup_dirty, Ee|done].
      * apply delete_id. by rewrite lookup_dirty, Ee.
    + rewrite C', dirty_insert. unfold CacheEntry_new, evicted_of at 1. cbn. destruct d; [done|].
      apply map_eq. intros j. destruct (decide (j = id)) as [->|?]; [|by rewrite lookup_partial_alter_ne].
      rewrite lookup_partial_alter_eq. symmetry. unfold without. destruct v; [|done]. rewrite dirty_delete, lookup_delete_None. by right.
Qed.

Lemma insert_ledger c id page :
  cache_wf c -> exists c' out, cache_insert id page c = (c', Ok out) /\ cache_wf c' /\
    ledger (dirty_pages c) (CInsert id page) (APage out) (dirty_pages c').
Proof.
  intros W. destruct (insert_evicts c id page false true W) as (c' & out & E & W' & D1 & He & D'). exists c', out.
  split_and!; [done|done|]. exists D1. split; [done|]. rewrite D'.
  assert (Hd : D1 !! id = dirty_pages c !! id).
  { unfold evicts in He. destruct out as [p|]; [|by subst D1]. destruct He as (w & Hw & _ & ->). by rewrite lookup_delete_ne. }
  assert (Hl : dirty_pages c !! id = cached c !! id ≫= evicted_of) by apply lookup_dirty. rewrite Hl in Hd.
  destruct (cached c !! id) as [e|]; cbn [orb] in *.
  - unfold evicted_of in Hd. cbn in Hd. destruct (dirty e).
    + apply map_eq. intros j. destruct (decide (j = id)) as [->|?]; [by rewrite lookup_insert_eq, lookup_alter_eq, Hd|].
      by rewrite lookup_insert_ne, lookup_alter_ne.
    + apply map_eq. intros j. destruct (decide (j = id)) as [->|?]; [by rewrite lookup_alter_eq, Hd|by rewrite lookup_alter_ne].
  - apply map_eq. intros j. destruct (decide (j = id)) as [->|?]; [by rewrite lookup_alter_eq, Hd|by rewrite lookup_alter_ne].
Qed.

Lemma insert_dirty_ledger c id page :
  cache_wf c -> exists c' out, cache_insert_dirty id page c = (c', Ok out) /\ cache_wf c' /\
    ledger (dirty_pages c) (CInsertDirty id page) (APage out) (dirty_pages c').
Proof.
  intros W. destruct (insert_evicts c id page true true W) as (c' & out & E & W' & D1 & He & D'). exists c', out.
  split_and!; [done|done|]. exists D1. split; [done|]. rewrite D'. by destruct (cached c !! id).
Qed.

Lemma insert_if_absent_ledger c id page :
  cache_wf c -> exists c' out, cache_insert_if_absent id page c = (c', Ok out) /\ cache_wf c' /\
    ledger (dirty_pages c) (CInsertIfAbsent id page) (APage out) (dirty_pages c').
Proof.
  intros W. destruct (insert_evicts c id page false false W) as (c' & out & E & W' & D1 & He & D'). exists c', out.
  split_and!; [done|done|]. cbn. by destruct (cached c !! id); rewrite D'.
Qed.

Lemma mark_dirty_ledger c id :
  cache_wf c -> exists c', cache_mark_dirty id c = (c', Ok tt) /\ cache_wf c' /\
    ledger (dirty_pages c) (CMarkDirty id) AUnit (dirty_pages c').
Proof.
  intros W. destruct (cache_mark_dirty_ok c id W) as (c' & E & W' & C'). exists c'. split_and!; [done|done|].
  unfold dirty_pages. rewrite C'. cbn. split.
  - rewrite <-!dirty_delete. f_equal. apply map_eq. intros j. destruct (decide (j = id)) as [->|?]; [by rewrite !lookup_delete_eq|].
    by rewrite !lookup_delete_ne, lookup_alter_ne.
  - intros [p Hp]. rewrite lookup_dirty in Hp. apply map_eq. intros j. rewrite !lookup_dirty.
    destruct (decide (j = id)) as [->|?]; [|by rewrite lookup_alter_ne]. rewrite lookup_alter_eq.
    destruct (cached c !! id) as [e|]; [|done]. cbn in *. unfold evicted_of in *. cbn. by destruct (dirty e).
Qed.

Lemma flush_dirty_ledger c :
  cache_wf c -> exists c' pages, cache_flush_dirty iter c = (c', Ok pages) /\ cache_wf c' /\
    ledger (dirty_pages c) CFlushDirty (APages pages) (dirty_pages c').
Proof.
  intros W. destruct (flush_shards_ok iter iter_perm NUM_SHARDS 0 c W ltac:(lia)) as (c' & pages & E & W' & C' & Hp & Hd).
  exists c', pages. split_and!; [done|done|]. unfold dirty_pages. cbn.
  assert (Hclean : omap evicted_of (cached c') = ∅).
  { apply map_eq. intros id. rewrite lookup_dirty, lookup_empty. destruct (cached c' !! id) as [e|] eqn:Ee; [|done]. cbn.
    unfold evicted_of. by rewrite (Hd id e) by (done || pose proof (shard_for_lt id); lia). }
  split; [done|]. intros id page. split.
  - intros Hin. destruct (Hp id page Hin) as (e & Ee & Ep). by rewrite lookup_dirty, Ee.
  - intros Hl. assert (Hc : omap evicted_of (cached c') !! id = None) by (by rewrite Hclean, lookup_empty).
    rewrite C', dirty_cleaned in Hc. case_decide as Hin; [|congruence].
    apply list_elem_of_fmap in Hin as ([j p] & -> & Hin). destruct (Hp j p Hin) as (e & Ee & Ep).
    cbn in Hl. rewrite lookup_dirty, Ee in Hl. cbn in Hl. replace page with p by congruence. done.
Qed.

Lemma flush_some_ledger c max :
  cache_wf c -> exists c' pages, cache_flush_some_dirty iter max c = (c', Ok pages) /\ cache_wf c' /\
    ledger (dirty_pages c) (CFlushSome max) (APages pages) (dirty_pages c').
Proof.
  intros W. assert (H : exists c' pages, cache_flush_some_dirty iter max c = (c', Ok pages) /\ cache_wf c' /\
    cached c' = cleaned pages.*1 (cached c) /\
    forall id page, (id, page) ∈ pages -> exists e, cached c !! id = Some e /\ evicted_of e = Some page).
  { unfold cache_flush_some_dirty. destruct (max =? 0)%nat.
    - exists c, []. split_and!; [done|done|by rewrite cleaned_nil|by intros id page ?%elem_of_nil].
    - exact (flush_some_shards_ok iter iter_perm NUM_SHARDS 0 max [] c W ltac:(lia)). }
  destruct H as (c' & pages & E & W' & C' & Hp). exists c', pages. split_and!; [done|done|]. unfold dirty_pages. cbn. split.
  - intros id page Hin. destruct (Hp id page Hin) as (e & Ee & Ep). by rewrite lookup_dirty, Ee.
  - intros id. by rewrite C', dirty_cleaned.
Qed.

(** C22. No operation of the cache panics, and no dirty page is lost: after each command, every page
    that was dirty is still dirty with its newest image, or it was returned to be written, or the
    command named it to be dropped or cleaned. *)
Theorem cache_accounts_for_dirty_pages c x :
  cache_wf c ->
  exists c' a, cache_exec x c = (c', Ok a) /\ cache_wf c' /\ ledger (dirty_pages c) x a (dirty_pages c').
Proof.
  intros W. destruct x as [id|id page|id page|id page|id|id|id|id|id| |ids|max|]; cbn [cache_exec].
  - destruct (cache_get_ok c id W) as (c' & E & W' & C'). eapply answering_ok; [exact E|done|]. unfold dirty_pages. by rewrite C'.
  - destruct (insert_ledger c id page W) as (c' & out & E & W' & L). by eapply answering_ok.
  - destruct (insert_dirty_ledger c id page W) as (c' & out & E & W' & L). by eapply answering_ok.
  - destruct (insert_if_absent_ledger c id page W) as (c' & out & E & W' & L). by eapply answering_ok.
  - destruct (mark_dirty_ledger c id W) as (c' & E & W' & L). by eapply answering_ok.
  - destruct (cache_mark_clean_ok c id W) as (c' & E & W' & C'). eapply answering_ok; [exact E|done|].
    unfold dirty_pages. by rewrite C', dirty_mark_clean.
  - destruct (cache_pin_ok c id W) as (c' & E & W' & C'). eapply answering_ok; [exact E|done|].
    unfold dirty_pages. by rewrite C', dirty_alter.
  - destruct (cache_unpin_ok c id W) as (c' & E & W' & C'). eapply answering_ok; [exact E|done|].
    unfold dirty_pages. by rewrite C', dirty_alter.
  - destruct (cache_remove_ok c id W) as (c' & E & W' & C'). eapply answering_ok; [exact E|done|].
    unfold dirty_pages. rewrite C', dirty_delete. split; [done|]. intros page. rewrite lookup_dirty. destruct (cached c !! id) as [e|]; [|done].
    cbn. unfold evicted_of. by destruct (dirty e).
  - destruct (flush_dirty_ledger c W) as (c' & pages & E & W' & L). by eapply answering_ok.
  - destruct (flush_dirty_pages_any c ids W) as (c' & pages & E & W' & C' & Hp). eapply answering_ok; [exact E|done|].
    split; [exact Hp|]. intros id. unfold dirty_pages. by rewrite C', dirty_cleaned.
  - destruct (flush_some_ledger c max W) as (c' & pages & E & W' & L). by eapply answering_ok.
  - destruct (cache_clear_ok c W) as (c' & E & W' & C'). eapply answering_ok; [exact E|done|]. unfold dirty_pages. by rewrite C'.
Qed.

End commands.

(** C23. An insertion into a full shard evicts the page that SIEVE chooses: the first one from the hand
    on that is neither pinned nor visited, else the first that is not pinned.  Its image is returned
    when it is dirty, and the shard does not grow.  Only when every page is pinned does it grow. *)
Theorem sieve_insertion s id page d :
  wf s -> contents s !! id = None ->
  exists s' out, insert_inner id page d true s = (s', Ok out) /\ wf s' /\
    ((len s < capacity s)%nat -> out = None /\ contents s' = <[id := CacheEntry_new id page d]> (contents s)) /\
    ((capacity s <= len s)%nat ->
      match sieve_victim s with
      | Some v => exists e, contents s !! v = Some e /\ pin_count e = 0%nat /\ out = evicted_of e /\
          contents s' = <[id := CacheEntry_new id page d]> (base.delete v (contents s)) /\ len s' = len s
      | None => (forall j e, contents s !! j = Some e -> (0 < pin_count e)%nat) /\ out = None /\
          contents s' = <[id := CacheEntry_new id page d]> (contents s)
      end).
Proof.
  intros W Ec. destruct (insert_inner_ok s id page d true W) as (s' & E & W' & C' & _). unfold inserted in *. rewrite Ec in *.
  cbn [fst snd] in *. do 2 eexists. split; [exact E|]. split; [done|]. unfold room_victim in *.
  split; intros Hl; [rewrite (proj2 (Nat.leb_gt _ _) Hl) in *|rewrite (proj2 (Nat.leb_le _ _) Hl) in *]; [done|].
  destruct (sieve_victim s) as [v|] eqn:Ev; [|by split; [apply sieve_victim_None|]].
  pose proof (evict_ok s W) as He. rewrite Ev in He. destruct He as (_ & e & Ee & _). exists e.
  split_and!; [done|exact (sieve_victim_unpinned s v e W Ev Ee)|cbn; by rewrite Ee|done|].
  rewrite <-!size_contents, C' by done. cbn [without]. rewrite map_size_insert_None by (rewrite lookup_delete_None; by right).
  rewrite map_size_delete, Ee. cbn. assert (Hne : size (contents s) <> 0%nat) by (intros H0%map_size_empty_inv; rewrite H0 in Ee; done). lia.
Qed.

(** ** Witnesses *)

Lemma cache_accounts_for_dirty_pages_witness :
  exists c' a, cache_exec map_to_list (CInsertDirty 5 [1; 2]) (PageCache_new 16) = (c', Ok a) /\
    ledger ∅ (CInsertDirty 5 [1; 2]) a (dirty_pages c').
Proof.
  destruct (cache_accounts_for_dirty_pages map_to_list (fun _ => reflexivity _) (PageCache_new 16) (CInsertDirty 5 [1; 2])
    (proj1 (cache_new_wf 16))) as (c' & a & E & _ & L).
  exists c', a. split; [exact E|]. unfold dirty_pages at 1 in L. rewrite (proj2 (cache_new_wf 16)) in L. exact L.
Defined.

(** A shard with room for two pages, both dirty, the older one hit since *)
Definition sample_shard : PageCacheShard :=
  (shard_get 8 (shard_insert_dirty 16 [2] (shard_insert_dirty 8 [1] (PageCacheShard_new 2)).1).1).1.

Lemma sample_shard_wf : wf sample_shard.
Proof.
  unfold sample_shard, shard_insert_dirty.
  destruct (insert_inner_ok (PageCacheShard_new 2) 8 [1] true true (proj1 (shard_new_wf 2))) as (s1 & E1 & W1 & _). rewrite E1.
  cbn [fst]. destruct (insert_inner_ok s1 16 [2] true true W1) as (s2 & E2 & W2 & _). rewrite E2. cbn [fst].
  destruct (shard_get_ok s2 8 W2) as (s3 & E3 & H3). rewrite E3. cbn [fst]. by apply (same_pages_ok s2).
Qed.

Lemma sieve_insertion_witness :
  exists s' out, insert_inner 24 [3] true true sample_shard = (s', Ok out) /\ out = Some [2] /\
    contents s' !! 16 = None /\ len s' = 2%nat.
Proof.
  destruct (sieve_insertion sample_shard 24 [3] true sample_shard_wf) as (s' & out & E & _ & _ & H); [vm_compute; reflexivity|].
  assert (Hl : (capacity sample_shard <= len sample_shard)%nat) by (vm_compute; lia). specialize (H Hl).
  assert (Ev : sieve_victim sample_shard = Some 16) by (vm_compute; reflexivity). rewrite Ev in H.
  destruct H as (e & Ee & _ & Ho & Hc & Hlen). exists s', out. split; [exact E|].
  assert (He : contents sample_shard !! 16 = Some {| entry_id := 16; entry_page := [2]; pin_count := 0; dirty := true |}) by (vm_compute; reflexivity).
  assert (e = {| entry_id := 16; entry_page := [2]; pin_count := 0; dirty := true |}) as -> by congruence.
  split; [exact Ho|]. split; [rewrite Hc; vm_compute; reflexivity|]. rewrite Hlen. vm_compute. reflexivity.
Defined.
