(* ===== verification/FreeList.v ===== *)
(** * The free-page list ([crates/reddb-engine/src/storage/freelist.rs])

    The in-memory list of free page numbers and the trunk pages that persist
    its overflow.  A [Vec] is a list whose last element is on top. *)

From S2P Require Import Prelude FileFormat Page.
From Stdlib Require Import ZArith Lia.
From stdpp Require Import pretty.
#[local] Open Scope Z_scope.

Definition FREE_IDS_PER_TRUNK : Z := (PAGE_SIZE - HEADER_SIZE - 8) / 4.
Definition NEXT_TRUNK_OFFSET : Z := HEADER_SIZE.
Definition COUNT_OFFSET : Z := HEADER_SIZE + 4.
Definition PAGE_IDS_OFFSET : Z := HEADER_SIZE + 8.

Inductive FreeListError : Type :=
| FreeListEmpty
| FreeListCorrupted (msg : string)
| InvalidTrunk (id : Z).

#[global] Instance FreeListError_eq_dec : EqDecision FreeListError.
Proof. solve_decision. Defined.

Record FreeList : Type := {
  trunk_head : Z;
  free_pages : list Z;
  total_free : Z;
  dirty : bool;
}.

Definition FreeList_new : FreeList :=
  {| trunk_head := 0; free_pages := []; total_free := 0; dirty := false |}.

Definition from_header (head total : Z) : FreeList :=
  {| trunk_head := head; free_pages := []; total_free := total; dirty := false |}.

Definition note_durable_trunk_allocation (fl : FreeList) (remaining_in_trunk : Z) : FreeList :=
  {| trunk_head := trunk_head fl; free_pages := free_pages fl;
     total_free := Z.max (sat_sub (total_free fl) 1) remaining_in_trunk; dirty := dirty fl |}.

Definition is_empty (fl : FreeList) : bool :=
  match free_pages fl with [] => true | _ => false end && (trunk_head fl =? 0).

Definition mark_clean (fl : FreeList) : FreeList :=
  {| trunk_head := trunk_head fl; free_pages := free_pages fl; total_free := total_free fl;
     dirty := false |}.

(** [Vec::pop] *)
Definition vec_pop {A} (l : list A) : option (A * list A) :=
  match last l with Some x => Some (x, take (length l - 1) l) | None => None end.

Definition allocate (fl : FreeList) : FreeList * option Z :=
  match vec_pop (free_pages fl) with
  | Some (id, rest) =>
      ({| trunk_head := trunk_head fl; free_pages := rest;
          total_free := sat_sub (total_free fl) 1; dirty := true |}, Some id)
  | None => (fl, None)
  end.

Definition free (fl : FreeList) (id : Z) : FreeList :=
  {| trunk_head := trunk_head fl; free_pages := free_pages fl ++ [id];
     total_free := as_u32 (total_free fl + 1); dirty := true |}.

Definition free_batch (fl : FreeList) (ids : list Z) : FreeList :=
  {| trunk_head := trunk_head fl; free_pages := free_pages fl ++ ids;
     total_free := as_u32 (total_free fl + as_u32 (zlen ids)); dirty := true |}.

Definition in_memory_count (fl : FreeList) : Z := zlen (free_pages fl).
Definition next_in_memory_page (fl : FreeList) : option Z := last (free_pages fl).

Definition contains_any (fl : FreeList) (pages : gset Z) : bool :=
  existsb (fun id => bool_decide (id ∈ pages)) (free_pages fl).

(** The [for] loop over the resident pages, with the set that shrinks *)
Fixpoint remove_existing_loop (ids : list Z) (requested remaining : gset Z)
    : result FreeListError (gset Z) :=
  match ids with
  | [] => Ok remaining
  | id :: ids =>
      if bool_decide (id ∈ requested) then
        if bool_decide (id ∈ remaining)
        then remove_existing_loop ids requested (remaining ∖ {[id]})
        else Err (FreeListCorrupted "duplicate recovery page")
      else remove_existing_loop ids requested remaining
  end.

Definition remove_existing_from (fl : FreeList) (requested remaining : gset Z)
    : result FreeListError (gset Z) :=
  remove_existing_loop (free_pages fl) requested remaining.

(** The page numbers a trunk lists *)
Definition trunk_ids (trunk : bytes) (count : Z) : list Z :=
  (fun i => u32_at trunk (PAGE_IDS_OFFSET + i * 4)) <$> seqZ 0 count.

Definition load_from_trunk (fl : FreeList) (trunk : bytes)
    : result FreeListError (FreeList * option Z) :=
  t ← map_err (fun _ => InvalidTrunk (page_id trunk)) (page_type trunk);
  if negb (bool_decide (t = FreelistTrunk)) then Err (InvalidTrunk (page_id trunk))
  else
    let next_trunk := u32_at trunk NEXT_TRUNK_OFFSET in
    if next_trunk =? page_id trunk then Err (FreeListCorrupted "trunk points to itself")
    else
      let count := u32_at trunk COUNT_OFFSET in
      if FREE_IDS_PER_TRUNK <? count
      then Err (FreeListCorrupted ("Trunk has " +:+ pretty count +:+ " entries, max is " +:+ pretty FREE_IDS_PER_TRUNK))
      else
        let pages := free_pages fl ++ [page_id trunk] ++ trunk_ids trunk count in
        Ok ({| trunk_head := next_trunk; free_pages := pages;
               total_free := Z.max (sat_add U32_MAX (total_free fl) 1) (as_u32 (zlen pages));
               dirty := true |},
            if negb (next_trunk =? 0) then Some next_trunk else None).

(** The loop that pops page numbers into the trunk; [n] iterations remain, [i]
    is the next slot.  [pop().unwrap()] of an empty list panics. *)
Fixpoint write_trunk_ids (n : nat) (i : Z) (data : bytes) (pages : list Z)
    : result FreeListError (bytes * list Z) :=
  match n with
  | O => Ok (data, pages)
  | S n =>
      match vec_pop pages with
      | None => Panic
      | Some (id, pages) =>
          write_trunk_ids n (i + 1) (put_u32 data (PAGE_IDS_OFFSET + i * 4) id) pages
      end
  end.

Section with_crc.
Context (crc32 : bytes -> Z).

Definition create_trunk (fl : FreeList) (trunk_page_id next_trunk : Z)
    : result FreeListError (FreeList * bytes) :=
  let data := Page_new FreelistTrunk trunk_page_id in
  let data := put_u32 data NEXT_TRUNK_OFFSET next_trunk in
  let count := Z.min (zlen (free_pages fl)) FREE_IDS_PER_TRUNK in
  let data := put_u32 data COUNT_OFFSET (as_u32 count) in
  '(data, pages) ← write_trunk_ids (Z.to_nat count) 0 data (free_pages fl);
  Ok ({| trunk_head := trunk_head fl; free_pages := pages; total_free := total_free fl;
         dirty := true |}, update_checksum crc32 data).

(** One iteration of the [while]; [alloc] is what [allocate_page()] returns. *)
Definition flush_step (fl : FreeList) (alloc : Z) : result FreeListError (FreeList * bytes) :=
  let '(id, fl) := match vec_pop (free_pages fl) with
    | Some (id, rest) =>
        (id, {| trunk_head := trunk_head fl; free_pages := rest;
                total_free := sat_sub (total_free fl) 1; dirty := dirty fl |})
    | None => (alloc, fl)
    end in
  '(fl, trunk) ← create_trunk fl id (trunk_head fl);
  Ok ({| trunk_head := id; free_pages := free_pages fl; total_free := total_free fl;
         dirty := dirty fl |}, trunk).

(** Each iteration pops a page, so the length of the list bounds the loop;
    [None] would be a loop that is still running after [fuel] iterations.
    [alloc n] is what [allocate_page()] returns with [n] iterations of fuel
    left. *)
Fixpoint flush_loop (fuel : nat) (fl : FreeList) (threshold : Z) (alloc : nat -> Z)
    (trunks : list bytes) : option (result FreeListError (FreeList * list bytes)) :=
  if zlen (free_pages fl) <=? threshold then Some (Ok (fl, trunks))
  else match fuel with
  | O => None
  | S fuel =>
      match flush_step fl (alloc fuel) with
      | Ok (fl, trunk) => flush_loop fuel fl threshold alloc (trunks ++ [trunk])
      | Err e => Some (Err e)
      | Panic => Some Panic
      end
  end.

Definition flush_to_trunks (fl : FreeList) (threshold : Z) (alloc : nat -> Z)
    : option (result FreeListError (FreeList * list bytes)) :=
  flush_loop (length (free_pages fl)) fl threshold alloc [].

End with_crc.

(** [None]: still running after [fuel] iterations. *)
Fixpoint merge_loop (fuel : nat) (fl : FreeList) (load_page : Z -> option bytes)
    (reclaimed : list Z) : option (result FreeListError (FreeList * list Z)) :=
  if trunk_head fl =? 0 then Some (Ok (fl, reclaimed))
  else match fuel with
  | O => None
  | S fuel =>
      match load_page (trunk_head fl) with
      | None => Some (Err (InvalidTrunk (trunk_head fl)))
      | Some trunk =>
          match load_from_trunk fl trunk with
          | Ok (fl', _) => merge_loop fuel fl' load_page (reclaimed ++ [trunk_head fl])
          | Err e => Some (Err e)
          | Panic => Some Panic
          end
      end
  end.

Definition merge_all_trunks (fuel : nat) (fl : FreeList) (load_page : Z -> option bytes)
    : option (result FreeListError (FreeList * list Z)) :=
  merge_loop fuel fl load_page [].

(** * Theorems *)

Lemma vec_pop_snoc {A} (l : list A) x : vec_pop (l ++ [x]) = Some (x, l).
Proof.
  unfold vec_pop. rewrite last_snoc, length_app. cbn [length].
  replace (length l + 1 - 1)%nat with (length l) by lia. by rewrite take_app_length.
Qed.

Lemma vec_pop_inv {A} (l rest : list A) x : vec_pop l = Some (x, rest) -> l = rest ++ [x].
Proof.
  induction l as [|y l _] using rev_ind; [done|]. rewrite vec_pop_snoc. by intros [= -> ->].
Qed.

(** The [n] numbers on top of the list, top first *)
Definition popped (n : nat) (pages : list Z) : list Z := take n (reverse pages).

Lemma popped_snoc n pages id : popped (S n) (pages ++ [id]) = id :: popped n pages.
Proof. unfold popped. by rewrite reverse_snoc. Qed.

Lemma popped_perm n pages :
  (n <= length pages)%nat -> take (length pages - n) pages ++ popped n pages ≡ₚ pages.
Proof.
  intros Hn. unfold popped.
  rewrite take_reverse, reverse_Permutation. by rewrite take_drop.
Qed.

Lemma length_popped n pages : (n <= length pages)%nat -> length (popped n pages) = n.
Proof. intros. unfold popped. rewrite length_take, length_reverse. lia. Qed.

Definition ids_bytes (ids : list Z) : bytes := concat (map (le_bytes 4) ids).

Lemma zlen_ids_bytes ids : zlen (ids_bytes ids) = 4 * zlen ids.
Proof.
  induction ids as [|id ids IH]; [done|]. unfold ids_bytes in *. cbn [map concat]. zlia.
Qed.

Lemma write_trunk_ids_eq n i data pages :
  (n <= length pages)%nat -> 0 <= i -> 40 + 4 * (i + Z.of_nat n) <= zlen data ->
  write_trunk_ids n i data pages =
  Ok (splice data (40 + 4 * i) (ids_bytes (popped n pages)), take (length pages - n) pages).
Proof.
  revert i data pages. induction n as [|n IH]; intros i data pages Hn Hi Hl; cbn [write_trunk_ids].
  - rewrite Nat.sub_0_r, firstn_all. unfold popped. cbn [take].
    rewrite splice_id; [done|lia| |]; unfold ids_bytes; cbn; [zlia|by rewrite slice_0].
  - destruct pages as [|id pages _] using rev_ind; [cbn in Hn; lia|].
    rewrite length_app in *. cbn [length] in *.
    rewrite vec_pop_snoc. change PAGE_IDS_OFFSET with 40. unfold put_u32.
    rewrite IH by (rewrite ?zlen_splice; lia).
    rewrite splice_splice_app by (rewrite ?zlen_le_bytes, ?zlen_ids_bytes;
      unfold zlen; rewrite ?length_popped by lia; unfold zlen in *; lia).
    replace (40 + i * 4) with (40 + 4 * i) by lia.
    rewrite popped_snoc. unfold ids_bytes at 2. cbn [map concat]. fold (ids_bytes (popped n pages)).
    replace (length pages + 1 - S n)%nat with (length pages - n)%nat by lia.
    by rewrite take_app_le by lia.
Qed.

(** The trunk page [id] lists [ids] and points to [next]. *)
Record is_trunk (p : bytes) (id next : Z) (ids : list Z) : Prop := {
  trunk_len : zlen p = PAGE_SIZE;
  trunk_type : page_type p = Ok FreelistTrunk;
  trunk_id : page_id p = id;
  trunk_next : u32_at p NEXT_TRUNK_OFFSET = next;
  trunk_count : u32_at p COUNT_OFFSET = zlen ids;
  trunk_fits : zlen ids <= FREE_IDS_PER_TRUNK;
  trunk_list : trunk_ids p (zlen ids) = ids;
}.

Lemma trunk_ids_bytes p ids :
  Forall u32_ok ids -> slice p 40 (4 * zlen ids) = ids_bytes ids ->
  trunk_ids p (zlen ids) = ids.
Proof.
  intros Hok Hs. apply list_eq. intros i. unfold trunk_ids. rewrite list_lookup_fmap.
  destruct (ids !! i) as [x|] eqn:Hi.
  - pose proof (lookup_lt_Some _ _ _ Hi). rewrite lookup_seqZ_lt by (unfold zlen; lia).
    cbn [fmap option_fmap option_map]. f_equal. rewrite Z.add_0_l.
    change PAGE_IDS_OFFSET with 40. unfold u32_at.
    rewrite <-(slice_slice p 40 (4 * zlen ids) (Z.of_nat i * 4) 4) by (unfold zlen; lia).
    rewrite Hs. rewrite <-(take_drop_middle _ _ _ Hi). unfold ids_bytes.
    rewrite map_app, concat_app. cbn [map concat].
    fold (ids_bytes (take i ids)).
    assert (Hz : zlen (ids_bytes (take i ids)) = Z.of_nat i * 4).
    { rewrite zlen_ids_bytes. unfold zlen. rewrite length_take. lia. }
    rewrite slice_app_r by lia. rewrite Hz, Z.sub_diag, slice_app_l by zlia.
    rewrite slice_all by zlia. apply le_val_u32. rewrite Forall_lookup in Hok. eauto.
  - apply lookup_ge_None in Hi. rewrite lookup_seqZ_ge by (unfold zlen; lia). done.
Qed.

Section trunks.
Context (crc32 : bytes -> Z) (crc32_u32 : forall b, u32_ok (crc32 b)).

(** How many page numbers the next trunk takes *)
Definition trunk_take (pages : list Z) : nat := Z.to_nat (Z.min (zlen pages) FREE_IDS_PER_TRUNK).

Lemma trunk_take_le pages : (trunk_take pages <= length pages)%nat.
Proof. unfold trunk_take, zlen. lia. Qed.

Lemma zlen_popped_take pages :
  zlen (popped (trunk_take pages) pages) = Z.min (zlen pages) FREE_IDS_PER_TRUNK.
Proof.
  unfold zlen at 1. rewrite length_popped by apply trunk_take_le.
  unfold trunk_take. change FREE_IDS_PER_TRUNK with 4086. pose proof (zlen_nonneg pages). lia.
Qed.

(** The trunk page before its checksum, as one write after the page header *)
Definition trunk_image (id next : Z) (ids : list Z) : bytes :=
  splice (Page_new FreelistTrunk id) 32
    (le_bytes 4 next ++ le_bytes 4 (zlen ids) ++ ids_bytes ids).

Lemma create_trunk_eq fl id next :
  create_trunk crc32 fl id next =
  Ok ({| trunk_head := trunk_head fl;
         free_pages := take (length (free_pages fl) - trunk_take (free_pages fl)) (free_pages fl);
         total_free := total_free fl; dirty := true |},
      update_checksum crc32
        (trunk_image id next (popped (trunk_take (free_pages fl)) (free_pages fl)))).
Proof.
  unfold create_trunk. set (pages := free_pages fl).
  pose proof (trunk_take_le pages) as Hle. pose proof (zlen_popped_take pages) as Hp.
  pose proof (zlen_Page_new FreelistTrunk id) as Hn. change PAGE_SIZE with 16384 in Hn.
  assert (Hb : 0 <= Z.min (zlen pages) FREE_IDS_PER_TRUNK <= 4086)
    by (change FREE_IDS_PER_TRUNK with 4086; pose proof (zlen_nonneg pages); lia).
  fold (trunk_take pages). rewrite write_trunk_ids_eq; [|done|lia|].
  - cbn [mbind result_bind]. do 2 f_equal. unfold trunk_image, put_u32. f_equal.
    rewrite as_u32_id by (unfold u32_ok; lia). rewrite Hp.
    change COUNT_OFFSET with 36. change NEXT_TRUNK_OFFSET with 32.
    rewrite !splice_splice_app by (rewrite ?zlen_app, ?zlen_le_bytes, ?zlen_ids_bytes, ?Hp, ?zlen_splice, ?Hn; lia).
    done.
  - unfold put_u32. rewrite !zlen_splice, Hn. unfold trunk_take. lia.
Qed.

Lemma trunk_image_is_trunk id next ids :
  u32_ok id -> u32_ok next -> Forall u32_ok ids -> zlen ids <= FREE_IDS_PER_TRUNK ->
  is_trunk (update_checksum crc32 (trunk_image id next ids)) id next ids.
Proof.
  intros Hid Hnext Hids Hfit. pose proof (zlen_nonneg ids).
  pose proof (zlen_Page_new FreelistTrunk id) as Hn.
  destruct (Page_new_fields FreelistTrunk id Hid) as (F1 & _ & _ & _ & F5).
  change FREE_IDS_PER_TRUNK with 4086 in Hfit. change PAGE_SIZE with 16384 in Hn.
  set (body := le_bytes 4 next ++ le_bytes 4 (zlen ids) ++ ids_bytes ids).
  assert (Hz : zlen body = 8 + 4 * zlen ids) by (unfold body; rewrite !zlen_app, zlen_ids_bytes; zlia).
  assert (Hlow : forall o n, 0 <= o -> 0 <= n -> o + n <= 28 ->
    slice (update_checksum crc32 (trunk_image id next ids)) o n =
    slice (Page_new FreelistTrunk id) o n).
  { intros. rewrite slice_update_checksum by lia. unfold trunk_image. fold body.
    by rewrite slice_splice_ne by lia. }
  assert (Hbody : forall o n, 0 <= o -> 0 <= n -> o + n <= zlen body ->
    slice (update_checksum crc32 (trunk_image id next ids)) (32 + o) n = slice body o n).
  { intros. rewrite slice_update_checksum by lia. unfold trunk_image. fold body.
    rewrite slice_splice_in by lia. f_equal. lia. }
  split.
  - rewrite zlen_update_checksum. unfold trunk_image. by rewrite zlen_splice.
  - rewrite <-F1. unfold page_type, paged_page_type, u8_at. by rewrite Hlow.
  - rewrite <-F5 at 2. unfold page_id, paged_page_id, u32_at. by rewrite Hlow.
  - unfold u32_at. change NEXT_TRUNK_OFFSET with (32 + 0). rewrite Hbody by lia.
    by apply (le_val_u32 next).
  - unfold u32_at. change COUNT_OFFSET with (32 + 4). rewrite Hbody by lia.
    apply (le_val_u32 (zlen ids)). unfold u32_ok. lia.
  - done.
  - apply trunk_ids_bytes; [done|]. change 40 with (32 + 8). rewrite Hbody by lia.
    unfold body. rewrite !slice_app_r by zlia. autorewrite with zlen.
    slice_from 0. apply slice_all. by rewrite zlen_ids_bytes.
Qed.

Lemma load_from_trunk_eq fl p id next ids :
  is_trunk p id next ids -> next <> id ->
  load_from_trunk fl p =
  Ok ({| trunk_head := next; free_pages := free_pages fl ++ id :: ids;
         total_free := Z.max (sat_add U32_MAX (total_free fl) 1)
                             (as_u32 (zlen (free_pages fl ++ id :: ids))); dirty := true |},
      if next =? 0 then None else Some next).
Proof.
  intros [Hl Ht Hid Hn Hc Hf Hs] Hne. unfold load_from_trunk. rewrite Ht.
  cbn [map_err mbind result_bind]. rewrite bool_decide_true by done. cbn [negb].
  rewrite Hn, Hid, Hc. rewrite (proj2 (Z.eqb_neq _ _)) by done.
  rewrite (proj2 (Z.ltb_ge _ _)) by lia. rewrite Hs. cbn [app].
  by destruct (next =? 0).
Qed.

(** A trunk written from the list loads back the numbers it took, after its
    own number, so that no page is lost or duplicated on the way. *)
Theorem trunk_roundtrip fl id next :
  u32_ok id -> u32_ok next -> Forall u32_ok (free_pages fl) -> next <> id ->
  exists fl' trunk, create_trunk crc32 fl id next = Ok (fl', trunk) /\
    verify_checksum crc32 trunk = Ok tt /\
    forall other, exists other' nt, load_from_trunk other trunk = Ok (other', nt) /\
      trunk_head other' = next /\
      free_pages fl' ++ free_pages other' ≡ₚ
        free_pages fl ++ id :: free_pages other.
Proof.
  intros Hid Hnext Hok Hne. pose proof (trunk_take_le (free_pages fl)).
  pose proof (zlen_popped_take (free_pages fl)) as Hz.
  assert (Ht : is_trunk (update_checksum crc32
    (trunk_image id next (popped (trunk_take (free_pages fl)) (free_pages fl))))
      id next (popped (trunk_take (free_pages fl)) (free_pages fl))).
  { apply trunk_image_is_trunk; auto; [|lia].
    unfold popped. apply Forall_take. by rewrite Forall_reverse. }
  rewrite create_trunk_eq. do 2 eexists. split; [done|]. split.
  - apply update_checksum_verifies; [done|]. unfold trunk_image. rewrite zlen_splice.
    apply zlen_Page_new.
  - intros other. rewrite (load_from_trunk_eq _ _ _ _ _ Ht Hne). do 2 eexists.
    split; [done|]. split; [done|]. cbn [free_pages].
    pose proof (popped_perm (trunk_take (free_pages fl)) (free_pages fl) ltac:(done)) as Hperm.
    revert Hperm. generalize (popped (trunk_take (free_pages fl)) (free_pages fl)).
    generalize (take (length (free_pages fl) - trunk_take (free_pages fl)) (free_pages fl)).
    intros a b <-. rewrite <-app_assoc. apply Permutation_app_head.
    by rewrite <-!Permutation_middle, (Permutation_app_comm b).
Qed.

(** ** Chains of trunks *)

(** From [head], the pages of [store] form the chain [ts] of trunks, each with
    its number and the numbers it lists. *)
Inductive trunk_chain (store : Z -> option bytes) : Z -> list (Z * list Z) -> Prop :=
| chain_nil : trunk_chain store 0 []
| chain_cons id next ids p ts :
    id <> 0 -> next <> id -> store id = Some p -> is_trunk p id next ids ->
    trunk_chain store next ts -> trunk_chain store id ((id, ids) :: ts).

(** Every page number held by a chain, the trunks themselves included *)
Definition chain_pages (ts : list (Z * list Z)) : list Z := concat (map (fun t => t.1 :: t.2) ts).

Lemma chain_heads_sublist ts : ts.*1 `sublist_of` chain_pages ts.
Proof.
  induction ts as [|[id ids] ts IH]; [done|]. cbn. apply sublist_skip. by apply sublist_inserts_l.
Qed.

Lemma merge_loop_chain store ts fl reclaimed fuel :
  trunk_chain store (trunk_head fl) ts -> (length ts <= fuel)%nat ->
  exists fl', merge_loop fuel fl store reclaimed = Some (Ok (fl', reclaimed ++ ts.*1)) /\
    trunk_head fl' = 0 /\ free_pages fl' = free_pages fl ++ chain_pages ts.
Proof.
  intros Hc. remember (trunk_head fl) as head eqn:Hh. revert fl Hh reclaimed fuel.
  induction Hc as [|id next ids p ts Hid Hne Hst Ht Hc IH]; intros fl Hh reclaimed fuel Hf.
  - exists fl. unfold chain_pages. cbn. rewrite !app_nil_r.
    destruct fuel; cbn; rewrite <-Hh; done.
  - destruct fuel as [|fuel]; [cbn in Hf; lia|]. cbn [merge_loop]. rewrite <-Hh.
    rewrite (proj2 (Z.eqb_neq _ _)) by done. rewrite Hst.
    rewrite (load_from_trunk_eq _ _ _ _ _ Ht Hne).
    set (fl1 := Build_FreeList _ _ _ _).
    destruct (IH fl1 eq_refl (reclaimed ++ [id]) fuel) as (fl' & E1 & E2 & E3); [cbn in Hf; lia|].
    exists fl'. rewrite E1. split_and!; [by rewrite <-app_assoc|done|].
    rewrite E3. unfold chain_pages. cbn [map concat fst snd free_pages fl1].
    by rewrite <-app_assoc.
Qed.

Lemma flush_step_eq fl rest id a :
  free_pages fl = rest ++ [id] ->
  flush_step crc32 fl a =
  Ok ({| trunk_head := id; free_pages := take (length rest - trunk_take rest) rest;
         total_free := sat_sub (total_free fl) 1; dirty := true |},
      update_checksum crc32
        (trunk_image id (trunk_head fl) (popped (trunk_take rest) rest))).
Proof.
  intros E. unfold flush_step. rewrite E, vec_pop_snoc, create_trunk_eq. done.
Qed.

(** What a list of trunks written by a flush amounts to, for any store that holds them *)
Definition flushed (fl fl' : FreeList) (new : list bytes) (ts : list (Z * list Z)) : Prop :=
  free_pages fl' ++ chain_pages ts ≡ₚ free_pages fl /\
  (zlen (free_pages fl) <= total_free fl ->
    zlen (free_pages fl') <= total_free fl' /\ total_free fl' = total_free fl - zlen new) /\
  (forall store old, Forall (fun t => store (page_id t) = Some t) new ->
    trunk_chain store (trunk_head fl) old -> trunk_chain store (trunk_head fl') (ts ++ old)) /\
  page_id <$> new ≡ₚ ts.*1 /\ Forall (fun t => zlen t = PAGE_SIZE) new /\
  (trunk_head fl' = trunk_head fl \/ trunk_head fl' ∈ ts.*1).

(** The list has no number twice, none is zero, and the head trunk is not in it. *)
Record free_list_ok (fl : FreeList) : Prop := {
  ok_nodup : NoDup (free_pages fl);
  ok_ids : Forall (fun id => u32_ok id /\ id <> 0) (free_pages fl);
  ok_head : u32_ok (trunk_head fl);
  ok_head_out : trunk_head fl ∉ free_pages fl;
}.

Lemma flush_step_ok fl a :
  free_list_ok fl -> free_pages fl <> [] ->
  exists fl1 t ts, flush_step crc32 fl a = Ok (fl1, t) /\ free_list_ok fl1 /\
    (length (free_pages fl1) < length (free_pages fl))%nat /\ flushed fl fl1 [t] ts.
Proof.
  intros [Hnd Hids Hh Hout] Hne.
  destruct (free_pages fl) as [|id rest _] eqn:E using rev_ind; [done|].
  rewrite (flush_step_eq fl rest id a E). do 2 eexists. exists [(id, popped (trunk_take rest) rest)].
  split; [reflexivity|]. pose proof (trunk_take_le rest) as Hle.
  pose proof (popped_perm _ _ Hle) as Hperm. pose proof (zlen_popped_take rest) as Hz.
  rewrite NoDup_app in Hnd. destruct Hnd as (Hnd & Hdis & _).
  rewrite Forall_app, Forall_singleton in Hids. destruct Hids as (Hids & Hid & Hid0).
  rewrite elem_of_app, list_elem_of_singleton in Hout.
  assert (Ht : is_trunk (update_checksum crc32
    (trunk_image id (trunk_head fl) (popped (trunk_take rest) rest)))
      id (trunk_head fl) (popped (trunk_take rest) rest)).
  { apply trunk_image_is_trunk; auto; [|lia]. unfold popped. apply Forall_take.
    rewrite Forall_reverse. eapply Forall_impl; [exact Hids|]. by intros ? [? _]. }
  split_and!.
  - split; cbn [free_pages trunk_head total_free].
    + rewrite <-(take_drop (length rest - trunk_take rest) rest) in Hnd.
      by apply NoDup_app in Hnd as [? _].
    + by apply Forall_take.
    + done.
    + intros Hin. apply (Hdis id); [|set_solver].
      rewrite <-(take_drop (length rest - trunk_take rest) rest). set_solver.
  - cbn [free_pages]. rewrite length_take, length_app. cbn. lia.
  - split_and!.
    + cbn [free_pages]. rewrite E. unfold chain_pages. cbn. rewrite app_nil_r.
      etrans; [|exact (Permutation_app_tail [id] Hperm)].
      rewrite <-app_assoc. apply Permutation_app_head. apply Permutation_cons_append.
    + cbn [total_free free_pages]. rewrite E, zlen_app. change (zlen [id]) with 1. intros Htot. pose proof (zlen_nonneg rest).
      assert (zlen (take (length rest - trunk_take rest) rest) <= zlen rest) by (unfold zlen; rewrite length_take; lia).
      change (zlen [_]) with 1. unfold sat_sub. lia.
    + intros store old Hst Hc. cbn [trunk_head app]. rewrite Forall_singleton in Hst.
      rewrite (trunk_id _ _ _ _ Ht) in Hst. eapply chain_cons; [done| |exact Hst|exact Ht|done]. tauto.
    + cbn. by rewrite (trunk_id _ _ _ _ Ht).
    + apply Forall_singleton, (trunk_len _ _ _ _ Ht).
    + right. by apply list_elem_of_singleton.
Qed.

Lemma flushed_refl fl : flushed fl fl [] [].
Proof.
  split_and!; [unfold chain_pages; cbn; by rewrite app_nil_r|split; [done|zlia]|done|done|constructor|by left].
Qed.

Lemma flushed_trans fl fl1 fl2 t new ts1 ts2 :
  flushed fl fl1 [t] ts1 -> flushed fl1 fl2 new ts2 -> flushed fl fl2 (t :: new) (ts2 ++ ts1).
Proof.
  intros (P1 & T1 & C1 & I1 & L1 & H1) (P2 & T2 & C2 & I2 & L2 & H2). split_and!.
  - unfold chain_pages in *. rewrite map_app, concat_app, app_assoc, P2. done.
  - intros H0. destruct (T1 H0) as [H3 E1]. destruct (T2 H3) as [H4 E2]. split; [done|]. rewrite E2, E1. zlia.
  - intros store old Hst Hc. apply Forall_cons in Hst as [Ht Hst].
    rewrite <-app_assoc. apply C2; [done|]. apply C1; [by constructor|done].
  - rewrite fmap_app, fmap_cons, <-I1, I2. cbn. apply Permutation_cons_append.
  - apply Forall_cons in L1 as [L1 _]. by constructor.
  - rewrite fmap_app, elem_of_app. destruct H2 as [-> |?]; [|tauto]. tauto.
Qed.

Lemma flush_loop_ok fuel fl threshold alloc acc :
  free_list_ok fl -> 0 <= threshold -> (length (free_pages fl) <= fuel)%nat ->
  exists fl' new ts, flush_loop crc32 fuel fl threshold alloc acc = Some (Ok (fl', acc ++ new)) /\
    free_list_ok fl' /\ zlen (free_pages fl') <= threshold /\ flushed fl fl' new ts.
Proof.
  intros Hok Hth. revert fl Hok acc. induction fuel as [|fuel IH]; intros fl Hok acc Hf;
    cbn [flush_loop]; destruct (Z.leb_spec (zlen (free_pages fl)) threshold) as [Hle|Hgt].
  1, 3: exists fl, [], []; rewrite app_nil_r; auto using flushed_refl.
  - unfold zlen in Hgt. lia.
  - destruct (flush_step_ok fl (alloc fuel) Hok) as (fl1 & t & ts1 & -> & Hok1 & Hlt & Hfl1).
    { intros E. rewrite E in Hgt. unfold zlen in Hgt. cbn in Hgt. lia. }
    destruct (IH fl1 Hok1 (acc ++ [t])) as (fl2 & new & ts2 & -> & Hok2 & Hth2 & Hfl2); [lia|].
    exists fl2, (t :: new), (ts2 ++ ts1). rewrite <-app_assoc.
    split_and!; try done; by eapply flushed_trans.
Qed.

(** C31. Spilling the list to trunk pages ends, with at most [threshold] numbers left
    in memory; every number is either still in memory or in exactly one place of
    the new trunks, which extend the old chain; and the total count drops by the
    pages that now host trunks. *)
Theorem flush_to_trunks_spec fl threshold alloc :
  free_list_ok fl -> 0 <= threshold ->
  exists fl' new ts,
    flush_to_trunks crc32 fl threshold alloc = Some (Ok (fl', new)) /\
    zlen (free_pages fl') <= threshold /\
    free_pages fl' ++ chain_pages ts ≡ₚ free_pages fl /\
    (zlen (free_pages fl) <= total_free fl -> total_free fl' = total_free fl - zlen new) /\
    (forall store old, Forall (fun t => store (page_id t) = Some t) new ->
       trunk_chain store (trunk_head fl) old -> trunk_chain store (trunk_head fl') (ts ++ old)).
Proof.
  intros Hok Hth.
  destruct (flush_loop_ok (length (free_pages fl)) fl threshold alloc [] Hok Hth)
    as (fl' & new & ts & E & _ & Hle & P & T & C & _); [done|].
  exists fl', new, ts. split_and!; try done. intros H0. by apply T.
Qed.

(** Loading a chain of trunks ends after as many iterations as there are
    trunks and brings back every number in it, the trunks' own included. *)
Theorem merge_all_trunks_spec store ts fl :
  trunk_chain store (trunk_head fl) ts ->
  exists fl', merge_all_trunks (length ts) fl store = Some (Ok (fl', ts.*1)) /\
    trunk_head fl' = 0 /\ free_pages fl' = free_pages fl ++ chain_pages ts.
Proof. intros Hc. by destruct (merge_loop_chain store ts fl [] (length ts) Hc) as (fl' & ?); eauto. Qed.

(** A cycle of two trunks is not detected: loading it never ends. *)
Theorem merge_all_trunks_cycle fuel fl store pa pb a b ids_a ids_b :
  a <> 0 -> b <> 0 -> a <> b -> store a = Some pa -> store b = Some pb ->
  is_trunk pa a b ids_a -> is_trunk pb b a ids_b -> trunk_head fl = a ->
  merge_all_trunks fuel fl store = None.
Proof.
  intros Ha Hb Hab Hpa Hpb Hta Htb Hh. unfold merge_all_trunks.
  assert (Hgen : forall fuel fl acc, trunk_head fl = a \/ trunk_head fl = b ->
    merge_loop fuel fl store acc = None); [|auto].
  clear fuel fl Hh. induction fuel as [|fuel IH]; intros fl acc Hh; cbn [merge_loop];
    rewrite (proj2 (Z.eqb_neq _ _)) by (destruct Hh; congruence); [done|].
  destruct Hh as [Hh|Hh]; rewrite Hh, ?Hpa, ?Hpb.
  - rewrite (load_from_trunk_eq _ _ _ _ _ Hta) by done. apply IH. auto.
  - rewrite (load_from_trunk_eq _ _ _ _ _ Htb) by done. apply IH. auto.
Qed.

End trunks.

(** Allocation hands out a number that is free and takes it off the list, so
    that it is not handed out again before it is freed. *)
Theorem allocate_spec fl :
  NoDup (free_pages fl) ->
  match allocate fl with
  | (fl', Some id) => free_pages fl ≡ₚ (id :: free_pages fl') /\ (id ∉ free_pages fl') /\
                      NoDup (free_pages fl')
  | (fl', None) => fl' = fl /\ free_pages fl = []
  end.
Proof.
  intros Hnd. unfold allocate. destruct (vec_pop (free_pages fl)) as [[id rest]|] eqn:E.
  - apply vec_pop_inv in E. rewrite E in *. cbn [free_pages].
    assert (P : rest ++ [id] ≡ₚ (id :: rest)) by (symmetry; apply Permutation_cons_append).
    rewrite P in Hnd. apply NoDup_cons in Hnd as [? ?]. done.
  - split; [done|]. unfold vec_pop in E.
    destruct (free_pages fl) as [|x l _] using rev_ind; [done|]. by rewrite last_snoc in E.
Qed.

(** * Witnesses *)

Definition sample_list : FreeList :=
  {| trunk_head := 9; free_pages := [4; 5; 6]; total_free := 3; dirty := false |}.

Lemma sample_list_ok : free_list_ok sample_list.
Proof.
  split; cbn.
  - apply NoDup_ListNoDup. repeat constructor; cbn; lia.
  - repeat constructor; unfold u32_ok; lia.
  - unfold u32_ok; lia.
  - rewrite list_elem_of_In. cbn. lia.
Qed.

Lemma trunk_roundtrip_witness :
  exists fl' trunk, create_trunk byte_sum sample_list 8 9 = Ok (fl', trunk) /\
    verify_checksum byte_sum trunk = Ok tt /\
    exists other' nt, load_from_trunk FreeList_new trunk = Ok (other', nt) /\
      trunk_head other' = 9 /\ free_pages fl' ++ free_pages other' ≡ₚ [4; 5; 6; 8].
Proof.
  destruct (trunk_roundtrip byte_sum byte_sum_u32 sample_list 8 9) as (fl' & trunk & E & V & L).
  - unfold u32_ok; lia.
  - unfold u32_ok; lia.
  - repeat constructor; unfold u32_ok; lia.
  - lia.
  - exists fl', trunk. split; [exact E|]. split; [exact V|exact (L FreeList_new)].
Defined.

Lemma flush_to_trunks_spec_witness :
  exists fl' new ts,
    flush_to_trunks byte_sum sample_list 1 (fun _ => 0) = Some (Ok (fl', new)) /\
    zlen (free_pages fl') <= 1 /\ free_pages fl' ++ chain_pages ts ≡ₚ [4; 5; 6].
Proof.
  destruct (flush_to_trunks_spec byte_sum byte_sum_u32 sample_list 1 (fun _ => 0) sample_list_ok)
    as (fl' & new & ts & E & L & P & _); [lia|].
  exists fl', new, ts. exact (conj E (conj L P)).
Defined.

(** Trunk 3 lists pages 4 and 5 and points to trunk 7; trunk 7 lists page 8. *)
Definition sample_trunk (id next : Z) (ids : list Z) : bytes :=
  update_checksum byte_sum (trunk_image id next ids).

Definition sample_store (tail : Z) (id : Z) : option bytes :=
  if id =? 3 then Some (sample_trunk 3 7 [4; 5])
  else if id =? 7 then Some (sample_trunk 7 tail [8]) else None.

Lemma sample_trunk_ok id next ids :
  u32_ok id -> u32_ok next -> Forall u32_ok ids -> zlen ids <= FREE_IDS_PER_TRUNK ->
  is_trunk (sample_trunk id next ids) id next ids.
Proof. intros. unfold sample_trunk. apply trunk_image_is_trunk; auto using byte_sum_u32. Qed.

Local Ltac sample_side :=
  first [unfold u32_ok; lia | repeat constructor; unfold u32_ok; lia | vm_compute; congruence].

Lemma sample_chain : trunk_chain (sample_store 0) 3 [(3, [4; 5]); (7, [8])].
Proof.
  apply (chain_cons _ 3 7 [4; 5] (sample_trunk 3 7 [4; 5])); [lia|lia|reflexivity| |].
  - apply sample_trunk_ok; sample_side.
  - apply (chain_cons _ 7 0 [8] (sample_trunk 7 0 [8])); [lia|lia|reflexivity| |constructor].
    apply sample_trunk_ok; sample_side.
Qed.

Lemma merge_all_trunks_spec_witness :
  exists fl', merge_all_trunks 2 (from_header 3 5) (sample_store 0) = Some (Ok (fl', [3; 7])) /\
    trunk_head fl' = 0 /\ free_pages fl' = [3; 4; 5; 7; 8].
Proof.
  exact (merge_all_trunks_spec (sample_store 0) _ (from_header 3 5) sample_chain).
Defined.

Lemma merge_all_trunks_cycle_witness :
  merge_all_trunks 1000 (from_header 3 5) (sample_store 3) = None.
Proof.
  apply (merge_all_trunks_cycle 1000 (from_header 3 5) (sample_store 3)
    (sample_trunk 3 7 [4; 5]) (sample_trunk 7 3 [8]) 3 7 [4; 5] [8]);
    [lia|lia|lia|reflexivity|reflexivity| | |reflexivity].
  - apply sample_trunk_ok; sample_side.
  - apply sample_trunk_ok; sample_side.
Defined.
