(* ===== verification/PageStore.v ===== *)
(** * The page store ([crates/reddb-engine/src/storage/page_store.rs])

    The trait through which the B+ tree and the overflow chains reach pages, and
    the laws of its contract: what a read, a write, an allocation and a free do to
    the pages the store holds.  The theorems about trees and chains are proved
    against these laws. *)

From S2P Require Import Prelude FileFormat Page.
From Stdlib Require Import ZArith Lia.

(** ** [PagerError] ([pager.rs]); an I/O error is the text it displays as *)

Inductive PagerError : Type :=
| PagerIo (msg : string)
| PagerPage (e : PageError)
| InvalidDatabase (msg : string)
| ReadOnly
| PageNotFound (id : Z)
| PagerLocked
| PagerLockPoisoned
| EncryptionRequired
| PlainDatabaseRefusesKey
| InvalidKey
| SuperblockZoneUnrecoverable (path : string)
| ManifestZoneCorrupt (path : string)
| DwbZoneCorrupt (path : string)
| LegacySidecarStore (sidecar : string)
| LegacyPagedStore (path : string).

#[global] Instance PagerError_eq_dec : EqDecision PagerError.
Proof. solve_decision. Defined.

(** ** The trait; [page_count], which only the reclamation of retired trees uses, and the
    prefetch hint, which has no effect on the pages, are left out *)

Class PageStore (S : Type) : Type := {
  read_page : Z -> eff S PagerError bytes;
  write_page : Z -> bytes -> eff S PagerError unit;
  allocate_page : PageType -> eff S PagerError bytes;
  free_page : Z -> eff S PagerError unit;
}.

(** ** Pages that differ in the checksum only

    [write_page] recomputes the checksum of the page it is given. *)

Definition resealed (p q : bytes) : Prop :=
  zlen q = zlen p /\ (Forall byte_ok p -> Forall byte_ok q) /\
  forall o n, 0 <= o -> 0 <= n -> o + n <= 28 \/ 32 <= o -> slice q o n = slice p o n.

#[export] Instance resealed_preorder : PreOrder resealed.
Proof.
  split.
  - intros p. by split_and!.
  - intros p q r (L1 & B1 & F1) (L2 & B2 & F2). split_and!; [lia|auto|].
    intros. by rewrite F2, F1.
Qed.

Lemma resealed_update_checksum crc32 p : resealed p (update_checksum crc32 p).
Proof.
  split_and!.
  - apply zlen_update_checksum.
  - intros. unfold update_checksum, set_paged_page_checksum, clear_paged_page_checksum, put_u32.
    auto using Forall_splice, le_bytes_ok.
  - intros. by apply slice_update_checksum.
Qed.

Section fields.
Context (p q : bytes) (H : resealed p q).

Lemma resealed_u16 o : 0 <= o -> o + 2 <= 28 \/ 32 <= o -> u16_at q o = u16_at p o.
Proof. intros. destruct H as (_ & _ & F). unfold u16_at. by rewrite F by lia. Qed.

Lemma resealed_u32 o : 0 <= o -> o + 4 <= 28 \/ 32 <= o -> u32_at q o = u32_at p o.
Proof. intros. destruct H as (_ & _ & F). unfold u32_at. by rewrite F by lia. Qed.

Lemma resealed_page_type : page_type q = page_type p.
Proof.
  destruct H as (_ & _ & F). unfold page_type, paged_page_type, u8_at. by rewrite F by lia.
Qed.

Lemma resealed_page_id : page_id q = page_id p.
Proof. apply resealed_u32; lia. Qed.

Lemma resealed_cell_count : cell_count q = cell_count p.
Proof. apply resealed_u16; lia. Qed.

Lemma resealed_free_end : free_end q = free_end p.
Proof. apply resealed_u16; lia. Qed.

Lemma resealed_right_child : right_child q = right_child p.
Proof. apply resealed_u32; lia. Qed.

End fields.

(** ** The contract

    [pages s] are the pages the store holds for its users; [owned s] are the numbers its
    users may write, among them those that were allocated and not yet written, whose pages
    need not be readable; [room s n] says that [n] more allocations succeed.  A page carries
    its own number: a store may keep a page under the number in its header. *)

Class PageStoreLaws (S : Type) `{PageStore S} : Type := {
  pages : S -> gmap Z bytes;
  owned : S -> gset Z;
  room : S -> nat -> Prop;
  pages_owned s id p : pages s !! id = Some p -> id ∈ owned s;
  room_le s n k : room s n -> (k <= n)%nat -> room s k;
  read_page_ok s id p :
    pages s !! id = Some p ->
    exists s', read_page id s = (s', Ok p) /\ pages s' = pages s /\ owned s' = owned s /\
      (forall n, room s n -> room s' n);
  write_page_ok s id p :
    id ∈ owned s -> zlen p = PAGE_SIZE -> page_id p = id ->
    exists s' q, write_page id p s = (s', Ok tt) /\ pages s' = <[id := q]> (pages s) /\ owned s' = owned s /\
      resealed p q /\ (forall n, room s n -> room s' n);
  allocate_page_ok s t n :
    room s (Datatypes.S n) ->
    exists s' id, allocate_page t s = (s', Ok (Page_new t id)) /\
      (id ∉ owned s) /\ id <> 0 /\ u32_ok id /\ owned s' = {[id]} ∪ owned s /\
      (forall j, j <> id -> pages s' !! j = pages s !! j) /\ room s' n;
  free_page_ok s id :
    id ∈ owned s ->
    exists s', free_page id s = (s', Ok tt) /\ pages s' = delete id (pages s) /\ owned s' = owned s ∖ {[id]} /\
      (forall n, room s n -> room s' n);
}.

Lemma not_owned {S} `{PageStoreLaws S} s id : id ∉ owned s -> pages s !! id = None.
Proof. intros Hn. destruct (pages s !! id) as [p|] eqn:E; [|done]. by destruct Hn; eapply pages_owned. Qed.

(** ** A store in memory, to instantiate the statements about stores *)

Record MemStore : Type := { mem_pages : gmap Z bytes; mem_next : Z }.

#[global] Instance MemStore_pages : PageStore MemStore := {
  read_page id s :=
    (s, match mem_pages s !! id with Some p => Ok p | None => Err (PageNotFound id) end);
  write_page id p s :=
    ({| mem_pages := <[id := p]> (mem_pages s); mem_next := mem_next s |}, Ok tt);
  allocate_page t s :=
    if mem_next s <? U32_MAX
    then ({| mem_pages := <[mem_next s := Page_new t (mem_next s)]> (mem_pages s);
             mem_next := mem_next s + 1 |}, Ok (Page_new t (mem_next s)))
    else (s, Err (InvalidDatabase "page count overflow"));
  free_page id s :=
    ({| mem_pages := delete id (mem_pages s); mem_next := mem_next s |}, Ok tt);
}.

(** The numbers from [mem_next] on are unused. *)
Definition mem_room (s : MemStore) (n : nat) : Prop :=
  1 <= mem_next s /\ mem_next s + Z.of_nat n <= U32_MAX /\
  forall id, mem_next s <= id -> mem_pages s !! id = None.

#[global, program] Instance MemStore_laws : PageStoreLaws MemStore := {
  pages := mem_pages;
  owned s := dom (mem_pages s);
  room := mem_room;
}.
Next Obligation. intros s id p E. apply elem_of_dom. eauto. Qed.
Next Obligation. intros s n k (H1 & H2 & H3) Hk. split_and!; [done|lia|done]. Qed.
Next Obligation. intros s id p E. exists s. cbn. by rewrite E. Qed.
Next Obligation.
  intros s id p [p0 E]%elem_of_dom _ _. do 2 eexists. split; [reflexivity|]. split; [reflexivity|].
  split; [cbn; rewrite dom_insert_L; apply elem_of_dom_2 in E; set_solver|].
  split; [reflexivity|]. intros n (H1 & H2 & H3). split_and!; [done|done|].
  intros id' Hid'. cbn in *. rewrite lookup_insert_ne; [auto|]. intros ->. rewrite H3 in E; done.
Qed.
Next Obligation.
  intros s t n (H1 & H2 & H3). cbn. rewrite (proj2 (Z.ltb_lt _ _)) by lia.
  do 2 eexists. split; [reflexivity|]. split_and!; [apply not_elem_of_dom, H3; lia|lia|unfold u32_ok; unfold U32_MAX in *; lia| | |].
  - cbn. by rewrite dom_insert_L.
  - intros j Hj. cbn. by rewrite lookup_insert_ne.
  - split_and!; cbn; [lia|lia|]. intros id Hid. rewrite lookup_insert_ne by lia. apply H3. lia.
Qed.
Next Obligation.
  intros s id _. eexists. split; [reflexivity|]. split; [reflexivity|]. split; [cbn; by rewrite dom_delete_L|].
  intros n (H1 & H2 & H3). split_and!; [done|done|]. intros id' Hid'. cbn in *.
  rewrite lookup_delete. case_decide; auto.
Qed.

Definition empty_store : MemStore := {| mem_pages := ∅; mem_next := 1 |}.

Lemma empty_room n : Z.of_nat n <= 1000 -> mem_room empty_store n.
Proof. intros. split_and!; cbn; [lia|unfold U32_MAX; lia|done]. Qed.
