(* ===== verification/Pager.v ===== *)
(** * The pager ([crates/reddb-engine/src/storage/pager.rs])

    The pager keeps the pages of a database file behind the page cache: reads and writes
    go through the cache, a dirty page that is evicted or flushed goes to the file through
    the double-write zone after its log records, allocation takes numbers from the free
    list or extends the file, and the database header lives in two superblock copies.  The
    model is the pager as the thread that holds its locks sees it; an I/O error is the text
    it displays as, and the lock-poisoning errors do not arise. *)

From S2P Require Import Prelude Vfs FileFormat Page PagerIo PageCache FreeList PageStore.
From Stdlib Require Import ZArith Lia.
From stdpp Require Import pretty.
#[local] Open Scope Z_scope.

(** ** The host's write-ahead log ([WalBarrier]) *)

Class WalBarrier (W : Type) : Type := {
  flush_until : Z -> eff W string unit;
  needs_page_image : Z -> eff W string bool;
  capture_page_image : bytes -> eff W string unit;
  reserve_pages : Z -> Z -> eff W string unit;
  detach_free_pages : list Z -> eff W string unit;
  has_page_ownership_journal : eff W string bool;
  retire_pages : list Z -> eff W string unit;
}.

(** A pager without a log *)
Inductive NoWal : Type := no_wal.

#[global] Instance NoWal_barrier : WalBarrier NoWal := {
  flush_until _ := fail "nonzero page LSN requires a WAL durability barrier";
  needs_page_image _ := mret false;
  capture_page_image _ := mret tt;
  reserve_pages _ _ := mret tt;
  detach_free_pages _ := mret tt;
  has_page_ownership_journal := mret false;
  retire_pages _ := mret tt;
}.

(** ** The state *)

Record PagerConfig : Type := {
  disk_residency : bool;
  cache_size : nat;
  read_only : bool;
  verify_checksums : bool;
  double_write : bool;
}.

Record DeferredPageReclamation : Type := { enabled : bool; pending : gset Z; published : gset Z }.
Definition DeferredPageReclamation_default : DeferredPageReclamation := {| enabled := false; pending := ∅; published := ∅ |}.

Record Pager (W : Type) : Type := {
  path : string;
  file : File;
  dwb_enabled : bool;
  writeback_failed : bool;
  cache : PageCache;
  read_only_recovery : gmap Z bytes;
  freelist : FreeList;
  deferred_reclamation : DeferredPageReclamation;
  allocation_reused : bool;
  allocation_fence_pending : bool;
  db_header : DatabaseHeader;
  config : PagerConfig;
  header_dirty : bool;
  wal : W;
}.
Arguments path {W} _.
Arguments file {W} _.
Arguments dwb_enabled {W} _.
Arguments writeback_failed {W} _.
Arguments cache {W} _.
Arguments read_only_recovery {W} _.
Arguments freelist {W} _.
Arguments deferred_reclamation {W} _.
Arguments allocation_reused {W} _.
Arguments allocation_fence_pending {W} _.
Arguments db_header {W} _.
Arguments config {W} _.
Arguments header_dirty {W} _.
Arguments wal {W} _.

Section setters.
Context {W : Type}.
Implicit Types s : Pager W.

Definition set_file (x : File) s : Pager W := {| path := path s; file := x; dwb_enabled := dwb_enabled s;
  writeback_failed := writeback_failed s; cache := cache s; read_only_recovery := read_only_recovery s; freelist := freelist s;
  deferred_reclamation := deferred_reclamation s; allocation_reused := allocation_reused s;
  allocation_fence_pending := allocation_fence_pending s; db_header := db_header s; config := config s;
  header_dirty := header_dirty s; wal := wal s |}.
Definition set_writeback_failed (x : bool) s : Pager W := {| path := path s; file := file s; dwb_enabled := dwb_enabled s;
  writeback_failed := x; cache := cache s; read_only_recovery := read_only_recovery s; freelist := freelist s;
  deferred_reclamation := deferred_reclamation s; allocation_reused := allocation_reused s;
  allocation_fence_pending := allocation_fence_pending s; db_header := db_header s; config := config s;
  header_dirty := header_dirty s; wal := wal s |}.
Definition set_cache (x : PageCache) s : Pager W := {| path := path s; file := file s; dwb_enabled := dwb_enabled s;
  writeback_failed := writeback_failed s; cache := x; read_only_recovery := read_only_recovery s; freelist := freelist s;
  deferred_reclamation := deferred_reclamation s; allocation_reused := allocation_reused s;
  allocation_fence_pending := allocation_fence_pending s; db_header := db_header s; config := config s;
  header_dirty := header_dirty s; wal := wal s |}.
Definition set_recovery (x : gmap Z bytes) s : Pager W := {| path := path s; file := file s; dwb_enabled := dwb_enabled s;
  writeback_failed := writeback_failed s; cache := cache s; read_only_recovery := x; freelist := freelist s;
  deferred_reclamation := deferred_reclamation s; allocation_reused := allocation_reused s;
  allocation_fence_pending := allocation_fence_pending s; db_header := db_header s; config := config s;
  header_dirty := header_dirty s; wal := wal s |}.
Definition set_freelist (x : FreeList) s : Pager W := {| path := path s; file := file s; dwb_enabled := dwb_enabled s;
  writeback_failed := writeback_failed s; cache := cache s; read_only_recovery := read_only_recovery s; freelist := x;
  deferred_reclamation := deferred_reclamation s; allocation_reused := allocation_reused s;
  allocation_fence_pending := allocation_fence_pending s; db_header := db_header s; config := config s;
  header_dirty := header_dirty s; wal := wal s |}.
Definition set_deferred (x : DeferredPageReclamation) s : Pager W := {| path := path s; file := file s; dwb_enabled := dwb_enabled s;
  writeback_failed := writeback_failed s; cache := cache s; read_only_recovery := read_only_recovery s; freelist := freelist s;
  deferred_reclamation := x; allocation_reused := allocation_reused s;
  allocation_fence_pending := allocation_fence_pending s; db_header := db_header s; config := config s;
  header_dirty := header_dirty s; wal := wal s |}.
Definition set_allocation_reused (x : bool) s : Pager W := {| path := path s; file := file s; dwb_enabled := dwb_enabled s;
  writeback_failed := writeback_failed s; cache := cache s; read_only_recovery := read_only_recovery s; freelist := freelist s;
  deferred_reclamation := deferred_reclamation s; allocation_reused := x;
  allocation_fence_pending := allocation_fence_pending s; db_header := db_header s; config := config s;
  header_dirty := header_dirty s; wal := wal s |}.
Definition set_fence_pending (x : bool) s : Pager W := {| path := path s; file := file s; dwb_enabled := dwb_enabled s;
  writeback_failed := writeback_failed s; cache := cache s; read_only_recovery := read_only_recovery s; freelist := freelist s;
  deferred_reclamation := deferred_reclamation s; allocation_reused := allocation_reused s;
  allocation_fence_pending := x; db_header := db_header s; config := config s;
  header_dirty := header_dirty s; wal := wal s |}.
Definition set_db_header (x : DatabaseHeader) s : Pager W := {| path := path s; file := file s; dwb_enabled := dwb_enabled s;
  writeback_failed := writeback_failed s; cache := cache s; read_only_recovery := read_only_recovery s; freelist := freelist s;
  deferred_reclamation := deferred_reclamation s; allocation_reused := allocation_reused s;
  allocation_fence_pending := allocation_fence_pending s; db_header := x; config := config s;
  header_dirty := header_dirty s; wal := wal s |}.
Definition set_header_dirty (x : bool) s : Pager W := {| path := path s; file := file s; dwb_enabled := dwb_enabled s;
  writeback_failed := writeback_failed s; cache := cache s; read_only_recovery := read_only_recovery s; freelist := freelist s;
  deferred_reclamation := deferred_reclamation s; allocation_reused := allocation_reused s;
  allocation_fence_pending := allocation_fence_pending s; db_header := db_header s; config := config s;
  header_dirty := x; wal := wal s |}.
Definition set_wal (x : W) s : Pager W := {| path := path s; file := file s; dwb_enabled := dwb_enabled s;
  writeback_failed := writeback_failed s; cache := cache s; read_only_recovery := read_only_recovery s; freelist := freelist s;
  deferred_reclamation := deferred_reclamation s; allocation_reused := allocation_reused s;
  allocation_fence_pending := allocation_fence_pending s; db_header := db_header s; config := config s;
  header_dirty := header_dirty s; wal := x |}.

End setters.

(** Fields of the database header *)
Definition with_version (x : Z) (h : DatabaseHeader) : DatabaseHeader := {| version := x; page_size := page_size h;
  page_count := page_count h; freelist_head := freelist_head h; schema_version := schema_version h;
  checkpoint_lsn := checkpoint_lsn h; checkpoint_in_progress := checkpoint_in_progress h;
  checkpoint_target_lsn := checkpoint_target_lsn h; physical := physical h |}.
Definition with_page_count (x : Z) (h : DatabaseHeader) : DatabaseHeader := {| version := version h; page_size := page_size h;
  page_count := x; freelist_head := freelist_head h; schema_version := schema_version h;
  checkpoint_lsn := checkpoint_lsn h; checkpoint_in_progress := checkpoint_in_progress h;
  checkpoint_target_lsn := checkpoint_target_lsn h; physical := physical h |}.
Definition with_freelist_head (x : Z) (h : DatabaseHeader) : DatabaseHeader := {| version := version h; page_size := page_size h;
  page_count := page_count h; freelist_head := x; schema_version := schema_version h;
  checkpoint_lsn := checkpoint_lsn h; checkpoint_in_progress := checkpoint_in_progress h;
  checkpoint_target_lsn := checkpoint_target_lsn h; physical := physical h |}.
Definition with_checkpoint (lsn : Z) (in_progress : bool) (target : Z) (h : DatabaseHeader) : DatabaseHeader :=
  {| version := version h; page_size := page_size h;
  page_count := page_count h; freelist_head := freelist_head h; schema_version := schema_version h;
  checkpoint_lsn := lsn; checkpoint_in_progress := in_progress;
  checkpoint_target_lsn := target; physical := physical h |}.
Definition with_physical (x : PhysicalFileHeader) (h : DatabaseHeader) : DatabaseHeader := {| version := version h;
  page_size := page_size h; page_count := page_count h; freelist_head := freelist_head h; schema_version := schema_version h;
  checkpoint_lsn := checkpoint_lsn h; checkpoint_in_progress := checkpoint_in_progress h;
  checkpoint_target_lsn := checkpoint_target_lsn h; physical := x |}.

(** [From<PagerIoError>] *)
Definition from_io (e : PagerIoError) : PagerError :=
  match e with
  | IoFailed msg => PagerIo msg
  | IoPage e => PagerPage e
  | IoInvalidDatabase msg => InvalidDatabase msg
  end.

(** [Display] of an error of the free list *)
Definition freelist_error_text (e : FreeListError) : string :=
  match e with
  | FreeListEmpty => "Freelist is empty"
  | FreeListCorrupted msg => "Freelist corrupted: " +:+ msg
  | InvalidTrunk id => "Invalid trunk page: " +:+ pretty id
  end.

Definition freelist_error (e : FreeListError) : PagerError := InvalidDatabase ("Freelist: " +:+ freelist_error_text e).
Definition header_error (e : DatabaseHeaderError) : PagerError := InvalidDatabase (header_error_text e).

(** ** Operations *)

Section operations.
Context (crc32 : bytes -> Z) (iter : gmap Z nat -> list (Z * nat)).
Context {W : Type} `{WalBarrier W}.

Abbreviation op := (eff (Pager W) PagerError).

(** Reading and changing the fields *)
Definition gets {A} (f : Pager W -> A) : op A := fun s => (s, Ok (f s)).
Definition modify (f : Pager W -> Pager W) : op unit := fun s => (f s, Ok tt).

(** [if result.is_err() { h } result] *)
Definition on_err {A} (h : op unit) (m : op A) : op A := fun s =>
  match m s with
  | (s', Err e) => let '(s'', r) := h s' in (s'', match r with Panic => Panic | _ => Err e end)
  | r => r
  end.

Definition on_file {A} (m : eff File PagerIoError A) : op A := within file set_file from_io m.
Definition on_cache {A} (m : eff PageCache Empty_set A) : op A := within cache set_cache (fun e : Empty_set => match e with end) m.
Definition on_wal {A} (m : eff W string A) : op A := within wal set_wal PagerIo m.

(** [self.writeback_failed.store(true)] *)
Definition fence_interrupted_ownership : op unit := modify (set_writeback_failed true).

Definition ensure_writeback_available : op unit := fun s =>
  (s, if writeback_failed s
      then Err (PagerIo "page writeback failed; reopen the database to recover before writing")
      else Ok tt).

(** [if self.config.read_only { return Err(ReadOnly) }] *)
Definition ensure_writable : op unit := fun s => (s, if read_only (config s) then Err ReadOnly else Ok tt).

Definition record_ownership {A} (operation : eff W string A) : op A := on_err fence_interrupted_ownership (on_wal operation).

Definition read_page_raw (page_id : Z) : op bytes :=
  verify ← gets (fun s => verify_checksums (config s));
  on_file (PagerIo.read_page crc32 page_id verify).

Definition write_page_raw (page_id : Z) (page : bytes) : op unit :=
  _ ← ensure_writeback_available;
  _ ← ensure_writable;
  _ ← ensure_writeback_available;
  on_file (PagerIo.write_page page_id page).

Definition clear_dwb_zone : op unit := on_file (PagerIo.clear_dwb_zone crc32).

(** *** Writing dirty pages *)

Definition write_pages_through_dwb (pages : list (Z * bytes)) : op unit :=
  _ ← ensure_writable;
  _ ← ensure_writeback_available;
  double_write ← gets dwb_enabled;
  on_err fence_interrupted_ownership (on_file (PagerIo.write_pages crc32 pages double_write)).

(** The largest LSN of the pages with a readable header, 0 when there is none *)
Definition max_lsn (pages : list (Z * bytes)) : Z :=
  foldr Z.max 0 (omap (fun pg => h_lsn <$> result_ok (header pg.2)) pages).

Definition write_dirty_page_batch (pages : list (Z * bytes)) : op unit :=
  if bool_decide (pages = []) then mret tt
  else
    on_err
      (_ ← fence_interrupted_ownership; for_each pages (fun pg => on_cache (cache_mark_dirty pg.1)))
      (_ ← (if 0 <? max_lsn pages then on_wal (flush_until (max_lsn pages)) else mret tt);
       write_pages_through_dwb pages).

(** [sort_unstable], [sort_unstable_by_key] *)
Definition sort_ids (ids : list Z) : list Z := merge_sort Z.le ids.
Definition by_id (a b : Z * bytes) : Prop := a.1 <= b.1.
#[local] Instance by_id_dec a b : Decision (by_id a b) := decide (a.1 <= b.1).
Definition sort_pages (pages : list (Z * bytes)) : list (Z * bytes) := merge_sort by_id pages.

(** The dirty pages that leave with an evicted one *)
Definition eviction_batch (pending_page : option Z) (c : PageCache) : list Z :=
  let ids := cache_dirty_page_ids iter (Z.to_nat DWB_MAX_PAGES_PER_FRAME) c in
  let ids := filter (fun id => Some id <> pending_page) ids in
  sort_ids (take (Z.to_nat (sat_sub DWB_MAX_PAGES_PER_FRAME 1)) ids).

Definition write_evicted_dirty_page (page : bytes) (pending_page : option Z) : op unit :=
  ids ← gets (fun s => eviction_batch pending_page (cache s));
  pages ← on_cache (flush_dirty_pages ids);
  write_dirty_page_batch (sort_pages (pages ++ [(page_id page, page)])).

(** [if let Some(dirty_page) = evicted { self.write_evicted_dirty_page(dirty_page, pending)?; }] *)
Definition write_back (evicted : option bytes) (pending_page : option Z) : op unit :=
  match evicted with
  | Some dirty_page => write_evicted_dirty_page dirty_page pending_page
  | None => mret tt
  end.

(** *** Reading *)

(** The image that recovery installed for a reader, if there is one *)
Definition recovery_image (id : Z) (s : Pager W) : option bytes :=
  if read_only (config s) then read_only_recovery s !! id else None.

(** Behind the ownership lock: the cache again, then the file *)
Definition load_page (id : Z) (load : op bytes) : op bytes :=
  hit ← on_cache (cache_get id);
  match hit with
  | Some page => mret page
  | None =>
      again ← on_cache (cache_get id);
      match again with
      | Some page => mret page
      | None =>
          page ← load;
          evicted ← on_cache (cache_insert_if_absent id page);
          _ ← write_back evicted None;
          mret page
      end
  end.

Definition read_page (id : Z) : op bytes :=
  image ← gets (recovery_image id);
  match image with
  | Some page =>
      verify ← gets (fun s => verify_checksums (config s));
      if (verify : bool) then _ ← lift (map_err PagerPage (verify_checksum crc32 page)); mret page else mret page
  | None => load_page id (read_page_raw id)
  end.

Definition read_page_no_checksum (id : Z) : op bytes :=
  image ← gets (recovery_image id);
  match image with
  | Some page => mret page
  | None => load_page id (on_file (PagerIo.read_page crc32 id false))
  end.

(** [read_manifest_page] *)
Definition read_manifest_page : op bytes := fun s =>
  eff_map_err (fun _ => ManifestZoneCorrupt (path s)) (read_page 1) s.

(** *** Writing *)

Definition capture_page_before_write (id : Z) : op unit :=
  required ← record_ownership (needs_page_image id);
  if (required : bool) then
    previous ← read_page id;
    record_ownership (capture_page_image previous)
  else mret tt.

Definition insert_dirty_page (id : Z) (page : bytes) : op unit :=
  evicted ← on_cache (cache_insert_dirty id page);
  write_back evicted (Some id).

Definition write_page_no_checksum (id : Z) (page : bytes) : op unit :=
  _ ← ensure_writeback_available;
  _ ← ensure_writable;
  _ ← capture_page_before_write id;
  insert_dirty_page id page.

Definition write_page (id : Z) (page : bytes) : op unit :=
  _ ← ensure_writeback_available;
  _ ← ensure_writable;
  _ ← capture_page_before_write id;
  insert_dirty_page id (update_checksum crc32 page).

(** *** The superblock pair *)

Definition read_superblock_zone : op bytes := on_file PagerIo.read_superblock_zone.

Definition newest_superblock : op (PagedSuperblockSelection * bytes) :=
  zone ← read_superblock_zone;
  selection ← (fun s => (s, ok_or (select_paged_superblock crc32 zone) (SuperblockZoneUnrecoverable (path s)))) : op _;
  let start := sel_copy_index selection * PAGED_SUPERBLOCK_SLOT_SIZE in
  mret (selection, slice zone start PAGED_SUPERBLOCK_SLOT_SIZE).

Definition write_superblock_slot (slot : bytes) (copy_index generation : Z) : op unit :=
  _ ← ensure_writeback_available;
  _ ← ensure_writable;
  _ ← ensure_writeback_available;
  on_file (PagerIo.write_superblock_slot crc32 slot copy_index generation).

(** [commit_superblock_locked]; [commit_superblock] is the same under the locks *)
Definition commit_superblock (mutate : bytes -> result DatabaseHeaderError bytes) : op unit :=
  _ ← ensure_writable;
  '(newest, image) ← newest_superblock;
  image ← lift (map_err header_error (mutate image));
  write_superblock_slot image (paged_superblock_next_copy (Some newest))
    (sat_add U64_MAX (sel_generation newest) 1).

Definition write_header : op unit :=
  _ ← ensure_writable;
  h ← gets db_header;
  _ ← commit_superblock (fun image => encode_database_header image h);
  modify (set_header_dirty false).

Definition sync_file : op unit := on_file (io sync_all).

Definition write_header_and_sync : op unit := _ ← write_header; sync_file.

Definition complete_allocation_fence : op unit :=
  waiting ← gets allocation_fence_pending;
  if (waiting : bool) then
    _ ← write_header_and_sync;
    _ ← write_header_and_sync;
    modify (set_fence_pending false)
  else mret tt.

(** A change of the in-memory header, which the next flush publishes *)
Definition change_header (f : DatabaseHeader -> DatabaseHeader) : op unit :=
  modify (fun s => set_header_dirty true (set_db_header (f (db_header s)) s)).

Definition update_physical_header (x : PhysicalFileHeader) : op unit :=
  _ ← ensure_writeback_available;
  _ ← ensure_writable;
  change_header (with_physical x).

Definition set_checkpoint_in_progress (in_progress : bool) (target_lsn : Z) : op unit :=
  _ ← change_header (fun h => with_checkpoint (checkpoint_lsn h) in_progress target_lsn h);
  write_header_and_sync.

Definition complete_checkpoint (lsn : Z) : op unit :=
  _ ← change_header (with_checkpoint lsn false 0);
  write_header_and_sync.

(** [for _ in 0..PAGED_SUPERBLOCK_SLOT_COUNT] *)
Definition commit_both (mutate : bytes -> result DatabaseHeaderError bytes) : op unit :=
  for_each (seqZ 0 PAGED_SUPERBLOCK_SLOT_COUNT) (fun _ => commit_superblock mutate).

Definition PHASE3_DWB_ZONE_FILE_VERSION : Z := 0x00010001.

Definition fence_file_format_version (v : Z) : op unit :=
  _ ← ensure_writeback_available;
  _ ← ensure_writable;
  if v =? PAGE_RECOVERY_READ_ONLY_FILE_VERSION
  then fail (InvalidDatabase "recovery read-only format is reserved")
  else
    residency ← gets (fun s => disk_residency (config s));
    if (PAGE_DISK_RESIDENCY_FILE_VERSION <=? v) && negb residency
    then fail (InvalidDatabase "disk-residency format requires a disk-resident writer")
    else if negb ((PHASE3_DWB_ZONE_FILE_VERSION <=? v) && (v <=? PAGE_FILE_VERSION))
    then fail (InvalidDatabase "unsupported file format fence")
    else
      current ← gets (fun s => version (db_header s));
      if v <? current
      then fail (InvalidDatabase "file format downgrade is not supported")
      else
        on_err fence_interrupted_ownership
          (_ ← commit_both (fun image => set_database_header_version image v);
           modify (fun s => set_db_header (with_version v (db_header s)) s)).

(** *** Allocation *)

(** What [while let Some(id) = fl.allocate()] visits *)
Fixpoint drain (fuel : nat) (fl : FreeList) : list Z :=
  match fuel, allocate fl with
  | Datatypes.S fuel, (fl, Some id) => id :: drain fuel fl
  | _, _ => []
  end.
Definition drained (fl : FreeList) : list Z := drain (length (free_pages fl)) fl.

Definition allocatable (page_count id : Z) : bool := (FIRST_ALLOCATABLE_PAGE <=? id) && (id <? page_count).

(** The numbers of a trunk, each checked as it is taken *)
Fixpoint detach_pages (ids : list Z) (page_count : Z) (seen : gset Z) : result PagerError (list Z) :=
  match ids with
  | [] => Ok []
  | id :: ids =>
      if negb (allocatable page_count id) || bool_decide (id ∈ seen)
      then Err (InvalidDatabase "invalid freelist trunk page")
      else pages ← detach_pages ids page_count ({[id]} ∪ seen); Ok (id :: pages)
  end.

(** [freelist.allocate()] on the list of the pager *)
Definition pop_free_page : op (option Z) := fun s =>
  let '(fl, id) := allocate (freelist s) in (set_freelist fl s, Ok id).

(** [freelist.load_from_trunk(&trunk)] on the list of the pager; the error text is [f]'s *)
Definition load_trunk (f : FreeListError -> PagerError) (trunk : bytes) : op unit := fun s =>
  match load_from_trunk (freelist s) trunk with
  | Ok (fl, _) => (set_freelist fl s, Ok tt)
  | Err e => (s, Err (f e))
  | Panic => (s, Panic)
  end.

(** The header stops naming the trunk that was loaded *)
Definition detach_trunk_durably : op unit :=
  _ ← modify (fun s => set_header_dirty true
        (set_db_header (with_freelist_head (trunk_head (freelist s)) (db_header s)) s));
  _ ← modify (set_fence_pending true);
  complete_allocation_fence.

Definition allocate_unjournaled_trunk (trunk : bytes) (pages : list Z) : op Z :=
  id ← lift (match pages with id :: _ => Ok id | [] => Panic end);
  _ ← record_ownership (reserve_pages id 1);
  _ ← (if 1 <? zlen pages then
         let remaining := zlen pages - 2 in
         let trunk := update_checksum crc32 (put_u32 trunk COUNT_OFFSET remaining) in
         _ ← on_cache (cache_remove (page_id trunk));
         _ ← write_pages_through_dwb [(page_id trunk, trunk)];
         modify (fun s => set_freelist (note_durable_trunk_allocation (freelist s) remaining) s)
       else
         _ ← load_trunk (fun e => InvalidDatabase (freelist_error_text e)) trunk;
         _ ← detach_trunk_durably;
         got ← pop_free_page;
         lift (assert_or_panic (bool_decide (got = Some id))));
  _ ← modify (set_allocation_reused true);
  mret id.

(** The branch for a list with a trunk and no number in memory *)
Definition allocate_from_trunk (trunk_id : Z) : op Z :=
  trunk ← eff_map_err (fun e => match e with
            | PageNotFound _ => InvalidDatabase "Freelist trunk missing"
            | other => other
            end) (read_page trunk_id);
  if negb (page_id trunk =? trunk_id) then fail (InvalidDatabase "misdirected freelist trunk")
  else
    '(detached, _) ← lift (map_err freelist_error (load_from_trunk FreeList_new trunk));
    count ← gets (fun s => page_count (db_header s));
    pages ← lift (detach_pages (drained detached) count ∅);
    journaled ← record_ownership has_page_ownership_journal;
    if negb journaled then allocate_unjournaled_trunk trunk pages
    else
      _ ← record_ownership (detach_free_pages pages);
      _ ← load_trunk freelist_error trunk;
      _ ← detach_trunk_durably;
      next ← (fun s => (s, ok_or (next_in_memory_page (freelist s))
               (InvalidDatabase "Freelist empty after trunk load"))) : op Z;
      _ ← record_ownership (reserve_pages next 1);
      got ← pop_free_page;
      id ← lift (ok_or got (InvalidDatabase "Freelist empty after trunk load"));
      _ ← modify (set_allocation_reused true);
      mret id.

(** The branch that extends the file *)
Definition extend_file : op Z :=
  id ← gets (fun s => page_count (db_header s));
  if U32_MAX <? id + 1 then fail (InvalidDatabase "page count overflow")
  else
    _ ← record_ownership (reserve_pages id 1);
    _ ← change_header (with_page_count (id + 1));
    mret id.

(** A number for a new page *)
Definition allocate_page_id : op Z :=
  _ ← complete_allocation_fence;
  fl ← gets freelist;
  match next_in_memory_page fl with
  | Some id =>
      _ ← record_ownership (reserve_pages id 1);
      got ← pop_free_page;
      id ← lift (match got with Some id => Ok id | None => Panic end);
      _ ← modify (set_allocation_reused true);
      mret id
  | None => if negb (trunk_head fl =? 0) then allocate_from_trunk (trunk_head fl) else extend_file
  end.

Definition allocate_page (t : PageType) : op bytes :=
  _ ← ensure_writeback_available;
  _ ← ensure_writable;
  id ← allocate_page_id;
  let page := Page_new t id in
  _ ← insert_dirty_page id page;
  mret page.

Record ExtentId : Type := { start_page : Z; n_pages : Z }.

Definition reserve_contig_extent (n : Z) : op ExtentId :=
  _ ← ensure_writeback_available;
  _ ← ensure_writable;
  if n =? 0 then fail (InvalidDatabase "contiguous extent must reserve at least one page")
  else
    start ← gets (fun s => page_count (db_header s));
    if U32_MAX <? start + n then fail (InvalidDatabase "contiguous extent page count overflow")
    else
      _ ← record_ownership (reserve_pages start n);
      _ ← change_header (with_page_count (start + n));
      _ ← for_each (seqZ start n) (fun id => insert_dirty_page id (update_checksum crc32 (Page_new Vector id)));
      mret {| start_page := start; n_pages := n |}.

(** *** Freeing *)

Definition defer_free (id : Z) (d : DeferredPageReclamation) : DeferredPageReclamation :=
  {| enabled := enabled d; pending := {[id]} ∪ pending d; published := published d |}.

Definition free_page (id : Z) : op unit :=
  _ ← ensure_writeback_available;
  _ ← ensure_writable;
  deferred ← gets deferred_reclamation;
  if enabled deferred then
    count ← gets (fun s => page_count (db_header s));
    if negb (allocatable count id) then fail (InvalidDatabase "invalid deferred free page")
    else
      _ ← record_ownership (retire_pages [id]);
      modify (fun s => set_deferred (defer_free id (deferred_reclamation s)) s)
  else
    _ ← record_ownership (retire_pages [id]);
    _ ← on_cache (cache_remove id);
    modify (fun s => set_header_dirty true (set_freelist (free (freelist s) id) s)).

Definition enable_deferred_reclamation : op unit :=
  modify (fun s => set_deferred {| enabled := true; pending := pending (deferred_reclamation s);
    published := published (deferred_reclamation s) |} s).

(** The two sets, in the order of a [BTreeSet] *)
Definition deferred_reclamation_pages (s : Pager W) : list Z * list Z :=
  (sort_ids (elements (pending (deferred_reclamation s))), sort_ids (elements (published (deferred_reclamation s)))).

Definition restore_deferred_reclamation (pages : list Z) : op unit :=
  count ← gets (fun s => page_count (db_header s));
  if negb (forallb (allocatable count) pages) then fail (InvalidDatabase "invalid persisted deferred free page")
  else modify (fun s => set_deferred {| enabled := enabled (deferred_reclamation s);
    pending := list_to_set pages ∪ pending (deferred_reclamation s);
    published := list_to_set pages ∪ published (deferred_reclamation s) |} s).

(** [any(|id| *id < FIRST || *id >= count || !seen.insert(id))] finds nothing *)
Definition distinct_allocatable (page_count : Z) (pages : list Z) : bool :=
  forallb (allocatable page_count) pages && bool_decide (NoDup pages).

Definition record_retirement_intent (pages : list Z) : op unit :=
  _ ← ensure_writeback_available;
  _ ← ensure_writable;
  count ← gets (fun s => page_count (db_header s));
  if negb (distinct_allocatable count pages) then fail (InvalidDatabase "invalid retirement intent")
  else record_ownership (retire_pages pages).

(** A trunk of the chain, with the numbers it holds and its successor *)
Definition visit_trunk (trunk_id : Z) (visited : gset Z) (page_count : Z) : op (list Z * Z) :=
  if negb (allocatable page_count trunk_id) || bool_decide (trunk_id ∈ visited)
  then fail (InvalidDatabase "invalid freelist trunk chain")
  else
    trunk ← read_page trunk_id;
    if negb (page_id trunk =? trunk_id) then fail (InvalidDatabase "misdirected freelist trunk")
    else
      '(loaded, next) ← lift (map_err freelist_error (load_from_trunk FreeList_new trunk));
      mret (drained loaded, default 0 next).

Fixpoint reject_retired (ids : list Z) (seen : gset Z) (page_count : Z) : result PagerError unit :=
  match ids with
  | [] => Ok tt
  | id :: ids =>
      if negb (allocatable page_count id) then Err (InvalidDatabase "invalid free page range")
      else if bool_decide (id ∈ seen) then Err (InvalidDatabase "retired page is already free")
      else reject_retired ids seen page_count
  end.

(** The walk over the trunks; a trunk is visited once, so the page count bounds it *)
Fixpoint reject_in_trunks (fuel : nat) (trunk_id : Z) (visited seen : gset Z) (page_count : Z) : op unit :=
  if (trunk_id =? 0) || bool_decide (seen = ∅) then mret tt
  else match fuel with
  | O => out_of_fuel
  | Datatypes.S fuel =>
      '(ids, next) ← visit_trunk trunk_id visited page_count;
      _ ← lift (reject_retired ids seen page_count);
      reject_in_trunks fuel next ({[trunk_id]} ∪ visited) seen page_count
  end.

Definition free_retired_pages (pages : list Z) : op unit :=
  _ ← ensure_writeback_available;
  _ ← ensure_writable;
  count ← gets (fun s => page_count (db_header s));
  if negb (forallb (allocatable count) pages) then fail (InvalidDatabase "invalid retired page range")
  else if negb (bool_decide (NoDup pages)) then fail (InvalidDatabase "duplicate retired page")
  else
    let seen := list_to_set pages in
    fl ← gets freelist;
    if contains_any fl seen then fail (InvalidDatabase "retired page is already free")
    else
      _ ← reject_in_trunks (Datatypes.S (Z.to_nat count)) (trunk_head fl) ∅ seen count;
      _ ← record_ownership (retire_pages pages);
      _ ← for_each pages (fun id => _ ← on_cache (cache_remove id); mret tt);
      modify (fun s => set_header_dirty true (set_freelist (free_batch (freelist s) pages) s)).

Definition complete_deferred_publication (retained released : list Z) : op unit :=
  _ ← (if bool_decide (released = []) then mret tt else free_retired_pages released);
  modify (fun s => set_deferred {| enabled := enabled (deferred_reclamation s);
    pending := pending (deferred_reclamation s) ∖ list_to_set released;
    published := list_to_set retained |} s).

Fixpoint remove_free (ids : list Z) (requested remaining : gset Z) (page_count : Z) : result PagerError (gset Z) :=
  match ids with
  | [] => Ok remaining
  | id :: ids =>
      if negb (allocatable page_count id) then Err (InvalidDatabase "invalid free page range")
      else if bool_decide (id ∈ requested) then
        if bool_decide (id ∈ remaining) then remove_free ids requested (remaining ∖ {[id]}) page_count
        else Err (InvalidDatabase "duplicate recovery page")
      else remove_free ids requested remaining page_count
  end.

Fixpoint remove_in_trunks (fuel : nat) (trunk_id : Z) (visited requested remaining : gset Z) (page_count : Z) : op (gset Z) :=
  if trunk_id =? 0 then mret remaining
  else match fuel with
  | O => out_of_fuel
  | Datatypes.S fuel =>
      '(ids, next) ← visit_trunk trunk_id visited page_count;
      remaining ← lift (remove_free ids requested remaining page_count);
      remove_in_trunks fuel next ({[trunk_id]} ∪ visited) requested remaining page_count
  end.

Definition pages_not_in_freelist (pages : list Z) (fl : FreeList) (page_count : Z) : op (gset Z) :=
  if negb (distinct_allocatable page_count pages) then fail (InvalidDatabase "invalid recovery page set")
  else
    let requested := list_to_set pages in
    remaining ← lift (map_err freelist_error (remove_existing_from fl requested requested));
    remove_in_trunks (Datatypes.S (Z.to_nat page_count)) (trunk_head fl) ∅ requested remaining page_count.

Definition recover_unowned_pages (pages : list Z) : op unit :=
  _ ← ensure_writeback_available;
  _ ← ensure_writable;
  count ← gets (fun s => page_count (db_header s));
  fl ← gets freelist;
  remaining ← pages_not_in_freelist pages fl count;
  if bool_decide (remaining = ∅) then mret tt
  else
    let missing := sort_ids (elements remaining) in
    _ ← for_each missing (fun id => _ ← on_cache (cache_remove id); mret tt);
    modify (fun s => set_header_dirty true (set_freelist (free_batch (freelist s) missing) s)).

Definition validate_owned_pages (pages : list Z) : op unit :=
  count ← gets (fun s => page_count (db_header s));
  fl ← gets freelist;
  absent ← pages_not_in_freelist pages fl count;
  if negb (size absent =? length pages)%nat then fail (InvalidDatabase "owned recovery page is free")
  else mret tt.

Definition free_page_count (s : Pager W) : Z := total_free (freelist s).

(** *** Flushing *)

Definition FLUSH_BATCH_PAGES : nat := 256.

(** The free list goes to trunk pages.  The closure that extends the file for a trunk is not
    called: with the threshold 0 the loop only runs while there is a free page to take. *)
Definition flush_freelist : op (list bytes) := fun s =>
  if FreeList.dirty (freelist s) then
    match flush_to_trunks crc32 (freelist s) 0 (fun _ => page_count (db_header s)) with
    | Some (Ok (fl, trunks)) =>
        (set_freelist (FreeList.mark_clean fl) (set_header_dirty true
          (set_db_header (with_freelist_head (trunk_head fl) (db_header s)) s)), Ok trunks)
    | _ => (s, Panic)
    end
  else (s, Ok []).

(** Trunks enter the cache; what they evict is to be written *)
Fixpoint insert_trunks (trunks : list bytes) : op (list (Z * bytes)) :=
  match trunks with
  | [] => mret []
  | trunk :: trunks =>
      evicted ← on_cache (cache_insert_dirty (page_id trunk) trunk);
      rest ← insert_trunks trunks;
      mret (match evicted with Some p => (page_id p, p) :: rest | None => rest end)
  end.

(** [dirty_page_ids(usize::MAX)]: a cache has fewer dirty pages than one more than it holds. *)
Definition all_dirty_page_ids (c : PageCache) : list Z := cache_dirty_page_ids iter (Datatypes.S (cache_len c)) c.

Definition flush_cached (ids : list Z) : op unit :=
  pages ← on_cache (flush_dirty_pages ids);
  write_dirty_page_batch pages.

Definition flush : op unit :=
  _ ← ensure_writeback_available;
  ro ← gets (fun s => read_only (config s));
  if (ro : bool) then mret tt
  else
    trunks ← flush_freelist;
    dirty_pages ← insert_trunks trunks;
    _ ← for_each (chunks_of FLUSH_BATCH_PAGES dirty_pages) write_dirty_page_batch;
    page_ids ← gets (fun s => sort_ids (all_dirty_page_ids (cache s)));
    _ ← for_each (chunks_of FLUSH_BATCH_PAGES page_ids) flush_cached;
    changed ← gets header_dirty;
    if (changed : bool) then write_header else mret tt.

Definition sync : op unit :=
  _ ← flush;
  reused ← gets allocation_reused;
  _ ← modify (set_allocation_reused false);
  _ ← (if (reused : bool)
       then on_err (modify (set_allocation_reused true)) write_header_and_sync
       else mret tt);
  sync_file.

Definition sync_recovered_allocator : op unit :=
  on_err fence_interrupted_ownership
    (_ ← sync;
     h ← gets db_header;
     commit_both (fun image => encode_database_header image h)).

Definition flush_some_dirty (max : nat) : op nat :=
  _ ← ensure_writeback_available;
  ro ← gets (fun s => read_only (config s));
  if (ro : bool) || (max =? 0)%nat then mret 0%nat
  else
    dirty_pages ← on_cache (cache_flush_some_dirty iter max);
    _ ← for_each dirty_pages (fun pg => write_page pg.1 pg.2);
    mret (length dirty_pages).

(** *** Recovery images of a reader *)

Definition install_read_only_page (id : Z) (page : bytes) : op unit := fun s =>
  let images := read_only_recovery s in
  let limit := Nat.max (cache_size (config s)) (Z.to_nat DWB_MAX_PAGES_PER_FRAME) in
  if (limit <=? size images)%nat && negb (bool_decide (is_Some (images !! id)))
  then (s, Err (InvalidDatabase "read-only recovery exceeds the page cache budget"))
  else (set_recovery (<[id := page]> images) s, Ok tt).

Definition restore_read_only_page (id : Z) (page : bytes) : op unit :=
  ro ← gets (fun s => read_only (config s));
  if negb ro || (id =? 0) || negb (page_id page =? id)
  then fail (InvalidDatabase "invalid read-only recovery image")
  else
    _ ← lift (map_err PagerPage (verify_checksum crc32 page));
    install_read_only_page id page.

Definition recover_from_dwb : op unit :=
  ro ← gets (fun s => read_only (config s));
  if (ro : bool) then
    pages ← on_file (PagerIo.read_dwb_pages crc32);
    for_each pages (fun pg => install_read_only_page pg.1 pg.2)
  else on_file (PagerIo.recover_from_dwb crc32).

(** *** Opening *)

Definition ensure_phase3_dwb_zone_layout : op unit :=
  '(_, image) ← newest_superblock;
  h ← lift (map_err header_error (decode_database_header image));
  (fun s => (s,
    if (version h =? PAGE_RECOVERY_READ_ONLY_FILE_VERSION) && negb (read_only (config s))
    then Err (InvalidDatabase "recovered database is read-only; export verified data into a new store")
    else if (PAGE_DISK_RESIDENCY_FILE_VERSION <=? version h) && negb (disk_residency (config s)) && negb (read_only (config s))
    then Err (InvalidDatabase "prepared disk-resident database requires a disk-resident writer")
    else if version h <? PHASE3_DWB_ZONE_FILE_VERSION then Err (LegacyPagedStore (path s))
    else Ok tt)) : op unit.

(** The pages the file reaches: its length rounded up and, for a reader, the recovery images *)
Definition max_recovery_page (s : Pager W) : option Z :=
  if read_only (config s)
  then foldr (fun id m => Some (Z.max id (default id m))) None (elements (dom (read_only_recovery s)))
  else None.

Definition physical_extent (len : Z) (s : Pager W) : result PagerError Z :=
  let pages := (len + PAGE_SIZE - 1) / PAGE_SIZE in
  if U32_MAX <? pages then Err (InvalidDatabase "data file exceeds the page address space")
  else match max_recovery_page s with
  | None => Ok pages
  | Some id =>
      if U32_MAX <? id + 1 then Err (InvalidDatabase "recovery page exceeds the page address space")
      else Ok (Z.max pages (id + 1))
  end.

(** The header and an empty free list with the header's trunk *)
Definition install_header (h : DatabaseHeader) (physical_pages : Z) (s : Pager W) : Pager W :=
  let s := if (page_count h <? physical_pages) && negb (read_only (config s)) then set_header_dirty true s else s in
  let h := if page_count h <? physical_pages then with_page_count physical_pages h else h in
  set_freelist (from_header (freelist_head h) 0) (set_db_header h s).

Definition load_header : op unit :=
  '(_, image) ← newest_superblock;
  h ← lift (map_err header_error (decode_database_header image));
  len ← on_file (io file_len);
  physical_pages ← (fun s => (s, physical_extent len s)) : op Z;
  modify (install_header h physical_pages).

Definition superblock_slot_image (page : bytes) : bytes := slice page 0 PAGED_SUPERBLOCK_SLOT_SIZE.

(** The second copy is sealed from the same image: a seal sets the whole trailer. *)
Definition initialize : op unit :=
  _ ← ensure_writable;
  let initial_page_count := FIRST_ALLOCATABLE_PAGE in
  header_page ← lift (map_err PagerPage (new_header_page crc32 initial_page_count));
  _ ← modify (fun s => set_db_header (with_page_count initial_page_count (db_header s)) s);
  _ ← write_page_raw 0 header_page;
  _ ← write_page_raw 1 (update_checksum crc32 (Page_new Page.Header 1));
  _ ← write_page_raw 2 (update_checksum crc32 (Page_new Vault 2));
  _ ← clear_dwb_zone;
  let slot := superblock_slot_image header_page in
  _ ← write_superblock_slot slot 0 1;
  _ ← write_superblock_slot slot 1 2;
  sync.

Definition Pager_new (file : File) (path : string) (config : PagerConfig) (wal : W) : Pager W := {|
  path := path; file := file; dwb_enabled := double_write config && negb (read_only config);
  writeback_failed := false; cache := PageCache_new (cache_size config); read_only_recovery := ∅;
  freelist := FreeList_new; deferred_reclamation := DeferredPageReclamation_default;
  allocation_reused := false; allocation_fence_pending := false; db_header := DatabaseHeader_default;
  config := config; header_dirty := false; wal := wal |}.

Definition check_new_file (create : bool) : op unit :=
  if create then
    len ← on_file (io file_len);
    if negb (len =? 0) then fail (InvalidDatabase "new pager file is not empty") else mret tt
  else mret tt.

(** [open_owned]: the pager, usable when the result is [Ok] *)
Definition open_owned (file : File) (path : string) (config : PagerConfig) (wal : W) (create : bool)
    : Pager W * result PagerError unit :=
  (_ ← check_new_file create;
   if create then initialize
   else
     _ ← ensure_phase3_dwb_zone_layout;
     _ ← recover_from_dwb;
     load_header) (Pager_new file path config wal).

(** [impl PageStore for Pager] *)
Definition Pager_store : PageStore (Pager W) := {|
  PageStore.read_page := read_page;
  PageStore.write_page := write_page;
  PageStore.allocate_page := allocate_page;
  PageStore.free_page := free_page |}.

End operations.
