(* ===== verification/Fence.v ===== *)
(** * The write-back fence and the log before the data

    Once a write-back has failed, the pager's image of the file can no longer be trusted: no
    operation puts another byte into the file until the database is opened again.  And a
    page only goes to the file when the log is durable up to the page's LSN. *)

From S2P Require Import Prelude Vfs FileFormat Page PagerIo PageCache FreeList PageStore Pager.
From Stdlib Require Import ZArith Lia.
#[local] Open Scope Z_scope.

(** ** Operations that leave the bytes of the file alone *)

Definition same_bytes (f g : File) : Prop := stable g = stable f /\ unsynced g = unsynced f.

#[export] Instance same_bytes_preorder : PreOrder same_bytes.
Proof. split; [by intros f|]. intros f g h [E1 E2] [E3 E4]. split; congruence. Qed.

Definition looks {A} (m : eff File PagerIoError A) : Prop := forall f, same_bytes f (m f).1.

Lemma looks_bind {A B} (m : eff File PagerIoError A) (k : A -> eff File PagerIoError B) :
  looks m -> (forall a, looks (k a)) -> looks (m ≫= k).
Proof.
  intros Hm Hk f. specialize (Hm f). unfold mbind, eff_bind. destruct (m f) as [g [a| |]]; [|done|done]. etrans; [exact Hm|apply Hk].
Qed.

Lemma looks_lift {A} (r : result PagerIoError A) : looks (lift r).
Proof. by intros f. Qed.

Lemma looks_ret {A} (a : A) : looks (mret a).
Proof. by intros f. Qed.

Lemma looks_attempt {A} (m : eff File string A) :
  (forall f, same_bytes f (m f).1) -> looks (io (attempt m (fun _ f => f))).
Proof.
  intros Hm f. unfold io, eff_map_err, attempt. destruct (faults f) as [[[|n] k]|]; [done| |].
  - specialize (Hm (set_faults (Some (n, k)) f)). by destruct (m _).
  - specialize (Hm f). by destruct (m f).
Qed.

Lemma looks_seek pos : looks (io (seek pos)).
Proof. by apply looks_attempt. Qed.

Lemma looks_len : looks (io file_len).
Proof. by apply looks_attempt. Qed.

Lemma looks_read n : looks (io (read_exact n)).
Proof. apply looks_attempt. intros f. by destruct (_ <=? _). Qed.

Create HintDb fence.
#[local] Hint Resolve looks_bind looks_lift looks_ret looks_seek looks_len looks_read : fence.

Lemma looks_read_page crc32 id verify : looks (PagerIo.read_page crc32 id verify).
Proof.
  apply looks_bind; [auto with fence|intros _]. apply looks_bind; [auto with fence|intros b].
  destruct (_ && _); [apply looks_bind; auto with fence|auto with fence].
Qed.

Lemma looks_superblocks : looks PagerIo.read_superblock_zone.
Proof.
  apply looks_bind; [auto with fence|intros len]. cbn zeta. case_match; [|auto with fence].
  apply looks_bind; [auto with fence|intros _]. apply looks_bind; auto with fence.
Qed.

Section fence.
Context (crc32 : bytes -> Z) (iter : gmap Z nat -> list (Z * nat)).
Context {W : Type} `{WalBarrier W}.
Implicit Types s : Pager W.
Abbreviation op := (eff (Pager W) PagerError).

(** ** Fenced operations *)

(** A pager that is fenced stays fenced, and [m] leaves the bytes of the file alone. *)
Definition frozen {A} (m : op A) : Prop :=
  forall s, writeback_failed s = true -> writeback_failed (m s).1 = true /\ same_bytes (file s) (file (m s).1).

(** [m] does not succeed on a fenced pager. *)
Definition refused {A} (m : op A) : Prop := forall s a, writeback_failed s = true -> (m s).2 <> Ok a.

Lemma frozen_bind {A B} (m : op A) (k : A -> op B) : frozen m -> (forall a, frozen (k a)) -> frozen (m ≫= k).
Proof.
  intros Hm Hk s Hs. destruct (Hm s Hs) as [Hf Hb]. unfold mbind, eff_bind. destruct (m s) as [s' [a| |]]; [|done|done]. cbn [fst] in *.
  destruct (Hk a s' Hf). split; [done|by etrans].
Qed.

Lemma frozen_pure {A} (r : Pager W -> result PagerError A) : frozen (fun s => (s, r s)).
Proof. by intros s Hs. Qed.

Lemma frozen_ret {A} (a : A) : frozen (mret a).
Proof. by intros s Hs. Qed.

Lemma frozen_modify (f : Pager W -> Pager W) :
  (forall s, writeback_failed s = true -> writeback_failed (f s) = true) -> (forall s, file (f s) = file s) -> frozen (modify f).
Proof. intros Hf Hb s Hs. split; [by apply Hf|]. cbn. by rewrite Hb. Qed.

Lemma frozen_cache {A} (m : eff PageCache Empty_set A) : frozen (on_cache m).
Proof. intros s Hs. unfold on_cache, within. by destruct (m (cache s)). Qed.

Lemma frozen_wal {A} (m : eff W string A) : frozen (on_wal m).
Proof. intros s Hs. unfold on_wal, within. by destruct (m (wal s)). Qed.

Lemma frozen_look {A} (m : eff File PagerIoError A) : looks m -> frozen (on_file m).
Proof. intros Hm s Hs. specialize (Hm (file s)). unfold on_file, within. by destruct (m (file s)). Qed.

Lemma frozen_on_err {A} (h : op unit) (m : op A) : frozen h -> frozen m -> frozen (on_err h m).
Proof.
  intros Hh Hm s Hs. destruct (Hm s Hs) as [Hf Hb]. unfold on_err. destruct (m s) as [s' [a|e|]]; [done| |done]. cbn [fst] in *.
  destruct (Hh s' Hf) as [Hf' Hb']. destruct (h s') as [s'' [| |]]; (split; [done|by etrans]).
Qed.

Lemma frozen_map_err {A} (g : PagerError -> PagerError) (m : op A) : frozen m -> frozen (eff_map_err g m).
Proof. intros Hm s Hs. specialize (Hm s Hs). unfold eff_map_err. by destruct (m s). Qed.

Lemma frozen_for_each {A} (l : list A) (m : A -> op unit) : (forall x, frozen (m x)) -> frozen (for_each l m).
Proof. intros Hm. induction l as [|x l IH]; cbn [for_each]; [apply frozen_ret|by apply frozen_bind]. Qed.

(** Behind the fence nothing happens. *)
Lemma frozen_fence {A} (k : unit -> op A) : frozen (ensure_writeback_available ≫= k).
Proof. intros s Hs. unfold mbind, eff_bind, ensure_writeback_available. by rewrite Hs. Qed.

Lemma refused_fence {A} (k : unit -> op A) : refused (ensure_writeback_available ≫= k).
Proof. intros s a Hs. unfold mbind, eff_bind, ensure_writeback_available. by rewrite Hs. Qed.

Lemma refused_bind {A B} (m : op A) (k : A -> op B) : refused m -> refused (m ≫= k).
Proof.
  intros Hm s b Hs. specialize (Hm s). unfold mbind, eff_bind. destruct (m s) as [s' [a| |]]; [|done|done]. by destruct (Hm a Hs).
Qed.

Lemma refused_later {A B} (m : op A) (k : A -> op B) : frozen m -> (forall a, refused (k a)) -> refused (m ≫= k).
Proof.
  intros Hm Hk s b Hs. destruct (Hm s Hs) as [Hf _]. unfold mbind, eff_bind. destruct (m s) as [s' [a| |]]; [|done|done].
  by apply Hk.
Qed.

Lemma refused_on_err {A} (h : op unit) (m : op A) : refused m -> refused (on_err h m).
Proof.
  intros Hm s a Hs. specialize (Hm s). unfold on_err. destruct (m s) as [s' [b|e|]]; [by apply Hm| |done].
  destruct (h s') as [s'' [| |]]; done.
Qed.

Lemma frozen_unsuccessful {A B} (m : op A) (k : A -> op B) : frozen m -> refused m -> frozen (m ≫= k).
Proof.
  intros Hm Hr s Hs. destruct (Hm s Hs) as [Hf Hb]. specialize (Hr s). unfold mbind, eff_bind.
  destruct (m s) as [s' [a| |]]; [by destruct (Hr a Hs)|done|done].
Qed.

(** Peels an operation into steps that are frozen each. *)
Ltac freeze :=
  repeat lazymatch goal with
  | |- frozen (ensure_writeback_available ≫= _) => apply frozen_fence
  | |- frozen (_ ≫= _) => apply frozen_bind; [|intros ?]
  | |- frozen (mret _) => apply frozen_ret
  | |- frozen (on_cache _) => apply frozen_cache
  | |- frozen (on_wal _) => apply frozen_wal
  | |- frozen (on_err _ _) => apply frozen_on_err
  | |- frozen (for_each _ _) => apply frozen_for_each; intros ?
  | |- frozen (on_file (PagerIo.read_page _ _ _)) => apply frozen_look, looks_read_page
  | |- frozen (on_file PagerIo.read_superblock_zone) => apply frozen_look, looks_superblocks
  | |- frozen (modify _) => apply frozen_modify; [done|done]
  | |- frozen (gets _) => apply frozen_pure
  | |- frozen (lift _) => apply frozen_pure
  | |- frozen (fail _) => apply frozen_pure
  | |- frozen ensure_writable => apply frozen_pure
  | |- frozen (fun s => (s, _)) => apply frozen_pure
  | |- frozen fence_interrupted_ownership => unfold fence_interrupted_ownership
  | |- frozen (record_ownership _) => unfold record_ownership
  | |- frozen (if _ then _ else _) => case_match
  | |- frozen (match _ with _ => _ end) => case_match
  end.

Lemma frozen_batch pages : frozen (write_dirty_page_batch crc32 pages).
Proof.
  unfold write_dirty_page_batch. destruct (bool_decide _); [freeze|]. apply frozen_on_err; [freeze|]. apply frozen_bind; [freeze|intros _].
  unfold write_pages_through_dwb. freeze.
Qed.

Lemma frozen_write_back evicted pending : frozen (write_back crc32 iter evicted pending).
Proof.
  unfold write_back. destruct evicted as [page|]; [|freeze]. unfold write_evicted_dirty_page. freeze. apply frozen_batch.
Qed.

Lemma frozen_load id load : frozen load -> frozen (load_page crc32 iter id load).
Proof. intros Hl. unfold load_page. freeze; [exact Hl|apply frozen_write_back]. Qed.

Lemma frozen_read id : frozen (read_page crc32 iter id).
Proof. unfold read_page. freeze. apply frozen_load. unfold read_page_raw. freeze. Qed.

Lemma frozen_read_raw id : frozen (read_page_no_checksum crc32 iter id).
Proof. unfold read_page_no_checksum. freeze. apply frozen_load. freeze. Qed.

Lemma frozen_visit trunk_id visited count : frozen (visit_trunk crc32 iter trunk_id visited count).
Proof. unfold visit_trunk. freeze. apply frozen_read. Qed.

Lemma frozen_remove fuel trunk_id visited requested remaining count :
  frozen (remove_in_trunks crc32 iter fuel trunk_id visited requested remaining count).
Proof.
  revert trunk_id visited remaining. induction fuel as [|fuel IH]; intros; cbn [remove_in_trunks]; freeze; [apply frozen_pure|apply frozen_visit|apply IH].
Qed.

Lemma frozen_validate pages : frozen (validate_owned_pages crc32 iter pages).
Proof. unfold validate_owned_pages, pages_not_in_freelist. freeze. apply frozen_remove. Qed.

(** *** Publishing the header *)

Lemma frozen_commit mutate : frozen (commit_superblock crc32 mutate).
Proof. unfold commit_superblock, newest_superblock, read_superblock_zone, write_superblock_slot. freeze. Qed.

Lemma refused_commit mutate : refused (commit_superblock crc32 mutate).
Proof.
  unfold commit_superblock. apply refused_later; [freeze|intros _]. apply refused_later; [unfold newest_superblock, read_superblock_zone; freeze|].
  intros [sel image]. apply refused_later; [freeze|intros image']. apply refused_fence.
Qed.

Lemma frozen_header : frozen (write_header crc32).
Proof. unfold write_header. freeze. apply frozen_commit. Qed.

Lemma refused_header : refused (write_header crc32).
Proof.
  unfold write_header. apply refused_later; [freeze|intros _]. apply refused_later; [freeze|intros h]. apply refused_bind, refused_commit.
Qed.

Lemma frozen_header_sync : frozen (write_header_and_sync crc32).
Proof. apply frozen_unsuccessful; [apply frozen_header|apply refused_header]. Qed.

Lemma refused_header_sync : refused (write_header_and_sync crc32).
Proof. apply refused_bind, refused_header. Qed.

Lemma frozen_change f : frozen (change_header (W := W) f).
Proof. unfold change_header. freeze. Qed.

Lemma frozen_sync : frozen (sync crc32 iter).
Proof. apply frozen_unsuccessful; [apply frozen_fence|apply refused_fence]. Qed.

Lemma refused_sync : refused (sync crc32 iter).
Proof. apply refused_bind, refused_fence. Qed.

(** ** The commands of the pager *)

Inductive command : Type :=
| CRead (id : Z) | CReadNoChecksum (id : Z) | CValidateOwned (pages : list Z)
| CWrite (id : Z) (page : bytes) | CWriteNoChecksum (id : Z) (page : bytes)
| CAllocate (t : PageType) | CReserve (n : Z) | CFree (id : Z)
| CRetire (pages : list Z) | CFreeRetired (pages : list Z) | CRecoverUnowned (pages : list Z)
| CCompleteDeferred (retained released : list Z)
| CFlush | CSync | CFlushSome (max : nat) | CSyncRecovered
| CUpdatePhysical (x : PhysicalFileHeader) | CWriteHeader | CWriteHeaderAndSync
| CCheckpoint (in_progress : bool) (target_lsn : Z) | CCompleteCheckpoint (lsn : Z) | CFenceVersion (v : Z).

Definition execute (c : command) : op unit :=
  match c with
  | CRead id => _ ← read_page crc32 iter id; mret tt
  | CReadNoChecksum id => _ ← read_page_no_checksum crc32 iter id; mret tt
  | CValidateOwned pages => validate_owned_pages crc32 iter pages
  | CWrite id page => write_page crc32 iter id page
  | CWriteNoChecksum id page => write_page_no_checksum crc32 iter id page
  | CAllocate t => _ ← allocate_page crc32 iter t; mret tt
  | CReserve n => _ ← reserve_contig_extent crc32 iter n; mret tt
  | CFree id => free_page id
  | CRetire pages => record_retirement_intent pages
  | CFreeRetired pages => free_retired_pages crc32 iter pages
  | CRecoverUnowned pages => recover_unowned_pages crc32 iter pages
  | CCompleteDeferred retained released => complete_deferred_publication crc32 iter retained released
  | CFlush => flush crc32 iter
  | CSync => sync crc32 iter
  | CFlushSome max => _ ← flush_some_dirty crc32 iter max; mret tt
  | CSyncRecovered => sync_recovered_allocator crc32 iter
  | CUpdatePhysical x => update_physical_header x
  | CWriteHeader => write_header crc32
  | CWriteHeaderAndSync => write_header_and_sync crc32
  | CCheckpoint b lsn => set_checkpoint_in_progress crc32 b lsn
  | CCompleteCheckpoint lsn => complete_checkpoint crc32 lsn
  | CFenceVersion v => fence_file_format_version crc32 v
  end.

(** The commands whose success promises a change *)
Definition promises (c : command) : bool :=
  match c with CRead _ | CReadNoChecksum _ | CValidateOwned _ | CCompleteDeferred _ _ => false | _ => true end.

Lemma command_frozen c : frozen (execute c).
Proof.
  destruct c; cbn [execute].
  all: try solve [apply frozen_fence].
  all: try solve [apply frozen_bind; [apply frozen_fence|intros _; apply frozen_ret]].
  - apply frozen_bind; [apply frozen_read|intros _; freeze].
  - apply frozen_bind; [apply frozen_read_raw|intros _; freeze].
  - apply frozen_validate.
  - unfold complete_deferred_publication. freeze. apply frozen_fence.
  - apply frozen_sync.
  - unfold sync_recovered_allocator. apply frozen_on_err; [freeze|]. apply frozen_unsuccessful; [apply frozen_sync|apply refused_sync].
  - apply frozen_header.
  - apply frozen_header_sync.
  - apply frozen_bind; [apply frozen_change|intros _; apply frozen_header_sync].
  - apply frozen_bind; [apply frozen_change|intros _; apply frozen_header_sync].
Qed.

Lemma command_refused c : promises c = true -> refused (execute c).
Proof.
  destruct c; intros Hp; try discriminate Hp; cbn [execute].
  all: try solve [apply refused_fence].
  all: try solve [apply refused_bind, refused_fence].
  - apply refused_on_err, refused_bind, refused_sync.
  - apply refused_header.
  - apply refused_header_sync.
  - apply refused_later; [apply frozen_change|intros _; apply refused_header_sync].
  - apply refused_later; [apply frozen_change|intros _; apply refused_header_sync].
Qed.

(** ** Failing batches *)

(** A failing batch has not touched the cache. *)
Lemma batch_cache pages s :
  cache ((_ ← (if 0 <? max_lsn pages then on_wal (flush_until (max_lsn pages)) else mret tt);
          write_pages_through_dwb crc32 pages) s).1 = cache s.
Proof.
  assert (Hd : forall t : Pager W, cache (write_pages_through_dwb crc32 pages t).1 = cache t).
  { intros t. unfold write_pages_through_dwb, mbind, eff_bind, ensure_writable, ensure_writeback_available, gets, on_err, on_file, within.
    destruct (read_only _); [done|]. destruct (writeback_failed t); [done|]. by destruct (PagerIo.write_pages _ _ _ _) as [f' [[]| |]]. }
  unfold mbind, eff_bind. destruct (0 <? max_lsn pages); [|apply Hd]. unfold on_wal, within.
  destruct (flush_until (max_lsn pages) (wal s)) as [w' [[]| |]]; cbn [map_err]; [|done|done]. by rewrite Hd.
Qed.

Lemma mark_all_ok (pages : list (Z * bytes)) s :
  cache_wf (cache s) ->
  exists c', for_each pages (fun pg => on_cache (cache_mark_dirty pg.1)) s = (set_cache c' s, Ok tt) /\ cache_wf c' /\
    forall id, cached c' !! id = (fun e => if decide (id ∈ pages.*1) then set_dirty true e else e) <$> cached (cache s) !! id.
Proof.
  revert s. induction pages as [|pg pages IH]; intros s Hw; cbn [for_each fmap list_fmap].
  { exists (cache s). split_and!; [by destruct s|done|]. intros id. destruct (cached _ !! id); [|done]. cbn. by rewrite decide_False by apply not_elem_of_nil. }
  destruct (cache_mark_dirty_ok (cache s) pg.1 Hw) as (c1 & E & Hw1 & C1).
  destruct (IH (set_cache c1 s) Hw1) as (c2 & E2 & Hw2 & C2). exists c2. split_and!; [|done|].
  - rewrite (eff_bind_ok _ _ s (set_cache c1 s) tt); [exact E2|]. unfold on_cache. by apply within_ok.
  - intros id. rewrite C2. cbn [cache set_cache]. rewrite C1. destruct (decide (id = pg.1)) as [->|Hne].
    + rewrite lookup_alter_eq. destruct (cached (cache s) !! pg.1) as [e|]; [|done]. cbn. f_equal. repeat case_decide; try done; exfalso; set_solver.
    + rewrite lookup_alter_ne by done. destruct (cached (cache s) !! id) as [e|]; [|done]. cbn. f_equal. repeat case_decide; try done; exfalso; set_solver.
Qed.

(** ** The theorems *)

(** C20. A fenced pager writes nothing more: whatever command is run after a failed write-back, the
    fence stays and no byte of the file changes, and a command that promises a change does not
    succeed.  Reads go on, also when they evict dirty pages. *)
Theorem fenced_pager_frozen c s s' r :
  execute c s = (s', r) -> writeback_failed s = true ->
  writeback_failed s' = true /\ same_bytes (file s) (file s') /\ (promises c = true -> r <> Ok tt).
Proof.
  intros E Hs. pose proof (command_frozen c s Hs) as [H1 H2]. rewrite E in H1, H2. split_and!; [done|done|].
  intros Hp. pose proof (command_refused c Hp s tt Hs) as Hr. by rewrite E in Hr.
Qed.

(** C21. A batch that fails sets the fence and loses no page: every page of it that is in the cache is
    there with the same bytes and dirty again, and no other page of the cache has changed. *)
Theorem failed_batch_fences pages s s' e :
  cache_wf (cache s) -> write_dirty_page_batch crc32 pages s = (s', Err e) ->
  writeback_failed s' = true /\ cache_wf (cache s') /\
  forall id, cached (cache s') !! id = (fun x => if decide (id ∈ pages.*1) then set_dirty true x else x) <$> cached (cache s) !! id.
Proof.
  intros Hw. unfold write_dirty_page_batch. destruct (bool_decide _); [done|]. unfold on_err. pose proof (batch_cache pages s) as Hc.
  match type of Hc with cache (?body s).1 = _ => destruct (body s) as [s1 [a|e1|]] end; [done| |done]. cbn [fst] in Hc.
  rewrite (eff_bind_ok _ _ s1 (set_writeback_failed true s1) tt) by done.
  destruct (mark_all_ok pages (set_writeback_failed true s1)) as (c' & -> & Hw' & Hm); [cbn; by rewrite Hc|].
  intros [= <- _]. split_and!; [done|done|]. cbn [cache set_cache]. cbn [cache set_writeback_failed] in Hm. by rewrite <-Hc.
Qed.

(** The log is durable up to [horizon]. *)
Context (horizon : W -> Z) (flush_reaches : forall n w w', flush_until n w = (w', Ok tt) -> n <= horizon w').

Lemma max_lsn_bound pages pg h : pg ∈ pages -> header pg.2 = Ok h -> h_lsn h <= max_lsn pages.
Proof.
  intros Hp Hh. unfold max_lsn. induction pages as [|pg' pages IH]; [by apply elem_of_nil in Hp|]. cbn.
  apply elem_of_cons in Hp as [<-|Hp].
  - rewrite Hh. cbn. lia.
  - specialize (IH Hp). destruct (h_lsn <$> result_ok (header pg'.2)); cbn; lia.
Qed.

Lemma wal_write_pages pages s : wal (write_pages_through_dwb crc32 pages s).1 = wal s.
Proof.
  unfold write_pages_through_dwb, mbind, eff_bind, ensure_writable, ensure_writeback_available, gets, on_err, on_file, within.
  destruct (read_only _); [done|]. destruct (writeback_failed s); [done|]. by destruct (PagerIo.write_pages _ _ _ _) as [f' [[]| |]].
Qed.

Lemma mark_rest (pages : list (Z * bytes)) s :
  let s' := (for_each pages (fun pg => on_cache (cache_mark_dirty pg.1)) s).1 in wal s' = wal s /\ file s' = file s.
Proof.
  revert s. induction pages as [|pg pages IH]; intros s; [done|]. cbn [for_each]. unfold mbind, eff_bind, on_cache, within.
  destruct (cache_mark_dirty pg.1 (cache s)) as [c' [[]| |]]; cbn [map_err]; [|done|done]. exact (IH (set_cache c' s)).
Qed.

(** C19. The log goes before the data: when a batch has put a byte into the file, the log is durable up
    to the LSN of every page of the batch. *)
Theorem log_before_data pages s s' r pg h :
  write_dirty_page_batch crc32 pages s = (s', r) -> ~ same_bytes (file s) (file s') ->
  pg ∈ pages -> header pg.2 = Ok h -> h_lsn h <= Z.max 0 (horizon (wal s')).
Proof.
  intros E Hb Hp Hh. pose proof (max_lsn_bound pages pg h Hp Hh) as Hl. cut (max_lsn pages <= Z.max 0 (horizon (wal s'))); [lia|].
  revert E Hb. unfold write_dirty_page_batch. destruct (bool_decide _); [intros [= <- _] Hb; by destruct Hb|].
  destruct (Z.ltb_spec 0 (max_lsn pages)); [|lia].
  unfold on_err. set (handler := fence_interrupted_ownership ≫= _).
  assert (Hrest : forall t : Pager W, wal (handler t).1 = wal t /\ file (handler t).1 = file t) by (intros t; exact (mark_rest pages (set_writeback_failed true t))).
  clearbody handler. destruct (flush_until (max_lsn pages) (wal s)) as [w1 r1] eqn:Ef. set (body := _ ≫= _).
  assert (Eb : body s = match r1 with Ok _ => write_pages_through_dwb crc32 pages (set_wal w1 s) | Err e => (set_wal w1 s, Err (PagerIo e)) | Panic => (set_wal w1 s, Panic) end).
  { unfold body, mbind, eff_bind, on_wal, within. rewrite Ef. by destruct r1. }
  clearbody body. destruct r1 as [[]|e1|]; rewrite Eb; clear Eb.
  - apply flush_reaches in Ef. pose proof (wal_write_pages pages (set_wal w1 s)) as Hw.
    destruct (write_pages_through_dwb crc32 pages (set_wal w1 s)) as [s2 [a|e2|]]; cbn [fst] in Hw.
    + intros [= <- _] _. rewrite Hw. cbn. lia.
    + destruct (Hrest s2) as [Hw2 _]. destruct (handler s2) as [s3 r3]. intros [= <- _] _. cbn in Hw2. rewrite Hw2, Hw. cbn. lia.
    + intros [= <- _] _. rewrite Hw. cbn. lia.
  - destruct (Hrest (set_wal w1 s)) as [_ Hf]. destruct (handler (set_wal w1 s)) as [s3 r3]. intros [= <- _] Hb. destruct Hb. cbn in Hf. by rewrite Hf.
  - intros [= <- _] Hb. by destruct Hb.
Qed.
End fence.

(** ** Instances of the theorems *)

Module SampleFence.
Definition cfg : PagerConfig := {| disk_residency := true; cache_size := 16; read_only := false; verify_checksums := true; double_write := false |}.
Definition page : bytes := set_lsn (Page_new BTreeLeaf 67) 5.

(** A log whose state is the LSN it is durable up to *)
#[local] Instance counter : WalBarrier Z := {
  flush_until n := fun w => (Z.max n w, Ok tt);
  needs_page_image _ := mret false;
  capture_page_image _ := mret tt;
  reserve_pages _ _ := mret tt;
  detach_free_pages _ := mret tt;
  has_page_ownership_journal := mret false;
  retire_pages _ := mret tt;
}.

Lemma counter_reaches n w w' : flush_until n w = (w', Ok tt) -> n <= w'.
Proof. cbn. intros [= <-]. lia. Qed.

(** The cache holds the page, dirty, and the file fails. *)
Definition failing : Pager Z :=
  set_cache (cache_insert_dirty 67 page (PageCache_new 16)).1 (Pager_new (reopen [] (Some (0%nat, 0%nat))) "data.rdb" cfg 0).

Lemma failing_cache : cache_wf (cache failing) /\ cached (cache failing) !! 67 = Some (CacheEntry_new 67 page true).
Proof.
  destruct (cache_new_wf 16) as [Hw Hc]. destruct (cache_insert_inner_ok (PageCache_new 16) 67 page true true Hw) as (c' & out & E & Hw' & Hn).
  assert (E' : cache failing = c') by exact (f_equal fst E). rewrite E'. split; [done|]. rewrite Hc, lookup_empty in Hn. destruct Hn as (v & -> & _).
  apply lookup_insert_eq.
Qed.

Lemma failing_batch : exists s' e, write_dirty_page_batch byte_sum [(67, page)] failing = (s', Err e).
Proof. do 2 eexists. vm_compute. reflexivity. Qed.

Definition fenced : Pager Z := set_writeback_failed true failing.
Definition working : Pager Z := Pager_new (reopen [] None) "data.rdb" cfg 0.

Lemma working_batch : length (unsynced (file (write_dirty_page_batch byte_sum [(67, page)] working).1)) = 1%nat.
Proof. vm_compute. reflexivity. Qed.
End SampleFence.

#[local] Existing Instance SampleFence.counter.

Lemma fenced_pager_frozen_witness :
  exists s' r, execute byte_sum map_to_list (CWrite 67 SampleFence.page) SampleFence.fenced = (s', r) /\ r <> Ok tt /\
    same_bytes (file SampleFence.fenced) (file s').
Proof.
  destruct (execute byte_sum map_to_list (CWrite 67 SampleFence.page) SampleFence.fenced) as [s' r] eqn:E.
  destruct (fenced_pager_frozen byte_sum map_to_list _ _ _ _ E eq_refl) as (_ & Hb & Hr). exists s', r.
  exact (conj eq_refl (conj (Hr eq_refl) Hb)).
Defined.

Lemma failed_batch_fences_witness :
  exists s' e, write_dirty_page_batch byte_sum [(67, SampleFence.page)] SampleFence.failing = (s', Err e) /\ writeback_failed s' = true /\
    (PageCache.dirty <$> cached (cache s') !! 67) = Some true.
Proof.
  destruct SampleFence.failing_batch as (s' & e & E). destruct SampleFence.failing_cache as [Hw Hc].
  destruct (failed_batch_fences byte_sum [(67, SampleFence.page)] SampleFence.failing s' e Hw E) as (Hf & _ & Hd).
  exists s', e. split; [exact E|]. split; [exact Hf|]. rewrite Hd, Hc. cbn [fmap option_fmap option_map]. by rewrite decide_True by left.
Defined.

Lemma log_before_data_witness :
  exists s' r, write_dirty_page_batch byte_sum [(67, SampleFence.page)] SampleFence.working = (s', r) /\ 5 <= Z.max 0 (wal s').
Proof.
  destruct (write_dirty_page_batch byte_sum [(67, SampleFence.page)] SampleFence.working) as [s' r] eqn:E. exists s', r. split; [reflexivity|].
  destruct (header SampleFence.page) as [h| |] eqn:Eh; [|by vm_compute in Eh..].
  assert (El : h_lsn h = 5) by (vm_compute in Eh; by injection Eh as <-). rewrite <-El.
  apply (log_before_data byte_sum (fun w => w) SampleFence.counter_reaches [(67, SampleFence.page)] SampleFence.working s' r (67, SampleFence.page) h E).
  - intros [_ Hu]. pose proof SampleFence.working_batch as Hn. rewrite E in Hn. cbn [fst] in Hn. rewrite Hu in Hn. discriminate Hn.
  - by left.
  - exact Eh.
Defined.
