(* ===== verification/Coherence.v ===== *)
(** * The pager keeps its pages

    What the cache, the double-write zone and the file of a pager hold together: the page
    under a number is the cached one, or the one in the file.  Every operation of the pager
    that returns without error leaves all other pages as they are, whatever it evicts and
    writes back on the way; without I/O errors none fails.  The pager is then shown to keep
    the contract of [PageStoreLaws]. *)

From S2P Require Import Prelude Vfs FileFormat Page PagerIo PageCache FreeList PageStore Pager Fence.
From Stdlib Require Import ZArith Lia ClassicalEpsilon.
#[local] Open Scope Z_scope.

(** ** The file *)

(** The page at [id] of a file *)
Definition page_at (b : bytes) (id : Z) : option bytes :=
  if (id + 1) * PAGE_SIZE <=? zlen b then Some (slice b (id * PAGE_SIZE) PAGE_SIZE) else None.

(** Pages with a home of their own: neither the superblocks nor the double-write zone *)
Definition home (id : Z) : Prop := u32_ok id /\ id <> 0 /\ ~ (DWB_ZONE_START_PAGE <= id < FIRST_ALLOCATABLE_PAGE).

(** A page image that may be written to [id] *)
Definition fits (id : Z) (page : bytes) : Prop := zlen page = PAGE_SIZE /\ page_id page = id.
#[global] Instance fits_dec id page : Decision (fits id page).
Proof. unfold fits. apply _. Defined.

Definition fitting (id : Z) (o : option bytes) : option bytes := p ← o; if decide (fits id p) then Some p else None.

(** Whole pages, the zone among them *)
Definition paged (b : bytes) : Prop := zone_end <= zlen b /\ (PAGE_SIZE | zlen b).

(** When [m] succeeds it has made the writes [ws]. *)
Definition puts {A} (m : eff File PagerIoError A) (ws : list (Z * bytes)) : Prop :=
  forall f a, (m f).2 = Ok a -> live (m f).1 = apply_writes ws (live f).

Lemma apply_writes_app ws ws' b : apply_writes (ws ++ ws') b = apply_writes ws' (apply_writes ws b).
Proof. unfold apply_writes. by rewrite foldl_app. Qed.

Lemma puts_bind {A B} (m : eff File PagerIoError A) (k : A -> eff File PagerIoError B) ws ws' :
  puts m ws -> (forall a, puts (k a) ws') -> puts (m ≫= k) (ws ++ ws').
Proof.
  intros Hm Hk f b. unfold mbind, eff_bind. pose proof (Hm f) as Hf. destruct (m f) as [f' [a| |]]; cbn [fst snd] in *; [|done..].
  intros E. rewrite (Hk a f' b E), (Hf a eq_refl). by rewrite apply_writes_app.
Qed.

Lemma live_add_write data f : live (add_write data f) = write_at (live f) (cursor f) data.
Proof. unfold live, add_write. cbn [stable unsynced]. by rewrite foldl_snoc. Qed.

Lemma puts_write_page id page : puts (PagerIo.write_page id page) [home_write (id, page)].
Proof.
  intros f a. unfold PagerIo.write_page, mbind, eff_bind, io, eff_map_err, seek, write_all, attempt.
  destruct (faults f) as [[[|[|n]] k]|] eqn:E; cbn -[live]; rewrite ?E; cbn -[live]; try done; intros _; by rewrite live_add_write.
Qed.

Lemma puts_sync : puts (io sync_all) [].
Proof.
  intros f a. unfold io, eff_map_err, sync_all, attempt. destruct (faults f) as [[[|n] k]|]; cbn -[live]; done.
Qed.

Lemma puts_seek pos : puts (io (seek pos)) [].
Proof. intros f a. unfold io, eff_map_err, seek, attempt. destruct (faults f) as [[[|n] k]|]; cbn -[live]; done. Qed.

Lemma puts_for_each {A} (l : list A) (m : A -> eff File PagerIoError unit) (ws : A -> list (Z * bytes)) :
  (forall x, x ∈ l -> puts (m x) (ws x)) -> puts (for_each l m) (concat (ws <$> l)).
Proof.
  induction l as [|x l IH]; intros Hm; [by intros f a|]. cbn [for_each fmap list_fmap concat].
  apply puts_bind; [apply Hm; left|intros _; apply IH; intros y Hy; apply Hm; by right].
Qed.

Section file.
Context (crc32 : bytes -> Z).

Lemma concat_singletons {A B} (w : A -> B) (l : list A) : concat ((fun x => [w x]) <$> l) = map w l.
Proof. induction l; [done|]. cbn. by f_equal. Qed.

Lemma puts_homes pages : puts (for_each pages (fun pg => PagerIo.write_page pg.1 pg.2)) (map home_write pages).
Proof. rewrite <-concat_singletons. apply puts_for_each. intros [id page] _. apply puts_write_page. Qed.

Lemma puts_clear : puts (PagerIo.clear_dwb_zone crc32) (clear_writes crc32).
Proof.
  unfold PagerIo.clear_dwb_zone. rewrite <-(app_nil_r (clear_writes crc32)). apply puts_bind; [|intros _; apply puts_sync].
  unfold clear_writes. rewrite <-concat_singletons. apply puts_for_each. intros id _. apply puts_write_page.
Qed.

Lemma puts_write {A} off data (k : eff File PagerIoError A) ws :
  puts k ws -> puts (_ ← io (seek off); _ ← io (write_all data); k) ((off, data) :: ws).
Proof.
  intros Hk f a. unfold mbind, eff_bind, io, eff_map_err, seek, write_all, attempt.
  destruct (faults f) as [[[|[|n]] j]|] eqn:E; cbn -[live]; rewrite ?E; cbn -[live]; try done;
    intros Ea; rewrite (Hk _ a Ea), live_add_write; done.
Qed.

Lemma puts_frame chunk : puts (write_frame crc32 chunk) (frame_write crc32 chunk :: map home_write chunk).
Proof.
  unfold write_frame. intros f a. unfold mbind at 1, eff_bind at 1, lift. destruct (assert_or_panic _) as [[]| |]; [|done..].
  revert f a. apply puts_write. apply (puts_bind _ _ [] (map home_write chunk)); [apply puts_sync|intros _].
  rewrite <-(app_nil_r (map home_write chunk)). apply puts_bind; [apply puts_homes|intros _; apply puts_sync].
Qed.

(** The writes of a batch *)
Definition batch_writes (pages : list (Z * bytes)) (double_write : bool) : list (Z * bytes) :=
  if double_write
  then concat ((fun chunk => frame_write crc32 chunk :: map home_write chunk) <$> frames_of pages) ++
       (if bool_decide (pages = []) then [] else clear_writes crc32)
  else map home_write pages.

Lemma puts_write_pages pages dw : puts (PagerIo.write_pages crc32 pages dw) (batch_writes pages dw).
Proof.
  unfold PagerIo.write_pages, batch_writes. destruct dw; cbn [negb]; [|apply puts_homes].
  apply puts_bind; [apply puts_for_each; intros chunk _; apply puts_frame|intros _].
  destruct (bool_decide _); [by intros f a|apply puts_clear].
Qed.

(** Outside the zone the file has the pages of the batch. *)
Lemma frames_homes chunks b :
  Forall chunk_ok chunks ->
  same_homes (apply_writes (concat ((fun chunk => frame_write crc32 chunk :: map home_write chunk) <$> chunks)) b)
    (put_pages (concat chunks) b).
Proof.
  intros Hc. revert b. induction Hc as [|chunk chunks Hc Hcs IH]; intros b; [done|]. cbn [fmap list_fmap concat].
  rewrite put_pages_app, apply_writes_app. change (frame_write crc32 chunk :: map home_write chunk) with ([frame_write crc32 chunk] ++ map home_write chunk).
  rewrite apply_writes_app. fold (put_pages chunk (apply_writes [frame_write crc32 chunk] b)). etrans; [apply IH|].
  assert (Hall : Forall page_outside (concat chunks)) by (apply Forall_concat; eapply Forall_impl; [exact Hcs|by intros ? [? _]]).
  apply put_pages_homes; [done|]. apply put_pages_homes; [by destruct Hc|]. apply same_homes_zone_writes. by apply frame_write_in_zone.
Qed.

Lemma batch_homes pages dw b : Forall page_outside pages -> same_homes (apply_writes (batch_writes pages dw) b) (put_pages pages b).
Proof.
  intros Hp. unfold batch_writes. destruct dw; [|done]. rewrite apply_writes_app. etrans.
  - destruct (bool_decide _); [done|]. apply same_homes_zone_writes, clear_writes_in_zone.
  - rewrite <-(concat_frames_of pages) at 2. apply frames_homes. by apply frames_of_ok.
Qed.

(** Writes of whole pages or into the zone *)
Definition tidy (w : Z * bytes) : Prop := in_zone_write w \/ exists pg, page_outside pg /\ w = home_write pg.

Lemma paged_writes ws b : Forall tidy ws -> paged b -> paged (apply_writes ws b) /\ zlen b <= zlen (apply_writes ws b).
Proof.
  intros Hw Hb. induction ws as [|w ws IH] using rev_ind; [by split|]. apply Forall_app in Hw as [Hws [Hw _]%Forall_cons].
  destruct (IH Hws) as [[Hl Hd] Hm]. rewrite apply_writes_snoc. set (b' := apply_writes ws b) in *. clearbody b'. clear IH.
  assert (Hz : 0 <= w.1 /\ (zlen (write_at b' w.1 w.2) = zlen b' \/ exists k, zlen (write_at b' w.1 w.2) = k * PAGE_SIZE /\ zlen b' <= k * PAGE_SIZE)).
  { destruct Hw as [[H1 H2]|(pg & [[Hu Hp] _] & ->)].
    - change dwb_zone_offset with 49152 in H1. split; [lia|]. left. rewrite zlen_write_at by lia. destruct (_ =? 0); lia.
    - cbn [home_write fst snd]. destruct Hu. change PAGED_PAGE_SIZE with 16384 in Hp. change PAGE_SIZE with 16384. split; [lia|].
      rewrite zlen_write_at, Hp by lia. change (16384 =? 0) with false. cbn iota.
      destruct (Z.max_spec (zlen b') (pg.1 * 16384 + 16384)) as [[? ->]|[? ->]]; [right; exists (pg.1 + 1); lia|by left]. }
  unfold paged. destruct Hz as [_ [->|(k & -> & Hk)]]; [done|]. split; [|lia]. split; [lia|]. by exists k.
Qed.

Lemma batch_tidy pages dw : Forall page_outside pages -> Forall tidy (batch_writes pages dw).
Proof.
  intros Hp. assert (Hh : forall ps, Forall page_outside ps -> Forall tidy (map home_write ps)).
  { intros ps H. apply Forall_fmap. eapply Forall_impl; [exact H|]. intros pg Hpg. right. by exists pg. }
  assert (Hz : forall ws, Forall in_zone_write ws -> Forall tidy ws) by (intros ws H; eapply Forall_impl; [exact H|by left]).
  unfold batch_writes. destruct dw; [|by apply Hh]. apply Forall_app. split.
  - apply Forall_concat, Forall_fmap. eapply Forall_impl; [exact (frames_of_ok pages Hp)|]. intros chunk Hc. cbn.
    change (Forall tidy ([frame_write crc32 chunk] ++ map home_write chunk)). apply Forall_app. split; [by apply Hz, frame_write_in_zone|]. apply Hh, Hc.
  - destruct (bool_decide _); [constructor|]. apply Hz, clear_writes_in_zone.
Qed.

End file.

(** ** The pages a batch leaves *)

Definition in_page (id i : Z) : Prop := id * PAGE_SIZE <= i < (id + 1) * PAGE_SIZE.

Lemma home_write_byte pg i : zlen pg.2 = PAGE_SIZE -> ~ in_page pg.1 i -> zget (home_write pg).2 (i - (home_write pg).1) = None.
Proof. intros Hl Hi. unfold in_page in Hi. apply zget_None. cbn [home_write fst snd]. rewrite Hl. lia. Qed.

Lemma last_byte_home pages id page i :
  Forall (fun pg => zlen pg.2 = PAGE_SIZE) pages -> NoDup pages.*1 -> in_page id i -> (id, page) ∈ pages ->
  last_byte (map home_write pages) i = zget page (i - id * PAGE_SIZE).
Proof.
  intros Hl Hn Hi. induction pages as [|pg pages IH] using rev_ind; [by intros ?%elem_of_nil|].
  apply Forall_app in Hl as [Hls [Hl _]%Forall_cons]. rewrite fmap_app in Hn. apply NoDup_app in Hn as (Hn & Hd & _).
  rewrite map_app. cbn [map]. rewrite last_byte_snoc. intros [Hp|Hp%list_elem_of_singleton]%elem_of_app.
  - rewrite home_write_byte; [by apply IH|done|]. intros Hi'. apply (Hd id); [by apply (list_elem_of_fmap_2' fst _ (id, page))|].
    apply list_elem_of_singleton. unfold in_page in *. change PAGE_SIZE with 16384 in *. lia.
  - subst pg. cbn [home_write fst snd]. destruct (zget page (i - id * PAGE_SIZE)) eqn:E; [done|].
    assert (is_Some (zget page (i - id * PAGE_SIZE))) as [x Ex]; [|congruence]. apply zget_is_Some. cbn in Hl. unfold in_page in Hi. lia.
Qed.

Lemma last_byte_absent pages id i :
  Forall (fun pg => zlen pg.2 = PAGE_SIZE) pages -> in_page id i -> id ∉ pages.*1 -> last_byte (map home_write pages) i = None.
Proof.
  intros Hl Hi Hd. apply last_byte_None, Forall_fmap, Forall_forall. intros pg Hpg. rewrite Forall_forall in Hl.
  apply home_write_byte; [by apply Hl|]. intros Hi'. apply Hd. replace id with pg.1; [by apply list_elem_of_fmap_2|].
  unfold in_page in *. change PAGE_SIZE with 16384 in *. lia.
Qed.

Lemma slice_bytes b off (data : bytes) :
  0 <= off -> off + zlen data <= zlen b -> (forall i, off <= i < off + zlen data -> file_byte b i = file_byte data (i - off)) ->
  slice b off (zlen data) = data.
Proof.
  intros Ho Hl Hb. apply list_eq. intros j. rewrite lookup_slice by (apply zlen_nonneg || done). case_decide as Hj.
  - pose proof (Hb (off + Z.of_nat j) ltac:(lia)) as E. unfold file_byte, zget in E.
    destruct (Z.ltb_spec (off + Z.of_nat j) 0); [lia|]. destruct (Z.ltb_spec (off + Z.of_nat j - off) 0); [lia|].
    replace (Z.to_nat (off + Z.of_nat j)) with (Z.to_nat off + j)%nat in E by lia.
    replace (Z.to_nat (off + Z.of_nat j - off)) with j in E by lia. unfold zlen in *.
    destruct (lookup_lt_is_Some_2 b (Z.to_nat off + j)) as [x Ex]; [lia|].
    destruct (lookup_lt_is_Some_2 data j) as [y Ey]; [lia|]. rewrite Ex, Ey in *. cbn in E. congruence.
  - symmetry. apply lookup_ge_None. unfold zlen in Hj. lia.
Qed.

Lemma home_outside id i : home id -> in_page id i -> 0 <= i /\ ~ in_zone i.
Proof.
  intros (Hu & _ & Ho) Hi. unfold in_page, in_zone in *. destruct zone_numbers as (-> & _ & -> & E). rewrite E in *. destruct Hu.
  unfold FIRST_ALLOCATABLE_PAGE, DWB_ZONE_START_PAGE, DWB_ZONE_PAGES in Ho. lia.
Qed.

Lemma page_id_zeros : page_id (zeros PAGE_SIZE) = 0.
Proof. reflexivity. Qed.

Section batch.
Context (pages : list (Z * bytes)) (b b' : bytes).
Context (Hp : Forall page_outside pages) (Hn : NoDup pages.*1) (Hb : paged b) (Hb' : zlen b <= zlen b').
Context (Hs : same_homes b' (put_pages pages b)).

Lemma batch_lengths : Forall (fun pg => zlen pg.2 = PAGE_SIZE) pages.
Proof. eapply Forall_impl; [exact Hp|]. intros pg [[_ Hl] _]. exact Hl. Qed.

Lemma batch_byte id i : home id -> in_page id i -> file_byte b' i = default (file_byte b i) (last_byte (map home_write pages) i).
Proof.
  intros Hh Hi. destruct (home_outside id i Hh Hi) as [H0 Hz]. rewrite Hs by done. unfold put_pages.
  by rewrite apply_byte by (by apply home_writes_nonneg).
Qed.

Lemma batch_written id page : (id, page) ∈ pages -> home id -> (id + 1) * PAGE_SIZE <= zlen b' -> page_at b' id = Some page.
Proof.
  intros Hin Hh Hl. pose proof batch_lengths as Hls. assert (El : zlen page = PAGE_SIZE) by (rewrite Forall_forall in Hls; by apply (Hls _ Hin)).
  unfold page_at. rewrite (proj2 (Z.leb_le _ _) Hl). apply f_equal. rewrite <-El. destruct Hh as (Hu & ? & ?) eqn:Eh. destruct Hu.
  apply slice_bytes; rewrite ?El; change PAGE_SIZE with 16384 in *; [lia|lia|]. intros i Hi.
  assert (Hi' : in_page id i) by (unfold in_page; change PAGE_SIZE with 16384; lia).
  rewrite (batch_byte id i Hh Hi'), (last_byte_home _ _ _ _ Hls Hn Hi' Hin). change PAGE_SIZE with 16384. unfold file_byte at 2.
  assert (is_Some (zget page (i - id * 16384))) as [x ->]; [apply zget_is_Some; lia|done].
Qed.

Lemma batch_kept id p : id ∉ pages.*1 -> home id -> page_at b id = Some p -> page_at b' id = Some p.
Proof.
  intros Hd Hh. assert (Hbyte : forall i, in_page id i -> file_byte b' i = file_byte b i).
  { intros i Hi. by rewrite (batch_byte id i Hh Hi), (last_byte_absent _ _ _ batch_lengths Hi Hd). }
  destruct Hh as ([Hu _] & H0 & _). unfold page_at. unfold in_page in Hbyte. destruct zone_numbers as (_ & _ & _ & EP).
  destruct (Z.leb_spec ((id + 1) * PAGE_SIZE) (zlen b)) as [Hl|Hl]; [|discriminate].
  rewrite (proj2 (Z.leb_le _ _)) by lia. rewrite (slice_same b' b); [exact (fun E => E)|lia..|]. intros i Hi. apply Hbyte. lia.
Qed.

Lemma batch_other id : id ∉ pages.*1 -> home id -> fitting id (page_at b' id) = fitting id (page_at b id).
Proof.
  intros Hd Hh. assert (Hbyte : forall i, in_page id i -> file_byte b' i = file_byte b i).
  { intros i Hi. by rewrite (batch_byte id i Hh Hi), (last_byte_absent _ _ _ batch_lengths Hi Hd). }
  destruct (page_at b id) as [p|] eqn:E; [by rewrite (batch_kept id p Hd Hh E)|].
  destruct Hh as ([Hu _] & H0 & _). unfold page_at in *. unfold in_page in Hbyte. destruct zone_numbers as (_ & _ & _ & EP).
  destruct (Z.leb_spec ((id + 1) * PAGE_SIZE) (zlen b)) as [Hl|Hl]; [discriminate|].
  destruct (Z.leb_spec ((id + 1) * PAGE_SIZE) (zlen b')) as [Hl'|]; [|done].
  assert (Ez : slice b' (id * PAGE_SIZE) PAGE_SIZE = zeros PAGE_SIZE).
  { rewrite <-(zlen_zeros PAGE_SIZE) at 2 by done. apply slice_bytes; rewrite ?zlen_zeros by done; try lia. intros i Hi.
    rewrite Hbyte by lia. destruct Hb as [_ [k Ek]]. rewrite (file_byte_default b) by (right; nia). symmetry.
    rewrite <-(app_nil_l (zeros PAGE_SIZE)), file_byte_zeros. apply file_byte_default. change (zlen (@nil Z)) with 0. lia. }
  rewrite Ez. unfold fitting. cbn [mbind option_bind]. by rewrite decide_False by (intros [_ E0]; rewrite page_id_zeros in E0; done).
Qed.
End batch.

(** Every page of the batch reaches into the file. *)
Lemma zlen_apply_elem ws b w :
  Forall (fun w => 0 <= w.1) ws -> w ∈ ws -> zlen w.2 <> 0 -> w.1 + zlen w.2 <= zlen (apply_writes ws b).
Proof.
  intros Hw Hin Hz. induction ws as [|w' ws IH] using rev_ind; [by apply elem_of_nil in Hin|].
  apply Forall_app in Hw as [Hws [Hw _]%Forall_cons]. rewrite apply_writes_snoc.
  apply elem_of_app in Hin as [Hin|Hin%list_elem_of_singleton].
  - etrans; [by apply IH|by apply zlen_write_at_ge].
  - subst w'. rewrite zlen_write_at by done. destruct (Z.eqb_spec (zlen w.2) 0); [done|lia].
Qed.

Section batch_file.
Context (crc32 : bytes -> Z).

Lemma batch_has_home pages dw pg : pg ∈ pages -> home_write pg ∈ batch_writes crc32 pages dw.
Proof.
  intros Hpg. unfold batch_writes. destruct dw; [|by apply list_elem_of_fmap_2]. apply elem_of_app. left.
  rewrite <-(concat_frames_of pages) in Hpg. apply list_elem_of_In, in_concat in Hpg as (chunk & Hc & Hpg).
  apply list_elem_of_In, in_concat. exists (frame_write crc32 chunk :: map home_write chunk). split.
  - apply list_elem_of_In, list_elem_of_fmap. exists chunk. split; [done|by apply list_elem_of_In].
  - right. by apply in_map.
Qed.

(** What a batch does to a paged file: [b] before, [b'] behind it *)
Definition batch_effect (pages : list (Z * bytes)) (b b' : bytes) : Prop :=
  paged b' /\
  (forall id page, (id, page) ∈ pages -> page_at b' id = Some page) /\
  (forall id p, id ∉ pages.*1 -> home id -> page_at b id = Some p -> page_at b' id = Some p) /\
  (forall id, id ∉ pages.*1 -> home id -> fitting id (page_at b' id) = fitting id (page_at b id)).

(** Pages that may be written *)
Definition writable (pg : Z * bytes) : Prop := home pg.1 /\ fits pg.1 pg.2.

Lemma writable_outside pages : Forall writable pages -> Forall page_outside pages.
Proof. intros H. eapply Forall_impl; [exact H|]. intros pg [(Hu & _ & Ho) [Hl _]]. split; [|exact Ho]. split; [exact Hu|exact Hl]. Qed.

Lemma batch_effect_writes pages dw b :
  Forall writable pages -> NoDup pages.*1 -> paged b -> batch_effect pages b (apply_writes (batch_writes crc32 pages dw) b).
Proof.
  intros Hw Hn Hb. pose proof (writable_outside _ Hw) as Hp. destruct (paged_writes _ b (batch_tidy crc32 pages dw Hp) Hb) as [Hb' Hm].
  pose proof (batch_homes crc32 pages dw b Hp) as Hs. set (b' := apply_writes _ b) in *.
  assert (Hl : forall id page, (id, page) ∈ pages -> (id + 1) * PAGE_SIZE <= zlen b').
  { intros id page Hin. rewrite Forall_forall in Hp. destruct (Hp _ Hin) as [[_ Hlen] _]. cbn in Hlen. change PAGED_PAGE_SIZE with PAGE_SIZE in Hlen.
    pose proof (zlen_apply_elem (batch_writes crc32 pages dw) b (home_write (id, page))) as H. cbn [home_write fst snd] in H.
    rewrite Hlen in H. change (apply_writes (batch_writes crc32 pages dw) b) with b' in H.
    assert (id * PAGE_SIZE + PAGE_SIZE <= zlen b'); [|lia]. apply H; [|by apply (batch_has_home pages dw (id, page))|done].
    eapply Forall_impl; [apply (batch_tidy crc32 pages dw); by apply Forall_forall|].
    intros w [[? _]|(pg & [[[? _] _] _] & ->)]; cbn [home_write fst]; [change dwb_zone_offset with 49152 in *; lia|change PAGE_SIZE with 16384; lia]. }
  split; [exact Hb'|]. split_and!.
  - intros id page Hin. rewrite Forall_forall in Hw. destruct (Hw _ Hin) as [Hh _].
    exact (batch_written pages b b' Hp Hn Hs id page Hin Hh (Hl id page Hin)).
  - intros id p. by apply batch_kept.
  - intros id. by apply batch_other.
Qed.

(** The first page, with the superblocks, is as before, and the double-write zone is so or cleared. *)
Definition reserved_kept (b b' : bytes) : Prop :=
  (forall i, 0 <= i < PAGE_SIZE -> file_byte b' i = file_byte b i) /\ (zone b' = zone b \/ file_byte (zone b') 0 = 6).

#[export] Instance reserved_kept_preorder : PreOrder reserved_kept.
Proof.
  split; [intros b; by split; [|left]|]. intros a b c [K1 Z1] [K2 Z2]. split; [intros i Hi; by rewrite K2, K1|].
  destruct Z2 as [Z2|Z2]; [|by right]. rewrite Z2. exact Z1.
Qed.

Lemma batch_zone pages dw b :
  Forall writable pages -> zone_end <= zlen b ->
  zone (apply_writes (batch_writes crc32 pages dw) b) = zone b \/ file_byte (zone (apply_writes (batch_writes crc32 pages dw) b)) 0 = 6.
Proof.
  intros Hw Hb. pose proof (writable_outside _ Hw) as Hp. destruct dw; [|left; exact (zone_put_pages pages b Hp Hb)].
  destruct (decide (pages = [])) as [->|Ep]; [change (batch_writes crc32 [] true) with (@nil (Z * bytes)); by left|]. right.
  unfold batch_writes. rewrite bool_decide_false by exact Ep.
  rewrite apply_writes_app, zone_apply; [|apply clear_writes_in_zone|].
  { match goal with |- context [apply_writes (map shift_write ?ws) ?z] => change (apply_writes (map shift_write ws) z) with (cleared_zone crc32 z) end.
    apply cleared_zone_tag. }
  etrans; [exact Hb|]. apply zlen_apply_writes. pose proof (batch_tidy crc32 pages true Hp) as Ht. unfold batch_writes in Ht.
  apply Forall_app in Ht as [Ht _]. eapply Forall_impl; [exact Ht|].
  intros w [[? _]|(pg & [[[? _] _] _] & ->)]; cbn [home_write fst]; [change dwb_zone_offset with 49152 in *; lia|change PAGE_SIZE with 16384; lia].
Qed.

Lemma batch_reserved pages dw b :
  Forall writable pages -> zone_end <= zlen b -> reserved_kept b (apply_writes (batch_writes crc32 pages dw) b).
Proof.
  intros Hw Hb. split; [|by apply batch_zone]. intros i Hi. pose proof (writable_outside _ Hw) as Hp. destruct zone_numbers as (EZ & _ & _ & EP).
  rewrite (batch_homes crc32 pages dw b Hp) by (unfold in_zone; lia). unfold put_pages.
  rewrite apply_byte by (by apply home_writes_nonneg).
  rewrite (last_byte_absent pages 0); [done|by apply batch_lengths|unfold in_page; lia|].
  intros ([id p] & E & Hin)%list_elem_of_fmap. rewrite Forall_forall in Hw. destruct (Hw _ Hin) as [(_ & H0 & _) _]. done.
Qed.

(** No operation on a file panics. *)
Definition calm {A} (m : eff File PagerIoError A) : Prop := forall f, (m f).2 <> Panic.

Lemma calm_bind {A B} (m : eff File PagerIoError A) (k : A -> eff File PagerIoError B) :
  calm m -> (forall a, calm (k a)) -> calm (m ≫= k).
Proof.
  intros Hm Hk f. pose proof (Hm f). unfold mbind, eff_bind. destruct (m f) as [f' [a| |]]; [apply Hk|done|done].
Qed.

Lemma calm_for_each {A} (l : list A) (m : A -> eff File PagerIoError unit) : Forall (fun x => calm (m x)) l -> calm (for_each l m).
Proof.
  induction 1 as [|x l Hx _ IH]; cbn [for_each]; [by intros f|]. by apply calm_bind.
Qed.

Lemma calm_attempt {A} (m : eff File string A) (torn : nat -> File -> File) :
  (forall f, (m f).2 <> Panic) -> calm (io (attempt m torn)).
Proof.
  intros Hm f. unfold io, eff_map_err, attempt. destruct (faults f) as [[[|n] k]|]; cbn; [done| |].
  - pose proof (Hm (set_faults (Some (n, k)) f)). by destruct (m _) as [? []].
  - pose proof (Hm f). by destruct (m f) as [? []].
Qed.

Lemma calm_write_page id page : calm (PagerIo.write_page id page).
Proof. apply calm_bind; [by apply calm_attempt|intros _; by apply calm_attempt]. Qed.

Lemma calm_sync : calm (io sync_all).
Proof. by apply calm_attempt. Qed.

Lemma calm_write_frame chunk : chunk_ok chunk -> calm (write_frame crc32 chunk).
Proof.
  intros Hc. pose proof (zlen_frame crc32 _ Hc) as [_ Hl]. unfold write_frame. rewrite (proj2 (Z.leb_le _ _) Hl).
  apply calm_bind; [by intros f|intros _]. apply calm_bind; [by apply calm_attempt|intros _].
  apply calm_bind; [by apply calm_attempt|intros _]. apply calm_bind; [exact calm_sync|intros _].
  apply calm_bind; [|intros _; exact calm_sync]. apply calm_for_each, Forall_forall. intros pg _. apply calm_write_page.
Qed.

Lemma calm_write_pages pages dw : Forall page_outside pages -> calm (PagerIo.write_pages crc32 pages dw).
Proof.
  intros Hp. unfold PagerIo.write_pages. destruct dw; cbn [negb].
  - fold (frames_of pages). apply calm_bind.
    + apply calm_for_each. eapply Forall_impl; [exact (frames_of_ok pages Hp)|]. intros chunk. apply calm_write_frame.
    + intros _. destruct (bool_decide _); [by intros f|]. apply calm_bind; [|intros _; exact calm_sync].
      apply calm_for_each, Forall_forall. intros id _. apply calm_write_page.
  - apply calm_for_each, Forall_forall. intros pg _. apply calm_write_page.
Qed.

(** A batch on a file: it only fails on a file that fails. *)
Lemma write_pages_run pages dw f :
  Forall writable pages ->
  match PagerIo.write_pages crc32 pages dw f with
  | (f', Ok _) => live f' = apply_writes (batch_writes crc32 pages dw) (live f) /\ (faults f = None -> faults f' = None)
  | (_, Err _) => faults f <> None
  | (_, Panic) => False
  end.
Proof.
  intros Hw%writable_outside. pose proof (puts_write_pages crc32 pages dw f) as Hp. pose proof (calm_write_pages pages dw Hw f) as Hc.
  assert (Hs : sure (PagerIo.write_pages crc32 pages dw)).
  { destruct dw; [by apply sure_write_pages|]. apply sure_for_each. intros pg. apply sure_write_page. }
  specialize (Hs f). destruct (PagerIo.write_pages crc32 pages dw f) as [f' [a|e|]]; cbn [fst snd] in *; [|intros Hf|done].
  - split; [by eapply Hp|]. intros Hf. by apply Hs.
  - destruct (Hs Hf) as [_ [? ?]]. done.
Qed.
End batch_file.

(** ** The pager *)

(** [m] succeeds with [Q], or fails and [F] holds; it does not panic. *)
Definition runs {S E A} (m : eff S E A) (s : S) (F : Prop) (Q : A -> S -> Prop) : Prop :=
  match m s with (s', Ok a) => Q a s' | (_, Err _) => F | (_, Panic) => False end.

Lemma runs_bind {S E A B} (m : eff S E A) (k : A -> eff S E B) s F Q :
  runs m s F (fun a s' => runs (k a) s' F Q) -> runs (m ≫= k) s F Q.
Proof. unfold runs, mbind, eff_bind. by destruct (m s) as [s' []]. Qed.

Lemma runs_assoc {S E A B C} (m : eff S E A) (k : A -> eff S E B) (l : B -> eff S E C) s F Q :
  runs ((m ≫= k) ≫= l) s F Q -> runs (a ← m; b ← k a; l b) s F Q.
Proof. unfold runs, mbind, eff_bind. by destruct (m s) as [s' []]. Qed.

Lemma runs_mono {S E A} (m : eff S E A) s (F F' : Prop) (Q Q' : A -> S -> Prop) :
  runs m s F Q -> (F -> F') -> (forall a s', Q a s' -> Q' a s') -> runs m s F' Q'.
Proof. unfold runs. destruct (m s) as [s' []]; auto. Qed.

Lemma runs_ok {S E A} (m : eff S E A) s F Q s' a : m s = (s', Ok a) -> Q a s' -> runs m s F Q.
Proof. unfold runs. by intros ->. Qed.

Section file_runs.
Context (crc32 : bytes -> Z).

(** A file operation on a file that may fail *)
Lemma attempt_runs {A} (m : eff File string A) torn f (F : Prop) (Q : A -> File -> Prop) :
  (faults f <> None -> F) ->
  (forall g, live g = live f -> cursor g = cursor f -> (faults f = None -> faults g = None) -> runs (io m) g F Q) ->
  runs (io (attempt m torn)) f F Q.
Proof.
  intros HF Hm. unfold runs, io, eff_map_err, attempt. destruct (faults f) as [[[|n] k]|] eqn:E; cbn; [by apply HF| |]; by apply Hm.
Qed.

Lemma live_set_cursor pos f : live (set_cursor pos f) = live f.
Proof. reflexivity. Qed.

Lemma seek_runs pos f (F : Prop) Q :
  (faults f <> None -> F) ->
  (forall g, live g = live f -> cursor g = pos -> (faults f = None -> faults g = None) -> Q tt g) -> runs (io (seek pos)) f F Q.
Proof. intros HF HQ. apply attempt_runs; [done|]. intros g Hl _ Hf. unfold runs, io, eff_map_err. cbn [map_err]. by apply HQ. Qed.

Lemma read_exact_runs n f (F : Prop) Q :
  (faults f <> None -> F) -> (zlen (live f) < cursor f + n -> F) ->
  (forall g, cursor f + n <= zlen (live f) -> live g = live f -> (faults f = None -> faults g = None) -> Q (slice (live f) (cursor f) n) g) ->
  runs (io (read_exact n)) f F Q.
Proof.
  intros HF HF' HQ. apply attempt_runs; [done|]. intros g Hl Hc Hf. unfold runs, io, eff_map_err. rewrite Hl, Hc.
  destruct (Z.leb_spec (cursor f + n) (zlen (live f))); cbn [map_err]; [by apply HQ|by apply HF'].
Qed.

Lemma verify_runs p f (F : Prop) (Q : bytes -> File -> Prop) :
  (verify_checksum crc32 p <> Ok tt -> F) -> Q p f ->
  runs (_ ← lift (map_err IoPage (verify_checksum crc32 p)); mret p) f F Q.
Proof.
  intros HF HQ. unfold runs, mbind, eff_bind, lift. destruct (verify_checksum crc32 p) as [[]|e|] eqn:E; cbn [map_err]; [done|by apply HF|].
  unfold verify_checksum in E. by destruct (negb _).
Qed.

Lemma read_file_runs id verify f :
  runs (PagerIo.read_page crc32 id verify) f
    (forall p, faults f = None -> page_at (live f) id = Some p -> verify = true /\ verify_checksum crc32 p <> Ok tt)
    (fun p f' => page_at (live f) id = Some p /\ live f' = live f /\ (faults f = None -> faults f' = None)).
Proof.
  apply runs_bind, seek_runs; [by intros ? ? ?|]. intros g Hl Hc Hf. apply runs_bind.
  assert (El : cursor g + PAGE_SIZE = (id + 1) * PAGE_SIZE) by lia.
  apply read_exact_runs.
  - intros Hn p H0. by apply Hf in H0.
  - rewrite Hl, El. intros Hlt p _. unfold page_at. by rewrite (proj2 (Z.leb_gt _ _) Hlt).
  - rewrite Hl, El. intros g' Hle Hl' Hf'. assert (Ep : page_at (live f) id = Some (slice (live f) (cursor g) PAGE_SIZE)).
    { unfold page_at. by rewrite (proj2 (Z.leb_le _ _) Hle), Hc. }
    rewrite Ep. generalize (slice (live f) (cursor g) PAGE_SIZE). intros p.
    destruct verify; cbn [andb]; [|split; [done|split; [done|auto]]].
    destruct (negb (id =? 0)); [|split; [done|split; [done|auto]]].
    apply verify_runs; [|split; [done|split; [done|auto]]]. intros Hv q _ [= <-]. by split.
Qed.
End file_runs.

Section pager.
Context (crc32 : bytes -> Z) (iter : gmap Z nat -> list (Z * nat)) (iter_perm : forall m, iter m ≡ₚ map_to_list m).
Context {W : Type} `{WalBarrier W} (accepts : W -> Prop).
(** The pages that the log has recorded as newly reserved *)
Context (fresh : W -> Z -> bool).

(** The page under a number, and the page if it is one that belongs there *)
Definition view (s : Pager W) (id : Z) : option bytes :=
  match cached (cache s) !! id with Some e => Some (entry_page e) | None => page_at (live (file s)) id end.
Definition held (s : Pager W) (id : Z) : option bytes := fitting id (view s id).

Record coherent (s : Pager W) : Prop := {
  co_cache : cache_wf (cache s);
  co_file : paged (live (file s));
  co_writer : read_only (config s) = false;
  co_dirty id e : cached (cache s) !! id = Some e -> PageCache.dirty e = true ->
    writable (id, entry_page e) /\ id ∉ free_pages (freelist s);
  co_clean id e : cached (cache s) !! id = Some e -> PageCache.dirty e = false -> home id -> page_at (live (file s)) id = Some (entry_page e);
}.

(** No operation can fail. *)
Definition ready (s : Pager W) : Prop := faults (file s) = None /\ writeback_failed s = false /\ accepts (wal s).

(** Only the file, the cache, the log and the fence differ. *)
Definition same_rest (s s' : Pager W) : Prop :=
  s' = set_file (file s') (set_cache (cache s') (set_wal (wal s') (set_writeback_failed (writeback_failed s') s))).

#[local] Instance same_rest_preorder : PreOrder same_rest.
Proof.
  split; [by intros []|]. intros s1 s2 s3 H1 H2. unfold same_rest in *. rewrite H1 in H2. destruct s1, s2, s3. exact H2.
Qed.

(** The accepting log: what the pager asks of it, it does.  It may ask for the image of any page
    before the page is overwritten, except of those that it has recorded as newly reserved. *)
Definition log_does {A} (m : eff W string A) (w : W) (P : A -> Prop) : Prop :=
  exists w' a, m w = (w', Ok a) /\ accepts w' /\ (forall id, fresh w' id = fresh w id) /\ P a.

Definition log_accepts : Prop :=
  (forall w n, accepts w -> log_does (flush_until n) w (fun _ => True)) /\
  (forall w id, accepts w -> log_does (needs_page_image id) w (fun required => required = true -> fresh w id = false)) /\
  (forall w p, accepts w -> log_does (capture_page_image p) w (fun _ => True)) /\
  (forall w a n, 0 <= a -> 0 <= n -> a + n <= U32_MAX -> accepts w -> exists w', reserve_pages a n w = (w', Ok tt) /\ accepts w' /\
     forall id, fresh w' id = (a <=? id) && (id <? a + n) || fresh w id) /\
  (forall w ids, accepts w -> log_does (retire_pages ids) w (fun _ => True)).

(** No call of the log panics. *)
Definition log_calm : Prop :=
  (forall w n, (flush_until n w).2 <> Panic) /\ (forall w id, (needs_page_image id w).2 <> Panic) /\
  (forall w p, (capture_page_image p w).2 <> Panic) /\ (forall w a n, (reserve_pages a n w).2 <> Panic) /\
  (forall w ids, (retire_pages ids w).2 <> Panic).

Context (Hlog : log_accepts) (Hcalm : log_calm).

Implicit Types s : Pager W.

(** A step of the pager: it keeps the rest of the state, a pager that is ready, the pages that the log
    has recorded as reserved, and the superblocks. *)
Definition step (s s' : Pager W) : Prop :=
  same_rest s s' /\ (ready s -> ready s' /\ forall id, fresh (wal s') id = fresh (wal s) id) /\ reserved_kept (live (file s)) (live (file s')).

#[local] Instance step_preorder : PreOrder step.
Proof.
  split; [by intros s; split_and!|]. intros s1 s2 s3 (? & R1 & K1) (? & R2 & K2). split_and!; [by etrans| |by etrans].
  intros Hr. destruct (R1 Hr) as [Hr2 E1]. destruct (R2 Hr2) as [Hr3 E2]. split; [done|]. intros id. by rewrite E2.
Qed.

Lemma step_config s s' : step s s' -> config s' = config s.
Proof. intros [E _]. by rewrite E. Qed.

Lemma on_cache_runs {A} (m : eff PageCache Empty_set A) s c' a F Q :
  m (cache s) = (c', Ok a) -> Q a (set_cache c' s) -> runs (on_cache m) s F Q.
Proof. intros E. apply runs_ok. unfold on_cache. by apply within_ok. Qed.

Lemma on_wal_runs {A} (m : eff W string A) s F (Q : A -> Pager W -> Prop) :
  (m (wal s)).2 <> Panic -> (forall w' e, m (wal s) = (w', Err e) -> F) ->
  (forall w' a, m (wal s) = (w', Ok a) -> Q a (set_wal w' s)) -> runs (on_wal m) s F Q.
Proof.
  intros Hc He Hq. unfold runs, on_wal, within. destruct (m (wal s)) as [w' [a|e|]] eqn:E; cbn in *; [by apply Hq|by eapply He|done].
Qed.

Lemma on_err_runs {A} (h : eff (Pager W) PagerError unit) (m : eff (Pager W) PagerError A) s (F : Prop) Q :
  (forall s' e, m s = (s', Err e) -> (h s').2 <> Panic) -> runs m s F Q -> runs (on_err h m) s F Q.
Proof.
  intros Hh. unfold runs, on_err. destruct (m s) as [s' [a|e|]]; [done| |done]. intros HF. pose proof (Hh s' e eq_refl).
  by destruct (h s') as [s'' []].
Qed.

(** *** Writing a batch *)

Lemma ready_file s f : ready s -> faults f = None -> ready (set_file f s).
Proof. intros (_ & ? & ?) ?. by split_and!. Qed.

Lemma same_rest_file s f : same_rest s (set_file f s).
Proof. by destruct s. Qed.

Lemma same_rest_cache s c : same_rest s (set_cache c s).
Proof. by destruct s. Qed.

Lemma same_rest_wal s w : same_rest s (set_wal w s).
Proof. by destruct s. Qed.

Lemma step_cache s c : step s (set_cache c s).
Proof. split_and!; [apply same_rest_cache| |done]. by intros (? & ? & ?). Qed.

Lemma write_pages_through_dwb_runs pages s :
  read_only (config s) = false -> zone_end <= zlen (live (file s)) -> Forall writable pages ->
  runs (write_pages_through_dwb crc32 pages) s (~ ready s) (fun _ s' =>
    step s s' /\ cache s' = cache s /\ live (file s') = apply_writes (batch_writes crc32 pages (dwb_enabled s)) (live (file s))).
Proof.
  intros Hro Hz Hp. unfold write_pages_through_dwb. apply runs_bind. unfold runs at 1, ensure_writable. rewrite Hro.
  apply runs_bind. unfold runs at 1, ensure_writeback_available. destruct (writeback_failed s) eqn:Ef; [intros (_ & ? & _); congruence|].
  apply runs_bind. unfold runs at 1, gets. apply on_err_runs; [by intros|].
  pose proof (write_pages_run crc32 pages (dwb_enabled s) (file s) Hp) as Hw. unfold runs, on_file, within.
  destruct (PagerIo.write_pages crc32 pages (dwb_enabled s) (file s)) as [f' [[]|e|]]; cbn [map_err]; [|intros [? _]; done|done].
  destruct Hw as [Hl Hf]. split_and!; [|done|done]. split_and!; [apply same_rest_file| |].
  - intros (H0 & H1 & H2). split; [|done]. by split_and!; [apply Hf|..].
  - cbn [file set_file]. rewrite Hl. by apply batch_reserved.
Qed.

(** A batch leaves the cache alone and puts its pages into the file. *)
Definition batch_done (pages : list (Z * bytes)) (s s' : Pager W) : Prop :=
  step s s' /\ cache s' = cache s /\ batch_effect pages (live (file s)) (live (file s')).

(** What a batch needs of the state; the cache may be ahead of the file. *)
Definition sane (s : Pager W) : Prop := cache_wf (cache s) /\ paged (live (file s)) /\ read_only (config s) = false.

Lemma write_dirty_page_batch_runs pages s :
  sane s -> Forall writable pages -> NoDup pages.*1 ->
  runs (write_dirty_page_batch crc32 pages) s (~ ready s) (fun _ s' => batch_done pages s s').
Proof.
  intros Hs Hp Hn. unfold write_dirty_page_batch. case_bool_decide as Ep.
  { subst pages. split; [done|]. split; [done|]. split_and!; [apply Hs|by intros ? ? ?%elem_of_nil|done|done]. }
  apply on_err_runs.
  { intros s' e E. rewrite (eff_bind_ok _ _ s' (set_writeback_failed true s') tt) by done.
    pose proof (batch_cache crc32 pages s) as Hc. rewrite E in Hc. cbn [fst] in Hc.
    destruct (mark_all_ok pages (set_writeback_failed true s')) as (c' & -> & _); [cbn; rewrite Hc; apply Hs|done]. }
  assert (Hwr : forall t, step s t -> cache t = cache s -> file t = file s ->
    runs (write_pages_through_dwb crc32 pages) t (~ ready s) (fun _ s' => batch_done pages s s')).
  { intros t Ht Hc Hf. eapply runs_mono; [apply write_pages_through_dwb_runs; [by rewrite (step_config _ _ Ht); apply Hs|rewrite Hf; apply Hs|done]|..].
    - intros Hr Hr'. by apply Hr, Ht.
    - intros _ s' (H1 & H2 & H3). split_and!; [by etrans|congruence|]. rewrite H3, Hf. apply batch_effect_writes; [done|done|apply Hs]. }
  apply runs_bind. destruct (0 <? max_lsn pages); [|by apply Hwr].
  destruct Hlog as (Hfl & _). destruct Hcalm as (Hcf & _). apply on_wal_runs; [apply Hcf|..].
  - intros w' e E (_ & _ & Ha). destruct (Hfl (wal s) (max_lsn pages) Ha) as (? & ? & ? & _). congruence.
  - intros w' [] E. apply Hwr; [|done|done]. split_and!; [apply same_rest_wal| |done]. intros (H0 & H1 & Ha).
    destruct (Hfl (wal s) (max_lsn pages) Ha) as (w'' & [] & E' & Ha' & Hfr & _). assert (w'' = w') as -> by congruence. by split_and!.
Qed.

(** *** Writing evicted pages back *)

Lemma sort_ids_perm ids : sort_ids ids ≡ₚ ids.
Proof. apply merge_sort_Permutation. Qed.

Lemma eviction_batch_nodup pending c : cache_wf c -> NoDup (eviction_batch iter pending c).
Proof.
  intros Hw. unfold eviction_batch. rewrite sort_ids_perm, cache_dirty_page_ids_ok.
  eapply sublist_NoDup; [|apply sublist_take]. apply NoDup_filter.
  eapply sublist_NoDup; [|apply sublist_take]. by apply dirty_ids_nodup.
Qed.

(** The dirty pages that a list of numbers names *)
Definition dirty_images (ids : list Z) (c : PageCache) : list (Z * bytes) :=
  omap (fun id => e ← cached c !! id; (id,.) <$> evicted_of e) ids.

Lemma elem_of_dirty_images ids c id page :
  (id, page) ∈ dirty_images ids c <->
  id ∈ ids /\ exists e, cached c !! id = Some e /\ PageCache.dirty e = true /\ entry_page e = page.
Proof.
  unfold dirty_images. rewrite list_elem_of_omap. split.
  - intros (x & Hx & E). destruct (cached c !! x) as [e|] eqn:Ee; [|done]. cbn in E. unfold evicted_of in E.
    destruct (PageCache.dirty e) eqn:Ed; [|done]. cbn in E. injection E as <- <-. split; [done|]. by exists e.
  - intros (Hid & e & Ee & Ed & <-). exists id. split; [done|]. rewrite Ee. cbn. unfold evicted_of. by rewrite Ed.
Qed.

Lemma dirty_images_sublist ids c : (dirty_images ids c).*1 `sublist_of` ids.
Proof.
  unfold dirty_images. induction ids as [|id ids IH]; [done|]. cbn. destruct (cached c !! id) as [e|]; cbn; [|by constructor].
  destruct (evicted_of e); cbn; by constructor.
Qed.

Lemma dirty_images_writable ids s : coherent s -> Forall writable (dirty_images ids (cache s)).
Proof.
  intros Hs. apply Forall_forall. intros [id page] (_ & e & Ee & Ed & <-)%elem_of_dirty_images. by apply (co_dirty s Hs).
Qed.

(** Taking pages out for a batch cleans their entries; the batch makes them clean. *)
Lemma flushed_coherent ids extra s s' c' pages :
  coherent s -> cache_wf c' -> cached c' = cleaned ids (cached (cache s)) ->
  pages ≡ₚ dirty_images ids (cache s) ++ extra ->
  (forall pg, pg ∈ extra -> cached (cache s) !! pg.1 = None) ->
  cache s' = c' -> config s' = config s -> freelist s' = freelist s -> batch_effect pages (live (file s)) (live (file s')) ->
  coherent s'.
Proof.
  intros Hs Hw Hc Hp Hx Ec Eg El (Hb & Hin & Hk & _). split.
  - by rewrite Ec.
  - exact Hb.
  - rewrite Eg. apply Hs.
  - intros id e. rewrite Ec, Hc, lookup_cleaned. destruct (cached (cache s) !! id) as [e0|] eqn:E0; [|done]. cbn.
    case_decide; intros [= <-] Ed; [done|]. rewrite El. by apply (co_dirty s Hs).
  - intros id e. rewrite Ec, Hc, lookup_cleaned. destruct (cached (cache s) !! id) as [e0|] eqn:E0; [|done]. cbn.
    intros Ee Ed Hh. assert (Ep : entry_page e = entry_page e0) by (case_decide; by injection Ee as <-). rewrite Ep.
    destruct (PageCache.dirty e0) eqn:Ed0.
    + apply Hin. rewrite Hp. apply elem_of_app. left. apply elem_of_dirty_images. case_decide; [by split; [|exists e0]|congruence].
    + apply Hk; [|done|by apply (co_clean s Hs)]. rewrite Hp, fmap_app. intros [Hi|Hi]%elem_of_app.
      * apply list_elem_of_fmap in Hi as ([i p] & -> & (_ & e1 & Ee1 & Hd & _)%elem_of_dirty_images). cbn in E0. congruence.
      * apply list_elem_of_fmap in Hi as (pg & -> & Hpg). specialize (Hx pg Hpg). congruence.
Qed.

Lemma fitting_fits id p : fits id p -> fitting id (Some p) = Some p.
Proof. intros. unfold fitting. cbn. by rewrite decide_True. Qed.

Lemma flushed_held ids extra s s' pages id :
  cached (cache s') = cleaned ids (cached (cache s)) ->
  pages ≡ₚ dirty_images ids (cache s) ++ extra ->
  (forall pg, pg ∈ extra -> cached (cache s) !! pg.1 = None) ->
  batch_effect pages (live (file s)) (live (file s')) -> home id ->
  (id ∉ extra.*1 -> held s' id = held s id) /\ (forall p, (id, p) ∈ extra -> fits id p -> held s' id = Some p).
Proof.
  intros Hc Hp Hx (_ & Hin & _ & Ho) Hh. unfold held, view. rewrite Hc, lookup_cleaned. split.
  - intros Hi. destruct (cached (cache s) !! id) as [e|] eqn:E; cbn; [by destruct (decide (id ∈ ids))|]. apply Ho; [|done].
    rewrite Hp, fmap_app. intros [Hd|Hd]%elem_of_app; [|done].
    apply list_elem_of_fmap in Hd as ([i p] & -> & (_ & e1 & Ee1 & _)%elem_of_dirty_images). cbn in E. congruence.
  - intros p Hi Hf. specialize (Hx _ Hi) as Hn. cbn in Hn. rewrite Hn. cbn. rewrite (Hin id p); [by apply fitting_fits|].
    rewrite Hp. apply elem_of_app. by right.
Qed.

(** The pages of [s'] are those of [s], except at [id], where [o] is held. *)
Definition holds_with (s s' : Pager W) (id : Z) (o : option bytes) : Prop :=
  forall j, home j -> held s' j = if decide (j = id) then o else held s j.

(** The pages of a batch that takes [extra] along *)
Lemma flush_batch_runs ids extra (sorted : list (Z * bytes) -> list (Z * bytes)) s (F : Prop) (Q : unit -> Pager W -> Prop) :
  coherent s -> NoDup ids -> (forall l, sorted l ≡ₚ l) ->
  Forall writable extra -> NoDup extra.*1 -> (forall pg, pg ∈ extra -> cached (cache s) !! pg.1 = None) ->
  (~ ready s -> F) ->
  (forall s', coherent s' -> step s s' -> cached (cache s') = cleaned ids (cached (cache s)) ->
    (forall j, home j -> j ∉ extra.*1 -> held s' j = held s j) ->
    (forall j p, (j, p) ∈ extra -> held s' j = Some p) -> Q tt s') ->
  runs (pages ← on_cache (flush_dirty_pages ids); write_dirty_page_batch crc32 (sorted (pages ++ extra))) s F Q.
Proof.
  intros Hs Hn Hsort Hw Hnx Hx HF HQ. destruct (flush_dirty_pages_ok (cache s) ids (co_cache s Hs) Hn) as (c' & E & Hw' & Hc').
  apply runs_bind. eapply on_cache_runs; [exact E|]. fold (dirty_images ids (cache s)).
  set (pages := sorted (dirty_images ids (cache s) ++ extra)). assert (Hp : pages ≡ₚ dirty_images ids (cache s) ++ extra) by apply Hsort.
  assert (Hnd : NoDup pages.*1).
  { rewrite Hp, fmap_app. apply NoDup_app. split_and!; [by eapply sublist_NoDup, dirty_images_sublist| |done].
    intros i Hi Hi'. apply list_elem_of_fmap in Hi as ([i1 p1] & -> & (_ & e1 & Ee1 & _)%elem_of_dirty_images).
    apply list_elem_of_fmap in Hi' as (pg & Ei & Hpg). specialize (Hx pg Hpg). cbn in Ei. congruence. }
  eapply runs_mono; [apply write_dirty_page_batch_runs; [by split_and!; [|apply Hs..]| |exact Hnd]|..].
  - rewrite Hp. apply Forall_app. split; [by apply dirty_images_writable|done].
  - intros Hr. apply HF. intros Hr'. by apply Hr, (step_cache s c').
  - intros [] s' (Hst & Hc & Hb). assert (Hcs : cached (cache s') = cleaned ids (cached (cache s))) by (by rewrite Hc).
    assert (Hstep : step s s') by (etrans; [apply step_cache|exact Hst]). apply HQ; [|done|done|..].
    + eapply (flushed_coherent ids extra s s' c' pages); try done; [by apply step_config|]. destruct Hstep as [E' _]. by rewrite E'.
    + intros j Hj. by eapply flushed_held.
    + intros j p Hj. rewrite Forall_forall in Hw. destruct (Hw _ Hj) as [Hh Hf].
      destruct (flushed_held ids extra s s' pages j Hcs Hp Hx Hb Hh) as [_ H2]. by apply H2.
Qed.

Lemma write_evicted_runs page pending s :
  coherent s -> writable (page_id page, page) -> cached (cache s) !! page_id page = None ->
  runs (write_evicted_dirty_page crc32 iter page pending) s (~ ready s) (fun _ s' =>
    coherent s' /\ step s s' /\ holds_with s s' (page_id page) (Some page)).
Proof.
  intros Hs Hw Hn. unfold write_evicted_dirty_page. apply runs_bind. unfold runs at 1, gets.
  apply (flush_batch_runs _ [(page_id page, page)] sort_pages); [done| | | | | |done|].
  - apply eviction_batch_nodup, Hs.
  - intros l. apply merge_sort_Permutation.
  - by apply Forall_singleton.
  - apply NoDup_singleton.
  - by intros pg ->%list_elem_of_singleton.
  - intros s' Hc' Hst _ Ho Hi. split_and!; [done|done|]. intros j Hj. case_decide as E.
    + subst j. apply Hi. by apply list_elem_of_singleton.
    + apply Ho; [done|]. cbn. by intros ?%list_elem_of_singleton.
Qed.

(** *** Inserting into the cache *)

(** A page that may enter the cache: a dirty one that may be written, or the clean one of the file *)
Definition insertable (s : Pager W) (id : Z) (page : bytes) (d : bool) : Prop :=
  if d then writable (id, page) /\ id ∉ free_pages (freelist s)
  else cached (cache s) !! id = None /\ (home id -> page_at (live (file s)) id = Some page).

Lemma insert_coherent s c' m id e :
  coherent s -> cache_wf c' -> cached c' = <[id := e]> m -> m ⊆ cached (cache s) ->
  (PageCache.dirty e = true -> writable (id, entry_page e) /\ id ∉ free_pages (freelist s)) ->
  (PageCache.dirty e = false -> home id -> page_at (live (file s)) id = Some (entry_page e)) ->
  coherent (set_cache c' s).
Proof.
  intros Hs Hw Hc Hm Hd Hcl. split; cbn [cache file config set_cache]; [done|apply Hs|apply Hs|..]; intros j e'; rewrite Hc;
    intros [[-> ->]|[_ Hj]]%lookup_insert_Some.
  - done.
  - apply (co_dirty s Hs). by eapply lookup_weaken.
  - done.
  - apply (co_clean s Hs). by eapply lookup_weaken.
Qed.

(** Nothing but [id] has entered the cache or changed in it. *)
Definition cache_grows (ids : list Z) (c c' : PageCache) : Prop :=
  forall j e, cached c' !! j = Some e -> j ∈ ids \/ cached c !! j = Some e.

Lemma insert_spec s id page (d : bool) :
  coherent s -> insertable s id page d ->
  exists c' out, on_shard id (insert_inner id page d d) (cache s) = (c', Ok out) /\ coherent (set_cache c' s) /\
    cache_grows [id] (cache s) c' /\
    match out with
    | None => holds_with s (set_cache c' s) id (fitting id (Some page))
    | Some p => writable (page_id p, p) /\ cached c' !! page_id p = None /\ page_id p <> id /\ held s (page_id p) = Some p /\
        (exists e, cached (cache s) !! page_id p = Some e /\ PageCache.dirty e = true) /\
        forall j, home j -> j <> page_id p -> held (set_cache c' s) j = if decide (j = id) then fitting id (Some page) else held s j
    end.
Proof.
  intros Hs Hi. destruct (cache_insert_inner_ok (cache s) id page d d (co_cache s Hs)) as (c' & out & E & Hw & Hc).
  exists c', out. split; [exact E|]. destruct (cached (cache s) !! id) as [e|] eqn:Ei.
  { destruct d; [|by destruct Hi; congruence]. destruct Hc as [-> Hc]. split_and!.
    - eapply insert_coherent; [done|done|exact Hc|done|done|]. cbn. by rewrite orb_true_r.
    - intros j e' Hj. rewrite Hc, lookup_insert_Some in Hj. rewrite list_elem_of_singleton. naive_solver.
    - intros j Hj. unfold held, view. cbn [cache set_cache file]. rewrite Hc. case_decide as Ej; [subst j; by rewrite lookup_insert_eq|].
      by rewrite lookup_insert_ne. }
  destruct Hc as (v & Hc & -> & Hv). assert (Hsub : without v (cached (cache s)) ⊆ cached (cache s)).
  { destruct v; [apply delete_subseteq|done]. }
  split.
  { eapply insert_coherent; [done|done|exact Hc|done|..]; unfold CacheEntry_new; cbn; intros ->; [exact Hi|]. intros Hh. by apply Hi. }
  split.
  { intros j e' Hj. rewrite Hc in Hj. apply lookup_insert_Some in Hj as [[-> _]|[_ Hj]]; [left; by apply list_elem_of_singleton|right].
    by eapply lookup_weaken. }
  assert (Hold : forall j, home j -> (forall w, v = Some w -> j = w -> exists e, cached (cache s) !! w = Some e /\ PageCache.dirty e = false) ->
    held (set_cache c' s) j = if decide (j = id) then fitting id (Some page) else held s j).
  { intros j Hj Hvj. unfold held, view. cbn [cache set_cache file]. rewrite Hc. case_decide as Ej; [subst j; by rewrite lookup_insert_eq|].
    rewrite lookup_insert_ne by done. destruct v as [w|]; [|done]. cbn. destruct (decide (j = w)) as [->|]; [|by rewrite lookup_delete_ne].
    destruct (Hvj w eq_refl eq_refl) as (e & Ee & Ed). rewrite lookup_delete_eq, Ee. by rewrite (co_clean s Hs w e). }
  destruct v as [w|]; cbn; [|by intros j Hj; apply Hold].
  destruct (Hv w eq_refl) as (e & Ee & _). rewrite Ee. cbn. unfold evicted_of. destruct (PageCache.dirty e) eqn:Ed.
  2:{ intros j Hj. apply Hold; [done|]. intros w' [= <-] _. by exists e. }
  destruct (co_dirty s Hs w e Ee Ed) as [[Hh [Hl Hid]] _]. cbn in Hh, Hl, Hid. rewrite Hid. split_and!.
  - by split.
  - rewrite Hc, lookup_insert_ne by congruence. cbn. by rewrite lookup_delete_eq.
  - congruence.
  - unfold held, view. rewrite Ee. by apply fitting_fits.
  - by exists e.
  - intros j Hj Hne. apply Hold; [done|]. intros w' [= <-] ?. done.
Qed.

Lemma insert_runs s id page (d : bool) pending :
  coherent s -> insertable s id page d ->
  runs (evicted ← on_cache (on_shard id (insert_inner id page d d)); write_back crc32 iter evicted pending) s (~ ready s) (fun _ s' =>
    coherent s' /\ step s s' /\ holds_with s s' id (fitting id (Some page))).
Proof.
  intros Hs Hi. destruct (insert_spec s id page d Hs Hi) as (c' & out & E & Hc & _ & Ho). apply runs_bind.
  eapply on_cache_runs; [exact E|]. destruct out as [p|]; cbn [write_back].
  - destruct Ho as (Hw & Hn & Hne & Hp & _ & Ho). eapply runs_mono; [by apply write_evicted_runs|..].
    + intros Hr Hr'. by apply Hr, (step_cache s c').
    + intros [] s' (H1 & H2 & H3). split_and!; [done|by etrans; [apply step_cache|]|]. intros j Hj. rewrite H3 by done.
      case_decide as Ej; [subst j|by apply Ho]. by rewrite decide_False.
  - split_and!; [done|apply step_cache|done].
Qed.

(** *** Reading *)

(** The checksum of a page, where the pager looks at it *)
Definition intact (s : Pager W) (p : bytes) : Prop := verify_checksums (config s) = true -> verify_checksum crc32 p = Ok tt.

Definition readable (s : Pager W) (id : Z) : Prop := exists p, view s id = Some p /\ intact s p.


(** The pages of the two states are the same. *)
Definition same_held (s s' : Pager W) : Prop := forall j, home j -> held s' j = held s j.

Lemma coherent_cache s c : coherent s -> cache_wf c -> cached c = cached (cache s) -> coherent (set_cache c s) /\ same_held s (set_cache c s).
Proof.
  intros Hs Hw Hc. split.
  - split; cbn [cache set_cache file config]; rewrite ?Hc; first [done|apply Hs].
  - intros j _. unfold held, view. cbn [cache set_cache file]. by rewrite Hc.
Qed.

Lemma coherent_file s f : coherent s -> live f = live (file s) -> coherent (set_file f s) /\ same_held s (set_file f s).
Proof.
  intros Hs Hf. split.
  - split; cbn [cache set_file file config]; rewrite ?Hf; apply Hs.
  - intros j _. unfold held, view. cbn [cache set_file file]. by rewrite Hf.
Qed.

Lemma cache_get_runs id s F Q :
  coherent s ->
  (forall s', coherent s' -> step s s' -> same_held s s' -> file s' = file s -> cached (cache s') = cached (cache s) ->
    Q (entry_page <$> cached (cache s) !! id) s') ->
  runs (on_cache (cache_get id)) s F Q.
Proof.
  intros Hs HQ. destruct (cache_get_ok (cache s) id (co_cache s Hs)) as (c' & E & Hw & Hc).
  eapply on_cache_runs; [exact E|]. destruct (coherent_cache s c' Hs Hw Hc). apply HQ; [done|apply step_cache|done|done|done].
Qed.

Lemma load_page_runs id verify load s :
  coherent s -> (forall t, config t = config s -> load t = on_file (PagerIo.read_page crc32 id verify) t) ->
  runs (load_page crc32 iter id load) s
    (~ (ready s /\ exists p, view s id = Some p /\ (verify = true -> verify_checksum crc32 p = Ok tt)))
    (fun p s' => coherent s' /\ step s s' /\ same_held s s' /\ view s id = Some p).
Proof.
  intros Hs Hld. unfold load_page, view. apply runs_bind, cache_get_runs; [done|]. intros s1 H1 St1 Sh1 Hf1 Hc1.
  destruct (cached (cache s) !! id) as [e|] eqn:Ei; cbn [fmap option_fmap option_map]; [done|].
  apply runs_bind, cache_get_runs; [done|]. intros s2 H2 St2 Sh2 Hf2 Hc2. rewrite Hc1, Ei. cbn [fmap option_fmap option_map].
  apply runs_bind. pose proof (read_file_runs crc32 id verify (file s2)) as Hr.
  unfold runs at 1. rewrite Hld by (by rewrite (step_config _ _ St2), (step_config _ _ St1)). unfold on_file, within. unfold runs in Hr.
  assert (Ef : file s2 = file s) by congruence. rewrite Ef in *.
  destruct (PagerIo.read_page crc32 id verify (file s)) as [f' [page|e|]]; cbn [map_err]; [| |done].
  2:{ intros [[Hfa _] (p & Ep & Ev)]. destruct (Hr p Hfa Ep) as [Hv Hn]. by apply Hn, Ev. }
  destruct Hr as (Ep & Hl & Hfa). destruct (coherent_file s2 f' H2 ltac:(by rewrite Ef)) as [H3 Sh3].
  assert (St : step s (set_file f' s2)).
  { etrans; [exact St1|]. etrans; [exact St2|]. split_and!; [apply same_rest_file| |].
    - intros Hr2. split; [|done]. apply ready_file; [done|]. apply Hfa. rewrite <-Ef. apply Hr2.
    - cbn [file set_file]. by rewrite Hl, Ef. }
  assert (Hin : insertable (set_file f' s2) id page false).
  { split; cbn [cache set_file file]; [by rewrite Hc2, Hc1|]. intros _. by rewrite Hl. }
  change (cache_insert_if_absent id page) with (on_shard id (insert_inner id page false false)).
  pose proof (insert_runs (set_file f' s2) id page false None H3 Hin) as Hi.
  apply (runs_assoc (on_cache (on_shard id (insert_inner id page false false))) (fun evicted => write_back crc32 iter evicted None) (fun _ => mret page)).
  apply runs_bind. eapply runs_mono; [exact Hi|..].
  - intros Hn [Hr _]. by apply Hn, St.
  - intros _ s' (H4 & St4 & Ho). unfold runs, mret, eff_ret. split_and!; [done|by etrans|..|done]. intros j Hj. rewrite Ho by done.
    transitivity (held (set_file f' s2) j).
    + case_decide as Ej; [|done]. subst j. unfold held, view. cbn [cache set_file file]. by rewrite Hc2, Hc1, Ei, Hl, Ep.
    + by rewrite Sh3, Sh2, Sh1.
Qed.

Lemma read_page_runs id s :
  coherent s ->
  runs (read_page crc32 iter id) s (~ (ready s /\ readable s id))
    (fun p s' => coherent s' /\ step s s' /\ same_held s s' /\ view s id = Some p).
Proof.
  intros Hs. unfold read_page. apply runs_bind. unfold runs at 1, gets, recovery_image. rewrite (co_writer s Hs).
  apply (load_page_runs id (verify_checksums (config s))); [done|]. intros t Et. unfold read_page_raw, mbind, eff_bind, gets. by rewrite Et.
Qed.

(** *** Writing *)

Lemma record_runs {A} (m : eff W string A) s (F : Prop) (Q : A -> Pager W -> Prop) :
  (m (wal s)).2 <> Panic -> (forall w' e, m (wal s) = (w', Err e) -> F) ->
  (forall w' a, m (wal s) = (w', Ok a) -> Q a (set_wal w' s)) -> runs (record_ownership m) s F Q.
Proof. intros H1 H2 H3. apply on_err_runs; [by intros|]. by apply on_wal_runs. Qed.

Lemma coherent_wal s w : coherent s -> coherent (set_wal w s) /\ same_held s (set_wal w s).
Proof. intros Hs. by destruct s, Hs. Qed.

(** A call of the log that an accepting log answers *)
Lemma does_step {A} (m : eff W string A) s w' a P :
  (accepts (wal s) -> log_does m (wal s) P) -> m (wal s) = (w', Ok a) -> step s (set_wal w' s) /\ (ready s -> P a).
Proof.
  intros Ha E.
  assert (Hd : ready s -> accepts w' /\ (forall id, fresh w' id = fresh (wal s) id) /\ P a).
  { intros (_ & _ & Hac). destruct (Ha Hac) as (w1 & a1 & E1 & ? & ? & ?). rewrite E in E1. by injection E1 as <- <-. }
  split; [|intros Hr; apply (Hd Hr)]. split_and!; [apply same_rest_wal| |done]. intros Hr. destruct (Hd Hr) as (? & ? & _).
  destruct Hr as (? & ? & _). by split_and!.
Qed.

Lemma does_not_fail {A} (m : eff W string A) s w' e P : (accepts (wal s) -> log_does m (wal s) P) -> m (wal s) = (w', Err e) -> ~ ready s.
Proof. intros Ha E (_ & _ & Hac). destruct (Ha Hac) as (? & ? & ? & _). congruence. Qed.

(** The image of a page can be taken when the log does not need it, or the page can be read. *)
Definition replaceable (s : Pager W) (id : Z) : Prop := fresh (wal s) id = true \/ readable s id.

Lemma capture_runs id s :
  coherent s ->
  runs (capture_page_before_write crc32 iter id) s (~ (ready s /\ replaceable s id)) (fun _ s' => coherent s' /\ step s s' /\ same_held s s').
Proof.
  intros Hs. destruct Hlog as (_ & Hn & Hcp & _). destruct Hcalm as (_ & Hcn & Hcc & _). apply runs_bind, record_runs; [apply Hcn|..].
  - intros w' e E [Hr _]. by eapply does_not_fail; [apply (Hn (wal s) id)|..].
  - intros w1 required E1. destruct (coherent_wal s w1 Hs) as [H1 Sh1].
    destruct (does_step _ s w1 required _ (Hn (wal s) id) E1) as [St1 Hreq]. destruct required; [|done].
    apply runs_bind. eapply runs_mono; [by apply read_page_runs|..].
    { intros Hx [Hr [Hf|Hrd]]; [by rewrite (Hreq Hr eq_refl) in Hf|]. apply Hx. split; [by apply St1|exact Hrd]. }
    intros p s2 (H2 & St2 & Sh2 & _). assert (St : step s s2) by (by etrans).
    apply record_runs; [apply Hcc|..].
    { intros w' e E [Hr _]. eapply does_not_fail; [apply (Hcp (wal s2) p)|exact E|by apply St]. }
    intros w3 [] E3. destruct (coherent_wal s2 w3 H2) as [H3 Sh3]. destruct (does_step _ s2 w3 tt _ (Hcp (wal s2) p) E3) as [St3 _].
    split_and!; [done|by etrans|]. intros j Hj. by rewrite Sh3, Sh2, Sh1.
Qed.

Lemma available_runs s (F : Prop) (Q : unit -> Pager W -> Prop) :
  (~ ready s -> F) -> Q tt s -> runs ensure_writeback_available s F Q.
Proof.
  intros HF HQ. unfold runs, ensure_writeback_available. destruct (writeback_failed s) eqn:E; [|done].
  apply HF. intros (_ & ? & _). congruence.
Qed.

Lemma writable_runs s (F : Prop) (Q : unit -> Pager W -> Prop) : coherent s -> Q tt s -> runs ensure_writable s F Q.
Proof. intros Hs HQ. unfold runs, ensure_writable. by rewrite (co_writer s Hs). Qed.

Lemma fits_update_checksum id page : fits id page -> fits id (update_checksum crc32 page).
Proof.
  intros [Hl Hi]. split; [by rewrite zlen_update_checksum|]. rewrite <-Hi. apply resealed_page_id, resealed_update_checksum.
Qed.

Lemma insert_dirty_runs id page s :
  coherent s -> home id -> fits id page -> id ∉ free_pages (freelist s) ->
  runs (insert_dirty_page crc32 iter id page) s (~ ready s) (fun _ s' =>
    coherent s' /\ step s s' /\ holds_with s s' id (Some page)).
Proof.
  intros Hs Hh Hf Hn. rewrite <-(fitting_fits id page Hf). apply (insert_runs s id page true (Some id) Hs). by split; [split|].
Qed.

Lemma write_page_runs id page s :
  coherent s -> home id -> fits id page -> id ∉ free_pages (freelist s) ->
  runs (write_page crc32 iter id page) s (~ (ready s /\ replaceable s id)) (fun _ s' =>
    coherent s' /\ step s s' /\ holds_with s s' id (Some (update_checksum crc32 page))).
Proof.
  intros Hs Hh Hf Hnf. apply runs_bind, available_runs; [tauto|]. apply runs_bind, writable_runs; [done|].
  apply runs_bind. eapply runs_mono; [by apply capture_runs|done|]. intros [] s1 (H1 & St1 & Sh1).
  eapply runs_mono; [apply insert_dirty_runs; [done|done|by apply fits_update_checksum|by destruct St1 as [-> _]]|intros Hn [Hr _]; by apply Hn, St1|].
  intros [] s2 (H2 & St2 & Ho). split_and!; [done|by etrans|]. intros j Hj. rewrite Ho by done. case_decide; [done|by apply Sh1].
Qed.

(** *** Allocation *)

(** What holds of the rest of the state after any operation on pages: a ready pager stays ready, the
    reserved pages are kept, of the header at most the page count changes, and changes of the header
    and the free list mark them dirty. *)
Definition onward (s s' : Pager W) : Prop :=
  (ready s -> ready s') /\ config s' = config s /\ reserved_kept (live (file s)) (live (file s')) /\
  db_header s' = with_page_count (page_count (db_header s')) (db_header s) /\
  (header_dirty s' = false -> header_dirty s = false /\ db_header s' = db_header s) /\
  (FreeList.dirty (freelist s') = false -> freelist s' = freelist s).

#[local] Instance onward_preorder : PreOrder onward.
Proof.
  split.
  - intros s. split_and!; [done|done|done| |done|done]. by destruct (db_header s).
  - intros s1 s2 s3 (R1 & C1 & K1 & H1 & D1 & L1) (R2 & C2 & K2 & H2 & D2 & L2). split_and!; [auto|congruence| | | |].
    + by etrans.
    + rewrite H2, H1. done.
    + intros Hd. destruct (D2 Hd) as [Hd' E2]. destruct (D1 Hd') as [? E1]. split; [done|congruence].
    + intros Hd. pose proof (L2 Hd) as E2. rewrite E2 in *. auto.
Qed.

Lemma step_onward s s' : step s s' -> onward s s'.
Proof.
  intros (E & Hr & Hk). split_and!; [intros Hrd; apply (Hr Hrd)|by rewrite E|done| | |]; rewrite E; [|done|done]. cbn. by destruct (db_header s).
Qed.

(** The free numbers in memory are allocatable and distinct, and none is the head trunk. *)
Record allocator (s : Pager W) : Prop := {
  al_fence : allocation_fence_pending s = false;
  al_deferred : enabled (deferred_reclamation s) = false;
  al_count : FIRST_ALLOCATABLE_PAGE <= page_count (db_header s) <= U32_MAX;
  al_nodup : NoDup (free_pages (freelist s));
  al_head : u32_ok (trunk_head (freelist s)) /\ trunk_head (freelist s) ∉ free_pages (freelist s);
  al_free : Forall (fun id => FIRST_ALLOCATABLE_PAGE <= id < page_count (db_header s)) (free_pages (freelist s));
}.

Lemma allocator_rest s s' : same_rest s s' -> allocator s -> allocator s'.
Proof. intros E Ha. rewrite E. by destruct s, Ha. Qed.

Lemma home_allocatable s id : allocator s -> FIRST_ALLOCATABLE_PAGE <= id <= page_count (db_header s) -> id <= U32_MAX -> home id.
Proof.
  intros Ha Hi Hu. unfold home, u32_ok. unfold FIRST_ALLOCATABLE_PAGE, DWB_ZONE_START_PAGE, DWB_ZONE_PAGES, U32_MAX in *. lia.
Qed.

(** The numbers in use: in the range, neither free nor the head trunk *)
Definition in_use (s : Pager W) (id : Z) : Prop :=
  FIRST_ALLOCATABLE_PAGE <= id < page_count (db_header s) /\ (id ∉ free_pages (freelist s)) /\ id <> trunk_head (freelist s).

(** A number that was free or behind the end is in use now. *)
Definition takes (s s' : Pager W) (id : Z) : Prop :=
  ~ in_use s id /\ home id /\ FIRST_ALLOCATABLE_PAGE <= id /\ (forall j, in_use s' j <-> j = id \/ in_use s j).

(** How many more numbers there are *)
Definition spare (s : Pager W) : Z := zlen (free_pages (freelist s)) + (U32_MAX - page_count (db_header s)).

Lemma last_snoc_inv {A} (l : list A) x : last l = Some x -> exists l', l = l' ++ [x].
Proof. induction l as [|y l _] using rev_ind; [done|]. rewrite last_snoc. intros [= ->]. by exists l. Qed.

Lemma coherent_ext s s' :
  cache s' = cache s -> file s' = file s -> config s' = config s ->
  (forall id, id ∈ free_pages (freelist s') -> id ∈ free_pages (freelist s)) -> coherent s -> coherent s' /\ same_held s s'.
Proof.
  intros Ec Ef Eg El Hs. split; [|intros j _; unfold held, view; by rewrite Ec, Ef].
  split; rewrite ?Ec, ?Ef, ?Eg; try apply Hs. intros id e Ee Ed. destruct (co_dirty s Hs id e Ee Ed) as [? ?]. split; [done|auto].
Qed.

Lemma take_free_page s s' id rest :
  allocator s -> free_pages (freelist s) = rest ++ [id] ->
  freelist s' = (allocate (freelist s)).1 -> db_header s' = db_header s ->
  allocation_fence_pending s' = allocation_fence_pending s -> deferred_reclamation s' = deferred_reclamation s ->
  allocator s' /\ takes s s' id /\ spare s' = spare s - 1.
Proof.
  intros Ha El Ef Eh Ep Ed. unfold allocate in Ef. rewrite El, vec_pop_snoc in Ef.
  pose proof (al_nodup s Ha) as Hn. pose proof (al_free s Ha) as Hf. rewrite El in Hn, Hf.
  apply NoDup_app in Hn as (Hn & Hd & _). apply Forall_app in Hf as [Hf [Hid _]%Forall_cons].
  assert (Hni : id ∉ rest) by (intros Hi; by apply (Hd id Hi), list_elem_of_singleton).
  split_and!.
  - split; rewrite ?Ep, ?Ed, ?Eh, ?Ef; cbn; [apply Ha..|done| |done]. destruct (al_head s Ha) as [? Hh]. split; [done|].
    rewrite El, elem_of_app in Hh. tauto.
  - unfold takes, in_use. rewrite Eh, Ef, El. cbn. split_and!.
    + intros (_ & Hx & _). apply Hx, elem_of_app. right. by apply list_elem_of_singleton.
    + eapply home_allocatable; [done|lia|]. pose proof (al_count s Ha). lia.
    + lia.
    + intros j. destruct (al_head s Ha) as [_ Hh]. rewrite El, elem_of_app, list_elem_of_singleton in Hh.
      rewrite elem_of_app, list_elem_of_singleton. destruct (decide (j = id)) as [->|]; [|tauto]. split; [by left|]. intros _. split_and!; [lia|lia|done|naive_solver].
  - unfold spare. rewrite Eh, Ef, El. cbn. rewrite zlen_app. change (zlen [id]) with 1. lia.
Qed.

Lemma extend_takes s s' :
  allocator s -> trunk_head (freelist s) = 0 -> free_pages (freelist s) = [] -> page_count (db_header s) + 1 <= U32_MAX ->
  freelist s' = freelist s -> page_count (db_header s') = page_count (db_header s) + 1 ->
  allocation_fence_pending s' = allocation_fence_pending s -> deferred_reclamation s' = deferred_reclamation s ->
  allocator s' /\ takes s s' (page_count (db_header s)) /\ spare s' = spare s - 1.
Proof.
  intros Ha Htr El Hu Ef Eh Ep Ed. pose proof (al_count s Ha) as Hc. split_and!.
  - split; rewrite ?Ep, ?Ed, ?Eh, ?Ef, ?El; [apply Ha..|lia|constructor| |constructor]. rewrite Htr. unfold u32_ok. split; [lia|apply not_elem_of_nil].
  - unfold takes, in_use. rewrite Eh, Ef, El. rewrite Htr. split_and!; [lia|eapply home_allocatable; [done|lia|lia]|lia|].
    intros j. rewrite elem_of_nil. change FIRST_ALLOCATABLE_PAGE with 67 in *. lia.
  - unfold spare. rewrite Eh, Ef. lia.
Qed.

(** The log has recorded [id] as reserved, and nothing else. *)
Definition reserves (s s' : Pager W) (id : Z) : Prop :=
  ready s -> forall j, fresh (wal s') j = bool_decide (j = id) || fresh (wal s) j.

Lemma allocate_page_id_runs s :
  coherent s -> allocator s -> trunk_head (freelist s) = 0 -> 0 < spare s ->
  runs (allocate_page_id crc32 iter) s (~ ready s) (fun id s' =>
    coherent s' /\ allocator s' /\ onward s s' /\ same_held s s' /\
    takes s s' id /\ trunk_head (freelist s') = trunk_head (freelist s) /\ spare s' = spare s - 1 /\ reserves s s' id).
Proof.
  intros Hs Ha Htr Hsp. unfold allocate_page_id, complete_allocation_fence. apply runs_bind, runs_bind. unfold runs at 1, gets.
  rewrite (al_fence s Ha). unfold runs at 1, mret, eff_ret. apply runs_bind. unfold runs at 1, next_in_memory_page.
  destruct Hlog as (_ & _ & _ & Hr & _). destruct Hcalm as (_ & _ & _ & Hcr & _).
  assert (Hfail : forall a w' e, 0 <= a -> a + 1 <= U32_MAX -> reserve_pages a 1 (wal s) = (w', Err e) -> ~ ready s).
  { intros a w' e H0 H1 E (_ & _ & Hac). destruct (Hr (wal s) a 1 H0 ltac:(lia) H1 Hac) as (? & ? & _). congruence. }
  assert (Hstep : forall a w', 0 <= a -> a + 1 <= U32_MAX -> reserve_pages a 1 (wal s) = (w', Ok tt) ->
    (ready s -> ready (set_wal w' s)) /\ forall s', wal s' = w' -> reserves s s' a).
  { intros a w' H0 H1 E. assert (Hd : ready s -> accepts w' /\ forall j, fresh w' j = bool_decide (j = a) || fresh (wal s) j).
    { intros (_ & _ & Hac). destruct (Hr (wal s) a 1 H0 ltac:(lia) H1 Hac) as (w1 & E1 & ? & Hfr). rewrite E in E1. injection E1 as <-. split; [done|]. intros j. rewrite Hfr.
      f_equal. apply eq_true_iff_eq. rewrite andb_true_iff, bool_decide_eq_true. lia. }
    split; [intros Hrd; destruct (Hd Hrd) as [? _]; destruct Hrd as (? & ? & _); by split_and!|]. intros s' <- Hrd. by apply Hd. }
  destruct (last (free_pages (freelist s))) as [id|] eqn:El.
  - apply last_snoc_inv in El as [rest El]. assert (Hid : 0 <= id /\ id + 1 <= U32_MAX).
    { pose proof (al_free s Ha) as Hf. rewrite El, Forall_app, Forall_singleton in Hf. destruct Hf as [_ Hf]. pose proof (al_count s Ha).
      unfold FIRST_ALLOCATABLE_PAGE, DWB_ZONE_START_PAGE, DWB_ZONE_PAGES in *. lia. }
    apply runs_bind, record_runs; [apply Hcr|intros w' e; apply Hfail; lia|]. intros w' [] E.
    apply runs_bind. unfold runs at 1, pop_free_page, allocate. cbn [freelist set_wal]. rewrite El, vec_pop_snoc.
    unfold lift. apply runs_bind. unfold runs at 1. apply runs_bind. unfold runs at 1, modify. unfold runs, mret, eff_ret.
    match goal with |- coherent ?x /\ _ => set (s' := x) end.
    destruct (coherent_ext s s' eq_refl eq_refl eq_refl) as [H1 Sh]; [cbn; rewrite El; intros j; rewrite elem_of_app; tauto|done|].
    destruct (Hstep _ _ (proj1 Hid) (proj2 Hid) E) as [Hrd Hres]. destruct (take_free_page s s' id rest Ha El) as (H2 & H3 & H4); [|done|done|done|].
    + unfold allocate. by rewrite El, vec_pop_snoc.
    + split_and!; [done|done| |done|done|reflexivity|done|by apply Hres]. split_and!; [exact Hrd|done|done| |done|done]. cbn. by destruct (db_header s).
  - rewrite Htr. cbn [Z.eqb negb]. apply last_None in El. unfold extend_file. apply runs_bind. unfold runs at 1, gets.
    assert (Hu : page_count (db_header s) + 1 <= U32_MAX) by (unfold spare in Hsp; rewrite El in Hsp; change (zlen (@nil Z)) with 0 in Hsp; lia).
    destruct (Z.ltb_spec U32_MAX (page_count (db_header s) + 1)); [lia|].
    pose proof (al_count s Ha) as Hcnt. assert (Hpc : 0 <= page_count (db_header s)) by (unfold FIRST_ALLOCATABLE_PAGE, DWB_ZONE_START_PAGE, DWB_ZONE_PAGES in *; lia).
    apply runs_bind, record_runs; [apply Hcr|intros w' e; apply Hfail; lia|]. intros w' [] E.
    apply runs_bind. unfold runs at 1, change_header, modify. unfold runs, mret, eff_ret.
    match goal with |- coherent ?x /\ _ => set (s' := x) end.
    destruct (coherent_ext s s' eq_refl eq_refl eq_refl (fun _ Hj => Hj) Hs) as [H1 Sh]. destruct (Hstep _ _ Hpc Hu E) as [Hrd Hres].
    destruct (extend_takes s s' Ha Htr El Hu) as (H2 & H3 & H4); [done..|]. split_and!; [done|done|by split_and!|done|done|exact Htr|done|by apply Hres].
Qed.

Lemma fits_Page_new t id : u32_ok id -> fits id (Page_new t id).
Proof. intros Hu. split; [apply zlen_Page_new|]. by destruct (Page_new_fields t id Hu) as (_ & _ & _ & _ & ?). Qed.

Lemma allocate_page_runs t s :
  coherent s -> allocator s -> trunk_head (freelist s) = 0 -> 0 < spare s ->
  runs (allocate_page crc32 iter t) s (~ ready s) (fun p s' => exists id, p = Page_new t id /\
    coherent s' /\ allocator s' /\ onward s s' /\
    holds_with s s' id (Some p) /\ takes s s' id /\ trunk_head (freelist s') = trunk_head (freelist s) /\ spare s' = spare s - 1 /\
    reserves s s' id).
Proof.
  intros Hs Ha Htr Hsp. apply runs_bind, available_runs; [done|]. apply runs_bind, writable_runs; [done|].
  apply runs_bind. eapply runs_mono; [by apply allocate_page_id_runs|done|].
  intros id s1 (H1 & Ha1 & On1 & Sh1 & Ht & Htr1 & Hsp1 & Hres). assert (Hh : home id) by apply Ht. apply runs_bind.
  eapply runs_mono; [apply insert_dirty_runs; [done|done|apply fits_Page_new, Hh|by destruct Ht as (_ & _ & _ & T4); destruct (proj2 (T4 id) (or_introl eq_refl)) as (_ & ? & _)]|intros Hn Hr; by apply Hn, On1|].
  intros [] s2 (H2 & Hst2 & Ho). pose proof (proj1 Hst2) as St2. exists id. assert (Hin : forall j, in_use s2 j <-> in_use s1 j) by (intros j; unfold in_use; by rewrite St2).
  split_and!; [done|done|by eapply allocator_rest|by etrans; [|apply step_onward]|..].
  - intros j Hj. rewrite Ho by done. case_decide; [done|by apply Sh1].
  - destruct Ht as (T1 & T2 & T3 & T4). split_and!; [done|done|done|]. intros j. by rewrite Hin.
  - by rewrite <-Htr1, St2.
  - rewrite <-Hsp1. unfold spare. by rewrite St2.
  - intros Hr j. rewrite <-(Hres Hr j). by apply Hst2, On1.
Qed.

(** *** Freeing *)

Lemma free_page_runs id s :
  coherent s -> allocator s -> in_use s id ->
  runs (free_page id) s (~ ready s) (fun _ s' =>
    coherent s' /\ allocator s' /\ onward s s' /\
    (forall j, home j -> j <> id -> held s' j = held s j) /\
    (forall j, in_use s' j <-> in_use s j /\ j <> id) /\ trunk_head (freelist s') = trunk_head (freelist s) /\ spare s' = spare s + 1 /\
    (ready s -> forall j, fresh (wal s') j = fresh (wal s) j)).
Proof.
  intros Hs Ha (Hid & Hnf & Hnt). apply runs_bind, available_runs; [done|]. apply runs_bind, writable_runs; [done|].
  apply runs_bind. unfold runs at 1, gets. rewrite (al_deferred s Ha).
  destruct Hlog as (_ & _ & _ & _ & Hr). destruct Hcalm as (_ & _ & _ & _ & Hcr). apply runs_bind, record_runs; [apply Hcr|..].
  { intros w' e E. by eapply does_not_fail; [apply (Hr (wal s) [id])|]. }
  intros w' [] E. destruct (does_step _ s w' tt _ (Hr (wal s) [id]) E) as [Hst _]. destruct (cache_remove_ok (cache s) id (co_cache s Hs)) as (c' & Ec & Hw & Hc).
  apply runs_bind. eapply on_cache_runs; [exact Ec|]. unfold runs, modify.
  match goal with |- coherent ?x /\ _ => set (s' := x) end. assert (Hcs : cached (cache s') = base.delete id (cached (cache s))) by exact Hc.
  split_and!.
  - split; [exact Hw|apply Hs|apply Hs|..]; intros j e; rewrite Hcs; intros [Hj Ej]%lookup_delete_Some; [|by apply (co_clean s Hs)].
    intros Ed. destruct (co_dirty s Hs j e Ej Ed) as [? ?]. split; [done|]. cbn. rewrite elem_of_app, list_elem_of_singleton. naive_solver.
  - split; cbn; [apply Ha..| | |].
    + apply NoDup_app. split_and!; [apply Ha| |apply NoDup_singleton]. intros j Hj ->%list_elem_of_singleton. done.
    + destruct (al_head s Ha) as [? ?]. split; [done|]. rewrite elem_of_app, list_elem_of_singleton. naive_solver.
    + apply Forall_app. split; [apply Ha|]. by apply Forall_singleton.
  - split_and!; [|done|done| |done|done]; [|cbn; by destruct (db_header s)].
    intros Hrd. by apply Hst.
  - intros j Hj Hne. unfold held, view. rewrite Hcs. by rewrite lookup_delete_ne.
  - intros j. unfold in_use, s'. cbn. rewrite elem_of_app, list_elem_of_singleton. tauto.
  - done.
  - unfold spare, s'. cbn. rewrite zlen_app. change (zlen [id]) with 1. lia.
  - intros Hrd. by apply Hst.
Qed.

(** *** The contract *)

Context (Hcrc : forall b, u32_ok (crc32 b)).

(** What else the user of the pager keeps track of *)
Context (boot : Pager W -> Prop).
Context (Hboot : forall s s', onward s s' -> coherent s -> coherent s' -> allocator s' -> boot s -> boot s').

(** A pager that works: nothing fails, and its parts agree. *)
Definition sound_pager (s : Pager W) : Prop := coherent s /\ allocator s /\ ready s /\ boot s.

(** The numbers in use that have a page, and those pages that can be read back *)
Definition used_pages (s : Pager W) : gset Z :=
  list_to_set (filter (fun id => is_Some (held s id) /\ (id ∉ free_pages (freelist s)) /\ id <> trunk_head (freelist s))
    (seqZ FIRST_ALLOCATABLE_PAGE (page_count (db_header s) - FIRST_ALLOCATABLE_PAGE))).

#[local] Instance intact_dec s p : Decision (intact s p).
Proof. unfold intact. apply _. Defined.

Definition stored_pages (s : Pager W) : gmap Z bytes :=
  map_imap (fun id _ => p ← held s id; if decide (intact s p) then Some p else None) (gset_to_gmap tt (used_pages s)).

(** The pages that may be written: those that can be read, and those that the log has recorded as
    reserved *)
Definition writable_pages (s : Pager W) : gset Z :=
  filter (fun id => is_Some (stored_pages s !! id) \/ fresh (wal s) id = true) (used_pages s).

Lemma elem_of_writable_pages s id :
  id ∈ writable_pages s <-> id ∈ used_pages s /\ (is_Some (stored_pages s !! id) \/ fresh (wal s) id = true).
Proof. unfold writable_pages. rewrite elem_of_filter. tauto. Qed.

Lemma elem_of_used_pages s id : id ∈ used_pages s <-> in_use s id /\ is_Some (held s id).
Proof.
  unfold used_pages, in_use. rewrite elem_of_list_to_set, list_elem_of_filter, elem_of_seqZ.
  replace (FIRST_ALLOCATABLE_PAGE + (page_count (db_header s) - FIRST_ALLOCATABLE_PAGE)) with (page_count (db_header s)) by lia. tauto.
Qed.

Lemma lookup_stored_pages s id p : stored_pages s !! id = Some p <-> id ∈ used_pages s /\ held s id = Some p /\ intact s p.
Proof.
  unfold stored_pages. rewrite map_lookup_imap, bind_Some. split.
  - intros ([] & [Hu _]%lookup_gset_to_gmap_Some & E). destruct (held s id) as [q|]; [|done]. cbn in E. by case_decide; simplify_eq.
  - intros (Hu & Hh & Hi). exists tt. rewrite lookup_gset_to_gmap_Some. split; [done|]. rewrite Hh. cbn. by rewrite decide_True.
Qed.

Lemma in_use_home s id : allocator s -> in_use s id -> home id.
Proof. intros Ha [Hi _]. pose proof (al_count s Ha). eapply home_allocatable; [done|lia|lia]. Qed.

Lemma in_use_rest s s' j : same_rest s s' -> in_use s' j <-> in_use s j.
Proof. intros E. unfold in_use. by rewrite E. Qed.

(** States that differ at [id] only *)
Section at_one.
Context (s s' : Pager W) (id : Z) (Ha : allocator s) (Ha' : allocator s') (Hcfg : config s' = config s).
Context (Hheld : forall j, home j -> j <> id -> held s' j = held s j) (Huse : forall j, j <> id -> in_use s' j <-> in_use s j).

Lemma used_pages_ne j : j <> id -> j ∈ used_pages s' <-> j ∈ used_pages s.
Proof.
  intros Hj. rewrite !elem_of_used_pages. split; intros [Hu Hh]; (split; [by apply Huse|]).
  - rewrite <-Hheld; [done|by apply (in_use_home s')|done].
  - rewrite Hheld; [done|by apply (in_use_home s)|done].
Qed.

Lemma stored_pages_ne j : j <> id -> stored_pages s' !! j = stored_pages s !! j.
Proof.
  intros Hj. apply option_eq. intros p. rewrite !lookup_stored_pages, used_pages_ne by done. unfold intact. rewrite Hcfg.
  split; intros (Hu & Hh & Hi); (split; [done|split; [|done]]).
  - rewrite <-Hheld; [done| |done]. apply elem_of_used_pages in Hu as [Hu _]. by apply (in_use_home s).
  - rewrite Hheld; [done| |done]. apply elem_of_used_pages in Hu as [Hu _]. by apply (in_use_home s).
Qed.
End at_one.

(** States with the same pages *)
Lemma same_store s s' :
  allocator s -> same_rest s s' -> same_held s s' -> used_pages s' = used_pages s /\ stored_pages s' = stored_pages s.
Proof.
  intros Ha Hr Hh. pose proof (allocator_rest _ _ Hr Ha) as Ha'. assert (Hg : config s' = config s) by (by rewrite Hr).
  assert (Hu : forall j, in_use s' j <-> in_use s j) by (intros; by apply in_use_rest).
  split.
  - apply set_eq. intros j. apply (used_pages_ne s s' (j + 1) Ha Ha'); [by intros; apply Hh|done|lia].
  - apply map_eq. intros j. apply (stored_pages_ne s s' (j + 1) Ha Ha' Hg); [by intros; apply Hh|done|lia].
Qed.

Lemma runs_ready {E A} (m : eff (Pager W) E A) s (F : Prop) Q : runs m s F Q -> ~ F -> exists s' a, m s = (s', Ok a) /\ Q a s'.
Proof. unfold runs. destruct (m s) as [s' [a|e|]]; [eauto|done|done]. Qed.

Lemma sound_step s s' : sound_pager s -> step s s' -> coherent s' -> sound_pager s'.
Proof.
  intros (Hs & Ha & Hr & Hb) Hst Hs'. assert (Ha' : allocator s') by (by eapply allocator_rest; [apply Hst|]).
  split_and!; [done|done|by apply Hst|]. eapply (Hboot s); [by apply step_onward|done..].
Qed.

Lemma sound_onward s s' : sound_pager s -> onward s s' -> coherent s' -> allocator s' -> sound_pager s'.
Proof. intros (Hs & Ha & Hr & Hb) Hon Hs' Ha'. split_and!; [done|done|by apply Hon|by eapply (Hboot s)]. Qed.

Lemma stored_view s id p : stored_pages s !! id = Some p -> view s id = Some p /\ intact s p.
Proof.
  intros (_ & Hh & Hi)%lookup_stored_pages. split; [|done]. unfold held, fitting in Hh. destruct (view s id) as [q|]; [|done].
  cbn in Hh. by case_decide; simplify_eq.
Qed.

Lemma stored_readable s id p : stored_pages s !! id = Some p -> readable s id.
Proof. intros [? ?]%stored_view. by exists p. Qed.

Lemma pager_read s id p :
  sound_pager s -> stored_pages s !! id = Some p ->
  exists s', read_page crc32 iter id s = (s', Ok p) /\ sound_pager s' /\ stored_pages s' = stored_pages s /\
    used_pages s' = used_pages s /\ writable_pages s' = writable_pages s /\ freelist s' = freelist s /\ spare s' = spare s.
Proof.
  intros Hso [Hv Hi]%stored_view. pose proof Hso as (Hs & Ha & Hr & _).
  destruct (runs_ready _ _ _ _ (read_page_runs id s Hs)) as (s' & q & E & Hs' & Hst & Sh & Ev).
  { intros Hn. apply Hn. split; [done|]. by exists p. }
  rewrite Hv in Ev. injection Ev as <-. exists s'. pose proof (proj1 Hst) as Hrest. destruct (same_store s s' Ha Hrest Sh) as [E1 E2].
  split_and!; [done|by eapply sound_step|done|done| |by rewrite Hrest|unfold spare; by rewrite Hrest].
  apply set_eq. intros j. rewrite !elem_of_writable_pages, E1, E2. by rewrite (proj2 (proj1 (proj2 Hst) Hr) j).
Qed.

Lemma pager_write s id p :
  sound_pager s -> id ∈ writable_pages s -> fits id p ->
  exists s', write_page crc32 iter id p s = (s', Ok tt) /\ sound_pager s' /\
    stored_pages s' = <[id := update_checksum crc32 p]> (stored_pages s) /\ used_pages s' = used_pages s /\
    writable_pages s' = writable_pages s /\ freelist s' = freelist s /\ spare s' = spare s.
Proof.
  intros Hso [Hu Hw]%elem_of_writable_pages Hf. pose proof Hso as (Hs & Ha & Hr & _). pose proof Hu as [Hin _]%elem_of_used_pages. pose proof (in_use_home s id Ha Hin) as Hh.
  destruct (runs_ready _ _ _ _ (write_page_runs id p s Hs Hh Hf (proj1 (proj2 Hin)))) as (s' & [] & E & Hs' & Hst & Ho).
  { intros Hn. apply Hn. split; [done|]. destruct Hw as [[q Hq]|?]; [right|by left]. by eapply stored_readable. }
  pose proof (proj1 Hst) as Hrest.
  pose proof (allocator_rest _ _ Hrest Ha) as Ha'. assert (Hg : config s' = config s) by (by rewrite Hrest).
  assert (Hne : forall j, home j -> j <> id -> held s' j = held s j) by (intros j Hj ?; rewrite Ho by done; by rewrite decide_False).
  assert (Hid : held s' id = Some (update_checksum crc32 p)) by (rewrite Ho by done; by rewrite decide_True).
  assert (Huse : forall j, in_use s' j <-> in_use s j) by (intros; by apply in_use_rest).
  assert (Hused : used_pages s' = used_pages s).
  { apply set_eq. intros j. destruct (decide (j = id)) as [->|Hj]; [|by apply (used_pages_ne s s' id)].
    split; [done|]. intros _. apply elem_of_used_pages. rewrite Huse, Hid. eauto. }
  assert (Est : stored_pages s' = <[id := update_checksum crc32 p]> (stored_pages s)).
  { apply map_eq. intros j. destruct (decide (j = id)) as [->|Hj]; [|by rewrite lookup_insert_ne, (stored_pages_ne s s' id)].
    rewrite lookup_insert_eq. apply lookup_stored_pages. rewrite Hused. split_and!; [done|done|]. intros _.
    apply update_checksum_verifies; [done|apply Hf]. }
  exists s'. split_and!; [done|by eapply sound_step|done|done| |by rewrite Hrest|unfold spare; by rewrite Hrest].
  apply set_eq. intros j. rewrite !elem_of_writable_pages, Hused, Est, (proj2 (proj1 (proj2 Hst) Hr) j).
  destruct (decide (j = id)) as [->|Hj]; [rewrite lookup_insert_eq; naive_solver|by rewrite lookup_insert_ne].
Qed.

Lemma pager_allocate s t :
  sound_pager s -> trunk_head (freelist s) = 0 -> 0 < spare s ->
  exists s' id, allocate_page crc32 iter t s = (s', Ok (Page_new t id)) /\ sound_pager s' /\ (id ∉ used_pages s) /\ home id /\
    used_pages s' = {[id]} ∪ used_pages s /\ writable_pages s' = {[id]} ∪ writable_pages s /\
    (forall j, j <> id -> stored_pages s' !! j = stored_pages s !! j) /\ trunk_head (freelist s') = 0 /\ spare s' = spare s - 1.
Proof.
  intros Hso Htr Hsp. pose proof Hso as (Hs & Ha & Hr & _).
  destruct (runs_ready _ _ _ _ (allocate_page_runs t s Hs Ha Htr Hsp))
    as (s' & p & E & id & -> & Hs' & Ha' & Hon & Ho & (T1 & T2 & T3 & T4) & Htr' & Hsp' & Hres); [tauto|].
  assert (Hne : forall j, home j -> j <> id -> held s' j = held s j) by (intros j Hj ?; rewrite Ho by done; by rewrite decide_False).
  assert (Huse : forall j, j <> id -> in_use s' j <-> in_use s j) by (intros j Hj; rewrite T4; tauto).
  assert (Hg : config s' = config s) by apply Hon.
  assert (Hused : used_pages s' = {[id]} ∪ used_pages s).
  { apply set_eq. intros j. rewrite elem_of_union, elem_of_singleton. destruct (decide (j = id)) as [->|Hj].
    - split; [by left|]. intros _. apply elem_of_used_pages. rewrite T4, Ho by done. rewrite decide_True by done. split; [by left|eauto].
    - rewrite (used_pages_ne s s' id Ha Ha' Hne Huse j Hj). tauto. }
  assert (Hst : forall j, j <> id -> stored_pages s' !! j = stored_pages s !! j) by (intros j Hj; by apply (stored_pages_ne s s' id)).
  exists s', id. split_and!; [done|by eapply sound_onward|by intros [Hu _]%elem_of_used_pages|done|done| |done|by rewrite Htr'|done].
  apply set_eq. intros j. rewrite elem_of_union, elem_of_singleton, !elem_of_writable_pages, Hused, elem_of_union, elem_of_singleton, (Hres Hr j).
  destruct (decide (j = id)) as [->|Hj]; [rewrite bool_decide_true by done; naive_solver|].
  rewrite bool_decide_false, Hst by done. naive_solver.
Qed.

Lemma pager_free s id :
  sound_pager s -> id ∈ used_pages s ->
  exists s', free_page id s = (s', Ok tt) /\ sound_pager s' /\ stored_pages s' = base.delete id (stored_pages s) /\
    used_pages s' = used_pages s ∖ {[id]} /\ writable_pages s' = writable_pages s ∖ {[id]} /\
    trunk_head (freelist s') = trunk_head (freelist s) /\ spare s' = spare s + 1.
Proof.
  intros Hso [Hin _]%elem_of_used_pages. pose proof Hso as (Hs & Ha & Hr & _).
  destruct (runs_ready _ _ _ _ (free_page_runs id s Hs Ha Hin)) as (s' & [] & E & Hs' & Ha' & Hon & Hne & Hu & Htr & Hsp & Hfr); [tauto|].
  assert (Hg : config s' = config s) by apply Hon.
  assert (Huse : forall j, j <> id -> in_use s' j <-> in_use s j) by (intros j Hj; rewrite Hu; tauto).
  assert (Hid : id ∉ used_pages s') by (intros [Hx _]%elem_of_used_pages; by apply Hu in Hx as [_ ?]).
  assert (Hst : stored_pages s' = base.delete id (stored_pages s)).
  { apply map_eq. intros j. destruct (decide (j = id)) as [->|Hj]; [|by rewrite lookup_delete_ne, (stored_pages_ne s s' id)].
    rewrite lookup_delete_eq. destruct (stored_pages s' !! id) as [q|] eqn:Eq; [|done]. by apply lookup_stored_pages in Eq as [? _]. }
  assert (Hused : used_pages s' = used_pages s ∖ {[id]}).
  { apply set_eq. intros j. rewrite elem_of_difference, elem_of_singleton. destruct (decide (j = id)) as [->|Hj]; [tauto|].
    rewrite (used_pages_ne s s' id Ha Ha' Hne Huse j Hj). tauto. }
  exists s'. split_and!; [done|by eapply sound_onward|done|done| |done|done].
  apply set_eq. intros j. rewrite elem_of_difference, elem_of_singleton, !elem_of_writable_pages, Hused, Hst, elem_of_difference, elem_of_singleton, (Hfr Hr j).
  destruct (decide (j = id)) as [->|Hj]; [tauto|]. rewrite lookup_delete_ne by done. tauto.
Qed.

(** *** The pager as a page store *)

(** A pager that is not sound promises nothing. *)
Definition if_sound {A} (s : Pager W) (x y : A) : A := if excluded_middle_informative (sound_pager s) then x else y.

Lemma if_sound_true {A} s (x y : A) : sound_pager s -> if_sound s x y = x.
Proof. intros Hs. unfold if_sound. by destruct (excluded_middle_informative _). Qed.

Lemma if_sound_lookup s id p : if_sound s (stored_pages s) ∅ !! id = Some p -> sound_pager s /\ stored_pages s !! id = Some p.
Proof. unfold if_sound. by destruct (excluded_middle_informative _). Qed.

Lemma if_sound_elem s id : id ∈ if_sound s (writable_pages s) ∅ -> sound_pager s /\ id ∈ writable_pages s.
Proof. unfold if_sound. destruct (excluded_middle_informative _); [done|]. by intros ?%elem_of_empty. Qed.

#[local] Instance pager_store : PageStore (Pager W) := Pager_store crc32 iter.

Definition pager_room (s : Pager W) (n : nat) : Prop := sound_pager s /\ trunk_head (freelist s) = 0 /\ Z.of_nat n <= spare s.

#[refine] Definition pager_laws : PageStoreLaws (Pager W) := {|
  pages s := if_sound s (stored_pages s) ∅;
  owned s := if_sound s (writable_pages s) ∅;
  room := pager_room;
|}.
Proof.
  - intros s id p [Hs Hp]%if_sound_lookup. rewrite if_sound_true by done. apply elem_of_writable_pages.
    split; [by apply lookup_stored_pages in Hp as [? _]|left; eauto].
  - intros s n k (Hs & Ht & Hn) Hk. split_and!; [done|done|lia].
  - intros s id p [Hs Hp]%if_sound_lookup. destruct (pager_read s id p Hs Hp) as (s' & E & Hs' & E1 & _ & E2 & E3 & E4).
    exists s'. rewrite !if_sound_true by done. split_and!; [done|done|done|]. intros n (_ & ? & ?). split_and!; [done|congruence|lia].
  - intros s id p [Hs Hu]%if_sound_elem Hl Hi. destruct (pager_write s id p Hs Hu (conj Hl Hi)) as (s' & E & Hs' & E1 & _ & E2 & E3 & E4).
    exists s', (update_checksum crc32 p). rewrite !if_sound_true by done. split_and!; [done|done|done|apply resealed_update_checksum|].
    intros n (_ & ? & ?). split_and!; [done|congruence|lia].
  - intros s t n (Hs & Ht & Hn). destruct (pager_allocate s t Hs Ht ltac:(lia)) as (s' & id & E & Hs' & Hu & Hh & _ & E1 & E2 & E3 & E4).
    exists s', id. rewrite !if_sound_true by done. destruct Hh as (? & ? & _).
    split_and!; try done; [by intros [? _]%elem_of_writable_pages|]. split_and!; [done|done|lia].
  - intros s id [Hs Hu]%if_sound_elem. pose proof Hu as [Hused _]%elem_of_writable_pages.
    destruct (pager_free s id Hs Hused) as (s' & E & Hs' & E1 & _ & E2 & E3 & E4).
    exists s'. rewrite !if_sound_true by done. split_and!; [done|done|done|]. intros n (_ & ? & ?). split_and!; [done|congruence|lia].
Defined.
End pager.
