(* ===== verification/Durability.v ===== *)
(** * Flushing the pager

    [sync] of a pager returns when the dirty pages, the free list and the header are in
    the stable file: the pages that readers see are then those that a crash leaves. *)

From S2P Require Import Prelude Vfs FileFormat Page PagerIo PageCache FreeList PageStore Pager Coherence.
From Stdlib Require Import ZArith Lia.
#[local] Open Scope Z_scope.

(** ** File operations *)

Lemma file_len_runs f (F : Prop) Q :
  (faults f <> None -> F) ->
  (forall g, live g = live f -> (faults f = None -> faults g = None) -> Q (zlen (live f)) g) -> runs (io file_len) f F Q.
Proof.
  intros HF HQ. apply attempt_runs; [done|]. intros g Hl _ Hf. unfold runs, io, eff_map_err. cbn [map_err]. rewrite Hl. by apply HQ.
Qed.

Lemma write_all_runs data f (F : Prop) Q :
  (faults f <> None -> F) ->
  (forall g, live g = write_at (live f) (cursor f) data -> (faults f = None -> faults g = None) -> Q tt g) ->
  runs (io (write_all data)) f F Q.
Proof.
  intros HF HQ. apply attempt_runs; [done|]. intros g Hl Hc Hf. unfold runs, io, eff_map_err. cbn [map_err].
  apply HQ; [by rewrite live_add_write, Hl, Hc|done].
Qed.

Lemma sync_all_runs f (F : Prop) Q :
  (faults f <> None -> F) ->
  (forall g, live g = live f -> unsynced g = [] -> (faults f = None -> faults g = None) -> Q tt g) ->
  runs (io sync_all) f F Q.
Proof.
  intros HF HQ. apply attempt_runs; [done|]. intros g Hl Hc Hf. unfold runs, io, eff_map_err. cbn [map_err]. by apply HQ.
Qed.

Lemma synced_live f : unsynced f = [] -> stable f = live f.
Proof. intros E. unfold live. by rewrite E. Qed.

(** ** The superblock pair of a file *)

Definition superblock_zone (b : bytes) : bytes := slice b 0 PAGED_SUPERBLOCK_ZONE_SIZE.

(** The homes of the pages and the double-write zone are as before. *)
Definition homes_kept (b b' : bytes) : Prop :=
  zlen b' = zlen b /\ zone b' = zone b /\ forall id, home id -> page_at b' id = page_at b id.

#[export] Instance homes_kept_preorder : PreOrder homes_kept.
Proof.
  split; [by intros b|]. intros a b c (H1 & Z1 & H2) (H3 & Z2 & H4). split; [congruence|]. split; [by rewrite Z2|]. intros id Hh. by rewrite H4, H2.
Qed.

Lemma superblock_zone_size : PAGED_SUPERBLOCK_ZONE_SIZE = 8192.
Proof. reflexivity. Qed.

Section superblocks.
Context (crc32 : bytes -> Z) (crc32_u32 : forall b, u32_ok (crc32 b)).

(** The newest valid copy with its image *)
Definition newest (b : bytes) : option (PagedSuperblockSelection * bytes) :=
  sel ← select_paged_superblock crc32 (superblock_zone b);
  Some (sel, slice (superblock_zone b) (sel_copy_index sel * PAGED_SUPERBLOCK_SLOT_SIZE) PAGED_SUPERBLOCK_SLOT_SIZE).

(** There is a valid copy, and room for [n] more generations. *)
Definition publishable (b : bytes) (n : Z) : Prop :=
  exists sel image, newest b = Some (sel, image) /\ 0 <= sel_generation sel /\ sel_generation sel + n <= U64_MAX.

Lemma zlen_superblock_zone b : zone_end <= zlen b -> zlen (superblock_zone b) = PAGED_SUPERBLOCK_ZONE_SIZE.
Proof. intros Hb. apply zlen_slice; [done|done|]. destruct zone_numbers as (_ & _ & E & _). rewrite superblock_zone_size. lia. Qed.

Lemma read_superblock_zone_runs f :
  zone_end <= zlen (live f) ->
  runs PagerIo.read_superblock_zone f (faults f <> None) (fun z g =>
    z = superblock_zone (live f) /\ live g = live f /\ (faults f = None -> faults g = None)).
Proof.
  intros Hz. assert (Hz' : 8192 <= zlen (live f)) by (destruct zone_numbers as (_ & _ & E & _); lia).
  unfold PagerIo.read_superblock_zone. apply runs_bind, file_len_runs; [done|]. intros g1 H1 F1.
  rewrite superblock_zone_size, Z.min_r by lia. cbn [Z.ltb Z.compare].
  apply runs_bind, seek_runs; [intros Hn H0; by apply Hn, F1|]. intros g2 H2 C2 F2.
  apply runs_bind, read_exact_runs.
  - intros Hn H0. by apply Hn, F2, F1.
  - rewrite C2, H2, H1. lia.
  - rewrite C2, H2, H1. intros g3 _ H3 F3. unfold runs, mret, eff_ret. split_and!; [|congruence|auto].
    change (8192 - 8192) with 0. change (zeros 0) with (@nil Z). rewrite app_nil_r. unfold superblock_zone. by rewrite superblock_zone_size.
Qed.

Lemma write_slot_runs image c g f :
  zlen image = PAGED_SUPERBLOCK_SLOT_SIZE -> u32_ok c ->
  runs (PagerIo.write_superblock_slot crc32 image c g) f (faults f <> None) (fun _ f' =>
    live f' = write_at (live f) (paged_superblock_slot_offset c) (sealed_slot crc32 image c g) /\ unsynced f' = [] /\
    (faults f = None -> faults f' = None)).
Proof.
  intros Hi Hc. unfold PagerIo.write_superblock_slot. rewrite seal_paged_superblock_slot_eq by done.
  apply runs_bind. unfold runs at 1, lift. cbn [map_err].
  apply runs_bind, seek_runs; [done|]. intros g1 H1 C1 F1.
  apply runs_bind, write_all_runs; [intros Hn H0; by apply Hn, F1|]. intros g2 H2 F2.
  apply sync_all_runs; [intros Hn H0; by apply Hn, F2, F1|]. intros g3 H3 U3 F3.
  split_and!; [|done|auto]. by rewrite H3, H2, C1, H1.
Qed.

(** Writing a slot leaves the pages alone. *)
Lemma slot_write_homes b off slot :
  zone_end <= zlen b -> off = 0 \/ off = 4096 -> zlen slot = 4096 -> homes_kept b (write_at b off slot) /\
  superblock_zone (write_at b off slot) = splice (superblock_zone b) off slot.
Proof.
  intros Hb Ho Hs. destruct zone_numbers as (_ & _ & E & EP). assert (Hl : zlen (write_at b off slot) = zlen b).
  { rewrite zlen_write_at by lia. rewrite Hs. cbn [Z.eqb]. lia. }
  assert (Hbyte : forall i, file_byte (write_at b off slot) i = default (file_byte b i) (zget slot (i - off))) by (intros; apply file_byte_write_at; lia).
  split; [split; [done|split]|].
  - apply zone_same; [lia|lia|]. intros i Hi. unfold in_zone in Hi. destruct zone_numbers as (EZ & _). rewrite Hbyte, zget_None by lia. done.
  - intros id ([Hu _] & H0 & Ho'). unfold page_at. rewrite Hl. destruct (Z.leb_spec ((id + 1) * PAGE_SIZE) (zlen b)); [|done].
    apply f_equal. apply slice_same; try lia. intros i Hi. rewrite Hbyte, zget_None by lia. done.
  - unfold superblock_zone. rewrite superblock_zone_size.
    rewrite <-(slice_all (splice (slice b 0 8192) off slot) 8192) by (rewrite zlen_splice, zlen_slice; lia).
    apply slice_same; try lia; [rewrite zlen_splice, zlen_slice; lia|]. intros i Hi.
    rewrite Hbyte, file_byte_splice by (rewrite ?zlen_slice; lia). rewrite file_byte_slice by lia. done.
Qed.
End superblocks.

(** ** Publishing the header *)

#[local] Existing Instances step_preorder onward_preorder same_rest_preorder.

Section pager.
Context (crc32 : bytes -> Z) (crc32_u32 : forall b, u32_ok (crc32 b)).
Context (iter : gmap Z nat -> list (Z * nat)) (iter_perm : forall m, iter m ≡ₚ map_to_list m).
Context {W : Type} `{WalBarrier W} (accepts : W -> Prop) (fresh : W -> Z -> bool) (Hlog : log_accepts accepts fresh) (Hcalm : log_calm (W := W)).
Implicit Types s : Pager W.
Abbreviation ready := (ready accepts).

Lemma coherent_homes s f :
  coherent s -> homes_kept (live (file s)) (live f) -> coherent (set_file f s) /\ same_held s (set_file f s).
Proof.
  intros Hs (Hl & _ & Hk). split.
  - split; cbn [cache set_file file config freelist]; [apply Hs| |apply Hs|apply Hs|].
    + destruct (co_file s Hs). split; by rewrite Hl.
    + intros id e Ee Ed Hh. rewrite Hk by done. by apply (co_clean s Hs).
  - intros j Hj. unfold held, view. cbn [cache set_file file]. by rewrite Hk.
Qed.

Lemma newest_runs s :
  coherent s ->
  runs (newest_superblock crc32) s (~ (ready s /\ is_Some (newest crc32 (live (file s))))) (fun r s' =>
    newest crc32 (live (file s)) = Some r /\ exists f, s' = set_file f s /\ live f = live (file s) /\ (ready s -> ready s')).
Proof.
  intros Hs. destruct (co_file s Hs) as [Hz _]. pose proof (read_superblock_zone_runs (file s) Hz) as Hr.
  unfold newest_superblock, read_superblock_zone. apply runs_bind. unfold runs at 1, on_file, within. unfold runs in Hr.
  destruct PagerIo.read_superblock_zone as [f [z|e|]]; cbn [map_err]; [|intros [[Hf _] _]; done|done].
  destruct Hr as (-> & Hl & Hf). apply runs_bind. unfold newest. unfold runs at 1.
  destruct (select_paged_superblock crc32 (superblock_zone (live (file s)))) as [sel|] eqn:E; cbn [ok_or mbind option_bind].
  - unfold runs, mret, eff_ret. split; [done|]. exists f. split_and!; [done|done|]. intros (H0 & H1 & H2). split_and!; [by apply Hf|done|done].
  - intros [_ [? ?]]. done.
Qed.

Lemma newest_image_length b sel image : zone_end <= zlen b -> newest crc32 b = Some (sel, image) -> zlen image = PAGED_SUPERBLOCK_SLOT_SIZE.
Proof.
  intros Hb. unfold newest. destruct (select_paged_superblock _ _) as [sel'|] eqn:E; [|done]. cbn. intros [= -> <-].
  destruct (select_paged_superblock_spec crc32 _ _ E) as (c & Hc & -> & _). pose proof (zlen_superblock_zone b Hb) as Hz.
  rewrite superblock_zone_size in Hz. apply zlen_slice; rewrite ?superblock_slot_size; lia.
Qed.

(** The slot that holds [image], sealed *)
Definition sealed_as (b image : bytes) : Prop :=
  exists sel, newest crc32 b = Some (sel, sealed_slot crc32 image (sel_copy_index sel) (sel_generation sel)).

(** A publication is atomic for the pages and makes [image'] the newest copy. *)
Definition publication (mutate : bytes -> result DatabaseHeaderError bytes) (b b' : bytes) : Prop :=
  homes_kept b b' /\
  forall n, 0 <= n -> publishable crc32 b (n + 1) -> publishable crc32 b' n /\
    exists sel image image', newest crc32 b = Some (sel, image) /\ mutate image = Ok image' /\ sealed_as b' image'.

Lemma slot_offset c : c = 0 \/ c = 1 -> paged_superblock_slot_offset c = c * 4096.
Proof. by intros [-> | ->]. Qed.

Lemma newest_slot b c g slot :
  zone_end <= zlen b -> c = 0 \/ c = 1 -> zlen slot = 4096 ->
  select_paged_superblock crc32 (splice (superblock_zone b) (paged_superblock_slot_offset c) slot) =
    Some {| sel_copy_index := c; sel_generation := g |} ->
  newest crc32 (write_at b (paged_superblock_slot_offset c) slot) = Some ({| sel_copy_index := c; sel_generation := g |}, slot).
Proof.
  intros Hb Hc Hsl Hsel. rewrite (slot_offset c Hc) in *.
  destruct (slot_write_homes b (c * 4096) slot Hb ltac:(lia) Hsl) as [_ Hzone]. unfold newest. rewrite Hzone, Hsel.
  cbn [mbind option_bind sel_copy_index]. apply (f_equal (fun x => Some (_, x))).
  pose proof (zlen_superblock_zone b Hb) as Hz. rewrite superblock_zone_size in Hz. rewrite superblock_slot_size, <-Hsl at 1 2.
  rewrite Hsl at 1 2. apply slice_splice_eq; lia.
Qed.

Lemma next_copy_01 b sel :
  select_paged_superblock crc32 (superblock_zone b) = Some sel ->
  paged_superblock_next_copy (Some sel) = 0 \/ paged_superblock_next_copy (Some sel) = 1.
Proof.
  intros E. destruct (select_paged_superblock_spec crc32 _ _ E) as (c0 & Hc0 & Hs0 & _). rewrite next_copy_other by (by rewrite Hs0). lia.
Qed.

Lemma newest_selected b sel image : newest crc32 b = Some (sel, image) -> select_paged_superblock crc32 (superblock_zone b) = Some sel.
Proof. unfold newest. rewrite bind_Some. intros (sel' & E & Hn). apply (f_equal (option_map fst)) in Hn. cbn in Hn. congruence. Qed.

Lemma slot_write_publishes mutate b sel image image' :
  zone_end <= zlen b -> newest crc32 b = Some (sel, image) -> mutate image = Ok image' -> zlen image' = PAGED_SUPERBLOCK_SLOT_SIZE ->
  u32_ok (paged_superblock_next_copy (Some sel)) /\
  publication mutate b (write_at b (paged_superblock_slot_offset (paged_superblock_next_copy (Some sel)))
    (sealed_slot crc32 image' (paged_superblock_next_copy (Some sel)) (sat_add U64_MAX (sel_generation sel) 1))).
Proof.
  intros Hb Hn Hm Hi. pose proof (newest_selected b sel image Hn) as E.
  pose proof (next_copy_01 b sel E) as Hc. split; [unfold u32_ok; lia|].
  assert (Hsl : forall c g, zlen (sealed_slot crc32 image' c g) = 4096) by (intros; by rewrite zlen_sealed_slot).
  split; [apply slot_write_homes; [done|rewrite slot_offset by done; lia|apply Hsl]|]. intros n Hn0 (sel1 & image1 & E1 & Hg & Hg').
  assert (sel1 = sel) as -> by congruence. assert (Hsat : sat_add U64_MAX (sel_generation sel) 1 = sel_generation sel + 1) by (unfold sat_add; lia).
  rewrite Hsat.
  destruct (superblock_publish_selects crc32 crc32_u32 (superblock_zone b) sel image') as (_ & _ & Hsel);
    [by apply zlen_superblock_zone|done|unfold u64_ok; unfold U64_MAX in Hg'; lia|done|].
  pose proof (newest_slot b _ _ _ Hb Hc (Hsl _ _) Hsel) as Hnew. split.
  - eexists _, _. split; [exact Hnew|]. cbn [sel_generation]. lia.
  - exists sel, image, image'. split_and!; [done|done|]. eexists {| sel_copy_index := _; sel_generation := _ |}.
    cbn [sel_copy_index sel_generation]. exact Hnew.
Qed.

(** *** Operations on the superblocks *)

Definition total_on_slots (mutate : bytes -> result DatabaseHeaderError bytes) : Prop :=
  forall image, zlen image = PAGED_SUPERBLOCK_SLOT_SIZE ->
    exists image', mutate image = Ok image' /\ zlen image' = PAGED_SUPERBLOCK_SLOT_SIZE.

(** Only the file has changed, and is synced. *)
Definition file_step (s s' : Pager W) : Prop :=
  s' = set_file (file s') s /\ coherent s' /\ same_held s s' /\ unsynced (file s') = [] /\ (ready s -> ready s').

Lemma commit_runs mutate s :
  coherent s -> total_on_slots mutate ->
  runs (commit_superblock crc32 mutate) s (~ (ready s /\ is_Some (newest crc32 (live (file s))))) (fun _ s' =>
    file_step s s' /\ publication mutate (live (file s)) (live (file s'))).
Proof.
  intros Hs Hm. unfold commit_superblock. apply runs_bind, writable_runs; [done|]. apply runs_bind.
  eapply runs_mono; [by apply newest_runs|done|]. intros [sel image] s1 (Hn & f & -> & Hl & Hr).
  destruct (co_file s Hs) as [Hz _]. destruct (Hm image (newest_image_length _ _ _ Hz Hn)) as (image' & Em & Hi).
  apply runs_bind. unfold runs at 1, lift. rewrite Em. cbn [map_err].
  destruct (slot_write_publishes mutate (live (file s)) sel image image' Hz Hn Em Hi) as [Hc Hp].
  unfold write_superblock_slot. apply runs_bind. apply (available_runs accepts); [tauto|].
  apply runs_bind, writable_runs; [by apply coherent_file|]. apply runs_bind. apply (available_runs accepts); [tauto|].
  pose proof (write_slot_runs crc32 image' _ (sat_add U64_MAX (sel_generation sel) 1) f Hi Hc) as Hw.
  unfold runs, on_file, within. cbn [file set_file]. unfold runs in Hw.
  destruct (PagerIo.write_superblock_slot _ _ _ _ f) as [f' [[]|e|]]; cbn [map_err]; [|intros [Hrd _]; destruct (Hr Hrd); done|done].
  destruct Hw as (Hl' & Hu & Hf). rewrite Hl in Hl'. rewrite <-Hl' in Hp. split; [|exact Hp].
  destruct (coherent_homes s f' Hs (proj1 Hp)) as [Hc' Hh]. split_and!; [done|exact Hc'|exact Hh|done|].
  intros Hrd. destruct (Hr Hrd) as (F0 & ? & ?). split_and!; [by apply Hf|done|done].
Qed.

(** The header that the newest copy holds *)
Definition published (b : bytes) (h : DatabaseHeader) : Prop :=
  exists sel image, newest crc32 b = Some (sel, image) /\ decode_database_header image = Ok h.

(** A header that can be written and read back *)
Definition header_fits (h : DatabaseHeader) : Prop := header_ok h /\ page_size h = PAGED_PAGE_SIZE /\ version h <= PAGE_FILE_VERSION.

Lemma encode_total h : total_on_slots (fun image => encode_database_header image h).
Proof.
  intros image Hi. exists (splice image DB_MAGIC_OFFSET (database_header_bytes h)).
  rewrite encode_database_header_eq by (by rewrite Hi). by rewrite zlen_splice.
Qed.

Lemma publication_header h b b' n :
  header_fits h -> zone_end <= zlen b -> publication (fun image => encode_database_header image h) b b' -> 0 <= n -> publishable crc32 b (n + 1) ->
  publishable crc32 b' n /\ published b' h.
Proof.
  intros (H1 & H2 & H3) Hz [_ Hp] Hn Hb. destruct (Hp n Hn Hb) as (Hb' & sel & image & image' & E & Em & sel' & E').
  split; [done|]. pose proof (newest_image_length _ _ _ Hz E) as Hi. rewrite encode_database_header_eq in Em by (by rewrite Hi). injection Em as <-.
  eexists _, _. split; [exact E'|]. by apply decode_sealed_header.
Qed.

(** After [write_header] the file holds the header of the pager. *)
Definition header_step (s s' : Pager W) : Prop :=
  s' = set_header_dirty false (set_file (file s') s) /\ coherent s' /\ same_held s s' /\ unsynced (file s') = [] /\ (ready s -> ready s') /\
  homes_kept (live (file s)) (live (file s')) /\
  forall n, 0 <= n -> header_fits (db_header s) -> publishable crc32 (live (file s)) (n + 1) ->
    publishable crc32 (live (file s')) n /\ published (live (file s')) (db_header s).

Lemma write_header_runs s :
  coherent s ->
  runs (write_header crc32) s (~ (ready s /\ is_Some (newest crc32 (live (file s))))) (fun _ s' => header_step s s').
Proof.
  intros Hs. unfold write_header. apply runs_bind, writable_runs; [done|]. apply runs_bind. unfold runs at 1, gets. apply runs_bind.
  eapply runs_mono; [apply commit_runs; [done|apply encode_total]|done|]. intros [] s1 ((E & H1 & Sh & Hu & Hr) & Hp).
  unfold runs, modify. split_and!.
  - rewrite E at 1. done.
  - by destruct s1, H1.
  - by destruct s1.
  - done.
  - intros Hrd. exact (Hr Hrd).
  - exact (proj1 Hp).
  - intros n Hn Hf Hb. exact (publication_header _ _ _ n Hf (proj1 (co_file s Hs)) Hp Hn Hb).
Qed.

Lemma sync_file_runs s :
  coherent s -> runs sync_file s (~ ready s) (fun _ s' => file_step s s' /\ live (file s') = live (file s)).
Proof.
  intros Hs. unfold sync_file, runs, on_file, within.
  assert (Hr : runs (io sync_all) (file s) (faults (file s) <> None) (fun _ f' => live f' = live (file s) /\ unsynced f' = [] /\ (faults (file s) = None -> faults f' = None))).
  { apply sync_all_runs; [done|]. intros g H1 H2 H3. done. }
  unfold runs in Hr. destruct (io sync_all (file s)) as [f' [[]|e|]]; cbn [map_err]; [|intros [? _]; done|done].
  destruct Hr as (H1 & H2 & H3). split; [|done]. destruct (coherent_file s f' Hs H1) as [Hc Hh]. split_and!; [done|done|done|done|].
  intros (? & ? & ?). split_and!; [by apply H3|done|done].
Qed.

Lemma write_header_and_sync_runs s :
  coherent s ->
  runs (write_header_and_sync crc32) s (~ (ready s /\ is_Some (newest crc32 (live (file s))))) (fun _ s' => header_step s s').
Proof.
  intros Hs. unfold write_header_and_sync. apply runs_bind. eapply runs_mono; [by apply write_header_runs|done|].
  intros [] s1 (E1 & H1 & Sh1 & Hu1 & Hr1 & Hk1 & Hp1). eapply runs_mono; [by apply sync_file_runs|tauto|].
  intros [] s2 ((E2 & H2 & Sh2 & Hu2 & Hr2) & Hl2). unfold header_step. rewrite Hl2. split_and!; [|done| |done|auto|done|done].
  - rewrite E2, E1. done.
  - intros j Hj. by rewrite Sh2, Sh1.
Qed.

(** ** Flushing *)

(** A trunk page that may enter the cache *)
Definition trunk_ready (s : Pager W) (t : bytes) : Prop :=
  writable (page_id t, t) /\ (page_id t ∉ free_pages (freelist s)) /\
  forall e, cached (cache s) !! page_id t = Some e -> PageCache.dirty e = false.

(** The free list is on its way to trunk pages; nothing else has changed. *)
Definition spilled (s s' : Pager W) (trunks : list bytes) : Prop :=
  coherent s' /\ allocator s' /\ same_held s s' /\ (ready s -> ready s') /\
  s' = set_freelist (freelist s') (set_header_dirty (header_dirty s') (set_db_header (db_header s') s)) /\
  db_header s' = with_freelist_head (freelist_head (db_header s')) (db_header s) /\
  u32_ok (trunk_head (freelist s')) /\ FreeList.dirty (freelist s') = false /\
  (forall j, in_use s j -> in_use s' j) /\
  Forall (trunk_ready s') trunks /\ NoDup (page_id <$> trunks) /\ (forall t, t ∈ trunks -> page_id t ∈ free_pages (freelist s)) /\
  if FreeList.dirty (freelist s) then
    header_dirty s' = true /\ freelist_head (db_header s') = trunk_head (freelist s') /\ free_pages (freelist s') = [] /\
    exists ts, chain_pages ts ≡ₚ free_pages (freelist s) /\
      forall store old, Forall (fun t => store (page_id t) = Some t) trunks ->
        trunk_chain store (trunk_head (freelist s)) old -> trunk_chain store (trunk_head (freelist s')) (ts ++ old)
  else s' = s /\ trunks = [].

Lemma allocator_list s : allocator s -> free_list_ok (freelist s).
Proof.
  intros Ha. split; [apply Ha| |apply Ha|apply Ha]. eapply Forall_impl; [exact (al_free s Ha)|]. cbn. intros id Hid.
  pose proof (al_count s Ha). destruct (home_allocatable s id Ha) as (? & ? & _); [lia|lia|done].
Qed.

Lemma flush_freelist_runs s :
  coherent s -> allocator s -> runs (flush_freelist crc32) s False (fun trunks s' => spilled s s' trunks).
Proof.
  intros Hs Ha. unfold flush_freelist. unfold runs. destruct (FreeList.dirty (freelist s)) eqn:Ed.
  2:{ unfold spilled. rewrite Ed. split_and!; try done; [by destruct s|by destruct (db_header s)|apply Ha|by apply NoDup_nil|by intros t ?%elem_of_nil]. }
  destruct (flush_loop_ok crc32 crc32_u32 (length (free_pages (freelist s))) (freelist s) 0 (fun _ => page_count (db_header s)) [] (allocator_list s Ha))
    as (fl & new & ts & E & Hok & Hz & P & _ & C & I & L & Hhd); [done|done|]. unfold flush_to_trunks. rewrite E. cbn [app].
  assert (Enil : free_pages fl = []) by (apply length_zero_iff_nil; unfold zlen in Hz; lia). rewrite Enil in P. cbn [app] in P.
  assert (Hin : forall t, t ∈ new -> page_id t ∈ free_pages (freelist s)).
  { intros t Ht. rewrite <-P. assert (Hid : page_id t ∈ ts.*1) by (rewrite <-I; by apply list_elem_of_fmap_2).
    exact (elem_of_sublist _ _ _ Hid (chain_heads_sublist ts)). }
  match goal with |- spilled _ ?x _ => set (s' := x) end.
  assert (Ef : free_pages (freelist s') = []) by exact Enil.
  destruct (coherent_ext s s' eq_refl eq_refl eq_refl) as [H1 Sh]; [intros id; rewrite Ef; by intros ?%elem_of_nil|done|].
  unfold spilled. rewrite Ed. split_and!; try done.
  - split; [apply Ha..| | |]; rewrite ?Ef; [constructor| |constructor]. split; [exact (ok_head _ Hok)|apply not_elem_of_nil].
  - exact (ok_head _ Hok).
  - intros j (Hj & Hnf & Hnt). split_and!; [exact (proj1 Hj)|exact (proj2 Hj)|rewrite Ef; apply not_elem_of_nil|]. intros Ej. change (trunk_head (freelist s')) with (trunk_head fl) in Ej.
    destruct Hhd as [Hhd|Hhd]; [congruence|]. apply Hnf. rewrite <-P, Ej. exact (elem_of_sublist _ _ _ Hhd (chain_heads_sublist ts)).
  - apply Forall_forall. intros t Ht. pose proof (Hin t Ht) as Hf. pose proof (al_free s Ha) as Hfr. rewrite Forall_forall in Hfr.
    specialize (Hfr _ Hf). cbn in Hfr. pose proof (al_count s Ha). split_and!.
    + split; [apply (home_allocatable s); [done|cbn [fst]; lia..]|]. rewrite Forall_forall in L. split; [by apply L|done].
    + rewrite Ef. apply not_elem_of_nil.
    + intros e Ee. destruct (PageCache.dirty e) eqn:Edi; [|done]. by destruct (co_dirty s Hs _ e Ee Edi).
  - rewrite I. eapply sublist_NoDup; [|apply chain_heads_sublist]. rewrite P. apply Ha.
  - by exists ts.
Qed.

(** The page under [j] once the trunks are in *)
Fixpoint overlay (trunks : list bytes) (o : option bytes) (j : Z) : option bytes :=
  match trunks with [] => o | t :: ts => if decide (page_id t = j) then Some t else overlay ts o j end.

Lemma overlay_notin trunks o j : j ∉ page_id <$> trunks -> overlay trunks o j = o.
Proof.
  induction trunks as [|t ts IH]; [done|]. cbn. rewrite not_elem_of_cons. intros [? ?]. by rewrite decide_False, IH by congruence.
Qed.

Lemma overlay_in trunks o t : NoDup (page_id <$> trunks) -> t ∈ trunks -> overlay trunks o (page_id t) = Some t.
Proof.
  induction trunks as [|t' ts IH]; [by intros _ ?%elem_of_nil|]. cbn. rewrite NoDup_cons. intros [Hn Hd] [<-|Ht]%elem_of_cons; [by rewrite decide_True|].
  rewrite decide_False; [by apply IH|]. intros E. apply Hn. rewrite E. by apply list_elem_of_fmap_2.
Qed.

(** What the trunks have evicted is to be written; everything else is in the pager. *)
Definition pushed (s s' : Pager W) (trunks : list bytes) (extra : list (Z * bytes)) : Prop :=
  Forall writable extra /\ NoDup extra.*1 /\
  (forall pg, pg ∈ extra -> cached (cache s') !! pg.1 = None /\
    (pg.1 ∈ page_id <$> trunks \/ exists e, cached (cache s) !! pg.1 = Some e /\ PageCache.dirty e = true)) /\
  (forall j p, (j, p) ∈ extra -> overlay trunks (held s j) j = Some p) /\
  (forall j, home j -> j ∉ extra.*1 -> held s' j = overlay trunks (held s j) j).

Lemma pushed_cons s c' out t ts s' extra :
  trunk_ready s t -> Forall (trunk_ready s) ts -> page_id t ∉ page_id <$> ts ->
  cache_grows [page_id t] (cache s) c' ->
  match out with
  | None => holds_with s (set_cache c' s) (page_id t) (Some t)
  | Some p => writable (page_id p, p) /\ cached c' !! page_id p = None /\ page_id p <> page_id t /\ held s (page_id p) = Some p /\
      (exists e, cached (cache s) !! page_id p = Some e /\ PageCache.dirty e = true) /\
      forall j, home j -> j <> page_id p -> held (set_cache c' s) j = if decide (j = page_id t) then Some t else held s j
  end ->
  cache_grows (page_id <$> ts) c' (cache s') -> pushed (set_cache c' s) s' ts extra ->
  pushed s s' (t :: ts) (match out with Some p => (page_id p, p) :: extra | None => extra end).
Proof.
  intros Ht Hts Hn Hg Ho Hg' (Hw & Hd & Hx & Hv & Hh).
  assert (Hdirty : forall e j, cached c' !! j = Some e -> PageCache.dirty e = true ->
    j ∈ page_id <$> t :: ts \/ exists e, cached (cache s) !! j = Some e /\ PageCache.dirty e = true).
  { intros e j Ee Ed. destruct (Hg j e Ee) as [Hj|Hj]; [left; apply list_elem_of_singleton in Hj as ->; by left|eauto]. }
  assert (Hx' : forall pg, pg ∈ extra -> cached (cache s') !! pg.1 = None /\
    (pg.1 ∈ page_id <$> t :: ts \/ exists e, cached (cache s) !! pg.1 = Some e /\ PageCache.dirty e = true)).
  { intros pg Hpg. destruct (Hx pg Hpg) as [? [?|(e & Ee & Ed)]]; (split; [done|]); [left; by right|eauto]. }
  assert (Hover : forall j o, home j -> overlay ts (if decide (j = page_id t) then Some t else o) j = overlay (t :: ts) o j).
  { intros j o _. cbn. destruct (decide (page_id t = j)) as [<-|Hne]; [by rewrite decide_True, overlay_notin|by rewrite decide_False by congruence]. }
  assert (Hhome : forall j p, (j, p) ∈ extra -> home j) by (intros j p Hp; rewrite Forall_forall in Hw; by destruct (Hw _ Hp)).
  destruct out as [p|].
  - destruct Ho as (Hwp & Hnp & Hne & Hhp & (e & Ee & Ed) & Ho).
    assert (Hpt : page_id p ∉ page_id <$> ts).
    { intros (t' & E & Ht')%list_elem_of_fmap. rewrite Forall_forall in Hts. destruct (Hts _ Ht') as (_ & _ & Hc).
      rewrite <-E in Hc. specialize (Hc e Ee). congruence. }
    assert (Hpx : page_id p ∉ extra.*1).
    { intros ([j q] & E & Hpg)%list_elem_of_fmap. cbn in E. subst j. destruct (Hx _ Hpg) as [_ [?|(e' & Ee' & _)]]; [done|].
      cbn in Ee'. congruence. }
    assert (Hne' : forall j q, (j, q) ∈ extra -> j <> page_id p).
    { intros j q Hq ->. apply Hpx. by apply (list_elem_of_fmap_2' fst _ (page_id p, q)). }
    split_and!.
    + by constructor.
    + cbn. by constructor.
    + intros pg [->|Hpg]%elem_of_cons; [|by apply Hx']. cbn [fst]. split; [|eauto].
      destruct (cached (cache s') !! page_id p) as [e'|] eqn:E'; [|done]. destruct (Hg' _ _ E'); [done|congruence].
    + intros j q [[= -> ->]|Hq]%elem_of_cons; [cbn; by rewrite decide_False, overlay_notin by congruence|].
      rewrite <-Hover by eauto. rewrite <-(Hv j q Hq), Ho; eauto.
    + intros j Hj. cbn [fmap list_fmap fst]. rewrite not_elem_of_cons. intros [Hjp Hjx]. rewrite Hh, Ho by done. by apply Hover.
  - split_and!; [done|done|done| |].
    + intros j q Hq. rewrite <-Hover by eauto. rewrite <-(Hv j q Hq), Ho; eauto.
    + intros j Hj Hjx. rewrite Hh, Ho by done. by apply Hover.
Qed.

Lemma insert_trunks_runs trunks s :
  coherent s -> Forall (trunk_ready s) trunks -> NoDup (page_id <$> trunks) ->
  runs (insert_trunks trunks) s False (fun extra s' =>
    coherent s' /\ s' = set_cache (cache s') s /\ cache_grows (page_id <$> trunks) (cache s) (cache s') /\ pushed s s' trunks extra).
Proof.
  revert s. induction trunks as [|t ts IH]; intros s Hs Hr Hn; cbn [insert_trunks].
  { unfold runs, mret, eff_ret. split_and!; [done|by destruct s|by right|]. split_and!; [constructor|constructor|..|done]; by intros ? ?%elem_of_nil || intros ? ? ?%elem_of_nil. }
  apply Forall_cons in Hr as [Ht Hts]. cbn in Hn. apply NoDup_cons in Hn as [Hnt Hn].
  destruct (insert_spec crc32 s (page_id t) t true Hs) as (c' & out & E & Hc & Hg & Ho); [by split; apply Ht|].
  rewrite (fitting_fits (page_id t) t) in Ho by apply Ht.
  apply runs_bind. eapply on_cache_runs; [exact E|]. apply runs_bind. eapply runs_mono; [apply IH; [done| |done]|done|].
  - apply Forall_forall. intros t' Ht'. rewrite Forall_forall in Hts. destruct (Hts t' Ht') as (H1 & H2 & H3). split_and!; [done|done|].
    cbn [cache set_cache]. intros e Ee. destruct (Hg _ _ Ee) as [Hj|Hj]; [|by apply H3]. apply list_elem_of_singleton in Hj.
    exfalso. apply Hnt. rewrite <-Hj. by apply list_elem_of_fmap_2.
  - intros extra s' (H1 & H2 & H3 & H4). unfold runs, mret, eff_ret. split_and!; [done|by rewrite H2| |by eapply pushed_cons].
    intros j e Ee. cbn. rewrite elem_of_cons. destruct (H3 j e Ee) as [?|Ee']; [tauto|]. destruct (Hg j e Ee') as [Hj|?]; [|tauto].
    apply list_elem_of_singleton in Hj. tauto.
Qed.

(** A batch of pages that are not in the cache *)
Lemma write_extra_runs extra s :
  coherent s -> Forall writable extra -> NoDup extra.*1 -> (forall pg, pg ∈ extra -> cached (cache s) !! pg.1 = None) ->
  runs (write_dirty_page_batch crc32 extra) s (~ ready s) (fun _ s' =>
    coherent s' /\ step accepts fresh s s' /\ cache s' = cache s /\
    (forall j, home j -> j ∉ extra.*1 -> held s' j = held s j) /\ (forall j p, (j, p) ∈ extra -> held s' j = Some p)).
Proof.
  intros Hs Hw Hn Hx. eapply runs_mono; [apply write_dirty_page_batch_runs; [exact Hlog|exact Hcalm|split_and!; apply Hs|exact Hw|exact Hn]|done|].
  intros [] s' (St & Hc & Hb). assert (Ec : cached (cache s') = cleaned [] (cached (cache s))) by (by rewrite cleaned_nil, Hc).
  split_and!; [|done|done|..].
  - eapply (flushed_coherent [] extra s s' (cache s') extra); try done; [by rewrite Hc; apply Hs|by eapply step_config|].
    destruct St as [E _]. by rewrite E.
  - intros j Hj. by eapply (flushed_held [] extra).
  - intros j p Hp. rewrite Forall_forall in Hw. destruct (Hw _ Hp) as [Hh Hf]. eapply (flushed_held [] extra); try done.
Qed.

Lemma write_extras_runs chunks s :
  coherent s -> Forall writable (concat chunks) -> NoDup (concat chunks).*1 ->
  (forall pg, pg ∈ concat chunks -> cached (cache s) !! pg.1 = None) ->
  runs (for_each chunks (write_dirty_page_batch crc32)) s (~ ready s) (fun _ s' =>
    coherent s' /\ step accepts fresh s s' /\ cache s' = cache s /\
    (forall j, home j -> j ∉ (concat chunks).*1 -> held s' j = held s j) /\ (forall j p, (j, p) ∈ concat chunks -> held s' j = Some p)).
Proof.
  revert s. induction chunks as [|c cs IH]; intros s Hs; cbn [for_each concat].
  { intros _ _ _. unfold runs, mret, eff_ret. split_and!; [done|done|done|done|by intros ? ? ?%elem_of_nil]. }
  rewrite Forall_app, fmap_app, NoDup_app. intros [Hw Hws] (Hn & Hd & Hns) Hx.
  apply runs_bind. eapply runs_mono; [apply write_extra_runs; [done|done|done|]|done|].
  { intros pg Hpg. apply Hx, elem_of_app. by left. }
  intros [] s1 (H1 & St1 & C1 & O1 & I1). eapply runs_mono; [apply IH; [done|done|done|]|intros Hr Hr'; by apply Hr, St1|].
  { intros pg Hpg. rewrite C1. apply Hx, elem_of_app. by right. }
  intros [] s2 (H2 & St2 & C2 & O2 & I2). split_and!; [done|by etrans|congruence|..].
  - intros j Hj. rewrite not_elem_of_app. intros [? ?]. by rewrite O2, O1.
  - intros j p [Hp|Hp]%elem_of_app; [|by apply I2]. rewrite <-(I1 j p Hp). apply O2.
    + rewrite Forall_forall in Hw. by destruct (Hw _ Hp).
    + apply Hd. by apply (list_elem_of_fmap_2' fst _ (j, p)).
Qed.

Lemma flush_cached_runs ids s :
  coherent s -> NoDup ids ->
  runs (flush_cached crc32 ids) s (~ ready s) (fun _ s' =>
    coherent s' /\ step accepts fresh s s' /\ same_held s s' /\ cached (cache s') = cleaned ids (cached (cache s))).
Proof.
  intros Hs Hn. set (Q := fun (_ : unit) s' => _).
  assert (Hr : runs (pages ← on_cache (flush_dirty_pages ids); write_dirty_page_batch crc32 (pages ++ [])) s (~ ready s) Q).
  { apply (flush_batch_runs crc32 accepts fresh Hlog Hcalm ids [] (fun l => l)); try done; [by apply NoDup_nil|by intros ? ?%elem_of_nil|].
    intros s' H1 St Hc Ho _. split_and!; [done|done| |done]. intros j Hj. apply Ho; [done|]. apply not_elem_of_nil. }
  unfold flush_cached. revert Hr. unfold runs, mbind, eff_bind. destruct (on_cache _ s) as [s1 [pages| |]]; [|done|done].
  by rewrite app_nil_r.
Qed.

Lemma flush_all_runs chunks s :
  coherent s -> Forall NoDup chunks ->
  runs (for_each chunks (flush_cached crc32)) s (~ ready s) (fun _ s' =>
    coherent s' /\ step accepts fresh s s' /\ same_held s s' /\ cached (cache s') = cleaned (concat chunks) (cached (cache s))).
Proof.
  revert s. induction chunks as [|c cs IH]; intros s Hs Hn; cbn [for_each concat].
  { unfold runs, mret, eff_ret. rewrite cleaned_nil. by split_and!. }
  apply Forall_cons in Hn as [Hn Hns]. apply runs_bind. eapply runs_mono; [by apply flush_cached_runs|done|].
  intros [] s1 (H1 & St1 & Sh1 & C1). eapply runs_mono; [by apply IH|intros Hr Hr'; by apply Hr, St1|].
  intros [] s2 (H2 & St2 & Sh2 & C2). split_and!; [done|by etrans| |by rewrite C2, C1, cleaned_app].
  intros j Hj. by rewrite Sh2, Sh1.
Qed.

(** No page of the cache is ahead of the file. *)
Definition clean (s : Pager W) : Prop := forall j e, cached (cache s) !! j = Some e -> PageCache.dirty e = false.

Lemma clean_held s j : coherent s -> clean s -> home j -> held s j = fitting j (page_at (live (file s)) j).
Proof.
  intros Hs Hc Hj. unfold held, view. destruct (cached (cache s) !! j) as [e|] eqn:E; [|done].
  by rewrite (co_clean s Hs j e E (Hc j e E) Hj).
Qed.

Lemma held_stored s j p : coherent s -> clean s -> home j -> held s j = Some p -> page_at (live (file s)) j = Some p.
Proof.
  intros Hs Hc Hj. rewrite clean_held by done. unfold fitting. destruct (page_at _ _) as [q|]; [|done]. cbn. by case_decide.
Qed.

(** The free numbers of [s] are in trunks of the file, in front of the trunks there were. *)
Definition listed (s : Pager W) (h : DatabaseHeader) (b : bytes) : Prop :=
  FreeList.dirty (freelist s) = true ->
  exists ts, chain_pages ts ≡ₚ free_pages (freelist s) /\
    forall store old, (forall j, home j -> store j = page_at b j) ->
      trunk_chain store (trunk_head (freelist s)) old -> trunk_chain store (freelist_head h) (ts ++ old).

(** The header names the trunks of a free list that is not dirty. *)
Definition header_listed (s : Pager W) : Prop :=
  FreeList.dirty (freelist s) = false -> freelist_head (db_header s) = trunk_head (freelist s).

(** The pages and the free list are in the file, the superblocks as before. *)
Definition written (s s' : Pager W) : Prop :=
  coherent s' /\ allocator s' /\ clean s' /\ (ready s -> ready s') /\ reserved_kept (live (file s)) (live (file s')) /\
  (forall j, in_use s j -> held s' j = held s j /\ in_use s' j) /\ FreeList.dirty (freelist s') = false /\
  (header_listed s -> header_listed s') /\
  s' = set_freelist (freelist s') (set_header_dirty (header_dirty s') (set_db_header (db_header s') (set_file (file s')
    (set_cache (cache s') (set_wal (wal s') (set_writeback_failed (writeback_failed s') s)))))) /\
  db_header s' = with_freelist_head (freelist_head (db_header s')) (db_header s) /\
  (header_fits (db_header s) -> header_fits (db_header s')) /\
  (header_dirty s' = false -> header_dirty s = false /\ db_header s' = db_header s) /\
  listed s (db_header s') (live (file s')).

Lemma all_dirty_nodup s : coherent s -> NoDup (sort_ids (all_dirty_page_ids iter (cache s))).
Proof.
  intros Hs. rewrite sort_ids_perm. unfold all_dirty_page_ids. rewrite cache_dirty_page_ids_ok.
  eapply sublist_NoDup; [|apply sublist_take]. by apply dirty_ids_nodup; [|apply Hs].
Qed.

Lemma flushed_clean s s' :
  coherent s -> cached (cache s') = cleaned (sort_ids (all_dirty_page_ids iter (cache s))) (cached (cache s)) -> clean s'.
Proof.
  intros Hs Hc j e. rewrite Hc, lookup_cleaned. destruct (cached (cache s) !! j) as [e0|] eqn:E; [|done]. cbn.
  case_decide as Hd; intros [= <-]; [done|]. destruct (PageCache.dirty e0) eqn:Ed; [|done]. destruct Hd.
  rewrite sort_ids_perm. unfold all_dirty_page_ids. rewrite cache_dirty_page_ids_ok, take_ge.
  - apply elem_of_dirty_ids_cached; [done|apply Hs|eauto].
  - pose proof (dirty_ids_length iter iter_perm (cache s)). lia.
Qed.

Lemma chunks_nodup {A} n (l : list A) : (0 < n)%nat -> NoDup l -> Forall NoDup (chunks_of n l).
Proof.
  intros Hn Hl. rewrite <-(concat_chunks_of n l Hn) in Hl. induction (chunks_of n l) as [|c cs IH]; [constructor|].
  cbn in Hl. apply NoDup_app in Hl as (? & _ & ?). constructor; auto.
Qed.

Lemma header_fits_head h x : header_fits h -> u32_ok x -> header_fits (with_freelist_head x h).
Proof. intros ((?&?&?&?&?&?&?&?) & ? & ?) Hx. by split_and!. Qed.

(** What the four stages add up to *)
Lemma spilled_written s s1 s4 trunks :
  allocator s -> spilled s s1 trunks -> coherent s4 -> clean s4 -> step accepts fresh s1 s4 ->
  (forall j, home j -> held s4 j = overlay trunks (held s1 j) j) -> written s s4.
Proof.
  intros Ha (H1 & Ha1 & Sh1 & R1 & E1 & Eh & Hu & Hfd & Huse & Ht & Hn & Hin & Hd) H4 Hc (E4 & R4 & K4) Hh.
  assert (Eh4 : db_header s4 = db_header s1) by (by rewrite E4). assert (El4 : freelist s4 = freelist s1) by (by rewrite E4).
  assert (Ed4 : header_dirty s4 = header_dirty s1) by (by rewrite E4).
  split_and!; [done|by eapply allocator_rest|done|intros Hr; by apply R4, R1|..].
  - rewrite E1 in K4. exact K4.
  - intros j Hj. pose proof (in_use_home s j Ha Hj) as Hhj. pose proof Hj as (_ & Hnf & _).
    split; [|unfold in_use; rewrite El4, Eh4; by apply Huse].
    rewrite Hh, overlay_notin; [by apply Sh1| |done]. intros (t & -> & Htt)%list_elem_of_fmap. by apply Hnf, Hin.
  - by rewrite El4.
  - unfold header_listed. rewrite El4, Eh4. intros Hl _. destruct (FreeList.dirty (freelist s)); [by destruct Hd as (_ & ? & _)|].
    destruct Hd as [-> _]. by apply Hl.
  - rewrite El4, Eh4, Ed4.
    transitivity (set_file (file s4) (set_cache (cache s4) (set_wal (wal s4) (set_writeback_failed (writeback_failed s4) s1)))); [exact E4|].
    by rewrite E1 at 1.
  - by rewrite Eh4.
  - rewrite Eh4, Eh. intros Hf. apply header_fits_head; [done|]. destruct (FreeList.dirty (freelist s)).
    + destruct Hd as (_ & -> & _). exact Hu.
    + destruct Hd as [-> _]. destruct Hf as ((?&?&?&?&_) & _). done.
  - rewrite Ed4, Eh4. intros Hd'. destruct (FreeList.dirty (freelist s)); [destruct Hd; congruence|]. destruct Hd as [-> _].
    done.
  - intros Hdirty. rewrite Hdirty in Hd. destruct Hd as (_ & Hhd & _ & ts & P & C). exists ts. split; [done|]. intros store old Hst Hold.
    rewrite Eh4, Hhd. apply C; [|done]. apply Forall_forall. intros t Htt. rewrite Forall_forall in Ht. destruct (Ht t Htt) as ([Hht _] & _).
    rewrite Hst by exact Hht. apply held_stored; [done|done|exact Hht|]. rewrite Hh by exact Hht. by apply overlay_in.
Qed.

(** Trunks, evicted pages and dirty pages are written. *)
Lemma flush_pages_runs {A} (k : eff (Pager W) PagerError A) s F Q :
  coherent s -> allocator s -> (~ ready s -> F) -> (forall s', written s s' -> runs k s' F Q) ->
  runs (trunks ← flush_freelist crc32;
        dirty_pages ← insert_trunks trunks;
        _ ← for_each (chunks_of FLUSH_BATCH_PAGES dirty_pages) (write_dirty_page_batch crc32);
        page_ids ← gets (fun s => sort_ids (all_dirty_page_ids iter (cache s)));
        _ ← for_each (chunks_of FLUSH_BATCH_PAGES page_ids) (flush_cached crc32); k) s F Q.
Proof.
  intros Hs Ha HF Hk. apply runs_bind. eapply runs_mono; [by apply flush_freelist_runs|done|].
  intros trunks s1 Hsp. pose proof Hsp as (H1 & Ha1 & Sh1 & R1 & _ & _ & _ & _ & _ & Ht & Hn & _).
  apply runs_bind. eapply runs_mono; [by apply insert_trunks_runs|done|].
  intros extra s2 (H2 & E2 & _ & Hw & Hnx & Hx & Hv & Hh2).
  apply runs_bind. eapply runs_mono; [apply write_extras_runs; rewrite ?concat_chunks_of by (unfold FLUSH_BATCH_PAGES; lia); try done|..].
  { intros pg Hpg. by apply Hx. }
  { intros Hr. apply HF. intros Hr'. apply Hr. rewrite E2. by apply R1. }
  intros [] s3 (H3 & St3 & C3 & O3 & I3). rewrite concat_chunks_of in O3, I3 by (unfold FLUSH_BATCH_PAGES; lia).
  apply runs_bind. unfold runs at 1, gets. apply runs_bind.
  eapply runs_mono; [apply flush_all_runs; [done|by apply chunks_nodup; [unfold FLUSH_BATCH_PAGES; lia|apply all_dirty_nodup]]|..].
  { intros Hr. apply HF. intros Hr'. apply Hr. apply St3. rewrite E2. by apply R1. }
  intros [] s4 (H4 & St4 & Sh4 & C4). rewrite concat_chunks_of in C4 by (unfold FLUSH_BATCH_PAGES; lia). apply Hk.
  assert (St2 : step accepts fresh s1 s2) by (rewrite E2; apply step_cache).
  apply (spilled_written s s1 s4 trunks); [done|done|done|by apply (flushed_clean s3)|by etrans; [|etrans]|].
  intros j Hj. rewrite Sh4 by done. destruct (decide (j ∈ extra.*1)) as [Hje|Hje]; [|by rewrite O3, Hh2].
  apply list_elem_of_fmap in Hje as ([j' p] & -> & Hp). cbn [fst]. by rewrite (I3 _ _ Hp), (Hv _ _ Hp).
Qed.

(** *** The header *)

(** A superblock is valid, with [n] generations to go; the double-write zone holds no frame; the
    header can be written and, if it is not dirty, the newest superblock holds it. *)
Record booted (n : Z) (s : Pager W) : Prop := {
  bt_copy : publishable crc32 (live (file s)) n;
  bt_zone : frame_pages crc32 (zone (live (file s))) = None;
  bt_header : header_fits (db_header s);
  bt_clean : header_dirty s = false -> published (live (file s)) (db_header s);
  bt_list : header_listed s;
}.

Lemma newest_kept b b' : zone_end <= zlen b -> zone_end <= zlen b' -> reserved_kept b b' -> newest crc32 b' = newest crc32 b.
Proof.
  intros Hb Hb' Hk. unfold newest. replace (superblock_zone b') with (superblock_zone b); [done|].
  destruct zone_numbers as (_ & _ & E & EP). unfold superblock_zone. rewrite superblock_zone_size.
  apply slice_same; try lia. intros i Hi. symmetry. apply Hk. lia.
Qed.

Lemma frame_kept b b' : reserved_kept b b' -> frame_pages crc32 (zone b) = None -> frame_pages crc32 (zone b') = None.
Proof.
  intros [_ [-> |Hz]] Hf; [done|]. apply frame_pages_magic. intros Em. revert Hz.
  rewrite <-(Z.add_0_l 0), <-(file_byte_slice (zone b') 0 4 0), Em by lia. done.
Qed.

Lemma booted_kept n s s' :
  coherent s -> coherent s' -> reserved_kept (live (file s)) (live (file s')) -> header_fits (db_header s') ->
  (header_dirty s' = false -> header_dirty s = false /\ db_header s' = db_header s) ->
  (header_listed s -> header_listed s') -> booted n s -> booted n s'.
Proof.
  intros Hs Hs' Hk Hf Hd Hli [B1 Bz B2 B3 B4]. pose proof (newest_kept _ _ (proj1 (co_file s Hs)) (proj1 (co_file s' Hs')) Hk) as En.
  split; [|by eapply frame_kept|done| |auto].
  - unfold publishable in *. by rewrite En.
  - intros Hd'. destruct (Hd Hd') as [Hd0 ->]. unfold published. rewrite En. by apply B3.
Qed.

Lemma booted_onward n s s' : onward accepts s s' -> coherent s -> coherent s' -> allocator s' -> booted n s -> booted n s'.
Proof.
  intros (_ & _ & Hk & Eh & Hd & Hl) Hs Hs' Ha' Hb. eapply (booted_kept n s s'); try done.
  - pose proof (al_count s' Ha') as Hc. destruct (bt_header n s Hb) as ((?&?&?&?&?&?&?&?) & ? & ?). rewrite Eh.
    split; [|done]. unfold header_ok. split_and!; try done. unfold u32_ok. cbn [page_count with_page_count]. change FIRST_ALLOCATABLE_PAGE with 67 in Hc. unfold U32_MAX in *. lia.
  - intros Hli Hf. pose proof (Hl Hf) as E. rewrite E in Hf |- *. rewrite Eh. exact (Hli Hf).
Qed.

Lemma booted_newest n s : booted n s -> is_Some (newest crc32 (live (file s))).
Proof. intros [(sel & image & E & _) _ _ _ _]. by rewrite E. Qed.

Lemma written_booted n s s' : coherent s -> written s s' -> booted n s -> booted n s'.
Proof.
  intros Hs (H1 & _ & _ & _ & K & _ & _ & Hli & _ & _ & Hf & Hd & _) Hb. eapply (booted_kept n s s'); try done. apply Hf, Hb.
Qed.

(** Everything of [s] is in the file, the pages in use and the free list, after [k] publications of the header. *)
Definition saved (k : Z) (s s' : Pager W) : Prop :=
  coherent s' /\ allocator s' /\ clean s' /\ (ready s -> ready s') /\ config s' = config s /\
  db_header s' = with_freelist_head (freelist_head (db_header s')) (db_header s) /\
  (forall j, in_use s j -> held s' j = held s j /\ in_use s' j) /\ FreeList.dirty (freelist s') = false /\
  listed s (db_header s') (live (file s')) /\
  (forall n, k <= n -> booted n s -> booted (n - k) s').

Lemma booted_less n n' s : n' <= n -> booted n s -> booted n' s.
Proof. intros Hn [(sel & image & E & ? & ?) Bz B2 B3 B4]. split; [|done|done|done|done]. exists sel, image. split_and!; [done|done|lia]. Qed.

Lemma listed_kept s h b b' : homes_kept b b' -> listed s h b -> listed s h b'.
Proof.
  intros (_ & _ & Hk) Hl Hd. destruct (Hl Hd) as (ts & P & C). exists ts. split; [done|]. intros store old Hst Hold.
  apply C; [|done]. intros j Hj. by rewrite Hst, Hk.
Qed.

Lemma header_step_rest s s' :
  header_step s s' -> config s' = config s /\ db_header s' = db_header s /\ freelist s' = freelist s /\ cache s' = cache s /\
  header_dirty s' = false /\ allocation_fence_pending s' = allocation_fence_pending s /\ deferred_reclamation s' = deferred_reclamation s /\
  allocation_reused s' = allocation_reused s.
Proof. intros [E _]. by rewrite E. Qed.

Lemma header_step_booted n s s' :
  header_step s s' -> 0 <= n -> header_listed s -> header_fits (db_header s) -> frame_pages crc32 (zone (live (file s))) = None ->
  publishable crc32 (live (file s)) (n + 1) -> booted n s'.
Proof.
  intros Hh Hn Hli Hf Hz Hp. destruct (header_step_rest s s' Hh) as (_ & Eh & Ef & _). destruct Hh as (_ & _ & _ & _ & _ & (_ & Ez & _) & Hpub).
  destruct (Hpub n Hn Hf Hp) as [P1 P2]. split; unfold header_listed; rewrite ?Eh, ?Ez, ?Ef; done.
Qed.

Lemma allocator_ext s s' :
  freelist s' = freelist s -> db_header s' = db_header s -> allocation_fence_pending s' = allocation_fence_pending s ->
  deferred_reclamation s' = deferred_reclamation s -> allocator s -> allocator s'.
Proof. intros E1 E2 E3 E4 []. split; by rewrite ?E1, ?E2, ?E3, ?E4. Qed.

Lemma written_saved s s' : coherent s -> written s s' -> saved 0 s s'.
Proof.
  intros Hs Hw. pose proof Hw as (H1 & Ha1 & C1 & R1 & K1 & U1 & X1 & _ & E1 & D1 & F1 & _ & L1). split_and!; try done.
  - by rewrite E1.
  - intros n _ Hb. rewrite Z.sub_0_r. by apply (written_booted n s).
Qed.

Lemma saved_header k s s1 s' : 0 <= k -> allocator s -> saved k s s1 -> header_step s1 s' -> saved (k + 1) s s'.
Proof.
  intros Hk0 Ha (H1 & Ha1 & C1 & R1 & G1 & D1 & U1 & X1 & L1 & B1) Hh.
  pose proof (header_step_rest s1 s' Hh) as (Eg & Eh & Ef & Ec & Ed & Ep & Er & _). pose proof Hh as (_ & H2 & Sh & _ & R2 & Hk & _).
  split_and!; [done|by apply (allocator_ext s1)| |auto|congruence|by rewrite Eh|..].
  - intros j e. rewrite Ec. apply C1.
  - intros j Hj. split; [|unfold in_use; rewrite Ef, Eh; by apply U1]. rewrite Sh; [by apply U1|by apply (in_use_home s)].
  - by rewrite Ef.
  - rewrite Eh. by apply (listed_kept s _ (live (file s1))).
  - intros n Hn Hb. destruct (B1 n ltac:(lia) Hb) as [P1 Pz P2 _ P4]. apply (header_step_booted _ s1 s' Hh); [lia|done|done|done|].
    by replace (n - (k + 1) + 1) with (n - k) by lia.
Qed.

Lemma saved_file k s s1 f :
  saved k s s1 -> live f = live (file s1) -> (ready s1 -> ready (set_file f s1)) -> saved k s (set_file f s1).
Proof.
  intros (H1 & Ha1 & C1 & R1 & G1 & D1 & U1 & X1 & L1 & B1) Hl Hr. destruct (coherent_file s1 f H1 Hl) as [H2 Sh].
  split_and!; [done|by apply (allocator_ext s1)|done|auto|done|done| |done|..].
  - intros j Hj. split; [|by apply U1]. rewrite <-(proj1 (U1 j Hj)). unfold held, view. cbn [cache file set_file]. by rewrite Hl.
  - cbn [db_header file set_file]. by rewrite Hl.
  - intros n Hn Hb. destruct (B1 n Hn Hb) as [P1 Pz P2 P3 P4]. split; cbn [db_header header_dirty file set_file]; by rewrite ?Hl.
Qed.

Lemma saved_reused k s s1 b : saved k s s1 -> saved k s (set_allocation_reused b s1).
Proof.
  intros (H1 & Ha1 & C1 & R1 & G1 & D1 & U1 & X1 & L1 & B1).
  split_and!; [by destruct H1|by apply (allocator_ext s1)|done|intros Hr; exact (R1 Hr)|done|done|exact U1|done|done|].
  intros n Hn Hb. by destruct (B1 n Hn Hb).
Qed.

Lemma saved_less k k' s s' : k <= k' -> saved k s s' -> saved k' s s'.
Proof.
  intros Hk (H1 & Ha1 & C1 & R1 & G1 & D1 & U1 & X1 & L1 & B1). split_and!; try done.
  intros n Hn Hb. eapply booted_less; [|apply (B1 n); [lia|done]]. lia.
Qed.

(** What flushing needs *)
Definition bootable (s : Pager W) : Prop := ready s /\ booted 2 s.

Lemma flush_runs s :
  coherent s -> allocator s -> runs (flush crc32 iter) s (~ bootable s) (fun _ s' => saved 1 s s' /\ header_dirty s' = false).
Proof.
  intros Hs Ha. unfold flush. apply runs_bind. apply (available_runs accepts); [unfold bootable; tauto|].
  apply runs_bind. unfold runs at 1, gets. rewrite (co_writer s Hs). apply flush_pages_runs; [done|done|unfold bootable; tauto|].
  intros s1 Hw. apply runs_bind. unfold runs at 1, gets. pose proof (written_saved s s1 Hs Hw) as Hsv.
  destruct (header_dirty s1) eqn:Ed.
  - eapply runs_mono; [apply write_header_runs, Hw|..].
    + intros Hn [Hr Hb]. apply Hn. split; [by apply Hw|]. by eapply booted_newest, (written_booted 2 s).
    + intros [] s2 Hh. pose proof (header_step_rest s1 s2 Hh) as (_ & _ & _ & _ & Ed2 & _).
      split; [by apply (saved_header 0 s s1)|done].
  - unfold runs, mret, eff_ret. split; [by apply (saved_less 0)|done].
Qed.

Lemma sync_runs s :
  coherent s -> allocator s -> runs (sync crc32 iter) s (~ bootable s) (fun _ s' =>
    saved 2 s s' /\ header_dirty s' = false /\ unsynced (file s') = []).
Proof.
  intros Hs Ha. unfold sync. apply runs_bind. eapply runs_mono; [by apply flush_runs|done|]. intros [] s1 [Hsv Hd].
  apply runs_bind. unfold runs at 1, gets. apply runs_bind. unfold runs at 1, modify.
  set (s2 := set_allocation_reused false s1). assert (Hsv2 : saved 1 s s2) by (by apply saved_reused).
  assert (Hend : forall s3, saved 2 s s3 -> header_dirty s3 = false ->
    runs sync_file s3 (~ bootable s) (fun _ s' => saved 2 s s' /\ header_dirty s' = false /\ unsynced (file s') = [])).
  { intros s3 Hsv3 Hd3. eapply runs_mono; [apply sync_file_runs, Hsv3|..].
    - intros Hn [Hr _]. by apply Hn, Hsv3.
    - intros [] s4 ((E4 & _ & _ & Hu & Hr) & Hl). rewrite E4 in Hr |- *. split_and!; [by apply saved_file|done|done]. }
  apply runs_bind. destruct (allocation_reused s1).
  - apply on_err_runs; [by intros|]. eapply runs_mono; [apply write_header_and_sync_runs, Hsv2|..].
    + intros Hn [Hr Hb]. apply Hn. split; [by apply Hsv2|]. eapply booted_newest. by apply Hsv2; [|exact Hb].
    + intros [] s3 Hh. pose proof (header_step_rest s2 s3 Hh) as (_ & _ & _ & _ & Hd3 & _).
      apply Hend; [by apply (saved_header 1 s s2)|done].
  - unfold runs at 1, mret, eff_ret. apply Hend; [by apply (saved_less 1)|done].
Qed.
End pager.
