(* ===== verification/Reopen.v ===== *)
(** * Crash and reopening

    After [sync] has returned, a crash leaves the stable file; a pager opened on it finds the
    header and every page that was in use. *)

From S2P Require Import Prelude Vfs FileFormat Page PagerIo PageCache FreeList PageStore Pager Coherence Durability.
From Stdlib Require Import ZArith Lia.
#[local] Open Scope Z_scope.
#[local] Opaque slice zone.

Section reopen.
Context (crc32 : bytes -> Z) (crc32_u32 : forall b, u32_ok (crc32 b)).
Context (iter : gmap Z nat -> list (Z * nat)) (iter_perm : forall m, iter m ≡ₚ map_to_list m).

(** ** Recovery without a staged frame *)

Lemma clear_runs f :
  runs (PagerIo.clear_dwb_zone crc32) f (faults f <> None) (fun _ g =>
    live g = apply_writes (clear_writes crc32) (live f) /\ (faults f = None -> faults g = None)).
Proof.
  assert (Hc : calm (PagerIo.clear_dwb_zone crc32)).
  { apply calm_bind; [|intros _; exact calm_sync]. apply calm_for_each, Forall_forall. intros id _. apply calm_write_page. }
  pose proof (puts_clear crc32 f) as Hp. specialize (Hc f). pose proof (sure_clear crc32 f) as Hs. unfold runs.
  destruct (PagerIo.clear_dwb_zone crc32 f) as [g [a|e|]]; cbn [fst snd] in *; [|intros Hf|done].
  - split; [by apply (Hp a)|]. intros Hf. by apply Hs.
  - destruct (Hs Hf) as [_ [? ?]]. done.
Qed.

(** The file is as before, or its zone has been cleared. *)
Definition swept (b b' : bytes) : Prop := b' = b \/ b' = apply_writes (clear_writes crc32) b.

Lemma recover_runs f :
  zone_end <= zlen (live f) -> frame_pages crc32 (zone (live f)) = None ->
  runs (PagerIo.recover_from_dwb crc32) f (faults f <> None) (fun _ g => swept (live f) (live g) /\ (faults f = None -> faults g = None)).
Proof.
  intros Hz Hfr. unfold PagerIo.recover_from_dwb. fold zone_end. apply runs_bind, file_len_runs; [done|]. intros g1 H1 F1.
  destruct (Z.ltb_spec (zlen (live f)) zone_end); [lia|].
  apply runs_bind, seek_runs; [intros Hn H0; by apply Hn, F1|]. intros g2 H2 C2 F2.
  apply runs_bind, read_exact_runs.
  - intros Hn H0. by apply Hn, F2, F1.
  - rewrite C2, H2, H1. unfold zone_end in Hz. lia.
  - rewrite C2, H2, H1, zone_slice. intros g3 _ H3 F3. assert (E3 : live g3 = live f) by congruence.
    assert (F : faults f = None -> faults g3 = None) by (intros H0; exact (F3 (F2 (F1 H0)))). clear F1 F2 F3.
    assert (Hcl : runs (PagerIo.clear_dwb_zone crc32) g3 (faults f <> None)
      (fun _ g => swept (live f) (live g) /\ (faults f = None -> faults g = None))).
    { eapply runs_mono; [apply clear_runs|intros Hn H0; exact (Hn (F H0))|]. rewrite E3. intros _ g [Hl Hg]. split; [right; exact Hl|intros H0; exact (Hg (F H0))]. }
    destruct (negb _); [destruct (dwb_zone_is_clear _ _); [|exact Hcl]|].
    { unfold runs, mret, eff_ret. split; [left; exact E3|exact F]. }
    assert (Hdec : result_ok (decode_paged_dwb_frame crc32 (zone (live f))) = None).
    { by apply fmap_None in Hfr. }
    destruct (decode_paged_dwb_frame crc32 (zone (live f))) as [es| |]; [discriminate Hdec|exact Hcl|exact Hcl].
Qed.

Lemma swept_kept b b' :
  zone_end <= zlen b -> swept b b' ->
  zlen b' = zlen b /\ newest crc32 b' = newest crc32 b /\ (forall id, home id -> page_at b' id = page_at b id) /\
  (frame_pages crc32 (zone b) = None -> frame_pages crc32 (zone b') = None).
Proof.
  intros Hb [-> | ->]; [done|]. assert (Hz : frame_pages crc32 (zone (apply_writes (clear_writes crc32) b)) = None).
  { rewrite zone_apply by (done || apply clear_writes_in_zone). exact (frame_pages_cleared crc32 (zone b)). }
  revert Hz. set (b' := apply_writes (clear_writes crc32) b).
  pose proof (same_homes_zone_writes _ b (clear_writes_in_zone crc32)) as Hs. fold b' in Hs.
  assert (Hl : zlen b' = zlen b).
  { apply zlen_apply_inside; [|done]. eapply Forall_impl; [exact (clear_writes_in_zone crc32)|]. intros w [? ?].
    change dwb_zone_offset with 49152 in *. lia. }
  clearbody b'. intros Hz. destruct zone_numbers as (EZ & _ & E & EP). split_and!; [done| | |done].
  - unfold newest. replace (superblock_zone b') with (superblock_zone b); [done|]. symmetry. unfold superblock_zone. rewrite superblock_zone_size. apply slice_same; try lia. intros i Hi. apply Hs; [lia|unfold in_zone; lia].
  - intros id Hh. unfold page_at. rewrite Hl. destruct (Z.leb_spec ((id + 1) * PAGE_SIZE) (zlen b)); [|done]. apply f_equal.
    pose proof Hh as ([Hu _] & _). apply slice_same; try lia. intros i Hi.
    destruct (home_outside id i Hh) as [? ?]; [unfold in_page; lia|by apply Hs].
Qed.

(** ** Opening *)

Context {W : Type} `{WalBarrier W} (accepts : W -> Prop) (fresh : W -> Z -> bool) (Hlog : log_accepts accepts fresh) (Hcalm : log_calm (W := W)).
Implicit Types s : Pager W.
Abbreviation ready := (ready accepts).

(** A writer may open a file with this header. *)
Definition admits (cfg : PagerConfig) (h : DatabaseHeader) : Prop :=
  read_only cfg = false /\ PHASE3_DWB_ZONE_FILE_VERSION <= version h /\ version h <> PAGE_RECOVERY_READ_ONLY_FILE_VERSION /\
  (PAGE_DISK_RESIDENCY_FILE_VERSION <= version h -> disk_residency cfg = true).

Lemma new_coherent f path cfg (w : W) : paged (live f) -> read_only cfg = false -> coherent (Pager_new f path cfg w).
Proof.
  intros Hb Hro. destruct (cache_new_wf (cache_size cfg)) as [Hw Hc]. split; cbn [cache file config freelist Pager_new]; [done|exact Hb|done|..];
    intros id e; rewrite Hc; by rewrite lookup_empty.
Qed.

Lemma newest_header_runs {A} (k : DatabaseHeader -> eff (Pager W) PagerError A) h s F Q :
  coherent s -> ready s -> published crc32 (live (file s)) h ->
  (forall f, live f = live (file s) -> ready (set_file f s) -> runs (k h) (set_file f s) F Q) ->
  runs ('(_, image) ← newest_superblock crc32; h ← lift (map_err header_error (decode_database_header image)); k h) s F Q.
Proof.
  intros Hs Hr (sel & image & E & Eh) Hk. apply runs_bind. eapply runs_mono; [apply (newest_runs crc32 accepts s Hs)|..].
  - intros Hn. destruct Hn. split; [done|by rewrite E].
  - intros [sel' image'] s' (E' & f & -> & Hl & Hr'). rewrite E in E'. injection E' as <- <-.
    apply runs_bind. unfold runs at 1, lift. rewrite Eh. cbn [map_err]. by apply Hk; [|apply Hr'].
Qed.

Lemma layout_runs h s :
  coherent s -> ready s -> published crc32 (live (file s)) h -> admits (config s) h ->
  runs (ensure_phase3_dwb_zone_layout crc32) s False (fun _ s' => exists f, s' = set_file f s /\ live f = live (file s) /\ ready s').
Proof.
  intros Hs Hr Hp (Hro & Hv1 & Hv2 & Hv3). apply (newest_header_runs _ h); [done|done|done|]. intros f Hl Hr'. unfold runs. cbn [config set_file].
  rewrite Hro. destruct (Z.eqb_spec (version h) PAGE_RECOVERY_READ_ONLY_FILE_VERSION) as [|_]; [done|]. cbn [andb negb].
  destruct (Z.ltb_spec (version h) PHASE3_DWB_ZONE_FILE_VERSION); [lia|].
  destruct (Z.leb_spec PAGE_DISK_RESIDENCY_FILE_VERSION (version h)) as [Hd|_]; cbn [andb]; [rewrite (Hv3 Hd); cbn [negb andb]|]; by exists f.
Qed.

(** The pager that opening gives *)
Definition opened (b : bytes) (cfg : PagerConfig) (h : DatabaseHeader) (t : Pager W) : Prop :=
  coherent t /\ ready t /\ config t = cfg /\ (forall j, home j -> held t j = fitting j (page_at b j)) /\
  db_header t = with_page_count (Z.max (page_count h) ((zlen b + PAGE_SIZE - 1) / PAGE_SIZE)) h /\
  freelist t = from_header (freelist_head h) 0 /\ enabled (deferred_reclamation t) = false /\ allocation_fence_pending t = false /\
  (forall n, publishable crc32 b n -> header_fits h -> booted crc32 n t).

Lemma load_header_runs h s :
  coherent s -> ready s -> published crc32 (live (file s)) h -> (zlen (live (file s)) + PAGE_SIZE - 1) / PAGE_SIZE <= U32_MAX ->
  runs (load_header crc32) s False (fun _ t => exists f d, live f = live (file s) /\ ready t /\
    (d = false -> (zlen (live (file s)) + PAGE_SIZE - 1) / PAGE_SIZE <= page_count h) /\
    t = set_freelist (from_header (freelist_head h) 0) (set_db_header
      (with_page_count (Z.max (page_count h) ((zlen (live (file s)) + PAGE_SIZE - 1) / PAGE_SIZE)) h) (set_header_dirty d (set_file f s)))).
Proof.
  intros Hs Hr Hp Hu. apply (newest_header_runs _ h); [done|done|done|]. intros f Hl Hr'. apply runs_bind.
  assert (Hlen : runs (io file_len) f False (fun n g => n = zlen (live (file s)) /\ live g = live (file s) /\ faults g = None)).
  { apply file_len_runs; [intros Hn; destruct Hn; apply Hr'|]. rewrite Hl. intros g Hg Hf. split_and!; [done|congruence|]. apply Hf, Hr'. }
  unfold runs at 1, on_file, within. cbn [file set_file]. unfold runs in Hlen. destruct (io file_len f) as [g [n|e|]]; [|done|done].
  destruct Hlen as (-> & Hg & Hf). cbn [map_err]. apply runs_bind. unfold runs at 1, physical_extent, max_recovery_page. cbn [config set_file].
  rewrite (co_writer s Hs). destruct (Z.ltb_spec U32_MAX ((zlen (live (file s)) + PAGE_SIZE - 1) / PAGE_SIZE)); [lia|].
  unfold runs, modify, install_header. cbn [config set_file]. rewrite (co_writer s Hs), andb_true_r.
  set (n := (zlen (live (file s)) + PAGE_SIZE - 1) / PAGE_SIZE) in *.
  assert (Hr2 : ready (set_file g s)) by (split_and!; [exact Hf|apply Hr|apply Hr]).
  destruct (Z.ltb_spec (page_count h) n) as [Hlt|Hge].
  - exists g, true. rewrite Z.max_r by lia. split_and!; [done|exact Hr2|done|done].
  - exists g, (header_dirty s). rewrite Z.max_l by lia. replace (with_page_count (page_count h) h) with h by (by destruct h).
    split_and!; [done|exact Hr2|done|done].
Qed.

Lemma header_fits_count h n : header_fits h -> n <= U32_MAX -> header_fits (with_page_count (Z.max (page_count h) n) h).
Proof.
  intros ((?&?&Hc&?&?&?&?&?) & ? & ?) Hn. split; [|done]. unfold header_ok. split_and!; try done.
  unfold u32_ok in Hc |- *. cbn [page_count with_page_count]. unfold U32_MAX in Hn. lia.
Qed.

Lemma open_runs b path cfg w h :
  paged b -> published crc32 b h -> frame_pages crc32 (zone b) = None -> admits cfg h -> accepts w ->
  (zlen b + PAGE_SIZE - 1) / PAGE_SIZE <= U32_MAX ->
  exists t, open_owned crc32 iter (reopen b None) path cfg w false = (t, Ok tt) /\ opened b cfg h t.
Proof.
  intros Hb Hp Hfr Had Hw Hu. set (s0 := Pager_new (reopen b None) path cfg w).
  assert (H0 : coherent s0) by (apply new_coherent; [done|apply Had]). assert (R0 : ready s0) by done.
  assert (Hrun : runs (_ ← check_new_file false; _ ← ensure_phase3_dwb_zone_layout crc32; _ ← recover_from_dwb crc32; load_header crc32) s0
    False (fun _ t => opened b cfg h t)).
  2:{ destruct (runs_ready _ _ _ _ Hrun) as (t & [] & E & Ho); [tauto|]. by exists t. }
  apply runs_bind. unfold runs at 1, check_new_file, mret, eff_ret. apply runs_bind.
  eapply runs_mono; [by apply (layout_runs h s0)|done|]. intros [] s1 (f & -> & Hl & R1).
  change (live (file s0)) with b in Hl. destruct Hb as [Hz Hd]. apply runs_bind. unfold recover_from_dwb. apply runs_bind. unfold runs at 1, gets.
  cbn [config set_file s0 Pager_new]. rewrite (proj1 Had).
  assert (Hrec : runs (PagerIo.recover_from_dwb crc32) f False (fun _ g => swept b (live g) /\ faults g = None)).
  { eapply runs_mono; [apply recover_runs; by rewrite Hl|intros Hn; apply Hn, R1|]. rewrite Hl. intros _ g [? Hg]. split; [done|apply Hg, R1]. }
  unfold runs at 1, on_file, within. cbn [file set_file]. unfold runs in Hrec.
  destruct (PagerIo.recover_from_dwb crc32 f) as [g [[]|e|]]; cbn [map_err]; [|done|done]. destruct Hrec as [Hsw Hfg].
  destruct (swept_kept b (live g) Hz Hsw) as (Hlen & Hsb & Hpg & Hzn).
  change (set_file g (set_file f s0)) with (Pager_new g path cfg w). set (s2 := Pager_new g path cfg w).
  assert (H2 : coherent s2) by (apply new_coherent; [split; rewrite Hlen; done|apply Had]).
  eapply runs_mono; [apply (load_header_runs h s2 H2); [done| |by rewrite <-Hlen in Hu]|done|].
  { destruct Hp as (sel & image & E & Eh). exists sel, image. split; [|done]. change (newest crc32 (live g) = Some (sel, image)).
    by rewrite Hsb. }
  intros [] t (f' & d & Hl' & Hr & Hdd & ->). change (live (file s2)) with (live g) in *. rewrite Hlen in *.
  pose proof (new_coherent f' path cfg w) as H3. rewrite Hl' in H3. specialize (H3 (co_file s2 H2) (proj1 Had)).
  match goal with |- opened _ _ _ ?x => destruct (coherent_ext (Pager_new f' path cfg w) x) as [H4 _]; [done..|] end.
  split_and!; [done|done|done| |done|done|done|done|].
  - intros j Hj. unfold held, view. cbn [cache set_freelist set_db_header set_header_dirty set_file s2 Pager_new file].
    destruct (cache_new_wf (cache_size cfg)) as [_ ->]. rewrite lookup_empty, Hl'. by rewrite Hpg.
  - intros n (sel & image & En & Hn) Hf. rewrite <-Hsb in En.
    split; cbn [file db_header freelist set_freelist set_db_header set_header_dirty set_file header_dirty].
    + exists sel, image. by rewrite Hl'.
    + rewrite Hl'. by apply Hzn.
    + by apply header_fits_count.
    + intros ->. rewrite Z.max_l by (by apply Hdd). rewrite Hl'. destruct Hp as (sel' & image' & E' & Eh'). exists sel', image'.
      rewrite <-Hsb in E'. split; [done|]. rewrite Eh'. by destruct h.
    + done.
Qed.

(** ** Synchronising, crashing, opening *)

Lemma crash_leaves_stable f c : unsynced f = [] -> crash_image f c -> zlen c = zlen (stable f) -> c = stable f.
Proof.
  intros Hu [_ Hb] Hl. rewrite <-(slice_all c (zlen c)), <-(slice_all (stable f) (zlen c)) by (done || apply zlen_nonneg).
  pose proof (zlen_nonneg c). apply slice_same; try lia. intros i Hi. destruct (Hb i ltac:(lia)) as [?|(w & Hw & _)]; [done|].
  rewrite Hu in Hw. by apply elem_of_nil in Hw.
Qed.

(** A pager in operation: nothing fails, and [n] more publications of the header are possible. *)
Definition working (n : Z) : Pager W -> Prop := sound_pager accepts (booted crc32 n).

Lemma opened_in_use n b cfg s s' t :
  allocator s -> saved crc32 accepts 2 s s' -> booted crc32 n s' -> opened b cfg (db_header s') t ->
  (zlen b + PAGE_SIZE - 1) / PAGE_SIZE <= U32_MAX -> b = live (file s') ->
  working n t /\ forall j, in_use s j -> in_use t j /\ held t j = held s j.
Proof.
  intros Ha (H1 & Ha1 & C1 & _ & _ & Eh & U1 & X1 & _) Hb (Ht & Hrt & _ & Hh & Eht & Eft & Edt & Ept & Hbt) Hu ->.
  pose proof (bt_list _ _ _ Hb X1) as Ehd. pose proof (al_count s' Ha1) as Hc. split.
  - split_and!; [done| |done|by apply Hbt; apply Hb].
    split; rewrite ?Eht, ?Eft, ?Edt, ?Ept; cbn [page_count with_page_count free_pages from_header trunk_head].
    + done.
    + done.
    + change FIRST_ALLOCATABLE_PAGE with 67 in *. lia.
    + constructor.
    + split; [|apply not_elem_of_nil]. by destruct (bt_header _ _ _ Hb) as ((?&?&?&?&_) & _).
    + constructor.
  - intros j Hj. destruct (U1 j Hj) as [Ej (Hj' & Hjf & Hjt)]. pose proof (in_use_home s j Ha Hj) as Hhj. split.
    + unfold in_use. rewrite Eht, Eft. cbn [page_count with_page_count free_pages from_header trunk_head]. rewrite Ehd.
      split_and!; [lia|lia|apply not_elem_of_nil|done].
    + rewrite Hh by done. rewrite <-Ej. symmetry. by apply clean_held.
Qed.

Abbreviation writable_pages := (writable_pages crc32 fresh).



(** C7. [sync] never panics and fails only on a pager that was not ready: a failing device, an
    earlier failed write-back, a log that refuses, or no valid superblock.  When it returns, no
    write is pending; the stable file holds, for every page number in use, the page that the
    pager held; the free numbers are in trunks in front of the old trunks; and the newest
    superblock holds the header, of which only the trunk pointer has changed. *)
Theorem sync_durable s :
  coherent s -> allocator s ->
  match sync crc32 iter s with
  | (s', Ok _) =>
      unsynced (file s') = [] /\
      (forall j, in_use s j -> held s' j = held s j /\ fitting j (page_at (stable (file s')) j) = held s j) /\
      db_header s' = with_freelist_head (freelist_head (db_header s')) (db_header s) /\
      listed s (db_header s') (stable (file s')) /\
      (booted crc32 2 s -> published crc32 (stable (file s')) (db_header s'))
  | (_, Err _) => ~ (ready s /\ booted crc32 2 s)
  | (_, Panic) => False
  end.
Proof.
  intros Hs Ha. pose proof (sync_runs crc32 crc32_u32 iter iter_perm accepts fresh Hlog Hcalm s Hs Ha) as Hr. unfold runs in Hr.
  destruct (sync crc32 iter s) as [s' [[]|e|]]; [|exact Hr|exact Hr]. destruct Hr as ((H1 & Ha1 & C1 & _ & _ & Eh & U1 & _ & L1 & B1) & Hd & Hu).
  rewrite (synced_live (file s') Hu). split_and!; [done| |done|done|].
  - intros j Hj. destruct (U1 j Hj) as [E _]. split; [done|]. rewrite <-E. symmetry. apply clean_held; [done|done|by apply (in_use_home s)].
  - intros Hb. by apply (bt_clean _ _ _ (B1 2 ltac:(lia) Hb)).
Qed.

(** What a pager opened on the file keeps of [s] *)
Definition reopens (n : Z) (s s' : Pager W) (path : string) (cfg : PagerConfig) (w : W) : Prop :=
  forall c, crash_image (file s') c -> zlen c = zlen (stable (file s')) -> zlen c <= U32_MAX * PAGE_SIZE ->
  exists t, open_owned crc32 iter (reopen c None) path cfg w false = (t, Ok tt) /\ working n t /\ config t = cfg /\ version (db_header t) = version (db_header s) /\
    forall j, in_use s j -> in_use t j /\ held t j = held s j.

Lemma sync_reopens n s path cfg w :
  0 <= n -> working (n + 2) s -> admits cfg (db_header s) -> accepts w ->
  exists s', sync crc32 iter s = (s', Ok tt) /\ working n s' /\ reopens n s s' path cfg w.
Proof.
  intros Hn (Hs & Ha & Hr & Hb) (Hv0 & Hv1 & Hv2 & Hv3) Hw.
  destruct (runs_ready _ _ _ _ (sync_runs crc32 crc32_u32 iter iter_perm accepts fresh Hlog Hcalm s Hs Ha)) as (s' & [] & E & Hsv & Hd & Hu).
  { intros Hx. apply Hx. split; [done|]. eapply booted_less; [|exact Hb]. lia. }
  pose proof Hsv as (H1 & Ha1 & C1 & R1 & _ & Eh & U1 & X1 & _ & B1). pose proof (B1 (n + 2) ltac:(lia) Hb) as Hb'.
  replace (n + 2 - 2) with n in Hb' by lia. exists s'. split_and!; [done|by split_and!; [| |apply R1|]|].
  intros c Hc Hl Hsz. rewrite (crash_leaves_stable _ _ Hu Hc Hl), (synced_live _ Hu) in *. clear c Hc Hl.
  assert (Hpages : (zlen (live (file s')) + PAGE_SIZE - 1) / PAGE_SIZE <= U32_MAX).
  { destruct (co_file s' H1) as [_ [k Hk]]. rewrite Hk in *. change PAGE_SIZE with 16384 in *.
    replace (k * 16384 + 16384 - 1) with (16383 + k * 16384) by lia. rewrite Z.div_add by lia. change (16383 / 16384) with 0. lia. }
  destruct (open_runs (live (file s')) path cfg w (db_header s')) as (t & Et & Ho); [apply H1|by apply Hb'|apply Hb'|by rewrite Eh|done|done|].
  destruct (opened_in_use n _ _ s s' t Ha Hsv Hb' Ho Hpages eq_refl) as [Hwt Hin]. exists t. split_and!; [done|done|apply Ho| |done].
  destruct Ho as (_ & _ & _ & _ & -> & _). by rewrite Eh.
Qed.

(** C6. A crash after [sync] loses nothing: [sync] returns and leaves a working pager, and a pager
    opened on the file that a crash leaves then works again, and has every page number of before
    in use with the same page. *)
Theorem crash_after_sync n s path cfg w :
  0 <= n -> working (n + 2) s -> admits cfg (db_header s) -> accepts w ->
  exists s', sync crc32 iter s = (s', Ok tt) /\ working n s' /\
    forall c, crash_image (file s') c -> zlen c = zlen (stable (file s')) -> zlen c <= U32_MAX * PAGE_SIZE ->
    exists t, open_owned crc32 iter (reopen c None) path cfg w false = (t, Ok tt) /\ working n t /\ config t = cfg /\ version (db_header t) = version (db_header s) /\
      forall j, in_use s j -> in_use t j /\ held t j = held s j.
Proof. exact (sync_reopens n s path cfg w). Qed.
End reopen.

(** ** A sample pager *)

Module SamplePager.
(** A log that never fails and, like the recorder of the store, asks for the image of a page before it
    is first overwritten, except of reserved pages *)
Record log : Type := { reserved : gset Z; captured : gset Z }.

Definition needs (w : log) (id : Z) : bool :=
  (FIRST_ALLOCATABLE_PAGE <=? id) && bool_decide (id ∉ reserved w) && bool_decide (id ∉ captured w).

#[local] Instance log_barrier : WalBarrier log := {
  flush_until _ := mret tt;
  needs_page_image id w := (w, Ok (needs w id));
  capture_page_image p w :=
    (if needs w (page_id p) then {| reserved := reserved w; captured := {[page_id p]} ∪ captured w |} else w, Ok tt);
  reserve_pages start count w :=
    if U32_MAX <? start + count then (w, Err "ownership range overflow")
    else ({| reserved := list_to_set (seqZ start count) ∪ reserved w; captured := captured w |}, Ok tt);
  detach_free_pages _ := mret tt;
  has_page_ownership_journal := mret false;
  retire_pages _ := mret tt;
}.

Definition durable : log := {| reserved := ∅; captured := ∅ |}.
Definition accepts (_ : log) : Prop := True.
Definition fresh (w : log) (id : Z) : bool := bool_decide (id ∈ reserved w).

Lemma log_is_accepting : log_accepts accepts fresh.
Proof.
  split_and!.
  - intros w n _. by exists w, tt.
  - intros w id _. exists w, (needs w id). split_and!; [done|done|done|]. unfold needs, fresh. rewrite !andb_true_iff, !bool_decide_eq_true.
    intros [[_ ?] _]. by apply bool_decide_eq_false.
  - intros w p _. eexists _, tt. split_and!; [reflexivity|done|by intros id; cbn; destruct (needs w (page_id p))|done].
  - intros w a n Ha Hn Hu _. eexists. split_and!; [|done|].
    + unfold reserve_pages. cbn. destruct (Z.ltb_spec U32_MAX (a + n)); [lia|reflexivity].
    + intros id. unfold fresh. cbn. apply eq_true_iff_eq.
      rewrite orb_true_iff, andb_true_iff, !bool_decide_eq_true, elem_of_union, elem_of_list_to_set, elem_of_seqZ, Z.leb_le, Z.ltb_lt. tauto.
  - intros w ids _. by exists w, tt.
Qed.

Lemma log_is_calm : log_calm (W := log).
Proof. split_and!; try done. intros w a n. unfold reserve_pages. cbn. by destruct (U32_MAX <? a + n). Qed.

Definition header : DatabaseHeader := with_page_count FIRST_ALLOCATABLE_PAGE DatabaseHeader_default.
Definition image : bytes := splice (zeros PAGED_SUPERBLOCK_SLOT_SIZE) DB_MAGIC_OFFSET (database_header_bytes header).
Definition slot : bytes := sealed_slot byte_sum image 0 1.

(** The reserved pages with one superblock *)
Definition data : bytes := slot ++ zeros (zone_end - 4096).

Definition cfg : PagerConfig := {| disk_residency := true; cache_size := 16; read_only := false; verify_checksums := true; double_write := true |}.
Definition pager : Pager log := set_db_header header (Pager_new (reopen data None) "data.rdb" cfg durable).

Lemma newest_data : newest byte_sum data = Some ({| sel_copy_index := 0; sel_generation := 1 |}, slot).
Proof. by vm_compute. Qed.

Lemma no_staged_frame : frame_pages byte_sum (zone data) = None.
Proof. by vm_compute. Qed.

Lemma decode_slot : decode_database_header slot = Ok header.
Proof. by vm_compute. Qed.

Lemma header_is_fit : header_fits header.
Proof. by split_and!. Qed.

Lemma data_is_paged : paged data.
Proof.
  destruct zone_numbers as (_ & _ & EZ & EP). assert (E : zlen data = 67 * PAGE_SIZE).
  { unfold data, slot. rewrite zlen_app, zlen_sealed_slot, zlen_zeros by lia. replace (zlen image) with 4096 by (by vm_compute). lia. }
  split; rewrite E; [lia|]. apply Z.divide_factor_r.
Qed.

Lemma pager_booted : booted byte_sum 4 pager.
Proof.
  split; change (live (file pager)) with data.
  - eexists _, _. split; [exact newest_data|]. by split; [|vm_compute].
  - exact no_staged_frame.
  - exact header_is_fit.
  - intros _. eexists _, _. split; [exact newest_data|]. exact decode_slot.
  - done.
Qed.

Lemma pager_coherent : coherent pager.
Proof.
  destruct (coherent_ext (Pager_new (reopen data None) "data.rdb" cfg durable) pager) as [H _]; [done..| |exact H].
  apply new_coherent; [exact data_is_paged|done].
Qed.

Lemma pager_allocator : allocator pager.
Proof. split; cbn; [done|done|by vm_compute|constructor|split; [done|apply not_elem_of_nil]|constructor]. Qed.

Lemma pager_working : working byte_sum accepts 4 pager.
Proof. split_and!; [exact pager_coherent|exact pager_allocator|done|exact pager_booted]. Qed.

End SamplePager.

#[local] Existing Instance SamplePager.log_barrier.


Lemma sync_durable_witness :
  exists s', sync byte_sum map_to_list SamplePager.pager = (s', Ok tt) /\ unsynced (file s') = [].
Proof.
  pose proof (sync_durable byte_sum byte_sum_u32 map_to_list (fun _ => reflexivity _) SamplePager.accepts SamplePager.fresh SamplePager.log_is_accepting
    SamplePager.log_is_calm SamplePager.pager SamplePager.pager_coherent SamplePager.pager_allocator) as H.
  destruct (sync byte_sum map_to_list SamplePager.pager) as [s' [[]|e|]].
  - destruct H as [H _]. by exists s'.
  - destruct H. split; [done|]. by apply (booted_less byte_sum 4), SamplePager.pager_booted.
  - destruct H.
Defined.

Lemma crash_after_sync_witness :
  exists s' : Pager SamplePager.log, sync byte_sum map_to_list SamplePager.pager = (s', Ok tt) /\
    exists t, open_owned byte_sum map_to_list (reopen (stable (file s')) None) "data.rdb" SamplePager.cfg SamplePager.durable false = (t, Ok tt).
Proof.
  destruct (crash_after_sync byte_sum byte_sum_u32 map_to_list (fun _ => reflexivity _) SamplePager.accepts SamplePager.fresh SamplePager.log_is_accepting
    SamplePager.log_is_calm 2 SamplePager.pager "data.rdb" SamplePager.cfg SamplePager.durable ltac:(lia) SamplePager.pager_working) as (s' & E & _ & Hc); [done|done|].
  exists s'. split; [exact E|]. assert (Hl : zlen (stable (file s')) <= U32_MAX * PAGE_SIZE).
  { assert (Hz : (zlen (stable (file (sync byte_sum map_to_list SamplePager.pager).1)) <=? U32_MAX * PAGE_SIZE) = true) by (by vm_compute).
    rewrite E in Hz. by apply Z.leb_le. }
  destruct (Hc (stable (file s'))) as (t & Et & _); [|done|done|by exists t].
  split; [done|]. intros i _. by left.
Defined.
