(* ===== verification/Overflow.v ===== *)
(** * Overflow chains ([crates/reddb-engine/src/storage/overflow.rs])

    Values too large for a leaf cell, as chains of overflow pages over a page
    store: storing, reading and freeing a chain. *)

From S2P Require Import Prelude FileFormat Page PageStore.
From Stdlib Require Import ZArith Lia.

#[local] Set Warnings "-clear-no-such-hyp".

Definition OVERFLOW_PAGE_HEADER : Z := 8.
Definition OVERFLOW_PAYLOAD_PER_PAGE : Z := CONTENT_SIZE - OVERFLOW_PAGE_HEADER.

Inductive OverflowError : Type :=
| OverflowPager (e : PagerError)
| NotOverflowPage (page_id : Z)
| PayloadTooLarge (page_id len : Z)
| LengthMismatch (expected actual : Z)
| InvalidHead (page_id : Z).

#[global] Instance OverflowError_eq_dec : EqDecision OverflowError.
Proof. solve_decision. Defined.

Definition pages_needed (len : Z) : Z :=
  if len =? 0 then 1 else (len + OVERFLOW_PAYLOAD_PER_PAGE - 1) / OVERFLOW_PAYLOAD_PER_PAGE.

Definition is_overflow_page (page : bytes) : result OverflowError bool :=
  t ← map_err (fun e => OverflowPager (PagerPage e)) (page_type page);
  Ok (bool_decide (t = Overflow)).

(** [page.content()] starts after the page header. *)
Definition read_chain_header (page : bytes) : result OverflowError (Z * Z) :=
  is_overflow ← is_overflow_page page;
  if negb is_overflow then Err (NotOverflowPage (page_id page))
  else
    let next := u32_at page HEADER_SIZE in
    let len := u32_at page (HEADER_SIZE + 4) in
    if OVERFLOW_PAYLOAD_PER_PAGE <? len then Err (PayloadTooLarge (page_id page) len)
    else Ok (next, len).

Definition write_chain_header (page : bytes) (next payload_len : Z) : bytes :=
  put_u32 (put_u32 page HEADER_SIZE next) (HEADER_SIZE + 4) payload_len.

(** [Vec::with_capacity] panics above [isize::MAX] bytes. *)
Definition ISIZE_MAX : Z := 9223372036854775807.

Section chains.
Context {S : Type} `{PageStore S}.

Abbreviation M := (eff S OverflowError).

Fixpoint allocate_pages (n : nat) : M (list Z) :=
  match n with
  | O => mret []
  | Datatypes.S n =>
      page ← eff_map_err OverflowPager (allocate_page Overflow);
      ids ← allocate_pages n;
      mret (page_id page :: ids)
  end.

(** The page written for one chunk *)
Definition chunk_page (pid next : Z) (chunk : bytes) : bytes :=
  splice (write_chain_header (Page_new Overflow pid) next (as_u32 (zlen chunk)))
    (HEADER_SIZE + OVERFLOW_PAGE_HEADER) chunk.

Fixpoint store_chunks (page_ids : list Z) (bs : bytes) (offset : Z) : M unit :=
  match page_ids with
  | [] => mret tt
  | pid :: page_ids =>
      let next := default 0 (head page_ids) in
      let chunk_end := Z.min (offset + OVERFLOW_PAYLOAD_PER_PAGE) (zlen bs) in
      let chunk := slice bs offset (chunk_end - offset) in
      _ ← eff_map_err OverflowPager (write_page pid (chunk_page pid next chunk));
      store_chunks page_ids bs chunk_end
  end.

Definition store (bs : bytes) : M (Z * Z) :=
  let total_len := zlen bs in
  page_ids ← allocate_pages (Z.to_nat (pages_needed (zlen bs)));
  _ ← store_chunks page_ids bs 0;
  match page_ids with
  | [] => lift Panic
  | id :: _ => mret (id, total_len)
  end.

Fixpoint read_loop (fuel : nat) (current collected total_len : Z) (out : bytes) : M bytes :=
  if current =? 0 then
    if negb (collected =? total_len) then fail (LengthMismatch total_len collected)
    else mret out
  else
    match fuel with
    | O => out_of_fuel
    | Datatypes.S fuel =>
        page ← eff_map_err OverflowPager (read_page current);
        hdr ← lift (read_chain_header page);
        let collected := as_u64 (collected + hdr.2) in
        if total_len <? collected then fail (LengthMismatch total_len collected)
        else
          let payload := slice page (HEADER_SIZE + OVERFLOW_PAGE_HEADER) hdr.2 in
          read_loop fuel hdr.1 collected total_len (out ++ payload)
    end.

Definition read (fuel : nat) (head_page_id total_len : Z) : M bytes :=
  if ISIZE_MAX <? total_len then lift Panic else read_loop fuel head_page_id 0 total_len [].

Fixpoint free_loop (fuel : nat) (current : Z) (first : bool) : M unit :=
  if current =? 0 then mret tt
  else
    match fuel with
    | O => out_of_fuel
    | Datatypes.S fuel =>
        page ← eff_map_err OverflowPager (read_page current);
        is_overflow ← lift (is_overflow_page page);
        if negb is_overflow
        then fail (if first then InvalidHead current else NotOverflowPage current)
        else
          hdr ← lift (read_chain_header page);
          _ ← eff_map_err OverflowPager (free_page current);
          free_loop fuel hdr.1 false
    end.

Definition free (fuel : nat) (head_page_id : Z) : M unit := free_loop fuel head_page_id true.

End chains.

(** * Theorems *)

(** An overflow page with its link and its payload *)
Record chunk_at (p : bytes) (next : Z) (payload : bytes) : Prop := {
  chunk_len : zlen p = PAGE_SIZE;
  chunk_type : page_type p = Ok Overflow;
  chunk_next : u32_at p HEADER_SIZE = next;
  chunk_size : u32_at p (HEADER_SIZE + 4) = zlen payload;
  chunk_fits : zlen payload <= OVERFLOW_PAYLOAD_PER_PAGE;
  chunk_payload : slice p (HEADER_SIZE + OVERFLOW_PAGE_HEADER) (zlen payload) = payload;
}.

(** From [head], the pages [ids] of [m] form a chain that carries [bs]. *)
Inductive chain (m : gmap Z bytes) : Z -> list Z -> bytes -> Prop :=
| chain_end : chain m 0 [] []
| chain_page id next p payload ids bs :
    id <> 0 -> m !! id = Some p -> chunk_at p next payload -> chain m next ids bs ->
    chain m id (id :: ids) (payload ++ bs).

Lemma chain_frame m m' head ids bs :
  chain m head ids bs -> (forall id, id ∈ ids -> m' !! id = m !! id) -> chain m' head ids bs.
Proof.
  induction 1 as [|id next p payload ids bs Hid Hm Hc Hch IH]; intros Hf; [constructor|].
  apply (chain_page m' id next p); auto.
  - rewrite Hf by (by left). done.
  - apply IH. intros. apply Hf. by right.
Qed.

Lemma chain_head m head ids bs : chain m head ids bs -> default 0 (List.head ids) = head.
Proof. by destruct 1. Qed.

Lemma chunk_at_resealed p q next payload :
  resealed p q -> chunk_at p next payload -> chunk_at q next payload.
Proof.
  intros Hr [C1 C2 C3 C4 C5 C6]. pose proof Hr as (L & B & F). split.
  - lia.
  - by rewrite (resealed_page_type p q).
  - rewrite (resealed_u32 p q); [done|done|unfold HEADER_SIZE, PAGED_PAGE_HEADER_SIZE; lia..].
  - rewrite (resealed_u32 p q); [done|done|unfold HEADER_SIZE, PAGED_PAGE_HEADER_SIZE; lia..].
  - done.
  - rewrite F; [done|done|apply zlen_nonneg|].
    unfold HEADER_SIZE, PAGED_PAGE_HEADER_SIZE, OVERFLOW_PAGE_HEADER. lia.
Qed.

Lemma chunk_page_at pid next chunk :
  u32_ok pid -> u32_ok next -> zlen chunk <= OVERFLOW_PAYLOAD_PER_PAGE ->
  chunk_at (chunk_page pid next chunk) next chunk.
Proof.
  intros Hid Hn Hc. change OVERFLOW_PAYLOAD_PER_PAGE with 16344 in Hc.
  pose proof (zlen_nonneg chunk). pose proof (zlen_Page_new Overflow pid) as Hl.
  unfold chunk_page, write_chain_header, put_u32.
  change PAGE_SIZE with 16384 in *. change HEADER_SIZE with 32. change OVERFLOW_PAGE_HEADER with 8.
  unfold as_u32. rewrite (Z.mod_small (zlen chunk)) by lia.
  split; change PAGE_SIZE with 16384; change HEADER_SIZE with 32; change OVERFLOW_PAGE_HEADER with 8;
    change OVERFLOW_PAYLOAD_PER_PAGE with 16344.
  - by rewrite !zlen_splice.
  - unfold page_type, paged_page_type, u8_at. rewrite !slice_splice_ne by zlia.
    apply (proj1 (Page_new_fields Overflow pid Hid)).
  - rewrite !u32_at_splice_ne by zlia. apply u32_at_put; [lia|zlia|done].
  - rewrite u32_at_splice_ne by zlia. apply u32_at_put; [lia|zlia|unfold u32_ok; lia].
  - done.
  - apply slice_splice_eq; rewrite ?zlen_splice; lia.
Qed.

Lemma chunk_page_id pid next chunk : u32_ok pid -> page_id (chunk_page pid next chunk) = pid.
Proof.
  intros Hid. pose proof (zlen_Page_new Overflow pid) as Hl. unfold chunk_page, write_chain_header, put_u32, page_id, paged_page_id.
  pose proof (zlen_nonneg chunk). change PAGE_SIZE with 16384 in *. change HEADER_SIZE with 32. change OVERFLOW_PAGE_HEADER with 8.
  rewrite !u32_at_splice_ne by zlia. apply (proj2 (proj2 (proj2 (proj2 (Page_new_fields Overflow pid Hid))))).
Qed.

Lemma read_chain_header_at p next payload :
  chunk_at p next payload -> read_chain_header p = Ok (next, zlen payload).
Proof.
  intros [C1 C2 C3 C4 C5 C6]. unfold read_chain_header, is_overflow_page. rewrite C2.
  cbn [map_err mbind result_bind]. rewrite bool_decide_true by done. cbn [negb].
  rewrite C3, C4. by rewrite (proj2 (Z.ltb_ge _ _)) by lia.
Qed.

Lemma pages_needed_enough len :
  0 <= len -> 1 <= pages_needed len /\ len <= OVERFLOW_PAYLOAD_PER_PAGE * pages_needed len.
Proof.
  intros Hl. unfold pages_needed. change OVERFLOW_PAYLOAD_PER_PAGE with 16344.
  destruct (Z.eqb_spec len 0) as [->|]; [lia|]. split.
  - apply Z.div_le_lower_bound; lia.
  - pose proof (Z.div_mod (len + 16344 - 1) 16344 ltac:(lia)).
    pose proof (Z.mod_pos_bound (len + 16344 - 1) 16344 ltac:(lia)). lia.
Qed.

Section laws.
Context {S : Type} `{HS : PageStore S} `{!PageStoreLaws S}.
Implicit Types s : S.

Lemma allocate_pages_ok n s k :
  room s (n + k) ->
  exists s' ids, allocate_pages n s = (s', Ok ids) /\ length ids = n /\ NoDup ids /\
    Forall (fun id => (id ∉ owned s) /\ id ∈ owned s' /\ id <> 0 /\ u32_ok id) ids /\
    (forall id, id ∉ ids -> pages s' !! id = pages s !! id) /\ owned s ⊆ owned s' /\ room s' k.
Proof.
  revert s. induction n as [|n IH]; intros s Hr; cbn [allocate_pages].
  { exists s, []. split_and!; [done|done|constructor|constructor|done|done|done]. }
  destruct (allocate_page_ok s Overflow (n + k) Hr) as (s1 & id & E & Hn & H0 & Hu & Ho & Hp & Hr1).
  rewrite (eff_bind_ok _ _ _ _ _ (eff_map_err_ok OverflowPager _ _ _ _ E)).
  destruct (IH s1 Hr1) as (s2 & ids & E2 & Hlen & Hnd & Hids & Hm & Hsub & Hr2).
  rewrite (eff_bind_ok _ _ _ _ _ E2).
  rewrite (proj2 (proj2 (proj2 (proj2 (Page_new_fields Overflow id Hu))))). rewrite Forall_forall in Hids.
  assert (Hni : id ∉ ids) by (intros Hin; destruct (Hids id Hin) as [Hx _]; rewrite Ho in Hx; clear -Hx; set_solver).
  rewrite Ho in Hsub. exists s2, (id :: ids). split_and!; [done|cbn; lia|by constructor| | |clear -Hsub; set_solver|done].
  - constructor; [split_and!; [done|clear -Hsub; set_solver|done|done]|]. apply Forall_forall. intros x Hx.
    destruct (Hids x Hx) as (A & B & C). rewrite Ho in A. split; [clear -A; set_solver|done].
  - intros x [Hx1 Hx2]%not_elem_of_cons. by rewrite Hm, Hp.
Qed.

Lemma store_chunks_ok ids bs offset s :
  NoDup ids -> Forall (fun id => id ∈ owned s /\ id <> 0 /\ u32_ok id) ids ->
  0 <= offset <= zlen bs -> zlen bs - offset <= OVERFLOW_PAYLOAD_PER_PAGE * zlen ids ->
  exists s', store_chunks ids bs offset s = (s', Ok tt) /\
    chain (pages s') (default 0 (head ids)) ids (slice bs offset (zlen bs - offset)) /\
    (forall id, id ∉ ids -> pages s' !! id = pages s !! id) /\
    (forall n, room s n -> room s' n).
Proof.
  revert s offset. induction ids as [|pid ids IH]; intros s offset Hnd Hids Ho Hfit;
    cbn [store_chunks].
  { exists s. split_and!; try done. unfold zlen at 2 in Hfit. cbn in Hfit.
    replace (zlen bs - offset) with 0 by lia. rewrite slice_0. constructor. }
  apply NoDup_cons in Hnd as [Hni Hnd]. apply Forall_cons in Hids as [(Hin & H0 & Hu) Hids].
  change OVERFLOW_PAYLOAD_PER_PAGE with 16344 in *. rewrite zlen_cons in Hfit.
  pose proof (zlen_nonneg ids).
  remember (Z.min (offset + 16344) (zlen bs)) as ce eqn:Hce. set (chunk := slice bs offset (ce - offset)).
  assert (Hcl : zlen chunk = ce - offset) by (unfold chunk; rewrite zlen_slice; lia).
  assert (Hn32 : u32_ok (default 0 (head ids))).
  { destruct ids as [|i ids]; cbn; [unfold u32_ok; lia|]. by apply Forall_cons in Hids as [(_ & _ & ?) _]. }
  pose proof (chunk_page_at pid (default 0 (head ids)) chunk Hu Hn32) as Hc.
  change OVERFLOW_PAYLOAD_PER_PAGE with 16344 in Hc. specialize (Hc ltac:(lia)).
  destruct (write_page_ok s pid _ Hin (chunk_len _ _ _ Hc) (chunk_page_id pid _ _ Hu)) as (s1 & q & E & Hp & Ho1 & Hq & Hr).
  rewrite (eff_bind_ok _ _ _ _ _ (eff_map_err_ok OverflowPager _ _ _ _ E)).
  destruct (IH s1 ce Hnd) as (s2 & E2 & Hch & Hf & Hr2); [|lia|lia|].
  { eapply Forall_impl; [exact Hids|]. intros x (A & B & C). by rewrite Ho1. }
  exists s2. split_and!; [done| |intros; rewrite Hf by set_solver; rewrite Hp, lookup_insert_ne by set_solver; done|auto].
  replace (slice bs offset (zlen bs - offset)) with (chunk ++ slice bs ce (zlen bs - ce)).
  - apply (chain_page _ pid (default 0 (head ids)) q); [done| |by eapply chunk_at_resealed|done].
    rewrite Hf by done. by rewrite Hp, lookup_insert_eq.
  - unfold chunk. rewrite (slice_join bs offset (ce - offset) ce (zlen bs - ce)) by lia. f_equal; lia.
Qed.

(** The new chain lies outside the pages the store held, which stay as they were. *)
Lemma store_ok bs s k :
  room s (Z.to_nat (pages_needed (zlen bs)) + k) ->
  exists s' head ids, store bs s = (s', Ok (head, zlen bs)) /\
    chain (pages s') head ids bs /\ head <> 0 /\ u32_ok head /\
    NoDup ids /\ length ids = Z.to_nat (pages_needed (zlen bs)) /\
    Forall (fun id => pages s !! id = None /\ id <> 0 /\ u32_ok id) ids /\
    (forall id, id ∉ ids -> pages s' !! id = pages s !! id) /\ room s' k.
Proof.
  intros Hr. pose proof (zlen_nonneg bs).
  destruct (pages_needed_enough (zlen bs)) as [N1 N2]; [done|].
  unfold store. destruct (allocate_pages_ok _ s k Hr) as (s1 & ids & E & Hl & Hnd & Hids & Hm & _ & Hr1).
  rewrite (eff_bind_ok _ _ _ _ _ E).
  destruct (store_chunks_ok ids bs 0 s1 Hnd) as (s2 & E2 & Hc & Hf & Hr2).
  { eapply Forall_impl; [exact Hids|]. by intros id (_ & ? & ? & ?). }
  { lia. }
  { unfold zlen at 2. rewrite Hl. change OVERFLOW_PAYLOAD_PER_PAGE with 16344 in *. lia. }
  rewrite (eff_bind_ok _ _ _ _ _ E2). rewrite Z.sub_0_r, slice_all in Hc by done.
  destruct ids as [|id ids]; [cbn in Hl; lia|].
  pose proof Hids as [(_ & _ & ? & ?) _]%Forall_cons.
  exists s2, id, (id :: ids). split_and!; try done; [| |auto].
  - eapply Forall_impl; [exact Hids|]. intros x (A & _ & B & C). split; [by apply not_owned|done].
  - intros x Hx. by rewrite Hf, Hm.
Qed.

Lemma read_loop_ok m fuel head ids bs collected out s :
  chain m head ids bs -> pages s = m -> (length ids <= fuel)%nat -> 0 <= collected ->
  u64_ok (collected + zlen bs) ->
  exists s', read_loop fuel head collected (collected + zlen bs) out s = (s', Ok (out ++ bs)) /\
    pages s' = m /\ (forall n, room s n -> room s' n).
Proof.
  intros Hc. revert fuel collected out s.
  induction Hc as [|id next p payload ids bs Hid Hm Hp Hc IH]; intros fuel collected out s Hs Hf H0 Hu.
  { exists s. rewrite Z.add_0_r, app_nil_r. destruct fuel; cbn; by rewrite Z.eqb_refl. }
  destruct fuel as [|fuel]; [cbn in Hf; lia|]. cbn [read_loop].
  rewrite (proj2 (Z.eqb_neq _ _)) by done. rewrite <-Hs in Hm.
  destruct (read_page_ok s id p Hm) as (s1 & E & Hp1 & Ho1 & Hr1).
  rewrite (eff_bind_ok _ _ _ _ _ (eff_map_err_ok OverflowPager _ _ _ _ E)).
  rewrite (eff_bind_lift _ _ _ _ (read_chain_header_at _ _ _ Hp)). cbn [fst snd].
  pose proof (zlen_nonneg payload). pose proof (zlen_nonneg bs). rewrite zlen_app in *.
  unfold as_u64. rewrite Z.mod_small by (unfold u64_ok in Hu; lia).
  rewrite (proj2 (Z.ltb_ge _ _)) by lia. rewrite (chunk_payload _ _ _ Hp).
  destruct (IH fuel (collected + zlen payload) (out ++ payload) s1) as (s2 & E2 & Hp2 & Hr2);
    [congruence|cbn in Hf; lia|lia|unfold u64_ok in *; lia|].
  exists s2. rewrite Z.add_assoc, app_assoc. auto.
Qed.

Lemma read_ok fuel head ids bs s :
  chain (pages s) head ids bs -> (length ids <= fuel)%nat -> zlen bs <= ISIZE_MAX ->
  exists s', read fuel head (zlen bs) s = (s', Ok bs) /\ pages s' = pages s /\
    (forall n, room s n -> room s' n).
Proof.
  intros Hc Hf Hl. pose proof (zlen_nonneg bs). unfold read.
  rewrite (proj2 (Z.ltb_ge _ _)) by lia.
  apply (read_loop_ok (pages s) fuel head ids bs 0 [] s); auto; [lia|].
  unfold u64_ok, ISIZE_MAX in *. lia.
Qed.

Lemma free_loop_ok m fuel head ids bs first s :
  chain m head ids bs -> (forall id, id ∈ ids -> pages s !! id = m !! id) ->
  NoDup ids -> (length ids <= fuel)%nat ->
  exists s', free_loop fuel head first s = (s', Ok tt) /\
    (forall id, pages s' !! id = if decide (id ∈ ids) then None else pages s !! id) /\
    (forall n, room s n -> room s' n).
Proof.
  intros Hc. revert fuel first s.
  induction Hc as [|id next p payload ids bs Hid Hm Hp Hc IH]; intros fuel first s Hs Hnd Hf.
  { exists s. split_and!; [by destruct fuel| |done].
    intros id. by rewrite decide_False by apply not_elem_of_nil. }
  apply NoDup_cons in Hnd as [Hni Hnd].
  destruct fuel as [|fuel]; [cbn in Hf; lia|]. cbn [free_loop].
  rewrite (proj2 (Z.eqb_neq _ _)) by done. rewrite <-Hs in Hm by (by left).
  destruct (read_page_ok s id p Hm) as (s1 & E & Hp1 & Ho1 & Hr1).
  rewrite (eff_bind_ok _ _ _ _ _ (eff_map_err_ok OverflowPager _ _ _ _ E)).
  rewrite (eff_bind_lift _ _ _ true)
    by (unfold is_overflow_page; rewrite (chunk_type _ _ _ Hp); reflexivity). cbn [negb].
  rewrite (eff_bind_lift _ _ _ _ (read_chain_header_at _ _ _ Hp)). cbn [fst snd].
  destruct (free_page_ok s1 id) as (s2 & E2 & Hp2 & _ & Hr2); [rewrite Ho1; by eapply pages_owned|].
  rewrite (eff_bind_ok _ _ _ _ _ (eff_map_err_ok OverflowPager _ _ _ _ E2)).
  destruct (IH fuel false s2) as (s3 & E3 & Hp3 & Hr3); [|done|cbn in Hf; lia|].
  { intros x Hx. rewrite Hp2, Hp1, lookup_delete_ne by (intros ->; done). apply Hs. by right. }
  exists s3. split_and!; [done| |auto]. intros x. rewrite Hp3, Hp2, Hp1, lookup_delete.
  repeat case_decide; subst; set_solver.
Qed.

Lemma free_ok fuel head ids bs s :
  chain (pages s) head ids bs -> NoDup ids -> (length ids <= fuel)%nat ->
  exists s', free fuel head s = (s', Ok tt) /\
    (forall id, pages s' !! id = if decide (id ∈ ids) then None else pages s !! id) /\
    (forall n, room s n -> room s' n).
Proof. intros. by eapply free_loop_ok. Qed.

(** C35. A value stored as a chain is read back whole, in the pages the chain was
    given and no others; freeing the chain leaves the store with exactly the pages
    it had before. *)
Theorem overflow_roundtrip fuel bs s :
  room s (Z.to_nat (pages_needed (zlen bs))) -> zlen bs <= ISIZE_MAX ->
  (Z.to_nat (pages_needed (zlen bs)) <= fuel)%nat ->
  exists head s1 s2 s3,
    store bs s = (s1, Ok (head, zlen bs)) /\
    (forall id p, pages s !! id = Some p -> pages s1 !! id = Some p) /\
    read fuel head (zlen bs) s1 = (s2, Ok bs) /\ pages s2 = pages s1 /\
    free fuel head s2 = (s3, Ok tt) /\ pages s3 = pages s.
Proof.
  intros Hr Hl Hf. destruct (store_ok bs s 0) as (s1 & head & ids & E1 & Hc & _ & _ & Hnd & Hn & Hids & Hfr & _);
    [by rewrite Nat.add_0_r|].
  destruct (read_ok fuel head ids bs s1 Hc) as (s2 & E2 & Hp2 & _); [lia|done|].
  rewrite <-Hp2 in Hc. destruct (free_ok fuel head ids bs s2 Hc Hnd) as (s3 & E3 & Hp3 & _); [lia|].
  rewrite Forall_forall in Hids.
  exists head, s1, s2, s3. split_and!; try done.
  - intros id p Hp. rewrite Hfr; [done|]. intros Hin. destruct (Hids id Hin). congruence.
  - apply map_eq. intros id. rewrite Hp3. case_decide as Hin.
    + by destruct (Hids id Hin) as [-> _].
    + by rewrite Hp2, Hfr.
Qed.

(** A chain whose length differs from the recorded one is reported, never
    truncated or extended. *)
Theorem overflow_length_checked fuel head ids bs total s :
  chain (pages s) head ids bs -> (length ids <= fuel)%nat -> zlen bs <= ISIZE_MAX ->
  0 <= total <= ISIZE_MAX -> total <> zlen bs ->
  exists s' actual, read fuel head total s = (s', Err (LengthMismatch total actual)).
Proof.
  intros Hc Hf Hl Ht Hne. unfold read. rewrite (proj2 (Z.ltb_ge _ _)) by lia.
  assert (G : forall m fuel collected out s, chain m head ids bs -> pages s = m ->
    (length ids <= fuel)%nat -> 0 <= collected <= total -> u64_ok (collected + zlen bs) ->
    total <> collected + zlen bs ->
    exists s' actual, read_loop fuel head collected total out s = (s', Err (LengthMismatch total actual))).
  2: { apply (G (pages s)); auto; [lia|]. pose proof (zlen_nonneg bs). unfold u64_ok, ISIZE_MAX in *. lia. }
  clear. intros m fuel collected out s Hc. revert fuel collected out s.
  induction Hc as [|id next p payload ids bs Hid Hm Hp Hc IH]; intros fuel collected out s Hs Hf H0 Hu Hne.
  { exists s, collected. change (zlen []) with 0 in Hne.
    destruct fuel; cbn; rewrite (proj2 (Z.eqb_neq _ _)) by lia; done. }
  destruct fuel as [|fuel]; [cbn in Hf; lia|]. cbn [read_loop].
  rewrite (proj2 (Z.eqb_neq _ _)) by done. rewrite <-Hs in Hm.
  destruct (read_page_ok s id p Hm) as (s1 & E & Hp1 & Ho1 & Hr1).
  rewrite (eff_bind_ok _ _ _ _ _ (eff_map_err_ok OverflowPager _ _ _ _ E)).
  rewrite (eff_bind_lift _ _ _ _ (read_chain_header_at _ _ _ Hp)). cbn [fst snd].
  pose proof (zlen_nonneg payload). pose proof (zlen_nonneg bs). rewrite zlen_app in *.
  unfold as_u64. rewrite Z.mod_small by (unfold u64_ok in Hu; lia).
  destruct (Z.ltb_spec total (collected + zlen payload)); [by do 2 eexists|].
  rewrite (chunk_payload _ _ _ Hp).
  apply IH; [congruence|cbn in Hf; lia|lia|unfold u64_ok in *; lia|lia].
Qed.

(** Reading a chain that runs into a cycle of pages without payload never ends:
    two such pages that point to each other use up any fuel. *)
Theorem overflow_cycle_never_ends fuel a b pa pb total s :
  a <> 0 -> b <> 0 -> pages s !! a = Some pa -> pages s !! b = Some pb ->
  chunk_at pa b [] -> chunk_at pb a [] -> 0 <= total <= ISIZE_MAX ->
  (read fuel a total s).2 = Panic.
Proof.
  intros Ha Hb Hpa Hpb Ca Cb Ht. unfold read. rewrite (proj2 (Z.ltb_ge _ _)) by lia.
  assert (G : forall c fuel s, c = a \/ c = b -> pages s !! a = Some pa -> pages s !! b = Some pb ->
    (read_loop fuel c 0 total [] s).2 = Panic); [|auto].
  clear fuel s Hpa Hpb. intros c fuel. revert c.
  induction fuel as [|fuel IH]; intros c s Hc Hpa Hpb; cbn [read_loop];
    rewrite (proj2 (Z.eqb_neq c 0)) by (destruct Hc; congruence); [done|].
  assert (exists p d, pages s !! c = Some p /\ chunk_at p d [] /\ (d = a \/ d = b)) as (p & d & Hp & Cp & Hd)
    by (destruct Hc as [-> | ->]; eauto 8).
  destruct (read_page_ok s c p Hp) as (s1 & E & Hp1 & _ & _).
  rewrite (eff_bind_ok _ _ _ _ _ (eff_map_err_ok OverflowPager _ _ _ _ E)).
  rewrite (eff_bind_lift _ _ _ _ (read_chain_header_at _ _ _ Cp)). cbn [fst snd].
  change (as_u64 (0 + zlen (@nil Z))) with 0. rewrite (proj2 (Z.ltb_ge _ _)) by lia.
  rewrite (chunk_payload _ _ _ Cp). apply IH; [done|congruence..].
Qed.

End laws.

(** ** Instances of the theorems *)

Lemma overflow_roundtrip_witness :
  exists head s1 s2 s3,
    store [1; 2; 3] empty_store = (s1, Ok (head, zlen [1; 2; 3])) /\
    (forall id p, pages empty_store !! id = Some p -> pages s1 !! id = Some p) /\
    read 1 head (zlen [1; 2; 3]) s1 = (s2, Ok [1; 2; 3]) /\ pages s2 = pages s1 /\
    free 1 head s2 = (s3, Ok tt) /\ pages s3 = pages empty_store.
Proof.
  apply (overflow_roundtrip 1 [1; 2; 3] empty_store);
    [apply empty_room; vm_compute; discriminate|vm_compute; discriminate|vm_compute; lia].
Defined.

(** One page with the three bytes *)
Definition sample_chain : MemStore :=
  {| mem_pages := {[1 := chunk_page 1 0 [1; 2; 3]]}; mem_next := 2 |}.

Lemma overflow_length_checked_witness :
  exists s' actual, read 1 1 5 sample_chain = (s', Err (LengthMismatch 5 actual)).
Proof.
  apply (overflow_length_checked 1 1 [1] [1; 2; 3] 5 sample_chain).
  - change [1; 2; 3] with ([1; 2; 3] ++ []). apply (chain_page _ 1 0 (chunk_page 1 0 [1; 2; 3])).
    + lia.
    + apply lookup_singleton_eq.
    + apply chunk_page_at; [unfold u32_ok; lia..|vm_compute; discriminate].
    + constructor.
  - cbn; lia.
  - vm_compute; discriminate.
  - unfold ISIZE_MAX; lia.
  - vm_compute; discriminate.
Defined.

(** Two pages that point to each other *)
Definition sample_cycle : MemStore :=
  {| mem_pages := <[1 := chunk_page 1 2 []]> {[2 := chunk_page 2 1 []]}; mem_next := 3 |}.

Lemma overflow_cycle_never_ends_witness : (read 1000 1 7 sample_cycle).2 = Panic.
Proof.
  apply (overflow_cycle_never_ends 1000 1 2 (chunk_page 1 2 []) (chunk_page 2 1 []) 7 sample_cycle).
  - lia.
  - lia.
  - apply lookup_insert_eq.
  - unfold sample_cycle. cbn [pages MemStore_laws mem_pages]. rewrite lookup_insert_ne by lia.
    apply lookup_singleton_eq.
  - apply chunk_page_at; [unfold u32_ok; lia..|vm_compute; discriminate].
  - apply chunk_page_at; [unfold u32_ok; lia..|vm_compute; discriminate].
  - unfold ISIZE_MAX; lia.
Defined.
