(* ===== verification/ValueLayout.v ===== *)
(** * Value cells ([btree_value_layout.rs], [vector_value_codec.rs] and
    [btree/value_layout.rs])

    What a leaf stores for a value: the raw bytes, an LZ4 block, or a pointer to
    an overflow chain of either.  [lz4_flex] is a parameter. *)

From S2P Require Import Prelude FileFormat Page PageStore Overflow.
From Stdlib Require Import ZArith Lia.

#[local] Set Warnings "-clear-no-such-hyp".

(** ** The codec *)

Inductive ValueFlag : Type := Raw | Lz4.

Inductive ValueCodecError : Type :=
| CodecUnknownFlag (b : Z)
| TruncatedHeader
| Lz4Decode (msg : string).

#[global] Instance ValueFlag_eq_dec : EqDecision ValueFlag.
Proof. solve_decision. Defined.
#[global] Instance ValueCodecError_eq_dec : EqDecision ValueCodecError.
Proof. solve_decision. Defined.

Definition ValueFlag_from_byte (b : Z) : result ValueCodecError ValueFlag :=
  if b =? 0 then Ok Raw else if b =? 1 then Ok Lz4 else Err (CodecUnknownFlag b).

Definition decoded_length (flag : ValueFlag) (bs : bytes) : result ValueCodecError Z :=
  match flag with
  | Raw => Ok (zlen bs)
  | Lz4 => if zlen bs <? 4 then Err TruncatedHeader else Ok (u32_at bs 0)
  end.

Section codec.
Context (lz4_compress : bytes -> bytes) (lz4_decompress : bytes -> Z -> string + bytes).

Definition codec_encode (input : bytes) : ValueFlag * bytes :=
  if bool_decide (input = []) then (Raw, [])
  else
    let compressed := lz4_compress input in
    if zlen compressed + 4 <? zlen input
    then (Lz4, le_bytes 4 (as_u32 (zlen input)) ++ compressed)
    else (Raw, input).

Definition would_encode_to (input : bytes) : Z :=
  if bool_decide (input = []) then 0
  else
    let lz4_total := zlen (lz4_compress input) + 4 in
    if lz4_total <? zlen input then lz4_total else zlen input.

Definition codec_decode (flag : ValueFlag) (bs : bytes) : result ValueCodecError bytes :=
  match flag with
  | Raw => Ok bs
  | Lz4 =>
      raw_len ← decoded_length flag bs;
      match lz4_decompress (slice bs 4 (zlen bs - 4)) raw_len with
      | inr out => Ok out
      | inl msg => Err (Lz4Decode msg)
      end
  end.

End codec.

(** ** The cell *)

Definition BTREE_VALUE_OVERFLOW_THRESHOLD : Z := PAGED_PAGE_SIZE / 4.
Definition BTREE_VALUE_COMPRESSION_THRESHOLD : Z := 1024.
Definition BTREE_VALUE_MAX_SIZE : Z := 256 * 1024 * 1024.
Definition FLAG_POINTER : Z := 1.
Definition FLAG_COMPRESSED : Z := 2.
Definition FLAG_RESERVED_MASK : Z := 255 - 3.
Definition POINTER_PAYLOAD_LEN : Z := 4 + 8.
Definition BTREE_VALUE_POINTER_CELL_LEN : Z := 1 + POINTER_PAYLOAD_LEN.

Inductive BTreeValueCell : Type :=
| Inline (is_compressed : bool) (payload : bytes)
| Pointer (is_compressed : bool) (head_page_id total_len : Z).

Inductive BTreeValueCellError : Type :=
| CellUnknownFlag (b : Z)
| CellTruncatedPointer (got : Z).

Definition encode_btree_inline_raw (value : bytes) : bytes := 0 :: value.
Definition encode_btree_inline_compressed (codec_bytes : bytes) : bytes :=
  FLAG_COMPRESSED :: codec_bytes.
Definition encode_btree_pointer (head_page_id total_len : Z) (is_compressed : bool) : bytes :=
  let flag := if is_compressed then Z.lor FLAG_POINTER FLAG_COMPRESSED else FLAG_POINTER in
  flag :: le_bytes 4 head_page_id ++ le_bytes 8 total_len.

Definition decode_btree_value_cell (stored : bytes) : result BTreeValueCellError BTreeValueCell :=
  match stored with
  | [] => Ok (Inline false [])
  | flag :: payload =>
      if negb (Z.land flag FLAG_RESERVED_MASK =? 0) then Err (CellUnknownFlag flag)
      else
        let is_pointer := negb (Z.land flag FLAG_POINTER =? 0) in
        let is_compressed := negb (Z.land flag FLAG_COMPRESSED =? 0) in
        if negb is_pointer then Ok (Inline is_compressed payload)
        else if negb (zlen payload =? POINTER_PAYLOAD_LEN)
        then Err (CellTruncatedPointer (zlen payload))
        else Ok (Pointer is_compressed (u32_at payload 0) (u64_at payload 4))
  end.

Definition btree_value_pointer_head (stored : bytes) : option Z :=
  match decode_btree_value_cell stored with
  | Ok (Pointer _ head _) => Some head
  | _ => None
  end.

Definition btree_projected_cell_len (input_len codec_len : Z) : Z :=
  if input_len <=? BTREE_VALUE_COMPRESSION_THRESHOLD then 1 + input_len
  else
    let stored_len := Z.min input_len codec_len in
    if stored_len <=? BTREE_VALUE_OVERFLOW_THRESHOLD then 1 + stored_len
    else BTREE_VALUE_POINTER_CELL_LEN.

(** ** The layout *)

Inductive ValueLayoutError : Type :=
| LayoutValueTooLarge (n : Z)
| LayoutUnknownFlag (b : Z)
| LayoutTruncatedPointer (got : Z)
| LayoutCodec (e : ValueCodecError)
| LayoutOverflow (e : OverflowError)
| LayoutReadLimitExceeded (required_bytes limit_bytes : Z).

#[global] Instance ValueLayoutError_eq_dec : EqDecision ValueLayoutError.
Proof. solve_decision. Defined.

Definition layout_of_cell_error (e : BTreeValueCellError) : ValueLayoutError :=
  match e with
  | CellUnknownFlag b => LayoutUnknownFlag b
  | CellTruncatedPointer got => LayoutTruncatedPointer got
  end.

Definition check_read_budget (required_bytes limit_bytes : Z) : result ValueLayoutError unit :=
  if limit_bytes <? required_bytes
  then Err (LayoutReadLimitExceeded required_bytes limit_bytes) else Ok tt.

Definition compressed_output_bytes (bs : bytes) : result ValueLayoutError Z :=
  map_err LayoutCodec (decoded_length Lz4 bs).

Section layout.
Context (lz4_compress : bytes -> bytes) (lz4_decompress : bytes -> Z -> string + bytes).

Definition decode_btree_inline_payload (is_compressed : bool) (payload : bytes)
    : result ValueCodecError bytes :=
  let flag := if is_compressed then Lz4 else Raw in codec_decode lz4_decompress flag payload.

(** The inline cell for the codec's choice *)
Definition inline_cell (flag : ValueFlag) (bs : bytes) : bytes :=
  match flag with
  | Raw => encode_btree_inline_raw bs
  | Lz4 => encode_btree_inline_compressed bs
  end.

Definition encode_inline_without_pages (value : bytes) : result ValueLayoutError (option bytes) :=
  if BTREE_VALUE_MAX_SIZE <? zlen value then Err (LayoutValueTooLarge (zlen value))
  else if zlen value <=? BTREE_VALUE_COMPRESSION_THRESHOLD
  then Ok (Some (encode_btree_inline_raw value))
  else
    let '(flag, bs) := codec_encode lz4_compress value in
    if zlen bs <=? BTREE_VALUE_OVERFLOW_THRESHOLD then Ok (Some (inline_cell flag bs)) else Ok None.

Definition projected_cell_len (input : bytes) : Z :=
  btree_projected_cell_len (zlen input) (would_encode_to lz4_compress input).

Context {S : Type} `{PageStore S}.

Definition encode (value : bytes) : eff S ValueLayoutError bytes :=
  if BTREE_VALUE_MAX_SIZE <? zlen value then fail (LayoutValueTooLarge (zlen value))
  else if zlen value <=? BTREE_VALUE_COMPRESSION_THRESHOLD
  then mret (encode_btree_inline_raw value)
  else
    let '(codec_flag, codec_bytes) := codec_encode lz4_compress value in
    if zlen codec_bytes <=? BTREE_VALUE_OVERFLOW_THRESHOLD
    then mret (inline_cell codec_flag codec_bytes)
    else
      let is_compressed := bool_decide (codec_flag = Lz4) in
      r ← eff_map_err LayoutOverflow (store codec_bytes);
      mret (encode_btree_pointer r.1 r.2 is_compressed).

(** [usize] has 64 bits, so that [usize::try_from(total_len)] does not fail. *)
Definition decode_with_budget (fuel : nat) (stored : bytes) (limit_bytes : Z)
    : eff S ValueLayoutError bytes :=
  cell ← lift (map_err layout_of_cell_error (decode_btree_value_cell stored));
  match cell with
  | Pointer is_compressed head_page_id total_len =>
      let encoded_bytes := total_len in
      _ ← lift (check_read_budget encoded_bytes limit_bytes);
      chain_bytes ← eff_map_err LayoutOverflow (read fuel head_page_id total_len);
      if is_compressed then
        decoded_bytes ← lift (compressed_output_bytes chain_bytes);
        _ ← lift (check_read_budget (sat_add USIZE_MAX encoded_bytes decoded_bytes) limit_bytes);
        lift (map_err LayoutCodec (codec_decode lz4_decompress Lz4 chain_bytes))
      else mret chain_bytes
  | Inline is_compressed payload =>
      decoded_bytes ← (if is_compressed then lift (compressed_output_bytes payload)
                       else mret (zlen payload));
      _ ← lift (check_read_budget decoded_bytes limit_bytes);
      lift (map_err LayoutCodec (decode_btree_inline_payload is_compressed payload))
  end.

Definition decode (fuel : nat) (stored : bytes) : eff S ValueLayoutError bytes :=
  decode_with_budget fuel stored USIZE_MAX.

Definition pointer_head (stored : bytes) : option Z := btree_value_pointer_head stored.

End layout.

(** * Theorems *)

Definition flag_of (is_compressed : bool) : ValueFlag := if is_compressed then Lz4 else Raw.

Lemma decode_inline_raw v : decode_btree_value_cell (encode_btree_inline_raw v) = Ok (Inline false v).
Proof. done. Qed.

Lemma decode_inline_compressed v :
  decode_btree_value_cell (encode_btree_inline_compressed v) = Ok (Inline true v).
Proof. done. Qed.

Lemma decode_inline_cell flag bs :
  decode_btree_value_cell (inline_cell flag bs) = Ok (Inline (bool_decide (flag = Lz4)) bs).
Proof. by destruct flag. Qed.

Lemma decode_pointer head total c :
  u32_ok head -> u64_ok total ->
  decode_btree_value_cell (encode_btree_pointer head total c) = Ok (Pointer c head total).
Proof.
  intros Hh Ht. unfold encode_btree_pointer, decode_btree_value_cell.
  set (payload := le_bytes 4 head ++ le_bytes 8 total).
  assert (zlen payload = POINTER_PAYLOAD_LEN) as -> by done.
  assert (u32_at payload 0 = head) as ->.
  { unfold payload, u32_at. rewrite slice_app_l by zlia. rewrite slice_all by zlia. by apply le_val_u32. }
  assert (u64_at payload 4 = total) as ->.
  { unfold payload, u64_at. rewrite slice_app_r by zlia. rewrite slice_all by zlia. by apply le_val_u64. }
  by destruct c.
Qed.

Section theorems.
Context (lz4_compress : bytes -> bytes) (lz4_decompress : bytes -> Z -> string + bytes).
Context (lz4_bytes : forall d, Forall byte_ok d -> Forall byte_ok (lz4_compress d)).
Context (lz4_roundtrip : forall d, lz4_decompress (lz4_compress d) (zlen d) = inr d).

(** [bs] decodes to [value], and its header announces the right length. *)
Definition codec_of (flag : ValueFlag) (bs value : bytes) : Prop :=
  codec_decode lz4_decompress flag bs = Ok value /\ decoded_length flag bs = Ok (zlen value).

(** The pages [ids] of [m] and the cell [stored] hold [value]. *)
Definition value_at (m : gmap Z bytes) (stored value : bytes) (ids : list Z) : Prop :=
  match decode_btree_value_cell stored with
  | Ok (Inline c payload) => codec_of (flag_of c) payload value /\ ids = []
  | Ok (Pointer c head total) => exists bs, chain m head ids bs /\ NoDup ids /\
      zlen bs = total /\ total <= BTREE_VALUE_MAX_SIZE /\ codec_of (flag_of c) bs value
  | _ => False
  end.

(** The bytes a read of the cell materialises *)
Definition read_cost (stored value : bytes) : Z :=
  match decode_btree_value_cell stored with
  | Ok (Pointer c _ total) => total + (if c then zlen value else 0)
  | _ => zlen value
  end.

Lemma value_at_frame m m' stored value ids :
  value_at m stored value ids -> (forall id, id ∈ ids -> m' !! id = m !! id) ->
  value_at m' stored value ids.
Proof.
  unfold value_at. intros Hv Hf. destruct (decode_btree_value_cell stored) as [[]| |]; try done.
  destruct Hv as (bs & Hc & Hv). exists bs. eauto using chain_frame.
Qed.

Lemma codec_encode_spec value :
  zlen value <= BTREE_VALUE_MAX_SIZE ->
  exists flag bs, codec_encode lz4_compress value = (flag, bs) /\ codec_of flag bs value /\
    zlen bs <= zlen value /\ zlen bs = would_encode_to lz4_compress value /\
    (Forall byte_ok value -> Forall byte_ok bs).
Proof.
  intros Hl. change BTREE_VALUE_MAX_SIZE with 268435456 in Hl. pose proof (zlen_nonneg value).
  unfold codec_encode, would_encode_to. case_bool_decide as He.
  { subst value. by exists Raw, []. }
  destruct (Z.ltb_spec (zlen (lz4_compress value) + 4) (zlen value)).
  - assert (Hz : as_u32 (zlen value) = zlen value) by (apply Z.mod_small; lia). rewrite Hz.
    do 2 eexists. split; [reflexivity|].
    pose proof (zlen_nonneg (lz4_compress value)).
    assert (Hd : decoded_length Lz4 (le_bytes 4 (zlen value) ++ lz4_compress value) = Ok (zlen value)).
    { unfold decoded_length. rewrite (proj2 (Z.ltb_ge _ _)) by zlia.
      unfold u32_at. rewrite slice_app_l by zlia. rewrite slice_all by zlia.
      by rewrite le_val_u32 by (unfold u32_ok; lia). }
    split_and!; [|zlia|zlia|intros; apply Forall_app; auto using le_bytes_ok].
    split; [|done]. unfold codec_decode. rewrite Hd. cbn [mbind result_bind].
    rewrite slice_app_r by zlia. autorewrite with zlen.
    replace (4 - Z.of_nat 4) with 0 by lia. rewrite slice_all by lia. by rewrite lz4_roundtrip.
  - by exists Raw, value.
Qed.

Section with_store.
Context {S : Type} `{HS : PageStore S} `{!PageStoreLaws S}.
Implicit Types s : S.

Lemma pages_needed_mono a b : 0 <= a <= b -> pages_needed a <= pages_needed b.
Proof.
  intros. unfold pages_needed. change OVERFLOW_PAYLOAD_PER_PAGE with 16344.
  destruct (Z.eqb_spec a 0), (Z.eqb_spec b 0); try lia.
  - apply Z.div_le_lower_bound; lia.
  - apply Z.div_le_mono; lia.
Qed.

Lemma encode_ok value s k :
  zlen value <= BTREE_VALUE_MAX_SIZE -> Forall byte_ok value ->
  room s (Z.to_nat (pages_needed (zlen value)) + k) ->
  exists s' stored ids, encode lz4_compress value s = (s', Ok stored) /\
    value_at (pages s') stored value ids /\ Forall byte_ok stored /\
    1 <= zlen stored <= BTREE_VALUE_OVERFLOW_THRESHOLD + 1 /\
    Forall (fun id => pages s !! id = None /\ id <> 0 /\ u32_ok id) ids /\
    (forall id, id ∉ ids -> pages s' !! id = pages s !! id) /\ room s' k /\
    (length ids <= Z.to_nat (pages_needed (zlen value)))%nat.
Proof.
  intros Hl Hb Hr. pose proof (zlen_nonneg value).
  destruct (pages_needed_enough (zlen value)) as [N1 _]; [done|].
  destruct (codec_encode_spec value Hl) as (flag & bs & Ec & Hc & Hle & _ & Hbb).
  pose proof (zlen_nonneg bs). unfold encode. rewrite (proj2 (Z.ltb_ge _ _)) by lia.
  assert (Hr0 : room s k) by (eapply room_le; [exact Hr|lia]).
  change BTREE_VALUE_OVERFLOW_THRESHOLD with 4096 in *.
  destruct (Z.leb_spec (zlen value) BTREE_VALUE_COMPRESSION_THRESHOLD) as [Hs|Hs];
    change BTREE_VALUE_COMPRESSION_THRESHOLD with 1024 in Hs.
  { exists s, (encode_btree_inline_raw value), []. split_and!; try done.
    - constructor; [unfold byte_ok; lia|done].
    - unfold encode_btree_inline_raw. zlia.
    - unfold encode_btree_inline_raw. zlia.
    - cbn [length]. lia. }
  rewrite Ec. destruct (Z.leb_spec (zlen bs) 4096) as [Hi|Hi].
  { exists s, (inline_cell flag bs), [].
    assert (zlen (inline_cell flag bs) = 1 + zlen bs) by (destruct flag; apply zlen_cons).
    split_and!; try done; try lia; [| |cbn [length]; lia].
    - unfold value_at. rewrite decode_inline_cell. by destruct flag.
    - destruct flag; constructor; auto; unfold FLAG_COMPRESSED, byte_ok; lia. }
  pose proof (pages_needed_mono (zlen bs) (zlen value) ltac:(lia)).
  destruct (store_ok bs s (Z.to_nat (pages_needed (zlen value)) + k - Z.to_nat (pages_needed (zlen bs))))
    as (s' & head & ids & E & Hch & Hh0 & Hu & Hnd & Hn & Hids & Hf & Hr').
  { eapply room_le; [exact Hr|lia]. }
  rewrite (eff_bind_ok _ _ _ _ _ (eff_map_err_ok LayoutOverflow _ _ _ _ E)). cbn [fst snd].
  do 3 eexists. split; [reflexivity|]. split_and!.
  - unfold value_at. change BTREE_VALUE_MAX_SIZE with 268435456 in *.
    rewrite decode_pointer; [|done|unfold u64_ok; lia].
    exists bs. split_and!; try done; [lia|]. by destruct flag.
  - unfold encode_btree_pointer. constructor; [by case_bool_decide|].
    apply Forall_app. auto using le_bytes_ok.
  - unfold encode_btree_pointer. zlia.
  - unfold encode_btree_pointer. zlia.
  - done.
  - done.
  - eapply room_le; [exact Hr'|lia].
  - lia.
Qed.

Lemma decode_with_budget_ok fuel stored value ids limit s :
  value_at (pages s) stored value ids -> (length ids <= fuel)%nat ->
  zlen value <= BTREE_VALUE_MAX_SIZE -> 0 <= limit <= USIZE_MAX ->
  exists s' r, pages s' = pages s /\ (forall n, room s n -> room s' n) /\
    decode_with_budget lz4_decompress fuel stored limit s =
      (s', if read_cost stored value <=? limit then Ok value
           else Err (LayoutReadLimitExceeded r limit)).
Proof.
  intros Hv Hf Hl Hlim. pose proof (zlen_nonneg value).
  change BTREE_VALUE_MAX_SIZE with 268435456 in *. unfold value_at in Hv.
  unfold decode_with_budget, read_cost.
  destruct (decode_btree_value_cell stored) as [[c payload|c head total]| |]; try done;
    cbn [map_err]; rewrite (eff_bind_lift _ _ _ _ eq_refl).
  - destruct Hv as [[Hd Hn] ->]. exists s, (zlen value). split; [done|]. split; [done|].
    assert (E : (if c then lift (compressed_output_bytes payload) else mret (zlen payload)) s
      = (s, Ok (zlen value)) :> S * result ValueLayoutError Z).
    { unfold compressed_output_bytes, lift. destruct c; cbn [flag_of] in Hn; [by rewrite Hn|].
      cbn [decoded_length] in Hn. injection Hn as Hn. unfold mret, eff_ret. by rewrite Hn. }
    rewrite (eff_bind_ok _ _ _ _ _ E). unfold check_read_budget, decode_btree_inline_payload.
    change (if c then Lz4 else Raw) with (flag_of c). rewrite Hd.
    destruct (Z.ltb_spec limit (zlen value)), (Z.leb_spec (zlen value) limit); try lia; done.
  - destruct Hv as (bs & Hch & Hnd & <- & Hmax & [Hd Hn]). pose proof (zlen_nonneg bs).
    change (check_read_budget (zlen bs) limit) with
      (if limit <? zlen bs then Err (LayoutReadLimitExceeded (zlen bs) limit) else Ok tt).
    destruct (Z.ltb_spec limit (zlen bs)).
    { exists s, (zlen bs). split_and!; [done|done|].
      rewrite (proj2 (Z.leb_gt _ _)) by (destruct c; lia). done. }
    rewrite (eff_bind_lift _ _ _ _ eq_refl).
    destruct (read_ok fuel head ids bs s Hch Hf) as (s' & E & Hp & Hr); [unfold ISIZE_MAX, BTREE_VALUE_MAX_SIZE in *; lia|].
    rewrite (eff_bind_ok _ _ _ _ _ (eff_map_err_ok LayoutOverflow _ _ _ _ E)).
    exists s', (zlen bs + zlen value). split; [done|]. split; [done|]. destruct c.
    + unfold compressed_output_bytes. cbn [flag_of] in *. rewrite Hn. cbn [map_err].
      rewrite (eff_bind_lift _ _ _ _ eq_refl). unfold check_read_budget, sat_add, USIZE_MAX, U64_MAX.
      rewrite Z.min_r by (unfold BTREE_VALUE_MAX_SIZE in *; lia).
      destruct (Z.ltb_spec limit (zlen bs + zlen value)), (Z.leb_spec (zlen bs + zlen value) limit);
        try lia; [done|]. rewrite (eff_bind_lift _ _ _ _ eq_refl), Hd. done.
    + cbn in Hd. injection Hd as ->. rewrite Z.add_0_r. by rewrite (proj2 (Z.leb_le _ _)) by lia.
Qed.

Lemma read_cost_bound m stored value ids :
  value_at m stored value ids -> zlen value <= BTREE_VALUE_MAX_SIZE ->
  0 <= read_cost stored value <= 2 * BTREE_VALUE_MAX_SIZE.
Proof.
  unfold value_at, read_cost. intros Hv Hl. pose proof (zlen_nonneg value).
  destruct (decode_btree_value_cell stored) as [[c payload|c head total]| |]; try done; [lia|].
  destruct Hv as (bs & _ & _ & <- & Hm & _). pose proof (zlen_nonneg bs). destruct c; lia.
Qed.

Lemma decode_ok fuel stored value ids s :
  value_at (pages s) stored value ids -> (length ids <= fuel)%nat ->
  zlen value <= BTREE_VALUE_MAX_SIZE ->
  exists s', pages s' = pages s /\ (forall n, room s n -> room s' n) /\
    decode lz4_decompress fuel stored s = (s', Ok value).
Proof.
  intros Hv Hf Hl. destruct (read_cost_bound _ _ _ _ Hv Hl).
  destruct (decode_with_budget_ok fuel stored value ids USIZE_MAX s) as (s' & r & Hp & Hr & E);
    [done|done|done|unfold USIZE_MAX, U64_MAX; lia|].
  exists s'. split_and!; [done|done|]. unfold decode. rewrite E.
  change BTREE_VALUE_MAX_SIZE with 268435456 in *.
  by rewrite (proj2 (Z.leb_le _ _)) by (unfold USIZE_MAX, U64_MAX; lia).
Qed.

(** C30. Any value up to the size limit is stored, inline or in pages of its own
    that were free before, and read back unchanged; the cell never exceeds a quarter
    page and the flag byte; the pages in use before are untouched. *)
Theorem value_roundtrip fuel value s :
  zlen value <= BTREE_VALUE_MAX_SIZE -> Forall byte_ok value ->
  room s (Z.to_nat (pages_needed (zlen value))) ->
  (Z.to_nat (pages_needed (zlen value)) <= fuel)%nat ->
  exists stored s1 s2,
    encode lz4_compress value s = (s1, Ok stored) /\
    zlen stored <= BTREE_VALUE_OVERFLOW_THRESHOLD + 1 /\
    (forall id p, pages s !! id = Some p -> pages s1 !! id = Some p) /\
    decode lz4_decompress fuel stored s1 = (s2, Ok value) /\ pages s2 = pages s1.
Proof.
  intros Hl Hb Hr Hf.
  destruct (encode_ok value s 0 Hl Hb) as (s1 & stored & ids & E1 & Hv & _ & Hs & Hids & Hfr & _ & Hn);
    [by rewrite Nat.add_0_r|].
  destruct (decode_ok fuel stored value ids s1 Hv) as (s2 & Hp & _ & E2); [lia|done|].
  exists stored, s1, s2. split_and!; try done; [lia|].
  intros id p Hid. rewrite Hfr; [done|]. intros Hin. rewrite Forall_forall in Hids.
  destruct (Hids id Hin). congruence.
Qed.

(** C39. A read with a memory budget returns the value exactly when the bytes it
    materialises (the value, and for a compressed chain also the chain) are within
    the budget, and otherwise refuses with the budget it was given. *)
Theorem value_read_budget fuel value limit s :
  zlen value <= BTREE_VALUE_MAX_SIZE -> Forall byte_ok value ->
  room s (Z.to_nat (pages_needed (zlen value))) ->
  (Z.to_nat (pages_needed (zlen value)) <= fuel)%nat -> 0 <= limit <= USIZE_MAX ->
  exists stored s1 s2 r,
    encode lz4_compress value s = (s1, Ok stored) /\
    decode_with_budget lz4_decompress fuel stored limit s1 =
      (s2, if read_cost stored value <=? limit then Ok value
           else Err (LayoutReadLimitExceeded r limit)) /\ pages s2 = pages s1.
Proof.
  intros Hl Hb Hr Hf Hlim.
  destruct (encode_ok value s 0 Hl Hb) as (s1 & stored & ids & E1 & Hv & _ & _ & _ & _ & _ & Hn);
    [by rewrite Nat.add_0_r|].
  destruct (decode_with_budget_ok fuel stored value ids limit s1 Hv) as (s2 & r & Hp & _ & E2);
    [lia|done|done|].
  exists stored, s1, s2, r. by split_and!.
Qed.

(** The encoder that may not allocate agrees with the full one: it answers
    exactly when the value fits in the leaf, with the same cell and no change to the
    store; and the projected cell length is the length of the cell that is stored. *)
Theorem inline_encoder_agrees value s s' stored :
  encode lz4_compress value s = (s', Ok stored) ->
  zlen stored = projected_cell_len lz4_compress value /\
  (encode_inline_without_pages lz4_compress value = Ok (Some stored) /\ s' = s \/
   encode_inline_without_pages lz4_compress value = Ok None /\ is_Some (pointer_head stored)).
Proof.
  unfold encode, encode_inline_without_pages, projected_cell_len, btree_projected_cell_len.
  intros E. destruct (Z.ltb_spec BTREE_VALUE_MAX_SIZE (zlen value)) as [|Hl]; [done|].
  destruct (Z.leb_spec (zlen value) BTREE_VALUE_COMPRESSION_THRESHOLD).
  { injection E as <- <-. unfold encode_btree_inline_raw. split; [zlia|by left]. }
  destruct (codec_encode_spec value Hl) as (flag & bs & Ec & _ & Hle & Hw & _).
  rewrite <-Hw, Z.min_r, Ec by lia. rewrite Ec in E.
  destruct (Z.leb_spec (zlen bs) BTREE_VALUE_OVERFLOW_THRESHOLD).
  { injection E as <- <-. split; [by destruct flag; apply zlen_cons|by left]. }
  unfold mbind, eff_bind, eff_map_err in E. destruct (store bs s) as [s1 [[h t]| |]]; try done.
  injection E as <- <-. split; [reflexivity|]. right. split; [done|].
  unfold pointer_head, btree_value_pointer_head, encode_btree_pointer, decode_btree_value_cell.
  case_bool_decide; cbn; eauto.
Qed.

End with_store.
End theorems.

(** ** Instances of the theorems *)

(** A codec that copies *)
Definition copy_compress (d : bytes) : bytes := d.
Definition copy_decompress (d : bytes) (n : Z) : string + bytes := inr d.

Lemma copy_bytes d : Forall byte_ok d -> Forall byte_ok (copy_compress d).
Proof. done. Qed.

Lemma copy_roundtrip d : copy_decompress (copy_compress d) (zlen d) = inr d.
Proof. done. Qed.

Lemma value_roundtrip_witness :
  exists stored s1 s2,
    encode copy_compress [1; 2; 3] empty_store = (s1, Ok stored) /\
    zlen stored <= BTREE_VALUE_OVERFLOW_THRESHOLD + 1 /\
    (forall id p, pages empty_store !! id = Some p -> pages s1 !! id = Some p) /\
    decode copy_decompress 1 stored s1 = (s2, Ok [1; 2; 3]) /\ pages s2 = pages s1.
Proof.
  apply (value_roundtrip copy_compress copy_decompress copy_bytes copy_roundtrip 1 [1; 2; 3] empty_store).
  - vm_compute; discriminate.
  - repeat constructor; unfold byte_ok; lia.
  - apply empty_room; vm_compute; discriminate.
  - vm_compute; lia.
Defined.

Lemma value_read_budget_witness :
  exists stored s1 s2 r,
    encode copy_compress [1; 2; 3] empty_store = (s1, Ok stored) /\
    decode_with_budget copy_decompress 1 stored 2 s1 =
      (s2, if read_cost stored [1; 2; 3] <=? 2 then Ok [1; 2; 3]
           else Err (LayoutReadLimitExceeded r 2)) /\ pages s2 = pages s1.
Proof.
  apply (value_read_budget copy_compress copy_decompress copy_bytes copy_roundtrip 1 [1; 2; 3] 2 empty_store).
  - vm_compute; discriminate.
  - repeat constructor; unfold byte_ok; lia.
  - apply empty_room; vm_compute; discriminate.
  - vm_compute; lia.
  - unfold USIZE_MAX, U64_MAX; lia.
Defined.

Lemma inline_encoder_agrees_witness :
  zlen [0; 1; 2; 3] = projected_cell_len copy_compress [1; 2; 3] /\
  (encode_inline_without_pages copy_compress [1; 2; 3] = Ok (Some [0; 1; 2; 3]) /\ empty_store = empty_store \/
   encode_inline_without_pages copy_compress [1; 2; 3] = Ok None /\ is_Some (pointer_head [0; 1; 2; 3])).
Proof.
  apply (inline_encoder_agrees copy_compress copy_decompress copy_bytes copy_roundtrip [1; 2; 3] empty_store
    empty_store [0; 1; 2; 3]). vm_compute. reflexivity.
Defined.
