(* ===== verification/Slots.v ===== *)
(** * Slotted pages of the B+ tree

    What the leaf and the interior pages of [crates/reddb-engine/src/storage/btree.rs]
    have in common: an array of 16-bit slots that grows up from a base offset
    and cells that grow down from [free_end], each slot holding the offset of
    its cell.  The checked writes that the page code makes, and the effect of
    one insertion, deletion or overwrite on the cells of a page. *)

From S2P Require Import Prelude FileFormat Page PageStore Overflow ValueLayout.
From Stdlib Require Import ZArith Lia.

(** Where the code keeps the text of another error, the error itself is kept
    here; [CorruptedPage] is [Corrupted] with the text of a page error. *)
Inductive BTreeError : Type :=
| NotFound
| DuplicateKey
| KeyTooLarge (n : Z)
| ValueTooLarge (n : Z)
| Corrupted (msg : string)
| CorruptedPage (e : PageError)
| PagerFailed (e : PagerError)
| LockPoisoned (msg : string)
| ValueLayoutFailed (e : ValueLayoutError)
| ReadLimitExceeded (required_bytes limit_bytes : Z).

#[global] Instance BTreeError_eq_dec : EqDecision BTreeError.
Proof. solve_decision. Defined.

Abbreviation BTreeResult := (result BTreeError).

(** [data[off .. off + bs.len()].copy_from_slice(bs)]: a range out of bounds panics. *)
Definition put_slice {E} (p : bytes) (off : Z) (bs : bytes) : result E bytes :=
  if (0 <=? off) && (off + zlen bs <=? zlen p) then Ok (splice p off bs) else Panic.

(** [data.copy_within(from .. from + len, to)] *)
Definition copy_within {E} (p : bytes) (from len to : Z) : result E bytes :=
  if (0 <=? from) && (0 <=? len) && (from + len <=? zlen p) && (0 <=? to) && (to + len <=? zlen p)
  then Ok (splice p to (slice p from len)) else Panic.

(** [u16::from_le_bytes([data[off], data[off + 1]])] *)
Definition get_u16 {E} (p : bytes) (off : Z) : result E Z :=
  if (0 <=? off) && (off + 2 <=? zlen p) then Ok (u16_at p off) else Panic.

Definition get_u32 {E} (p : bytes) (off : Z) : result E Z :=
  if (0 <=? off) && (off + 4 <=? zlen p) then Ok (u32_at p off) else Panic.

(** [for byte in &mut data[base..] { *byte = 0 }] *)
Definition clear_from (p : bytes) (base : Z) : bytes := splice p base (zeros (zlen p - base)).

(** ** The abstraction *)

(** The slots at [base] lead to the [cells], which lie apart from each other
    at or above [free_end], which is above the slots. *)
Record area (base : Z) (p : bytes) (cells : list bytes) : Prop := {
  area_len : zlen p = 16384;
  area_bytes : Forall byte_ok p;
  area_room : base + 2 * zlen cells <= free_end p <= 16384;
  area_cell : forall i c, cells !! i = Some c ->
    free_end p <= u16_at p (base + 2 * Z.of_nat i) /\
    u16_at p (base + 2 * Z.of_nat i) + zlen c <= 16384 /\
    slice p (u16_at p (base + 2 * Z.of_nat i)) (zlen c) = c;
  area_disjoint : forall i j c d, cells !! i = Some c -> cells !! j = Some d -> i <> j ->
    u16_at p (base + 2 * Z.of_nat i) + zlen c <= u16_at p (base + 2 * Z.of_nat j) \/
    u16_at p (base + 2 * Z.of_nat j) + zlen d <= u16_at p (base + 2 * Z.of_nat i);
}.

(** [q] has the same bytes as [p] outside the header's cell count and free
    cursors and outside the slots and cells: page type, page number, links. *)
Definition same_frame (base : Z) (p q : bytes) : Prop :=
  zlen q = zlen p /\
  forall o n, 0 <= o -> 0 <= n -> o + n <= 2 \/ (8 <= o /\ o + n <= base) ->
    slice q o n = slice p o n.

#[export] Instance same_frame_preorder base : PreOrder (same_frame base).
Proof.
  split.
  - intros p. by split.
  - intros p q r [L1 F1] [L2 F2]. split; [lia|]. intros. by rewrite F2, F1.
Qed.

(** ** The cells fit in the page *)

(** The positions of [n] bytes from [x.1] *)
Definition span (x : Z * Z) : gset Z := list_to_set (seqZ x.1 x.2).

Lemma elem_of_span x i : i ∈ span x <-> x.1 <= i < x.1 + x.2.
Proof. unfold span. rewrite elem_of_list_to_set, elem_of_seqZ. lia. Qed.

Lemma size_span x : 0 <= x.2 -> Z.of_nat (size (span x)) = x.2.
Proof. intros. unfold span. rewrite size_list_to_set by apply NoDup_seqZ. rewrite length_seqZ. lia. Qed.

(** Spans that lie apart take as many positions as their lengths add up to. *)
Lemma size_spans (l : list (Z * Z)) :
  Forall (fun x => 0 <= x.2) l ->
  (forall i j x y, l !! i = Some x -> l !! j = Some y -> i <> j -> span x ## span y) ->
  Z.of_nat (size (⋃ (span <$> l))) = foldr Z.add 0 l.*2.
Proof.
  induction 1 as [|x l Hx Hl IH]; intros D; [done|]. cbn [fmap list_fmap union_list foldr].
  rewrite size_union.
  - rewrite Nat2Z.inj_add, size_span, IH by (auto; intros i j y z Hi Hj Hne; by apply (D (S i) (S j)); auto).
    done.
  - intros i Hi Hu. apply elem_of_union_list in Hu as (X & HX & HiX).
    apply list_elem_of_fmap in HX as (y & -> & Hy). apply list_elem_of_lookup in Hy as (j & Hj).
    by apply (D O (S j) x y eq_refl Hj ltac:(done) i).
Qed.

Lemma area_packed base p cells :
  area base p cells -> foldr Z.add 0 (zlen <$> cells) <= 16384 - free_end p.
Proof.
  intros Ha. pose proof (area_room _ _ _ Ha).
  set (l := imap (fun i c => (u16_at p (base + 2 * Z.of_nat i), zlen c)) cells).
  assert (E2 : l.*2 = zlen <$> cells).
  { unfold l. rewrite fmap_imap. apply imap_const. }
  assert (Hlk : forall i x, l !! i = Some x ->
    exists c, cells !! i = Some c /\ x = (u16_at p (base + 2 * Z.of_nat i), zlen c)).
  { intros i x Hi. unfold l in Hi. apply list_lookup_imap_Some in Hi as (c & Hc & ->). eauto. }
  assert (Hs : Z.of_nat (size (⋃ (span <$> l))) = foldr Z.add 0 l.*2).
  { apply size_spans.
    - apply Forall_lookup. intros i x Hi. destruct (Hlk _ _ Hi) as (c & _ & ->). apply zlen_nonneg.
    - intros i j x y Hi Hj Hne. destruct (Hlk _ _ Hi) as (c & Hc & ->), (Hlk _ _ Hj) as (d & Hd & ->).
      intros k. rewrite !elem_of_span. cbn. intros.
      destruct (area_disjoint _ _ _ Ha i j c d Hc Hd Hne); lia. }
  rewrite <-E2, <-Hs.
  assert (Hsub : ⋃ (span <$> l) ⊆ span (free_end p, 16384 - free_end p)).
  { intros k Hk. apply elem_of_union_list in Hk as (X & HX & Hk).
    apply list_elem_of_fmap in HX as (x & -> & Hx). apply list_elem_of_lookup in Hx as (i & Hi).
    destruct (Hlk _ _ Hi) as (c & Hc & ->). destruct (area_cell _ _ _ Ha i c Hc) as (A1 & A2 & _).
    rewrite elem_of_span in *. cbn in *. lia. }
  apply subseteq_size in Hsub. pose proof (size_span (free_end p, 16384 - free_end p) ltac:(cbn; lia)).
  cbn in *. lia.
Qed.

(** ** Checked writes in range *)

Lemma put_slice_ok {E} p off bs :
  0 <= off -> off + zlen bs <= zlen p -> @put_slice E p off bs = Ok (splice p off bs).
Proof.
  intros. unfold put_slice. by rewrite (proj2 (andb_true_iff _ _)) by (split; apply Z.leb_le; lia).
Qed.

Lemma get_u16_ok {E} p off : 0 <= off -> off + 2 <= zlen p -> @get_u16 E p off = Ok (u16_at p off).
Proof.
  intros. unfold get_u16. by rewrite (proj2 (andb_true_iff _ _)) by (split; apply Z.leb_le; lia).
Qed.

Lemma get_u32_ok {E} p off : 0 <= off -> off + 4 <= zlen p -> @get_u32 E p off = Ok (u32_at p off).
Proof.
  intros. unfold get_u32. by rewrite (proj2 (andb_true_iff _ _)) by (split; apply Z.leb_le; lia).
Qed.

Lemma copy_within_ok {E} p from len to :
  0 <= from -> 0 <= len -> from + len <= zlen p -> 0 <= to -> to + len <= zlen p ->
  @copy_within E p from len to = Ok (splice p to (slice p from len)).
Proof.
  intros. unfold copy_within. rewrite !(proj2 (Z.leb_le _ _)) by lia. done.
Qed.

(** ** Insertion *)

(** The page after a cell was put below [free_end] and its slot at [pos] of [n] *)
Definition inserted (base : Z) (p c : bytes) (n pos : Z) : bytes :=
  let off := free_end p - zlen c in
  let q := set_free_end (splice p off c) off in
  let q := splice q (base + 2 * pos + 2) (slice q (base + 2 * pos) (2 * (n - pos))) in
  splice q (base + 2 * pos) (le_bytes 2 off).

Section insertion.
Context (base : Z) (p c : bytes) (cells : list bytes) (pos : nat).
Context (Hbase : 32 <= base) (Ha : area base p cells) (Hc : Forall byte_ok c).
Context (Hpos : (pos <= length cells)%nat).
Context (Hfit : base + 2 * (zlen cells + 1) + zlen c <= free_end p).

Abbreviation n := (zlen cells).
Abbreviation off := (free_end p - zlen c).
Abbreviation q := (inserted base p c n (Z.of_nat pos)).

Lemma inserted_len : zlen q = 16384.
Proof.
  unfold inserted, set_free_end, set_paged_page_free_end, put_u16.
  rewrite !zlen_splice. apply Ha.
Qed.

Lemma inserted_bytes : Forall byte_ok q.
Proof.
  pose proof (area_bytes _ _ _ Ha). unfold inserted, set_free_end, set_paged_page_free_end, put_u16.
  auto 10 using Forall_splice, Forall_slice, le_bytes_ok.
Qed.

Lemma pos_range : 0 <= Z.of_nat pos <= n.
Proof. unfold zlen. lia. Qed.

Lemma slots_range : 0 <= zlen c /\ 32 <= off /\ free_end p <= 16384.
Proof.
  pose proof (zlen_nonneg c). pose proof (area_room _ _ _ Ha). pose proof (zlen_nonneg cells). lia.
Qed.

Lemma zlen_shifted_slots (r : bytes) :
  zlen r = 16384 -> zlen (slice r (base + 2 * Z.of_nat pos) (2 * (n - Z.of_nat pos))) =
  2 * (n - Z.of_nat pos).
Proof. intros. pose proof pos_range. pose proof slots_range. apply zlen_slice; lia. Qed.

(** The bytes below the slots and above the new slot array, free cursor apart,
    are those of the page with the cell. *)
Lemma inserted_frame o m :
  0 <= o -> 0 <= m ->
  o + m <= 6 \/ (8 <= o /\ o + m <= base) \/ base + 2 * (n + 1) <= o ->
  slice q o m = slice (splice p off c) o m.
Proof.
  intros Ho Hm Hd. pose proof pos_range. pose proof slots_range.
  unfold inserted, set_free_end, set_paged_page_free_end, put_u16.
  rewrite slice_splice_ne by zlia.
  rewrite slice_splice_ne
    by (rewrite ?zlen_shifted_slots by (rewrite !zlen_splice; apply Ha); lia).
  by rewrite slice_splice_ne by zlia.
Qed.

Lemma inserted_slot i :
  (i <= length cells)%nat ->
  u16_at q (base + 2 * Z.of_nat i) =
  if decide (i < pos)%nat then u16_at p (base + 2 * Z.of_nat i)
  else if decide (i = pos) then off else u16_at p (base + 2 * (Z.of_nat i - 1)).
Proof.
  intros Hi. pose proof pos_range. pose proof slots_range. pose proof (area_len _ _ _ Ha) as Hl.
  assert (Hin : Z.of_nat i <= n) by (unfold zlen; lia).
  assert (Hsub : forall o, base <= o -> o + 2 <= base + 2 * (n + 1) ->
    u16_at (set_free_end (splice p off c) off) o = u16_at p o).
  { intros o H1 H2. unfold set_free_end, set_paged_page_free_end, put_u16.
    rewrite !u16_at_splice_ne by zlia. done. }
  assert (Hz : zlen (set_free_end (splice p off c) off) = 16384)
    by (unfold set_free_end, set_paged_page_free_end, put_u16; by rewrite !zlen_splice).
  unfold inserted. set (r := set_free_end (splice p off c) off) in *.
  pose proof (zlen_shifted_slots r Hz) as Hs.
  repeat case_decide.
  - rewrite !u16_at_splice_ne by zlia. rewrite Hsub by lia. done.
  - subst i. rewrite u16_at_put; [done|lia|rewrite zlen_splice; lia|unfold u16_ok; lia].
  - rewrite u16_at_splice_ne by zlia. unfold u16_at. rewrite slice_splice_in by lia.
    rewrite slice_slice by lia.
    change (u16_at r (base + 2 * Z.of_nat pos + (base + 2 * Z.of_nat i - (base + 2 * Z.of_nat pos + 2)))
      = u16_at p (base + 2 * (Z.of_nat i - 1))).
    rewrite Hsub by lia. f_equal. lia.
Qed.

Lemma inserted_free_end : free_end q = off.
Proof.
  pose proof pos_range. pose proof slots_range. pose proof (area_len _ _ _ Ha).
  unfold inserted, set_free_end, set_paged_page_free_end, free_end, paged_page_free_end, put_u16.
  set (o := u16_at p 6 - zlen c). rewrite !u16_at_splice_ne by zlia.
  rewrite u16_at_put; [done|lia|zlia|].
  unfold u16_ok. subst o. change (u16_at p 6) with (free_end p). lia.
Qed.

(** Where cell [i] of the new list comes from *)
Lemma lookup_inserted i d :
  (take pos cells ++ c :: drop pos cells) !! i = Some d ->
  (i <= length cells)%nat /\
  ((i < pos)%nat /\ cells !! i = Some d \/ i = pos /\ d = c \/
   (pos < i)%nat /\ cells !! (i - 1)%nat = Some d).
Proof.
  intros Hi. pose proof (lookup_lt_Some _ _ _ Hi) as Hlt.
  rewrite length_app in Hlt. cbn [length] in Hlt. rewrite length_take, length_drop in Hlt.
  split; [lia|].
  apply lookup_app_Some in Hi as [Hi|[Hge Hi]].
  - apply lookup_take_Some in Hi as [? ?]. auto.
  - rewrite length_take in Hge, Hi. rewrite Nat.min_l in Hge, Hi by done.
    apply lookup_cons_Some in Hi as [[Ek <-]|[Hk Hi]].
    + right; left. split; [lia|done].
    + rewrite lookup_drop in Hi. right; right. split; [lia|].
      by replace (i - 1)%nat with (pos + (i - pos - 1))%nat by lia.
Qed.

(** Every cell of the new list is where its slot says; the old cells stay where
    they were. *)
Lemma inserted_cell i d :
  (take pos cells ++ c :: drop pos cells) !! i = Some d ->
  let o := u16_at q (base + 2 * Z.of_nat i) in
  slice q o (zlen d) = d /\ o + zlen d <= 16384 /\
  (o = off /\ d = c /\ i = pos \/
   exists j, cells !! j = Some d /\ o = u16_at p (base + 2 * Z.of_nat j) /\ free_end p <= o /\
     i <> pos /\ j = if decide (i < pos)%nat then i else (i - 1)%nat).
Proof.
  intros Hi o. destruct (lookup_inserted i d Hi) as [Hin Hcase].
  pose proof slots_range. pose proof (area_len _ _ _ Ha). pose proof (zlen_nonneg d).
  pose proof (inserted_slot i Hin) as Ho. fold o in Ho.
  assert (Hold : forall j, cells !! j = Some d -> o = u16_at p (base + 2 * Z.of_nat j) ->
    slice q o (zlen d) = d /\ o + zlen d <= 16384 /\ free_end p <= o).
  { intros j Hj Eo. destruct (area_cell _ _ _ Ha _ _ Hj) as (C1 & C2 & C3). rewrite <-Eo in *.
    split_and!; [|done|done]. rewrite inserted_frame by lia.
    rewrite slice_splice_ne by lia. done. }
  destruct Hcase as [[Hlt Hj]|[[-> ->]|[Hgt Hj]]].
  - rewrite decide_True in Ho by done. destruct (Hold i Hj Ho) as (? & ? & ?).
    split_and!; [done|done|right]. exists i. rewrite decide_True by done.
    split_and!; try done. lia.
  - rewrite decide_False, decide_True in Ho by lia. rewrite Ho.
    split_and!; [|lia|auto]. rewrite inserted_frame by lia. apply slice_splice_eq; lia.
  - rewrite !decide_False in Ho by lia.
    replace (Z.of_nat i - 1) with (Z.of_nat (i - 1)) in Ho by lia.
    destruct (Hold _ Hj Ho) as (? & ? & ?). split_and!; [done|done|right].
    exists (i - 1)%nat. rewrite decide_False by lia. split_and!; try done. lia.
Qed.

Lemma area_inserted : area base q (take pos cells ++ c :: drop pos cells).
Proof.
  pose proof slots_range. pose proof (area_room _ _ _ Ha).
  assert (Hz : zlen (take pos cells ++ c :: drop pos cells) = n + 1).
  { rewrite zlen_app, zlen_cons. unfold zlen. rewrite length_take, length_drop. lia. }
  split.
  - apply inserted_len.
  - apply inserted_bytes.
  - rewrite inserted_free_end, Hz. lia.
  - intros i d Hi. rewrite inserted_free_end.
    destruct (inserted_cell i d Hi) as (? & ? & [(? & _ & _)|(j & _ & _ & ? & _ & _)]);
      split_and!; try done; lia.
  - intros i j d e Hi Hj Hne.
    destruct (inserted_cell i d Hi) as (_ & _ & [(Oi & -> & Pi)|(i' & Ci & Oi & Fi & Ni & Ei)]),
             (inserted_cell j e Hj) as (_ & _ & [(Oj & -> & Pj)|(j' & Cj & Oj & Fj & Nj & Ej)]).
    + congruence.
    + left. lia.
    + right. lia.
    + rewrite Oi, Oj. apply (area_disjoint _ _ _ Ha); [done|done|].
      revert Ei Ej. repeat case_decide; lia.
Qed.

End insertion.

(** ** Frames *)

(** The cells depend on [free_end] and on the bytes from the slots up. *)
Lemma area_ext base p q cells :
  0 <= base -> area base p cells -> zlen q = 16384 -> Forall byte_ok q ->
  slice q 6 2 = slice p 6 2 ->
  (forall o n, base <= o -> 0 <= n -> slice q o n = slice p o n) ->
  area base q cells.
Proof.
  intros Hb Ha Hl Hq He Hs.
  assert (Ee : free_end q = free_end p)
    by (unfold free_end, paged_page_free_end, u16_at; by rewrite He).
  assert (Eu : forall i : nat, u16_at q (base + 2 * Z.of_nat i) = u16_at p (base + 2 * Z.of_nat i))
    by (intros; unfold u16_at; rewrite Hs by lia; done).
  pose proof (area_room _ _ _ Ha). pose proof (zlen_nonneg cells).
  split; rewrite ?Ee; try done.
  - intros i c Hi. destruct (area_cell _ _ _ Ha i c Hi) as (C1 & C2 & C3). rewrite !Eu.
    split_and!; [done|done|]. rewrite Hs; [done|lia|apply zlen_nonneg].
  - intros i j c d Hi Hj Hij. rewrite !Eu. by apply (area_disjoint _ _ _ Ha).
Qed.

(** A write between the free cursors and the slots, or below them *)
Lemma area_splice_frame base p cells off bs :
  8 <= base -> area base p cells -> Forall byte_ok bs ->
  0 <= off -> off + zlen bs <= 6 \/ (8 <= off /\ off + zlen bs <= base) ->
  area base (splice p off bs) cells.
Proof.
  intros Hb Ha Hbs Ho Hd. pose proof (area_bytes _ _ _ Ha).
  apply (area_ext base p); auto using Forall_splice; [lia|rewrite zlen_splice; apply Ha| |].
  - rewrite slice_splice_ne by lia. done.
  - intros o n H1 H2. rewrite slice_splice_ne by lia. done.
Qed.

Lemma same_frame_splice base p off bs :
  8 <= base -> (2 <= off /\ off + zlen bs <= 8) \/ base <= off -> same_frame base p (splice p off bs).
Proof.
  intros Hb Hd. split; [by rewrite zlen_splice|]. intros o n H1 H2 H3.
  apply slice_splice_ne; lia.
Qed.

Lemma same_frame_inserted base p c n pos :
  8 <= base -> 0 <= pos -> base <= free_end p - zlen c -> same_frame base p (inserted base p c n pos).
Proof.
  intros Hb Hp Hf. unfold inserted, set_free_end, set_paged_page_free_end, put_u16.
  repeat (etrans; [|apply same_frame_splice; zlia]). done.
Qed.

(** ** Deletion of a slot *)

Definition slot_deleted (base : Z) (p : bytes) (n i : Z) : bytes :=
  splice p (base + 2 * i) (slice p (base + 2 * (i + 1)) (2 * (n - i - 1))).

Section deletion.
Context (base : Z) (p : bytes) (cells : list bytes) (k : nat).
Context (Hbase : 32 <= base) (Ha : area base p cells) (Hk : (k < length cells)%nat).

Abbreviation n := (zlen cells).
Abbreviation q := (slot_deleted base p n (Z.of_nat k)).

Lemma zlen_moved : zlen (slice p (base + 2 * (Z.of_nat k + 1)) (2 * (n - Z.of_nat k - 1))) =
  2 * (n - Z.of_nat k - 1).
Proof.
  pose proof (area_room _ _ _ Ha). pose proof (area_len _ _ _ Ha).
  apply zlen_slice; unfold zlen in *; lia.
Qed.

Lemma deleted_frame o m :
  0 <= o -> 0 <= m -> o + m <= base \/ base + 2 * n <= o -> slice q o m = slice p o m.
Proof.
  intros. unfold slot_deleted. pose proof zlen_moved. apply slice_splice_ne; [done|done|].
  unfold zlen in *. lia.
Qed.

Lemma deleted_slot i :
  (i + 1 < length cells)%nat ->
  u16_at q (base + 2 * Z.of_nat i) =
  u16_at p (base + 2 * Z.of_nat (if decide (i < k)%nat then i else S i)).
Proof.
  intros Hi. pose proof zlen_moved as Hz. pose proof (area_len _ _ _ Ha).
  pose proof (area_room _ _ _ Ha).
  unfold slot_deleted. case_decide.
  - rewrite u16_at_splice_ne; [done|lia|lia].
  - unfold u16_at. rewrite slice_splice_in by (unfold zlen in *; lia).
    rewrite slice_slice by (unfold zlen in *; lia). do 2 f_equal. lia.
Qed.

Lemma lookup_deleted i d :
  (take k cells ++ drop (S k) cells) !! i = Some d ->
  (i + 1 < length cells)%nat /\ cells !! (if decide (i < k)%nat then i else S i) = Some d.
Proof.
  intros Hi. pose proof (lookup_lt_Some _ _ _ Hi) as Hlt.
  rewrite length_app, length_take, length_drop in Hlt. split; [lia|].
  apply lookup_app_Some in Hi as [Hi|[Hge Hi]].
  - apply lookup_take_Some in Hi as [? ?]. by rewrite decide_True.
  - rewrite length_take, Nat.min_l in Hge, Hi by lia. rewrite lookup_drop in Hi.
    rewrite decide_False by lia. by replace (S i) with (S k + (i - k))%nat by lia.
Qed.

Lemma area_deleted : area base q (take k cells ++ drop (S k) cells).
Proof.
  pose proof (area_room _ _ _ Ha). pose proof (area_bytes _ _ _ Ha). pose proof (zlen_nonneg cells).
  assert (Ee : free_end q = free_end p).
  { unfold free_end, paged_page_free_end, u16_at. rewrite deleted_frame by lia. done. }
  split; rewrite ?Ee.
  - unfold slot_deleted. rewrite zlen_splice. apply Ha.
  - unfold slot_deleted. auto using Forall_splice, Forall_slice.
  - unfold zlen in *. rewrite length_app, length_take, length_drop. lia.
  - intros i d Hi. destruct (lookup_deleted i d Hi) as [Hlt Hd]. rewrite deleted_slot by done.
    destruct (area_cell _ _ _ Ha _ _ Hd) as (C1 & C2 & C3).
    split_and!; [done|done|]. rewrite deleted_frame; [done|lia|apply zlen_nonneg|lia].
  - intros i j c d Hi Hj Hij. destruct (lookup_deleted i c Hi) as [Hl1 Hc].
    destruct (lookup_deleted j d Hj) as [Hl2 Hd]. rewrite !deleted_slot by done.
    apply (area_disjoint _ _ _ Ha); [done|done|]. repeat case_decide; lia.
Qed.
End deletion.

(** ** Overwriting a cell in place *)

Lemma area_overwrite base p q cells k c c' :
  32 <= base -> area base p cells -> cells !! k = Some c ->
  zlen q = 16384 -> Forall byte_ok q -> zlen c' <= zlen c ->
  slice q (u16_at p (base + 2 * Z.of_nat k)) (zlen c') = c' ->
  (forall o m, 0 <= o -> 0 <= m ->
     o + m <= u16_at p (base + 2 * Z.of_nat k) \/
     u16_at p (base + 2 * Z.of_nat k) + zlen c <= o -> slice q o m = slice p o m) ->
  area base q (<[k := c']> cells).
Proof.
  intros Hb Ha Hk Hl Hq Hle Hc' Hout.
  destruct (area_cell _ _ _ Ha k c Hk) as (K1 & K2 & K3). pose proof (area_room _ _ _ Ha).
  pose proof (zlen_nonneg cells).
  assert (Hslot : forall i d, cells !! i = Some d ->
    u16_at q (base + 2 * Z.of_nat i) = u16_at p (base + 2 * Z.of_nat i)).
  { intros i d Hi. apply lookup_lt_Some in Hi. unfold u16_at. rewrite Hout; [done|lia|lia|].
    unfold u16_at in *. unfold zlen in *. lia. }
  assert (Ee : free_end q = free_end p).
  { unfold free_end, paged_page_free_end, u16_at. rewrite Hout; [done|lia|lia|].
    unfold u16_at in *. lia. }
  assert (Hlk : forall i d, <[k := c']> cells !! i = Some d ->
    exists d0, cells !! i = Some d0 /\ zlen d <= zlen d0 /\ (i = k /\ d = c' \/ i <> k /\ d = d0)).
  { intros i d Hi. apply list_lookup_insert_Some in Hi as [(-> & -> & Hlt)|[Hne Hi]].
    - exists c. auto.
    - exists d. split_and!; [done|lia|auto]. }
  split; rewrite ?Ee; try done.
  - unfold zlen in *. by rewrite length_insert.
  - intros i d Hi. destruct (Hlk i d Hi) as (d0 & Hd0 & Hzd & Hcase).
    rewrite (Hslot i d0 Hd0). destruct (area_cell _ _ _ Ha i d0 Hd0) as (C1 & C2 & C3).
    split_and!; [done|lia|]. destruct Hcase as [[-> ->]|[Hne ->]]; [done|].
    destruct (area_disjoint _ _ _ Ha i k d0 c Hd0 Hk Hne); rewrite Hout; try done;
      try apply zlen_nonneg; lia.
  - intros i j d e Hi Hj Hij. destruct (Hlk i d Hi) as (d0 & Hd0 & Hzd & _).
    destruct (Hlk j e Hj) as (e0 & He0 & Hze & _).
    rewrite (Hslot i d0 Hd0), (Hslot j e0 He0).
    destruct (area_disjoint _ _ _ Ha i j d0 e0 Hd0 He0 Hij); lia.
Qed.

(** ** The empty page *)

Lemma area_empty base p :
  zlen p = 16384 -> Forall byte_ok p -> free_end p = 16384 -> base <= 16384 -> area base p [].
Proof.
  intros Hl Hb He Hbase. split; try done.
  rewrite He. unfold zlen. cbn [length]. lia.
Qed.

(** Insertion after the last slot moves nothing. *)
Lemma inserted_last base p c n :
  0 <= base + 2 * n + 2 <= zlen p ->
  inserted base p c n n =
  splice (set_free_end (splice p (free_end p - zlen c) c) (free_end p - zlen c))
    (base + 2 * n) (le_bytes 2 (free_end p - zlen c)).
Proof.
  intros H. unfold inserted. set (r := set_free_end _ _).
  assert (zlen r = zlen p)
    by (unfold r, set_free_end, set_paged_page_free_end, put_u16; by rewrite !zlen_splice).
  replace (2 * (n - n)) with 0 by lia. rewrite slice_0.
  rewrite (splice_id r); [done|lia|zlia|by rewrite slice_0].
Qed.

(** Appending a cell *)
Lemma area_append base p c cells :
  32 <= base -> area base p cells -> Forall byte_ok c ->
  base + 2 * (zlen cells + 1) + zlen c <= free_end p ->
  area base (inserted base p c (zlen cells) (zlen cells)) (cells ++ [c]).
Proof.
  intros Hb Ha Hc Hf.
  pose proof (area_inserted base p c cells (length cells) Hb Ha Hc ltac:(lia) Hf) as H.
  by rewrite firstn_all, skipn_all in H.
Qed.
