(* ===== verification/Leaf.v ===== *)
(** * Leaf pages of the B+ tree ([crates/reddb-engine/src/storage/btree.rs])

    Reading, searching, inserting, overwriting, deleting and rebuilding the
    entries of a leaf.  A [&mut Page] argument is state passing; every caller
    works on a copy of the page that an error discards, so an error carries no
    page. *)

From S2P Require Import Prelude FileFormat Page Slots.
From Stdlib Require Import ZArith Lia.

Definition MAX_KEY_SIZE : Z := 1024.
Definition MIN_FILL_FACTOR : Z := 25.
Definition LEAF_PREV_OFFSET : Z := HEADER_SIZE.
Definition LEAF_NEXT_OFFSET : Z := HEADER_SIZE + 4.
Definition LEAF_SLOT_ARRAY_OFFSET : Z := HEADER_SIZE + 8.
Definition LEAF_DATA_OFFSET : Z := LEAF_SLOT_ARRAY_OFFSET.

Abbreviation entry := (bytes * bytes)%type.

Definition leaf_min_bytes : Z := (PAGE_SIZE - LEAF_DATA_OFFSET) * MIN_FILL_FACTOR / 100.

Definition leaf_entry_size (e : entry) : Z := 2 + 4 + zlen e.1 + zlen e.2.

Definition leaf_entries_size (entries : list entry) : Z :=
  foldr Z.add 0 (leaf_entry_size <$> entries).

Definition leaf_slot_offset_for (index : Z) : Z := LEAF_SLOT_ARRAY_OFFSET + index * 2.

Definition leaf_read_slot (page : bytes) (index : Z) : BTreeResult Z :=
  let slot_pos := leaf_slot_offset_for index in
  if PAGE_SIZE <? slot_pos + 2 then Err (Corrupted "slot array overflows page")
  else get_u16 page slot_pos.

Definition leaf_write_slot (page : bytes) (index cell_offset : Z) : BTreeResult bytes :=
  let slot_pos := leaf_slot_offset_for index in
  if PAGE_SIZE <? slot_pos + 2 then Err (Corrupted "slot array overflows page")
  else put_slice page slot_pos (le_bytes 2 cell_offset).

Definition leaf_slots_end (page : bytes) : Z := LEAF_SLOT_ARRAY_OFFSET + cell_count page * 2.

Definition leaf_cells_start (page : bytes) : Z :=
  if free_end page =? 0 then PAGE_SIZE else free_end page.

Definition leaf_free_bytes (page : bytes) : Z :=
  sat_sub (leaf_cells_start page) (leaf_slots_end page).

Definition read_leaf_cell (page : bytes) (index : Z) : BTreeResult entry :=
  if cell_count page <=? index then Err (Corrupted "Cell index out of range")
  else
    offset ← leaf_read_slot page index;
    if PAGE_SIZE <? offset + 4 then Err (Corrupted "cell header out of range")
    else
      key_len ← get_u16 page offset;
      val_len ← get_u16 page (offset + 2);
      let end_ := offset + 4 + key_len + val_len in
      if PAGE_SIZE <? end_ then Err (Corrupted "cell body out of range")
      else Ok (slice page (offset + 4) key_len, slice page (offset + 4 + key_len) val_len).

(** [for i in 0..n { v.push(f(i)?) }] *)
Fixpoint collect {E A} (f : Z -> result E A) (i : Z) (n : nat) : result E (list A) :=
  match n with
  | O => Ok []
  | S n => x ← f i; l ← collect f (i + 1) n; Ok (x :: l)
  end.

Definition read_leaf_entries (page : bytes) : BTreeResult (list entry) :=
  collect (read_leaf_cell page) 0 (Z.to_nat (cell_count page)).

Inductive SearchResult : Type := Found (i : Z) | SearchNotFound (i : Z).

Definition search_leaf_body (page key : bytes) (mid : Z) : BTreeResult (probe Z) :=
  '(cell_key, _) ← read_leaf_cell page mid;
  Ok match bytes_cmp cell_key key with Lt => GoRight | Gt => GoLeft | Eq => Stop mid end.

Definition search_leaf (page key : bytes) : BTreeResult SearchResult :=
  r ← bsearch (Z.to_nat (cell_count page)) (search_leaf_body page key) 0 (cell_count page);
  Ok match r with inl mid => Found mid | inr low => SearchNotFound low end.

Definition clear_leaf_cells (page : bytes) : bytes :=
  let page := clear_from page LEAF_SLOT_ARRAY_OFFSET in
  let page := set_cell_count page 0 in
  let page := set_free_start page LEAF_SLOT_ARRAY_OFFSET in
  set_free_end page PAGE_SIZE.

(** The four writes of one cell *)
Definition write_leaf_cell (page : bytes) (cell_offset : Z) (k v : bytes) : BTreeResult bytes :=
  page ← put_slice page cell_offset (le_bytes 2 (as_u16 (zlen k)));
  page ← put_slice page (cell_offset + 2) (le_bytes 2 (as_u16 (zlen v)));
  page ← put_slice page (cell_offset + 4) k;
  put_slice page (cell_offset + 4 + zlen k) v.

(** The loop of [write_leaf_entries] *)
Fixpoint write_leaf_entries_from (page : bytes) (i : Z) (entries : list entry)
    : BTreeResult bytes :=
  match entries with
  | [] => Ok page
  | (k, v) :: entries =>
      let cell_size := 4 + zlen k + zlen v in
      let cells_start := leaf_cells_start page in
      let slot_end := LEAF_SLOT_ARRAY_OFFSET + (i + 1) * 2 in
      if cells_start <? slot_end + cell_size
      then Err (Corrupted "leaf rebuild overflowed page")
      else
        let cell_offset := cells_start - cell_size in
        page ← write_leaf_cell page cell_offset k v;
        let page := set_free_end page (as_u16 cell_offset) in
        page ← leaf_write_slot page i (as_u16 cell_offset);
        write_leaf_entries_from page (i + 1) entries
  end.

Definition write_leaf_entries (page : bytes) (entries : list entry) : BTreeResult bytes :=
  let page := clear_leaf_cells page in
  page ← write_leaf_entries_from page 0 entries;
  let page := set_cell_count page (as_u16 (zlen entries)) in
  Ok (set_free_start page (as_u16 (LEAF_SLOT_ARRAY_OFFSET + zlen entries * 2))).

Definition can_insert_leaf (page key value : bytes) : bool :=
  let needed := 2 + 4 + zlen key + zlen value in
  needed <=? leaf_free_bytes page.

Definition overwrite_leaf_value (page : bytes) (index : Z) (new_value : bytes)
    : BTreeResult bytes :=
  cell_offset ← leaf_read_slot page index;
  if zlen page <? cell_offset + 4 then Err (Corrupted "leaf cell header out of bounds")
  else
    k_len ← get_u16 page cell_offset;
    old_v_len ← get_u16 page (cell_offset + 2);
    if old_v_len <? zlen new_value
    then Err (Corrupted "overwrite_leaf_value: new value larger than slot")
    else
      let value_start := cell_offset + 4 + k_len in
      if zlen page <? value_start + zlen new_value
      then Err (Corrupted "leaf cell value out of bounds")
      else
        page ← (if negb (zlen new_value =? old_v_len)
                then put_slice page (cell_offset + 2) (le_bytes 2 (as_u16 (zlen new_value)))
                else Ok page);
        put_slice page value_start new_value.

(** The search of [insert_into_leaf]: on an equal key it stops after it. *)
Definition insert_leaf_body (page key : bytes) (mid : Z) : BTreeResult (probe Z) :=
  '(cell_key, _) ← read_leaf_cell page mid;
  Ok match bytes_cmp cell_key key with Lt => GoRight | Gt => GoLeft | Eq => Stop (mid + 1) end.

Definition insert_into_leaf (page key value : bytes) : BTreeResult bytes :=
  let count := cell_count page in
  r ← bsearch (Z.to_nat count) (insert_leaf_body page key) 0 count;
  let insert_pos := match r with inl low => low | inr low => low end in
  let cell_size := 4 + zlen key + zlen value in
  let slot_end_after := LEAF_SLOT_ARRAY_OFFSET + (count + 1) * 2 in
  let cells_start := leaf_cells_start page in
  if cells_start <? slot_end_after + cell_size then Err (Corrupted "leaf page full")
  else
    let cell_offset := cells_start - cell_size in
    page ← write_leaf_cell page cell_offset key value;
    let page := set_free_end page (as_u16 cell_offset) in
    let shift_from := leaf_slot_offset_for insert_pos in
    let shift_to := shift_from + 2 in
    let shift_len := (count - insert_pos) * 2 in
    page ← (if 0 <? shift_len then copy_within page shift_from shift_len shift_to else Ok page);
    page ← leaf_write_slot page insert_pos (as_u16 cell_offset);
    let page := set_cell_count page (as_u16 (count + 1)) in
    Ok (set_free_start page (as_u16 (LEAF_SLOT_ARRAY_OFFSET + (count + 1) * 2))).

Definition delete_from_leaf (page : bytes) (index : Z) : BTreeResult bytes :=
  let count := cell_count page in
  if count <=? index then Err (Corrupted "delete index out of range")
  else
    page ← (if index + 1 <? count then
              let shift_from := leaf_slot_offset_for (index + 1) in
              let shift_to := leaf_slot_offset_for index in
              let shift_len := (count - index - 1) * 2 in
              copy_within page shift_from shift_len shift_to
            else Ok page);
    let page := set_cell_count page (as_u16 (count - 1)) in
    Ok (set_free_start page (as_u16 (LEAF_SLOT_ARRAY_OFFSET + (count - 1) * 2))).

Definition init_leaf_links (page : bytes) (prev next : Z) : bytes :=
  put_u32 (put_u32 page LEAF_PREV_OFFSET prev) LEAF_NEXT_OFFSET next.

Definition read_next_leaf (page : bytes) : Z := u32_at page LEAF_NEXT_OFFSET.
Definition leaf_right_sibling (page : bytes) : Z := read_next_leaf page.

Definition leaf_high_key (page : bytes) : BTreeResult (option bytes) :=
  if cell_count page =? 0 then Ok None
  else '(key, _) ← read_leaf_cell page (cell_count page - 1); Ok (Some key).

Definition set_prev_leaf (page : bytes) (prev : Z) : bytes := put_u32 page LEAF_PREV_OFFSET prev.
Definition set_next_leaf (page : bytes) (next : Z) : bytes := put_u32 page LEAF_NEXT_OFFSET next.

(** * Theorems *)

(** The bytes of one entry *)
Definition leaf_cell (e : entry) : bytes :=
  le_bytes 2 (zlen e.1) ++ le_bytes 2 (zlen e.2) ++ e.1 ++ e.2.

(** The leaf holds [kvs]. *)
Definition leaf_rep (page : bytes) (kvs : list entry) : Prop :=
  area 40 page (leaf_cell <$> kvs) /\ cell_count page = zlen kvs.

Lemma zlen_leaf_cell e : zlen (leaf_cell e) = 4 + zlen e.1 + zlen e.2.
Proof. unfold leaf_cell. zlia. Qed.

#[export] Hint Rewrite zlen_leaf_cell : zlen.

Lemma leaf_cell_bytes_ok e : Forall byte_ok e.1 -> Forall byte_ok e.2 -> Forall byte_ok (leaf_cell e).
Proof. intros. unfold leaf_cell. rewrite !Forall_app. auto using le_bytes_ok. Qed.

Lemma leaf_cell_fields e :
  zlen e.1 < 65536 -> zlen e.2 < 65536 ->
  u16_at (leaf_cell e) 0 = zlen e.1 /\ u16_at (leaf_cell e) 2 = zlen e.2 /\
  slice (leaf_cell e) 4 (zlen e.1) = e.1 /\
  slice (leaf_cell e) (4 + zlen e.1) (zlen e.2) = e.2.
Proof.
  intros Hk Hv. pose proof (zlen_nonneg e.1). pose proof (zlen_nonneg e.2).
  unfold leaf_cell. split_and!.
  - apply (le_val_u16 (zlen e.1)). unfold u16_ok. lia.
  - apply (le_val_u16 (zlen e.2)). unfold u16_ok. lia.
  - rewrite !slice_app_r by zlia. autorewrite with zlen.
    rewrite slice_app_l by lia. by apply slice_all.
  - rewrite !slice_app_r by zlia. autorewrite with zlen. slice_from 0. by apply slice_all.
Qed.

Lemma leaf_rep_len p kvs : leaf_rep p kvs -> zlen p = 16384.
Proof. intros [Ha _]. apply Ha. Qed.

Lemma leaf_rep_room p kvs : leaf_rep p kvs -> 40 + 2 * zlen kvs <= free_end p <= 16384.
Proof. intros [Ha _]. pose proof (area_room _ _ _ Ha) as H. by rewrite zlen_fmap in H. Qed.

Lemma leaf_cells_start_rep p kvs : leaf_rep p kvs -> leaf_cells_start p = free_end p.
Proof.
  intros Hr. pose proof (leaf_rep_room _ _ Hr). pose proof (zlen_nonneg kvs).
  unfold leaf_cells_start. by rewrite (proj2 (Z.eqb_neq _ _)) by lia.
Qed.

Lemma leaf_rep_cell p kvs i e :
  leaf_rep p kvs -> kvs !! i = Some e ->
  let o := u16_at p (40 + 2 * Z.of_nat i) in
  free_end p <= o /\ o + 4 + zlen e.1 + zlen e.2 <= 16384 /\
  slice p o (4 + zlen e.1 + zlen e.2) = leaf_cell e.
Proof.
  intros [Ha _] Hi o.
  destruct (area_cell _ _ _ Ha i (leaf_cell e)) as (C1 & C2 & C3).
  { by rewrite list_lookup_fmap, Hi. }
  rewrite zlen_leaf_cell in C2, C3. fold o in C1, C2, C3. split_and!; [done|lia|done].
Qed.

Lemma leaf_read_slot_ok p i :
  zlen p = 16384 -> 0 <= i -> 42 + 2 * i <= 16384 -> leaf_read_slot p i = Ok (u16_at p (40 + 2 * i)).
Proof.
  intros Hl Hi Hr. unfold leaf_read_slot, leaf_slot_offset_for.
  change LEAF_SLOT_ARRAY_OFFSET with 40. change PAGE_SIZE with 16384.
  rewrite (proj2 (Z.ltb_ge _ _)) by lia. rewrite get_u16_ok by lia. do 2 f_equal. lia.
Qed.

(** A cell whose bytes are those of an entry is read as that entry. *)
Lemma leaf_cell_read p o e :
  zlen p = 16384 -> 0 <= o -> o + 4 + zlen e.1 + zlen e.2 <= 16384 ->
  slice p o (4 + zlen e.1 + zlen e.2) = leaf_cell e ->
  u16_at p o = zlen e.1 /\ u16_at p (o + 2) = zlen e.2 /\
  slice p (o + 4) (zlen e.1) = e.1 /\ slice p (o + 4 + zlen e.1) (zlen e.2) = e.2.
Proof.
  intros Hl Ho Hr Hs. pose proof (zlen_nonneg e.1). pose proof (zlen_nonneg e.2).
  destruct (leaf_cell_fields e) as (F1 & F2 & F3 & F4); [lia|lia|].
  rewrite <-Hs in F1, F2, F3, F4. unfold u16_at in *. rewrite !slice_slice in F1, F2, F3, F4 by lia.
  rewrite Z.add_0_r in F1. by rewrite Z.add_assoc in F4.
Qed.

Lemma leaf_rep_read p kvs i e :
  leaf_rep p kvs -> kvs !! i = Some e -> read_leaf_cell p (Z.of_nat i) = Ok e.
Proof.
  intros Hr Hi. pose proof (leaf_rep_len _ _ Hr) as Hl. pose proof (leaf_rep_room _ _ Hr).
  assert (Hlt : Z.of_nat i < zlen kvs) by (apply lookup_lt_Some in Hi; unfold zlen; lia).
  destruct (leaf_rep_cell p kvs i e Hr Hi) as (C1 & C2 & C3).
  pose proof (zlen_nonneg e.1). pose proof (zlen_nonneg e.2).
  destruct (leaf_cell_read p (u16_at p (40 + 2 * Z.of_nat i)) e Hl ltac:(lia) C2 C3) as (F1 & F2 & F3 & F4).
  unfold read_leaf_cell. rewrite (proj2 Hr). rewrite (proj2 (Z.leb_gt _ _)) by lia.
  rewrite leaf_read_slot_ok by lia. cbn [mbind result_bind]. change PAGE_SIZE with 16384.
  rewrite (proj2 (Z.ltb_ge _ _)) by lia. rewrite !get_u16_ok by lia. cbn [mbind result_bind].
  rewrite F1, F2. rewrite (proj2 (Z.ltb_ge _ _)) by lia. rewrite F3, F4. by destruct e.
Qed.

Lemma collect_ok {E A} (f : Z -> result E A) (l : list A) i n :
  n = length l ->
  (forall j x, l !! j = Some x -> f (i + Z.of_nat j) = Ok x) -> collect f i n = Ok l.
Proof.
  intros ->. revert i. induction l as [|x l IH]; intros i Hf; cbn [length collect]; [done|].
  pose proof (Hf 0%nat x eq_refl) as H0. rewrite Z.add_0_r in H0. rewrite H0.
  cbn [mbind result_bind]. rewrite IH; [done|]. intros j y Hj. rewrite <-(Hf (S j) y Hj). f_equal. lia.
Qed.

Lemma read_leaf_entries_rep p kvs : leaf_rep p kvs -> read_leaf_entries p = Ok kvs.
Proof.
  intros Hr. unfold read_leaf_entries. apply collect_ok.
  - rewrite (proj2 Hr). unfold zlen. lia.
  - intros j e Hj. rewrite Z.add_0_l. by apply (leaf_rep_read p kvs).
Qed.

(** ** Search *)

Lemma leaf_body_probe found p kvs key i :
  leaf_rep p kvs -> 0 <= i < zlen kvs.*1 ->
  ('(cell_key, _) ← read_leaf_cell p i;
   Ok match bytes_cmp cell_key key with
      | Lt => GoRight | Gt => GoLeft | Eq => Stop (found i) end : BTreeResult (probe Z)) =
  Ok (key_probe found kvs.*1 key i).
Proof.
  intros Hr Hi. rewrite zlen_fmap in Hi. unfold key_probe. rewrite list_lookup_fmap.
  destruct (lookup_lt_is_Some_2 kvs (Z.to_nat i)) as [[k v] E]; [unfold zlen in *; lia|].
  replace i with (Z.of_nat (Z.to_nat i)) at 1 by lia.
  rewrite (leaf_rep_read p kvs _ _ Hr E), E. cbn. by destruct (bytes_cmp k key).
Qed.

(** The search of a leaf in key order finds the index of the key, or the
    position at which it belongs; it never reports corruption. *)
Theorem search_leaf_spec p kvs key :
  leaf_rep p kvs -> StronglySorted blt kvs.*1 ->
  (exists i v, search_leaf p key = Ok (Found (Z.of_nat i)) /\ kvs !! i = Some (key, v)) \/
  (exists c, search_leaf p key = Ok (SearchNotFound (Z.of_nat c)) /\ insertion_point kvs.*1 key c).
Proof.
  intros Hr Hs. unfold search_leaf. rewrite (proj2 Hr), <-(zlen_fmap fst).
  pose proof (zlen_nonneg kvs.*1).
  destruct (bsearch_keys id kvs.*1 key Hs (search_leaf_body p key) (Z.to_nat (zlen kvs.*1)))
    as [(i & -> & Hi)|(c & -> & Hc)]; [lia| | |].
  - intros i Hi. by apply (leaf_body_probe id).
  - left. rewrite list_lookup_fmap in Hi.
    destruct (kvs !! i) as [[k v]|] eqn:E; [|done]. cbn in Hi. injection Hi as ->. eauto.
  - right. eauto.
Qed.

(** ** Insertion *)

Lemma write_leaf_cell_ok p o k v :
  0 <= o -> o + 4 + zlen k + zlen v <= zlen p -> zlen k < 65536 -> zlen v < 65536 ->
  write_leaf_cell p o k v = Ok (splice p o (leaf_cell (k, v))).
Proof.
  intros Ho Hr Hk Hv. pose proof (zlen_nonneg k). pose proof (zlen_nonneg v).
  unfold write_leaf_cell. rewrite !as_u16_id by (unfold u16_ok; lia).
  rewrite put_slice_ok by zlia. cbn [mbind result_bind].
  rewrite put_slice_ok by zlia. cbn [mbind result_bind].
  rewrite put_slice_ok by zlia. cbn [mbind result_bind]. rewrite put_slice_ok by zlia.
  f_equal. unfold leaf_cell; cbn [fst snd]. by rewrite !splice_splice_app by zlia.
Qed.

Lemma leaf_write_slot_ok p i o :
  zlen p = 16384 -> 0 <= i -> 42 + 2 * i <= 16384 ->
  leaf_write_slot p i o = Ok (splice p (40 + 2 * i) (le_bytes 2 o)).
Proof.
  intros Hl Hi Hr. unfold leaf_write_slot, leaf_slot_offset_for.
  change LEAF_SLOT_ARRAY_OFFSET with 40. change PAGE_SIZE with 16384.
  rewrite (proj2 (Z.ltb_ge _ _)) by lia. rewrite put_slice_ok by zlia. do 2 f_equal. lia.
Qed.

(** The header updates that end an insertion or a deletion *)
Definition leaf_counts (page : bytes) (n : Z) : bytes :=
  set_free_start (set_cell_count page n) (40 + 2 * n).

Lemma leaf_counts_rep p kvs :
  area 40 p (leaf_cell <$> kvs) -> leaf_rep (leaf_counts p (zlen kvs)) kvs.
Proof.
  intros Ha. pose proof (area_room _ _ _ Ha) as Hr. rewrite zlen_fmap in Hr.
  pose proof (zlen_nonneg kvs). pose proof (area_len _ _ _ Ha).
  unfold leaf_counts, set_free_start, set_paged_page_free_start, set_cell_count,
    set_paged_page_cell_count, put_u16.
  split.
  - do 2 (apply area_splice_frame; [lia| |apply le_bytes_ok|lia|zlia]). done.
  - unfold cell_count, paged_page_cell_count.
    rewrite u16_at_splice_ne by zlia. apply u16_at_put; [lia|lia|unfold u16_ok; lia].
Qed.

Lemma same_frame_counts p n : same_frame 40 p (leaf_counts p n).
Proof.
  unfold leaf_counts, set_free_start, set_paged_page_free_start, set_cell_count,
    set_paged_page_cell_count, put_u16.
  repeat (etrans; [|apply same_frame_splice; zlia]). done.
Qed.

(** A list of entries with one put in at an index *)
Definition insert_entry (c : nat) (e : entry) (kvs : list entry) : list entry :=
  take c kvs ++ e :: drop c kvs.

Lemma fmap_insert_entry c e kvs :
  leaf_cell <$> insert_entry c e kvs =
  take c (leaf_cell <$> kvs) ++ leaf_cell e :: drop c (leaf_cell <$> kvs).
Proof. unfold insert_entry. by rewrite fmap_app, fmap_cons, fmap_take, fmap_drop. Qed.

Lemma zlen_insert_entry c e kvs : zlen (insert_entry c e kvs) = zlen kvs + 1.
Proof.
  unfold insert_entry, zlen. rewrite length_app. cbn [length]. rewrite length_take, length_drop. lia.
Qed.

(** Room for one more slot and the cell *)
Definition leaf_fits (p : bytes) (kvs : list entry) (e : entry) : Prop :=
  40 + 2 * (zlen kvs + 1) + zlen (leaf_cell e) <= free_end p.

Section insert.
Context (p : bytes) (kvs : list entry) (k v : bytes) (c : nat).
Context (Hr : leaf_rep p kvs) (Hc : (c <= length kvs)%nat) (Hfit : leaf_fits p kvs (k, v)).

Lemma leaf_insert_at :
  (let n := zlen kvs in let insert_pos := Z.of_nat c in
   let cell_offset := free_end p - (4 + zlen k + zlen v) in
   page ← write_leaf_cell p cell_offset k v;
   let page := set_free_end page (as_u16 cell_offset) in
   page ← (if 0 <? (n - insert_pos) * 2
           then copy_within page (leaf_slot_offset_for insert_pos) ((n - insert_pos) * 2)
                  (leaf_slot_offset_for insert_pos + 2)
           else Ok page);
   page ← leaf_write_slot page insert_pos (as_u16 cell_offset);
   let page := set_cell_count page (as_u16 (n + 1)) in
   Ok (set_free_start page (as_u16 (LEAF_SLOT_ARRAY_OFFSET + (n + 1) * 2)))) =
  Ok (leaf_counts (inserted 40 p (leaf_cell (k, v)) (zlen kvs) (Z.of_nat c)) (zlen kvs + 1)).
Proof.
  pose proof (leaf_rep_len _ _ Hr) as Hl. pose proof (leaf_rep_room _ _ Hr) as Hroom.
  unfold leaf_fits in Hfit. rewrite zlen_leaf_cell in Hfit. cbn [fst snd] in Hfit.
  pose proof (zlen_nonneg k). pose proof (zlen_nonneg v).
  assert (Hcn : Z.of_nat c <= zlen kvs) by (unfold zlen; lia).
  cbv zeta. rewrite write_leaf_cell_ok by lia. cbn [mbind result_bind].
  rewrite !as_u16_id by (change LEAF_SLOT_ARRAY_OFFSET with 40; unfold u16_ok; lia).
  unfold inserted. rewrite zlen_leaf_cell. cbn [fst snd].
  set (off := free_end p - (4 + zlen k + zlen v)).
  set (q := set_free_end _ _).
  assert (Hq : zlen q = 16384)
    by (unfold q, set_free_end, set_paged_page_free_end, put_u16; by rewrite !zlen_splice).
  assert (E : (if 0 <? (zlen kvs - Z.of_nat c) * 2
     then copy_within q (leaf_slot_offset_for (Z.of_nat c)) ((zlen kvs - Z.of_nat c) * 2)
            (leaf_slot_offset_for (Z.of_nat c) + 2)
     else Ok q) = Ok (splice q (40 + 2 * Z.of_nat c + 2)
       (slice q (40 + 2 * Z.of_nat c) (2 * (zlen kvs - Z.of_nat c)))) :> BTreeResult bytes).
  { unfold leaf_slot_offset_for. change LEAF_SLOT_ARRAY_OFFSET with 40.
    rewrite !(Z.mul_comm _ 2). destruct (Z.ltb_spec 0 (2 * (zlen kvs - Z.of_nat c))).
    - by rewrite copy_within_ok by lia.
    - replace (2 * (zlen kvs - Z.of_nat c)) with 0 by lia. rewrite slice_0, splice_id; [done|lia|zlia|].
      by rewrite slice_0. }
  rewrite E. cbn [mbind result_bind]. rewrite leaf_write_slot_ok by (rewrite ?zlen_splice; lia).
  cbn [mbind result_bind]. unfold leaf_counts. change LEAF_SLOT_ARRAY_OFFSET with 40.
  by replace ((zlen kvs + 1) * 2) with (2 * (zlen kvs + 1)) by lia.
Qed.

Lemma leaf_inserted_rep :
  Forall byte_ok k -> Forall byte_ok v ->
  leaf_rep (leaf_counts (inserted 40 p (leaf_cell (k, v)) (zlen kvs) (Z.of_nat c)) (zlen kvs + 1))
    (insert_entry c (k, v) kvs).
Proof.
  intros Hk Hv. rewrite <-zlen_insert_entry with c (k, v) kvs. apply leaf_counts_rep.
  rewrite fmap_insert_entry, <-(zlen_fmap leaf_cell kvs).
  apply area_inserted; [lia|apply Hr|by apply leaf_cell_bytes_ok|by rewrite length_fmap|].
  by rewrite zlen_fmap.
Qed.

Lemma same_frame_leaf_inserted :
  same_frame 40 p (leaf_counts (inserted 40 p (leaf_cell (k, v)) (zlen kvs) (Z.of_nat c)) (zlen kvs + 1)).
Proof.
  pose proof (leaf_rep_room _ _ Hr). unfold leaf_fits in Hfit. pose proof (zlen_nonneg kvs).
  etrans; [|apply same_frame_counts]. apply same_frame_inserted; lia.
Qed.
End insert.

Lemma insert_entry_keys c e kvs :
  (insert_entry c e kvs).*1 = take c kvs.*1 ++ e.1 :: drop c kvs.*1.
Proof. unfold insert_entry. by rewrite fmap_app, fmap_cons, fmap_take, fmap_drop. Qed.

Lemma insert_leaf_search p kvs key :
  leaf_rep p kvs -> StronglySorted blt kvs.*1 -> key ∉ kvs.*1 ->
  exists c, bsearch (Z.to_nat (cell_count p)) (insert_leaf_body p key) 0 (cell_count p) =
              Ok (inr (Z.of_nat c)) /\ insertion_point kvs.*1 key c.
Proof.
  intros Hr Hs Hni. rewrite (proj2 Hr), <-(zlen_fmap fst). pose proof (zlen_nonneg kvs.*1).
  destruct (bsearch_keys (fun i => i + 1) kvs.*1 key Hs (insert_leaf_body p key)
    (Z.to_nat (zlen kvs.*1))) as [(i & _ & Hi)|?]; [lia| | |done].
  - intros i Hi. by apply (leaf_body_probe (fun i => i + 1)).
  - exfalso. apply Hni. by apply list_elem_of_lookup_2 in Hi.
Qed.

Lemma can_insert_leaf_spec p kvs k v :
  leaf_rep p kvs -> can_insert_leaf p k v = true <-> leaf_fits p kvs (k, v).
Proof.
  intros Hr. unfold can_insert_leaf, leaf_free_bytes, leaf_fits, sat_sub, leaf_slots_end.
  rewrite (leaf_cells_start_rep _ _ Hr), (proj2 Hr), zlen_leaf_cell. cbn [fst snd].
  pose proof (leaf_rep_room _ _ Hr). pose proof (zlen_nonneg k). pose proof (zlen_nonneg v).
  change LEAF_SLOT_ARRAY_OFFSET with 40. rewrite Z.leb_le. lia.
Qed.

(** Inserting a new key into a leaf in key order: if the entry fits it is put at
    its place in the order, the other entries, the links and the rest of the
    header are kept; if not the leaf reports that it is full. *)
Theorem insert_into_leaf_spec p kvs k v :
  leaf_rep p kvs -> StronglySorted blt kvs.*1 -> k ∉ kvs.*1 ->
  Forall byte_ok k -> Forall byte_ok v ->
  if can_insert_leaf p k v then
    exists p' c, insert_into_leaf p k v = Ok p' /\ insertion_point kvs.*1 k c /\
      leaf_rep p' (insert_entry c (k, v) kvs) /\
      StronglySorted blt (insert_entry c (k, v) kvs).*1 /\ same_frame 40 p p'
  else insert_into_leaf p k v = Err (Corrupted "leaf page full").
Proof.
  intros Hr Hs Hni Hk Hv. destruct (insert_leaf_search p kvs k Hr Hs Hni) as (c & Ec & Hc).
  pose proof Hc as (Hcl & _ & _). rewrite length_fmap in Hcl.
  pose proof (leaf_rep_room _ _ Hr) as Hroom.
  pose proof (can_insert_leaf_spec p kvs k v Hr) as Hcan.
  unfold insert_into_leaf. rewrite Ec. cbn [mbind result_bind].
  rewrite (leaf_cells_start_rep _ _ Hr), (proj2 Hr).
  unfold leaf_fits in Hcan. rewrite zlen_leaf_cell in Hcan. cbn [fst snd] in Hcan.
  destruct (can_insert_leaf p k v).
  - assert (Hfit : leaf_fits p kvs (k, v))
      by (unfold leaf_fits; rewrite zlen_leaf_cell; by apply Hcan).
    rewrite (proj2 (Z.ltb_ge _ _))
      by (change LEAF_SLOT_ARRAY_OFFSET with 40; pose proof (proj1 Hcan eq_refl); lia).
    pose proof (leaf_insert_at p kvs k v c Hr Hcl Hfit) as E. cbv zeta in E. rewrite E.
    do 2 eexists. split; [reflexivity|]. split; [done|].
    split_and!; [by apply leaf_inserted_rep| |by apply same_frame_leaf_inserted].
    rewrite insert_entry_keys. by apply sorted_insertion_point.
  - rewrite (proj2 (Z.ltb_lt _ _)); [done|]. change LEAF_SLOT_ARRAY_OFFSET with 40.
    destruct (Z.lt_ge_cases (free_end p) (40 + (zlen kvs + 1) * 2 + (4 + zlen k + zlen v)));
      [done|]. exfalso. assert (false = true) by (apply Hcan; lia). done.
Qed.

(** ** Deletion *)

Definition delete_entry (i : nat) (kvs : list entry) : list entry := take i kvs ++ drop (S i) kvs.

Lemma fmap_delete_entry i kvs :
  leaf_cell <$> delete_entry i kvs = take i (leaf_cell <$> kvs) ++ drop (S i) (leaf_cell <$> kvs).
Proof. unfold delete_entry. by rewrite fmap_app, fmap_take, fmap_drop. Qed.

Lemma zlen_delete_entry i kvs : (i < length kvs)%nat -> zlen (delete_entry i kvs) = zlen kvs - 1.
Proof.
  intros. unfold delete_entry, zlen. rewrite length_app, length_take, length_drop. lia.
Qed.

(** Deleting an index removes exactly that entry and keeps the others, the
    links and the rest of the header; an index out of range is an error. *)
Theorem delete_from_leaf_spec p kvs i :
  leaf_rep p kvs ->
  if decide (i < length kvs)%nat then
    exists p', delete_from_leaf p (Z.of_nat i) = Ok p' /\
      leaf_rep p' (delete_entry i kvs) /\ same_frame 40 p p'
  else delete_from_leaf p (Z.of_nat i) = Err (Corrupted "delete index out of range").
Proof.
  intros Hr. unfold delete_from_leaf. rewrite (proj2 Hr).
  pose proof (leaf_rep_len _ _ Hr) as Hl. pose proof (leaf_rep_room _ _ Hr) as Hroom.
  case_decide as Hi.
  2: { rewrite (proj2 (Z.leb_le _ _)); [done|unfold zlen; lia]. }
  assert (Hin : Z.of_nat i < zlen kvs) by (unfold zlen; lia).
  rewrite (proj2 (Z.leb_gt _ _)) by lia.
  assert (E : (if Z.of_nat i + 1 <? zlen kvs
      then copy_within p (leaf_slot_offset_for (Z.of_nat i + 1)) ((zlen kvs - Z.of_nat i - 1) * 2)
             (leaf_slot_offset_for (Z.of_nat i))
      else Ok p) = Ok (slot_deleted 40 p (zlen kvs) (Z.of_nat i)) :> BTreeResult bytes).
  { unfold leaf_slot_offset_for, slot_deleted. change LEAF_SLOT_ARRAY_OFFSET with 40.
    rewrite !(Z.mul_comm _ 2). destruct (Z.ltb_spec (Z.of_nat i + 1) (zlen kvs)).
    - by rewrite copy_within_ok by lia.
    - replace (2 * (zlen kvs - Z.of_nat i - 1)) with 0 by lia.
      rewrite slice_0, splice_id; [done|lia|zlia|by rewrite slice_0]. }
  cbv zeta. rewrite E. cbn [mbind result_bind].
  rewrite !as_u16_id by (change LEAF_SLOT_ARRAY_OFFSET with 40; unfold u16_ok; lia).
  exists (leaf_counts (slot_deleted 40 p (zlen kvs) (Z.of_nat i)) (zlen kvs - 1)). split_and!.
  - unfold leaf_counts. change LEAF_SLOT_ARRAY_OFFSET with 40.
    by replace ((zlen kvs - 1) * 2) with (2 * (zlen kvs - 1)) by lia.
  - rewrite <-zlen_delete_entry with i kvs by done. apply leaf_counts_rep.
    rewrite fmap_delete_entry, <-(zlen_fmap leaf_cell kvs).
    apply area_deleted; [lia|apply Hr|by rewrite length_fmap].
  - etrans; [|apply same_frame_counts]. apply same_frame_splice; lia.
Qed.

(** ** Overwriting a value *)

Lemma leaf_cell_parts p o e :
  0 <= o -> slice p o (4 + zlen e.1 + zlen e.2) = leaf_cell e ->
  slice p o 2 = le_bytes 2 (zlen e.1) /\ slice p (o + 2) 2 = le_bytes 2 (zlen e.2) /\
  slice p (o + 4) (zlen e.1) = e.1.
Proof.
  intros Ho Hs. pose proof (zlen_nonneg e.1). pose proof (zlen_nonneg e.2).
  assert (Hp : forall a n, 0 <= a -> 0 <= n -> a + n <= 4 + zlen e.1 + zlen e.2 ->
    slice p (o + a) n = slice (leaf_cell e) a n).
  { intros. rewrite <-Hs. by rewrite slice_slice by lia. }
  split_and!.
  - rewrite <-(Z.add_0_r o). rewrite Hp by lia. reflexivity.
  - rewrite Hp by lia. reflexivity.
  - rewrite Hp by lia. unfold leaf_cell. rewrite !slice_app_r by zlia. autorewrite with zlen.
    rewrite slice_app_l by lia. by apply slice_all.
Qed.

(** The page after the length and the value of a cell at [o] were written *)
Lemma overwritten_cell p o k old v :
  0 <= o -> o + 4 + zlen k + zlen old <= zlen p -> zlen v <= zlen old ->
  slice p o (4 + zlen k + zlen old) = leaf_cell (k, old) ->
  slice (splice (splice p (o + 2) (le_bytes 2 (zlen v))) (o + 4 + zlen k) v) o (4 + zlen k + zlen v)
  = leaf_cell (k, v).
Proof.
  intros Ho Hr Hle Hs. pose proof (zlen_nonneg k). pose proof (zlen_nonneg v).
  destruct (leaf_cell_parts p o (k, old) Ho Hs) as (P1 & P2 & P3). cbn [fst snd] in *.
  set (q := splice _ _ _).
  assert (Q1 : slice q o 2 = le_bytes 2 (zlen k)).
  { unfold q. rewrite !slice_splice_ne by zlia. done. }
  assert (Q2 : slice q (o + 2) 2 = le_bytes 2 (zlen v)).
  { unfold q. rewrite slice_splice_ne by zlia. apply slice_splice_eq; zlia. }
  assert (Q3 : slice q (o + 4) (zlen k) = k).
  { unfold q. rewrite !slice_splice_ne by zlia. done. }
  assert (Q4 : slice q (o + 4 + zlen k) (zlen v) = v).
  { unfold q. apply slice_splice_eq; zlia. }
  transitivity (slice q o 2 ++ slice q (o + 2) 2 ++ slice q (o + 4) (zlen k) ++
                slice q (o + 4 + zlen k) (zlen v)).
  - rewrite !slice_join by lia. f_equal. lia.
  - by rewrite Q1, Q2, Q3, Q4.
Qed.

Lemma overwrite_leaf_value_eq p kvs i k old v :
  leaf_rep p kvs -> kvs !! i = Some (k, old) -> zlen v <= zlen old ->
  let o := u16_at p (40 + 2 * Z.of_nat i) in
  overwrite_leaf_value p (Z.of_nat i) v =
  Ok (splice (splice p (o + 2) (le_bytes 2 (zlen v))) (o + 4 + zlen k) v).
Proof.
  intros Hr Hi Hle o. pose proof (leaf_rep_len _ _ Hr) as Hl. pose proof (leaf_rep_room _ _ Hr).
  destruct (leaf_rep_cell p kvs i (k, old) Hr Hi) as (C1 & C2 & C3). fold o in C1, C2, C3.
  cbn [fst snd] in *. pose proof (zlen_nonneg k). pose proof (zlen_nonneg v).
  assert (Hlt : Z.of_nat i < zlen kvs) by (apply lookup_lt_Some in Hi; unfold zlen; lia).
  destruct (leaf_cell_read p o (k, old) Hl ltac:(lia) C2 C3) as (F1 & F2 & _ & _).
  destruct (leaf_cell_parts p o (k, old) ltac:(lia) C3) as (_ & P2 & _). cbn [fst snd] in *.
  unfold overwrite_leaf_value. rewrite leaf_read_slot_ok by lia. fold o.
  cbn [mbind result_bind]. rewrite (proj2 (Z.ltb_ge _ _)) by lia.
  rewrite !get_u16_ok by lia. cbn [mbind result_bind]. rewrite F1, F2.
  rewrite (proj2 (Z.ltb_ge _ _)) by lia. rewrite (proj2 (Z.ltb_ge _ _)) by lia.
  rewrite as_u16_id by (unfold u16_ok; lia).
  destruct (Z.eqb_spec (zlen v) (zlen old)) as [Ev|Ev]; cbn [negb].
  - cbn [mbind result_bind]. rewrite put_slice_ok by lia.
    rewrite (splice_id p (o + 2)); [done|lia|zlia|]. rewrite zlen_le_bytes, Ev. exact P2.
  - rewrite put_slice_ok by zlia. cbn [mbind result_bind]. by rewrite put_slice_ok by zlia.
Qed.

(** Overwriting a value that is not longer than the old one replaces it in
    place and changes no other entry, link or header field; a longer value is
    refused. *)
Theorem overwrite_leaf_value_spec p kvs i k old v :
  leaf_rep p kvs -> kvs !! i = Some (k, old) -> Forall byte_ok v ->
  if decide (zlen v <= zlen old) then
    exists p', overwrite_leaf_value p (Z.of_nat i) v = Ok p' /\
      leaf_rep p' (<[i := (k, v)]> kvs) /\ same_frame 40 p p'
  else exists msg, overwrite_leaf_value p (Z.of_nat i) v = Err (Corrupted msg).
Proof.
  intros Hr Hi Hv. pose proof (leaf_rep_len _ _ Hr) as Hl. pose proof (leaf_rep_room _ _ Hr).
  destruct (leaf_rep_cell p kvs i (k, old) Hr Hi) as (C1 & C2 & C3).
  cbn [fst snd] in *. pose proof (zlen_nonneg k). pose proof (zlen_nonneg v).
  assert (Hlt : Z.of_nat i < zlen kvs) by (apply lookup_lt_Some in Hi; unfold zlen; lia).
  case_decide as Hle.
  - pose proof (overwrite_leaf_value_eq p kvs i k old v Hr Hi Hle) as E. cbv zeta in E.
    set (o := u16_at p (40 + 2 * Z.of_nat i)) in *. rewrite E. eexists. split; [done|]. split.
    + destruct Hr as [Ha Hcnt]. split.
      * rewrite list_fmap_insert.
        apply (area_overwrite 40 p _ _ i (leaf_cell (k, old))); fold o;
          rewrite ?zlen_splice, ?zlen_leaf_cell; cbn [fst snd]; try done; try lia.
        -- by rewrite list_lookup_fmap, Hi.
        -- pose proof (area_bytes _ _ _ Ha). auto using Forall_splice, le_bytes_ok.
        -- apply overwritten_cell with old; done || lia.
        -- intros. rewrite !slice_splice_ne by zlia. done.
      * unfold cell_count, paged_page_cell_count in *. rewrite !u16_at_splice_ne by zlia.
        rewrite Hcnt. unfold zlen. by rewrite length_insert.
    + do 2 (etrans; [|apply same_frame_splice; lia]). done.
  - pose proof (zlen_nonneg old).
    destruct (leaf_cell_read p (u16_at p (40 + 2 * Z.of_nat i)) (k, old) Hl ltac:(lia) C2 C3) as (F1 & F2 & _ & _).
    unfold overwrite_leaf_value. rewrite leaf_read_slot_ok by lia.
    cbn [mbind result_bind]. rewrite (proj2 (Z.ltb_ge _ _)) by lia.
    rewrite !get_u16_ok by lia. cbn [mbind result_bind]. rewrite F1, F2.
    rewrite (proj2 (Z.ltb_lt _ _)) by (cbn; lia). eauto.
Qed.

(** ** Rebuilding a leaf *)

Lemma clear_leaf_cells_area p :
  zlen p = 16384 -> Forall byte_ok p ->
  leaf_rep (clear_leaf_cells p) [] /\ free_end (clear_leaf_cells p) = 16384 /\
  same_frame 40 p (clear_leaf_cells p).
Proof.
  intros Hl Hb.
  unfold clear_leaf_cells, clear_from, set_free_end, set_paged_page_free_end, set_free_start,
    set_paged_page_free_start, set_cell_count, set_paged_page_cell_count, put_u16.
  change LEAF_SLOT_ARRAY_OFFSET with 40. change PAGE_SIZE with 16384. rewrite Hl.
  set (q := splice (splice (splice p 40 _) _ _) 4 _).
  assert (Hq : zlen q = 16384) by (unfold q; by rewrite !zlen_splice).
  assert (Hqb : Forall byte_ok q).
  { unfold q. auto 10 using Forall_splice, le_bytes_ok, Forall_zeros. }
  assert (E : free_end (splice q 6 (le_bytes 2 16384)) = 16384).
  { unfold free_end, paged_page_free_end. apply u16_at_put; [lia|lia|unfold u16_ok; lia]. }
  split_and!; [split| |].
  - apply area_empty; [by rewrite zlen_splice|auto using Forall_splice, le_bytes_ok|done|lia].
  - unfold cell_count, paged_page_cell_count. rewrite u16_at_splice_ne by zlia.
    unfold q. rewrite u16_at_splice_ne by zlia.
    rewrite u16_at_put; [done|lia| |unfold u16_ok; lia]. rewrite zlen_splice. lia.
  - done.
  - etrans; [|apply same_frame_splice; zlia]. unfold q.
    repeat (etrans; [|apply same_frame_splice; zlia]). done.
Qed.

Lemma leaf_entries_size_cons e es :
  leaf_entries_size (e :: es) = leaf_entry_size e + leaf_entries_size es.
Proof. reflexivity. Qed.

Lemma leaf_entries_size_nonneg es : 0 <= leaf_entries_size es.
Proof.
  induction es as [|e es IH]; [done|]. rewrite leaf_entries_size_cons. unfold leaf_entry_size.
  pose proof (zlen_nonneg e.1). pose proof (zlen_nonneg e.2). lia.
Qed.

(** What a page holds, slots included, fits in the page. *)
Lemma leaf_rep_size p kvs : leaf_rep p kvs -> leaf_entries_size kvs <= PAGE_SIZE - LEAF_SLOT_ARRAY_OFFSET.
Proof.
  intros Hr. pose proof (area_packed _ _ _ (proj1 Hr)) as Hp. pose proof (leaf_rep_room _ _ Hr).
  change (PAGE_SIZE - LEAF_SLOT_ARRAY_OFFSET) with 16344.
  assert (E : leaf_entries_size kvs = 2 * zlen kvs + foldr Z.add 0 (zlen <$> (leaf_cell <$> kvs))).
  { clear. induction kvs as [|e kvs IH]; [done|]. rewrite leaf_entries_size_cons, IH, zlen_cons.
    cbn [fmap list_fmap foldr]. rewrite zlen_leaf_cell. unfold leaf_entry_size. lia. }
  lia.
Qed.

Definition entry_ok (e : entry) : Prop := Forall byte_ok e.1 /\ Forall byte_ok e.2.

(** One iteration of the rebuild is an append. *)
Lemma rebuild_step p cells k v :
  area 40 p cells -> 40 + 2 * (zlen cells + 1) + (4 + zlen k + zlen v) <= free_end p ->
  (page ← write_leaf_cell p (free_end p - (4 + zlen k + zlen v)) k v;
   leaf_write_slot (set_free_end page (as_u16 (free_end p - (4 + zlen k + zlen v)))) (zlen cells)
     (as_u16 (free_end p - (4 + zlen k + zlen v)))) =
  Ok (inserted 40 p (leaf_cell (k, v)) (zlen cells) (zlen cells)).
Proof.
  intros Ha Hfit. pose proof (area_room _ _ _ Ha). pose proof (area_len _ _ _ Ha).
  pose proof (zlen_nonneg k). pose proof (zlen_nonneg v). pose proof (zlen_nonneg cells).
  rewrite write_leaf_cell_ok by lia. cbn [mbind result_bind].
  rewrite !as_u16_id by (unfold u16_ok; lia).
  rewrite inserted_last by lia. rewrite zlen_leaf_cell. cbn [fst snd].
  rewrite leaf_write_slot_ok; [done| |lia|lia].
  unfold set_free_end, set_paged_page_free_end, put_u16. by rewrite !zlen_splice.
Qed.

Lemma write_leaf_entries_from_spec es p done_ :
  area 40 p (leaf_cell <$> done_) -> Forall entry_ok es ->
  if decide (40 + 2 * zlen done_ + leaf_entries_size es <= free_end p) then
    exists p', write_leaf_entries_from p (zlen done_) es = Ok p' /\
      area 40 p' (leaf_cell <$> done_ ++ es) /\ same_frame 40 p p'
  else write_leaf_entries_from p (zlen done_) es = Err (Corrupted "leaf rebuild overflowed page").
Proof.
  revert p done_. induction es as [|[k v] es IH]; intros p dn Ha Hok; cbn [write_leaf_entries_from].
  - pose proof (area_room _ _ _ Ha) as Hr. rewrite zlen_fmap in Hr.
    rewrite decide_True by (unfold leaf_entries_size; cbn; lia).
    exists p. by rewrite app_nil_r.
  - apply Forall_cons in Hok as [[Hk Hv] Hok]. cbn [fst snd] in Hk, Hv.
    pose proof (area_room _ _ _ Ha) as Hr. rewrite zlen_fmap in Hr. pose proof (zlen_nonneg dn).
    pose proof (zlen_nonneg k). pose proof (zlen_nonneg v). pose proof (leaf_entries_size_nonneg es).
    rewrite leaf_entries_size_cons. unfold leaf_entry_size at 1 2. cbn [fst snd].
    assert (Hcs : leaf_cells_start p = free_end p)
      by (unfold leaf_cells_start; by rewrite (proj2 (Z.eqb_neq _ _)) by lia).
    rewrite Hcs. change LEAF_SLOT_ARRAY_OFFSET with 40.
    destruct (Z.ltb_spec (free_end p) (40 + (zlen dn + 1) * 2 + (4 + zlen k + zlen v))) as [Hov|Hfit].
    { case_decide; [lia|done]. }
    pose proof (rebuild_step p (leaf_cell <$> dn) k v Ha) as Hstep.
    rewrite zlen_fmap in Hstep. specialize (Hstep ltac:(lia)).
    set (p1 := inserted 40 p (leaf_cell (k, v)) (zlen dn) (zlen dn)) in *.
    assert (Ha1 : area 40 p1 (leaf_cell <$> dn ++ [(k, v)])).
    { rewrite fmap_app. cbn [fmap list_fmap]. unfold p1. rewrite <-(zlen_fmap leaf_cell dn).
      apply area_append; [lia|done|by apply leaf_cell_bytes_ok|].
      rewrite zlen_fmap, zlen_leaf_cell. cbn [fst snd]. lia. }
    assert (He : free_end p1 = free_end p - (4 + zlen k + zlen v)).
    { unfold p1. pose proof (inserted_free_end 40 p (leaf_cell (k, v)) (leaf_cell <$> dn)
        (length (leaf_cell <$> dn)) ltac:(lia) Ha ltac:(lia)) as E.
      rewrite zlen_fmap, zlen_leaf_cell, length_fmap in E. cbn [fst snd] in E.
      apply E. lia. }
    specialize (IH p1 (dn ++ [(k, v)]) Ha1 Hok). rewrite He in IH.
    rewrite zlen_app in IH. change (zlen [(k, v)]) with 1 in IH.
    apply bind_Ok_inv in Hstep as (w & Ew & Es). rewrite Ew. cbn [mbind result_bind].
    rewrite Es. cbn [mbind result_bind].
    assert (Hf1 : same_frame 40 p p1).
    { apply same_frame_inserted; rewrite ?zlen_leaf_cell; cbn [fst snd]; lia. }
    repeat case_decide; try lia; [|done].
    destruct IH as (p' & E' & Ha' & Hf'). exists p'. split_and!; [done| |by etrans].
    by rewrite <-app_assoc in Ha'.
Qed.

(** A rebuilt leaf holds exactly the entries it was given, in their order; the
    rebuild fails exactly when the entries with their slots exceed the page, and
    the links and the other header fields are kept. *)
Theorem write_leaf_entries_spec p entries :
  zlen p = 16384 -> Forall byte_ok p -> Forall entry_ok entries ->
  if decide (leaf_entries_size entries <= PAGE_SIZE - LEAF_DATA_OFFSET) then
    exists p', write_leaf_entries p entries = Ok p' /\ leaf_rep p' entries /\ same_frame 40 p p'
  else write_leaf_entries p entries = Err (Corrupted "leaf rebuild overflowed page").
Proof.
  intros Hl Hb Hok. change (PAGE_SIZE - LEAF_DATA_OFFSET) with 16344.
  destruct (clear_leaf_cells_area p Hl Hb) as ([Ha _] & He & Hf).
  pose proof (write_leaf_entries_from_spec entries (clear_leaf_cells p) [] Ha Hok) as H.
  unfold write_leaf_entries. change (zlen (@nil entry)) with 0 in H. rewrite He in H.
  repeat case_decide; try lia.
  - destruct H as (p' & E & Ha' & Hf'). rewrite E. cbn [mbind result_bind app] in *.
    pose proof (area_room _ _ _ Ha') as Hroom. rewrite zlen_fmap in Hroom.
    pose proof (zlen_nonneg entries).
    rewrite !as_u16_id by (change LEAF_SLOT_ARRAY_OFFSET with 40; unfold u16_ok; lia).
    change LEAF_SLOT_ARRAY_OFFSET with 40. rewrite (Z.mul_comm _ 2).
    eexists. split; [reflexivity|]. split; [by apply leaf_counts_rep|].
    etrans; [exact Hf|]. etrans; [exact Hf'|]. apply same_frame_counts.
  - by rewrite H.
Qed.
