(* ===== verification/Interior.v ===== *)
(** * Interior pages of the B+ tree ([crates/reddb-engine/src/storage/btree.rs])

    Reading, descending, inserting a separator and rebuilding an interior page.
    The page holds pairs of a key and the child left of it; the rightmost child
    is in the page header. *)

From S2P Require Import Prelude FileFormat Page Slots Leaf.
From Stdlib Require Import ZArith Lia.

Definition INTERIOR_DATA_OFFSET : Z := HEADER_SIZE.

Abbreviation sep := (bytes * Z)%type.

Definition interior_min_bytes : Z := (PAGE_SIZE - INTERIOR_DATA_OFFSET) * MIN_FILL_FACTOR / 100.

Definition interior_key_size (key : bytes) : Z := 2 + zlen key + 4.

Definition interior_entries_size (keys : list bytes) : Z :=
  foldr Z.add 0 (interior_key_size <$> keys).

Definition interior_slot_offset_for (index : Z) : Z := INTERIOR_DATA_OFFSET + index * 2.

Definition interior_read_slot (page : bytes) (index : Z) : BTreeResult Z :=
  let slot_pos := interior_slot_offset_for index in
  if PAGE_SIZE <? slot_pos + 2 then Err (Corrupted "interior slot array overflows page")
  else get_u16 page slot_pos.

Definition interior_write_slot (page : bytes) (index cell_offset : Z) : BTreeResult bytes :=
  let slot_pos := interior_slot_offset_for index in
  if PAGE_SIZE <? slot_pos + 2 then Err (Corrupted "interior slot array overflows page")
  else put_slice page slot_pos (le_bytes 2 cell_offset).

Definition interior_cells_start (page : bytes) : Z :=
  if free_end page =? 0 then PAGE_SIZE else free_end page.

Definition interior_free_bytes (page : bytes) : Z :=
  sat_sub (interior_cells_start page) (INTERIOR_DATA_OFFSET + cell_count page * 2).

Definition read_interior_cell (page : bytes) (index : Z) : BTreeResult sep :=
  if cell_count page <=? index then Err (Corrupted "Cell index out of range")
  else
    offset ← interior_read_slot page index;
    if PAGE_SIZE <? offset + 2 then Err (Corrupted "interior cell header out of range")
    else
      key_len ← get_u16 page offset;
      let end_ := offset + 2 + key_len + 4 in
      if PAGE_SIZE <? end_ then Err (Corrupted "interior cell body out of range")
      else
        child ← get_u32 page (offset + 2 + key_len);
        Ok (slice page (offset + 2) key_len, child).

(** The loop of [find_child]: [n] cells from index [i] on *)
Fixpoint find_child_from (page key : bytes) (i : Z) (n : nat) : BTreeResult Z :=
  match n with
  | O => Ok (right_child page)
  | S n =>
      '(cell_key, child) ← read_interior_cell page i;
      if bool_decide (blt key cell_key) then Ok child else find_child_from page key (i + 1) n
  end.

Definition find_child (page key : bytes) : BTreeResult Z :=
  find_child_from page key 0 (Z.to_nat (cell_count page)).

Definition find_first_child (page : bytes) : BTreeResult Z :=
  if cell_count page =? 0 then Ok (right_child page)
  else '(_, child) ← read_interior_cell page 0; Ok child.

Definition read_interior_keys_children (page : bytes) : BTreeResult (list bytes * list Z) :=
  let count := cell_count page in
  cells ← collect (read_interior_cell page) 0 (Z.to_nat count);
  let keys := cells.*1 in
  let children := cells.*2 in
  Ok (keys, if count =? 0
            then if negb (right_child page =? 0) then children ++ [right_child page] else children
            else children ++ [right_child page]).

Definition clear_interior_cells (page : bytes) : bytes :=
  let page := clear_from page INTERIOR_DATA_OFFSET in
  let page := set_cell_count page 0 in
  let page := set_free_start page INTERIOR_DATA_OFFSET in
  set_free_end page PAGE_SIZE.

(** The three writes of one cell *)
Definition write_interior_cell (page : bytes) (cell_offset : Z) (key : bytes) (child : Z)
    : BTreeResult bytes :=
  page ← put_slice page cell_offset (le_bytes 2 (as_u16 (zlen key)));
  page ← put_slice page (cell_offset + 2) key;
  put_slice page (cell_offset + 2 + zlen key) (le_bytes 4 child).

(** The loop of [write_interior_entries]; [children[i]] out of range panics. *)
Fixpoint write_interior_entries_from (page : bytes) (i : Z) (keys : list bytes)
    (children : list Z) : BTreeResult bytes :=
  match keys with
  | [] => Ok page
  | key :: keys =>
      let cell_size := 2 + zlen key + 4 in
      let cells_start := interior_cells_start page in
      let slot_end := INTERIOR_DATA_OFFSET + (i + 1) * 2 in
      if cells_start <? slot_end + cell_size
      then Err (Corrupted "interior rebuild overflowed page")
      else
        let cell_offset := cells_start - cell_size in
        match zget children i with
        | None => Panic
        | Some child =>
            page ← write_interior_cell page cell_offset key child;
            let page := set_free_end page (as_u16 cell_offset) in
            page ← interior_write_slot page i (as_u16 cell_offset);
            write_interior_entries_from page (i + 1) keys children
        end
  end.

Definition write_interior_entries (page : bytes) (keys : list bytes) (children : list Z)
    : BTreeResult bytes :=
  if negb (bool_decide (keys = [])) && negb (zlen children =? zlen keys + 1)
  then Err (Corrupted "Interior keys/children length mismatch")
  else
    let page := clear_interior_cells page in
    if bool_decide (keys = [])
    then Ok (set_right_child page (default 0 (head children)))
    else
      page ← write_interior_entries_from page 0 keys children;
      let page := set_cell_count page (as_u16 (zlen keys)) in
      let page := set_free_start page (as_u16 (INTERIOR_DATA_OFFSET + zlen keys * 2)) in
      right ← ok_or (last children)
                (Corrupted "write_interior_entries: children empty with non-empty keys");
      Ok (set_right_child page right).

Definition can_insert_interior (page key : bytes) : bool :=
  let needed := 2 + 2 + zlen key + 4 in
  needed <=? interior_free_bytes page.

Definition insert_interior_body (page key : bytes) (mid : Z) : BTreeResult (probe Z) :=
  '(cell_key, _) ← read_interior_cell page mid;
  Ok match bytes_cmp cell_key key with Lt => GoRight | Gt => GoLeft | Eq => GoLeft end.

Definition insert_into_interior (page key : bytes) (left_child right_child_ : Z)
    : BTreeResult bytes :=
  let count := cell_count page in
  r ← bsearch (Z.to_nat count) (insert_interior_body page key) 0 count;
  let insert_pos := match r with inl low => low | inr low => low end in
  page ← (if insert_pos <? count then
            old_offset ← interior_read_slot page insert_pos;
            key_len ← get_u16 page old_offset;
            let child_pos := old_offset + 2 + key_len in
            put_slice page child_pos (le_bytes 4 right_child_)
          else Ok (set_right_child page right_child_));
  let cell_size := 2 + zlen key + 4 in
  let slot_end_after := INTERIOR_DATA_OFFSET + (count + 1) * 2 in
  let cells_start := interior_cells_start page in
  if cells_start <? slot_end_after + cell_size then Err (Corrupted "interior page full")
  else
    let cell_offset := cells_start - cell_size in
    page ← write_interior_cell page cell_offset key left_child;
    let page := set_free_end page (as_u16 cell_offset) in
    let shift_from := interior_slot_offset_for insert_pos in
    let shift_to := shift_from + 2 in
    let shift_len := (count - insert_pos) * 2 in
    page ← (if 0 <? shift_len then copy_within page shift_from shift_len shift_to else Ok page);
    page ← interior_write_slot page insert_pos (as_u16 cell_offset);
    let page := set_cell_count page (as_u16 (count + 1)) in
    Ok (set_free_start page (as_u16 (INTERIOR_DATA_OFFSET + (count + 1) * 2))).

(** * Theorems *)

(** The bytes of one separator *)
Definition interior_cell (s : sep) : bytes := le_bytes 2 (zlen s.1) ++ s.1 ++ le_bytes 4 s.2.

(** The page holds the separators [seps] and the rightmost child [right]. *)
Definition interior_rep (page : bytes) (seps : list sep) (right : Z) : Prop :=
  area 32 page (interior_cell <$> seps) /\ cell_count page = zlen seps /\
  right_child page = right /\ Forall (fun s => u32_ok s.2) seps.

Lemma zlen_interior_cell s : zlen (interior_cell s) = 6 + zlen s.1.
Proof. unfold interior_cell. zlia. Qed.

#[export] Hint Rewrite zlen_interior_cell : zlen.

Lemma interior_cell_bytes_ok s : Forall byte_ok s.1 -> Forall byte_ok (interior_cell s).
Proof. intros. unfold interior_cell. rewrite !Forall_app. auto using le_bytes_ok. Qed.

Lemma interior_rep_len p seps r : interior_rep p seps r -> zlen p = 16384.
Proof. intros [Ha _]. apply Ha. Qed.

Lemma interior_rep_room p seps r :
  interior_rep p seps r -> 32 + 2 * zlen seps <= free_end p <= 16384.
Proof. intros [Ha _]. pose proof (area_room _ _ _ Ha) as H. by rewrite zlen_fmap in H. Qed.

Lemma interior_cells_start_area p cells :
  area 32 p cells -> interior_cells_start p = free_end p.
Proof.
  intros Ha. pose proof (area_room _ _ _ Ha). pose proof (zlen_nonneg cells).
  unfold interior_cells_start. by rewrite (proj2 (Z.eqb_neq _ _)) by lia.
Qed.

Lemma interior_area_cell p seps i s :
  area 32 p (interior_cell <$> seps) -> seps !! i = Some s ->
  let o := u16_at p (32 + 2 * Z.of_nat i) in
  free_end p <= o /\ o + 6 + zlen s.1 <= 16384 /\ slice p o (6 + zlen s.1) = interior_cell s.
Proof.
  intros Ha Hi o.
  destruct (area_cell _ _ _ Ha i (interior_cell s)) as (C1 & C2 & C3).
  { by rewrite list_lookup_fmap, Hi. }
  rewrite zlen_interior_cell in C2, C3. fold o in C1, C2, C3. split_and!; [done|lia|done].
Qed.

Lemma interior_read_slot_ok p i :
  zlen p = 16384 -> 0 <= i -> 34 + 2 * i <= 16384 ->
  interior_read_slot p i = Ok (u16_at p (32 + 2 * i)).
Proof.
  intros Hl Hi Hr. unfold interior_read_slot, interior_slot_offset_for.
  change INTERIOR_DATA_OFFSET with 32. change PAGE_SIZE with 16384.
  rewrite (proj2 (Z.ltb_ge _ _)) by lia. rewrite get_u16_ok by lia. do 2 f_equal. lia.
Qed.

Lemma interior_write_slot_ok p i o :
  zlen p = 16384 -> 0 <= i -> 34 + 2 * i <= 16384 ->
  interior_write_slot p i o = Ok (splice p (32 + 2 * i) (le_bytes 2 o)).
Proof.
  intros Hl Hi Hr. unfold interior_write_slot, interior_slot_offset_for.
  change INTERIOR_DATA_OFFSET with 32. change PAGE_SIZE with 16384.
  rewrite (proj2 (Z.ltb_ge _ _)) by lia. rewrite put_slice_ok by zlia. do 2 f_equal. lia.
Qed.

Lemma interior_cell_read p o s :
  zlen p = 16384 -> 0 <= o -> o + 6 + zlen s.1 <= 16384 -> u32_ok s.2 ->
  slice p o (6 + zlen s.1) = interior_cell s ->
  u16_at p o = zlen s.1 /\ slice p (o + 2) (zlen s.1) = s.1 /\ u32_at p (o + 2 + zlen s.1) = s.2.
Proof.
  intros Hl Ho Hr Hs2 Hs. pose proof (zlen_nonneg s.1).
  assert (Hp : forall a n, 0 <= a -> 0 <= n -> a + n <= 6 + zlen s.1 ->
    slice p (o + a) n = slice (interior_cell s) a n).
  { intros. rewrite <-Hs. by rewrite slice_slice by lia. }
  split_and!.
  - unfold u16_at. rewrite <-(Z.add_0_r o), Hp by lia.
    apply (le_val_u16 (zlen s.1)). unfold u16_ok. lia.
  - rewrite Hp by lia. unfold interior_cell. rewrite slice_app_r by zlia. autorewrite with zlen.
    rewrite slice_app_l by lia. by apply slice_all.
  - unfold u32_at. rewrite <-Z.add_assoc, Hp by lia. unfold interior_cell.
    rewrite !slice_app_r by zlia. autorewrite with zlen.
    replace (2 + zlen s.1 - Z.of_nat 2 - zlen s.1) with 0 by lia.
    rewrite slice_all by zlia. by apply le_val_u32.
Qed.

Lemma interior_rep_read p seps r i s :
  interior_rep p seps r -> seps !! i = Some s -> read_interior_cell p (Z.of_nat i) = Ok s.
Proof.
  intros Hr Hi. pose proof (interior_rep_len _ _ _ Hr) as Hl.
  pose proof (interior_rep_room _ _ _ Hr). destruct Hr as (Ha & Hc & _ & Hch).
  assert (Hlt : Z.of_nat i < zlen seps) by (apply lookup_lt_Some in Hi; unfold zlen; lia).
  destruct (interior_area_cell p seps i s Ha Hi) as (C1 & C2 & C3).
  pose proof (zlen_nonneg s.1). rewrite Forall_lookup in Hch. specialize (Hch i s Hi). cbn in Hch.
  destruct (interior_cell_read p (u16_at p (32 + 2 * Z.of_nat i)) s Hl ltac:(lia) C2 Hch C3)
    as (F1 & F2 & F3).
  unfold read_interior_cell. rewrite Hc. rewrite (proj2 (Z.leb_gt _ _)) by lia.
  rewrite interior_read_slot_ok by lia. cbn [mbind result_bind]. change PAGE_SIZE with 16384.
  rewrite (proj2 (Z.ltb_ge _ _)) by lia. rewrite get_u16_ok by lia. cbn [mbind result_bind].
  rewrite F1. rewrite (proj2 (Z.ltb_ge _ _)) by lia. rewrite get_u32_ok by lia.
  cbn [mbind result_bind]. rewrite F2, F3. by destruct s.
Qed.

(** ** Descending *)

(** The child a key belongs to: that of the first separator above the key *)
Fixpoint child_for (seps : list sep) (right : Z) (key : bytes) : Z :=
  match seps with
  | [] => right
  | (k, c) :: seps => if bool_decide (blt key k) then c else child_for seps right key
  end.

Lemma find_child_from_spec p seps r key done_ :
  interior_rep p (done_ ++ seps) r ->
  find_child_from p key (zlen done_) (length seps) = Ok (child_for seps r key).
Proof.
  revert done_. induction seps as [|[k c] seps IH]; intros dn Hr; cbn [length find_child_from child_for].
  - by rewrite (proj1 (proj2 (proj2 Hr))).
  - pose proof (interior_rep_read _ _ _ (length dn) (k, c) Hr (list_lookup_middle _ _ _ _ eq_refl)) as E.
    change (Z.of_nat (length dn)) with (zlen dn) in E. rewrite E.
    cbn [mbind result_bind]. case_bool_decide; [done|].
    specialize (IH (dn ++ [(k, c)])). rewrite <-app_assoc in IH.
    rewrite zlen_app in IH. by apply IH.
Qed.

(** The descent takes the child of the first separator above the key, the
    rightmost child if there is none. *)
Theorem find_child_spec p seps r key :
  interior_rep p seps r -> find_child p key = Ok (child_for seps r key).
Proof.
  intros Hr. unfold find_child. pose proof (find_child_from_spec p seps r key [] Hr) as H.
  rewrite (proj1 (proj2 Hr)). unfold zlen in *. by rewrite Nat2Z.id.
Qed.

Lemma find_first_child_spec p seps r :
  interior_rep p seps r -> find_first_child p = Ok (default r (head seps.*2)).
Proof.
  intros Hr. unfold find_first_child. rewrite (proj1 (proj2 Hr)).
  destruct seps as [|[k c] seps]; cbn [zlen length].
  - cbn. by rewrite (proj1 (proj2 (proj2 Hr))).
  - rewrite (proj2 (Z.eqb_neq _ _)) by (unfold zlen; cbn; lia).
    pose proof (interior_rep_read _ _ _ 0%nat (k, c) Hr eq_refl) as E.
    change (Z.of_nat 0) with 0 in E. by rewrite E.
Qed.

Lemma read_interior_keys_children_spec p seps r :
  interior_rep p seps r -> seps <> [] \/ r <> 0 ->
  read_interior_keys_children p = Ok (seps.*1, seps.*2 ++ [r]).
Proof.
  intros Hr Hne. unfold read_interior_keys_children.
  rewrite (collect_ok _ seps).
  - cbn [mbind result_bind]. rewrite (proj1 (proj2 Hr)), (proj1 (proj2 (proj2 Hr))).
    destruct (Z.eqb_spec (zlen seps) 0) as [E|]; [|done].
    destruct seps; [|unfold zlen in E; cbn in E; lia].
    destruct Hne as [?|Hne]; [done|]. by rewrite (proj2 (Z.eqb_neq _ _)).
  - rewrite (proj1 (proj2 Hr)). unfold zlen. lia.
  - intros j s Hj. rewrite Z.add_0_l. by apply (interior_rep_read p seps r).
Qed.

(** ** Inserting a separator *)

(** The page type, the page number, the parent and the log position are kept. *)
Definition same_identity (p q : bytes) : Prop :=
  zlen q = zlen p /\
  forall o n, 0 <= o -> 0 <= n -> o + n <= 2 \/ (8 <= o /\ o + n <= 16) \/ (20 <= o /\ o + n <= 32) ->
    slice q o n = slice p o n.

#[export] Instance same_identity_preorder : PreOrder same_identity.
Proof.
  split.
  - intros p. by split.
  - intros p q r [L1 F1] [L2 F2]. split; [lia|]. intros. by rewrite F2, F1.
Qed.

Lemma same_frame_identity p q : same_frame 32 p q -> same_identity p q.
Proof. intros [L F]. split; [done|]. intros. apply F; lia. Qed.

Lemma same_identity_right p r : same_identity p (set_right_child p r).
Proof.
  unfold set_right_child, set_paged_page_right_child, put_u32.
  split; [by rewrite zlen_splice|]. intros. apply slice_splice_ne; zlia.
Qed.

Lemma same_frame_right p q : same_frame 32 p q -> right_child q = right_child p.
Proof.
  intros [_ F]. unfold right_child, paged_page_right_child, u32_at. by rewrite F by lia.
Qed.

Lemma write_interior_cell_ok p o k c :
  0 <= o -> o + 6 + zlen k <= zlen p -> zlen k < 65536 ->
  write_interior_cell p o k c = Ok (splice p o (interior_cell (k, c))).
Proof.
  intros Ho Hr Hk. pose proof (zlen_nonneg k).
  unfold write_interior_cell. rewrite as_u16_id by (unfold u16_ok; lia).
  rewrite put_slice_ok by zlia. cbn [mbind result_bind].
  rewrite put_slice_ok by zlia. cbn [mbind result_bind]. rewrite put_slice_ok by zlia.
  f_equal. unfold interior_cell; cbn [fst snd]. by rewrite !splice_splice_app by zlia.
Qed.

Definition interior_counts (page : bytes) (n : Z) : bytes :=
  set_free_start (set_cell_count page n) (32 + 2 * n).

Lemma interior_counts_area p cells n :
  area 32 p cells -> u16_ok n ->
  area 32 (interior_counts p n) cells /\ cell_count (interior_counts p n) = n /\
  same_frame 32 p (interior_counts p n) /\ free_end (interior_counts p n) = free_end p.
Proof.
  intros Ha Hn. pose proof (area_len _ _ _ Ha).
  unfold interior_counts, set_free_start, set_paged_page_free_start, set_cell_count,
    set_paged_page_cell_count, put_u16. split_and!.
  - do 2 (apply area_splice_frame; [lia| |apply le_bytes_ok|lia|zlia]). done.
  - unfold cell_count, paged_page_cell_count.
    rewrite u16_at_splice_ne by zlia. apply u16_at_put; [lia|lia|done].
  - repeat (etrans; [|apply same_frame_splice; zlia]). done.
  - unfold free_end, paged_page_free_end. by rewrite !u16_at_splice_ne by zlia.
Qed.

Section insert.
Context (p : bytes) (seps : list sep) (k : bytes) (l : Z) (c : nat).
Context (Ha : area 32 p (interior_cell <$> seps)) (Hc : (c <= length seps)%nat).
Context (Hfit : 32 + 2 * (zlen seps + 1) + (6 + zlen k) <= free_end p).

(** The part of [insert_into_interior] after the redirection of the old child *)
Lemma interior_insert_at :
  (let n := zlen seps in let insert_pos := Z.of_nat c in
   let cell_offset := free_end p - (2 + zlen k + 4) in
   page ← write_interior_cell p cell_offset k l;
   let page := set_free_end page (as_u16 cell_offset) in
   page ← (if 0 <? (n - insert_pos) * 2
           then copy_within page (interior_slot_offset_for insert_pos) ((n - insert_pos) * 2)
                  (interior_slot_offset_for insert_pos + 2)
           else Ok page);
   page ← interior_write_slot page insert_pos (as_u16 cell_offset);
   let page := set_cell_count page (as_u16 (n + 1)) in
   Ok (set_free_start page (as_u16 (INTERIOR_DATA_OFFSET + (n + 1) * 2)))) =
  Ok (interior_counts (inserted 32 p (interior_cell (k, l)) (zlen seps) (Z.of_nat c)) (zlen seps + 1)).
Proof.
  pose proof (area_len _ _ _ Ha) as Hl. pose proof (area_room _ _ _ Ha) as Hroom.
  rewrite zlen_fmap in Hroom. pose proof (zlen_nonneg k).
  assert (Hcn : Z.of_nat c <= zlen seps) by (unfold zlen; lia).
  cbv zeta. replace (2 + zlen k + 4) with (6 + zlen k) by lia.
  rewrite write_interior_cell_ok by lia. cbn [mbind result_bind].
  rewrite !as_u16_id by (change INTERIOR_DATA_OFFSET with 32; unfold u16_ok; lia).
  unfold inserted. rewrite zlen_interior_cell. cbn [fst snd].
  set (off := free_end p - (6 + zlen k)). set (q := set_free_end _ _).
  assert (Hq : zlen q = 16384)
    by (unfold q, set_free_end, set_paged_page_free_end, put_u16; by rewrite !zlen_splice).
  assert (E : (if 0 <? (zlen seps - Z.of_nat c) * 2
     then copy_within q (interior_slot_offset_for (Z.of_nat c)) ((zlen seps - Z.of_nat c) * 2)
            (interior_slot_offset_for (Z.of_nat c) + 2)
     else Ok q) = Ok (splice q (32 + 2 * Z.of_nat c + 2)
       (slice q (32 + 2 * Z.of_nat c) (2 * (zlen seps - Z.of_nat c)))) :> BTreeResult bytes).
  { unfold interior_slot_offset_for. change INTERIOR_DATA_OFFSET with 32.
    rewrite !(Z.mul_comm _ 2). destruct (Z.ltb_spec 0 (2 * (zlen seps - Z.of_nat c))).
    - by rewrite copy_within_ok by lia.
    - replace (2 * (zlen seps - Z.of_nat c)) with 0 by lia. rewrite slice_0, splice_id; [done|lia|zlia|].
      by rewrite slice_0. }
  rewrite E. cbn [mbind result_bind]. rewrite interior_write_slot_ok by (rewrite ?zlen_splice; lia).
  cbn [mbind result_bind]. unfold interior_counts. change INTERIOR_DATA_OFFSET with 32.
  by replace ((zlen seps + 1) * 2) with (2 * (zlen seps + 1)) by lia.
Qed.

Lemma interior_inserted_rep :
  Forall byte_ok k -> Forall (fun s => u32_ok s.2) seps -> u32_ok l ->
  let q := interior_counts (inserted 32 p (interior_cell (k, l)) (zlen seps) (Z.of_nat c)) (zlen seps + 1) in
  interior_rep q (take c seps ++ (k, l) :: drop c seps) (right_child p) /\ same_frame 32 p q /\
  free_end q = free_end p - (6 + zlen k).
Proof.
  intros Hk Hch Hl q. pose proof (area_room _ _ _ Ha) as Hroom. rewrite zlen_fmap in Hroom.
  pose proof (zlen_nonneg seps). pose proof (zlen_nonneg k).
  assert (Hai : area 32 (inserted 32 p (interior_cell (k, l)) (zlen seps) (Z.of_nat c))
    (interior_cell <$> take c seps ++ (k, l) :: drop c seps)).
  { rewrite fmap_app, fmap_cons, fmap_take, fmap_drop, <-(zlen_fmap interior_cell seps).
    apply area_inserted; [lia|done|by apply interior_cell_bytes_ok|by rewrite length_fmap|].
    rewrite zlen_fmap, zlen_interior_cell. cbn [fst snd]. lia. }
  destruct (interior_counts_area _ _ (zlen seps + 1) Hai) as (A1 & A2 & A3 & A4); [unfold u16_ok; lia|].
  fold q in A1, A2, A3, A4.
  assert (Hf : same_frame 32 p q).
  { etrans; [|exact A3]. apply same_frame_inserted; rewrite ?zlen_interior_cell; cbn [fst snd]; lia. }
  assert (He : free_end q = free_end p - (6 + zlen k)).
  { rewrite A4. pose proof (inserted_free_end 32 p (interior_cell (k, l)) (interior_cell <$> seps) c
      ltac:(lia) Ha ltac:(rewrite length_fmap; lia)) as E.
    rewrite zlen_fmap, zlen_interior_cell in E. cbn [fst snd] in E. apply E. lia. }
  split; [|done]. split_and!.
  - done.
  - rewrite A2. unfold zlen. rewrite length_app. cbn [length]. rewrite length_take, length_drop. lia.
  - by apply same_frame_right.
  - rewrite Forall_app, Forall_cons. auto using Forall_take, Forall_drop.
Qed.
End insert.

(** The separators and the rightmost child once [key] with its left child [l] is
    put at [c] and the child right of it becomes [r] *)
Definition insert_sep (c : nat) (key : bytes) (l r : Z) (seps : list sep) (right : Z)
    : list sep * Z :=
  match drop c seps with
  | [] => (take c seps ++ [(key, l)], r)
  | (k, _) :: rest => (take c seps ++ (key, l) :: (k, r) :: rest, right)
  end.

Lemma redirect_cell p seps c k ch r :
  area 32 p (interior_cell <$> seps) -> seps !! c = Some (k, ch) -> u32_ok ch ->
  let o := u16_at p (32 + 2 * Z.of_nat c) in
  (old_offset ← interior_read_slot p (Z.of_nat c);
   key_len ← get_u16 p old_offset;
   put_slice p (old_offset + 2 + key_len) (le_bytes 4 r)) =
    Ok (splice p (o + 2 + zlen k) (le_bytes 4 r)) :> BTreeResult bytes /\
  area 32 (splice p (o + 2 + zlen k) (le_bytes 4 r)) (interior_cell <$> <[c := (k, r)]> seps) /\
  same_frame 32 p (splice p (o + 2 + zlen k) (le_bytes 4 r)).
Proof.
  intros Ha Hc Hch o. pose proof (area_len _ _ _ Ha) as Hl. pose proof (area_room _ _ _ Ha) as Hr.
  rewrite zlen_fmap in Hr. pose proof (area_bytes _ _ _ Ha).
  assert (Hlt : Z.of_nat c < zlen seps) by (apply lookup_lt_Some in Hc; unfold zlen; lia).
  destruct (interior_area_cell p seps c (k, ch) Ha Hc) as (C1 & C2 & C3). fold o in C1, C2, C3.
  cbn [fst snd] in *. pose proof (zlen_nonneg k).
  destruct (interior_cell_read p o (k, ch) Hl ltac:(lia) C2 Hch C3) as (F1 & F2 & _).
  cbn [fst snd] in *. split_and!.
  - rewrite interior_read_slot_ok by lia. fold o. cbn [mbind result_bind].
    rewrite get_u16_ok by lia. cbn [mbind result_bind]. rewrite F1. by rewrite put_slice_ok by zlia.
  - rewrite list_fmap_insert.
    apply (area_overwrite 32 p _ _ c (interior_cell (k, ch))); fold o;
      rewrite ?zlen_splice, ?zlen_interior_cell; cbn [fst snd]; try done; try lia.
    + by rewrite list_lookup_fmap, Hc.
    + auto using Forall_splice, le_bytes_ok.
    + replace (6 + zlen k) with (2 + zlen k + 4) by lia.
      rewrite <-(slice_join _ o (2 + zlen k) (o + 2 + zlen k) 4) by lia.
      rewrite slice_splice_ne, slice_splice_eq by zlia.
      assert (E : slice p o (2 + zlen k) = slice (interior_cell (k, ch)) 0 (2 + zlen k)).
      { rewrite <-C3. rewrite slice_slice by lia. by rewrite Z.add_0_r. }
      rewrite E. unfold interior_cell; cbn [fst snd].
      rewrite (app_assoc _ k), (app_assoc _ k), slice_app_l by zlia. rewrite slice_all by zlia. done.
    + intros. rewrite slice_splice_ne by zlia. done.
  - apply same_frame_splice; lia.
Qed.

Lemma insert_interior_search p seps right key :
  interior_rep p seps right -> StronglySorted blt seps.*1 -> key ∉ seps.*1 ->
  exists c, bsearch (Z.to_nat (cell_count p)) (insert_interior_body p key) 0 (cell_count p) =
              Ok (inr (Z.of_nat c)) /\ insertion_point seps.*1 key c.
Proof.
  intros Hr Hs Hni. rewrite (proj1 (proj2 Hr)), <-(zlen_fmap fst). pose proof (zlen_nonneg seps.*1).
  destruct (bsearch_keys id seps.*1 key Hs (insert_interior_body p key)
    (Z.to_nat (zlen seps.*1))) as [(i & _ & Hi)|?]; [lia| | |done].
  - intros i Hi. rewrite zlen_fmap in Hi. unfold insert_interior_body, key_probe.
    rewrite list_lookup_fmap.
    destruct (lookup_lt_is_Some_2 seps (Z.to_nat i)) as [[k ch] E]; [unfold zlen in *; lia|].
    replace i with (Z.of_nat (Z.to_nat i)) at 1 by lia.
    rewrite (interior_rep_read _ _ _ _ _ Hr E), E. cbn.
    destruct (bytes_cmp k key) eqn:Ec; [|done|done].
    apply bytes_cmp_eq in Ec as ->. exfalso. apply Hni.
    apply list_elem_of_lookup_2 with (Z.to_nat i). by rewrite list_lookup_fmap, E.
  - exfalso. apply Hni. by apply list_elem_of_lookup_2 in Hi.
Qed.

Lemma can_insert_interior_spec p seps r key :
  interior_rep p seps r ->
  can_insert_interior p key = true <-> 32 + 2 * (zlen seps + 1) + (6 + zlen key) <= free_end p.
Proof.
  intros Hr. unfold can_insert_interior, interior_free_bytes, sat_sub.
  rewrite (interior_cells_start_area _ _ (proj1 Hr)), (proj1 (proj2 Hr)).
  pose proof (interior_rep_room _ _ _ Hr). pose proof (zlen_nonneg key).
  change INTERIOR_DATA_OFFSET with 32. rewrite Z.leb_le. lia.
Qed.

Lemma same_frame_count p q : slice q 2 2 = slice p 2 2 -> cell_count q = cell_count p.
Proof. intros E. unfold cell_count, paged_page_cell_count, u16_at. by rewrite E. Qed.

Lemma same_free_end p q : slice q 6 2 = slice p 6 2 -> free_end q = free_end p.
Proof. intros E. unfold free_end, paged_page_free_end, u16_at. by rewrite E. Qed.

(** The redirection of the child that used to cover the new key *)
Lemma redirect_spec p seps right c r :
  interior_rep p seps right -> (c <= length seps)%nat -> u32_ok r ->
  exists p1 seps1 right1,
    (if Z.of_nat c <? zlen seps then
       old_offset ← interior_read_slot p (Z.of_nat c);
       key_len ← get_u16 p old_offset;
       put_slice p (old_offset + 2 + key_len) (le_bytes 4 r)
     else Ok (set_right_child p r)) = Ok p1 :> BTreeResult bytes /\
    interior_rep p1 seps1 right1 /\ free_end p1 = free_end p /\ same_identity p p1 /\
    zlen seps1 = zlen seps /\
    (forall key l, insert_sep c key l r seps right =
       (take c seps1 ++ (key, l) :: drop c seps1, right1)).
Proof.
  intros Hr Hc Hr32. pose proof (interior_rep_len _ _ _ Hr) as Hl.
  pose proof (interior_rep_room _ _ _ Hr) as Hroom.
  destruct Hr as (Ha & Hcnt & Hrt & Hch).
  destruct (Z.ltb_spec (Z.of_nat c) (zlen seps)) as [Hlt|Hge].
  - destruct (lookup_lt_is_Some_2 seps c) as [[k ch] Hk]; [unfold zlen in *; lia|].
    assert (Hch1 : u32_ok ch) by (rewrite Forall_lookup in Hch; apply (Hch c (k, ch) Hk)).
    destruct (redirect_cell p seps c k ch r Ha Hk Hch1) as (E1 & Ha1 & Hf1). cbv zeta in *.
    destruct (interior_area_cell p seps c (k, ch) Ha Hk) as (C1 & _). cbv zeta in C1.
    pose proof (zlen_nonneg k). set (p1 := splice p _ _) in *.
    assert (Hlow : forall o, 0 <= o -> o + 2 <= 32 -> slice p1 o 2 = slice p o 2)
      by (intros; unfold p1; apply slice_splice_ne; lia).
    exists p1, (<[c := (k, r)]> seps), right. split; [done|]. split_and!.
    + split_and!; [done| | |].
      * rewrite (same_frame_count p p1) by (by apply Hlow). unfold zlen. by rewrite length_insert.
      * by rewrite (same_frame_right _ _ Hf1).
      * apply Forall_insert; done.
    + apply same_free_end. by apply Hlow.
    + by apply same_frame_identity.
    + unfold zlen. by rewrite length_insert.
    + intros key l. unfold insert_sep. rewrite take_insert_ge by lia.
      rewrite (drop_S _ _ _ Hk), (drop_S (<[c := (k, r)]> seps) (k, r) c)
        by (apply list_lookup_insert_eq; unfold zlen in *; lia).
      by rewrite drop_insert_lt by lia.
  - assert (c = length seps) as -> by (unfold zlen in *; lia).
    exists (set_right_child p r), seps, r. split; [done|].
    unfold set_right_child, set_paged_page_right_child, put_u32. split_and!.
    + split_and!; [|by rewrite (same_frame_count p) by (apply slice_splice_ne; zlia)| |done].
      * apply area_splice_frame; [lia|done|apply le_bytes_ok|lia|zlia].
      * unfold right_child, paged_page_right_child. apply u32_at_put; [lia|lia|done].
    + apply same_free_end. apply slice_splice_ne; zlia.
    + apply same_identity_right.
    + done.
    + intros key l. unfold insert_sep. by rewrite skipn_all.
Qed.

(** Inserting a separator into an interior page in key order: when it fits, the
    separator goes to its place with the left child, the child that was there
    becomes the right child, and nothing else of the node changes; when it does
    not fit the page reports that it is full. *)
Theorem insert_into_interior_spec p seps right key l r :
  interior_rep p seps right -> StronglySorted blt seps.*1 -> key ∉ seps.*1 ->
  Forall byte_ok key -> u32_ok l -> u32_ok r ->
  if can_insert_interior p key then
    exists p' c, insert_into_interior p key l r = Ok p' /\ insertion_point seps.*1 key c /\
      (let '(seps', right') := insert_sep c key l r seps right in interior_rep p' seps' right') /\
      same_identity p p' /\ free_end p' = free_end p - (6 + zlen key)
  else insert_into_interior p key l r = Err (Corrupted "interior page full").
Proof.
  intros Hr Hs Hni Hk Hl Hr32.
  destruct (insert_interior_search p seps right key Hr Hs Hni) as (c & Ec & Hc).
  pose proof Hc as (Hcl & _ & _). rewrite length_fmap in Hcl.
  pose proof (can_insert_interior_spec p seps right key Hr) as Hcan.
  destruct (redirect_spec p seps right c r Hr Hcl Hr32)
    as (p1 & seps1 & right1 & E1 & Hr1 & He1 & Hid1 & Hz1 & Hins).
  unfold insert_into_interior. rewrite Ec. cbn [mbind result_bind].
  rewrite (proj1 (proj2 Hr)). rewrite E1. cbn [mbind result_bind].
  rewrite (interior_cells_start_area _ _ (proj1 Hr1)), He1.
  change (INTERIOR_DATA_OFFSET + (zlen seps + 1) * 2) with (32 + (zlen seps + 1) * 2).
  destruct (can_insert_interior p key).
  - pose proof (proj1 Hcan eq_refl) as Hfit. rewrite (proj2 (Z.ltb_ge _ _)) by lia.
    assert (Hfit1 : 32 + 2 * (zlen seps1 + 1) + (6 + zlen key) <= free_end p1) by lia.
    assert (Hcl1 : (c <= length seps1)%nat) by (unfold zlen in *; lia).
    pose proof (interior_insert_at p1 seps1 key l c (proj1 Hr1) Hcl1 Hfit1) as E2. cbv zeta in E2.
    rewrite Hz1, He1 in E2.
    change (32 + (zlen seps + 1) * 2) with (INTERIOR_DATA_OFFSET + (zlen seps + 1) * 2).
    rewrite E2. do 2 eexists. split; [reflexivity|]. split; [done|].
    destruct (interior_inserted_rep p1 seps1 key l c (proj1 Hr1) Hcl1 Hfit1 Hk
      (proj2 (proj2 (proj2 Hr1))) Hl) as (Hrep & Hf & He). rewrite Hz1 in Hrep, Hf, He.
    rewrite Hins. split_and!.
    + by rewrite (proj1 (proj2 (proj2 Hr1))) in Hrep.
    + etrans; [exact Hid1|]. by apply same_frame_identity.
    + by rewrite He, He1.
  - rewrite (proj2 (Z.ltb_lt _ _)); [done|].
    destruct (Z.lt_ge_cases (free_end p) (32 + (zlen seps + 1) * 2 + (2 + zlen key + 4)));
      [done|]. exfalso. assert (false = true) by (apply Hcan; lia). done.
Qed.

(** ** Rebuilding an interior page *)

Lemma clear_interior_cells_area p :
  zlen p = 16384 -> Forall byte_ok p ->
  area 32 (clear_interior_cells p) [] /\ free_end (clear_interior_cells p) = 16384 /\
  cell_count (clear_interior_cells p) = 0 /\ same_frame 32 p (clear_interior_cells p).
Proof.
  intros Hl Hb.
  unfold clear_interior_cells, clear_from, set_free_end, set_paged_page_free_end, set_free_start,
    set_paged_page_free_start, set_cell_count, set_paged_page_cell_count, put_u16.
  change INTERIOR_DATA_OFFSET with 32. change PAGE_SIZE with 16384. rewrite Hl.
  set (q := splice (splice (splice p 32 _) _ _) 4 _).
  assert (Hq : zlen q = 16384) by (unfold q; by rewrite !zlen_splice).
  assert (Hqb : Forall byte_ok q).
  { unfold q. auto 10 using Forall_splice, le_bytes_ok, Forall_zeros. }
  assert (E : free_end (splice q 6 (le_bytes 2 16384)) = 16384).
  { unfold free_end, paged_page_free_end. apply u16_at_put; [lia|lia|unfold u16_ok; lia]. }
  split_and!.
  - apply area_empty; [by rewrite zlen_splice|auto using Forall_splice, le_bytes_ok|done|lia].
  - done.
  - unfold cell_count, paged_page_cell_count. rewrite u16_at_splice_ne by zlia.
    unfold q. rewrite u16_at_splice_ne by zlia.
    rewrite u16_at_put; [done|lia| |unfold u16_ok; lia]. rewrite zlen_splice. lia.
  - etrans; [|apply same_frame_splice; zlia]. unfold q.
    repeat (etrans; [|apply same_frame_splice; zlia]). done.
Qed.

(** The bytes that separators with these keys take, slots included *)
Definition interior_slotted_size (keys : list bytes) : Z :=
  foldr Z.add 0 ((fun k => 2 + interior_key_size k) <$> keys).

Lemma interior_slotted_size_cons k ks :
  interior_slotted_size (k :: ks) = 2 + interior_key_size k + interior_slotted_size ks.
Proof. reflexivity. Qed.

Lemma interior_slotted_size_nonneg ks : 0 <= interior_slotted_size ks.
Proof.
  induction ks as [|k ks IH]; [done|]. rewrite interior_slotted_size_cons.
  unfold interior_key_size. pose proof (zlen_nonneg k). lia.
Qed.

Lemma interior_rebuild_step p cells k ch :
  area 32 p cells -> 32 + 2 * (zlen cells + 1) + (6 + zlen k) <= free_end p ->
  (page ← write_interior_cell p (free_end p - (2 + zlen k + 4)) k ch;
   interior_write_slot (set_free_end page (as_u16 (free_end p - (2 + zlen k + 4)))) (zlen cells)
     (as_u16 (free_end p - (2 + zlen k + 4)))) =
  Ok (inserted 32 p (interior_cell (k, ch)) (zlen cells) (zlen cells)).
Proof.
  intros Ha Hfit. pose proof (area_room _ _ _ Ha). pose proof (area_len _ _ _ Ha).
  pose proof (zlen_nonneg k). pose proof (zlen_nonneg cells).
  replace (2 + zlen k + 4) with (6 + zlen k) by lia.
  rewrite write_interior_cell_ok by lia. cbn [mbind result_bind].
  rewrite !as_u16_id by (unfold u16_ok; lia).
  rewrite inserted_last by lia. rewrite zlen_interior_cell. cbn [fst snd].
  rewrite interior_write_slot_ok; [done| |lia|lia].
  unfold set_free_end, set_paged_page_free_end, put_u16. by rewrite !zlen_splice.
Qed.

Lemma write_interior_entries_from_spec seps rest p done_ :
  area 32 p (interior_cell <$> done_) -> Forall (fun s => Forall byte_ok s.1) seps ->
  if decide (32 + 2 * zlen done_ + interior_slotted_size seps.*1 <= free_end p) then
    exists p', write_interior_entries_from p (zlen done_) seps.*1 ((done_ ++ seps).*2 ++ rest) = Ok p' /\
      area 32 p' (interior_cell <$> done_ ++ seps) /\ same_frame 32 p p' /\
      free_end p' = free_end p - (interior_slotted_size seps.*1 - 2 * zlen seps)
  else write_interior_entries_from p (zlen done_) seps.*1 ((done_ ++ seps).*2 ++ rest)
       = Err (Corrupted "interior rebuild overflowed page").
Proof.
  revert p done_. induction seps as [|[k ch] seps IH]; intros p dn Ha Hok;
    cbn [fmap list_fmap fst snd write_interior_entries_from].
  - pose proof (area_room _ _ _ Ha) as Hr. rewrite zlen_fmap in Hr.
    rewrite decide_True by (unfold interior_slotted_size; cbn; lia).
    exists p. rewrite app_nil_r. split_and!; [done|done|done|]. unfold interior_slotted_size. cbn. unfold zlen. cbn. lia.
  - apply Forall_cons in Hok as [Hk Hok]. cbn [fst snd] in Hk.
    pose proof (area_room _ _ _ Ha) as Hr. rewrite zlen_fmap in Hr. pose proof (zlen_nonneg dn).
    pose proof (zlen_nonneg k). pose proof (interior_slotted_size_nonneg seps.*1).
    rewrite interior_slotted_size_cons. unfold interior_key_size.
    rewrite (interior_cells_start_area _ _ Ha). change INTERIOR_DATA_OFFSET with 32.
    destruct (Z.ltb_spec (free_end p) (32 + (zlen dn + 1) * 2 + (2 + zlen k + 4))) as [Hov|Hfit].
    { case_decide; [lia|done]. }
    assert (Hget : zget ((dn ++ (k, ch) :: seps).*2 ++ rest) (zlen dn) = Some ch).
    { unfold zget. rewrite (proj2 (Z.ltb_ge _ _)) by lia. unfold zlen. rewrite Nat2Z.id.
      rewrite fmap_app, <-app_assoc. rewrite lookup_app_r by (by rewrite length_fmap).
      by rewrite length_fmap, Nat.sub_diag. }
    rewrite Hget.
    pose proof (interior_rebuild_step p (interior_cell <$> dn) k ch Ha) as Hstep.
    rewrite zlen_fmap in Hstep. specialize (Hstep ltac:(lia)).
    set (p1 := inserted 32 p (interior_cell (k, ch)) (zlen dn) (zlen dn)) in *.
    assert (Ha1 : area 32 p1 (interior_cell <$> dn ++ [(k, ch)])).
    { rewrite fmap_app. cbn [fmap list_fmap]. unfold p1. rewrite <-(zlen_fmap interior_cell dn).
      apply area_append; [lia|done|by apply interior_cell_bytes_ok|].
      rewrite zlen_fmap, zlen_interior_cell. cbn [fst snd]. lia. }
    assert (He : free_end p1 = free_end p - (6 + zlen k)).
    { unfold p1. pose proof (inserted_free_end 32 p (interior_cell (k, ch)) (interior_cell <$> dn)
        (length (interior_cell <$> dn)) ltac:(lia) Ha ltac:(lia)) as E.
      rewrite zlen_fmap, zlen_interior_cell, length_fmap in E. cbn [fst snd] in E.
      apply E. lia. }
    specialize (IH p1 (dn ++ [(k, ch)]) Ha1 Hok). rewrite He in IH.
    rewrite zlen_app in IH. change (zlen [(k, ch)]) with 1 in IH. rewrite <-app_assoc in IH.
    apply bind_Ok_inv in Hstep as (w & Ew & Es). rewrite Ew. cbn [mbind result_bind].
    rewrite Es. cbn [mbind result_bind app] in *.
    assert (Hf1 : same_frame 32 p p1).
    { apply same_frame_inserted; rewrite ?zlen_interior_cell; cbn [fst snd]; lia. }
    repeat case_decide; try lia; [|done].
    destruct IH as (p' & E' & Ha' & Hf' & He'). exists p'. split_and!; [done|done|by etrans|].
    rewrite He', zlen_cons. lia.
Qed.

Lemma set_right_child_area q cells right :
  area 32 q cells -> u32_ok right ->
  area 32 (set_right_child q right) cells /\ right_child (set_right_child q right) = right /\
  cell_count (set_right_child q right) = cell_count q /\
  free_end (set_right_child q right) = free_end q.
Proof.
  intros Hq Hr. pose proof (area_len _ _ _ Hq).
  unfold set_right_child, set_paged_page_right_child, put_u32. split_and!.
  - apply area_splice_frame; [lia|done|apply le_bytes_ok|lia|zlia].
  - unfold right_child, paged_page_right_child. apply u32_at_put; [lia|lia|done].
  - apply same_frame_count. apply slice_splice_ne; zlia.
  - apply same_free_end. apply slice_splice_ne; zlia.
Qed.

(** No byte between the cells is unused. *)
Definition interior_packed (page : bytes) (seps : list sep) : Prop :=
  free_end page = 16384 - (interior_slotted_size seps.*1 - 2 * zlen seps).

(** A rebuilt interior page holds exactly the separators and the rightmost
    child it was given; the rebuild fails exactly when they exceed the page. *)
Theorem write_interior_entries_spec p seps right :
  zlen p = 16384 -> Forall byte_ok p -> u32_ok right ->
  Forall (fun s => Forall byte_ok s.1 /\ u32_ok s.2) seps ->
  if decide (interior_slotted_size seps.*1 <= PAGE_SIZE - INTERIOR_DATA_OFFSET) then
    exists p', write_interior_entries p seps.*1 (seps.*2 ++ [right]) = Ok p' /\
      interior_rep p' seps right /\ same_identity p p' /\ interior_packed p' seps
  else write_interior_entries p seps.*1 (seps.*2 ++ [right])
       = Err (Corrupted "interior rebuild overflowed page").
Proof.
  intros Hl Hb Hright Hok. change (PAGE_SIZE - INTERIOR_DATA_OFFSET) with 16352.
  destruct (clear_interior_cells_area p Hl Hb) as (Ha & He & Hc & Hf).
  assert (Hbk : Forall (fun s : sep => Forall byte_ok s.1) seps)
    by (eapply Forall_impl; [exact Hok|]; by intros ? [? _]).
  assert (Hch : Forall (fun s : sep => u32_ok s.2) seps)
    by (eapply Forall_impl; [exact Hok|]; by intros ? [_ ?]).
  pose proof (write_interior_entries_from_spec seps [right] (clear_interior_cells p) [] Ha Hbk) as H.
  change (zlen (@nil sep)) with 0 in H. rewrite He in H. cbn [app] in H.
  unfold write_interior_entries. destruct seps as [|s0 seps0] eqn:Eseps.
  { rewrite decide_True by done. cbn [fmap list_fmap app]. rewrite bool_decide_true by done.
    cbn [negb andb]. change (default 0 (head [right])) with right. eexists. split; [done|].
    destruct (set_right_child_area _ _ right Ha Hright) as (A1 & A2 & A3 & A4). split_and!.
    - split; [exact A1|]. split; [by rewrite A3|]. split; [exact A2|done].
    - etrans; [apply same_frame_identity; exact Hf|]. apply same_identity_right.
    - unfold interior_packed. rewrite A4, He. done. }
  rewrite <-Eseps in *. assert (Hne : seps.*1 <> []) by (by subst seps).
  rewrite bool_decide_false by done. cbn [negb andb].
  rewrite zlen_app, !zlen_fmap. change (zlen [right]) with 1. rewrite Z.eqb_refl. cbn [negb].
  clear Eseps Hne. repeat case_decide; try lia; [|by rewrite H].
  destruct H as (p' & E & Ha' & Hf' & He'). rewrite E. cbn [mbind result_bind].
  pose proof (area_room _ _ _ Ha') as Hroom. rewrite zlen_fmap in Hroom. pose proof (zlen_nonneg seps).
  rewrite !as_u16_id by (change INTERIOR_DATA_OFFSET with 32; unfold u16_ok; lia).
  rewrite last_snoc. cbn [ok_or mbind result_bind]. change INTERIOR_DATA_OFFSET with 32.
  rewrite (Z.mul_comm _ 2). fold (interior_counts p' (zlen seps)).
  destruct (interior_counts_area p' _ (zlen seps) Ha') as (B1 & B2 & B3 & B4); [unfold u16_ok; lia|].
  destruct (set_right_child_area _ _ right B1 Hright) as (A1 & A2 & A3 & A4).
  eexists. split; [reflexivity|]. split_and!.
  - split; [exact A1|]. split; [by rewrite A3|]. split; [exact A2|done].
  - etrans; [apply same_frame_identity; exact Hf|].
    etrans; [apply same_frame_identity; exact Hf'|].
    etrans; [apply same_frame_identity; exact B3|]. apply same_identity_right.
  - unfold interior_packed. by rewrite A4, B4, He'.
Qed.
