(* ===== verification/BTree.v ===== *)
(** * The B+ tree ([crates/reddb-engine/src/storage/btree.rs] and [btree/impl.rs])

    The tree's state over a page store, the descent, the lookups, the insertion
    with its splits and the cursor.  A method is an [eff] operation: it leaves the
    state it has reached even when it fails.  The tree's locks serialise writers, so
    an operation runs on its own; a poisoned lock is a panic elsewhere and is not
    modelled. *)

From S2P Require Import Prelude FileFormat Page PageStore Overflow ValueLayout Slots Leaf Interior.
From Stdlib Require Import ZArith Lia.

Record BTree (S : Type) : Type := {
  pager : S;
  root_page_id : Z;
  rightmost_leaf : option (Z * bytes);
}.
Arguments pager {S} _.
Arguments root_page_id {S} _.
Arguments rightmost_leaf {S} _.
Arguments Build_BTree {S} _ _ _.

Definition set_pager {S} (s : S) (t : BTree S) : BTree S :=
  {| pager := s; root_page_id := root_page_id t; rightmost_leaf := rightmost_leaf t |}.

(** The [{:?}] of a page type *)
Definition PageType_debug (t : PageType) : string :=
  match t with
  | Free => "Free" | BTreeLeaf => "BTreeLeaf" | BTreeInterior => "BTreeInterior"
  | Overflow => "Overflow" | Vector => "Vector" | FreelistTrunk => "FreelistTrunk"
  | Header => "Header" | GraphNode => "GraphNode" | GraphEdge => "GraphEdge"
  | GraphAdjacency => "GraphAdjacency" | GraphMeta => "GraphMeta" | NativeMeta => "NativeMeta"
  | Vault => "Vault" | ColumnBlock => "ColumnBlock"
  end.

Definition btree_of_layout (e : ValueLayoutError) : BTreeError :=
  match e with
  | LayoutValueTooLarge n => ValueTooLarge n
  | LayoutReadLimitExceeded r l => ReadLimitExceeded r l
  | e => ValueLayoutFailed e
  end.

(** [slice.partition_point(p)]: the first index where [p] fails *)
Fixpoint partition_point {A} (p : A -> bool) (l : list A) : nat :=
  match l with
  | [] => O
  | x :: l => if p x then S (partition_point p l) else O
  end.

(** [vec.insert(i, x)] for [i <= vec.len()] *)
Definition vec_insert {A} (i : nat) (x : A) (l : list A) : list A := take i l ++ x :: drop i l.

(** The loop of [split_leaf]: the remaining entries, the index that follows the
    first of them, the bytes before them, the best split so far and its balance *)
Fixpoint best_split (capacity total : Z) (entries : list entry) (index left_bytes : Z)
    (split : option Z) (best_balance : Z) : option Z :=
  match entries with
  | [] | [_] => split
  | e :: rest =>
      let left_bytes := left_bytes + leaf_entry_size e in
      let right_bytes := total - left_bytes in
      let balance := Z.abs (left_bytes - right_bytes) in
      if (left_bytes <=? capacity) && (right_bytes <=? capacity) && (balance <? best_balance)
      then best_split capacity total rest (index + 1) left_bytes (Some index) balance
      else best_split capacity total rest (index + 1) left_bytes split best_balance
  end.

Definition MAX_RIGHTLINK_HOPS : nat := 32.
Definition MAX_DEPTH : nat := 64.

Section tree.
Context {S : Type} `{PageStore S}.
Context (crc32 : bytes -> Z).
Context (lz4_compress : bytes -> bytes) (lz4_decompress : bytes -> Z -> string + bytes).
(** The number of pages a walk along an overflow chain may visit *)
Context (fuel : nat).

Abbreviation M := (eff (BTree S) BTreeError).

(** ** Access to the store and the fields *)

Definition bt_read (id : Z) : M bytes := within pager set_pager PagerFailed (read_page id).
Definition bt_write (id : Z) (page : bytes) : M unit :=
  within pager set_pager PagerFailed (write_page id page).
Definition bt_allocate (t : PageType) : M bytes :=
  within pager set_pager PagerFailed (allocate_page t).
Definition bt_free (id : Z) : M unit := within pager set_pager PagerFailed (free_page id).
Definition bt_encode (value : bytes) : M bytes :=
  within pager set_pager btree_of_layout (encode lz4_compress value).
Definition bt_decode (stored : bytes) (limit : Z) : M bytes :=
  within pager set_pager btree_of_layout (decode_with_budget lz4_decompress fuel stored limit).

Definition get_root : M Z := fun t => (t, Ok (root_page_id t)).
Definition set_root (id : Z) : M unit := fun t =>
  ({| pager := pager t; root_page_id := id; rightmost_leaf := rightmost_leaf t |}, Ok tt).
Definition get_rightmost : M (option (Z * bytes)) := fun t => (t, Ok (rightmost_leaf t)).
Definition set_rightmost (c : option (Z * bytes)) : M unit := fun t =>
  ({| pager := pager t; root_page_id := root_page_id t; rightmost_leaf := c |}, Ok tt).

Definition type_of (page : bytes) : M PageType := lift (map_err CorruptedPage (page_type page)).

Definition new (pager : S) : BTree S :=
  {| pager := pager; root_page_id := 0; rightmost_leaf := None |}.
Definition with_root (pager : S) (root : Z) : BTree S :=
  {| pager := pager; root_page_id := root; rightmost_leaf := None |}.
Definition is_empty (t : BTree S) : bool := root_page_id t =? 0.

Definition free_chain_if_pointer (stored : bytes) : M unit :=
  match pointer_head stored with
  | Some head =>
      within pager set_pager (fun e => btree_of_layout (LayoutOverflow e)) (free fuel head)
  | None => mret tt
  end.

(** ** Descending *)

Fixpoint find_leaf_loop (n : nat) (current_id : Z) (path : list Z) (key : bytes)
    : M (Z * list Z) :=
  match n with
  | O => fail (Corrupted "B-tree descent exceeds maximum depth")
  | Datatypes.S n =>
      page ← bt_read current_id;
      t ← type_of page;
      match t with
      | BTreeLeaf => mret (current_id, path)
      | BTreeInterior =>
          child ← lift (find_child page key);
          find_leaf_loop n child (path ++ [current_id]) key
      | other => fail (Corrupted ("Unexpected page type in B-tree: " +:+ PageType_debug other))
      end
  end.

Definition find_leaf (page_id : Z) (key : bytes) : M (Z * list Z) :=
  find_leaf_loop MAX_DEPTH page_id [] key.

Fixpoint find_first_leaf_loop (n : nat) (current_id : Z) : M Z :=
  match n with
  | O => fail (Corrupted "leftmost-leaf descent exceeds maximum depth")
  | Datatypes.S n =>
      page ← bt_read current_id;
      t ← type_of page;
      match t with
      | BTreeLeaf => mret current_id
      | BTreeInterior => child ← lift (find_first_child page); find_first_leaf_loop n child
      | _ => fail (Corrupted "Invalid page type")
      end
  end.

Definition find_first_leaf (page_id : Z) : M Z := find_first_leaf_loop MAX_DEPTH page_id.

(** The test of the right link: does the key lie beyond this page, on its sibling? *)
Definition beyond (page key : bytes) : M (option Z) :=
  let right := leaf_right_sibling page in
  if negb (right =? 0) then
    high ← lift (leaf_high_key page);
    mret (match high with
          | Some high_key => if bool_decide (blt high_key key) then Some right else None
          | None => None
          end)
  else mret None.

(** ** Lookup *)

(** [None] when the hop limit is used up *)
Fixpoint get_hops (n : nat) (current_id : Z) (key : bytes) (limit_bytes : Z)
    : M (option (option bytes)) :=
  match n with
  | O => mret None
  | Datatypes.S n =>
      page ← bt_read current_id;
      r ← lift (search_leaf page key);
      match r with
      | Found pos =>
          cell ← lift (read_leaf_cell page pos);
          value ← bt_decode cell.2 limit_bytes;
          mret (Some (Some value))
      | SearchNotFound _ =>
          next ← beyond page key;
          match next with
          | Some right_id => get_hops n right_id key limit_bytes
          | None => mret (Some None)
          end
      end
  end.

Definition get_with_budget (key : bytes) (limit_bytes : Z) : M (option bytes) :=
  root_id ← get_root;
  if root_id =? 0 then mret None
  else
    found ← find_leaf root_id key;
    answer ← get_hops MAX_RIGHTLINK_HOPS found.1 key limit_bytes;
    match answer with
    | Some r => mret r
    | None =>
        root_id ← get_root;
        found ← find_leaf root_id key;
        page ← bt_read found.1;
        r ← lift (search_leaf page key);
        match r with
        | Found pos =>
            cell ← lift (read_leaf_cell page pos);
            value ← bt_decode cell.2 limit_bytes;
            mret (Some value)
        | SearchNotFound _ => mret None
        end
    end.

Definition get (key : bytes) : M (option bytes) := get_with_budget key USIZE_MAX.

(** ** Insertion *)

Definition cache_rightmost_leaf (page : bytes) : M unit :=
  cached ← (if leaf_right_sibling page =? 0 then
              high ← lift (leaf_high_key page);
              mret ((fun high => (page_id page, high)) <$> high)
            else mret None);
  set_rightmost cached.

(** The entries of [page] with the new one in its place *)
Definition entries_with (page key value : bytes) : BTreeResult (list entry) :=
  entries ← read_leaf_entries page;
  let insert_pos := partition_point (fun e => bool_decide (blt e.1 key)) entries in
  Ok (vec_insert insert_pos (key, value) entries).

(** The backlink of the leaf that followed the one that is split *)
Definition relink_successor (old_next new_page_id : Z) : M unit :=
  if negb (old_next =? 0) then
    successor ← bt_read old_next;
    t ← type_of successor;
    if negb (bool_decide (t = BTreeLeaf)) then fail (Corrupted "invalid split successor type")
    else
      let successor := set_prev_leaf successor new_page_id in
      bt_write old_next (update_checksum crc32 successor)
  else mret tt.

(** The page that stays, the new page and the separator *)
Definition split_leaf (page new_key new_value : bytes) : M (bytes * bytes * bytes) :=
  entries ← lift (entries_with page new_key new_value);
  let capacity := PAGE_SIZE - LEAF_SLOT_ARRAY_OFFSET in
  let total := leaf_entries_size entries in
  mid ← lift (ok_or (best_split capacity total entries 1 0 None USIZE_MAX)
                (Corrupted "leaf entries cannot fit in two pages"));
  new_page ← bt_allocate BTreeLeaf;
  let old_next := read_next_leaf page in
  let new_page := init_leaf_links new_page (page_id page) old_next in
  let page := set_next_leaf page (page_id new_page) in
  page ← lift (write_leaf_entries page (take (Z.to_nat mid) entries));
  new_page ← lift (write_leaf_entries new_page (drop (Z.to_nat mid) entries));
  separator ← lift (match zget entries mid with Some e => Ok e.1 | None => Panic end);
  let new_page := update_checksum crc32 new_page in
  let new_page_id := page_id new_page in
  _ ← bt_write new_page_id new_page;
  _ ← relink_successor old_next new_page_id;
  mret (page, new_page, separator).

(** [children.iter().position(|c| *c == id)] *)
Fixpoint index_of (id : Z) (l : list Z) : option nat :=
  match l with
  | [] => None
  | x :: l => if x =? id then Some O else Datatypes.S <$> index_of id l
  end.

(** The page that stays, the new page and the separator that moves up *)
Definition split_interior (page new_key : bytes) (left_child right_child_ : Z)
    : M (bytes * bytes * bytes) :=
  kc ← lift (read_interior_keys_children page);
  let '(keys, children) := kc in
  let key_insert_pos := partition_point (fun k => bool_decide (blt k new_key)) keys in
  let child_insert_pos := default key_insert_pos (index_of left_child children) in
  let keys := vec_insert key_insert_pos new_key keys in
  children ← lift (if bool_decide (child_insert_pos + 1 <= length children)%nat
                   then Ok (vec_insert (child_insert_pos + 1) right_child_ children) else Panic);
  let mid := Nat.div (length keys) 2 in
  separator ← lift (match keys !! mid with Some k => Ok k | None => Panic end);
  new_page ← bt_allocate BTreeInterior;
  page ← lift (write_interior_entries page (take mid keys) (take (mid + 1) children));
  new_page ← lift (write_interior_entries new_page (drop (mid + 1) keys) (drop (mid + 1) children));
  let new_page := update_checksum crc32 new_page in
  let new_page_id := page_id new_page in
  _ ← bt_write new_page_id new_page;
  mret (page, new_page, separator).

(** The path from the parent up to the root *)
Fixpoint insert_into_ancestors (rpath : list Z) (left_child : Z) (key : bytes) (right_child_ : Z)
    : M unit :=
  match rpath with
  | [] =>
      new_root ← bt_allocate BTreeInterior;
      new_root ← lift (write_interior_entries new_root [key] [left_child; right_child_]);
      let new_root := update_checksum crc32 new_root in
      let new_root_id := page_id new_root in
      _ ← bt_write new_root_id new_root;
      set_root new_root_id
  | parent_id :: rpath =>
      parent ← bt_read parent_id;
      if can_insert_interior parent key then
        parent ← lift (insert_into_interior parent key left_child right_child_);
        bt_write parent_id (update_checksum crc32 parent)
      else
        split ← split_interior parent key left_child right_child_;
        let '(parent, new_interior, separator) := split in
        let parent := update_checksum crc32 parent in
        _ ← bt_write parent_id parent;
        insert_into_ancestors rpath (page_id parent) separator (page_id new_interior)
  end.

Definition insert_into_parent (path : list Z) (left_child : Z) (key : bytes) (right_child_ : Z)
    : M unit := insert_into_ancestors (rev path) left_child key right_child_.

(** An empty tree gets a root leaf. *)
Definition create_root (key value : bytes) : M unit :=
  page ← bt_allocate BTreeLeaf;
  let page := clear_leaf_cells page in
  page ← lift (insert_into_leaf page key value);
  let page := init_leaf_links page 0 0 in
  let page := update_checksum crc32 page in
  let new_root := page_id page in
  _ ← bt_write new_root page;
  set_root new_root.

(** The path that appends to the cached rightmost leaf; [false] when the cached page
    is no longer the rightmost leaf *)
Definition append_rightmost (root_id cached_page_id : Z) (key value : bytes) : M bool :=
  page ← bt_read cached_page_id;
  if leaf_right_sibling page =? 0 then
    if can_insert_leaf page key value then
      page ← lift (insert_into_leaf page key value);
      let id := page_id page in
      _ ← set_rightmost (Some (id, key));
      _ ← bt_write id page;
      mret true
    else
      split ← split_leaf page key value;
      let '(page, new_leaf, separator_key) := split in
      let new_leaf_id := page_id new_leaf in
      let page := update_checksum crc32 page in
      let id := page_id page in
      _ ← bt_write id page;
      _ ← cache_rightmost_leaf new_leaf;
      found ← find_leaf root_id separator_key;
      _ ← insert_into_parent found.2 cached_page_id separator_key new_leaf_id;
      mret true
  else
    _ ← set_rightmost None;
    mret false.

(** The path that descends from the root *)
Definition insert_from_root (root_id : Z) (key value : bytes) : M unit :=
  found ← find_leaf root_id key;
  let '(leaf_id, path) := found in
  page ← bt_read leaf_id;
  r ← lift (search_leaf page key);
  match r with
  | Found _ => fail DuplicateKey
  | SearchNotFound _ =>
      if can_insert_leaf page key value then
        page ← lift (insert_into_leaf page key value);
        let id := page_id page in
        _ ← (if leaf_right_sibling page =? 0 then cache_rightmost_leaf page else mret tt);
        bt_write id page
      else
        split ← split_leaf page key value;
        let '(page, new_leaf, separator_key) := split in
        let new_leaf_id := page_id new_leaf in
        let page := update_checksum crc32 page in
        let id := page_id page in
        _ ← bt_write id page;
        _ ← cache_rightmost_leaf new_leaf;
        insert_into_parent path id separator_key new_leaf_id
  end.

Definition insert_encoded (key value : bytes) : M unit :=
  root_id ← get_root;
  if root_id =? 0 then create_root key value
  else
    cached ← get_rightmost;
    handled ← match cached with
              | Some (cached_page_id, high_key) =>
                  if bool_decide (blt high_key key)
                  then append_rightmost root_id cached_page_id key value
                  else mret false
              | None => mret false
              end;
    if (handled : bool) then mret tt else insert_from_root root_id key value.

Definition insert (key value : bytes) : M unit :=
  if MAX_KEY_SIZE <? zlen key then fail (KeyTooLarge (zlen key))
  else
    stored ← bt_encode value;
    insert_encoded key stored.

End tree.
