(* ===== verification/Delete.v ===== *)
(** * Deletion from a B+ tree ([crates/reddb-engine/src/storage/btree/impl.rs])

    The deletion of a key with the rebalancing of the pages that fall below a quarter
    of their size, and the update of a value. *)

From S2P Require Import Prelude FileFormat Page PageStore Overflow ValueLayout Slots Leaf Interior BTree.
From Stdlib Require Import ZArith Lia.

(** [vec[i]], [vec[i] = x] and [vec.remove(i)], which panic out of range *)
Definition vec_get {E A} (i : nat) (l : list A) : result E A :=
  match l !! i with Some x => Ok x | None => Panic end.
Definition vec_set {E A} (i : nat) (x : A) (l : list A) : result E (list A) :=
  match l !! i with Some _ => Ok (<[i := x]> l) | None => Panic end.
Definition vec_remove {E A} (i : nat) (l : list A) : result E (list A) :=
  match l !! i with Some _ => Ok (take i l ++ drop (S i) l) | None => Panic end.

(** The loops of [rebalance_leaf_step] that move entries into the leaf: the last
    entries of the left sibling, which is given in reverse, and the first of the right.
    The sibling and the leaf afterwards, and whether anything has moved *)
Fixpoint borrow_left (min_bytes : Z) (rleft leaf : list entry) (borrowed : bool)
    : list entry * list entry * bool :=
  if leaf_entries_size leaf <? min_bytes then
    match rleft with
    | [] => (rleft, leaf, borrowed)
    | e :: rest =>
        if leaf_entries_size (rev rest) <? min_bytes then (rleft, leaf, borrowed)
        else borrow_left min_bytes rest (e :: leaf) true
    end
  else (rleft, leaf, borrowed).

Fixpoint borrow_right (min_bytes : Z) (right leaf : list entry) (borrowed : bool)
    : list entry * list entry * bool :=
  if leaf_entries_size leaf <? min_bytes then
    match right with
    | [] => (right, leaf, borrowed)
    | e :: rest =>
        if leaf_entries_size rest <? min_bytes then (right, leaf, borrowed)
        else borrow_right min_bytes rest (leaf ++ [e]) true
    end
  else (right, leaf, borrowed).

Section delete.
Context {S : Type} `{PageStore S}.
Context (crc32 : bytes -> Z).
Context (lz4_compress : bytes -> bytes) (lz4_decompress : bytes -> Z -> string + bytes).
Context (fuel : nat).

Abbreviation M := (eff (BTree S) BTreeError).

(** A page is rebuilt with these entries, sealed and written. *)
Definition rewrite_leaf (id : Z) (page : bytes) (entries : list entry) : M bytes :=
  page ← lift (write_leaf_entries page entries);
  let page := update_checksum crc32 page in
  _ ← bt_write id page;
  mret page.

Definition rewrite_interior (id : Z) (page : bytes) (keys : list bytes) (children : list Z) : M bytes :=
  page ← lift (write_interior_entries page keys children);
  let page := update_checksum crc32 page in
  _ ← bt_write id page;
  mret page.

(** The separator left of the leaf becomes the leaf's first key. *)
Definition refresh_separator (parent_id : Z) (parent : bytes) (keys : list bytes) (children : list Z)
    (child_index : nat) (entries : list entry) : M (bytes * list bytes) :=
  match child_index, entries with
  | Datatypes.S i, (first_key, _) :: _ =>
      if bool_decide (keys !! i = Some first_key) then mret (parent, keys)
      else
        keys ← lift (vec_set i first_key keys);
        parent ← rewrite_interior parent_id parent keys children;
        mret (parent, keys)
  | _, _ => mret (parent, keys)
  end.

(** Entries move from the left sibling; whether any did *)
Definition lend_left (leaf_id : Z) (leaf : bytes) (entries : list entry) (parent_id : Z) (parent : bytes)
    (keys : list bytes) (children : list Z) (child_index : nat) : M bool :=
  match child_index with
  | O => mret false
  | Datatypes.S i =>
      left_id ← lift (vec_get i children);
      left ← bt_read left_id;
      left_entries ← lift (read_leaf_entries left);
      let '(rleft, entries, borrowed) := borrow_left leaf_min_bytes (rev left_entries) entries false in
      if borrowed then
        _ ← rewrite_leaf left_id left (rev rleft);
        _ ← rewrite_leaf leaf_id leaf entries;
        match entries with
        | (first_key, _) :: _ =>
            keys ← lift (vec_set i first_key keys);
            _ ← rewrite_interior parent_id parent keys children;
            mret true
        | [] => mret true
        end
      else mret false
  end.

(** Entries move from the right sibling; whether any did *)
Definition lend_right (leaf_id : Z) (leaf : bytes) (entries : list entry) (parent_id : Z) (parent : bytes)
    (keys : list bytes) (children : list Z) (child_index : nat) : M bool :=
  if bool_decide (child_index + 1 < length children)%nat then
    right_id ← lift (vec_get (child_index + 1) children);
    right ← bt_read right_id;
    right_entries ← lift (read_leaf_entries right);
    let '(right_entries, entries, borrowed) := borrow_right leaf_min_bytes right_entries entries false in
    if borrowed then
      _ ← rewrite_leaf right_id right right_entries;
      _ ← rewrite_leaf leaf_id leaf entries;
      match right_entries with
      | (first_key, _) :: _ =>
          keys ← lift (vec_set child_index first_key keys);
          _ ← rewrite_interior parent_id parent keys children;
          mret true
      | [] => mret true
      end
    else mret false
  else mret false.

(** The entries of the leaf [gone] are appended to the leaf [kept], which takes its
    place in the chain; the parent loses the key at [key_index] and the child behind. *)
Definition merge_leaves (kept_id : Z) (kept : bytes) (kept_entries : list entry) (gone_id : Z) (gone : bytes)
    (gone_entries : list entry) (parent_id : Z) (parent : bytes) (keys : list bytes) (children : list Z)
    (key_index : nat) : M unit :=
  kept ← lift (write_leaf_entries kept (kept_entries ++ gone_entries));
  let next_leaf := read_next_leaf gone in
  let kept := set_next_leaf kept next_leaf in
  _ ← (if negb (next_leaf =? 0) then
         next ← bt_read next_leaf;
         bt_write next_leaf (update_checksum crc32 (set_prev_leaf next kept_id))
       else mret tt);
  _ ← bt_write kept_id (update_checksum crc32 kept);
  _ ← bt_free gone_id;
  keys ← lift (vec_remove key_index keys);
  children ← lift (vec_remove (key_index + 1) children);
  _ ← rewrite_interior parent_id parent keys children;
  mret tt.

(** A leaf below the minimum borrows from a neighbour, or merges with one: then the
    parent has lost a key. *)
Definition fill_leaf (leaf_id : Z) (leaf : bytes) (leaf_entries : list entry) (parent_id : Z) (parent : bytes)
    (parent_keys : list bytes) (parent_children : list Z) (child_index : nat) : M (option Z) :=
  done ← lend_left leaf_id leaf leaf_entries parent_id parent parent_keys parent_children child_index;
  if (done : bool) then mret None
  else
    done ← lend_right leaf_id leaf leaf_entries parent_id parent parent_keys parent_children child_index;
    if (done : bool) then mret None
    else match child_index with
    | Datatypes.S i =>
        left_id ← lift (vec_get i parent_children);
        left ← bt_read left_id;
        left_entries ← lift (read_leaf_entries left);
        _ ← merge_leaves left_id left left_entries leaf_id leaf leaf_entries parent_id parent
              parent_keys parent_children i;
        mret (Some parent_id)
    | O =>
        if bool_decide (child_index + 1 < length parent_children)%nat then
          right_id ← lift (vec_get (child_index + 1) parent_children);
          right ← bt_read right_id;
          right_entries ← lift (read_leaf_entries right);
          _ ← merge_leaves leaf_id leaf leaf_entries right_id right right_entries parent_id parent
                parent_keys parent_children child_index;
          mret (Some parent_id)
        else mret None
    end.

Definition rebalance_leaf_step (leaf_id : Z) (path : list Z) : M (option Z) :=
  match last path with
  | None => mret None
  | Some parent_id =>
      root_id ← get_root;
      if leaf_id =? root_id then mret None
      else
        leaf ← bt_read leaf_id;
        leaf_entries ← lift (read_leaf_entries leaf);
        parent ← bt_read parent_id;
        kc ← lift (read_interior_keys_children parent);
        let '(parent_keys, parent_children) := kc in
        child_index ← lift (ok_or (index_of leaf_id parent_children) (Corrupted "Leaf missing from parent"));
        pk ← refresh_separator parent_id parent parent_keys parent_children child_index leaf_entries;
        let '(parent, parent_keys) := pk in
        if leaf_min_bytes <=? leaf_entries_size leaf_entries then mret None
        else fill_leaf leaf_id leaf leaf_entries parent_id parent parent_keys parent_children child_index
  end.

(** ** Interior pages *)

(** A key moves from the left sibling through the parent; whether it did *)
Definition rotate_left (node_id : Z) (node : bytes) (keys : list bytes) (children : list Z) (parent_id : Z)
    (parent : bytes) (parent_keys : list bytes) (parent_children : list Z) (child_index : nat) : M bool :=
  match child_index with
  | O => mret false
  | Datatypes.S i =>
      left_id ← lift (vec_get i parent_children);
      left ← bt_read left_id;
      kc ← lift (read_interior_keys_children left);
      let '(left_keys, left_children) := kc in
      match last left_keys with
      | Some borrow_key =>
          if interior_min_bytes <=? sat_sub (interior_entries_size left_keys) (interior_key_size borrow_key)
          then
            parent_key ← lift (vec_get i parent_keys);
            borrowed_child ← lift (ok_or (last left_children) (Corrupted "rebalance_interior: left_children empty"));
            parent_keys ← lift (vec_set i borrow_key parent_keys);
            _ ← rewrite_interior left_id left (removelast left_keys) (removelast left_children);
            _ ← rewrite_interior node_id node (parent_key :: keys) (borrowed_child :: children);
            _ ← rewrite_interior parent_id parent parent_keys parent_children;
            mret true
          else mret false
      | None => mret false
      end
  end.

(** A key moves from the right sibling through the parent; whether it did *)
Definition rotate_right (node_id : Z) (node : bytes) (keys : list bytes) (children : list Z) (parent_id : Z)
    (parent : bytes) (parent_keys : list bytes) (parent_children : list Z) (child_index : nat) : M bool :=
  if bool_decide (child_index + 1 < length parent_children)%nat then
    right_id ← lift (vec_get (child_index + 1) parent_children);
    right ← bt_read right_id;
    kc ← lift (read_interior_keys_children right);
    let '(right_keys, right_children) := kc in
    match right_keys with
    | borrow_key :: rest_keys =>
        if interior_min_bytes <=? sat_sub (interior_entries_size right_keys) (interior_key_size borrow_key)
        then
          parent_key ← lift (vec_get child_index parent_keys);
          borrowed_child ← lift (vec_get 0 right_children);
          parent_keys ← lift (vec_set child_index borrow_key parent_keys);
          _ ← rewrite_interior right_id right rest_keys (tail right_children);
          _ ← rewrite_interior node_id node (keys ++ [parent_key]) (children ++ [borrowed_child]);
          _ ← rewrite_interior parent_id parent parent_keys parent_children;
          mret true
        else mret false
    | [] => mret false
    end
  else mret false.

(** The node [gone] is appended to [kept], with the parent's key between them. *)
Definition merge_interiors (kept_id : Z) (kept : bytes) (kept_keys : list bytes) (kept_children : list Z)
    (gone_id : Z) (gone_keys : list bytes) (gone_children : list Z) (parent_id : Z) (parent : bytes)
    (parent_keys : list bytes) (parent_children : list Z) (key_index : nat) : M unit :=
  parent_key ← lift (vec_get key_index parent_keys);
  parent_keys ← lift (vec_remove key_index parent_keys);
  parent_children ← lift (vec_remove (key_index + 1) parent_children);
  _ ← rewrite_interior kept_id kept (kept_keys ++ parent_key :: gone_keys) (kept_children ++ gone_children);
  _ ← bt_free gone_id;
  _ ← rewrite_interior parent_id parent parent_keys parent_children;
  mret tt.

(** A node below the minimum rotates a key with a neighbour, or merges with one *)
Definition fill_interior (node_id : Z) (node : bytes) (node_keys : list bytes) (node_children : list Z)
    (parent_id : Z) (parent : bytes) (parent_keys : list bytes) (parent_children : list Z) (child_index : nat)
    : M (option Z) :=
  done ← rotate_left node_id node node_keys node_children parent_id parent parent_keys parent_children child_index;
  if (done : bool) then mret None
  else
    done ← rotate_right node_id node node_keys node_children parent_id parent parent_keys parent_children child_index;
    if (done : bool) then mret None
    else match child_index with
    | Datatypes.S i =>
        left_id ← lift (vec_get i parent_children);
        left ← bt_read left_id;
        kc ← lift (read_interior_keys_children left);
        _ ← merge_interiors left_id left kc.1 kc.2 node_id node_keys node_children parent_id parent
              parent_keys parent_children i;
        mret (Some parent_id)
    | O =>
        if bool_decide (child_index + 1 < length parent_children)%nat then
          right_id ← lift (vec_get (child_index + 1) parent_children);
          right ← bt_read right_id;
          kc ← lift (read_interior_keys_children right);
          _ ← merge_interiors node_id node node_keys node_children right_id kc.1 kc.2 parent_id parent
                parent_keys parent_children child_index;
          mret (Some parent_id)
        else mret None
    end.

(** The parent that has lost a key, if any *)
Definition rebalance_interior_step (node_id : Z) (path : list Z) : M (option Z) :=
  root_id ← get_root;
  node ← bt_read node_id;
  kc ← lift (read_interior_keys_children node);
  let '(node_keys, node_children) := kc in
  if node_id =? root_id then
    if bool_decide (node_keys = []) then
      let next_root := default 0 (head node_children) in
      _ ← bt_free node_id;
      _ ← set_root next_root;
      mret None
    else mret None
  else if interior_min_bytes <=? interior_entries_size node_keys then mret None
  else match last path with
  | None => mret None
  | Some parent_id =>
      parent ← bt_read parent_id;
      kc ← lift (read_interior_keys_children parent);
      let '(parent_keys, parent_children) := kc in
      child_index ← lift (ok_or (index_of node_id parent_children) (Corrupted "Interior missing from parent"));
      fill_interior node_id node node_keys node_children parent_id parent parent_keys parent_children child_index
  end.

(** The path from the node's parent up to the root *)
Fixpoint rebalance_ancestors (rpath : list Z) (node_id : Z) : M unit :=
  r ← rebalance_interior_step node_id (rev rpath);
  match r, rpath with
  | Some parent_id, _ :: rpath => rebalance_ancestors rpath parent_id
  | _, _ => mret tt
  end.

Definition rebalance_interior (node_id : Z) (path : list Z) : M unit := rebalance_ancestors (rev path) node_id.

Definition rebalance_leaf (leaf_id : Z) (path : list Z) : M unit :=
  r ← rebalance_leaf_step leaf_id path;
  match r with
  | Some parent_id => rebalance_interior parent_id (removelast path)
  | None => mret tt
  end.

(** ** Deletion *)

(** The entry at [pos] of the leaf [page] is removed. *)
Definition delete_found (root_id current_id : Z) (path : list Z) (page : bytes) (pos : Z) : M unit :=
  cell ← lift (read_leaf_cell page pos);
  _ ← free_chain_if_pointer fuel cell.2;
  page ← lift (delete_from_leaf page pos);
  let page := update_checksum crc32 page in
  _ ← bt_write (page_id page) page;
  _ ← set_rightmost None;
  if (cell_count page =? 0) && (page_id page =? root_id) then
    _ ← bt_free root_id;
    set_root 0
  else rebalance_leaf current_id path.

Fixpoint delete_hops (n : nat) (root_id current_id : Z) (path : list Z) (key : bytes) : M bool :=
  match n with
  | O => mret false
  | Datatypes.S n =>
      page ← bt_read current_id;
      r ← lift (search_leaf page key);
      match r with
      | Found pos => _ ← delete_found root_id current_id path page pos; mret true
      | SearchNotFound _ =>
          next ← beyond page key;
          match next with
          | Some right_id => delete_hops n root_id right_id path key
          | None => mret false
          end
      end
  end.

Definition delete (key : bytes) : M bool :=
  root_id ← get_root;
  if root_id =? 0 then mret false
  else
    found ← find_leaf root_id key;
    delete_hops MAX_RIGHTLINK_HOPS root_id found.1 found.2 key.

(** [let _ = op;] *)
Definition ignore {A} (m : M A) : M unit := fun t =>
  match m t with
  | (t', Panic) => (t', Panic)
  | (t', _) => (t', Ok tt)
  end.

Definition upsert (key value : bytes) : M unit :=
  root_id ← get_root;
  if root_id =? 0 then insert crc32 lz4_compress key value
  else
    new_stored ← bt_encode lz4_compress value;
    found ← find_leaf root_id key;
    page ← bt_read found.1;
    r ← lift (search_leaf page key);
    match r with
    | Found pos =>
        cell ← lift (read_leaf_cell page pos);
        if zlen new_stored <=? zlen cell.2 then
          _ ← free_chain_if_pointer fuel cell.2;
          page ← lift (overwrite_leaf_value page pos new_stored);
          bt_write (page_id page) page
        else
          _ ← ignore (delete key);
          insert_encoded crc32 key new_stored
    | SearchNotFound _ => insert_encoded crc32 key new_stored
    end.

End delete.
