(* ===== verification/Tree.v ===== *)
(** * What a B+ tree is

    The pages of a store that form a tree of a given height, with its leaves in
    order, its key range and its footprint; the context of a subtree; the effect of
    writing some pages on the rest.  The invariant against which the operations of
    [BTree] are proved. *)

From S2P Require Import Prelude FileFormat Page PageStore Overflow ValueLayout Slots Leaf Interior.
From Stdlib Require Import ZArith Lia.



(** ** Key ranges: a lower bound is inclusive, an upper bound is not *)

Definition above (lo : option bytes) (k : bytes) : Prop :=
  match lo with Some b => ~ blt k b | None => True end.
Definition below (k : bytes) (hi : option bytes) : Prop :=
  match hi with Some b => blt k b | None => True end.

Lemma above_trans lo k k' : above lo k -> blt k k' -> above lo k'.
Proof.
  destruct lo as [b|]; [|done]. cbn. intros H1 H2 H3. apply H1. by apply (blt_trans _ k').
Qed.

Lemma below_trans k k' hi : blt k k' -> below k' hi -> below k hi.
Proof. destruct hi as [b|]; [|done]. cbn. apply blt_trans. Qed.

Lemma not_blt_cases a b : ~ blt a b -> a = b \/ blt b a.
Proof. intros H. destruct (blt_total a b) as [?|[?|?]]; auto. done. Qed.

Lemma above_below lo k hi : above (Some lo) k -> below k hi -> below lo hi.
Proof.
  cbn. intros H1 H2. apply not_blt_cases in H1 as [->|H1]; [done|]. by apply (below_trans lo k).
Qed.

(** ** Nodes *)

Record leaf : Type := Leaf { lf_id : Z; lf_prev : Z; lf_next : Z; lf_entries : list entry }.

Definition leaf_at (p : bytes) (l : leaf) : Prop :=
  page_type p = Ok BTreeLeaf /\ page_id p = lf_id l /\ u32_at p LEAF_PREV_OFFSET = lf_prev l /\
  read_next_leaf p = lf_next l /\ leaf_rep p (lf_entries l).

Definition node_at (p : bytes) (id : Z) (seps : list sep) (right : Z) : Prop :=
  page_type p = Ok BTreeInterior /\ page_id p = id /\ interior_rep p seps right /\ interior_packed p seps.

Definition keys_of (ls : list leaf) : list bytes := concat (map (fun l => (lf_entries l).*1) ls).
Definition contents (ls : list leaf) : list entry := concat (map lf_entries ls).

Definition page_number (id : Z) : Prop := id <> 0 /\ u32_ok id.

(** The lengths of the keys of a tree *)
Record key_sizes : Type := KeySizes { shortest : Z; longest : Z }.

Section tree.
Context (K : key_sizes).

Definition key_fits (k : bytes) : Prop := shortest K <= zlen k <= longest K.

Definition entry_fits (e : entry) : Prop :=
  entry_ok e /\ key_fits e.1 /\ zlen e.2 <= BTREE_VALUE_OVERFLOW_THRESHOLD + 1.

Definition sep_fits (s : sep) : Prop := Forall byte_ok s.1 /\ key_fits s.1.

Section pages.
Context (m : gmap Z bytes).

(** [tree h lo hi id ls F]: the pages [F] of [m] form a tree of height [h] under
    page [id], whose keys lie in the range and whose leaves are [ls].  Every leaf
    has an entry and every interior page has a separator.
    [segs h lo seps hi ls F]: the children left of the separators [seps]. *)
Inductive tree : nat -> option bytes -> option bytes -> Z -> list leaf -> gset Z -> Prop :=
| tree_leaf lo hi p l :
    m !! lf_id l = Some p -> page_number (lf_id l) -> leaf_at p l ->
    lf_entries l <> [] -> StronglySorted blt (lf_entries l).*1 ->
    Forall (fun e => above lo e.1 /\ below e.1 hi /\ entry_fits e) (lf_entries l) ->
    tree 0 lo hi (lf_id l) [l] {[lf_id l]}
| tree_node h lo mid hi id p seps right ls1 F1 ls2 F2 :
    m !! id = Some p -> page_number id -> node_at p id seps right ->
    seps <> [] -> Forall sep_fits seps ->
    segs h lo seps mid ls1 F1 -> tree h mid hi right ls2 F2 ->
    id ∉ F1 -> id ∉ F2 -> F1 ## F2 ->
    tree (S h) lo hi id (ls1 ++ ls2) ({[id]} ∪ (F1 ∪ F2))
with segs : nat -> option bytes -> list sep -> option bytes -> list leaf -> gset Z -> Prop :=
| segs_nil h lo : segs h lo [] lo [] ∅
| segs_cons h lo k c seps hi ls1 F1 ls2 F2 :
    tree h lo (Some k) c ls1 F1 -> segs h (Some k) seps hi ls2 F2 -> F1 ## F2 ->
    segs h lo ((k, c) :: seps) hi (ls1 ++ ls2) (F1 ∪ F2).

End pages.

Scheme tree_ind' := Induction for tree Sort Prop
  with segs_ind' := Induction for segs Sort Prop.
Combined Scheme tree_segs_ind from tree_ind', segs_ind'.

(** ** Frame *)

Lemma tree_segs_frame m m' :
  (forall h lo hi id ls F, tree m h lo hi id ls F ->
     (forall x, x ∈ F -> m' !! x = m !! x) -> tree m' h lo hi id ls F) /\
  (forall h lo seps hi ls F, segs m h lo seps hi ls F ->
     (forall x, x ∈ F -> m' !! x = m !! x) -> segs m' h lo seps hi ls F).
Proof.
  apply tree_segs_ind.
  - intros lo hi p l Hm Hid Hl Hne Hs Hf Hfr. apply (tree_leaf m' lo hi p); auto.
    rewrite Hfr by sets. done.
  - intros h lo mid hi id p seps right ls1 F1 ls2 F2 Hm Hid Hn Hne Hsep H1 IH1 H2 IH2 D1 D2 D3 Hfr.
    apply (tree_node m' h lo mid hi id p seps right); auto.
    + rewrite Hfr by sets. done.
    + apply IH1. intros. apply Hfr. sets.
    + apply IH2. intros. apply Hfr. sets.
  - intros. constructor.
  - intros h lo k c seps hi ls1 F1 ls2 F2 H1 IH1 H2 IH2 D Hfr. constructor; auto.
    + apply IH1. intros. apply Hfr. sets.
    + apply IH2. intros. apply Hfr. sets.
Qed.

Lemma tree_frame m m' h lo hi id ls F :
  tree m h lo hi id ls F -> (forall x, x ∈ F -> m' !! x = m !! x) -> tree m' h lo hi id ls F.
Proof. intros. by apply (proj1 (tree_segs_frame m m')). Qed.

Lemma segs_frame m m' h lo seps hi ls F :
  segs m h lo seps hi ls F -> (forall x, x ∈ F -> m' !! x = m !! x) -> segs m' h lo seps hi ls F.
Proof. intros. by apply (proj2 (tree_segs_frame m m')). Qed.

(** ** Concatenation of children *)

Lemma segs_app m h lo s1 mid ls1 F1 s2 hi ls2 F2 :
  segs m h lo s1 mid ls1 F1 -> segs m h mid s2 hi ls2 F2 -> F1 ## F2 ->
  segs m h lo (s1 ++ s2) hi (ls1 ++ ls2) (F1 ∪ F2).
Proof.
  intros H1. revert s2 ls2 F2. induction H1 as [|h lo k c seps hi1 ls1 F1 ls1' F1' Ht Hs IH D];
    intros s2 ls2 F2 H2 HD.
  - rewrite (left_id_L ∅ (∪)). exact H2.
  - cbn [app]. rewrite <-app_assoc, <-(assoc_L (∪)). apply segs_cons; [done| |sets].
    apply IH; [done|sets].
Qed.

Lemma segs_app_inv m h lo s1 s2 hi ls F :
  segs m h lo (s1 ++ s2) hi ls F ->
  exists mid ls1 F1 ls2 F2, segs m h lo s1 mid ls1 F1 /\ segs m h mid s2 hi ls2 F2 /\
    ls = ls1 ++ ls2 /\ F = F1 ∪ F2 /\ F1 ## F2.
Proof.
  revert lo ls F. induction s1 as [|[k c] s1 IH]; intros lo ls F H.
  - exists lo, [], ∅, ls, F. split_and!; [constructor|done|done|sets|sets].
  - cbn in H. inversion H as [|? ? ? ? ? ? lsa Fa lsb Fb Ht Hs D]; subst.
    destruct (IH _ _ _ Hs) as (mid & ls1 & F1 & ls2 & F2 & H1 & H2 & -> & -> & D').
    exists mid, (lsa ++ ls1), (Fa ∪ F1), ls2, F2. split_and!; [|done|by rewrite app_assoc|sets|sets].
    constructor; [done|done|sets].
Qed.

(** ** Order *)

Definition in_range (lo hi : option bytes) (e : entry) : Prop :=
  above lo e.1 /\ below e.1 hi /\ entry_fits e.

Lemma contents_app l1 l2 : contents (l1 ++ l2) = contents l1 ++ contents l2.
Proof. unfold contents. by rewrite map_app, concat_app. Qed.

(** A nonempty range orders its bounds. *)
Lemma range_lo lo k b x : above lo k -> blt k b -> above (Some b) x -> above lo x.
Proof.
  intros H1 H2 H3. apply (above_trans lo k); [done|].
  cbn in H3. apply not_blt_cases in H3 as [->|?]; [done|]. by apply (blt_trans _ b).
Qed.

Lemma range_hi b k hi x : above (Some b) k -> below k hi -> blt x b -> below x hi.
Proof. intros H1 H2 H3. apply (below_trans x b); [done|]. by apply (above_below b k). Qed.

Lemma segs_hi_some m h lo seps hi ls F :
  segs m h lo seps hi ls F -> seps <> [] -> exists b, hi = Some b /\ last seps.*1 = Some b.
Proof.
  induction 1 as [|h lo k c seps hi ls1 F1 ls2 F2 Ht Hs IH D]; intros Hne; [done|].
  destruct seps as [|s seps].
  - inversion Hs; subst. by exists k.
  - destruct IH as (b & -> & E); [done|]. exists b. split; [done|]. cbn in *. by rewrite E.
Qed.

Lemma tree_segs_range m :
  (forall h lo hi id ls F, tree m h lo hi id ls F ->
     Forall (in_range lo hi) (contents ls) /\ contents ls <> []) /\
  (forall h lo seps hi ls F, segs m h lo seps hi ls F ->
     Forall (in_range lo hi) (contents ls) /\ (forall x, above hi x -> above lo x) /\
     (forall b x, lo = Some b -> blt x b -> below x hi)).
Proof.
  apply tree_segs_ind.
  - intros lo hi p l _ _ _ Hne _ Hf. unfold contents. cbn. by rewrite app_nil_r.
  - intros h lo mid hi id p seps right ls1 F1 ls2 F2 _ _ _ Hne _ H1 (IH1 & IHa & _) H2 (IH2 & Hn2) _ _ _.
    rewrite contents_app. split; [|by destruct (contents ls1)].
    destruct (segs_hi_some _ _ _ _ _ _ _ H1 Hne) as (b & -> & _).
    destruct (contents ls2) as [|e es] eqn:Ec; [done|].
    pose proof IH2 as [(Ha & Hb & _) _]%Forall_cons. apply Forall_app. split.
    + eapply Forall_impl; [exact IH1|]. intros x (A & B & C). split_and!; [done| |done].
      by apply (range_hi b e.1).
    + eapply Forall_impl; [exact IH2|]. intros x (A & B & C). split_and!; [by apply IHa|done|done].
  - intros h lo. split_and!; [constructor|done|]. intros b x ->. done.
  - intros h lo k c seps hi ls1 F1 ls2 F2 H1 (IH1 & Hn1) H2 (IH2 & IHa & IHb) _.
    rewrite contents_app. destruct (contents ls1) as [|e es] eqn:Ec; [done|].
    pose proof IH1 as [(Ha & Hb & _) _]%Forall_cons. cbn in Hb.
    split_and!.
    + apply Forall_app. split.
      * eapply Forall_impl; [exact IH1|]. intros x (A & B & C). split_and!; [done|by apply (IHb k)|done].
      * eapply Forall_impl; [exact IH2|]. intros x (A & B & C). split_and!; [|done|done].
        by apply (range_lo lo e.1 k).
    + intros x Hx. apply (range_lo lo e.1 k); [done|done|by apply IHa].
    + intros b x -> Hx. apply (IHb k); [done|]. by apply (range_hi b e.1 (Some k)).
Qed.

Lemma tree_range m h lo hi id ls F :
  tree m h lo hi id ls F -> Forall (in_range lo hi) (contents ls) /\ contents ls <> [].
Proof. apply (proj1 (tree_segs_range m)). Qed.

(** Some key lies between the bounds of a tree. *)
Lemma tree_inhabited m h lo hi id ls F :
  tree m h lo hi id ls F -> exists k, above lo k /\ below k hi.
Proof.
  intros H. destruct (tree_range _ _ _ _ _ _ _ H) as [Hf Hne].
  destruct (contents ls) as [|e es]; [done|]. apply Forall_cons in Hf as [(? & ? & _) _]. eauto.
Qed.

Lemma tree_segs_sorted m :
  (forall h lo hi id ls F, tree m h lo hi id ls F -> StronglySorted blt (contents ls).*1) /\
  (forall h lo seps hi ls F, segs m h lo seps hi ls F -> StronglySorted blt (contents ls).*1).
Proof.
  apply tree_segs_ind.
  - intros lo hi p l _ _ _ _ Hs _. unfold contents. cbn. by rewrite app_nil_r.
  - intros h lo mid hi id p seps right ls1 F1 ls2 F2 _ _ _ Hne _ H1 IH1 H2 IH2 _ _ _.
    rewrite contents_app, fmap_app. apply sorted_app. split_and!; [done|done|].
    destruct (segs_hi_some _ _ _ _ _ _ _ H1 Hne) as (b & -> & _).
    destruct (proj2 (tree_segs_range m) _ _ _ _ _ _ H1) as (R1 & _).
    destruct (tree_range _ _ _ _ _ _ _ H2) as [R2 _].
    rewrite !Forall_fmap. eapply Forall_impl; [exact R1|]. intros x (_ & Hx & _). cbn in *.
    rewrite Forall_fmap. eapply Forall_impl; [exact R2|]. intros y (Hy & _). cbn in *.
    apply not_blt_cases in Hy as [->|Hy]; [done|]. by apply (blt_trans _ b).
  - intros. constructor.
  - intros h lo k c seps hi ls1 F1 ls2 F2 H1 IH1 H2 IH2 _.
    rewrite contents_app, fmap_app. apply sorted_app. split_and!; [done|done|].
    destruct (tree_range _ _ _ _ _ _ _ H1) as [R1 _].
    destruct (proj2 (tree_segs_range m) _ _ _ _ _ _ H2) as (R2 & _).
    rewrite !Forall_fmap. eapply Forall_impl; [exact R1|]. intros x (_ & Hx & _). cbn in *.
    rewrite Forall_fmap. eapply Forall_impl; [exact R2|]. intros y (Hy & _). cbn in *.
    apply not_blt_cases in Hy as [->|Hy]; [done|]. by apply (blt_trans _ k).
Qed.

Lemma tree_sorted m h lo hi id ls F :
  tree m h lo hi id ls F -> StronglySorted blt (contents ls).*1.
Proof. apply (proj1 (tree_segs_sorted m)). Qed.

(** The separators are in order, above the lower bound. *)
Lemma segs_keys m h lo seps hi ls F :
  segs m h lo seps hi ls F ->
  StronglySorted blt seps.*1 /\
  Forall (fun k => forall x, ~ blt x k -> above lo x) seps.*1 /\
  (forall b, lo = Some b -> Forall (blt b) seps.*1).
Proof.
  induction 1 as [|h lo k c seps hi ls1 F1 ls2 F2 Ht Hs (IH1 & IH2 & IH3) D].
  { split_and!; [constructor|constructor|]. intros. constructor. }
  destruct (tree_inhabited _ _ _ _ _ _ _ Ht) as (y & Ha & Hb). cbn in Hb.
  assert (Hlo : forall x, ~ blt x k -> above lo x) by (intros x Hx; by apply (range_lo lo y k)).
  specialize (IH3 k eq_refl). cbn [fmap list_fmap fst]. split_and!.
  - by constructor.
  - constructor; [done|]. eapply Forall_impl; [exact IH2|]. cbn. intros z Hz x Hx. auto.
  - intros b ->. assert (blt b k).
    { cbn in Ha. apply not_blt_cases in Ha as [->|Ha]; [done|]. by apply (blt_trans _ y). }
    constructor; [done|]. eapply Forall_impl; [exact IH3|]. cbn. intros z Hz. by apply (blt_trans _ k).
Qed.

(** ** Contexts

    [ctx m root H path h id lo hi L R F]: the tree of height [H] under [root]
    without the subtree of height [h] at [id], whose range is [lo], [hi] and whose
    ancestors are [path]; [L] and [R] are the leaves left and right of it. *)

Inductive ctx (m : gmap Z bytes) (root : Z) (H : nat) :
    list Z -> nat -> Z -> option bytes -> option bytes -> list leaf -> list leaf -> gset Z -> Prop :=
| ctx_top : ctx m root H [] H root None None [] [] ∅
| ctx_mid path h id lo hi L R F p seps1 k c seps2 right lo' mid ls1 F1 ls2 F2 ls3 F3 :
    ctx m root H path (S h) id lo hi L R F ->
    m !! id = Some p -> page_number id -> node_at p id (seps1 ++ (k, c) :: seps2) right ->
    Forall sep_fits (seps1 ++ (k, c) :: seps2) ->
    segs m h lo seps1 lo' ls1 F1 -> segs m h (Some k) seps2 mid ls2 F2 ->
    tree m h mid hi right ls3 F3 ->
    id ∉ F -> id ∉ F1 -> id ∉ F2 -> id ∉ F3 ->
    F ## F1 -> F ## F2 -> F ## F3 -> F1 ## F2 -> F1 ## F3 -> F2 ## F3 ->
    ctx m root H (path ++ [id]) h c lo' (Some k) (L ++ ls1) (ls2 ++ ls3 ++ R)
      (F ∪ {[id]} ∪ F1 ∪ F2 ∪ F3)
| ctx_last path h id lo hi L R F p seps c lo' ls1 F1 :
    ctx m root H path (S h) id lo hi L R F ->
    m !! id = Some p -> page_number id -> node_at p id seps c ->
    seps <> [] -> Forall sep_fits seps ->
    segs m h lo seps lo' ls1 F1 ->
    id ∉ F -> id ∉ F1 -> F ## F1 ->
    ctx m root H (path ++ [id]) h c lo' hi (L ++ ls1) R (F ∪ {[id]} ∪ F1).

Lemma ctx_frame m m' root H path h id lo hi L R F :
  ctx m root H path h id lo hi L R F -> (forall x, x ∈ F -> m' !! x = m !! x) ->
  ctx m' root H path h id lo hi L R F.
Proof.
  induction 1 as [|path h id lo hi L R F p seps1 k c seps2 right lo' mid ls1 F1 ls2 F2 ls3 F3
      Hc IH Hp Hid Hn Hsep H1 H2 H3 D1 D2 D3 D4 D5 D6 D7 D8 D9 D10
    |path h id lo hi L R F p seps c lo' ls1 F1 Hc IH Hp Hid Hn Hne Hsep H1 D1 D2 D3]; intros Hf.
  - constructor.
  - apply (ctx_mid m' root H path h id lo hi L R F p seps1 k c seps2 right lo' mid); auto.
    + apply IH. intros. apply Hf. sets.
    + rewrite Hf by sets. done.
    + apply (segs_frame m); [done|]. intros. apply Hf. sets.
    + apply (segs_frame m); [done|]. intros. apply Hf. sets.
    + apply (tree_frame m); [done|]. intros. apply Hf. sets.
  - apply (ctx_last m' root H path h id lo hi L R F p seps); auto.
    + apply IH. intros. apply Hf. sets.
    + rewrite Hf by sets. done.
    + apply (segs_frame m); [done|]. intros. apply Hf. sets.
Qed.

(** Filling the hole gives the whole tree. *)
Lemma ctx_plug m root H path h id lo hi L R F ls Fh :
  ctx m root H path h id lo hi L R F -> tree m h lo hi id ls Fh -> F ## Fh ->
  tree m H None None root (L ++ ls ++ R) (F ∪ Fh).
Proof.
  intros Hc. revert ls Fh.
  induction Hc as [|path h id lo hi L R F p seps1 k c seps2 right lo' mid ls1 F1 ls2 F2 ls3 F3
      Hc IH Hp Hid Hn Hsep H1 H2 H3 D1 D2 D3 D4 D5 D6 D7 D8 D9 D10
    |path h id lo hi L R F p seps c lo' ls1 F1 Hc IH Hp Hid Hn Hne Hsep H1 D1 D2 D3];
    intros ls Fh Ht D.
  - rewrite (left_id_L ∅ (∪)), app_nil_r. done.
  - assert (T : tree m (S h) lo hi id ((ls1 ++ (ls ++ ls2)) ++ ls3)
      ({[id]} ∪ ((F1 ∪ (Fh ∪ F2)) ∪ F3))).
    { apply (tree_node m h lo mid hi id p (seps1 ++ (k, c) :: seps2) right);
        [done|done|done| |done| |done|disj|done|disj].
      - by destruct seps1.
      - apply (segs_app m h lo seps1 lo'); [done| |disj].
        constructor; [done|done|disj]. }
    apply IH in T; [|disj].
    replace ((L ++ ls1) ++ ls ++ ls2 ++ ls3 ++ R)
      with (L ++ ((ls1 ++ (ls ++ ls2)) ++ ls3) ++ R) by (by rewrite <-!app_assoc).
    replace (F ∪ {[id]} ∪ F1 ∪ F2 ∪ F3 ∪ Fh) with (F ∪ ({[id]} ∪ ((F1 ∪ (Fh ∪ F2)) ∪ F3)));
      [done|clear; set_solver].
  - assert (T : tree m (S h) lo hi id (ls1 ++ ls) ({[id]} ∪ (F1 ∪ Fh))).
    { apply (tree_node m h lo lo' hi id p seps c);
        [done|done|done|done|done|done|done|done|disj|disj]. }
    apply IH in T; [|disj].
    replace ((L ++ ls1) ++ ls ++ R) with (L ++ (ls1 ++ ls) ++ R) by (by rewrite <-!app_assoc).
    replace (F ∪ {[id]} ∪ F1 ∪ Fh) with (F ∪ ({[id]} ∪ (F1 ∪ Fh)));
      [done|clear; set_solver].
Qed.

(** ** Descending *)

Lemma segs_child m h lo seps mid ls F right key :
  segs m h lo seps mid ls F -> above lo key ->
  (exists seps1 k c seps2 lo' lsa Fa lsb Fb lsc Fc,
     seps = seps1 ++ (k, c) :: seps2 /\ child_for seps right key = c /\
     segs m h lo seps1 lo' lsa Fa /\ tree m h lo' (Some k) c lsb Fb /\
     segs m h (Some k) seps2 mid lsc Fc /\ ls = lsa ++ lsb ++ lsc /\ F = Fa ∪ (Fb ∪ Fc) /\
     Fa ## Fb /\ Fa ## Fc /\ Fb ## Fc /\ above lo' key /\ blt key k) \/
  (child_for seps right key = right /\ above mid key).
Proof.
  induction 1 as [|h lo k c seps hi ls1 F1 ls2 F2 Ht Hs IH D]; intros Ha; [by right|].
  cbn [child_for]. case_bool_decide as Hk.
  - left. exists [], k, c, seps, lo, [], ∅, ls1, F1, ls2, F2.
    split_and!; try done; try disj; [apply segs_nil|by rewrite (left_id_L ∅ (∪))].
  - destruct (IH Hk) as [(s1 & k' & c' & s2 & lo' & lsa & Fa & lsb & Fb & lsc & Fc & -> & E & H1 & H2
      & H3 & -> & -> & D1 & D2 & D3 & Ha' & Hk')|[E Ha']]; [left|right; done].
    exists ((k, c) :: s1), k', c', s2, lo', (ls1 ++ lsa), (F1 ∪ Fa), lsb, Fb, lsc, Fc.
    split_and!; try done; try disj.
    + constructor; [done|done|disj].
    + by rewrite <-!app_assoc.
    + clear; set_solver.
Qed.

Lemma ctx_descend m root H path h id lo hi L R F ls Fh key :
  ctx m root H path (S h) id lo hi L R F -> tree m (S h) lo hi id ls Fh -> F ## Fh ->
  above lo key -> below key hi ->
  exists p seps right c lo' hi' L' R' F' ls' Fc,
    m !! id = Some p /\ node_at p id seps right /\ child_for seps right key = c /\
    ctx m root H (path ++ [id]) h c lo' hi' L' R' F' /\ tree m h lo' hi' c ls' Fc /\ F' ## Fc /\
    L ++ ls ++ R = L' ++ ls' ++ R' /\ F ∪ Fh = F' ∪ Fc /\ above lo' key /\ below key hi'.
Proof.
  intros Hc Ht D Ha Hb.
  inversion Ht as [|h' lo1 mid hi1 id1 p seps right ls1 F1 ls2 F2 Hp Hid Hn Hne Hsep H1 H2 D1 D2 D3]; subst.
  destruct (segs_child m h lo seps mid ls1 F1 right key H1 Ha)
    as [(s1 & k & c & s2 & lo' & lsa & Fa & lsb & Fb & lsc & Fc & -> & E & S1 & T1
      & S2 & -> & -> & D4 & D5 & D6 & Ha' & Hk)|[E Ha']].
  - exists p, (s1 ++ (k, c) :: s2), right, c, lo', (Some k), (L ++ lsa), (lsc ++ ls2 ++ R),
      (F ∪ {[id]} ∪ Fa ∪ Fc ∪ F2), lsb, Fb. split_and!; try done.
    + apply (ctx_mid m root H path h id lo hi L R F p s1 k c s2 right lo' mid lsa Fa lsc Fc ls2 F2);
        done || disj.
    + disj.
    + by rewrite <-!app_assoc.
    + clear; set_solver.
  - exists p, seps, right, right, mid, hi, (L ++ ls1), R, (F ∪ {[id]} ∪ F1), ls2, F2.
    split_and!; try done.
    + apply (ctx_last m root H path h id lo hi L R F p seps right mid); done || disj.
    + disj.
    + by rewrite <-!app_assoc.
    + clear; set_solver.
Qed.

(** ** The leaves *)

(** What the tree knows of each of its leaves *)
Definition leaf_ok (m : gmap Z bytes) (l : leaf) : Prop :=
  (exists p, m !! lf_id l = Some p /\ leaf_at p l) /\ page_number (lf_id l) /\
  lf_entries l <> [] /\ StronglySorted blt (lf_entries l).*1 /\ Forall entry_fits (lf_entries l).

Lemma tree_segs_leaves m :
  (forall h lo hi id ls F, tree m h lo hi id ls F ->
     Forall (leaf_ok m) ls /\ ls <> [] /\ Forall (fun l => lf_id l ∈ F) ls /\ page_number id) /\
  (forall h lo seps hi ls F, segs m h lo seps hi ls F ->
     Forall (leaf_ok m) ls /\ Forall (fun l => lf_id l ∈ F) ls).
Proof.
  apply tree_segs_ind.
  - intros lo hi p l Hp Hid Hl Hne Hs Hf. split_and!; [|done| |done].
    + constructor; [|constructor]. split_and!; eauto. eapply Forall_impl; [exact Hf|]. by intros ? (_ & _ & ?).
    + constructor; [|constructor]. by apply elem_of_singleton.
  - intros h lo mid hi id p seps right ls1 F1 ls2 F2 _ Hid _ _ _ _ (A1 & A2) _ (B1 & B2 & B3 & _) _ _ _.
    split_and!; [by apply Forall_app|by destruct ls1| |done]. apply Forall_app. split.
    + eapply Forall_impl; [exact A2|]. cbn. intros l Hl. sets.
    + eapply Forall_impl; [exact B3|]. cbn. intros l Hl. sets.
  - intros. split; constructor.
  - intros h lo k c seps hi ls1 F1 ls2 F2 _ (A1 & _ & A2 & _) _ (B1 & B2) _.
    split; [by apply Forall_app|]. apply Forall_app. split.
    + eapply Forall_impl; [exact A2|]. cbn. intros l Hl. sets.
    + eapply Forall_impl; [exact B2|]. cbn. intros l Hl. sets.
Qed.

Lemma tree_leaves m h lo hi id ls F :
  tree m h lo hi id ls F -> Forall (leaf_ok m) ls /\ ls <> [].
Proof. intros Ht. by destruct (proj1 (tree_segs_leaves m) _ _ _ _ _ _ Ht) as (? & ? & _). Qed.

Lemma tree_leaf_ids m h lo hi id ls F :
  tree m h lo hi id ls F -> Forall (fun l => lf_id l ∈ F) ls.
Proof. intros Ht. by destruct (proj1 (tree_segs_leaves m) _ _ _ _ _ _ Ht) as (_ & _ & ? & _). Qed.

Lemma tree_root_number m h lo hi id ls F : tree m h lo hi id ls F -> page_number id.
Proof. intros Ht. by destruct (proj1 (tree_segs_leaves m) _ _ _ _ _ _ Ht) as (_ & _ & _ & ?). Qed.

(** The keys left of the hole are below its range, those right of it above. *)
Lemma ctx_ranges m root H path h id lo hi L R F :
  ctx m root H path h id lo hi L R F ->
  (forall e x, e ∈ contents L -> above lo x -> blt e.1 x) /\
  (forall e x, e ∈ contents R -> below x hi -> blt x e.1).
Proof.
  assert (Hseg : forall m h lo seps hi ls F e x,
    segs m h lo seps hi ls F -> e ∈ contents ls -> above hi x -> blt e.1 x).
  { intros m' h' lo' seps hi' ls F' e x Hs He Hx.
    destruct (proj2 (tree_segs_range m') _ _ _ _ _ _ Hs) as (Hr & _).
    rewrite Forall_forall in Hr. destruct (Hr e He) as (_ & Hb & _).
    destruct seps as [|s seps]; [inversion Hs; subst; by apply elem_of_nil in He|].
    destruct (segs_hi_some _ _ _ _ _ _ _ Hs) as (b & -> & _); [done|]. cbn in *.
    apply not_blt_cases in Hx as [->|?]; [done|]. by apply (blt_trans _ b). }
  induction 1 as [|path h id lo hi L R F p seps1 k c seps2 right lo' mid ls1 F1 ls2 F2 ls3 F3
      Hc [IHL IHR] Hp Hid Hn Hsep H1 H2 H3 D1 D2 D3 D4 D5 D6 D7 D8 D9 D10
    |path h id lo hi L R F p seps c lo' ls1 F1 Hc [IHL IHR] Hp Hid Hn Hne Hsep H1 D1 D2 D3].
  - split; intros e x He; by apply elem_of_nil in He.
  - destruct (proj2 (tree_segs_range m) _ _ _ _ _ _ H1) as (_ & Hlo & _).
    destruct (proj2 (tree_segs_range m) _ _ _ _ _ _ H2) as (R2 & Hlo2 & Hhi2).
    destruct (tree_range _ _ _ _ _ _ _ H3) as [R3 _].
    destruct (tree_inhabited _ _ _ _ _ _ _ H3) as (y & Hya & Hyb).
    assert (Hk : forall x z, blt x k -> above (Some k) z -> blt x z).
    { cbn. intros x z Hx Hz. apply not_blt_cases in Hz as [->|?]; [done|]. by apply (blt_trans _ k). }
    split; intros e x; rewrite !contents_app, ?elem_of_app.
    + intros [He|He] Hx; [by apply IHL; auto|]. by apply (Hseg _ _ _ _ _ _ _ e x H1).
    + rewrite Forall_forall in R2, R3. cbn [below].
      intros [He|[He|He]] Hx.
      * destruct (R2 e He) as (A & _). by apply Hk.
      * destruct (R3 e He) as (A & _). apply Hk; [done|by apply Hlo2].
      * apply IHR; [done|]. apply (below_trans x y); [|done]. apply Hk; [done|by apply Hlo2].
  - destruct (proj2 (tree_segs_range m) _ _ _ _ _ _ H1) as (_ & Hlo & _).
    split; [|done]. intros e x. rewrite !contents_app, elem_of_app.
    intros [He|He] Hx; [by apply IHL; auto|]. by apply (Hseg _ _ _ _ _ _ _ e x H1).
Qed.

(** ** The height of a tree

    A tree of height [h] has at least [2 ^ h] pages, all of them with different
    32-bit numbers. *)

Lemma tree_segs_size m :
  (forall h lo hi id ls F, tree m h lo hi id ls F ->
     (2 ^ h <= size F)%nat /\ (forall x, x ∈ F -> page_number x)) /\
  (forall h lo seps hi ls F, segs m h lo seps hi ls F ->
     (length seps * 2 ^ h <= size F)%nat /\ (forall x, x ∈ F -> page_number x)).
Proof.
  apply tree_segs_ind.
  - intros lo hi p l _ Hid _ _ _ _. split; [by rewrite size_singleton|]. by intros x ->%elem_of_singleton.
  - intros h lo mid hi id p seps right ls1 F1 ls2 F2 _ Hid _ Hne _ _ [S1 N1] _ [S2 N2] D1 D2 D3. split.
    + assert (1 <= length seps)%nat by (destruct seps; cbn; [done|lia]).
      rewrite size_union by disj. rewrite size_union by disj. cbn [Nat.pow].
      assert (2 ^ h <= length seps * 2 ^ h)%nat by nia. lia.
    + intros x [->%elem_of_singleton|[?|?]%elem_of_union]%elem_of_union; auto.
  - intros. split; [by rewrite size_empty|]. intros x []%not_elem_of_empty.
  - intros h lo k c seps hi ls1 F1 ls2 F2 _ [S1 N1] _ [S2 N2] D. split.
    + rewrite size_union by disj. cbn [length Nat.mul]. lia.
    + intros x [?|?]%elem_of_union; auto.
Qed.

Lemma size_bounded (F : gset Z) n : 0 <= n -> (forall x, x ∈ F -> 0 <= x < n) -> Z.of_nat (size F) <= n.
Proof.
  intros H0 HF. assert (Hsub : F ⊆ list_to_set (seqZ 0 n)).
  { intros x Hx. apply elem_of_list_to_set, elem_of_seqZ. specialize (HF x Hx). lia. }
  apply subseteq_size in Hsub. rewrite size_list_to_set in Hsub by apply NoDup_seqZ.
  rewrite length_seqZ in Hsub. lia.
Qed.

Lemma tree_height m h lo hi id ls F : tree m h lo hi id ls F -> (h < 33)%nat.
Proof.
  intros Ht. destruct (proj1 (tree_segs_size m) _ _ _ _ _ _ Ht) as [Hs Hn].
  assert (Hle : Z.of_nat (size F) <= 2 ^ 32).
  { apply size_bounded; [lia|]. intros x Hx. by destruct (Hn x Hx) as [_ Hu]. }
  destruct (Nat.lt_ge_cases h 33) as [|Hge]; [done|exfalso].
  assert (Hp : 2 ^ 33 <= 2 ^ Z.of_nat h) by (apply Z.pow_le_mono_r; lia).
  apply Nat2Z.inj_le in Hs. rewrite Nat2Z.inj_pow in Hs. change (Z.of_nat 2) with 2 in Hs. lia.
Qed.

End tree.

(** ** Pages written again *)

Lemma area_resealed base p q cells :
  32 <= base -> resealed p q -> area base p cells -> area base q cells.
Proof.
  intros Hb (L & B & Hf) Ha. apply (area_ext base p); auto.
  - lia.
  - rewrite L. apply Ha.
  - apply B, Ha.
  - apply Hf; lia.
  - intros. apply Hf; lia.
Qed.

Lemma leaf_rep_resealed p q kvs : resealed p q -> leaf_rep p kvs -> leaf_rep q kvs.
Proof.
  intros Hr [Ha Hc]. split; [by apply (area_resealed 40 p); [lia|..]|].
  by rewrite (resealed_cell_count p q).
Qed.

Lemma leaf_at_resealed p q l : resealed p q -> leaf_at p l -> leaf_at q l.
Proof.
  intros Hr (H1 & H2 & H3 & H4 & H5). split_and!.
  - by rewrite (resealed_page_type p q).
  - by rewrite (resealed_page_id p q).
  - rewrite (resealed_u32 p q); [done|done|done|by right].
  - unfold read_next_leaf in *. rewrite (resealed_u32 p q); [done|done|done|by right].
  - by apply (leaf_rep_resealed p).
Qed.

Lemma node_at_resealed p q id seps right :
  resealed p q -> node_at p id seps right -> node_at q id seps right.
Proof.
  intros Hr (H1 & H2 & (Ha & Hc & Hr' & Hs) & Hpk). split_and!.
  - by rewrite (resealed_page_type p q).
  - by rewrite (resealed_page_id p q).
  - split_and!; [by apply (area_resealed 32 p); [lia|..]|by rewrite (resealed_cell_count p q)
      |by rewrite (resealed_right_child p q)|done].
  - unfold interior_packed. by rewrite (resealed_free_end p q).
Qed.

Lemma leaf_at_len p l : leaf_at p l -> zlen p = PAGE_SIZE.
Proof. intros (_ & _ & _ & _ & Hr). by apply leaf_rep_len in Hr. Qed.

Lemma node_at_len p id seps right : node_at p id seps right -> zlen p = PAGE_SIZE.
Proof. intros (_ & _ & Hr & _). by apply interior_rep_len in Hr. Qed.

(** ** The chain of leaves *)

Definition first_id (ls : list leaf) (next : Z) : Z :=
  match ls with [] => next | l :: _ => lf_id l end.
Definition last_id (prev : Z) (ls : list leaf) : Z :=
  match last ls with Some l => lf_id l | None => prev end.

(** Each leaf points to its neighbours; [prev] and [next] are those of the ends. *)
Fixpoint linked (prev : Z) (ls : list leaf) (next : Z) : Prop :=
  match ls with
  | [] => True
  | l :: rest =>
      lf_prev l = prev /\ lf_next l = first_id rest next /\ linked (lf_id l) rest next
  end.

Lemma first_id_app l1 l2 next : first_id (l1 ++ l2) next = first_id l1 (first_id l2 next).
Proof. by destruct l1. Qed.

Lemma last_id_cons prev l ls : last_id prev (l :: ls) = last_id (lf_id l) ls.
Proof.
  unfold last_id. destruct ls as [|l' ls]; [done|]. change (last (l :: l' :: ls)) with (last (l' :: ls)).
  destruct (last (l' :: ls)) eqn:E; [done|]. by apply last_None in E.
Qed.

Lemma last_id_app prev l1 l2 : last_id prev (l1 ++ l2) = last_id (last_id prev l1) l2.
Proof.
  revert prev. induction l1 as [|l l1 IH]; intros prev; [done|]. cbn [app].
  by rewrite !last_id_cons, IH.
Qed.

Lemma linked_app prev l1 l2 next :
  linked prev (l1 ++ l2) next <->
  linked prev l1 (first_id l2 next) /\ linked (last_id prev l1) l2 next.
Proof.
  revert prev. induction l1 as [|l l1 IH]; intros prev; cbn [app linked].
  - split; [done|by intros [_ ?]].
  - rewrite last_id_cons, IH, first_id_app. naive_solver.
Qed.

