(* ===== verification/BTreeRead.v ===== *)
(** * Lookups in a B+ tree

    The invariant of a tree, the descent to a leaf and the lookup, proved against
    the laws of the page store. *)

From S2P Require Import Prelude FileFormat Page PageStore Overflow ValueLayout Slots Leaf Interior BTree Tree.
From Stdlib Require Import ZArith Lia.

Section laws.
Context {S : Type} `{HS : PageStore S} `{!PageStoreLaws S}.
Context (crc32 : bytes -> Z).
Context (lz4_compress : bytes -> bytes) (lz4_decompress : bytes -> Z -> string + bytes).
Context (fuel : nat) (K : key_sizes).
Implicit Types t : BTree S.

(** The pages of the tree's store *)
Definition view t : gmap Z bytes := pages (pager t).

(** Nothing but the position of a cache has changed. *)
Record unchanged t t' : Prop := {
  same_pages : view t' = view t;
  same_root : root_page_id t' = root_page_id t;
  same_cache : rightmost_leaf t' = rightmost_leaf t;
  same_room : forall n, room (pager t) n -> room (pager t') n;
}.

#[export] Instance unchanged_preorder : PreOrder unchanged.
Proof.
  split; [by split|]. intros t1 t2 t3 [A1 A2 A3 A4] [B1 B2 B3 B4]. split; [congruence..|auto].
Qed.

(** The page [id] is written: [q] is the page that is stored for [p]. *)
Record written t t' (id : Z) (p q : bytes) : Prop := {
  written_pages : view t' = <[id := q]> (view t);
  written_seal : resealed p q;
  written_root : root_page_id t' = root_page_id t;
  written_cache : rightmost_leaf t' = rightmost_leaf t;
  written_room : forall n, room (pager t) n -> room (pager t') n;
}.

Lemma bt_read_ok t id p :
  view t !! id = Some p -> exists t', bt_read id t = (t', Ok p) /\ unchanged t t'.
Proof.
  intros E. destruct (read_page_ok (pager t) id p E) as (s' & E' & Hp & _ & Hr).
  exists (set_pager s' t). split; [by apply within_ok|by split].
Qed.

Lemma bt_write_owned t id p :
  id ∈ owned (pager t) -> zlen p = PAGE_SIZE -> page_id p = id ->
  exists t' q, bt_write id p t = (t', Ok tt) /\ written t t' id p q.
Proof.
  intros Hi Hl Hid. destruct (write_page_ok (pager t) id p Hi Hl Hid) as (s' & q & E' & Hp & _ & Hq & Hr).
  exists (set_pager s' t), q. split; [by apply within_ok|by split].
Qed.

Lemma bt_write_ok t id p :
  is_Some (view t !! id) -> zlen p = PAGE_SIZE -> page_id p = id ->
  exists t' q, bt_write id p t = (t', Ok tt) /\ written t t' id p q.
Proof. intros [p0 E]. apply bt_write_owned. by eapply pages_owned. Qed.

(** An allocated page is there to be written; the pages the tree can see stay. *)
Lemma bt_allocate_ok t ty n :
  room (pager t) (Datatypes.S n) ->
  exists t' id, bt_allocate ty t = (t', Ok (Page_new ty id)) /\
    view t !! id = None /\ page_number id /\ id ∈ owned (pager t') /\ (forall j, j <> id -> view t' !! j = view t !! j) /\
    root_page_id t' = root_page_id t /\ rightmost_leaf t' = rightmost_leaf t /\ room (pager t') n.
Proof.
  intros Hr. destruct (allocate_page_ok (pager t) ty n Hr) as (s' & id & E & Hn & H0 & Hu & Ho & Hp & Hr').
  exists (set_pager s' t), id. split; [by apply within_ok|]. split_and!; [by apply not_owned|by split| |done|done|done|done].
  cbn. rewrite Ho. clear. set_solver.
Qed.

(** Writing it makes it a new page of the store. *)
Lemma fresh_written t t1 t2 id p q :
  (forall j, j <> id -> view t1 !! j = view t !! j) -> written t1 t2 id p q -> view t2 = <[id := q]> (view t).
Proof.
  intros Hj W. rewrite (written_pages _ _ _ _ _ W). apply map_eq. intros j. destruct (decide (j = id)) as [->|Hne].
  - by rewrite !lookup_insert_eq.
  - rewrite !lookup_insert_ne by done. by apply Hj.
Qed.

Lemma type_of_ok t p ty : page_type p = Ok ty -> type_of p t = (t, Ok ty).
Proof. intros E. unfold type_of, lift. by rewrite E. Qed.

(** ** The descent *)

(** A leaf in its place in the tree *)
Record found (m : gmap Z bytes) (root : Z) (H : nat) (path : list Z) (l : leaf) (lo hi : option bytes)
    (L R : list leaf) (F : gset Z) (key : bytes) : Prop := {
  found_ctx : ctx K m root H path 0 (lf_id l) lo hi L R F;
  found_leaf : tree K m 0 lo hi (lf_id l) [l] {[lf_id l]};
  found_out : lf_id l ∉ F;
  found_above : above lo key;
  found_below : below key hi;
}.

Lemma find_leaf_loop_ok n t root H path h id lo hi L R F ls Fh key :
  ctx K (view t) root H path h id lo hi L R F -> tree K (view t) h lo hi id ls Fh -> F ## Fh ->
  above lo key -> below key hi -> (h < n)%nat ->
  exists t' l path' lo' hi' L' R' F',
    find_leaf_loop n id path key t = (t', Ok (lf_id l, path')) /\ unchanged t t' /\
    found (view t) root H path' l lo' hi' L' R' F' key /\
    L ++ ls ++ R = L' ++ l :: R' /\ F ∪ Fh = F' ∪ {[lf_id l]}.
Proof.
  revert t path h id lo hi L R F ls Fh.
  induction n as [|n IH]; intros t path h id lo hi L R F ls Fh Hc Ht D Ha Hb Hn; [lia|].
  cbn [find_leaf_loop]. destruct h as [|h].
  - inversion Ht as [lo0 hi0 p l Hp Hid Hl Hne Hs Hf|]; subst.
    destruct (bt_read_ok t _ _ Hp) as (t' & E & U).
    rewrite (eff_bind_ok _ _ _ _ _ E). rewrite (eff_bind_ok _ _ _ _ _ (type_of_ok _ _ _ (proj1 Hl))).
    exists t', l, path, lo, hi, L, R, F. split_and!; try done.
    split; [done|done|by disj_norm|done|done].
  - destruct (ctx_descend K (view t) root H path h id lo hi L R F ls Fh key Hc Ht D Ha Hb)
      as (p & seps & right & c & lo' & hi' & L' & R' & F' & ls' & Fc & Hp & Hnode & Hch & Hc' & Ht'
        & D' & EL & EF & Ha' & Hb').
    destruct (bt_read_ok t _ _ Hp) as (t' & E & U).
    rewrite (eff_bind_ok _ _ _ _ _ E).
    rewrite (eff_bind_ok _ _ _ _ _ (type_of_ok _ _ _ (proj1 Hnode))).
    rewrite (eff_bind_lift _ _ _ _ (find_child_spec p seps right key (proj1 (proj2 (proj2 Hnode))))), Hch.
    pose proof (same_pages _ _ U) as Ev. rewrite <-Ev in Hc', Ht'.
    destruct (IH t' (path ++ [id]) h c lo' hi' L' R' F' ls' Fc Hc' Ht' D' Ha' Hb')
      as (t2 & l & path2 & lo2 & hi2 & L2 & R2 & F2 & E2 & U2 & Hfd & EL2 & EF2); [lia|].
    rewrite Ev in Hfd. exists t2, l, path2, lo2, hi2, L2, R2, F2.
    split_and!; [done|by etrans|done|congruence|congruence].
Qed.

Lemma find_leaf_ok t root H ls F key :
  tree K (view t) H None None root ls F ->
  exists t' l path lo hi L R F',
    find_leaf root key t = (t', Ok (lf_id l, path)) /\ unchanged t t' /\
    found (view t) root H path l lo hi L R F' key /\ ls = L ++ l :: R /\ F = F' ∪ {[lf_id l]}.
Proof.
  intros Ht. pose proof (tree_height _ _ _ _ _ _ _ _ Ht).
  destruct (find_leaf_loop_ok MAX_DEPTH t root H [] H root None None [] [] ∅ ls F key)
    as (t' & l & path & lo & hi & L & R & F' & E & U & Hf & EL & EF);
    [constructor|done|disj|done|done|unfold MAX_DEPTH; lia|].
  rewrite app_nil_r in EL. rewrite (left_id_L ∅ (∪)) in EF.
  by exists t', l, path, lo, hi, L, R, F'.
Qed.

(** ** The invariant *)

(** The cached leaf is the last one, with its last key. *)
Definition cache_ok (cache : option (Z * bytes)) (ls : list leaf) : Prop :=
  match cache with
  | None => True
  | Some (id, high) => exists l, last ls = Some l /\ lf_id l = id /\ last (lf_entries l).*1 = Some high
  end.

(** The tree [t] has the leaves [ls] and owns the pages [F]. *)
Inductive btree_ok t : list leaf -> gset Z -> Prop :=
| btree_empty : root_page_id t = 0 -> rightmost_leaf t = None -> btree_ok t [] ∅
| btree_root H ls F :
    tree K (view t) H None None (root_page_id t) ls F -> linked 0 ls 0 ->
    cache_ok (rightmost_leaf t) ls -> btree_ok t ls F.

Lemma btree_ok_unchanged t t' ls F : unchanged t t' -> btree_ok t ls F -> btree_ok t' ls F.
Proof.
  intros [A1 A2 A3 _] [H1 H2|H ls' F' H1 H2 H3].
  - constructor; congruence.
  - apply (btree_root t' H); [by rewrite A1, A2|done|by rewrite A3].
Qed.

Lemma btree_ok_sorted t ls F : btree_ok t ls F -> StronglySorted blt (contents ls).*1.
Proof. intros [H1 H2|H ls' F' H1 H2 H3]; [constructor|by eapply tree_sorted]. Qed.

(** The entries [es] of the leaves hold the key-value pairs [kvs], with the overflow
    pages [G]. *)
Inductive held (m : gmap Z bytes) : list entry -> list (bytes * bytes) -> gset Z -> Prop :=
| held_nil : held m [] [] ∅
| held_cons k stored es v ids kvs G :
    value_at lz4_decompress m stored v ids -> zlen v <= BTREE_VALUE_MAX_SIZE ->
    (length ids <= fuel)%nat -> held m es kvs G -> list_to_set ids ## G ->
    held m ((k, stored) :: es) ((k, v) :: kvs) (list_to_set ids ∪ G).

(** The tree is a map from keys to values. *)
Definition represents t (M : gmap bytes bytes) : Prop :=
  exists ls F kvs G, btree_ok t ls F /\ held (view t) (contents ls) kvs G /\ F ## G /\
    M = list_to_map kvs.

Lemma held_keys m es kvs G : held m es kvs G -> kvs.*1 = es.*1.
Proof. induction 1; cbn; congruence. Qed.

Lemma held_kept m m' es kvs G :
  held m es kvs G -> (forall x, x ∈ G -> m' !! x = m !! x) -> held m' es kvs G.
Proof.
  induction 1 as [|k stored es v ids kvs G Hv Hl Hf Hh IH D]; intros Hfr; [constructor|].
  constructor; auto.
  - eapply value_at_frame; [done|]. intros x Hx. apply Hfr. apply elem_of_union_l. by apply elem_of_list_to_set.
  - apply IH. intros x Hx. apply Hfr. by apply elem_of_union_r.
Qed.

Lemma held_lookup m es kvs G i k stored :
  held m es kvs G -> es !! i = Some (k, stored) ->
  exists v ids, kvs !! i = Some (k, v) /\ value_at lz4_decompress m stored v ids /\
    zlen v <= BTREE_VALUE_MAX_SIZE /\ (length ids <= fuel)%nat.
Proof.
  intros Hh. revert i. induction Hh as [|k' st es v ids kvs G Hv Hl Hf Hh IH D]; intros i Hi; [done|].
  destruct i as [|i]; [|by apply IH]. injection Hi as -> ->. by exists v, ids.
Qed.

Lemma held_app m es1 es2 kvs1 kvs2 G1 G2 :
  held m es1 kvs1 G1 -> held m es2 kvs2 G2 -> G1 ## G2 -> held m (es1 ++ es2) (kvs1 ++ kvs2) (G1 ∪ G2).
Proof.
  intros H1 H2. induction H1 as [|k stored es v ids kvs G Hv Hl Hf Hh IH D]; intros D2; cbn.
  - by rewrite (left_id_L ∅ (∪)).
  - rewrite <-(assoc_L (∪)). constructor; [done..| |disj]. apply IH. disj.
Qed.

Lemma held_app_inv m es1 es2 kvs G :
  held m (es1 ++ es2) kvs G ->
  exists kvs1 kvs2 G1 G2, kvs = kvs1 ++ kvs2 /\ G = G1 ∪ G2 /\ G1 ## G2 /\
    held m es1 kvs1 G1 /\ held m es2 kvs2 G2.
Proof.
  revert kvs G. induction es1 as [|[k stored] es1 IH]; intros kvs G Hh; cbn in Hh.
  - exists [], kvs, ∅, G. split_and!; [done|by rewrite (left_id_L ∅ (∪))|disj|constructor|done].
  - inversion Hh as [|k' st es v ids kvs' G' Hv Hl Hf Hh' D]; subst.
    destruct (IH _ _ Hh') as (kvs1 & kvs2 & G1 & G2 & -> & -> & D' & H1 & H2).
    exists ((k, v) :: kvs1), kvs2, (list_to_set ids ∪ G1), G2.
    split_and!; [done|by rewrite (assoc_L (∪))|disj| |done]. constructor; [done..|disj].
Qed.

(** The pairs of the three parts, of which only the middle one can have the key *)
Lemma lookup_middle (A B C : list (bytes * bytes)) key :
  key ∉ A.*1 -> key ∉ C.*1 ->
  (list_to_map (A ++ B ++ C) : gmap bytes bytes) !! key = (list_to_map B : gmap bytes bytes) !! key.
Proof.
  intros HA HC. rewrite !list_to_map_app, !lookup_union.
  rewrite (not_elem_of_list_to_map_1 A key HA), (not_elem_of_list_to_map_1 C key HC).
  by rewrite (left_id_L None (∪)), (right_id_L None (∪)).
Qed.

(** ** Lookup *)

Lemma leaf_high_key_ok p kvs : leaf_rep p kvs -> leaf_high_key p = Ok (last kvs.*1).
Proof.
  intros Hr. unfold leaf_high_key. rewrite (proj2 Hr).
  destruct kvs as [|e kvs _] using rev_ind; [done|]. rewrite zlen_app. change (zlen [e]) with 1.
  pose proof (zlen_nonneg kvs). rewrite (proj2 (Z.eqb_neq _ _)) by lia.
  replace (zlen kvs + 1 - 1) with (Z.of_nat (length kvs)) by (unfold zlen; lia).
  rewrite (leaf_rep_read p _ (length kvs) e Hr) by (by rewrite list_lookup_middle).
  destruct e as [k v]. cbn [mbind result_bind]. rewrite fmap_app. cbn. by rewrite last_snoc.
Qed.

(** The right link is followed when the key lies beyond the last key of the page. *)
Definition beyond_spec (l : leaf) (key : bytes) : option Z :=
  if negb (lf_next l =? 0) then
    match last (lf_entries l).*1 with
    | Some high => if bool_decide (blt high key) then Some (lf_next l) else None
    | None => None
    end
  else None.

Lemma beyond_ok t p l key : leaf_at p l -> beyond p key t = (t, Ok (beyond_spec l key)).
Proof.
  intros (_ & _ & _ & Hn & Hr). unfold beyond, beyond_spec, leaf_right_sibling. rewrite Hn.
  destruct (negb (lf_next l =? 0)); [|done].
  rewrite (eff_bind_lift _ _ _ _ (leaf_high_key_ok _ _ Hr)). done.
Qed.

(** A key of the tree is in the leaf the descent finds. *)
Lemma found_keys m root H path l lo hi L R F key :
  found m root H path l lo hi L R F key ->
  Forall (fun e => blt e.1 key) (contents L) /\ Forall (fun e => blt key e.1) (contents R).
Proof.
  intros [Hc Ht Ho Ha Hb]. destruct (ctx_ranges _ _ _ _ _ _ _ _ _ _ _ _ Hc) as [HL HR].
  split; apply Forall_forall; auto.
Qed.

Lemma contents_middle L l R : contents (L ++ l :: R) = contents L ++ lf_entries l ++ contents R.
Proof. unfold contents. by rewrite map_app, concat_app. Qed.

Lemma found_not_in m root H path l lo hi L R F key :
  found m root H path l lo hi L R F key -> key ∉ (lf_entries l).*1 ->
  key ∉ (contents (L ++ l :: R)).*1.
Proof.
  intros Hfd Hni. destruct (found_keys _ _ _ _ _ _ _ _ _ _ _ Hfd) as [HL HR].
  rewrite contents_middle, !fmap_app, !elem_of_app. rewrite Forall_forall in HL, HR.
  intros [Hin|[Hin|Hin]]; [|done|]; apply list_elem_of_fmap in Hin as (e & -> & He).
  - by apply (blt_irrefl e.1), HL.
  - by apply (blt_irrefl e.1), HR.
Qed.

Lemma bt_decode_ok t stored v ids :
  value_at lz4_decompress (view t) stored v ids -> zlen v <= BTREE_VALUE_MAX_SIZE ->
  (length ids <= fuel)%nat ->
  exists t', bt_decode lz4_decompress fuel stored USIZE_MAX t = (t', Ok v) /\ unchanged t t'.
Proof.
  intros Hv Hl Hf.
  destruct (decode_ok lz4_decompress fuel stored v ids (pager t) Hv Hf Hl) as (s' & Hp & Hr & E).
  exists (set_pager s' t). split; [by apply within_ok|by split].
Qed.

(** One page of the walk: the value is found, or the page does not have the key. *)
Lemma get_hop t n l p key G kvs :
  view t !! lf_id l = Some p -> leaf_at p l -> StronglySorted blt (lf_entries l).*1 ->
  held (view t) (lf_entries l) kvs G ->
  exists t', unchanged t t' /\
    get_hops lz4_decompress fuel (Datatypes.S n) (lf_id l) key USIZE_MAX t =
      match (list_to_map kvs : gmap bytes bytes) !! key with
      | Some v => (t', Ok (Some (Some v)))
      | None =>
          match beyond_spec l key with
          | Some next => get_hops lz4_decompress fuel n next key USIZE_MAX t'
          | None => (t', Ok (Some None))
          end
      end.
Proof.
  intros Hp Hl Hs Hh. cbn [get_hops]. destruct (bt_read_ok t _ _ Hp) as (t1 & E1 & U1).
  rewrite (eff_bind_ok _ _ _ _ _ E1). pose proof (held_keys _ _ _ _ Hh) as Hk.
  destruct (search_leaf_spec p _ key (proj2 (proj2 (proj2 (proj2 Hl)))) Hs)
    as [(i & v & E & Hi)|(c & E & Hc)]; rewrite (eff_bind_lift _ _ _ _ E).
  - rewrite (eff_bind_lift _ _ _ _ (leaf_rep_read _ _ _ _ (proj2 (proj2 (proj2 (proj2 Hl)))) Hi)).
    destruct (held_lookup _ _ _ _ _ _ _ Hh Hi) as (w & ids & Hw & Hv & Hm & Hf).
    rewrite <-(same_pages _ _ U1) in Hv. destruct (bt_decode_ok t1 v w ids Hv Hm Hf) as (t2 & E2 & U2).
    cbn [snd]. rewrite (eff_bind_ok _ _ _ _ _ E2). exists t2. split; [by etrans|].
    rewrite (elem_of_list_to_map_1 kvs key w); [done| |by apply list_elem_of_lookup_2 in Hw].
    rewrite Hk. by apply blt_sorted_NoDup.
  - rewrite (not_elem_of_list_to_map_1 kvs key).
    2:{ rewrite Hk. by eapply insertion_point_not_in. }
    rewrite (eff_bind_ok _ _ _ _ _ (beyond_ok t1 p l key Hl)). exists t1. split; [done|].
    by destruct (beyond_spec l key).
Qed.

(** The next leaf begins behind the key. *)
Lemma beyond_next l2 key :
  Forall (fun e => blt key e.1) (lf_entries l2) -> beyond_spec l2 key = None.
Proof.
  intros Hk. unfold beyond_spec. destruct (negb _); [|done].
  destruct (last (lf_entries l2).*1) as [high|] eqn:E; [|done].
  apply last_Some_elem_of, list_elem_of_fmap in E as (e & -> & He). rewrite Forall_forall in Hk.
  rewrite bool_decide_false; [done|]. intros Hlt. apply (blt_irrefl key).
  eapply blt_trans; [by apply Hk|done].
Qed.

Lemma leaves_ok t H root ls F : tree K (view t) H None None root ls F -> Forall (leaf_ok K (view t)) ls.
Proof. intros Ht. by destruct (tree_leaves _ _ _ _ _ _ _ _ Ht). Qed.

(** The walk from the leaf the descent finds *)
Lemma get_hops_ok t n root H path l lo hi L R F key kvs G :
  found (view t) root H path l lo hi L R F key ->
  Forall (leaf_ok K (view t)) (L ++ l :: R) -> linked 0 (L ++ l :: R) 0 ->
  held (view t) (contents (L ++ l :: R)) kvs G ->
  exists t', unchanged t t' /\ get_hops lz4_decompress fuel (2 + n) (lf_id l) key USIZE_MAX t
    = (t', Ok (Some ((list_to_map kvs : gmap bytes bytes) !! key))).
Proof.
  intros Hfd Hok Hli Hh. destruct (found_keys _ _ _ _ _ _ _ _ _ _ _ Hfd) as [HL HR].
  rewrite contents_middle in Hh.
  apply held_app_inv in Hh as (kA & kBC & GA & GBC & -> & -> & _ & HA & HBC).
  apply held_app_inv in HBC as (kB & kC & GB & GC & -> & -> & _ & HB & HC).
  apply Forall_app in Hok as [_ Hok]. apply Forall_cons in Hok as [Hl HokR].
  rewrite lookup_middle.
  2:{ rewrite (held_keys _ _ _ _ HA). by apply Forall_blt_not_in. }
  2:{ rewrite (held_keys _ _ _ _ HC). by apply Forall_bgt_not_in. }
  destruct Hl as ((p & Hp & Hat) & _ & _ & Hs & _).
  destruct (get_hop t (Datatypes.S n) l p key GB kB Hp Hat Hs HB) as (t1 & U1 & E1). cbn [Nat.add].
  rewrite E1. destruct (list_to_map kB !! key) as [v|] eqn:Ek; [by exists t1|].
  unfold beyond_spec. apply linked_app in Hli as [_ (_ & Hnx & Hli)].
  destruct (negb (lf_next l =? 0)) eqn:En; [|by exists t1].
  destruct (last (lf_entries l).*1) as [high|]; [|by exists t1]. case_bool_decide; [|by exists t1].
  destruct R as [|l2 R]; cbn [first_id] in Hnx; [by rewrite Hnx in En|]. rewrite Hnx.
  apply Forall_cons in HokR as [((p2 & Hp2 & Hat2) & _ & _ & Hs2 & _) _].
  rewrite <-(same_pages _ _ U1) in Hp2, HC. change (contents (l2 :: R)) with (lf_entries l2 ++ contents R) in *.
  apply held_app_inv in HC as (kC1 & kC2 & G1 & G2 & -> & _ & _ & HC1 & _).
  apply Forall_app in HR as [HR _].
  destruct (get_hop t1 n l2 p2 key G1 kC1 Hp2 Hat2 Hs2 HC1) as (t2 & U2 & E2).
  exists t2. rewrite E2, (beyond_next l2 key) by done. split; [by etrans|].
  rewrite (not_elem_of_list_to_map_1 kC1 key); [done|].
  rewrite (held_keys _ _ _ _ HC1). by apply Forall_bgt_not_in.
Qed.

End laws.
