(* ===== verification/Splits.v ===== *)
(** * Splitting the pages of a B+ tree

    The choice of the split point of a leaf, the pages that a split writes, the
    replacement of a subtree by two and the division of an interior page. *)

From S2P Require Import Prelude FileFormat Page PageStore Overflow ValueLayout Slots Leaf Interior BTree Tree.
From Stdlib Require Import ZArith Lia.

(** ** The split point *)

Lemma leaf_entries_size_app es1 es2 :
  leaf_entries_size (es1 ++ es2) = leaf_entries_size es1 + leaf_entries_size es2.
Proof.
  induction es1 as [|e es1 IH]; [done|]. cbn [app]. rewrite !leaf_entries_size_cons, IH. lia.
Qed.

(** [pre ++ post] fits in two pages cut behind [pre]. *)
Definition good_split (capacity : Z) (es : list entry) (mid : Z) : Prop :=
  0 < mid < zlen es /\ leaf_entries_size (take (Z.to_nat mid) es) <= capacity /\
  leaf_entries_size (drop (Z.to_nat mid) es) <= capacity.

Lemma good_split_app capacity pre post :
  pre <> [] -> post <> [] -> leaf_entries_size pre <= capacity -> leaf_entries_size post <= capacity ->
  good_split capacity (pre ++ post) (zlen pre).
Proof.
  intros H1 H2 H3 H4. unfold good_split, zlen. rewrite Nat2Z.id, length_app.
  rewrite take_app_length, drop_app_length. destruct pre, post; cbn [length] in *; split_and!; done || lia.
Qed.

Section best_split.
Context (capacity : Z) (es : list entry).

Lemma best_split_sound rest pre split best m :
  es = pre ++ rest -> (forall i, split = Some i -> good_split capacity es i) ->
  best_split capacity (leaf_entries_size es) rest (zlen pre + 1) (leaf_entries_size pre) split best
    = Some m -> good_split capacity es m.
Proof.
  revert pre split best. induction rest as [|e rest IH]; intros pre split best Ees Hs Hb; [auto|].
  cbn [best_split] in Hb. destruct rest as [|e2 rest]; [auto|].
  assert (Ep : es = (pre ++ [e]) ++ e2 :: rest) by (by rewrite <-app_assoc).
  assert (Ez : zlen pre + 1 = zlen (pre ++ [e])) by (rewrite zlen_app; done).
  assert (El : leaf_entries_size pre + leaf_entry_size e = leaf_entries_size (pre ++ [e])).
  { rewrite leaf_entries_size_app. unfold leaf_entries_size at 3. cbn. lia. }
  rewrite Ez, El in Hb. destruct ((_ <=? _) && _ && _) eqn:Eg; eapply (IH _ _ _ Ep); try exact Hb; [|done].
  intros i [= <-]. apply andb_prop in Eg as [[E1 E2]%andb_prop _]. apply Z.leb_le in E1, E2.
  rewrite Ep. rewrite Ep, leaf_entries_size_app in E2. apply good_split_app; [by destruct pre|done|done|lia].
Qed.

Lemma best_split_complete rest pre split best :
  es = pre ++ rest -> leaf_entries_size es < USIZE_MAX ->
  (split = None -> best = USIZE_MAX /\ exists i, zlen pre < i /\ good_split capacity es i) ->
  best_split capacity (leaf_entries_size es) rest (zlen pre + 1) (leaf_entries_size pre) split best <> None.
Proof.
  revert pre split best. induction rest as [|e rest IH]; intros pre split best Ees Hu Hs.
  { cbn [best_split]. intros ->. destruct Hs as (_ & i & Hi & (Hi2 & _)); [done|]. rewrite Ees, app_nil_r in Hi2. lia. }
  cbn [best_split]. destruct rest as [|e2 rest].
  { intros ->. destruct Hs as (_ & i & Hi & (Hi2 & _)); [done|]. rewrite Ees, zlen_app in Hi2.
    change (zlen [e]) with 1 in Hi2. lia. }
  assert (Ep : es = (pre ++ [e]) ++ e2 :: rest) by (by rewrite <-app_assoc).
  assert (Ez : zlen pre + 1 = zlen (pre ++ [e])) by (rewrite zlen_app; done).
  assert (El : leaf_entries_size pre + leaf_entry_size e = leaf_entries_size (pre ++ [e])).
  { rewrite leaf_entries_size_app. unfold leaf_entries_size at 3. cbn. lia. }
  rewrite Ez, El. destruct ((_ <=? _) && _ && _) eqn:Eg; apply IH; try done. intros ->.
  destruct Hs as (-> & i & Hi & Hg); [done|]. split; [done|]. exists i. split; [|done].
  destruct (Z.eq_dec i (zlen (pre ++ [e]))) as [->|]; [exfalso|lia].
  destruct Hg as (_ & G1 & G2). unfold zlen in G1, G2. rewrite Nat2Z.id in G1, G2.
  rewrite Ep, take_app_length in G1. rewrite Ep, drop_app_length in G2.
  pose proof (leaf_entries_size_nonneg (pre ++ [e])). pose proof (leaf_entries_size_nonneg (e2 :: rest)).
  assert (leaf_entries_size es = leaf_entries_size (pre ++ [e]) + leaf_entries_size (e2 :: rest))
    by (by rewrite Ep, leaf_entries_size_app).
  apply andb_false_iff in Eg as [[E|E]%andb_false_iff|E]; [apply Z.leb_gt in E..|apply Z.ltb_ge in E]; lia.
Qed.

End best_split.

(** The first point at which what follows fits in a page *)
Lemma split_exists capacity es E :
  (2 <= length es)%nat -> Forall (fun e => leaf_entry_size e <= E) es ->
  2 * E <= capacity -> leaf_entries_size es <= capacity + E ->
  exists i, 0 < i /\ good_split capacity es i.
Proof.
  intros Hlen HE Hcap Htot.
  assert (H : forall rest pre, es = pre ++ rest -> pre <> [] -> rest <> [] ->
    leaf_entries_size pre <= 2 * E -> exists i, 0 < i /\ good_split capacity es i).
  { induction rest as [|e rest IH]; intros pre Ep Hne Hr Hpre; [done|].
    destruct (Z.le_gt_cases (leaf_entries_size (e :: rest)) capacity) as [Hfit|Hbig].
    - exists (zlen pre). rewrite Ep. split; [destruct pre; [done|rewrite zlen_cons; pose proof (zlen_nonneg pre); lia]|].
      apply good_split_app; done || lia.
    - assert (He : leaf_entry_size e <= E).
      { rewrite Ep, Forall_app, Forall_cons in HE. apply HE. }
      rewrite Ep, leaf_entries_size_app in Htot. rewrite leaf_entries_size_cons in *.
      apply (IH (pre ++ [e])).
      + by rewrite <-app_assoc.
      + by destruct pre.
      + intros ->. change (leaf_entries_size []) with 0 in *. unfold leaf_entry_size in *.
        pose proof (zlen_nonneg e.1). pose proof (zlen_nonneg e.2). lia.
      + rewrite leaf_entries_size_app, leaf_entries_size_cons. change (leaf_entries_size []) with 0. lia. }
  destruct es as [|e es']; [cbn in Hlen; lia|]. apply Forall_cons in HE as [He _].
  apply (H es' [e]); [done|done|by destruct es'; cbn in Hlen; [lia|]|].
  rewrite leaf_entries_size_cons. change (leaf_entries_size []) with 0. unfold leaf_entry_size in *.
  pose proof (zlen_nonneg e.1). pose proof (zlen_nonneg e.2). lia.
Qed.

(** The search finds a split point when the entries are those of a page and one more. *)
Lemma best_split_ok capacity es E :
  (2 <= length es)%nat -> Forall (fun e => leaf_entry_size e <= E) es ->
  2 * E <= capacity -> leaf_entries_size es <= capacity + E -> capacity + E < USIZE_MAX ->
  exists mid, best_split capacity (leaf_entries_size es) es 1 0 None USIZE_MAX = Some mid /\
    good_split capacity es mid.
Proof.
  intros H1 H2 H3 H4 H5. destruct (split_exists capacity es E H1 H2 H3 H4) as (i & Hi & Hg).
  destruct (best_split capacity (leaf_entries_size es) es 1 0 None USIZE_MAX) as [mid|] eqn:E1.
  - exists mid. split; [done|]. by apply (best_split_sound capacity es es [] None USIZE_MAX).
  - exfalso. revert E1. apply (best_split_complete capacity es es []); [done|lia|].
    intros _. split; [done|]. by exists i.
Qed.

(** ** The pages of a leaf *)

(** The header of a leaf page, whatever cells it holds *)
Record leaf_head (p : bytes) (id prev next : Z) : Prop := {
  head_len : zlen p = 16384;
  head_bytes : Forall byte_ok p;
  head_type : page_type p = Ok BTreeLeaf;
  head_id : page_id p = id;
  head_prev : u32_at p LEAF_PREV_OFFSET = prev;
  head_next : read_next_leaf p = next;
}.

Lemma leaf_at_head p l : leaf_at p l -> leaf_head p (lf_id l) (lf_prev l) (lf_next l).
Proof.
  intros (H1 & H2 & H3 & H4 & H5). split; try done.
  - apply (area_len _ _ _ (proj1 H5)).
  - apply (area_bytes _ _ _ (proj1 H5)).
Qed.

(** New cells under the same header *)
Lemma leaf_at_cells p q id prev next es :
  leaf_head p id prev next -> same_frame 40 p q -> leaf_rep q es ->
  leaf_at q {| lf_id := id; lf_prev := prev; lf_next := next; lf_entries := es |}.
Proof.
  intros [L B T I P N] [_ F] Hr. unfold page_type, paged_page_type, page_id, paged_page_id,
    read_next_leaf, u8_at, u32_at in *. change LEAF_PREV_OFFSET with 32 in *.
  change LEAF_NEXT_OFFSET with 36 in *.
  split_and!; unfold page_type, paged_page_type, page_id, paged_page_id, read_next_leaf, u8_at, u32_at;
    cbn [lf_id lf_prev lf_next lf_entries]; change LEAF_PREV_OFFSET with 32;
    change LEAF_NEXT_OFFSET with 36; rewrite ?F by lia; done.
Qed.

Lemma leaf_head_put p id prev next off v :
  leaf_head p id prev next -> (off = LEAF_PREV_OFFSET \/ off = LEAF_NEXT_OFFSET) -> u32_ok v ->
  leaf_head (put_u32 p off v) id (if off =? LEAF_PREV_OFFSET then v else prev)
    (if off =? LEAF_NEXT_OFFSET then v else next).
Proof.
  intros [L B T I P N] Hoff Hv. unfold put_u32.
  assert (off = 32 \/ off = 36) as Ho by done. clear Hoff.
  change LEAF_PREV_OFFSET with 32 in *. change LEAF_NEXT_OFFSET with 36 in *.
  split.
  - by rewrite zlen_splice.
  - auto using Forall_splice, le_bytes_ok.
  - unfold page_type, paged_page_type, u8_at in *. by rewrite slice_splice_ne by zlia.
  - unfold page_id, paged_page_id in *. by rewrite u32_at_splice_ne by zlia.
  - change LEAF_PREV_OFFSET with 32. destruct Ho as [->| ->]; cbn [Z.eqb Pos.eqb].
    + apply u32_at_put; [lia|lia|done].
    + by rewrite u32_at_splice_ne by zlia.
  - unfold read_next_leaf in *. change LEAF_NEXT_OFFSET with 36 in *.
    destruct Ho as [->| ->]; cbn [Z.eqb Pos.eqb].
    + by rewrite u32_at_splice_ne by zlia.
    + apply u32_at_put; [lia|lia|done].
Qed.

(** A leaf page that has just been allocated and linked *)
Lemma new_leaf_head id prev next :
  u32_ok id -> u32_ok prev -> u32_ok next ->
  leaf_head (init_leaf_links (Page_new BTreeLeaf id) prev next) id prev next.
Proof.
  intros Hid Hp Hn. destruct (Page_new_fields BTreeLeaf id Hid) as (F1 & _ & _ & _ & F5).
  assert (H0 : exists a b, leaf_head (Page_new BTreeLeaf id) id a b).
  { do 2 eexists. split; [apply zlen_Page_new|by apply Page_new_bytes|exact F1|exact F5|exact eq_refl..]. }
  destruct H0 as (a & b & H0).
  pose proof (leaf_head_put _ _ _ _ LEAF_PREV_OFFSET prev H0 (or_introl eq_refl) Hp) as H1.
  apply (leaf_head_put _ _ _ _ LEAF_NEXT_OFFSET next H1 (or_intror eq_refl) Hn).
Qed.

Lemma leaf_head_next p id prev next n :
  leaf_head p id prev next -> u32_ok n -> leaf_head (set_next_leaf p n) id prev n.
Proof. intros H Hn. apply (leaf_head_put _ _ _ _ LEAF_NEXT_OFFSET n H (or_intror eq_refl) Hn). Qed.

(** The back link of a leaf is replaced. *)
Definition set_prev (n : Z) (l : leaf) : leaf :=
  {| lf_id := lf_id l; lf_prev := n; lf_next := lf_next l; lf_entries := lf_entries l |}.

Lemma set_prev_leaf_at p l n : leaf_at p l -> u32_ok n -> leaf_at (set_prev_leaf p n) (set_prev n l).
Proof.
  intros Hl Hn. pose proof (leaf_at_head _ _ Hl) as Hh.
  pose proof (leaf_head_put _ _ _ _ LEAF_PREV_OFFSET n Hh (or_introl eq_refl) Hn) as [L B T I P N].
  destruct Hl as (_ & _ & _ & _ & Ha & Hc). split_and!; try done. split.
  - unfold set_prev_leaf, put_u32. cbn [lf_entries set_prev]. change LEAF_PREV_OFFSET with 32.
    apply area_splice_frame; [lia|done|apply le_bytes_ok|lia|zlia].
  - cbn [lf_entries set_prev]. rewrite <-Hc. unfold set_prev_leaf, put_u32, cell_count, paged_page_cell_count.
    change LEAF_PREV_OFFSET with 32. by rewrite u16_at_splice_ne by zlia.
Qed.

(** The forward link of a leaf is replaced. *)
Lemma leaf_next_at p l next :
  leaf_at p l -> u32_ok next ->
  leaf_at (set_next_leaf p next)
    {| lf_id := lf_id l; lf_prev := lf_prev l; lf_next := next; lf_entries := lf_entries l |}.
Proof.
  intros Hl Hn. pose proof (leaf_head_next _ _ _ _ next (leaf_at_head _ _ Hl) Hn) as [L B T I P N].
  destruct Hl as (_ & _ & _ & _ & Ha & Hc). split_and!; try done.
  cbn [lf_entries] in *. unfold set_next_leaf, put_u32. change LEAF_NEXT_OFFSET with 36. split.
  - apply area_splice_frame; [lia|done|apply le_bytes_ok|lia|zlia].
  - rewrite <-Hc. unfold cell_count, paged_page_cell_count. by rewrite u16_at_splice_ne by zlia.
Qed.

(** Both links of a leaf are replaced. *)
Lemma init_leaf_links_at p l prev next :
  leaf_at p l -> u32_ok prev -> u32_ok next ->
  leaf_at (init_leaf_links p prev next)
    {| lf_id := lf_id l; lf_prev := prev; lf_next := next; lf_entries := lf_entries l |}.
Proof.
  intros Hl Hp Hn. change (init_leaf_links p prev next) with (set_next_leaf (set_prev_leaf p prev) next).
  exact (leaf_next_at _ _ _ (set_prev_leaf_at p l prev Hl Hp) Hn).
Qed.

(** ** Leaves rewritten in place *)

Section update.
Context (K : key_sizes) (m m' : gmap Z bytes) (f : leaf -> leaf).
Context (f_id : forall l, lf_id (f l) = lf_id l) (f_entries : forall l, lf_entries (f l) = lf_entries l).
Context (f_leaf : forall p l, m !! lf_id l = Some p -> leaf_at p l ->
  exists q, m' !! lf_id l = Some q /\ leaf_at q (f l)).
Context (f_node : forall id p seps right, m !! id = Some p -> node_at p id seps right ->
  m' !! id = Some p).

Lemma tree_segs_update :
  (forall h lo hi id ls F, tree K m h lo hi id ls F -> tree K m' h lo hi id (map f ls) F) /\
  (forall h lo seps hi ls F, segs K m h lo seps hi ls F -> segs K m' h lo seps hi (map f ls) F).
Proof.
  apply tree_segs_ind.
  - intros lo hi p l Hp Hn Hl Hne Hs Hf. destruct (f_leaf p l Hp Hl) as (q & Hq & Hl').
    cbn [map]. rewrite <-(f_id l). apply (tree_leaf K m' lo hi q); rewrite ?f_id, ?f_entries; done.
  - intros h lo mid hi id p seps right ls1 F1 ls2 F2 Hp Hid Hn Hne Hsep H1 IH1 H2 IH2 D1 D2 D3.
    rewrite map_app. apply (tree_node K m' h lo mid hi id p seps right); eauto.
  - intros. apply segs_nil.
  - intros. rewrite map_app. by apply segs_cons.
Qed.

Lemma tree_update h lo hi id ls F : tree K m h lo hi id ls F -> tree K m' h lo hi id (map f ls) F.
Proof. apply tree_segs_update. Qed.

Lemma ctx_update root H path h id lo hi L R F :
  ctx K m root H path h id lo hi L R F -> ctx K m' root H path h id lo hi (map f L) (map f R) F.
Proof.
  destruct tree_segs_update as [UT US].
  induction 1 as [|path h id lo hi L R F p seps1 k c seps2 right lo' mid ls1 F1 ls2 F2 ls3 F3
      Hc IH Hp Hid Hn Hsep H1 H2 H3 D1 D2 D3 D4 D5 D6 D7 D8 D9 D10
    |path h id lo hi L R F p seps c lo' ls1 F1 Hc IH Hp Hid Hn Hne Hsep H1 D1 D2 D3].
  - constructor.
  - rewrite !map_app.
    apply (ctx_mid K m' root H path h id lo hi (map f L) (map f R) F p seps1 k c seps2 right lo' mid);
      eauto.
  - rewrite !map_app.
    apply (ctx_last K m' root H path h id lo hi (map f L) (map f R) F p seps); eauto.
Qed.

End update.

(** The back link of one leaf is rewritten. *)
Definition relink (next n : Z) (l : leaf) : leaf := if lf_id l =? next then set_prev n l else l.

Section relink.
Context (K : key_sizes) (m : gmap Z bytes) (next n : Z) (p q : bytes) (l0 : leaf).
Context (Hp : m !! next = Some p) (Hl0 : leaf_at p l0).
Context (Hq : resealed (set_prev_leaf p n) q) (Hn : u32_ok n).

Lemma relink_leaf p1 l : m !! lf_id l = Some p1 -> leaf_at p1 l ->
  exists q1, <[next := q]> m !! lf_id l = Some q1 /\ leaf_at q1 (relink next n l).
Proof.
  intros H1 H2. unfold relink. destruct (Z.eqb_spec (lf_id l) next) as [E|E].
  - exists q. rewrite E, lookup_insert. rewrite E, Hp in H1. injection H1 as <-.
    rewrite decide_True by done.
    split; [done|]. apply (leaf_at_resealed (set_prev_leaf p n)); [done|]. by apply set_prev_leaf_at.
  - exists p1. rewrite lookup_insert_ne by done. done.
Qed.

Lemma relink_node id p1 seps right :
  m !! id = Some p1 -> node_at p1 id seps right -> <[next := q]> m !! id = Some p1.
Proof.
  intros H1 (H2 & _). rewrite lookup_insert_ne; [done|]. intros ->. rewrite Hp in H1. injection H1 as ->.
  destruct Hl0 as (H3 & _). congruence.
Qed.

Lemma tree_relink h lo hi id ls F :
  tree K m h lo hi id ls F -> tree K (<[next := q]> m) h lo hi id (map (relink next n) ls) F.
Proof.
  apply tree_update; [|unfold relink; by intros l; destruct (_ =? _)|apply relink_leaf|apply relink_node].
  unfold relink. intros l. by destruct (_ =? _).
Qed.

Lemma segs_relink h lo seps hi ls F :
  segs K m h lo seps hi ls F -> segs K (<[next := q]> m) h lo seps hi (map (relink next n) ls) F.
Proof.
  apply tree_segs_update; [|unfold relink; by intros l; destruct (_ =? _)|apply relink_leaf|apply relink_node].
  unfold relink. intros l. by destruct (_ =? _).
Qed.

Lemma ctx_relink root H path h id lo hi L R F :
  ctx K m root H path h id lo hi L R F ->
  ctx K (<[next := q]> m) root H path h id lo hi (map (relink next n) L) (map (relink next n) R) F.
Proof.
  apply ctx_update; [|unfold relink; by intros l; destruct (_ =? _)|apply relink_leaf|apply relink_node].
  unfold relink. intros l. by destruct (_ =? _).
Qed.

End relink.

(** ** A child is replaced by two *)

Lemma tree_segs_pages K m :
  (forall h lo hi id ls F, tree K m h lo hi id ls F -> forall x, x ∈ F -> is_Some (m !! x)) /\
  (forall h lo seps hi ls F, segs K m h lo seps hi ls F -> forall x, x ∈ F -> is_Some (m !! x)).
Proof.
  apply tree_segs_ind.
  - intros lo hi p l Hp _ _ _ _ _ x Hx. apply elem_of_singleton in Hx as ->. by eexists.
  - intros h lo mid hi id p seps right ls1 F1 ls2 F2 Hp _ _ _ _ _ IH1 _ IH2 _ _ _ x Hx.
    apply elem_of_union in Hx as [->%elem_of_singleton|[Hx|Hx]%elem_of_union]; [by eexists|auto..].
  - intros h lo x Hx. by apply elem_of_empty in Hx.
  - intros h lo k c seps hi ls1 F1 ls2 F2 _ IH1 _ IH2 _ x Hx.
    apply elem_of_union in Hx as [Hx|Hx]; auto.
Qed.

Lemma tree_pages K m h lo hi id ls F x : tree K m h lo hi id ls F -> x ∈ F -> is_Some (m !! x).
Proof. intros Ht. by apply (proj1 (tree_segs_pages K m) _ _ _ _ _ _ Ht). Qed.

Lemma ctx_pages K m root H path h id lo hi L R F x :
  ctx K m root H path h id lo hi L R F -> x ∈ F -> is_Some (m !! x).
Proof.
  induction 1 as [|path h id lo hi L R F p seps1 k c seps2 right lo' mid ls1 F1 ls2 F2 ls3 F3
      Hc IH Hp Hid Hn Hsep H1 H2 H3 D1 D2 D3 D4 D5 D6 D7 D8 D9 D10
    |path h id lo hi L R F p seps c lo' ls1 F1 Hc IH Hp Hid Hn Hne Hsep H1 D1 D2 D3]; intros Hx.
  - by apply elem_of_empty in Hx.
  - repeat apply elem_of_union in Hx as [Hx|Hx]; [auto| | | |].
    + apply elem_of_singleton in Hx as ->. by eexists.
    + by apply (proj2 (tree_segs_pages K m) _ _ _ _ _ _ H1).
    + by apply (proj2 (tree_segs_pages K m) _ _ _ _ _ _ H2).
    + by apply (proj1 (tree_segs_pages K m) _ _ _ _ _ _ H3).
  - repeat apply elem_of_union in Hx as [Hx|Hx]; [auto| |].
    + apply elem_of_singleton in Hx as ->. by eexists.
    + by apply (proj2 (tree_segs_pages K m) _ _ _ _ _ _ H1).
Qed.

Lemma tree_root_in K m h lo hi id ls F : tree K m h lo hi id ls F -> id ∈ F.
Proof. inversion 1; subst; sets. Qed.

Lemma segs_children K m h lo seps hi ls F x :
  segs K m h lo seps hi ls F -> x ∈ seps.*2 -> x ∈ F.
Proof.
  induction 1 as [|h lo k c seps hi ls1 F1 ls2 F2 Ht Hs IH D]; intros Hx.
  { by apply elem_of_nil in Hx. }
  cbn [fmap list_fmap snd] in Hx. apply elem_of_cons in Hx as [->|Hx].
  - apply elem_of_union_l. by eapply tree_root_in.
  - apply elem_of_union_r. auto.
Qed.

Lemma sorted_middle A s B : StronglySorted blt (A ++ s :: B) -> insertion_point (A ++ B) s (length A).
Proof.
  intros (HA & HB & HAB)%sorted_app. unfold insertion_point.
  rewrite take_app_length, drop_app_length, length_app. split_and!; [lia| |by inversion HB].
  eapply Forall_impl; [exact HAB|]. intros x Hx. by apply Forall_cons in Hx as [? _].
Qed.

Lemma index_of_middle A c B : c ∉ A -> index_of c (A ++ c :: B) = Some (length A).
Proof.
  induction A as [|x A IH]; intros Hni; cbn [app index_of].
  - by rewrite Z.eqb_refl.
  - apply not_elem_of_cons in Hni as [Hne Hni]. rewrite (proj2 (Z.eqb_neq _ _)) by congruence.
    by rewrite IH.
Qed.

(** The interior page [id] at the end of [path], of which the child [c] has become
    the two subtrees at [c] and [c2] with the separator [k] between them: [seps] and
    [right] are what the page says, [seps'] and [right'] what it should. *)
Record pending (K : key_sizes) (m : gmap Z bytes) (root : Z) (H : nat) (path : list Z) (h : nat) (id : Z)
    (k : bytes) (c c2 : Z) (p : bytes) (i : nat) (seps : list sep) (right : Z)
    (seps' : list sep) (right' : Z) (lo mid hi : option bytes) (lsS : list leaf) (FS : gset Z)
    (lsR : list leaf) (FR : gset Z) (L R : list leaf) (F : gset Z) : Prop := {
  pd_ctx : ctx K m root H path (S h) id lo hi L R F;
  pd_page : m !! id = Some p;
  pd_number : page_number id;
  pd_node : node_at p id seps right;
  pd_fits : Forall (sep_fits K) seps';
  pd_sorted : StronglySorted blt seps.*1;
  pd_new : insert_sep i k c c2 seps right = (seps', right');
  pd_keys : seps'.*1 = take i seps.*1 ++ k :: drop i seps.*1;
  pd_children : seps'.*2 ++ [right'] = vec_insert (i + 1) c2 (seps.*2 ++ [right]);
  pd_pos : insertion_point seps.*1 k i;
  pd_child : index_of c (seps.*2 ++ [right]) = Some i;
  pd_segs : segs K m h lo seps' mid lsS FS;
  pd_right : tree K m h mid hi right' lsR FR;
  pd_out : id ∉ F;
  pd_out_s : id ∉ FS;
  pd_out_r : id ∉ FR;
  pd_disj_s : F ## FS;
  pd_disj_r : F ## FR;
  pd_disj : FS ## FR;
  pd_c : u32_ok c;
  pd_c2 : u32_ok c2;
  pd_key : Forall byte_ok k;
}.
Arguments pd_ctx {_ _ _ _ _ _ _ _ _ _ _ _ _ _ _ _ _ _ _ _ _ _ _ _ _ _} _.
Arguments pd_page {_ _ _ _ _ _ _ _ _ _ _ _ _ _ _ _ _ _ _ _ _ _ _ _ _ _} _.
Arguments pd_number {_ _ _ _ _ _ _ _ _ _ _ _ _ _ _ _ _ _ _ _ _ _ _ _ _ _} _.
Arguments pd_node {_ _ _ _ _ _ _ _ _ _ _ _ _ _ _ _ _ _ _ _ _ _ _ _ _ _} _.
Arguments pd_fits {_ _ _ _ _ _ _ _ _ _ _ _ _ _ _ _ _ _ _ _ _ _ _ _ _ _} _.
Arguments pd_sorted {_ _ _ _ _ _ _ _ _ _ _ _ _ _ _ _ _ _ _ _ _ _ _ _ _ _} _.
Arguments pd_new {_ _ _ _ _ _ _ _ _ _ _ _ _ _ _ _ _ _ _ _ _ _ _ _ _ _} _.
Arguments pd_keys {_ _ _ _ _ _ _ _ _ _ _ _ _ _ _ _ _ _ _ _ _ _ _ _ _ _} _.
Arguments pd_children {_ _ _ _ _ _ _ _ _ _ _ _ _ _ _ _ _ _ _ _ _ _ _ _ _ _} _.
Arguments pd_pos {_ _ _ _ _ _ _ _ _ _ _ _ _ _ _ _ _ _ _ _ _ _ _ _ _ _} _.
Arguments pd_child {_ _ _ _ _ _ _ _ _ _ _ _ _ _ _ _ _ _ _ _ _ _ _ _ _ _} _.
Arguments pd_segs {_ _ _ _ _ _ _ _ _ _ _ _ _ _ _ _ _ _ _ _ _ _ _ _ _ _} _.
Arguments pd_right {_ _ _ _ _ _ _ _ _ _ _ _ _ _ _ _ _ _ _ _ _ _ _ _ _ _} _.
Arguments pd_out {_ _ _ _ _ _ _ _ _ _ _ _ _ _ _ _ _ _ _ _ _ _ _ _ _ _} _.
Arguments pd_out_s {_ _ _ _ _ _ _ _ _ _ _ _ _ _ _ _ _ _ _ _ _ _ _ _ _ _} _.
Arguments pd_out_r {_ _ _ _ _ _ _ _ _ _ _ _ _ _ _ _ _ _ _ _ _ _ _ _ _ _} _.
Arguments pd_disj_s {_ _ _ _ _ _ _ _ _ _ _ _ _ _ _ _ _ _ _ _ _ _ _ _ _ _} _.
Arguments pd_disj_r {_ _ _ _ _ _ _ _ _ _ _ _ _ _ _ _ _ _ _ _ _ _ _ _ _ _} _.
Arguments pd_disj {_ _ _ _ _ _ _ _ _ _ _ _ _ _ _ _ _ _ _ _ _ _ _ _ _ _} _.
Arguments pd_c {_ _ _ _ _ _ _ _ _ _ _ _ _ _ _ _ _ _ _ _ _ _ _ _ _ _} _.
Arguments pd_c2 {_ _ _ _ _ _ _ _ _ _ _ _ _ _ _ _ _ _ _ _ _ _ _ _ _ _} _.
Arguments pd_key {_ _ _ _ _ _ _ _ _ _ _ _ _ _ _ _ _ _ _ _ _ _ _ _ _ _} _.

Lemma vec_insert_after {A} (l1 : list A) c x l2 :
  vec_insert (length l1 + 1) x (l1 ++ c :: l2) = l1 ++ c :: x :: l2.
Proof.
  unfold vec_insert. change (c :: l2) with ([c] ++ l2). rewrite app_assoc.
  replace (length l1 + 1)%nat with (length (l1 ++ [c])) by (rewrite length_app; done).
  rewrite take_app_length, drop_app_length. by rewrite <-app_assoc.
Qed.

Section pending.
Context (K : key_sizes) (m : gmap Z bytes) (root : Z) (H : nat) (path : list Z) (h : nat) (id : Z).
Context (lo hi : option bytes) (L R : list leaf) (F : gset Z) (p : bytes).
Context (Hc : ctx K m root H path (S h) id lo hi L R F) (Hp : m !! id = Some p) (Hid : page_number id).
Context (k : bytes) (c c2 : Z) (lo' hi' : option bytes) (lsA : list leaf) (FA : gset Z)
  (lsB : list leaf) (FB : gset Z).
Context (TA : tree K m h lo' (Some k) c lsA FA) (TB : tree K m h (Some k) hi' c2 lsB FB).
Context (Hk : sep_fits K (k, c)).

Lemma pending_mid seps1 k1 seps2 right mid ls1 F1 ls2 F2 ls3 F3 :
  hi' = Some k1 -> node_at p id (seps1 ++ (k1, c) :: seps2) right ->
  Forall (sep_fits K) (seps1 ++ (k1, c) :: seps2) ->
  segs K m h lo seps1 lo' ls1 F1 -> segs K m h (Some k1) seps2 mid ls2 F2 ->
  tree K m h mid hi right ls3 F3 ->
  id ∉ F -> id ∉ F1 ∪ (FA ∪ (FB ∪ F2)) -> id ∉ F3 -> F ## F1 ∪ (FA ∪ (FB ∪ F2)) -> F ## F3 ->
  F1 ∪ (FA ∪ (FB ∪ F2)) ## F3 -> F1 ## FA -> F1 ## FB -> F1 ## F2 -> FA ## FB -> FA ## F2 -> FB ## F2 ->
  pending K m root H path h id k c c2 p (length seps1) (seps1 ++ (k1, c) :: seps2) right
    (seps1 ++ (k, c) :: (k1, c2) :: seps2) right lo mid hi (ls1 ++ lsA ++ lsB ++ ls2)
    (F1 ∪ (FA ∪ (FB ∪ F2))) ls3 F3 L R F.
Proof.
  intros -> Hn Hsep S1 S2 T3 D1 D2 D3 D4 D5 D6 D7 D8 D9 D10 D11 D12.
  assert (Hs : segs K m h lo (seps1 ++ (k, c) :: (k1, c2) :: seps2) mid (ls1 ++ lsA ++ lsB ++ ls2)
    (F1 ∪ (FA ∪ (FB ∪ F2)))).
  { eapply segs_app; [exact S1| |disj]. apply segs_cons; [done| |disj]. apply segs_cons; done. }
  destruct (segs_keys _ _ _ _ _ _ _ _ Hs) as (Hsort & _ & _).
  rewrite fmap_app in Hsort. cbn [fmap list_fmap fst] in Hsort.
  pose proof (sorted_middle _ _ _ Hsort) as Hpos. rewrite length_fmap in Hpos.
  assert (Ek : (seps1 ++ (k1, c) :: seps2).*1 = seps1.*1 ++ k1 :: seps2.*1) by (by rewrite fmap_app).
  split; try done.
  - rewrite !Forall_app, !Forall_cons in *. destruct Hsep as (? & ? & ?). by split_and!.
  - rewrite Ek. apply sorted_app in Hsort as (A1 & A2 & A3). inversion A2 as [|? ? A4 A5]; subst.
    apply sorted_app. split_and!; [done|done|]. eapply Forall_impl; [exact A3|].
    intros x Hx. by apply Forall_cons in Hx as [_ Hx].
  - unfold insert_sep. rewrite drop_app_length, take_app_length. done.
  - rewrite Ek, <-(length_fmap fst seps1), take_app_length, drop_app_length, fmap_app. done.
  - rewrite <-(length_fmap snd seps1), !fmap_app, <-!app_assoc. cbn [fmap list_fmap app snd].
    by rewrite vec_insert_after.
  - by rewrite Ek.
  - rewrite <-(length_fmap snd seps1), fmap_app, <-app_assoc. cbn [fmap list_fmap app snd].
    apply index_of_middle. intros Hin. apply (segs_children _ _ _ _ _ _ _ _ _ S1) in Hin.
    apply (D7 c Hin). by eapply tree_root_in.
  - by apply tree_root_number in TA as [_ ?].
  - by apply tree_root_number in TB as [_ ?].
  - apply Hk.
Qed.

Lemma pending_last seps ls1 F1 :
  hi' = hi -> node_at p id seps c -> Forall (sep_fits K) seps -> segs K m h lo seps lo' ls1 F1 ->
  id ∉ F -> id ∉ F1 ∪ FA -> id ∉ FB -> F ## F1 ∪ FA -> F ## FB -> F1 ∪ FA ## FB -> F1 ## FA ->
  pending K m root H path h id k c c2 p (length seps) seps c (seps ++ [(k, c)]) c2 lo (Some k) hi
    (ls1 ++ lsA) (F1 ∪ FA) lsB FB L R F.
Proof.
  intros -> Hn Hsep S1 D1 D2 D3 D4 D5 D6 D7.
  assert (Hs : segs K m h lo (seps ++ [(k, c)]) (Some k) (ls1 ++ lsA) (F1 ∪ FA)).
  { eapply segs_app; [exact S1| |disj]. rewrite <-(app_nil_r lsA), <-(right_id_L ∅ (∪) FA).
    apply segs_cons; [done|apply segs_nil|disj]. }
  destruct (segs_keys _ _ _ _ _ _ _ _ Hs) as (Hsort & _ & _).
  rewrite fmap_app in Hsort. cbn [fmap list_fmap fst] in Hsort.
  pose proof (sorted_middle _ _ _ Hsort) as Hpos. rewrite length_fmap, app_nil_r in Hpos.
  split; try done.
  - rewrite !Forall_app, Forall_cons. done.
  - by apply sorted_app in Hsort as (A1 & _ & _).
  - unfold insert_sep. by rewrite skipn_all, firstn_all.
  - rewrite <-(length_fmap fst seps), skipn_all, firstn_all, fmap_app. done.
  - rewrite <-(length_fmap snd seps), fmap_app, <-app_assoc. cbn [fmap list_fmap app snd].
    by rewrite vec_insert_after.
  - rewrite <-(length_fmap snd seps).
    apply index_of_middle. intros Hin. apply (segs_children _ _ _ _ _ _ _ _ _ S1) in Hin.
    apply (D7 c Hin). by eapply tree_root_in.
  - by apply tree_root_number in TA as [_ ?].
  - by apply tree_root_number in TB as [_ ?].
  - apply Hk.
Qed.
End pending.

Lemma ctx_pending K m root H path id h c lo hi L R F k c2 lsA FA lsB FB :
  ctx K m root H (path ++ [id]) h c lo hi L R F ->
  tree K m h lo (Some k) c lsA FA -> tree K m h (Some k) hi c2 lsB FB ->
  F ## FA -> F ## FB -> FA ## FB -> sep_fits K (k, c) ->
  exists p i seps right seps' right' lo' mid hi' lsS FS lsR FR L' R' F',
    pending K m root H path h id k c c2 p i seps right seps' right' lo' mid hi' lsS FS lsR FR L' R' F' /\
    L' ++ (lsS ++ lsR) ++ R' = L ++ lsA ++ lsB ++ R /\
    F' ∪ ({[id]} ∪ (FS ∪ FR)) = F ∪ FA ∪ FB.
Proof.
  intros Hc TA TB D1 D2 D3 Hk. inversion Hc as [|path' h' id' lo1 hi1 L1 R1 F0 p seps1 k1 c' seps2 right
      lo' mid ls1 F1 ls2 F2 ls3 F3 Hc' Hp Hid Hn Hsep S1 S2 T3 E1 E2 E3 E4 E5 E6 E7 E8 E9 E10
    |path' h' id' lo1 hi1 L1 R1 F0 p seps c' lo' ls1 F1 Hc' Hp Hid Hn Hne Hsep S1 E1 E2 E3].
  - by destruct path.
  - apply app_inj_tail in H0 as [-> ->]. subst.
    do 16 eexists. split_and!.
    + eapply pending_mid; try eassumption; done || disj.
    + by rewrite <-!app_assoc.
    + clear; set_solver.
  - apply app_inj_tail in H0 as [-> ->]. subst.
    do 16 eexists. split_and!.
    + eapply pending_last; try eassumption; done || disj.
    + by rewrite <-!app_assoc.
    + clear; set_solver.
Qed.

(** ** The leaves *)

Lemma tree_segs_nodup K m :
  (forall h lo hi id ls F, tree K m h lo hi id ls F -> NoDup (map lf_id ls)) /\
  (forall h lo seps hi ls F, segs K m h lo seps hi ls F ->
     NoDup (map lf_id ls) /\ Forall (fun l => lf_id l ∈ F) ls).
Proof.
  assert (Hj : forall ls1 ls2 (F1 F2 : gset Z), NoDup (map lf_id ls1) -> NoDup (map lf_id ls2) ->
    Forall (fun l => lf_id l ∈ F1) ls1 -> Forall (fun l => lf_id l ∈ F2) ls2 -> F1 ## F2 ->
    NoDup (map lf_id (ls1 ++ ls2))).
  { intros ls1 ls2 F1 F2 N1 N2 I1 I2 D. rewrite map_app. apply NoDup_app. split_and!; [done| |done].
    intros x Hx1 Hx2. apply list_elem_of_fmap in Hx1 as (a & -> & Ha), Hx2 as (b & E & Hb).
    rewrite Forall_forall in I1, I2. apply (D (lf_id a)); [auto|]. rewrite E. auto. }
  apply tree_segs_ind.
  - intros lo hi p l _ _ _ _ _ _. cbn. apply NoDup_singleton.
  - intros h lo mid hi id p seps right ls1 F1 ls2 F2 _ _ _ _ _ S1 [N1 I1] T2 N2 _ _ D.
    by apply (Hj _ _ F1 F2); [done|done|done|eapply tree_leaf_ids|].
  - intros. split; constructor.
  - intros h lo k c seps hi ls1 F1 ls2 F2 T1 N1 S2 [N2 I2] D.
    pose proof (tree_leaf_ids _ _ _ _ _ _ _ _ T1) as I1. split; [by apply (Hj _ _ F1 F2)|].
    apply Forall_app. split; [eapply Forall_impl; [exact I1|]|eapply Forall_impl; [exact I2|]]; intros.
    + by apply elem_of_union_l.
    + by apply elem_of_union_r.
Qed.

Lemma tree_nodup K m h lo hi id ls F : tree K m h lo hi id ls F -> NoDup (map lf_id ls).
Proof. apply (proj1 (tree_segs_nodup K m)). Qed.

Lemma ctx_path K m root H path h id lo hi L R F :
  ctx K m root H path h id lo hi L R F -> (length path + h)%nat = H.
Proof. induction 1; [done|..]; rewrite length_app; cbn [length]; lia. Qed.

(** The last subtree has no upper bound. *)
Lemma ctx_right_end K m root H path h id lo hi L R F :
  ctx K m root H path h id lo hi L R F -> R = [] -> hi = None.
Proof.
  induction 1 as [|path h id lo hi L R F p seps1 k c seps2 right lo' mid ls1 F1 ls2 F2 ls3 F3
      Hc IH Hp Hid Hn Hsep H1 H2 H3 D1 D2 D3 D4 D5 D6 D7 D8 D9 D10
    |path h id lo hi L R F p seps c lo' ls1 F1 Hc IH Hp Hid Hn Hne Hsep H1 D1 D2 D3]; intros ER.
  - done.
  - apply app_nil in ER as [_ [ER _]%app_nil]. by destruct (tree_leaves _ _ _ _ _ _ _ _ H3).
  - auto.
Qed.

(** The first leaf behind the split one gets a new back link. *)
Definition relink_first (n : Z) (R : list leaf) : list leaf :=
  match R with [] => [] | l :: R => set_prev n l :: R end.

Lemma relink_other next n ls : next ∉ map lf_id ls -> map (relink next n) ls = ls.
Proof.
  induction ls as [|l ls IH]; intros Hni; [done|]. cbn [map] in *.
  apply not_elem_of_cons in Hni as [H1 H2]. rewrite IH by done. unfold relink.
  by rewrite (proj2 (Z.eqb_neq _ _)) by congruence.
Qed.

Lemma contents_relink_first n R : contents (relink_first n R) = contents R.
Proof. by destruct R. Qed.

Lemma linked_relink prev L l n R es1 es2 :
  linked prev (L ++ l :: R) 0 ->
  linked prev (L ++ [{| lf_id := lf_id l; lf_prev := lf_prev l; lf_next := n; lf_entries := es1 |}] ++
    [{| lf_id := n; lf_prev := lf_id l; lf_next := lf_next l; lf_entries := es2 |}] ++ relink_first n R) 0.
Proof.
  rewrite !linked_app. cbn [linked first_id lf_id lf_prev lf_next app]. intros (H1 & H2 & H3 & H4).
  split_and!; try done.
  - by destruct R.
  - destruct R as [|l2 R]; [done|]. destruct H4 as (_ & H4 & H5). by split_and!.
Qed.

(** ** The page is rewritten *)

Section rewrite.
Context (K : key_sizes) (m m' : gmap Z bytes) (root : Z) (H : nat) (path : list Z) (h : nat) (id : Z).
Context (k : bytes) (c c2 : Z) (p : bytes) (i : nat) (seps : list sep) (right : Z) (seps' : list sep)
  (right' : Z) (lo mid hi : option bytes) (lsS : list leaf) (FS : gset Z) (lsR : list leaf)
  (FR : gset Z) (L R : list leaf) (F : gset Z).
Context (Hpd : pending K m root H path h id k c c2 p i seps right seps' right' lo mid hi lsS FS lsR FR L R F).

Lemma pending_ne : seps' <> [].
Proof.
  intros E. pose proof (pd_keys Hpd) as Hk. rewrite E in Hk. by destruct (take i seps.*1).
Qed.

Lemma pending_fits q :
  (forall x, x <> id -> m' !! x = m !! x) -> m' !! id = Some q -> node_at q id seps' right' ->
  ctx K m' root H path (S h) id lo hi L R F /\
  tree K m' (S h) lo hi id (lsS ++ lsR) ({[id]} ∪ (FS ∪ FR)).
Proof.
  intros Hfr Hq Hn. pose proof pending_ne. destruct Hpd. split.
  - apply (ctx_frame K m); [done|]. intros x Hx. apply Hfr. intros ->. done.
  - apply (tree_node K m' h lo mid hi id q seps' right'); try done.
    + apply (segs_frame K m); [done|]. intros x Hx. apply Hfr. intros ->. done.
    + apply (tree_frame K m); [done|]. intros x Hx. apply Hfr. intros ->. done.
Qed.

Lemma pending_split id2 q1 q2 A s x B :
  seps' = A ++ (s, x) :: B -> A <> [] -> B <> [] ->
  (forall y, y <> id -> y <> id2 -> m' !! y = m !! y) ->
  m' !! id = Some q1 -> node_at q1 id A x -> m' !! id2 = Some q2 -> node_at q2 id2 B right' ->
  page_number id2 -> id2 <> id -> id2 ∉ F -> id2 ∉ FS -> id2 ∉ FR ->
  exists ls1 G1 ls2 G2,
    ctx K m' root H path (S h) id lo hi L R F /\
    tree K m' (S h) lo (Some s) id ls1 G1 /\ tree K m' (S h) (Some s) hi id2 ls2 G2 /\
    F ## G1 /\ F ## G2 /\ G1 ## G2 /\ lsS ++ lsR = ls1 ++ ls2 /\
    G1 ∪ G2 = {[id2]} ∪ ({[id]} ∪ (FS ∪ FR)) /\ sep_fits K (s, id).
Proof.
  intros Es HA HB Hfr Hq1 Hn1 Hq2 Hn2 Hid2 Hne D1 D2 D3. destruct Hpd. rewrite Es in *.
  apply segs_app_inv in pd_segs0 as (mid1 & lsA & FA & lsB & FB & SA & SB & -> & -> & DAB).
  inversion SB as [|h0 lo0 k0 c0 seps0 hi0 lsx Fx lsy Fy Tx Sy Dxy]; subst.
  apply Forall_app in pd_fits0 as [FitA FitB]. apply Forall_cons in FitB as [Fits FitB].
  exists (lsA ++ lsx), ({[id]} ∪ (FA ∪ Fx)), (lsy ++ lsR), ({[id2]} ∪ (Fy ∪ FR)). split_and!.
  - apply (ctx_frame K m); [done|]. intros y Hy. apply Hfr; intros ->; done.
  - apply (tree_node K m' h lo mid1 (Some s) id q1 A x); try done; try disj.
    + apply (segs_frame K m); [done|]. intros y Hy. apply Hfr; intros ->; clear - Hy pd_out_s0 D2; set_solver.
    + apply (tree_frame K m); [done|]. intros y Hy. apply Hfr; intros ->; clear - Hy pd_out_s0 D2; set_solver.
  - apply (tree_node K m' h (Some s) mid hi id2 q2 B right'); try done; try disj.
    + apply (segs_frame K m); [done|]. intros y Hy. apply Hfr; intros ->; clear - Hy pd_out_s0 D2; set_solver.
    + apply (tree_frame K m); [done|]. intros y Hy. apply Hfr; intros ->; done.
  - disj.
  - disj.
  - disj.
  - by rewrite <-!app_assoc.
  - clear; set_solver.
  - done.
Qed.

End rewrite.

(** ** The halves of an interior page *)

Lemma interior_slotted_size_app ks1 ks2 :
  interior_slotted_size (ks1 ++ ks2) = interior_slotted_size ks1 + interior_slotted_size ks2.
Proof.
  induction ks1 as [|k ks1 IH]; [done|]. cbn [app]. rewrite !interior_slotted_size_cons, IH. lia.
Qed.

Lemma interior_size_bounds (K : Z) ks :
  Forall (fun k => zlen k <= K) ks ->
  8 * zlen ks <= interior_slotted_size ks <= (K + 8) * zlen ks.
Proof.
  induction 1 as [|k ks Hk Hf IH]; [unfold interior_slotted_size, zlen; cbn; lia|].
  rewrite interior_slotted_size_cons, zlen_cons. unfold interior_key_size. pose proof (zlen_nonneg k). lia.
Qed.

(** With keys of at most 353 bytes, cutting at the middle key leaves two halves that
    fit when the page and one more separator do not. *)
Lemma interior_halves_fit ks1 s ks2 :
  Forall (fun k => zlen k <= 353) (ks1 ++ s :: ks2) ->
  length ks1 = Nat.div (length (ks1 ++ s :: ks2)) 2 ->
  16352 < interior_slotted_size (ks1 ++ s :: ks2) <= 16352 + 361 ->
  ks1 <> [] /\ ks2 <> [] /\ interior_slotted_size ks1 <= 16352 /\ interior_slotted_size ks2 <= 16352.
Proof.
  intros Hf Hlen Hsz. apply Forall_app in Hf as [F1 F2]. apply Forall_cons in F2 as [Fs F2].
  rewrite interior_slotted_size_app, interior_slotted_size_cons in Hsz.
  pose proof (interior_size_bounds _ _ F1). pose proof (interior_size_bounds _ _ F2).
  pose proof (zlen_nonneg s). unfold interior_key_size in Hsz.
  assert (Hd : zlen ks1 = (zlen ks1 + (1 + zlen ks2)) / 2).
  { unfold zlen. rewrite Hlen at 1. rewrite length_app. cbn [length]. rewrite Nat2Z.inj_div. f_equal. lia. }
  pose proof (Z.div_mod (zlen ks1 + (1 + zlen ks2)) 2 ltac:(lia)).
  pose proof (Z.mod_pos_bound (zlen ks1 + (1 + zlen ks2)) 2 ltac:(lia)). rewrite <-Hd in *.
  assert (20 <= zlen ks1) by lia.
  split_and!; [by intros ->|intros ->; change (zlen (@nil bytes)) with 0 in *; lia| |]; lia.
Qed.
