(* ===== verification/Siblings.v ===== *)
(** * Adjacent children of an interior page

    The children of a page in order, a child in its place among them, and a tree with a
    hole for two children that are next to each other: what rebalancing changes. *)

From S2P Require Import Prelude FileFormat Page PageStore Overflow ValueLayout Slots Leaf Interior BTree Tree Splits.
From Stdlib Require Import ZArith Lia.

(** The child left of the first separator, and its replacement *)
Definition head_child (seps : list sep) (right : Z) : Z :=
  match seps with [] => right | (_, c) :: _ => c end.
Definition set_head (c : Z) (seps : list sep) : list sep :=
  match seps with [] => [] | (k, _) :: seps => (k, c) :: seps end.
Definition set_last (c : Z) (seps : list sep) (right : Z) : Z :=
  match seps with [] => c | _ => right end.
Definition tail_children (seps : list sep) (right : Z) : list Z :=
  match seps with [] => [] | _ :: seps => seps.*2 ++ [right] end.

Lemma children_head seps right : seps.*2 ++ [right] = head_child seps right :: tail_children seps right.
Proof. by destruct seps as [|[k c] seps]. Qed.

Lemma children_set_head c seps right :
  (set_head c seps).*2 ++ [set_last c seps right] = c :: tail_children seps right.
Proof. by destruct seps as [|[k c'] seps]. Qed.

Lemma keys_set_head c seps : (set_head c seps).*1 = seps.*1.
Proof. by destruct seps as [|[k c'] seps]. Qed.

Section siblings.
Context (K : key_sizes).

Section children.
Context (m : gmap Z bytes) (h : nat).

(** The children of a page, with the separators between them *)
Inductive kids : option bytes -> list sep -> Z -> option bytes -> list leaf -> gset Z -> Prop :=
| kids_last lo c hi ls F : tree K m h lo hi c ls F -> kids lo [] c hi ls F
| kids_cons lo k c seps right hi ls1 F1 ls2 F2 :
    tree K m h lo (Some k) c ls1 F1 -> kids (Some k) seps right hi ls2 F2 -> F1 ## F2 ->
    kids lo ((k, c) :: seps) right hi (ls1 ++ ls2) (F1 ∪ F2).

Lemma kids_nil_inv lo right hi ls F : kids lo [] right hi ls F -> tree K m h lo hi right ls F.
Proof. by inversion 1. Qed.

Lemma kids_cons_inv lo k c seps right hi ls F :
  kids lo ((k, c) :: seps) right hi ls F ->
  exists ls1 F1 ls2 F2, tree K m h lo (Some k) c ls1 F1 /\ kids (Some k) seps right hi ls2 F2 /\
    ls = ls1 ++ ls2 /\ F = F1 ∪ F2 /\ F1 ## F2.
Proof. inversion 1; subst. eauto 10. Qed.

Lemma kids_app lo s1 mid ls1 F1 s2 right hi ls2 F2 :
  segs K m h lo s1 mid ls1 F1 -> kids mid s2 right hi ls2 F2 -> F1 ## F2 ->
  kids lo (s1 ++ s2) right hi (ls1 ++ ls2) (F1 ∪ F2).
Proof.
  revert lo ls1 F1. induction s1 as [|[k c] s1 IH]; intros lo ls1 F1 H1 H2 D.
  - inversion H1; subst. by rewrite (left_id_L ∅ (∪)).
  - inversion H1 as [|? ? ? ? ? ? lsa Fa lsb Fb Ht Hs D']; subst.
    cbn [app]. rewrite <-app_assoc, <-(assoc_L (∪)). constructor; [done| |disj]. apply IH; [done|done|disj].
Qed.

Lemma kids_app_inv lo s1 s2 right hi ls F :
  kids lo (s1 ++ s2) right hi ls F ->
  exists mid ls1 F1 ls2 F2, segs K m h lo s1 mid ls1 F1 /\ kids mid s2 right hi ls2 F2 /\
    ls = ls1 ++ ls2 /\ F = F1 ∪ F2 /\ F1 ## F2.
Proof.
  revert lo ls F. induction s1 as [|[k c] s1 IH]; intros lo ls F Hk.
  - exists lo, [], ∅, ls, F. split_and!; [constructor|done|done|by rewrite (left_id_L ∅ (∪))|disj].
  - cbn in Hk. inversion Hk as [|? ? ? ? ? ? lsa Fa lsb Fb Ht Hs D]; subst.
    destruct (IH _ _ _ Hs) as (mid & ls1 & F1 & ls2 & F2 & H1 & H2 & -> & -> & D').
    exists mid, (lsa ++ ls1), (Fa ∪ F1), ls2, F2.
    split_and!; [|done|by rewrite app_assoc|by rewrite (assoc_L (∪))|disj]. constructor; [done|done|disj].
Qed.

(** All children and the last one *)
Lemma kids_segs lo seps right hi ls F :
  kids lo seps right hi ls F <->
  exists mid ls1 F1 ls2 F2, segs K m h lo seps mid ls1 F1 /\ tree K m h mid hi right ls2 F2 /\
    ls = ls1 ++ ls2 /\ F = F1 ∪ F2 /\ F1 ## F2.
Proof.
  rewrite <-(app_nil_r seps) at 1. split.
  - intros (mid & ls1 & F1 & ls2 & F2 & H1 & H2 & -> & -> & D)%kids_app_inv. inversion H2; subst.
    by exists mid, ls1, F1, ls2, F2.
  - intros (mid & ls1 & F1 & ls2 & F2 & H1 & H2 & -> & -> & D). eapply kids_app; [done|by constructor|done].
Qed.

(** The children right of the first one *)
Definition rest (lo : option bytes) (seps : list sep) (right : Z) (hi : option bytes)
    (ls : list leaf) (F : gset Z) : Prop :=
  match seps with
  | [] => lo = hi /\ ls = [] /\ F = ∅
  | (k, _) :: seps => lo = Some k /\ kids (Some k) seps right hi ls F
  end.

Lemma kids_head lo seps right hi ls F :
  kids lo seps right hi ls F <->
  exists mid ls1 F1 ls2 F2, tree K m h lo mid (head_child seps right) ls1 F1 /\
    rest mid seps right hi ls2 F2 /\ ls = ls1 ++ ls2 /\ F = F1 ∪ F2 /\ F1 ## F2.
Proof.
  split.
  - intros [lo' c hi' ls' F' Ht|lo' k c seps' right' hi' ls1 F1 ls2 F2 Ht Hk D].
    + exists hi', ls', F', [], ∅.
      split_and!; [done|done|by rewrite app_nil_r|by rewrite (right_id_L ∅ (∪))|disj].
    + by exists (Some k), ls1, F1, ls2, F2.
  - intros (mid & ls1 & F1 & ls2 & F2 & Ht & Hr & -> & -> & D). destruct seps as [|[k c] seps]; cbn in *.
    + destruct Hr as (-> & -> & ->). rewrite app_nil_r, (right_id_L ∅ (∪)). by constructor.
    + destruct Hr as [-> Hr]. by constructor.
Qed.

Lemma rest_set_head lo seps right hi ls F c :
  rest lo seps right hi ls F -> rest lo (set_head c seps) (set_last c seps right) hi ls F.
Proof. by destruct seps as [|[k c'] seps]. Qed.

End children.

Lemma kids_frame m m' h lo seps right hi ls F :
  kids m h lo seps right hi ls F -> (forall x, x ∈ F -> m' !! x = m !! x) -> kids m' h lo seps right hi ls F.
Proof.
  induction 1 as [lo c hi ls F Ht|lo k c seps right hi ls1 F1 ls2 F2 Ht Hk IH D]; intros Hf; constructor; auto.
  - by eapply tree_frame.
  - eapply tree_frame; [done|]. intros. apply Hf. sets.
  - apply IH. intros. apply Hf. sets.
Qed.

Lemma rest_frame m m' h lo seps right hi ls F :
  rest m h lo seps right hi ls F -> (forall x, x ∈ F -> m' !! x = m !! x) -> rest m' h lo seps right hi ls F.
Proof. destruct seps as [|[k c] seps]; cbn; [done|]. intros [? Hk] Hf. split; [done|by eapply kids_frame]. Qed.

(** A page and its children are a tree when there is a separator. *)
Lemma kids_tree m h lo hi id p seps right ls F :
  m !! id = Some p -> page_number id -> node_at p id seps right -> seps <> [] ->
  Forall (sep_fits K) seps -> kids m h lo seps right hi ls F -> id ∉ F ->
  tree K m (S h) lo hi id ls ({[id]} ∪ F).
Proof.
  intros Hp Hid Hn Hne Hf (mid & ls1 & F1 & ls2 & F2 & H1 & H2 & -> & -> & D)%kids_segs Ho.
  apply (tree_node K m h lo mid hi id p seps right); try done; disj.
Qed.

Lemma tree_kids m h lo hi id ls F :
  tree K m (S h) lo hi id ls F ->
  exists p seps right Fk, m !! id = Some p /\ page_number id /\ node_at p id seps right /\ seps <> [] /\
    Forall (sep_fits K) seps /\ kids m h lo seps right hi ls Fk /\ (id ∉ Fk) /\ F = {[id]} ∪ Fk.
Proof.
  inversion 1 as [|? ? mid ? ? p seps right ls1 F1 ls2 F2 Hp Hid Hn Hne Hf H1 H2 D1 D2 D3]; subst.
  exists p, seps, right, (F1 ∪ F2). split_and!; try done; [|disj]. apply kids_segs.
  by exists mid, ls1, F1, ls2, F2.
Qed.

(** ** The leaves of the parts *)

(** The leaves [ls] are pages of [F], each once. *)
Record leaves_in (m : gmap Z bytes) (ls : list leaf) (F : gset Z) : Prop := {
  leaves_in_ok : Forall (leaf_ok K m) ls;
  leaves_in_ids : Forall (fun l => lf_id l ∈ F) ls;
  leaves_in_nodup : NoDup (map lf_id ls);
}.

Lemma leaves_in_nil m F : leaves_in m [] F.
Proof. split; constructor. Qed.

Lemma leaves_in_app m ls1 F1 ls2 F2 :
  leaves_in m ls1 F1 -> leaves_in m ls2 F2 -> F1 ## F2 -> leaves_in m (ls1 ++ ls2) (F1 ∪ F2).
Proof.
  intros [A1 A2 A3] [B1 B2 B3] D. split; [by apply Forall_app| |].
  - apply Forall_app. split; [eapply Forall_impl; [exact A2|]|eapply Forall_impl; [exact B2|]]; cbn; intros; sets.
  - rewrite map_app. apply NoDup_app. split_and!; [done| |done].
    intros x Hx1 Hx2. apply list_elem_of_fmap in Hx1 as (a & -> & Ha), Hx2 as (b & E & Hb).
    rewrite Forall_forall in A2, B2. apply (D (lf_id a)); [auto|]. rewrite E. auto.
Qed.

Lemma leaves_in_perm m ls1 ls2 F F' : ls1 ≡ₚ ls2 -> leaves_in m ls1 F -> F ⊆ F' -> leaves_in m ls2 F'.
Proof.
  intros Hp [A1 A2 A3] Hsub. split; [by rewrite <-Hp| |].
  - rewrite <-Hp. eapply Forall_impl; [exact A2|]. cbn. auto.
  - pose proof (Permutation_map lf_id Hp) as Hp'. by rewrite <-Hp'.
Qed.

Lemma tree_leaves_in m h lo hi id ls F : tree K m h lo hi id ls F -> leaves_in m ls F.
Proof.
  intros Ht. split; [by eapply tree_leaves|by eapply tree_leaf_ids|by eapply tree_nodup].
Qed.

Lemma segs_leaves_in m h lo seps hi ls F : segs K m h lo seps hi ls F -> leaves_in m ls F.
Proof.
  intros Hs. destruct (proj2 (tree_segs_nodup K m) _ _ _ _ _ _ Hs), (proj2 (tree_segs_leaves K m) _ _ _ _ _ _ Hs).
  by split.
Qed.

Lemma kids_leaves_in m h lo seps right hi ls F : kids m h lo seps right hi ls F -> leaves_in m ls F.
Proof.
  intros (mid & ls1 & F1 & ls2 & F2 & H1 & H2 & -> & -> & D)%kids_segs.
  apply leaves_in_app; [by eapply segs_leaves_in|by eapply tree_leaves_in|done].
Qed.

Lemma rest_leaves_in m h lo seps right hi ls F : rest m h lo seps right hi ls F -> leaves_in m ls F.
Proof.
  destruct seps as [|[k c] seps]; cbn.
  - intros (_ & -> & ->). apply leaves_in_nil.
  - intros [_ Hk]. by eapply kids_leaves_in.
Qed.

Lemma ctx_leaves_in m root H path h id lo hi L R F :
  ctx K m root H path h id lo hi L R F -> leaves_in m (L ++ R) F.
Proof.
  induction 1 as [|path h id lo hi L R F p seps1 k c seps2 right lo' mid ls1 F1 ls2 F2 ls3 F3
      Hc IH Hp Hid Hn Hsep H1 H2 H3 D1 D2 D3 D4 D5 D6 D7 D8 D9 D10
    |path h id lo hi L R F p seps c lo' ls1 F1 Hc IH Hp Hid Hn Hne Hsep H1 D1 D2 D3].
  - apply leaves_in_nil.
  - apply (leaves_in_perm m ((L ++ R) ++ ls1 ++ ls2 ++ ls3) _ (F ∪ (F1 ∪ (F2 ∪ F3)))); [solve_Permutation| |clear; set_solver].
    apply leaves_in_app; [exact IH| |disj]. apply leaves_in_app; [by eapply segs_leaves_in| |disj].
    apply leaves_in_app; [by eapply segs_leaves_in|by eapply tree_leaves_in|disj].
  - apply (leaves_in_perm m ((L ++ R) ++ ls1) _ (F ∪ F1)); [solve_Permutation| |clear; set_solver].
    apply leaves_in_app; [done|by eapply segs_leaves_in|done].
Qed.

(** ** A child in its place

    [c] is the child behind the separators [s1] and in front of [s2]; everything else
    of the tree is there. *)
Definition slot (m : gmap Z bytes) (root : Z) (H : nat) (path : list Z) (h : nat) (id : Z) (p : bytes)
    (s1 s2 : list sep) (right : Z) (lo hi : option bytes) (L R : list leaf) (F : gset Z) : Prop :=
  exists lo0 hi0 L0 R0 F0 ls1 F1 ls2 F2,
    ctx K m root H path (S h) id lo0 hi0 L0 R0 F0 /\ m !! id = Some p /\ page_number id /\
    node_at p id (s1 ++ s2) right /\ Forall (sep_fits K) (s1 ++ s2) /\
    segs K m h lo0 s1 lo ls1 F1 /\ rest m h hi s2 right hi0 ls2 F2 /\
    (id ∉ F0) /\ (id ∉ F1) /\ (id ∉ F2) /\ F0 ## F1 /\ F0 ## F2 /\ F1 ## F2 /\
    L = L0 ++ ls1 /\ R = ls2 ++ R0 /\ F = F0 ∪ {[id]} ∪ F1 ∪ F2.

Lemma ctx_slot m root H path id h c lo hi L R F :
  ctx K m root H (path ++ [id]) h c lo hi L R F ->
  exists p s1 s2 right, slot m root H path h id p s1 s2 right lo hi L R F /\ c = head_child s2 right /\
    s1 ++ s2 <> [].
Proof.
  intros Hc. inversion Hc as [E|path' h' id' lo0 hi0 L0 R0 F0 p s1 k c' s2 right lo' mid ls1 F1 ls2 F2 ls3 F3
      Hc0 Hp Hid Hn Hsep H1 H2 H3 D1 D2 D3 D4 D5 D6 D7 D8 D9 D10 E
    |path' h' id' lo0 hi0 L0 R0 F0 p seps c' lo' ls1 F1 Hc0 Hp Hid Hn Hne Hsep H1 D1 D2 D3 E]; subst.
  - by destruct path.
  - apply app_inj_tail in E as [-> ->]. exists p, s1, ((k, c) :: s2), right.
    split; [|split; [done|by destruct s1]].
    exists lo0, hi0, L0, R0, F0, ls1, F1, (ls2 ++ ls3), (F2 ∪ F3). split_and!; try done; try disj.
    + split; [done|]. apply kids_segs. by exists mid, ls2, F2, ls3, F3.
    + by rewrite <-app_assoc.
    + clear; set_solver.
  - apply app_inj_tail in E as [-> ->]. exists p, seps, [], c. rewrite app_nil_r. split; [|done].
    exists lo0, hi, L0, R, F0, ls1, F1, [], ∅. rewrite app_nil_r. split_and!; try done; try disj.
    clear; set_solver.
Qed.

Lemma slot_page m root H path h id p s1 s2 right lo hi L R F :
  slot m root H path h id p s1 s2 right lo hi L R F ->
  m !! id = Some p /\ page_number id /\ node_at p id (s1 ++ s2) right /\ Forall (sep_fits K) (s1 ++ s2) /\ id ∈ F.
Proof.
  intros (lo0 & hi0 & L0 & R0 & F0 & ls1 & F1 & ls2 & F2 & Hc & Hp & Hid & Hn & Hf & H1 & H2
    & D1 & D2 & D3 & D4 & D5 & D6 & -> & -> & ->). split_and!; try done. sets.
Qed.

(** A child that is not elsewhere in the tree is found behind the separators [s1]. *)
Lemma slot_index m root H path h id p s1 s2 right lo hi L R F :
  slot m root H path h id p s1 s2 right lo hi L R F -> head_child s2 right ∉ F ->
  index_of (head_child s2 right) ((s1 ++ s2).*2 ++ [right]) = Some (length s1).
Proof.
  intros (lo0 & hi0 & L0 & R0 & F0 & ls1 & F1 & ls2 & F2 & Hc & Hp & Hid & Hn & Hf & H1 & H2
    & D1 & D2 & D3 & D4 & D5 & D6 & -> & -> & ->) Hout.
  rewrite fmap_app, <-app_assoc, children_head, <-(length_fmap snd s1). apply index_of_middle.
  intros Hin. apply Hout. pose proof (segs_children _ _ _ _ _ _ _ _ _ H1 Hin). sets.
Qed.

(** The root is one of the pages around a subtree that is not the whole tree. *)
Lemma ctx_root_in m root H path h id lo hi L R F :
  ctx K m root H path h id lo hi L R F -> path = [] /\ id = root \/ path <> [] /\ root ∈ F.
Proof.
  induction 1 as [|path h id lo hi L R F p seps1 k c seps2 rt lo' mid ls1 F1 ls2 F2 ls3 F3
      Hc IH Hp Hid Hn Hsep H1 H2 H3 D1 D2 D3 D4 D5 D6 D7 D8 D9 D10
    |path h id lo hi L R F p seps c lo' ls1 F1 Hc IH Hp Hid Hn Hne Hsep H1 D1 D2 D3]; [by left|right..];
    (split; [by destruct path|]); destruct IH as [[_ ->]|[_ ?]]; sets.
Qed.

(** ** Two adjacent children

    The child [a] left of the separator [k] and the one right of it, the first child of
    [s2] and [right], are missing; [lo] and [hi] are the bounds of the two together. *)
Definition pair (m : gmap Z bytes) (root : Z) (H : nat) (path : list Z) (h : nat) (id : Z) (p : bytes)
    (s1 : list sep) (k : bytes) (a : Z) (s2 : list sep) (right : Z) (lo hi : option bytes)
    (L R : list leaf) (F : gset Z) : Prop :=
  exists lo0 hi0 L0 R0 F0 ls1 F1 ls2 F2,
    ctx K m root H path (S h) id lo0 hi0 L0 R0 F0 /\ m !! id = Some p /\ page_number id /\
    node_at p id (s1 ++ (k, a) :: s2) right /\ Forall (sep_fits K) (s1 ++ (k, a) :: s2) /\
    segs K m h lo0 s1 lo ls1 F1 /\ rest m h hi s2 right hi0 ls2 F2 /\
    (id ∉ F0) /\ (id ∉ F1) /\ (id ∉ F2) /\ F0 ## F1 /\ F0 ## F2 /\ F1 ## F2 /\
    L = L0 ++ ls1 /\ R = ls2 ++ R0 /\ F = F0 ∪ {[id]} ∪ F1 ∪ F2.

(** A child with a left neighbour *)
Lemma slot_left m root H path h id p s1 k a s2 right lo hi L R F :
  slot m root H path h id p (s1 ++ [(k, a)]) s2 right lo hi L R F ->
  exists lo' L' lsa Fa F', pair m root H path h id p s1 k a s2 right lo' hi L' R F' /\
    tree K m h lo' (Some k) a lsa Fa /\ lo = Some k /\ L = L' ++ lsa /\ F = F' ∪ Fa /\ F' ## Fa.
Proof.
  intros (lo0 & hi0 & L0 & R0 & F0 & ls1 & F1 & ls2 & F2 & Hc & Hp & Hid & Hn & Hf & H1 & H2 & D1 & D2 & D3
    & D4 & D5 & D6 & -> & -> & ->).
  apply segs_app_inv in H1 as (mid & lsx & Fx & lsy & Fy & H1 & Hy & -> & -> & D7).
  inversion Hy as [|? ? ? ? ? ? lsa Fa lsz Fz Ta Hz D8]; subst. inversion Hz; subst.
  rewrite <-app_assoc in Hn, Hf. cbn [app] in Hn, Hf.
  rewrite (right_id_L ∅ (∪)) in *. rewrite app_nil_r in *.
  exists mid, (L0 ++ lsx), lsa, Fa, (F0 ∪ {[id]} ∪ Fx ∪ F2). split_and!; [|done|done|by rewrite app_assoc| |disj].
  - exists lo0, hi0, L0, R0, F0, lsx, Fx, ls2, F2. split_and!; done || disj.
  - clear; set_solver.
Qed.

(** A child with a right neighbour *)
Lemma slot_right m root H path h id p s1 k a s2 right lo hi L R F :
  slot m root H path h id p s1 ((k, a) :: s2) right lo hi L R F ->
  exists hi' R' lsb Fb F', pair m root H path h id p s1 k a s2 right lo hi' L R' F' /\
    tree K m h (Some k) hi' (head_child s2 right) lsb Fb /\ hi = Some k /\ R = lsb ++ R' /\
    F = F' ∪ Fb /\ F' ## Fb.
Proof.
  intros (lo0 & hi0 & L0 & R0 & F0 & ls1 & F1 & ls2 & F2 & Hc & Hp & Hid & Hn & Hf & H1 & H2 & D1 & D2 & D3
    & D4 & D5 & D6 & -> & -> & ->).
  destruct H2 as [-> H2]. apply kids_head in H2 as (mid & lsb & Fb & lsr & Fr & Tb & Hr & -> & -> & D7).
  exists mid, (lsr ++ R0), lsb, Fb, (F0 ∪ {[id]} ∪ F1 ∪ Fr).
  split_and!; [|done|done|by rewrite app_assoc| |disj].
  - exists lo0, hi0, L0, R0, F0, ls1, F1, lsr, Fr. split_and!; done || disj.
  - clear; set_solver.
Qed.

(** The two children given, one of them is in its place. *)
Lemma pair_slot_left m root H path h id p s1 k a s2 right lo hi L R F lsa Fa :
  pair m root H path h id p s1 k a s2 right lo hi L R F -> tree K m h lo (Some k) a lsa Fa -> F ## Fa ->
  slot m root H path h id p (s1 ++ [(k, a)]) s2 right (Some k) hi (L ++ lsa) R (F ∪ Fa).
Proof.
  intros (lo0 & hi0 & L0 & R0 & F0 & ls1 & F1 & ls2 & F2 & Hc & Hp & Hid & Hn & Hf & H1 & H2 & D1 & D2 & D3
    & D4 & D5 & D6 & -> & -> & ->) Ta D.
  exists lo0, hi0, L0, R0, F0, (ls1 ++ lsa), (F1 ∪ Fa), ls2, F2. rewrite <-!app_assoc. cbn [app].
  split_and!; try done; try disj.
  - eapply segs_app; [done| |disj]. rewrite <-(app_nil_r lsa), <-(right_id_L ∅ (∪) Fa).
    constructor; [done|constructor|disj].
  - clear; set_solver.
Qed.

Section pair.
Context (m : gmap Z bytes) (root : Z) (H : nat) (path : list Z) (h : nat) (id : Z) (p : bytes).
Context (s1 : list sep) (k : bytes) (a : Z) (s2 : list sep) (right : Z) (lo hi : option bytes).
Context (L R : list leaf) (F : gset Z).
Context (Hpair : pair m root H path h id p s1 k a s2 right lo hi L R F).

Lemma pair_page : m !! id = Some p /\ page_number id /\ node_at p id (s1 ++ (k, a) :: s2) right /\
  Forall (sep_fits K) (s1 ++ (k, a) :: s2) /\ id ∈ F.
Proof.
  destruct Hpair as (lo0 & hi0 & L0 & R0 & F0 & ls1 & F1 & ls2 & F2 & Hc & Hp & Hid & Hn & Hf & H1 & H2
    & D1 & D2 & D3 & D4 & D5 & D6 & -> & -> & ->). split_and!; try done. sets.
Qed.

Lemma pair_leaves_in : leaves_in m (L ++ R) F.
Proof.
  destruct Hpair as (lo0 & hi0 & L0 & R0 & F0 & ls1 & F1 & ls2 & F2 & Hc & Hp & Hid & Hn & Hf & H1 & H2
    & D1 & D2 & D3 & D4 & D5 & D6 & -> & -> & ->).
  apply (leaves_in_perm m ((L0 ++ R0) ++ ls1 ++ ls2) _ (F0 ∪ (F1 ∪ F2))); [solve_Permutation| |clear; set_solver].
  apply leaves_in_app; [by eapply ctx_leaves_in| |disj].
  apply leaves_in_app; [by eapply segs_leaves_in|by eapply rest_leaves_in|done].
Qed.

(** A leaf elsewhere gets another left neighbour. *)
Lemma pair_relink next n pn q l0 :
  m !! next = Some pn -> leaf_at pn l0 -> resealed (set_prev_leaf pn n) q -> u32_ok n ->
  pair (<[next := q]> m) root H path h id p s1 k a s2 right lo hi
    (map (relink next n) L) (map (relink next n) R) F.
Proof.
  intros Hpn Hl0 Hq Hn. destruct Hpair as (lo0 & hi0 & L0 & R0 & F0 & ls1 & F1 & ls2 & F2 & Hc & Hp & Hid
    & Hnode & Hf & H1 & H2 & D1 & D2 & D3 & D4 & D5 & D6 & -> & -> & ->).
  exists lo0, hi0, (map (relink next n) L0), (map (relink next n) R0), F0, (map (relink next n) ls1), F1,
    (map (relink next n) ls2), F2. rewrite !map_app. split_and!; try done.
  - by eapply ctx_relink.
  - by eapply relink_node.
  - eapply segs_relink; [exact Hpn|exact Hl0|exact Hq|exact Hn|exact H1].
  - destruct s2 as [|[k2 c2] s2']; cbn in H2 |- *; [by destruct H2 as (-> & -> & ->)|].
    destruct H2 as [-> H2]. split; [done|]. apply kids_segs in H2 as (mid & lsx & Fx & lsy & Fy & X1 & X2 & -> & -> & X3).
    rewrite map_app. apply kids_segs. exists mid, (map (relink next n) lsx), Fx, (map (relink next n) lsy), Fy.
    split_and!; try done; [by eapply segs_relink|by eapply tree_relink].
Qed.

(** The page is written with another separator, and other pages change. *)
Lemma pair_rewritten m' q k' :
  (forall x, x ∈ F -> x <> id -> m' !! x = m !! x) -> m' !! id = Some q ->
  node_at q id (s1 ++ (k', a) :: s2) right -> sep_fits K (k', a) ->
  pair m' root H path h id q s1 k' a s2 right lo hi L R F.
Proof.
  intros Hfr Hq Hnq Hk. destruct Hpair as (lo0 & hi0 & L0 & R0 & F0 & ls1 & F1 & ls2 & F2 & Hc & Hp & Hid
    & Hn & Hf & H1 & H2 & D1 & D2 & D3 & D4 & D5 & D6 & -> & -> & ->).
  assert (Hfr' : forall x, x ∈ F0 ∪ F1 ∪ F2 -> m' !! x = m !! x).
  { intros x Hx. apply Hfr; [clear -Hx; set_solver|]. intros ->. disj_norm. sets. }
  exists lo0, hi0, L0, R0, F0, ls1, F1, ls2, F2. split_and!; try done.
  - eapply ctx_frame; [done|]. intros. apply Hfr'. sets.
  - apply Forall_app in Hf as [Hf1 [_ Hf2]%Forall_cons]. apply Forall_app. split; [done|by constructor].
  - eapply segs_frame; [done|]. intros. apply Hfr'. sets.
  - eapply rest_frame; [done|]. intros. apply Hfr'. sets.
Qed.

(** Both children are given: the whole tree. *)
Lemma pair_plug lsa Fa lsb Fb :
  tree K m h lo (Some k) a lsa Fa -> tree K m h (Some k) hi (head_child s2 right) lsb Fb ->
  F ## Fa -> F ## Fb -> Fa ## Fb ->
  tree K m H None None root (L ++ lsa ++ lsb ++ R) (F ∪ Fa ∪ Fb).
Proof.
  intros Ta Tb Da Db Dab. destruct Hpair as (lo0 & hi0 & L0 & R0 & F0 & ls1 & F1 & ls2 & F2 & Hc & Hp & Hid
    & Hn & Hf & H1 & H2 & D1 & D2 & D3 & D4 & D5 & D6 & -> & -> & ->).
  assert (T : tree K m (S h) lo0 hi0 id (ls1 ++ lsa ++ lsb ++ ls2) ({[id]} ∪ (F1 ∪ (Fa ∪ (Fb ∪ F2))))).
  { eapply kids_tree; [done|done|done|by destruct s1|done| |disj].
    eapply kids_app; [done| |disj]. constructor; [done| |disj]. apply kids_head.
    exists hi, lsb, Fb, ls2, F2. split_and!; done || disj. }
  eapply ctx_plug in T; [|done|disj].
  replace ((L0 ++ ls1) ++ lsa ++ lsb ++ ls2 ++ R0) with (L0 ++ (ls1 ++ lsa ++ lsb ++ ls2) ++ R0)
    by (by rewrite <-!app_assoc).
  replace (F0 ∪ {[id]} ∪ F1 ∪ F2 ∪ Fa ∪ Fb) with (F0 ∪ ({[id]} ∪ (F1 ∪ (Fa ∪ (Fb ∪ F2)))));
    [done|clear; set_solver].
Qed.

End pair.

(** ** A page that may have lost its last separator *)

Definition loose (m : gmap Z bytes) (root : Z) (H : nat) (path : list Z) (h : nat) (id : Z)
    (ls : list leaf) (F : gset Z) : Prop :=
  exists lo hi L R F0 p seps right lsk Fk,
    ctx K m root H path (S h) id lo hi L R F0 /\ m !! id = Some p /\ page_number id /\
    node_at p id seps right /\ Forall (sep_fits K) seps /\ kids m h lo seps right hi lsk Fk /\
    (id ∉ F0) /\ (id ∉ Fk) /\ F0 ## Fk /\ ls = L ++ lsk ++ R /\ F = F0 ∪ ({[id]} ∪ Fk).

(** One child takes the place of both. *)
Lemma pair_merged m root H path h id p s1 k a s2 right lo hi L R F m' q lsa Fa :
  pair m root H path h id p s1 k a s2 right lo hi L R F ->
  (forall x, x ∈ F -> x <> id -> m' !! x = m !! x) -> m' !! id = Some q ->
  node_at q id (s1 ++ set_head a s2) (set_last a s2 right) ->
  tree K m' h lo hi a lsa Fa -> F ## Fa ->
  loose m' root H path h id (L ++ lsa ++ R) (F ∪ Fa).
Proof.
  intros (lo0 & hi0 & L0 & R0 & F0 & ls1 & F1 & ls2 & F2 & Hc & Hp & Hid
    & Hn & Hf & H1 & H2 & D1 & D2 & D3 & D4 & D5 & D6 & -> & -> & ->) Hfr Hq Hnq Ta D.
  assert (Hfr' : forall x, x ∈ F0 ∪ F1 ∪ F2 -> m' !! x = m !! x).
  { intros x Hx. apply Hfr; [clear -Hx; set_solver|]. intros ->. disj_norm. sets. }
  exists lo0, hi0, L0, R0, F0, q, (s1 ++ set_head a s2), (set_last a s2 right), (ls1 ++ lsa ++ ls2),
    (F1 ∪ (Fa ∪ F2)). split_and!; try done; try disj.
  - eapply ctx_frame; [done|]. intros. apply Hfr'. sets.
  - apply Forall_app in Hf as [Hf1 [_ Hf2]%Forall_cons]. apply Forall_app. split; [done|].
    destruct s2 as [|[k2 c2] s2]; [constructor|]. by apply Forall_cons in Hf2 as [? ?]; constructor.
  - eapply kids_app; [eapply segs_frame; [done|]; intros; apply Hfr'; sets| |disj].
    apply kids_head. exists hi, lsa, Fa, ls2, F2. split; [by destruct s2 as [|[]]|].
    split; [|split_and!; done || disj]. apply rest_set_head. eapply rest_frame; [done|]. intros. apply Hfr'. sets.
  - by rewrite <-!app_assoc.
  - clear; set_solver.
Qed.

End siblings.
