(* ===== verification/Cursor.v ===== *)
(** * Cursors over a B+ tree ([crates/reddb-engine/src/storage/btree.rs], [BTreeCursor])

    The iteration along the chain of leaves, with its two modes, and the range scan
    and the count built on it.  The prefetch hint asks the file system to read
    ahead; it returns nothing and only its flag is kept. *)

From S2P Require Import Prelude FileFormat Page PageStore Overflow ValueLayout Slots Leaf Interior BTree Tree BTreeRead Splits.
From Stdlib Require Import ZArith Lia.

Record BTreeCursor (S : Type) : Type := {
  cur_pager : S;
  leaf_page_id : Z;
  position : Z;
  prefetched_next : bool;
  immutable : bool;
  immutable_leaf : option bytes;
}.
Arguments cur_pager {S} _.
Arguments leaf_page_id {S} _.
Arguments position {S} _.
Arguments prefetched_next {S} _.
Arguments immutable {S} _.
Arguments immutable_leaf {S} _.

(** The assignments of the methods *)
Definition set_cur_pager {S} (s : S) (c : BTreeCursor S) : BTreeCursor S :=
  {| cur_pager := s; leaf_page_id := leaf_page_id c; position := position c;
     prefetched_next := prefetched_next c; immutable := immutable c; immutable_leaf := immutable_leaf c |}.
Definition set_leaf {S} (id : Z) (c : BTreeCursor S) : BTreeCursor S :=
  {| cur_pager := cur_pager c; leaf_page_id := id; position := position c;
     prefetched_next := prefetched_next c; immutable := immutable c; immutable_leaf := immutable_leaf c |}.
Definition set_position {S} (n : Z) (c : BTreeCursor S) : BTreeCursor S :=
  {| cur_pager := cur_pager c; leaf_page_id := leaf_page_id c; position := n;
     prefetched_next := prefetched_next c; immutable := immutable c; immutable_leaf := immutable_leaf c |}.
Definition set_prefetched {S} (b : bool) (c : BTreeCursor S) : BTreeCursor S :=
  {| cur_pager := cur_pager c; leaf_page_id := leaf_page_id c; position := position c;
     prefetched_next := b; immutable := immutable c; immutable_leaf := immutable_leaf c |}.
Definition set_immutable_leaf {S} (p : option bytes) (c : BTreeCursor S) : BTreeCursor S :=
  {| cur_pager := cur_pager c; leaf_page_id := leaf_page_id c; position := position c;
     prefetched_next := prefetched_next c; immutable := immutable c; immutable_leaf := p |}.

Definition new_cursor {S} (s : S) (id pos : Z) : BTreeCursor S :=
  {| cur_pager := s; leaf_page_id := id; position := pos; prefetched_next := false;
     immutable := false; immutable_leaf := None |}.

Definition with_immutable_leaves {S} (c : BTreeCursor S) : BTreeCursor S :=
  {| cur_pager := cur_pager c; leaf_page_id := leaf_page_id c; position := position c;
     prefetched_next := prefetched_next c; immutable := true; immutable_leaf := immutable_leaf c |}.

Section cursor.
Context {S : Type} `{PageStore S}.
Context (lz4_decompress : bytes -> Z -> string + bytes) (fuel : nat).

Abbreviation C := (eff (BTreeCursor S) BTreeError).

Definition cur_read (id : Z) : C bytes := within cur_pager set_cur_pager PagerFailed (read_page id).
Definition cur_decode (stored : bytes) (limit : Z) : C bytes :=
  within cur_pager set_cur_pager btree_of_layout (decode_with_budget lz4_decompress fuel stored limit).
Definition cur_type (page : bytes) : C PageType := lift (map_err CorruptedPage (page_type page)).
Definition get_cursor : C (BTreeCursor S) := fun c => (c, Ok c).
Definition update (f : BTreeCursor S -> BTreeCursor S) : C unit := fun c => (f c, Ok tt).

(** The read of a page that has to be a leaf *)
Definition read_leaf (id : Z) (message : string) : C bytes :=
  page ← cur_read id;
  t ← cur_type page;
  if negb (bool_decide (t = BTreeLeaf)) then fail (Corrupted message) else mret page.

(** [high.as_ref().is_some_and(|key| first_key <= *key)] *)
Definition does_not_advance (high : option bytes) (first_key : bytes) : bool :=
  match high with Some key => negb (bool_decide (blt key first_key)) | None => false end.

(** The leaf [next] behind [page], which has to have greater keys *)
Definition following_leaf (page : bytes) (next : Z) : C bytes :=
  next_page ← cur_read next;
  t ← cur_type next_page;
  if negb (bool_decide (t = BTreeLeaf)) || (cell_count next_page =? 0)
  then fail (Corrupted "leaf chain reached an invalid leaf")
  else
    first ← lift (read_leaf_cell next_page 0);
    high ← lift (leaf_high_key page);
    if does_not_advance high first.1 then fail (Corrupted "leaf chain does not advance its key range")
    else mret next_page.

(** ** The mode that retains its leaf *)

Definition prepare_immutable_leaf : C bool :=
  c ← get_cursor;
  if leaf_page_id c =? 0 then mret false
  else
    page ← match immutable_leaf c with
           | None =>
               page ← read_leaf (leaf_page_id c) "cursor reached a non-leaf page";
               _ ← update (set_immutable_leaf (Some page));
               mret page
           | Some page => mret page
           end;
    if position c <? cell_count page then mret true
    else
      let next := read_next_leaf page in
      if next =? 0 then
        _ ← update (set_leaf 0);
        _ ← update (set_immutable_leaf None);
        mret false
      else
        next_page ← following_leaf page next;
        _ ← update (set_immutable_leaf (Some next_page));
        _ ← update (set_leaf next);
        _ ← update (set_position 0);
        _ ← update (set_prefetched false);
        mret true.

(** [self.immutable_leaf.as_ref().expect("loaded immutable leaf")] *)
Definition loaded_leaf : C bytes := fun c =>
  (c, match immutable_leaf c with Some page => Ok page | None => Panic end).

(** The entry at the cursor *)
Definition next_in_leaf (page : bytes) (limit_bytes : Z) : C (option (bytes * bytes)) :=
  c ← get_cursor;
  cell ← lift (read_leaf_cell page (position c));
  value ← cur_decode cell.2 limit_bytes;
  _ ← update (set_position (position c + 1));
  mret (Some (cell.1, value)).

Definition next_immutable (limit_bytes : Z) : C (option (bytes * bytes)) :=
  ready ← prepare_immutable_leaf;
  if negb ready then mret None
  else
    page ← loaded_leaf;
    c ← get_cursor;
    _ ← (if negb (prefetched_next c) && (cell_count page / 2 <=? position c)
         then update (set_prefetched true) else mret tt);
    next_in_leaf page limit_bytes.

(** ** The mode that reads the leaf again *)

Definition prepare_next_leaf : C (option bytes) :=
  c ← get_cursor;
  if leaf_page_id c =? 0 then mret None
  else
    page ← read_leaf (leaf_page_id c) "cursor reached a non-leaf page";
    if position c <? cell_count page then mret (Some page)
    else
      let next := read_next_leaf page in
      if next =? 0 then _ ← update (set_leaf 0); mret None
      else
        next_page ← following_leaf page next;
        _ ← update (set_leaf next);
        _ ← update (set_position 0);
        _ ← update (set_prefetched false);
        mret (Some next_page).

(** The first entry of the leaf behind [page] *)
Definition next_from_sibling (page : bytes) (limit_bytes : Z) : C (option (bytes * bytes)) :=
  let next_leaf := read_next_leaf page in
  if next_leaf =? 0 then _ ← update (set_leaf 0); mret None
  else
    previous_high_key ← lift (leaf_high_key page);
    _ ← update (set_leaf next_leaf);
    _ ← update (set_position 0);
    _ ← update (set_prefetched false);
    page ← read_leaf next_leaf "leaf chain reached a non-leaf page";
    if cell_count page =? 0 then mret None
    else
      cell ← lift (read_leaf_cell page 0);
      if does_not_advance previous_high_key cell.1 then
        _ ← update (set_leaf 0);
        fail (Corrupted "leaf chain does not advance its key range")
      else
        value ← cur_decode cell.2 limit_bytes;
        _ ← update (set_position 1);
        mret (Some (cell.1, value)).

Definition next_impl (limit_bytes : Z) : C (option (bytes * bytes)) :=
  c ← get_cursor;
  if immutable c then next_immutable limit_bytes
  else if leaf_page_id c =? 0 then mret None
  else
    page ← read_leaf (leaf_page_id c) "cursor reached a non-leaf page";
    _ ← (if negb (prefetched_next c) && (cell_count page / 2 <=? position c) && (0 <? cell_count page)
         then update (set_prefetched true) else mret tt);
    if position c <? cell_count page then next_in_leaf page limit_bytes
    else next_from_sibling page limit_bytes.

Definition next_with_budget (limit_bytes : Z) : C (option (bytes * bytes)) := next_impl limit_bytes.
Definition next : C (option (bytes * bytes)) := next_impl USIZE_MAX.

(** The page that a peek or a skip stands on, in either mode *)
Definition prepare_leaf : C (option bytes) :=
  c ← get_cursor;
  if immutable c then
    ready ← prepare_immutable_leaf;
    if negb ready then mret None else page ← loaded_leaf; mret (Some page)
  else prepare_next_leaf.

Definition peek_key_with {T} (visit : bytes -> T) : C (option T) :=
  page ← prepare_leaf;
  match page with
  | None => mret None
  | Some page => c ← get_cursor; cell ← lift (read_leaf_cell page (position c)); mret (Some (visit cell.1))
  end.

Definition peek_key : C (option bytes) := peek_key_with id.

Definition skip_next : C bool :=
  page ← prepare_leaf;
  match page with
  | None => mret false
  | Some _ => c ← get_cursor; _ ← update (set_position (position c + 1)); mret true
  end.

Definition peek : C (option (bytes * bytes)) :=
  c ← get_cursor;
  if leaf_page_id c =? 0 then mret None
  else
    page ← cur_read (leaf_page_id c);
    if cell_count page <=? position c then mret None
    else
      cell ← lift (read_leaf_cell page (position c));
      value ← within cur_pager set_cur_pager btree_of_layout (decode lz4_decompress fuel cell.2);
      mret (Some (cell.1, value)).

(** ** The scans; [n] bounds the number of entries visited *)

Fixpoint range_loop (n : nat) (end_key : bytes) (results : list (bytes * bytes))
    : C (list (bytes * bytes)) :=
  match n with
  | O => out_of_fuel
  | Datatypes.S n =>
      e ← next;
      match e with
      | None => mret results
      | Some (key, value) =>
          if bool_decide (blt end_key key) then mret results
          else range_loop n end_key (results ++ [(key, value)])
      end
  end.

Fixpoint count_loop (n : nat) (count : Z) : C Z :=
  match n with
  | O => out_of_fuel
  | Datatypes.S n =>
      e ← next;
      match e with
      | None => mret count
      | Some _ => count_loop n (count + 1)
      end
  end.

(** A scan with a cursor, which shares the tree's pager *)
Definition with_cursor {A} (cursor : BTreeCursor S) (m : C A) : eff (BTree S) BTreeError A := fun t =>
  let '(c, r) := m (set_cur_pager (pager t) cursor) in (set_pager (cur_pager c) t, r).

Definition make_cursor (id pos : Z) : eff (BTree S) BTreeError (BTreeCursor S) := fun t =>
  (t, Ok (new_cursor (pager t) id pos)).

Definition cursor_first : eff (BTree S) BTreeError (BTreeCursor S) :=
  root_id ← get_root;
  if root_id =? 0 then make_cursor 0 0
  else first_leaf ← find_first_leaf root_id; make_cursor first_leaf 0.

Definition cursor_seek (key : bytes) : eff (BTree S) BTreeError (BTreeCursor S) :=
  root_id ← get_root;
  if root_id =? 0 then make_cursor 0 0
  else
    found ← find_leaf root_id key;
    page ← bt_read found.1;
    r ← lift (search_leaf page key);
    make_cursor found.1 (match r with Found pos => pos | SearchNotFound pos => pos end).

Definition range (n : nat) (start_key end_key : bytes) : eff (BTree S) BTreeError (list (bytes * bytes)) :=
  cursor ← cursor_seek start_key;
  with_cursor cursor (range_loop n end_key []).

Definition count (n : nat) : eff (BTree S) BTreeError Z :=
  root_id ← get_root;
  if root_id =? 0 then mret 0
  else cursor ← cursor_first; with_cursor cursor (count_loop n 0).

End cursor.

(** * Theorems *)

Section laws.
Context {S : Type} `{HS : PageStore S} `{!PageStoreLaws S}.
Context (lz4_decompress : bytes -> Z -> string + bytes) (fuel : nat) (K : key_sizes).
Implicit Types c : BTreeCursor S.

(** The leaves that a cursor walks, in a store with the pages [m] *)
Record walk (m : gmap Z bytes) (ls : list leaf) : Prop := {
  walk_leaves : Forall (leaf_ok K m) ls;
  walk_links : linked 0 ls 0;
  walk_sorted : StronglySorted blt (contents ls).*1;
}.

(** The cursor stands before the entries [es]. *)
Inductive stands (ls : list leaf) c : list entry -> Prop :=
| stands_end : leaf_page_id c = 0 -> stands ls c []
| stands_at L l R i :
    ls = L ++ l :: R -> leaf_page_id c = lf_id l -> position c = Z.of_nat i ->
    (i <= length (lf_entries l))%nat -> stands ls c (drop i (lf_entries l) ++ contents R).

(** Nothing but the cursor has moved, and the store is as before. *)
Record same_store c c' : Prop := {
  store_pages : pages (cur_pager c') = pages (cur_pager c);
  store_room : forall n, room (cur_pager c) n -> room (cur_pager c') n;
  store_mode : immutable c' = immutable c;
}.

#[export] Instance same_store_preorder : PreOrder same_store.
Proof. split; [by split|]. intros c1 c2 c3 [A1 A2 A3] [B1 B2 B3]. split; [congruence|auto|congruence]. Qed.

Lemma read_leaf_ok c id p l msg :
  pages (cur_pager c) !! id = Some p -> leaf_at p l ->
  exists s, read_leaf id msg c = (set_cur_pager s c, Ok p) /\ pages s = pages (cur_pager c) /\
    (forall n, room (cur_pager c) n -> room s n).
Proof.
  intros Hp Hl. destruct (read_page_ok (cur_pager c) id p Hp) as (s & E & Hs & _ & Hr).
  exists s. split; [|done]. unfold read_leaf, cur_read.
  rewrite (eff_bind_ok _ _ _ _ _ (within_ok cur_pager set_cur_pager PagerFailed _ c _ _ E)).
  unfold cur_type, lift. rewrite (proj1 Hl). done.
Qed.

Lemma cur_decode_ok c stored v ids :
  value_at lz4_decompress (pages (cur_pager c)) stored v ids -> zlen v <= BTREE_VALUE_MAX_SIZE ->
  (length ids <= fuel)%nat ->
  exists s, cur_decode lz4_decompress fuel stored USIZE_MAX c = (set_cur_pager s c, Ok v) /\
    pages s = pages (cur_pager c) /\ (forall n, room (cur_pager c) n -> room s n).
Proof.
  intros Hv Hl Hf.
  destruct (decode_ok lz4_decompress fuel stored v ids (cur_pager c) Hv Hf Hl) as (s & Hp & Hr & E).
  exists s. split; [|done]. by apply within_ok.
Qed.

(** A leaf of the walk and the one behind it *)
Lemma walk_leaf m L l R :
  walk m (L ++ l :: R) ->
  (exists p, m !! lf_id l = Some p /\ leaf_at p l) /\ lf_id l <> 0 /\ lf_entries l <> [] /\
  lf_next l = first_id R 0.
Proof.
  intros [Hl Hk _]. apply Forall_app in Hl as [_ [(Hp & [Hn _] & Hne & _) _]%Forall_cons].
  apply linked_app in Hk as [_ (_ & Hnx & _)]. done.
Qed.

Lemma walk_advances m L l l2 R :
  walk m (L ++ l :: l2 :: R) ->
  forall e, head (lf_entries l2) = Some e -> does_not_advance (last (lf_entries l).*1) e.1 = false.
Proof.
  intros [_ _ Hs] e He. unfold does_not_advance.
  destruct (last (lf_entries l).*1) as [high|] eqn:Eh; [|done].
  rewrite bool_decide_true; [done|]. rewrite contents_middle, fmap_app in Hs.
  apply sorted_app in Hs as (_ & Hs & _). rewrite fmap_app in Hs. apply sorted_app in Hs as (_ & _ & Hs).
  rewrite Forall_forall in Hs. apply last_Some_elem_of in Eh. specialize (Hs high Eh).
  rewrite Forall_forall in Hs. apply Hs. destruct (lf_entries l2) as [|e' es] eqn:El; [done|].
  injection He as ->. unfold contents. cbn [map concat]. rewrite El. cbn. by left.
Qed.

(** The entry at the cursor is read and decoded. *)
Lemma entry_at_cursor c p l i e m es kvs G :
  leaf_at p l -> lf_entries l !! i = Some e -> pages (cur_pager c) = m -> held lz4_decompress fuel m (e :: es) kvs G ->
  exists s v, lift (read_leaf_cell p (Z.of_nat i)) c = (c, Ok e) /\
    cur_decode lz4_decompress fuel e.2 USIZE_MAX c = (set_cur_pager s c, Ok v) /\
    head kvs = Some (e.1, v) /\ pages s = m /\ (forall n, room (cur_pager c) n -> room s n).
Proof.
  intros Hl Hi Hm Hh. inversion Hh as [|k stored es' v ids kvs' G' Hv Hvl Hf Hh' D]; subst.
  destruct (cur_decode_ok c stored v ids Hv Hvl Hf) as (s & E & Hp & Hr).
  exists s, v. unfold lift. rewrite (leaf_rep_read _ _ _ _ (proj2 (proj2 (proj2 (proj2 Hl)))) Hi). done.
Qed.

Lemma next_in_leaf_ok c m ls L l R p i e kvs G :
  ls = L ++ l :: R -> leaf_at p l -> pages (cur_pager c) = m -> leaf_page_id c = lf_id l ->
  position c = Z.of_nat i -> lf_entries l !! i = Some e ->
  held lz4_decompress fuel m (e :: drop (Datatypes.S i) (lf_entries l) ++ contents R) kvs G ->
  exists c', next_in_leaf lz4_decompress fuel p USIZE_MAX c = (c', Ok (head kvs)) /\ same_store c c' /\
    stands ls c' (drop (Datatypes.S i) (lf_entries l) ++ contents R) /\
    immutable_leaf c' = immutable_leaf c /\ leaf_page_id c' = lf_id l.
Proof.
  intros -> Hl Hm Hid Hpos Ei Hh. unfold next_in_leaf. rewrite (eff_bind_ok get_cursor _ c c c eq_refl), Hpos.
  destruct (entry_at_cursor c p l i e m _ kvs G Hl Ei Hm Hh) as (s2 & v & E3 & E4 & Ev & P4 & R4).
  rewrite (eff_bind_ok _ _ _ _ _ E3), (eff_bind_ok _ _ _ _ _ E4), Ev. eexists. split; [reflexivity|].
  apply lookup_lt_Some in Ei as Hlt. split; [split; cbn; congruence || done|]. split; [|done].
  eapply (stands_at _ _ L l R (Datatypes.S i)); cbn; [done|done|lia|lia].
Qed.

Lemma next_from_sibling_ok c m ls L l R p kvs G :
  walk m ls -> ls = L ++ l :: R -> leaf_at p l -> pages (cur_pager c) = m ->
  held lz4_decompress fuel m (contents R) kvs G ->
  exists c', next_from_sibling lz4_decompress fuel p USIZE_MAX c = (c', Ok (head kvs)) /\ same_store c c' /\
    stands ls c' (tail (contents R)).
Proof.
  intros Hw -> Hl Hm Hh. destruct (walk_leaf _ _ _ _ Hw) as (_ & _ & _ & Hnx). unfold next_from_sibling.
  rewrite (proj1 (proj2 (proj2 (proj2 Hl)))), Hnx. destruct R as [|l2 R]; cbn [first_id].
  { inversion Hh; subst. eexists. split; [reflexivity|]. split; [by split|by constructor]. }
  pose proof Hw as Hw2. change (L ++ l :: l2 :: R) with (L ++ [l] ++ l2 :: R) in Hw2. rewrite app_assoc in Hw2.
  destruct (walk_leaf _ _ _ _ Hw2) as ((p2 & Hp2 & Hl2) & Hn2 & Hne2 & _).
  rewrite (proj2 (Z.eqb_neq _ _)) by done.
  rewrite (eff_bind_lift _ _ _ _ (leaf_high_key_ok _ _ (proj2 (proj2 (proj2 (proj2 Hl)))))).
  do 3 rewrite (eff_bind_ok (update _) _ _ _ tt eq_refl).
  match goal with |- context [(read_leaf (lf_id l2) _ ≫= _) ?x] => remember x as c3 eqn:Ec3 end.
  assert (P3 : pages (cur_pager c3) = m) by (by rewrite Ec3). rewrite <-P3 in Hp2.
  destruct (read_leaf_ok c3 (lf_id l2) p2 l2 "leaf chain reached a non-leaf page" Hp2 Hl2) as (s4 & E4 & P4 & R4).
  rewrite (eff_bind_ok _ _ _ _ _ E4). rewrite (proj2 (proj2 (proj2 (proj2 (proj2 Hl2))))).
  change (contents (l2 :: R)) with (lf_entries l2 ++ contents R) in *.
  destruct (lf_entries l2) as [|e es] eqn:Ees; [done|]. cbn [app tail] in *.
  rewrite (proj2 (Z.eqb_neq _ _)) by (rewrite zlen_cons; pose proof (zlen_nonneg es); lia).
  assert (E0 : lf_entries l2 !! 0%nat = Some e) by (by rewrite Ees).
  destruct (entry_at_cursor (set_cur_pager s4 c3) p2 l2 0 e m _ kvs G Hl2 E0 ltac:(cbn; congruence) Hh)
    as (s5 & v & E5 & E6 & Ev & P6 & R6).
  change (Z.of_nat 0) with 0 in E5. rewrite (eff_bind_ok _ _ _ _ _ E5).
  rewrite (walk_advances _ _ _ _ _ Hw) by (by rewrite Ees).
  rewrite (eff_bind_ok _ _ _ _ _ E6), Ev. eexists. split; [reflexivity|]. split.
  - split; cbn; [congruence| |by rewrite Ec3]. intros n Hn. apply R6. cbn. apply R4. by rewrite Ec3.
  - change (es ++ contents R) with (drop 1 (e :: es) ++ contents R). rewrite <-Ees.
    eapply (stands_at _ _ (L ++ [l]) l2 R 1); cbn; [by rewrite <-app_assoc|by rewrite Ec3|done|rewrite Ees; cbn; lia].
Qed.

Lemma next_mutable_ok c m ls es kvs G :
  walk m ls -> pages (cur_pager c) = m -> stands ls c es -> immutable c = false ->
  held lz4_decompress fuel m es kvs G ->
  exists c', next lz4_decompress fuel c = (c', Ok (head kvs)) /\ same_store c c' /\ stands ls c' (tail es).
Proof.
  intros Hw Hm Hst Him Hh. unfold next, next_impl. rewrite (eff_bind_ok get_cursor _ c c c eq_refl), Him.
  destruct Hst as [H0|L l R i Els Hid Hpos Hi].
  { rewrite H0. inversion Hh; subst. exists c. split; [done|]. split; [done|]. by constructor. }
  rewrite Els in Hw. destruct (walk_leaf _ _ _ _ Hw) as ((p & Hp & Hl) & Hn0 & Hne & Hnx). rewrite <-Els in Hw.
  rewrite Hid, (proj2 (Z.eqb_neq _ _)) by done. rewrite <-Hm in Hp.
  destruct (read_leaf_ok c (lf_id l) p l "cursor reached a non-leaf page" Hp Hl) as (s1 & E1 & P1 & R1).
  rewrite (eff_bind_ok _ _ _ _ _ E1).
  set (pre := (if negb (prefetched_next c) && (cell_count p / 2 <=? position c) && (0 <? cell_count p)
    then update (set_prefetched true) else mret tt)).
  assert (Hpre : exists c2, pre (set_cur_pager s1 c) = (c2, Ok tt) /\ cur_pager c2 = s1 /\
    immutable c2 = false /\ leaf_page_id c2 = leaf_page_id c /\ position c2 = position c).
  { unfold pre. destruct (_ && _ && _); eexists; split; done. }
  destruct Hpre as (c2 & E2 & P2 & I2 & J2 & Q2). rewrite (eff_bind_ok _ _ _ _ _ E2). clear E2 pre.
  assert (Hsame : same_store c c2) by (split; rewrite ?P2; congruence || done).
  rewrite Hpos, (proj2 (proj2 (proj2 (proj2 (proj2 Hl))))).
  destruct (lf_entries l !! i) as [e|] eqn:Ei.
  - rewrite (drop_S _ e) in Hh |- * by done. cbn [app tail] in *.
    apply lookup_lt_Some in Ei as Hlt. rewrite (proj2 (Z.ltb_lt _ _)) by (unfold zlen; lia).
    destruct (next_in_leaf_ok c2 m ls L l R p i e kvs G Els Hl) as (c' & E3 & S3 & T3 & _);
      [congruence|congruence|congruence|done|done|].
    exists c'. split; [done|]. split; [by etrans|done].
  - apply lookup_ge_None in Ei as Hge. rewrite (proj2 (Z.ltb_ge _ _)) by (unfold zlen; lia).
    rewrite drop_ge in Hh |- * by lia. cbn [app] in *.
    destruct (next_from_sibling_ok c2 m ls L l R p kvs G Hw Els Hl) as (c' & E3 & S3 & T3);
      [congruence|done|].
    exists c'. split; [done|]. split; [by etrans|done].
Qed.

(** The retained leaf is the page of the leaf the cursor is on. *)
Definition retains (m : gmap Z bytes) c : Prop :=
  match immutable_leaf c with Some p => leaf_page_id c = 0 \/ m !! leaf_page_id c = Some p | None => True end.

(** The cursor is on an entry, and retains its leaf. *)
Definition on_entry (m : gmap Z bytes) (ls : list leaf) c (e : entry) (es : list entry) : Prop :=
  exists L l R i p, ls = L ++ l :: R /\ leaf_page_id c = lf_id l /\ position c = Z.of_nat i /\
    lf_entries l !! i = Some e /\ es = drop (Datatypes.S i) (lf_entries l) ++ contents R /\
    immutable_leaf c = Some p /\ leaf_at p l /\ m !! lf_id l = Some p.

(** The leaf the cursor is on, retained or read *)
Lemma load_leaf_ok c m l p :
  pages (cur_pager c) = m -> retains m c -> leaf_page_id c = lf_id l -> lf_id l <> 0 ->
  m !! lf_id l = Some p -> leaf_at p l ->
  exists c', (match immutable_leaf c with
    | None => page ← read_leaf (leaf_page_id c) "cursor reached a non-leaf page";
              _ ← update (set_immutable_leaf (Some page)); mret page
    | Some page => mret page end) c = (c', Ok p) /\ same_store c c' /\
    immutable_leaf c' = Some p /\ leaf_page_id c' = lf_id l /\ position c' = position c.
Proof.
  intros Hm Hret Hid Hn0 Hp Hl. unfold retains in Hret. destruct (immutable_leaf c) as [p0|] eqn:Ei.
  - exists c. rewrite Hid in Hret. destruct Hret as [?|Hret]; [done|].
    assert (p0 = p) as -> by congruence. by split_and!.
  - rewrite Hid. rewrite <-Hm in Hp.
    destruct (read_leaf_ok c (lf_id l) p l "cursor reached a non-leaf page" Hp Hl) as (s & E & Ps & Rs).
    rewrite (eff_bind_ok _ _ _ _ _ E). eexists. split; [reflexivity|]. split; [by split|]. by split_and!.
Qed.

Lemma following_leaf_ok c m L l l2 R p :
  walk m (L ++ l :: l2 :: R) -> pages (cur_pager c) = m -> leaf_at p l ->
  exists s p2, following_leaf p (lf_id l2) c = (set_cur_pager s c, Ok p2) /\ m !! lf_id l2 = Some p2 /\
    leaf_at p2 l2 /\ lf_id l2 <> 0 /\ lf_entries l2 <> [] /\ pages s = m /\
    (forall n, room (cur_pager c) n -> room s n).
Proof.
  intros Hw Hm Hl. pose proof Hw as Hw2. change (L ++ l :: l2 :: R) with (L ++ [l] ++ l2 :: R) in Hw2.
  rewrite app_assoc in Hw2. destruct (walk_leaf _ _ _ _ Hw2) as ((p2 & Hp2 & Hl2) & Hn2 & Hne2 & _).
  rewrite <-Hm in Hp2. destruct (read_page_ok (cur_pager c) (lf_id l2) p2 Hp2) as (s & E & Hs & _ & Hr).
  rewrite Hm in Hp2, Hs. exists s, p2. split; [|by split_and!; try done; apply Hl2]. unfold following_leaf.
  rewrite (eff_bind_ok _ _ _ _ _ (within_ok cur_pager set_cur_pager PagerFailed _ c _ _ E)).
  unfold cur_type. rewrite (proj1 Hl2). cbn [map_err]. rewrite (eff_bind_lift _ _ _ _ eq_refl).
  rewrite (proj2 (proj2 (proj2 (proj2 (proj2 Hl2))))).
  destruct (lf_entries l2) as [|e es] eqn:Ees; [done|].
  rewrite (proj2 (Z.eqb_neq (zlen (e :: es)) 0)) by (rewrite zlen_cons; pose proof (zlen_nonneg es); lia).
  rewrite bool_decide_true by done. cbn [negb orb].
  assert (E0 : lf_entries l2 !! 0%nat = Some e) by (by rewrite Ees).
  rewrite (eff_bind_lift _ _ _ _ (leaf_rep_read _ _ 0 e (proj2 (proj2 (proj2 (proj2 Hl2)))) E0)).
  rewrite (eff_bind_lift _ _ _ _ (leaf_high_key_ok _ _ (proj2 (proj2 (proj2 (proj2 Hl)))))).
  by rewrite (walk_advances _ _ _ _ _ Hw) by (by rewrite Ees).
Qed.

Lemma prepare_immutable_ok c m ls es :
  walk m ls -> pages (cur_pager c) = m -> stands ls c es -> retains m c ->
  exists c', same_store c c' /\ prepare_immutable_leaf c = (c', Ok (match es with [] => false | _ => true end)) /\
    match es with
    | [] => stands ls c' [] /\ retains m c'
    | e :: es => on_entry m ls c' e es
    end.
Proof.
  intros Hw Hm Hst Hret. unfold prepare_immutable_leaf. rewrite (eff_bind_ok get_cursor _ c c c eq_refl).
  destruct Hst as [H0|L l R i Els Hid Hpos Hi].
  { rewrite H0. exists c. split; [done|]. split; [done|]. split; [by constructor|done]. }
  rewrite Els in Hw. destruct (walk_leaf _ _ _ _ Hw) as ((p & Hp & Hl) & Hn0 & Hne & Hnx).
  rewrite (proj2 (Z.eqb_neq _ _)) by congruence.
  destruct (load_leaf_ok c m l p Hm Hret Hid Hn0 Hp Hl) as (c1 & E1 & S1 & I1 & J1 & Q1).
  rewrite (eff_bind_ok _ _ _ _ _ E1). clear E1.
  rewrite Hpos, (proj2 (proj2 (proj2 (proj2 (proj2 Hl))))).
  destruct (lf_entries l !! i) as [e|] eqn:Ei.
  - rewrite (drop_S _ e) by done. cbn [app]. apply lookup_lt_Some in Ei as Hlt.
    rewrite (proj2 (Z.ltb_lt _ _)) by (unfold zlen; lia). exists c1. split; [done|]. split; [done|].
    exists L, l, R, i, p. split_and!; try done; congruence.
  - apply lookup_ge_None in Ei as Hge. rewrite (proj2 (Z.ltb_ge _ _)) by (unfold zlen; lia).
    rewrite drop_ge by lia. cbn [app]. cbv zeta.
    rewrite (proj1 (proj2 (proj2 (proj2 Hl)))), Hnx. destruct R as [|l2 R]; cbn [first_id].
    { eexists. split; [|split; [reflexivity|]]; [|split; [by constructor|done]].
      etrans; [exact S1|]. by split. }
    destruct (following_leaf_ok c1 m L l l2 R p Hw) as (s & p2 & E2 & Hp2 & Hl2 & Hn2 & Hne2 & Ps & Rs);
      [rewrite (store_pages _ _ S1); done|done|].
    rewrite (proj2 (Z.eqb_neq _ _)) by done. rewrite (eff_bind_ok _ _ _ _ _ E2).
    change (contents (l2 :: R)) with (lf_entries l2 ++ contents R).
    destruct (lf_entries l2) as [|e es] eqn:Ees; [done|]. cbn [app].
    do 4 rewrite (eff_bind_ok (update _) _ _ _ tt eq_refl). eexists. split; [|split; [reflexivity|]].
    + etrans; [exact S1|]. split; [|done|done]. cbn. rewrite (store_pages _ _ S1). congruence.
    + exists (L ++ [l]), l2, R, O, p2. rewrite Ees. cbn. split_and!; try done; [|apply Hl2..]. by rewrite Els, <-app_assoc.
Qed.

(** The mode that retains its leaf gives the same entries. *)
Lemma next_immutable_ok c m ls es kvs G :
  walk m ls -> pages (cur_pager c) = m -> stands ls c es -> immutable c = true -> retains m c ->
  held lz4_decompress fuel m es kvs G ->
  exists c', next lz4_decompress fuel c = (c', Ok (head kvs)) /\ same_store c c' /\ stands ls c' (tail es) /\
    retains m c'.
Proof.
  intros Hw Hm Hst Him Hret Hh. unfold next, next_impl. rewrite (eff_bind_ok get_cursor _ c c c eq_refl), Him.
  unfold next_immutable. destruct (prepare_immutable_ok c m ls es Hw Hm Hst Hret) as (c1 & S1 & E1 & Hc1).
  rewrite (eff_bind_ok _ _ _ _ _ E1). destruct es as [|e es]; cbn [negb tail].
  { inversion Hh; subst. exists c1. split; [done|]. split; [done|]. apply Hc1. }
  destruct Hc1 as (L & l & R & i & p & Els & Hid & Hpos & Ei & -> & Hil & Hl & Hp).
  unfold loaded_leaf. rewrite (eff_bind_ok _ _ c1 c1 p) by (by rewrite Hil).
  rewrite (eff_bind_ok get_cursor _ c1 c1 c1 eq_refl).
  set (pre := (if negb (prefetched_next c1) && (cell_count p / 2 <=? position c1)
    then update (set_prefetched true) else mret tt)).
  assert (Hpre : exists c2, pre c1 = (c2, Ok tt) /\ same_store c1 c2 /\ leaf_page_id c2 = leaf_page_id c1 /\
    position c2 = position c1 /\ immutable_leaf c2 = immutable_leaf c1).
  { unfold pre. destruct (_ && _); eexists; (split; [reflexivity|]); by split_and!; try by split. }
  destruct Hpre as (c2 & E2 & S2 & J2 & Q2 & L2). rewrite (eff_bind_ok _ _ _ _ _ E2). clear E2 pre.
  destruct (next_in_leaf_ok c2 m ls L l R p i e kvs G Els Hl) as (c' & E3 & S3 & T3 & L3 & J3);
    [rewrite (store_pages _ _ S2), (store_pages _ _ S1); done|congruence|congruence|done|done|].
  exists c'. split; [done|]. split; [by etrans; [|etrans]|]. split; [done|].
  unfold retains. rewrite L3, L2, Hil, J3. by right.
Qed.

(** Either mode *)
Definition mode_ok (m : gmap Z bytes) c : Prop := immutable c = true -> retains m c.

Lemma next_ok c m ls es kvs G :
  walk m ls -> pages (cur_pager c) = m -> stands ls c es -> mode_ok m c ->
  held lz4_decompress fuel m es kvs G ->
  exists c', next lz4_decompress fuel c = (c', Ok (head kvs)) /\ same_store c c' /\ stands ls c' (tail es) /\
    mode_ok m c'.
Proof.
  intros Hw Hm Hst Hmode Hh. destruct (immutable c) eqn:Him.
  - destruct (next_immutable_ok c m ls es kvs G Hw Hm Hst Him (Hmode Him) Hh) as (c' & E & S1 & T & Hr).
    exists c'. split; [done|]. split; [done|]. split; [done|]. by intros _.
  - destruct (next_mutable_ok c m ls es kvs G Hw Hm Hst Him Hh) as (c' & E & S1 & T).
    exists c'. split; [done|]. split; [done|]. split; [done|]. unfold mode_ok. by rewrite (store_mode _ _ S1), Him.
Qed.

(** ** Looking at the next key *)

(** The cursor is on the entry [e] of the leaf with the page [p], before [es]. *)
Definition faces (m : gmap Z bytes) (ls : list leaf) c (p : bytes) (e : entry) (es : list entry) : Prop :=
  exists L l R i, ls = L ++ l :: R /\ leaf_page_id c = lf_id l /\ position c = Z.of_nat i /\
    lf_entries l !! i = Some e /\ es = drop (Datatypes.S i) (lf_entries l) ++ contents R /\ leaf_at p l.

Lemma prepare_next_ok c m ls es :
  walk m ls -> pages (cur_pager c) = m -> stands ls c es ->
  exists c' r, same_store c c' /\ prepare_next_leaf c = (c', Ok r) /\
    match es, r with
    | [], None => stands ls c' []
    | e :: es, Some p => faces m ls c' p e es
    | _, _ => False
    end.
Proof.
  intros Hw Hm Hst. unfold prepare_next_leaf. rewrite (eff_bind_ok get_cursor _ c c c eq_refl).
  destruct Hst as [H0|L l R i Els Hid Hpos Hi].
  { rewrite H0. exists c, None. split; [done|]. split; [done|]. by constructor. }
  rewrite Els in Hw. destruct (walk_leaf _ _ _ _ Hw) as ((p & Hp & Hl) & Hn0 & Hne & Hnx).
  rewrite Hid, (proj2 (Z.eqb_neq _ _)) by done. rewrite <-Hm in Hp.
  destruct (read_leaf_ok c (lf_id l) p l "cursor reached a non-leaf page" Hp Hl) as (s1 & E1 & P1 & R1).
  rewrite (eff_bind_ok _ _ _ _ _ E1). clear E1.
  rewrite Hpos, (proj2 (proj2 (proj2 (proj2 (proj2 Hl))))).
  destruct (lf_entries l !! i) as [e|] eqn:Ei.
  - rewrite (drop_S _ e) by done. cbn [app]. apply lookup_lt_Some in Ei as Hlt.
    rewrite (proj2 (Z.ltb_lt _ _)) by (unfold zlen; lia). exists (set_cur_pager s1 c), (Some p).
    split; [by split|]. split; [done|]. by exists L, l, R, i.
  - apply lookup_ge_None in Ei as Hge. rewrite (proj2 (Z.ltb_ge _ _)) by (unfold zlen; lia).
    rewrite drop_ge by lia. cbn [app]. cbv zeta.
    rewrite (proj1 (proj2 (proj2 (proj2 Hl)))), Hnx. destruct R as [|l2 R]; cbn [first_id].
    { exists (set_leaf 0 (set_cur_pager s1 c)), None. split; [by split|]. split; [done|]. by constructor. }
    destruct (following_leaf_ok (set_cur_pager s1 c) m L l l2 R p Hw)
      as (s & p2 & E2 & Hp2 & Hl2 & Hn2 & Hne2 & Ps & Rs); [cbn; congruence|done|].
    rewrite (proj2 (Z.eqb_neq _ _)) by done. rewrite (eff_bind_ok _ _ _ _ _ E2).
    change (contents (l2 :: R)) with (lf_entries l2 ++ contents R).
    destruct (lf_entries l2) as [|e es] eqn:Ees; [done|]. cbn [app].
    do 3 rewrite (eff_bind_ok (update _) _ _ _ tt eq_refl). eexists _, (Some p2). split; [|split; [reflexivity|]].
    + split; [cbn; congruence|intros n Hn; apply Rs, R1, Hn|done].
    + exists (L ++ [l]), l2, R, O. rewrite Ees. split; [by rewrite Els, <-app_assoc|done].
Qed.

Lemma prepare_leaf_ok c m ls es :
  walk m ls -> pages (cur_pager c) = m -> stands ls c es -> mode_ok m c ->
  exists c' r, same_store c c' /\ prepare_leaf c = (c', Ok r) /\ mode_ok m c' /\
    match es, r with
    | [], None => stands ls c' []
    | e :: es, Some p => faces m ls c' p e es
    | _, _ => False
    end.
Proof.
  intros Hw Hm Hst Hmo. unfold prepare_leaf. rewrite (eff_bind_ok get_cursor _ c c c eq_refl).
  destruct (immutable c) eqn:Him.
  - destruct (prepare_immutable_ok c m ls es Hw Hm Hst (Hmo Him)) as (c1 & S1 & E1 & Hc1).
    rewrite (eff_bind_ok _ _ _ _ _ E1). destruct es as [|e es]; cbn [negb].
    { exists c1, None. split; [done|]. split; [done|]. split; [intros _|]; apply Hc1. }
    destruct Hc1 as (L & l & R & i & p & Els & Hid & Hpos & Ei & -> & Hil & Hl & Hp).
    unfold loaded_leaf. rewrite (eff_bind_ok _ _ c1 c1 p) by (by rewrite Hil).
    exists c1, (Some p). split; [done|]. split; [done|]. split; [|by exists L, l, R, i].
    intros _. unfold retains. rewrite Hil, Hid. by right.
  - destruct (prepare_next_ok c m ls es Hw Hm Hst) as (c1 & r & S1 & E1 & Hc1).
    exists c1, r. split; [done|]. split; [done|]. split; [|done]. intros Hc. rewrite (store_mode _ _ S1) in Hc. congruence.
Qed.

Lemma stands_retaining ls c es : stands ls c es -> stands ls (with_immutable_leaves c) es.
Proof. intros [H0|L l R i Els Hid Hpos Hi]; [by constructor|by apply (stands_at _ _ L l R i)]. Qed.

Lemma faces_stands m ls c p e es : faces m ls c p e es -> stands ls c (e :: es).
Proof.
  intros (L & l & R & i & Els & Hid & Hpos & Ei & -> & Hl). apply lookup_lt_Some in Ei as Hlt.
  rewrite app_comm_cons, <-(drop_S _ _ _ Ei). eapply stands_at; [done|done|done|lia].
Qed.

Lemma peek_key_with_ok {T} (visit : bytes -> T) c m ls es :
  walk m ls -> pages (cur_pager c) = m -> stands ls c es -> mode_ok m c ->
  exists c', peek_key_with visit c = (c', Ok (visit <$> head es.*1)) /\ same_store c c' /\ stands ls c' es /\ mode_ok m c'.
Proof.
  intros Hw Hm Hst Hmo. destruct (prepare_leaf_ok c m ls es Hw Hm Hst Hmo) as (c1 & r & S1 & E1 & M1 & Hc1).
  unfold peek_key_with. rewrite (eff_bind_ok _ _ _ _ _ E1). exists c1.
  destruct es as [|e es], r as [p|]; try done.
  pose proof (faces_stands _ _ _ _ _ _ Hc1) as Hst1.
  destruct Hc1 as (L & l & R & i & Els & Hid & Hpos & Ei & -> & Hl).
  rewrite (eff_bind_ok get_cursor _ c1 c1 c1 eq_refl), Hpos.
  by rewrite (eff_bind_lift _ _ _ _ (leaf_rep_read _ _ i e (proj2 (proj2 (proj2 (proj2 Hl)))) Ei)).
Qed.

Lemma skip_next_ok c m ls es :
  walk m ls -> pages (cur_pager c) = m -> stands ls c es -> mode_ok m c ->
  exists c', skip_next c = (c', Ok (match es with [] => false | _ => true end)) /\ same_store c c' /\
    stands ls c' (tail es) /\ mode_ok m c'.
Proof.
  intros Hw Hm Hst Hmo. destruct (prepare_leaf_ok c m ls es Hw Hm Hst Hmo) as (c1 & r & S1 & E1 & M1 & Hc1).
  unfold skip_next. rewrite (eff_bind_ok _ _ _ _ _ E1).
  destruct es as [|e es], r as [p|]; try done; [by exists c1|].
  destruct Hc1 as (L & l & R & i & Els & Hid & Hpos & Ei & -> & Hl). apply lookup_lt_Some in Ei as Hlt.
  rewrite (eff_bind_ok get_cursor _ c1 c1 c1 eq_refl). eexists. split; [reflexivity|].
  split; [etrans; [exact S1|by split]|]. split; [|exact M1].
  eapply (stands_at _ _ L l R (Datatypes.S i)); [done|done|cbn; lia|lia].
Qed.

(** ** Scans *)

Fixpoint until (end_key : bytes) (kvs : list (bytes * bytes)) : list (bytes * bytes) :=
  match kvs with
  | [] => []
  | kv :: kvs => if bool_decide (blt end_key kv.1) then [] else kv :: until end_key kvs
  end.

Lemma elem_of_until end_key kvs kv :
  StronglySorted blt kvs.*1 -> kv ∈ until end_key kvs <-> kv ∈ kvs /\ ~ blt end_key kv.1.
Proof.
  induction kvs as [|x kvs IH]; cbn [until fmap list_fmap]; intros Hs.
  - split; [by intros ?%elem_of_nil|by intros [?%elem_of_nil _]].
  - inversion Hs as [|? ? Hs' Hx]; subst. case_bool_decide as Hb.
    + split; [by intros ?%elem_of_nil|]. intros [[->|Hin]%elem_of_cons Hn]; [done|]. exfalso. apply Hn.
      eapply blt_trans; [exact Hb|]. rewrite Forall_forall in Hx. apply Hx, list_elem_of_fmap. eauto.
    + rewrite !elem_of_cons, IH by done. split; [intros [->|[? ?]]; auto|]. intros [[->|?] ?]; auto.
Qed.

Lemma until_sorted end_key kvs : StronglySorted blt kvs.*1 -> StronglySorted blt (until end_key kvs).*1.
Proof.
  induction kvs as [|x kvs IH]; cbn [until fmap list_fmap]; intros Hs; [constructor|].
  case_bool_decide; [constructor|]. inversion Hs as [|? ? Hs' Hx]; subst. cbn. constructor; [auto|].
  rewrite Forall_forall in *. intros y (kv & -> & Hkv)%list_elem_of_fmap. apply Hx.
  apply list_elem_of_fmap. exists kv. split; [done|]. by apply (elem_of_until end_key) in Hkv as [? _].
Qed.

Lemma held_tail m es kvs G : held lz4_decompress fuel m es kvs G ->
  exists G', held lz4_decompress fuel m (tail es) (tail kvs) G'.
Proof. intros Hh. inversion Hh; subst; eexists; [constructor|done]. Qed.

Lemma range_loop_ok n : forall c m ls es kvs G end_key results,
  walk m ls -> pages (cur_pager c) = m -> stands ls c es -> mode_ok m c ->
  held lz4_decompress fuel m es kvs G -> (length kvs < n)%nat ->
  exists c', range_loop lz4_decompress fuel n end_key results c = (c', Ok (results ++ until end_key kvs)) /\
    same_store c c'.
Proof.
  induction n as [|n IH]; intros c m ls es kvs G end_key results Hw Hm Hst Hmo Hh Hn; [lia|].
  cbn [range_loop]. destruct (next_ok c m ls es kvs G Hw Hm Hst Hmo Hh) as (c1 & E1 & S1 & T1 & M1).
  rewrite (eff_bind_ok _ _ _ _ _ E1). destruct kvs as [|[k v] kvs]; cbn [head until].
  { exists c1. rewrite app_nil_r. done. }
  cbn [fst]. case_bool_decide; [exists c1; by rewrite app_nil_r|].
  destruct (held_tail _ _ _ _ Hh) as (G' & Hh'). cbn [tail length] in *.
  destruct (IH c1 m ls (tail es) kvs G' end_key (results ++ [(k, v)])) as (c' & E & S2); try done.
  - by rewrite (store_pages _ _ S1).
  - lia.
  - exists c'. rewrite E, <-app_assoc. split; [done|by etrans].
Qed.

Lemma count_loop_ok n : forall c m ls es kvs G count,
  walk m ls -> pages (cur_pager c) = m -> stands ls c es -> mode_ok m c ->
  held lz4_decompress fuel m es kvs G -> (length kvs < n)%nat ->
  exists c', count_loop lz4_decompress fuel n count c = (c', Ok (count + zlen kvs)) /\ same_store c c'.
Proof.
  induction n as [|n IH]; intros c m ls es kvs G count Hw Hm Hst Hmo Hh Hn; [lia|].
  cbn [count_loop]. destruct (next_ok c m ls es kvs G Hw Hm Hst Hmo Hh) as (c1 & E1 & S1 & T1 & M1).
  rewrite (eff_bind_ok _ _ _ _ _ E1). destruct kvs as [|kv kvs]; cbn [head].
  { exists c1. change (zlen (@nil (bytes * bytes))) with 0. by rewrite Z.add_0_r. }
  destruct (held_tail _ _ _ _ Hh) as (G' & Hh'). cbn [tail length] in *.
  destruct (IH c1 m ls (tail es) kvs G' (count + 1)) as (c' & E & S2); try done.
  - by rewrite (store_pages _ _ S1).
  - lia.
  - exists c'. rewrite E, zlen_cons. split; [f_equal; f_equal; lia|by etrans].
Qed.

(** ** Where a cursor starts *)

Lemma btree_walk t ls F : btree_ok K t ls F -> walk (view t) ls.
Proof.
  intros [H1 H2|H ls' F' H1 H2 H3]; [split; [constructor|done|constructor]|].
  split; [by apply (leaves_ok K t H (root_page_id t) ls' F')|done|by eapply tree_sorted].
Qed.

(** Where a search in a sorted leaf ends, the smaller keys are left of it. *)
Lemma search_cut (es : list entry) key pos :
  StronglySorted blt es.*1 ->
  (exists v, es !! pos = Some (key, v)) \/ insertion_point es.*1 key pos ->
  (pos <= length es)%nat /\ Forall (fun e => blt e.1 key) (take pos es) /\
  Forall (fun e => ~ blt e.1 key) (drop pos es).
Proof.
  intros Hs [(v & Hv)|(Hl & H1 & H2)].
  - apply lookup_lt_Some in Hv as Hlt. split; [lia|].
    pose proof (take_drop_middle _ _ _ Hv) as Es. rewrite <-Es, fmap_app in Hs. cbn in Hs.
    apply sorted_app in Hs as (_ & S2 & S12). inversion S2 as [|? ? _ S3]; subst. split.
    + apply Forall_forall. intros e He. rewrite Forall_forall in S12.
      assert (Hb : Forall (blt e.1) (key :: (drop (Datatypes.S pos) es).*1)).
      { apply S12, list_elem_of_fmap. eauto. }
      by apply Forall_cons in Hb as [? _].
    + rewrite (drop_S _ _ _ Hv). constructor; [apply blt_irrefl|]. apply Forall_forall. intros e He Hlt'.
      rewrite Forall_forall in S3. apply (blt_irrefl key). eapply blt_trans; [|exact Hlt'].
      apply S3, list_elem_of_fmap. eauto.
  - rewrite length_fmap in Hl. split; [done|]. rewrite <-fmap_take in H1. rewrite <-fmap_drop in H2.
    rewrite Forall_fmap in H1. rewrite Forall_fmap in H2. split; [done|].
    eapply Forall_impl; [exact H2|]. cbn. intros e He Hlt. apply (blt_irrefl key). by eapply blt_trans.
Qed.

Lemma cursor_seek_ok t ls F key :
  btree_ok K t ls F ->
  exists t' c es1 es2, cursor_seek key t = (t', Ok c) /\ unchanged t t' /\ cur_pager c = pager t' /\
    mode_ok (view t) (with_immutable_leaves c) /\ immutable c = false /\
    contents ls = es1 ++ es2 /\ stands ls c es2 /\ Forall (fun e => blt e.1 key) es1 /\
    Forall (fun e => ~ blt e.1 key) es2.
Proof.
  intros Hok. unfold cursor_seek. rewrite (eff_bind_ok get_root _ t t (root_page_id t) eq_refl).
  destruct Hok as [Hr0 Hc0|H ls F Ht Hli Hca].
  { rewrite Hr0. exists t, (new_cursor (pager t) 0 0), [], []. split; [done|]. split; [done|].
    by repeat (split; [done || constructor|]). }
  destruct (tree_root_number _ _ _ _ _ _ _ _ Ht) as [Hn0 _]. rewrite (proj2 (Z.eqb_neq _ _)) by done.
  destruct (find_leaf_ok K t _ H ls F key Ht)
    as (t1 & l & path & lo & hi & L & R & F' & E1 & U1 & Hfd & -> & EF).
  rewrite (eff_bind_ok _ _ _ _ _ E1). cbn [fst].
  destruct (found_keys _ _ _ _ _ _ _ _ _ _ _ _ Hfd) as [HL HR].
  pose proof (leaves_ok _ _ _ _ _ _ Ht) as Hlv.
  apply Forall_app in Hlv as [_ [((p & Hp & Hl) & _ & _ & Hs & _) _]%Forall_cons].
  rewrite <-(same_pages _ _ U1) in Hp. destruct (bt_read_ok t1 _ _ Hp) as (t2 & E2 & U2).
  rewrite (eff_bind_ok _ _ _ _ _ E2).
  assert (Hr : exists r pos, search_leaf p key = Ok r /\
    match r with Found i => i | SearchNotFound i => i end = Z.of_nat pos /\
    ((exists v, lf_entries l !! pos = Some (key, v)) \/ insertion_point (lf_entries l).*1 key pos)).
  { destruct (search_leaf_spec p _ key (proj2 (proj2 (proj2 (proj2 Hl)))) Hs)
      as [(i & v & E & Hi)|(i & E & Hi)]; do 2 eexists; (split; [exact E|]); eauto. }
  destruct Hr as (r & pos & Er & Epos & Hcut). rewrite (eff_bind_lift _ _ _ _ Er), Epos.
  destruct (search_cut _ _ _ Hs Hcut) as (Hle & C1 & C2).
  exists t2, (new_cursor (pager t2) (lf_id l) (Z.of_nat pos)), (contents L ++ take pos (lf_entries l)),
    (drop pos (lf_entries l) ++ contents R).
  split; [done|]. split; [by etrans|]. do 3 (split; [done|]). split.
  { rewrite contents_middle, <-!app_assoc, (app_assoc (take _ _)), take_drop. done. }
  split; [by apply (stands_at _ _ L l R pos)|]. rewrite !Forall_app. split; [done|]. split; [done|].
  eapply Forall_impl; [exact HR|]. cbn. intros e He Hlt. apply (blt_irrefl key). by eapply blt_trans.
Qed.

(** The leftmost descent reaches the first leaf. *)
Lemma find_first_leaf_loop_ok n : forall t h lo hi id ls F,
  tree K (view t) h lo hi id ls F -> (h < n)%nat ->
  exists t' l rest, find_first_leaf_loop n id t = (t', Ok (lf_id l)) /\ unchanged t t' /\ ls = l :: rest.
Proof.
  induction n as [|n IH]; intros t h lo hi id ls F Ht Hn; [lia|]. cbn [find_first_leaf_loop].
  inversion Ht as [lo0 hi0 p l Hp Hid Hl Hne Hs Hf|
    h' lo1 mid hi1 id1 p seps right ls1 F1 ls2 F2 Hp Hid Hnode Hne Hsep S1 T2 D1 D2 D3]; subst.
  - destruct (bt_read_ok t _ _ Hp) as (t' & E & U). rewrite (eff_bind_ok _ _ _ _ _ E).
    rewrite (eff_bind_ok _ _ _ _ _ (type_of_ok _ _ _ (proj1 Hl))). by exists t', l, [].
  - destruct (bt_read_ok t _ _ Hp) as (t1 & E & U). rewrite (eff_bind_ok _ _ _ _ _ E).
    rewrite (eff_bind_ok _ _ _ _ _ (type_of_ok _ _ _ (proj1 Hnode))).
    rewrite (eff_bind_lift _ _ _ _ (find_first_child_spec p seps right (proj1 (proj2 (proj2 Hnode))))).
    inversion S1 as [|h2 lo2 k c seps2 hi2 lsa Fa lsb Fb Tc Sc Dc]; subst; [done|]. cbn [fmap list_fmap head snd default].
    rewrite <-(same_pages _ _ U) in Tc.
    destruct (IH t1 h' lo (Some k) c lsa Fa Tc ltac:(lia)) as (t2 & l & rest & E2 & U2 & ->).
    exists t2, l, ((rest ++ lsb) ++ ls2). split; [exact E2|]. split; [by etrans|done].
Qed.

Lemma cursor_first_ok t ls F :
  btree_ok K t ls F ->
  exists t' c, cursor_first t = (t', Ok c) /\ unchanged t t' /\ cur_pager c = pager t' /\
    mode_ok (view t) (with_immutable_leaves c) /\ immutable c = false /\ stands ls c (contents ls).
Proof.
  intros Hok. unfold cursor_first. rewrite (eff_bind_ok get_root _ t t (root_page_id t) eq_refl).
  destruct Hok as [Hr0 Hc0|H ls F Ht Hli Hca].
  { rewrite Hr0. exists t, (new_cursor (pager t) 0 0). do 5 (split; [done|]). by constructor. }
  destruct (tree_root_number _ _ _ _ _ _ _ _ Ht) as [Hn0 _]. rewrite (proj2 (Z.eqb_neq _ _)) by done.
  pose proof (tree_height _ _ _ _ _ _ _ _ Ht).
  destruct (find_first_leaf_loop_ok MAX_DEPTH t H None None _ ls F Ht) as (t1 & l & rest & E & U & ->);
    [unfold MAX_DEPTH; lia|].
  unfold find_first_leaf. rewrite (eff_bind_ok _ _ _ _ _ E).
  exists t1, (new_cursor (pager t1) (lf_id l) 0). do 5 (split; [done|]).
  apply (stands_at _ _ [] l rest 0); [done|done|done|lia].
Qed.
End laws.
