(* ===== verification/BTreeInsert.v ===== *)
(** * Insertion into a B+ tree

    The insertion of an entry, with the splits it causes, keeps the invariant of the
    tree and adds exactly that entry.  Proved against the laws of the page store. *)

From S2P Require Import Prelude FileFormat Page PageStore Overflow ValueLayout Slots Leaf Interior BTree Tree BTreeRead Splits.
From Stdlib Require Import ZArith Lia.

Lemma union_singleton_inj (A B : gset Z) x : A ∪ {[x]} = B ∪ {[x]} -> x ∉ A -> x ∉ B -> A = B.
Proof.
  intros E HA HB. apply set_eq. intros y. assert (Ey : y ∈ A ∪ {[x]} <-> y ∈ B ∪ {[x]}) by (by rewrite E).
  rewrite !elem_of_union, !elem_of_singleton in Ey. split; intros Hy.
  - destruct (proj1 Ey (or_introl Hy)) as [?| ->]; done.
  - destruct (proj2 Ey (or_introl Hy)) as [?| ->]; done.
Qed.

(** ** Interior pages *)

Lemma node_at_cells p q id seps right :
  page_type p = Ok BTreeInterior -> page_id p = id -> same_identity p q -> interior_rep q seps right ->
  interior_packed q seps -> node_at q id seps right.
Proof.
  intros H1 H2 [_ F] H3 H4. split_and!; [| |done|done].
  - unfold page_type, paged_page_type, u8_at in *. by rewrite F by lia.
  - unfold page_id, paged_page_id, u32_at in *. by rewrite F by lia.
Qed.

Lemma segs_numbers K m h lo seps hi ls F :
  segs K m h lo seps hi ls F -> Forall (fun s => page_number s.2) seps.
Proof.
  induction 1 as [|h lo k c seps hi ls1 F1 ls2 F2 Ht Hs IH D]; constructor; [|done].
  by eapply tree_root_number.
Qed.

Lemma partition_point_keys keys key i :
  insertion_point keys key i -> partition_point (fun k => bool_decide (blt k key)) keys = i.
Proof.
  revert i. induction keys as [|k keys IH]; intros i (Hl & H1 & H2); cbn [partition_point].
  - cbn in Hl. lia.
  - destruct i as [|i].
    + rewrite bool_decide_false; [done|]. apply Forall_cons in H2 as [H2 _]. intros H3.
      apply (blt_irrefl k). by eapply blt_trans.
    + cbn [take] in H1. apply Forall_cons in H1 as [H1 H1']. rewrite bool_decide_true by done.
      f_equal. apply IH. split_and!; [cbn in Hl; lia|done|done].
Qed.

Section laws.
Context {S : Type} `{HS : PageStore S} `{!PageStoreLaws S}.
Context (crc32 : bytes -> Z) (K : key_sizes).
Implicit Types t : BTree S.

(** A node with [seps] gets the pages of a rebuilt one. *)
Lemma write_interior_node t p id seps right :
  page_type p = Ok BTreeInterior -> page_id p = id -> zlen p = 16384 -> Forall byte_ok p ->
  u32_ok right -> Forall (fun s => Forall byte_ok s.1 /\ u32_ok s.2) seps ->
  interior_slotted_size seps.*1 <= 16352 ->
  exists q, lift (write_interior_entries p seps.*1 (seps.*2 ++ [right])) t = (t, Ok q) /\
    node_at q id seps right.
Proof.
  intros H1 H2 H3 H4 H5 H6 H7. pose proof (write_interior_entries_spec p seps right H3 H4 H5 H6) as Hw.
  rewrite decide_True in Hw by done. destruct Hw as (q & E & Hr & Hi & Hp).
  exists q. unfold lift. rewrite E. split; [done|]. by apply (node_at_cells p).
Qed.

(** The pages of a pending node after a division at [mid] *)
Lemma split_lists (seps : list sep) right mid :
  (mid < length seps)%nat ->
  exists A s x B, seps = A ++ (s, x) :: B /\ length A = mid /\
    seps.*1 !! mid = Some s /\ take mid seps.*1 = A.*1 /\ drop (mid + 1) seps.*1 = B.*1 /\
    take (mid + 1) (seps.*2 ++ [right]) = A.*2 ++ [x] /\
    drop (mid + 1) (seps.*2 ++ [right]) = B.*2 ++ [right].
Proof.
  intros Hm. destruct (lookup_lt_is_Some_2 _ _ Hm) as ((s & x) & E).
  exists (take mid seps), s, x, (drop (Datatypes.S mid) seps).
  pose proof (take_drop_middle _ _ _ E) as Es.
  assert (Hl : length (take mid seps) = mid) by (rewrite length_take; lia).
  remember (take mid seps) as A. remember (drop (Datatypes.S mid) seps) as B. rewrite <-Es.
  split_and!; try done.
  - rewrite fmap_app, lookup_app_r by (by rewrite length_fmap, Hl). by rewrite length_fmap, Hl, Nat.sub_diag.
  - rewrite fmap_app, <-Hl, <-(length_fmap fst A). apply take_app_length.
  - rewrite fmap_app, fmap_cons, cons_middle, app_assoc. apply drop_app_length'. rewrite length_app, length_fmap, Hl. done.
  - rewrite fmap_app, fmap_cons, <-app_assoc, <-app_comm_cons, cons_middle, app_assoc. apply take_app_length'. rewrite length_app, length_fmap, Hl. done.
  - rewrite fmap_app, fmap_cons, <-app_assoc, <-app_comm_cons, cons_middle, app_assoc. apply drop_app_length'. rewrite length_app, length_fmap, Hl. done.
Qed.

(** ** A pending node *)

Section pending.
Context (t : BTree S) (root : Z) (H : nat) (path : list Z) (h : nat) (id : Z).
Context (k : bytes) (c c2 : Z) (p : bytes) (i : nat) (seps : list sep) (right : Z) (seps' : list sep)
  (right' : Z) (lo mid hi : option bytes) (lsS : list leaf) (FS : gset Z) (lsR : list leaf)
  (FR : gset Z) (L R : list leaf) (F : gset Z).
Context (Hpd : pending K (view t) root H path h id k c c2 p i seps right seps' right' lo mid hi
  lsS FS lsR FR L R F).

Lemma pending_cells_ok : Forall (fun s => Forall byte_ok s.1 /\ u32_ok s.2) seps' /\ u32_ok right'.
Proof.
  destruct (tree_root_number _ _ _ _ _ _ _ _ (pd_right Hpd)) as [_ Hr]. split; [|done].
  pose proof (segs_numbers _ _ _ _ _ _ _ _ (pd_segs Hpd)) as Hn. pose proof (pd_fits Hpd) as Hf.
  rewrite Forall_forall in *. intros s Hs. by destruct (Hf s Hs), (Hn s Hs).
Qed.

Lemma pending_size :
  interior_slotted_size seps'.*1 = interior_slotted_size seps.*1 + (8 + zlen k) /\
  zlen seps' = zlen seps + 1.
Proof.
  pose proof (pd_keys Hpd) as Hk. destruct (pd_pos Hpd) as (Hi & _ & _). split.
  - rewrite Hk, interior_slotted_size_app, interior_slotted_size_cons.
    rewrite <-(take_drop i seps.*1) at 3. rewrite interior_slotted_size_app.
    unfold interior_key_size. lia.
  - rewrite <-(zlen_fmap fst seps'), Hk, <-(zlen_fmap fst seps). unfold zlen.
    rewrite length_app. cbn [length]. rewrite length_take, length_drop. lia.
Qed.

(** The separator fits: the page gets it. *)
Lemma pending_insert :
  can_insert_interior p k = true ->
  exists q, insert_into_interior p k c c2 = Ok q /\ node_at q id seps' right'.
Proof.
  intros Hcan. pose proof pending_size as [Z1 Z2]. destruct (pd_node Hpd) as (N1 & N2 & N3 & N4).
  pose proof (insert_into_interior_spec p seps right k c c2 N3 (pd_sorted Hpd)
    (insertion_point_not_in _ _ _ (pd_pos Hpd)) (pd_key Hpd) (pd_c Hpd) (pd_c2 Hpd)) as Hi.
  rewrite Hcan in Hi. destruct Hi as (q & j & E & Hj & Hr & Hid & He).
  rewrite (insertion_point_unique _ _ _ _ Hj (pd_pos Hpd)), (pd_new Hpd) in Hr.
  exists q. split; [done|]. apply (node_at_cells p); try done.
  unfold interior_packed in *. rewrite He, N4. lia.
Qed.

(** The separator does not fit: the page is divided. *)
Lemma pending_halves :
  longest K <= 353 -> can_insert_interior p k = false ->
  exists A s x B, seps' = A ++ (s, x) :: B /\ length A = Nat.div (length seps'.*1) 2 /\
    seps'.*1 !! length A = Some s /\ take (length A) seps'.*1 = A.*1 /\
    drop (length A + 1) seps'.*1 = B.*1 /\
    take (length A + 1) (seps'.*2 ++ [right']) = A.*2 ++ [x] /\
    drop (length A + 1) (seps'.*2 ++ [right']) = B.*2 ++ [right'] /\
    A <> [] /\ B <> [] /\ interior_slotted_size A.*1 <= 16352 /\ interior_slotted_size B.*1 <= 16352.
Proof.
  intros HK Hcan. pose proof pending_size as [Z1 Z2]. destruct (pd_node Hpd) as (N1 & N2 & N3 & N4).
  unfold interior_packed in N4. pose proof (interior_rep_room _ _ _ N3).
  assert (Hbig : ~ 32 + 2 * (zlen seps + 1) + (6 + zlen k) <= free_end p).
  { rewrite <-(can_insert_interior_spec p seps right k N3). by rewrite Hcan. }
  assert (Hks : Forall (fun k => zlen k <= 353) seps'.*1).
  { apply Forall_fmap. eapply Forall_impl; [exact (pd_fits Hpd)|]. intros s [_ [_ Hs]]. cbn. lia. }
  assert (Hk : zlen k <= 353).
  { rewrite (pd_keys Hpd), Forall_app, Forall_cons in Hks. apply Hks. }
  destruct (split_lists seps' right' (Nat.div (length seps'.*1) 2))
    as (A & s & x & B & Es & El & E1 & E2 & E3 & E4 & E5).
  { rewrite length_fmap. apply Nat.div_lt; [|lia]. unfold zlen in Z2. lia. }
  rewrite <-El in E1, E2, E3, E4, E5. exists A, s, x, B.
  assert (Ek : seps'.*1 = A.*1 ++ s :: B.*1) by (by rewrite Es, fmap_app).
  destruct (interior_halves_fit A.*1 s B.*1) as (X1 & X2 & X3 & X4).
  - by rewrite <-Ek.
  - by rewrite <-Ek, length_fmap.
  - rewrite <-Ek. lia.
  - split_and!; try done; intros ->; done.
Qed.

Lemma split_interior_ok n :
  longest K <= 353 -> can_insert_interior p k = false -> room (pager t) (Datatypes.S n) ->
  exists t' q1 q2 q2' id2 A s x B, split_interior crc32 p k c c2 t = (t', Ok (q1, q2, s)) /\
    seps' = A ++ (s, x) :: B /\ A <> [] /\ B <> [] /\ node_at q1 id A x /\ page_id q2 = id2 /\
    node_at q2' id2 B right' /\ view t !! id2 = None /\ page_number id2 /\
    view t' = <[id2 := q2']> (view t) /\ root_page_id t' = root_page_id t /\
    rightmost_leaf t' = rightmost_leaf t /\ room (pager t') n.
Proof.
  intros HK Hcan Hroom. destruct (pending_halves HK Hcan)
    as (A & s & x & B & Es & El & E1 & E2 & E3 & E4 & E5 & HA & HB & S1 & S2).
  destruct (pd_node Hpd) as (N1 & N2 & N3 & N4). unfold split_interior.
  assert (Hne : seps <> []).
  { intros E. pose proof pending_size as [_ Hz]. rewrite Es, E, zlen_app, zlen_cons in Hz.
    destruct A as [|a A]; [done|]. rewrite zlen_cons in Hz.
    pose proof (zlen_nonneg A). pose proof (zlen_nonneg B). change (zlen (@nil sep)) with 0 in Hz. lia. }
  rewrite (eff_bind_lift _ _ _ _ (read_interior_keys_children_spec p seps right N3 (or_introl Hne))).
  rewrite (partition_point_keys _ _ _ (pd_pos Hpd)), (pd_child Hpd).
  change (default i (Some i)) with i.
  change (vec_insert i k seps.*1) with (take i seps.*1 ++ k :: drop i seps.*1).
  rewrite <-(pd_keys Hpd).
  rewrite bool_decide_true.
  2:{ destruct (pd_pos Hpd) as (Hi & _). rewrite length_app. rewrite !length_fmap in *. cbn. lia. }
  rewrite (eff_bind_lift _ _ _ _ eq_refl), <-(pd_children Hpd), <-El, E1.
  rewrite (eff_bind_lift _ _ _ _ eq_refl).
  destruct (bt_allocate_ok t BTreeInterior n Hroom) as (t1 & id2 & Ea & Hnone & Hnum & Hown & Hv1 & Hr1 & Hc1 & Hroom1).
  rewrite (eff_bind_ok _ _ _ _ _ Ea). rewrite E2, E3, E4, E5.
  pose proof pending_cells_ok as [C1 C2]. rewrite Es in C1. apply Forall_app in C1 as [CA CB].
  apply Forall_cons in CB as [[_ Cx] CB]. cbn [snd] in Cx.
  destruct (Page_new_fields BTreeInterior id2 (proj2 Hnum)) as (F1 & _ & _ & _ & F5).
  destruct (write_interior_node t1 p id A x N1 N2 (area_len _ _ _ (proj1 N3))
    (area_bytes _ _ _ (proj1 N3)) Cx CA S1) as (q1 & Ew1 & Hq1).
  destruct (write_interior_node t1 (Page_new BTreeInterior id2) id2 B right' F1 F5 (zlen_Page_new _ _)
    (Page_new_bytes _ _ (proj2 Hnum)) C2 CB S2) as (q2 & Ew2 & Hq2).
  rewrite (eff_bind_ok _ _ _ _ _ Ew1), (eff_bind_ok _ _ _ _ _ Ew2).
  pose proof (node_at_resealed _ _ _ _ _ (resealed_update_checksum crc32 q2) Hq2) as Hu.
  remember (update_checksum crc32 q2) as u eqn:Eu. pose proof (proj1 (proj2 Hu)) as Hid2. rewrite Hid2.
  destruct (bt_write_owned t1 id2 u Hown) as (t2 & q2' & Ew & W).
  { exact (node_at_len _ _ _ _ Hu). }
  { exact (proj1 (proj2 Hu)). }
  rewrite (eff_bind_ok _ _ _ _ _ Ew).
  exists t2, q1, u, q2', id2, A, s, x, B. pose proof (fresh_written _ _ _ _ _ _ Hv1 W) as Hv2.
  destruct W as [_ Ws Wr Wc Wroom].
  do 6 (split; [reflexivity || assumption|]). split; [exact (node_at_resealed _ _ _ _ _ Ws Hu)|].
  split; [exact Hnone|]. split; [exact Hnum|]. split; [exact Hv2|].
  split; [by rewrite Wr|]. split; [by rewrite Wc|]. auto.
Qed.
End pending.

(** ** The path to the root *)

(** The tree owned the pages [U] and owns [U'] now; pages that belong to nobody
    have been added, and the pages of others are as they were. *)
Record grown t t' (U U' : gset Z) : Prop := {
  grown_pages : forall x, x ∈ U' -> x ∈ U \/ view t !! x = None;
  grown_frame : forall x p, view t !! x = Some p -> x ∉ U -> view t' !! x = Some p;
}.

Lemma grown_trans t t1 t2 U U1 U2 : grown t t1 U U1 -> grown t1 t2 U1 U2 -> grown t t2 U U2.
Proof.
  intros [A1 A2] [B1 B2]. split.
  - intros x Hx. destruct (decide (x ∈ U)) as [|Hni]; [by left|]. right.
    destruct (view t !! x) as [p|] eqn:E; [|done]. pose proof (A2 x p E Hni) as E1.
    destruct (B1 x Hx) as [Hin|Hn]; [|congruence]. destruct (A1 x Hin) as [?|?]; congruence.
  - intros x p Hx Hni. apply B2; [by apply A2|]. intros Hin. destruct (A1 x Hin); congruence.
Qed.

(** A root above two subtrees *)
Lemma new_root_ok t h c lsA FA c2 lsB FB k n :
  tree K (view t) h None (Some k) c lsA FA -> tree K (view t) h (Some k) None c2 lsB FB -> FA ## FB ->
  sep_fits K (k, c) -> longest K <= 353 -> room (pager t) (Datatypes.S n) ->
  exists t' F', insert_into_ancestors crc32 [] c k c2 t = (t', Ok tt) /\
    tree K (view t') (Datatypes.S h) None None (root_page_id t') (lsA ++ lsB) F' /\
    grown t t' (FA ∪ FB) F' /\ rightmost_leaf t' = rightmost_leaf t.
Proof.
  intros TA TB D [Hkb [Hks Hkl]] HK Hroom. cbn [insert_into_ancestors]. cbn [fst] in Hkb, Hks, Hkl.
  destruct (bt_allocate_ok t BTreeInterior n Hroom) as (t1 & id & Ea & Hnone & Hnum & Hown & Hv1 & Hr1 & Hc1 & _).
  rewrite (eff_bind_ok _ _ _ _ _ Ea).
  destruct (Page_new_fields BTreeInterior id (proj2 Hnum)) as (F1 & _ & _ & _ & F5).
  destruct (tree_root_number _ _ _ _ _ _ _ _ TA) as [_ Uc], (tree_root_number _ _ _ _ _ _ _ _ TB) as [_ Uc2].
  destruct (write_interior_node t1 (Page_new BTreeInterior id) id [(k, c)] c2 F1 F5 (zlen_Page_new _ _)
    (Page_new_bytes _ _ (proj2 Hnum)) Uc2) as (q & Ew & Hq).
  { rewrite Forall_singleton. split; [exact Hkb|exact Uc]. }
  { change ([(k, c)].*1) with [k]. rewrite interior_slotted_size_cons.
    change (interior_slotted_size []) with 0. unfold interior_key_size. lia. }
  clear F1 F5 Ea. change ([(k, c)].*1) with [k] in Ew. change ([(k, c)].*2 ++ [c2]) with [c; c2] in Ew.
  rewrite (eff_bind_ok _ _ _ _ _ Ew). clear Ew.
  pose proof (node_at_resealed _ _ _ _ _ (resealed_update_checksum crc32 q) Hq) as Hu.
  remember (update_checksum crc32 q) as u eqn:Eu. pose proof (proj1 (proj2 Hu)) as Hid2. rewrite Hid2.
  destruct (bt_write_owned t1 id u Hown) as (t2 & q' & Ew2 & W).
  { exact (node_at_len _ _ _ _ Hu). }
  { exact (proj1 (proj2 Hu)). }
  rewrite (eff_bind_ok _ _ _ _ _ Ew2). clear Ew2 Eu.
  assert (Hni : id ∉ FA ∪ FB) .
  { intros [Hi|Hi]%elem_of_union; [apply (tree_pages _ _ _ _ _ _ _ _ _ TA) in Hi
      |apply (tree_pages _ _ _ _ _ _ _ _ _ TB) in Hi]; destruct Hi; congruence. }
  pose proof (fresh_written _ _ _ _ _ _ Hv1 W) as Hv2. destruct W as [_ Ws Wr Wc Wroom].
  assert (Hfr : forall x, x ∈ FA ∪ FB -> view t2 !! x = view t !! x).
  { intros x Hx. rewrite Hv2. apply lookup_insert_ne. by intros ->. }
  eexists _, ({[id]} ∪ (FA ∪ FB)). split; [reflexivity|].
  change (view (set_root id t2).1) with (view t2). change (root_page_id (set_root id t2).1) with id.
  split; [|split; [split|]].
  - rewrite <-(app_nil_r lsA), <-(right_id_L ∅ (∪) FA).
    apply (tree_node K (view t2) h None (Some k) None id q' [(k, c)] c2).
    + rewrite Hv2, lookup_insert. by rewrite decide_True.
    + exact Hnum.
    + exact (node_at_resealed _ _ _ _ _ Ws Hu).
    + done.
    + by rewrite Forall_singleton.
    + apply segs_cons; [|apply segs_nil|disj]. apply (tree_frame K (view t)); [done|].
      intros x Hx. apply Hfr. by apply elem_of_union_l.
    + apply (tree_frame K (view t)); [done|]. intros x Hx. apply Hfr. by apply elem_of_union_r.
    + disj.
    + disj.
    + disj.
  - intros x Hx. apply elem_of_union in Hx as [->%elem_of_singleton|Hx]; auto.
  - intros x p Hp Hx. change (view t2 !! x = Some p). rewrite Hv2. rewrite lookup_insert_ne; [done|].
    intros ->. congruence.
  - change (rightmost_leaf t2 = rightmost_leaf t). congruence.
Qed.

(** One page of the path is rewritten: nothing else changes. *)
Lemma grown_written t t' id p q U :
  written t t' id p q -> id ∈ U -> grown t t' U U.
Proof.
  intros [Hv _ _ _ _] Hid. split; [by left|]. intros x p' Hx Hni. rewrite Hv, lookup_insert_ne; [done|].
  by intros ->.
Qed.

Lemma grown_unchanged t t' U : unchanged t t' -> grown t t' U U.
Proof. intros U1. split; [by left|]. intros x p Hx _. by rewrite (same_pages _ _ U1). Qed.

(** The two ways in which a pending node is settled *)
Section settle.
Context (t : BTree S) (root : Z) (H : nat) (path : list Z) (h : nat) (id : Z).
Context (k : bytes) (c c2 : Z) (p : bytes) (i : nat) (seps : list sep) (right : Z) (seps' : list sep)
  (right' : Z) (lo mid hi : option bytes) (lsS : list leaf) (FS : gset Z) (lsR : list leaf)
  (FR : gset Z) (L R : list leaf) (F : gset Z).
Context (Hpd : pending K (view t) root H path h id k c c2 p i seps right seps' right' lo mid hi
  lsS FS lsR FR L R F).
Context (U : gset Z) (EU : U = F ∪ ({[id]} ∪ (FS ∪ FR))).

Lemma settle_fits q :
  insert_into_interior p k c c2 = Ok q -> node_at q id seps' right' -> root_page_id t = root ->
  exists t', bt_write id (update_checksum crc32 q) t = (t', Ok tt) /\
    tree K (view t') H None None (root_page_id t') (L ++ (lsS ++ lsR) ++ R) U /\
    grown t t' U U /\ rightmost_leaf t' = rightmost_leaf t.
Proof.
  intros _ Hq Hroot. pose proof (node_at_resealed _ _ _ _ _ (resealed_update_checksum crc32 q) Hq) as Hu.
  destruct (bt_write_ok t id (update_checksum crc32 q)) as (t2 & q' & Ew & W);
    [rewrite (pd_page Hpd); by eexists|exact (node_at_len _ _ _ _ Hu)|exact (proj1 (proj2 Hu))|].
  pose proof W as [Wv Ws Wr Wc _].
  destruct (pending_fits K (view t) (view t2) root H path h id _ _ _ _ _ _ _ _ _ _ _ _ _ _ _ _ _ _ _ Hpd q')
    as [Hc' T'].
  { intros x Hx. by rewrite Wv, lookup_insert_ne. }
  { rewrite Wv, lookup_insert. by rewrite decide_True. }
  { exact (node_at_resealed _ _ _ _ _ Ws Hu). }
  exists t2. split; [exact Ew|]. split; [|split; [|exact Wc]].
  - rewrite Wr, Hroot, EU. eapply ctx_plug; [exact Hc'|exact T'|].
    pose proof (pd_out Hpd). pose proof (pd_disj_s Hpd). pose proof (pd_disj_r Hpd). disj.
  - eapply grown_written; [exact W|]. rewrite EU. clear; set_solver.
Qed.

Lemma settle_split n :
  longest K <= 353 -> can_insert_interior p k = false -> room (pager t) (Datatypes.S n) ->
  exists t1 t2 q1 q2 s id2 ls1 G1 ls2 G2,
    split_interior crc32 p k c c2 t = (t1, Ok (q1, q2, s)) /\
    bt_write id (update_checksum crc32 q1) t1 = (t2, Ok tt) /\
    page_id (update_checksum crc32 q1) = id /\ page_id q2 = id2 /\
    ctx K (view t2) root H path (Datatypes.S h) id lo hi L R F /\
    tree K (view t2) (Datatypes.S h) lo (Some s) id ls1 G1 /\
    tree K (view t2) (Datatypes.S h) (Some s) hi id2 ls2 G2 /\
    F ## G1 /\ F ## G2 /\ G1 ## G2 /\ lsS ++ lsR = ls1 ++ ls2 /\ sep_fits K (s, id) /\
    grown t t2 U (F ∪ G1 ∪ G2) /\ root_page_id t2 = root_page_id t /\
    rightmost_leaf t2 = rightmost_leaf t /\ room (pager t2) n.
Proof.
  intros HK Hcan Hroom.
  destruct (split_interior_ok _ _ _ _ _ _ _ _ _ _ _ _ _ _ _ _ _ _ _ _ _ _ _ _ _ Hpd n HK Hcan Hroom)
    as (t1 & q1 & q2 & q2' & id2 & A & s & x & B & E1 & Es & HA & HB & Hq1 & Hid2 & Hq2 & Hnone & Hnum
      & V1 & R1 & C1 & Hroom1).
  pose proof (node_at_resealed _ _ _ _ _ (resealed_update_checksum crc32 q1) Hq1) as Hu.
  assert (Hni : forall X : gset Z, (forall y, y ∈ X -> is_Some (view t !! y)) -> id2 ∉ X).
  { intros X HX Hin. destruct (HX _ Hin). congruence. }
  pose proof (pd_page Hpd) as Hpg. assert (Hne : id2 <> id) by congruence.
  destruct (bt_write_ok t1 id (update_checksum crc32 q1)) as (t2 & q' & Ew & W);
    [rewrite V1, lookup_insert_ne, (pd_page Hpd) by done; by eexists|exact (node_at_len _ _ _ _ Hu)|exact (proj1 (proj2 Hu))|].
  pose proof W as [Wv Ws Wr Wc Wroom].
  destruct (pending_split K (view t) (view t2) root H path h id _ _ _ _ _ _ _ _ _ _ _ _ _ _ _ _ _ _ _ Hpd
    id2 q' q2' A s x B Es HA HB) as (ls1 & G1 & ls2 & G2 & Hc' & T1 & T2 & D1 & D2 & D3 & EL & EG & Hs).
  { intros y Hy1 Hy2. by rewrite Wv, V1, !lookup_insert_ne. }
  { rewrite Wv, lookup_insert. by rewrite decide_True. }
  { exact (node_at_resealed _ _ _ _ _ Ws Hu). }
  { rewrite Wv, V1, lookup_insert_ne by done. rewrite lookup_insert. by rewrite decide_True. }
  { exact Hq2. }
  { exact Hnum. }
  { exact Hne. }
  { apply Hni. intros y. apply (ctx_pages _ _ _ _ _ _ _ _ _ _ _ _ _ (pd_ctx Hpd)). }
  { apply Hni. intros y. apply (proj2 (tree_segs_pages K _) _ _ _ _ _ _ (pd_segs Hpd)). }
  { apply Hni. intros y. apply (tree_pages _ _ _ _ _ _ _ _ _ (pd_right Hpd)). }
  exists t1, t2, q1, q2, s, id2, ls1, G1, ls2, G2.
  do 2 (split; [assumption|]). split; [exact (proj1 (proj2 Hu))|].
  do 9 (split; [assumption|]). split; [|split; [congruence|split; [congruence|auto]]].
  rewrite <-(assoc_L (∪)), EG, EU. split.
  - intros y Hy. rewrite !elem_of_union, elem_of_singleton in Hy.
    rewrite !elem_of_union. destruct Hy as [?|[->|?]]; auto.
  - intros y py Hy Hyn. rewrite Wv, V1, !lookup_insert_ne; [done| |]; intros ->; [congruence|].
    apply Hyn. clear; set_solver.
Qed.
End settle.

Lemma insert_into_ancestors_ok path : forall t root H h c lo hi L R F k c2 lsA FA lsB FB,
  ctx K (view t) root H path h c lo hi L R F ->
  tree K (view t) h lo (Some k) c lsA FA -> tree K (view t) h (Some k) hi c2 lsB FB ->
  F ## FA -> F ## FB -> FA ## FB -> sep_fits K (k, c) -> longest K <= 353 ->
  root_page_id t = root -> room (pager t) (Datatypes.S (length path)) ->
  exists t' H' F', insert_into_ancestors crc32 (rev path) c k c2 t = (t', Ok tt) /\
    tree K (view t') H' None None (root_page_id t') (L ++ lsA ++ lsB ++ R) F' /\
    grown t t' (F ∪ FA ∪ FB) F' /\ rightmost_leaf t' = rightmost_leaf t.
Proof.
  induction path as [|id path IH] using rev_ind;
    intros t root H h c lo hi L R F k c2 lsA FA lsB FB Hc TA TB D1 D2 D3 Hk HK Hroot Hroom.
  { inversion Hc; subst; [|by destruct path..]. rewrite app_nil_r, (left_id_L ∅ (∪)).
    destruct (new_root_ok t h _ lsA FA c2 lsB FB k _ TA TB D3 Hk HK Hroom) as (t' & F' & E & T & G & C).
    by exists t', (Datatypes.S h), F'. }
  destruct (ctx_pending _ _ _ _ _ _ _ _ _ _ _ _ _ _ _ _ _ _ _ Hc TA TB D1 D2 D3 Hk)
    as (p & i & seps & right & seps' & right' & lo' & mid & hi' & lsS & FS & lsR & FR & L' & R' & F'
      & Hpd & EL & EF). rewrite <-EL.
  rewrite rev_app_distr. cbn [rev app insert_into_ancestors].
  destruct (bt_read_ok t id p (pd_page Hpd)) as (t1 & E1 & U1). rewrite (eff_bind_ok _ _ _ _ _ E1).
  pose proof (same_pages _ _ U1) as V1. rewrite <-V1 in Hpd.
  assert (Hroot1 : root_page_id t1 = root) by (by rewrite (same_root _ _ U1)).
  destruct (can_insert_interior p k) eqn:Ecan.
  - destruct (pending_insert _ _ _ _ _ _ _ _ _ _ _ _ _ _ _ _ _ _ _ _ _ _ _ _ _ Hpd Ecan)
      as (q & Eq & Hq). rewrite (eff_bind_lift _ _ _ _ Eq).
    destruct (settle_fits _ _ _ _ _ _ _ _ _ _ _ _ _ _ _ _ _ _ _ _ _ _ _ _ _ Hpd _ (eq_sym EF) q Eq Hq Hroot1)
      as (t2 & E2 & T2 & G2 & C2).
    exists t2, H, (F ∪ FA ∪ FB). split; [exact E2|]. split; [exact T2|]. split.
    + eapply grown_trans; [by apply grown_unchanged|done].
    + rewrite C2. apply (same_cache _ _ U1).
  - rewrite length_app, Nat.add_1_r in Hroom. apply (same_room _ _ U1) in Hroom.
    destruct (settle_split _ _ _ _ _ _ _ _ _ _ _ _ _ _ _ _ _ _ _ _ _ _ _ _ _ Hpd _ (eq_sym EF) _ HK Ecan Hroom)
      as (t2 & t3 & q1 & q2 & s & id2 & ls1 & G1 & ls2 & G2 & E2 & E3 & I1 & I2 & Hc3 & T1 & T2
        & X1 & X2 & X3 & X4 & X5 & X6 & X7 & X8 & X9).
    rewrite (eff_bind_ok _ _ _ _ _ E2), (eff_bind_ok _ _ _ _ _ E3), I1, I2.
    destruct (IH t3 root H _ id lo' hi' L' R' F' s id2 ls1 G1 ls2 G2 Hc3 T1 T2 X1 X2 X3 X5 HK)
      as (t4 & H' & F4 & E4 & T4 & Gr4 & C4); [congruence|done|].
    exists t4, H', F4. split; [exact E4|]. rewrite X4, <-(app_assoc ls1). split; [exact T4|]. split.
    + eapply grown_trans; [by apply grown_unchanged|]. by eapply grown_trans.
    + rewrite C4, X8. apply (same_cache _ _ U1).
Qed.

(** ** Splitting a leaf *)

(** The pages after the back link of the leaf [next] has been set to [n] *)
Definition relinked_pages (m : gmap Z bytes) (next n : Z) (m' : gmap Z bytes) : Prop :=
  (next = 0 /\ m' = m) \/
  (next <> 0 /\ exists p l q, m !! next = Some p /\ leaf_at p l /\ resealed (set_prev_leaf p n) q /\
     m' = <[next := q]> m).

Lemma relink_successor_ok t next n :
  next = 0 \/ (exists p l, view t !! next = Some p /\ leaf_at p l /\ lf_id l = next) -> u32_ok n ->
  exists t', relink_successor crc32 next n t = (t', Ok tt) /\
    relinked_pages (view t) next n (view t') /\ root_page_id t' = root_page_id t /\
    rightmost_leaf t' = rightmost_leaf t /\ (forall r, room (pager t) r -> room (pager t') r).
Proof.
  intros Hnext Hn. unfold relink_successor. destruct (Z.eqb_spec next 0) as [->|Hne].
  { exists t. split; [reflexivity|]. split; [by left|done]. }
  destruct Hnext as [?|(p & l & Hp & Hl & Hid)]; [done|]. cbn [negb].
  destruct (bt_read_ok t next p Hp) as (t1 & E1 & U1). rewrite (eff_bind_ok _ _ _ _ _ E1).
  rewrite (eff_bind_ok _ _ _ _ _ (type_of_ok _ _ _ (proj1 Hl))). rewrite bool_decide_true by done. cbn [negb].
  pose proof (set_prev_leaf_at p l n Hl Hn) as Hl'. remember (set_prev_leaf p n) as p' eqn:Ep'.
  pose proof (resealed_update_checksum crc32 p') as Hu.
  destruct (bt_write_ok t1 next (update_checksum crc32 p')) as (t2 & q & E2 & [Wv Ws Wr Wc Wm]).
  { rewrite (same_pages _ _ U1), Hp. by eexists. }
  { exact (leaf_at_len _ _ (leaf_at_resealed _ _ _ Hu Hl')). }
  { etrans; [exact (proj1 (proj2 (leaf_at_resealed _ _ _ Hu Hl')))|exact Hid]. }
  exists t2. split; [exact E2|]. split; [right; split; [done|]|].
  - exists p, l, q. do 2 (split; [assumption|]). rewrite <-Ep'. split; [by etrans|].
    by rewrite Wv, (same_pages _ _ U1).
  - rewrite Wr, Wc, (same_root _ _ U1), (same_cache _ _ U1). split; [done|]. split; [done|].
    intros r Hr. apply Wm. by apply (same_room _ _ U1).
Qed.

Lemma partition_point_fmap {A B} (f : A -> B) (q : B -> bool) l :
  partition_point (fun x => q (f x)) l = partition_point q (f <$> l).
Proof. induction l as [|x l IH]; [done|]. cbn. by rewrite IH. Qed.

Lemma entries_with_ok p es key value c :
  leaf_rep p es -> insertion_point es.*1 key c ->
  entries_with p key value = Ok (insert_entry c (key, value) es).
Proof.
  intros Hr Hc. unfold entries_with. rewrite (read_leaf_entries_rep _ _ Hr). cbn [mbind result_bind].
  pose proof (partition_point_fmap (fst : entry -> bytes) (fun k => bool_decide (blt k key)) es) as E.
  rewrite (partition_point_keys _ _ _ Hc) in E. by rewrite E.
Qed.

Lemma leaf_entry_fits e :
  entry_fits K e -> longest K <= 353 -> leaf_entry_size e <= 4456.
Proof.
  intros (_ & [_ H1] & H2) HK. unfold leaf_entry_size.
  change (BTREE_VALUE_OVERFLOW_THRESHOLD) with 4096 in H2. lia.
Qed.

(** The entries of a leaf and one more can be cut in two. *)
Lemma split_point p es c e :
  leaf_rep p es -> es <> [] -> (c <= length es)%nat -> Forall (entry_fits K) (insert_entry c e es) -> longest K <= 353 ->
  exists mid es1 es2,
    best_split (PAGE_SIZE - LEAF_SLOT_ARRAY_OFFSET) (leaf_entries_size (insert_entry c e es))
      (insert_entry c e es) 1 0 None USIZE_MAX = Some mid /\
    take (Z.to_nat mid) (insert_entry c e es) = es1 /\ drop (Z.to_nat mid) (insert_entry c e es) = es2 /\
    es1 <> [] /\ es2 <> [] /\ zget (insert_entry c e es) mid = head es2 /\
    leaf_entries_size es1 <= 16344 /\ leaf_entries_size es2 <= 16344.
Proof.
  intros Hr Hne Hc Hf HK. pose proof (leaf_rep_size _ _ Hr) as Hsz.
  change (PAGE_SIZE - LEAF_SLOT_ARRAY_OFFSET) with 16344 in *. set (es' := insert_entry c e es) in *.
  assert (HE : Forall (fun e => leaf_entry_size e <= 4456) es').
  { eapply Forall_impl; [exact Hf|]. intros x Hx. by apply leaf_entry_fits. }
  assert (Hsz' : leaf_entries_size es' = leaf_entries_size es + leaf_entry_size e).
  { unfold es', insert_entry. rewrite leaf_entries_size_app, leaf_entries_size_cons.
    rewrite <-(take_drop c es) at 3. rewrite leaf_entries_size_app. lia. }
  assert (Hlen : zlen es' = zlen es + 1) by apply zlen_insert_entry.
  destruct (best_split_ok 16344 es' 4456) as (mid & Eb & (Hm & G1 & G2)).
  - unfold zlen in Hlen. destruct es; [done|]. cbn in Hlen. lia.
  - done.
  - lia.
  - assert (leaf_entry_size e <= 4456); [|lia]. apply leaf_entry_fits; [|done].
    unfold es', insert_entry in Hf. rewrite Forall_app, Forall_cons in Hf. apply Hf.
  - unfold USIZE_MAX, U64_MAX. lia.
  - exists mid, (take (Z.to_nat mid) es'), (drop (Z.to_nat mid) es'). unfold zlen in Hm.
    split_and!; try done.
    + intros E. apply (f_equal length) in E. rewrite length_take in E. cbn in E. lia.
    + intros E. apply (f_equal length) in E. rewrite length_drop in E. cbn in E. lia.
    + unfold zget. rewrite (proj2 (Z.ltb_ge _ _)) by lia.
      by rewrite head_lookup, lookup_drop, Nat.add_0_r.
Qed.

(** A page of a leaf is rebuilt under its header. *)
Lemma write_leaf_node t p id prev next es :
  leaf_head p id prev next -> Forall entry_ok es -> leaf_entries_size es <= 16344 ->
  exists q, lift (write_leaf_entries p es) t = (t, Ok q) /\
    leaf_at q {| lf_id := id; lf_prev := prev; lf_next := next; lf_entries := es |}.
Proof.
  intros Hh Hok Hsz. pose proof (write_leaf_entries_spec p es (head_len _ _ _ _ Hh) (head_bytes _ _ _ _ Hh) Hok) as Hw.
  rewrite decide_True in Hw by done. destruct Hw as (q & E & Hr & Hf).
  exists q. unfold lift. rewrite E. split; [reflexivity|]. by apply (leaf_at_cells p).
Qed.

Section split_leaf.
Context (t : BTree S) (l : leaf) (p : bytes) (key value : bytes) (c : nat) (n : nat).
Context (Hp : view t !! lf_id l = Some p) (Hl : leaf_at p l) (Hne : lf_entries l <> []).
Context (Hnum : page_number (lf_id l)) (Hunext : u32_ok (lf_next l)).
Context (Hnext : lf_next l = 0 \/ (exists p l', view t !! lf_next l = Some p /\ leaf_at p l' /\ lf_id l' = lf_next l)).
Context (Hc : insertion_point (lf_entries l).*1 key c) (HK : longest K <= 353).
Context (Hf : Forall (entry_fits K) (insert_entry c (key, value) (lf_entries l))).

Lemma split_leaf_ok :
  room (pager t) (Datatypes.S n) ->
  exists t' q1 q2 q2' id2 es1 e2 es2,
    split_leaf crc32 p key value t = (t', Ok (q1, q2, e2.1)) /\
    insert_entry c (key, value) (lf_entries l) = es1 ++ e2 :: es2 /\ es1 <> [] /\
    leaf_at q1 {| lf_id := lf_id l; lf_prev := lf_prev l; lf_next := id2; lf_entries := es1 |} /\
    leaf_at q2 {| lf_id := id2; lf_prev := lf_id l; lf_next := lf_next l; lf_entries := e2 :: es2 |} /\
    leaf_at q2' {| lf_id := id2; lf_prev := lf_id l; lf_next := lf_next l; lf_entries := e2 :: es2 |} /\
    view t !! id2 = None /\ page_number id2 /\
    relinked_pages (<[id2 := q2']> (view t)) (lf_next l) id2 (view t') /\
    root_page_id t' = root_page_id t /\ rightmost_leaf t' = rightmost_leaf t /\ room (pager t') n.
Proof.
  intros Hroom. destruct Hl as (L1 & L2 & L3 & L4 & Hr). pose proof (leaf_at_head _ _ Hl) as Hh.
  destruct (split_point p (lf_entries l) c (key, value) Hr Hne) as
    (mid & es1 & es2 & Eb & E1 & E2 & N1 & N2 & Eg & S1 & S2); [|done|done|].
  { destruct Hc as (Hcl & _). by rewrite length_fmap in Hcl. }
  assert (Eall : insert_entry c (key, value) (lf_entries l) = es1 ++ es2) by (by rewrite <-E1, <-E2, take_drop).
  destruct es2 as [|e2 es2]; [done|]. rewrite Eall in Hf. apply Forall_app in Hf as [Hf1 Hf2].
  unfold split_leaf. rewrite (eff_bind_lift _ _ _ _ (entries_with_ok _ _ _ _ _ Hr Hc)).
  cbv zeta. rewrite Eb. cbn [ok_or]. rewrite (eff_bind_lift _ _ _ _ eq_refl).
  destruct (bt_allocate_ok t BTreeLeaf n Hroom) as (t1 & id2 & Ea & Hnone & Hnum2 & Hown & Hv1 & Hr1 & Hc1 & Hroom1).
  rewrite (eff_bind_ok _ _ _ _ _ Ea), L2, L4. clear Ea.
  pose proof (new_leaf_head id2 (lf_id l) (lf_next l) (proj2 Hnum2) (proj2 Hnum) Hunext) as Hh2.
  remember (init_leaf_links (Page_new BTreeLeaf id2) (lf_id l) (lf_next l)) as w eqn:Ew. clear Ew.
  rewrite (head_id _ _ _ _ Hh2).
  pose proof (leaf_head_next _ _ _ _ id2 Hh (proj2 Hnum2)) as Hh1.
  destruct (write_leaf_node t1 _ _ _ _ es1 Hh1) as (q1 & W1 & Hq1);
    [eapply Forall_impl; [exact Hf1|]; intros ? Hx; apply Hx|done|].
  destruct (write_leaf_node t1 _ _ _ _ (e2 :: es2) Hh2) as (q2 & W2 & Hq2);
    [eapply Forall_impl; [exact Hf2|]; intros ? Hx; apply Hx|done|].
  rewrite E1, E2, (eff_bind_ok _ _ _ _ _ W1), (eff_bind_ok _ _ _ _ _ W2). clear W1 W2.
  rewrite Eg. cbn [head]. rewrite (eff_bind_lift _ _ _ _ eq_refl).
  pose proof (leaf_at_resealed _ _ _ (resealed_update_checksum crc32 q2) Hq2) as Hu.
  remember (update_checksum crc32 q2) as u eqn:Eu. clear Eu. rewrite (proj1 (proj2 Hu)). cbn [lf_id].
  destruct (bt_write_owned t1 id2 u Hown) as (t2 & q2' & Ew & W).
  { exact (leaf_at_len _ _ Hu). }
  { exact (proj1 (proj2 Hu)). }
  rewrite (eff_bind_ok _ _ _ _ _ Ew). clear Ew. pose proof (fresh_written _ _ _ _ _ _ Hv1 W) as Hv2.
  pose proof (leaf_at_resealed _ _ _ (written_seal _ _ _ _ _ W) Hu) as Hq2'.
  destruct (relink_successor_ok t2 (lf_next l) id2) as (t3 & E3 & Hrel & R3 & C3 & M3); [|apply Hnum2|].
  { destruct Hnext as [?|(p3 & l3 & Hp3 & Hl3)]; [by left|right]. exists p3, l3. split; [|done].
    rewrite Hv2, lookup_insert_ne; [done|]. intros ->. congruence. }
  rewrite (eff_bind_ok _ _ _ _ _ E3). destruct W as [_ _ Wr Wc Wm].
  exists t3, q1, u, q2', id2, es1, e2, es2. rewrite Hv2 in Hrel.
  do 9 (split; [reflexivity || assumption|]). split; [congruence|]. split; [congruence|]. auto.
Qed.
End split_leaf.

(** ** The tree after a split of a leaf *)

Lemma relinked_ctx m n m' root H path h id lo hi L R F :
  ctx K m root H path h id lo hi L R F -> relinked_pages m (first_id R 0) n m' -> u32_ok n ->
  NoDup (map lf_id (L ++ R)) -> Forall (fun l => lf_id l <> 0) R ->
  ctx K m' root H path h id lo hi L (relink_first n R) F.
Proof.
  intros Hc Hrel Hn Hnd Hnz. destruct R as [|l3 R]; cbn [first_id relink_first] in *.
  { destruct Hrel as [[_ ->]|[? _]]; done. }
  destruct Hrel as [[E _]|(Hne & p & l & q & Hp & Hl & Hq & ->)].
  { apply Forall_cons in Hnz as [? _]. done. }
  pose proof (ctx_relink K m (lf_id l3) n p q l Hp Hl Hq Hn _ _ _ _ _ _ _ _ _ _ Hc) as Hc'.
  rewrite map_app in Hnd. cbn [map] in Hnd, Hc'.
  apply NoDup_app in Hnd as (_ & Hd & [Hd2 _]%NoDup_cons).
  rewrite !relink_other in Hc'.
  - unfold relink in Hc'. by rewrite Z.eqb_refl in Hc'.
  - done.
  - intros Hin. apply (Hd _ Hin). by left.
Qed.

(** Pages other than the successor's are untouched by the relinking. *)
Lemma relinked_lookup m next n m' x :
  relinked_pages m next n m' -> (next <> 0 -> next <> x) -> m' !! x = m !! x.
Proof.
  intros [[_ ->]|(Hn & p & l & q & _ & _ & _ & ->)] Hx; [done|]. rewrite lookup_insert_ne; auto.
Qed.

Lemma leaf_tree m id prev next es lo hi p :
  m !! id = Some p -> page_number id ->
  leaf_at p {| lf_id := id; lf_prev := prev; lf_next := next; lf_entries := es |} -> es <> [] ->
  StronglySorted blt es.*1 -> Forall (fun e => above lo e.1 /\ below e.1 hi /\ entry_fits K e) es ->
  tree K m 0 lo hi id [{| lf_id := id; lf_prev := prev; lf_next := next; lf_entries := es |}] {[id]}.
Proof. intros. by apply (tree_leaf K m lo hi p {| lf_id := id; lf_prev := prev; lf_next := next; lf_entries := es |}). Qed.

(** A leaf in its place, with a key that belongs there *)
Lemma found_entries m root H path l lo hi L R F key :
  found K m root H path l lo hi L R F key ->
  StronglySorted blt (lf_entries l).*1 /\ lf_entries l <> [] /\
  Forall (fun e => above lo e.1 /\ below e.1 hi /\ entry_fits K e) (lf_entries l) /\
  page_number (lf_id l) /\ (exists p, m !! lf_id l = Some p /\ leaf_at p l) /\
  tree K m H None None root (L ++ l :: R) (F ∪ {[lf_id l]}).
Proof.
  intros [Hc Ht Ho Ha Hb]. pose proof (ctx_plug _ _ _ _ _ _ _ _ _ _ _ _ _ _ Hc Ht ltac:(disj)) as Hw.
  inversion Ht; subst. split_and!; eauto.
Qed.

(** The entries with a new one stay sorted and in range. *)
Lemma placed_entries lo hi es key value c :
  StronglySorted blt es.*1 -> insertion_point es.*1 key c ->
  Forall (fun e => above lo e.1 /\ below e.1 hi /\ entry_fits K e) es ->
  above lo key -> below key hi -> entry_fits K (key, value) ->
  StronglySorted blt (insert_entry c (key, value) es).*1 /\
  Forall (fun e => above lo e.1 /\ below e.1 hi /\ entry_fits K e) (insert_entry c (key, value) es).
Proof.
  intros Hs Hc Hf Ha Hb He. split.
  - rewrite insert_entry_keys. by apply sorted_insertion_point.
  - unfold insert_entry. rewrite Forall_app, Forall_cons. split_and!; auto using Forall_take, Forall_drop.
Qed.

Lemma halves_in_range lo hi es1 e2 es2 :
  StronglySorted blt (es1 ++ e2 :: es2).*1 ->
  Forall (fun e => above lo e.1 /\ below e.1 hi /\ entry_fits K e) (es1 ++ e2 :: es2) ->
  (StronglySorted blt es1.*1 /\
   Forall (fun e => above lo e.1 /\ below e.1 (Some e2.1) /\ entry_fits K e) es1) /\
  StronglySorted blt (e2 :: es2).*1 /\
  Forall (fun e => above (Some e2.1) e.1 /\ below e.1 hi /\ entry_fits K e) (e2 :: es2).
Proof.
  rewrite fmap_app. intros (S1 & S2 & S12)%sorted_app Hf. apply Forall_app in Hf as [F1 F2].
  rewrite Forall_forall in S12. rewrite Forall_forall in F1. rewrite Forall_forall in F2.
  split; (split; [done|]); apply Forall_forall; intros e He.
  - destruct (F1 e He) as (A & B & C). split_and!; [done| |done]. cbn [below].
    assert (Hb : Forall (blt e.1) (e2 :: es2).*1) by (apply S12, list_elem_of_fmap; eauto).
    cbn in Hb. by apply Forall_cons in Hb as [? _].
  - destruct (F2 e He) as (A & B & C). split_and!; [|done|done]. cbn [above].
    apply elem_of_cons in He as [->|He]; [apply blt_irrefl|].
    cbn in S2. inversion S2 as [|? ? _ Hb]; subst. rewrite Forall_forall in Hb.
    intros Hlt. apply (blt_irrefl e.1). eapply blt_trans; [exact Hlt|]. apply Hb, list_elem_of_fmap. eauto.
Qed.

(** A leaf has been split and its first half written back: the tree has a pending
    child. *)
Section split_and_write.
Context (t : BTree S) (root : Z) (H : nat) (path : list Z) (l : leaf) (lo hi : option bytes)
  (L R : list leaf) (F : gset Z) (key value p : bytes) (c n : nat).
Context (Hfd : found K (view t) root H path l lo hi L R F key) (Hli : linked 0 (L ++ l :: R) 0).
Context (Hp : view t !! lf_id l = Some p) (Hl : leaf_at p l).
Context (Hc : insertion_point (lf_entries l).*1 key c).
Context (He : entry_fits K (key, value)) (HK : longest K <= 353).

(** The leaf behind the one that is split *)
Lemma successor_facts :
  (lf_next l = 0 \/ exists p l', view t !! lf_next l = Some p /\ leaf_at p l' /\ lf_id l' = lf_next l) /\
  u32_ok (lf_next l) /\ lf_next l <> lf_id l /\ lf_next l = first_id R 0 /\ NoDup (map lf_id (L ++ R)) /\
  Forall (fun l => lf_id l <> 0) R /\ (lf_next l = 0 \/ lf_next l ∈ F ∪ {[lf_id l]}).
Proof.
  destruct (found_entries _ _ _ _ _ _ _ _ _ _ _ Hfd) as (_ & _ & _ & Hnum & _ & Hw).
  pose proof (tree_nodup _ _ _ _ _ _ _ _ Hw) as Hnd. destruct (tree_leaves _ _ _ _ _ _ _ _ Hw) as [Hok _].
  pose proof (tree_leaf_ids _ _ _ _ _ _ _ _ Hw) as Hids.
  pose proof Hli as Hli'. apply linked_app in Hli' as [_ (_ & Hnx & _)].
  apply Forall_app in Hok as [_ [_ HokR]%Forall_cons]. apply Forall_app in Hids as [_ [_ HidR]%Forall_cons].
  rewrite map_app in *. cbn [map] in *. apply NoDup_app in Hnd as (N1 & N2 & [N3 N4]%NoDup_cons).
  assert (Hnd : NoDup (map lf_id L ++ map lf_id R)).
  { apply NoDup_app. split_and!; [done| |done]. intros x Hx HxR. apply (N2 x Hx). by right. }
  assert (Hnz : Forall (fun l => lf_id l <> 0) R).
  { eapply Forall_impl; [exact HokR|]. intros l3 (_ & [? _] & _). done. }
  rewrite Hnx. destruct R as [|l3 R']; cbn [first_id].
  { split; [by left|]. split; [by unfold u32_ok|]. split; [destruct Hnum; congruence|auto]. }
  apply Forall_cons in HokR as [((p3 & Hp3 & Hl3) & [Hn0 Hu3] & _) _].
  apply Forall_cons in HidR as [Hid3 _].
  split; [right; by exists p3, l3|]. split; [exact Hu3|]. split; [|auto].
  intros E. apply N3. rewrite <-E. by left.
Qed.

Lemma split_and_write :
  room (pager t) (Datatypes.S n) ->
  exists t1 t2 q1 q2 id2 l1 l2 sep,
    split_leaf crc32 p key value t = (t1, Ok (q1, q2, sep)) /\
    bt_write (lf_id l) (update_checksum crc32 q1) t1 = (t2, Ok tt) /\
    page_id (update_checksum crc32 q1) = lf_id l /\ leaf_at q2 l2 /\ lf_id l2 = id2 /\ lf_id l1 = lf_id l /\
    lf_next l2 = lf_next l /\
    lf_entries l1 ++ lf_entries l2 = insert_entry c (key, value) (lf_entries l) /\
    ctx K (view t2) root H path 0 (lf_id l) lo hi L (relink_first id2 R) F /\
    tree K (view t2) 0 lo (Some sep) (lf_id l) [l1] {[lf_id l]} /\
    tree K (view t2) 0 (Some sep) hi id2 [l2] {[id2]} /\ (id2 ∉ F) /\ id2 <> lf_id l /\
    sep_fits K (sep, lf_id l) /\ linked 0 (L ++ [l1] ++ [l2] ++ relink_first id2 R) 0 /\
    grown t t2 (F ∪ {[lf_id l]}) (F ∪ {[lf_id l]} ∪ {[id2]}) /\
    root_page_id t2 = root_page_id t /\ rightmost_leaf t2 = rightmost_leaf t /\ room (pager t2) n.
Proof.
  intros Hroom. destruct (found_entries _ _ _ _ _ _ _ _ _ _ _ Hfd) as (Hs & Hne & Hfe & Hnum & _ & Hw).
  destruct successor_facts as (Hnext & Hu & Hnn & Hnx & Hnd & Hnz & HnF).
  destruct Hfd as [Hctx _ Hout Hab Hbe].
  destruct (placed_entries lo hi _ key value c Hs Hc Hfe Hab Hbe He) as [Hs' Hf'].
  destruct (split_leaf_ok t l p key value c n Hl Hne Hnum Hu Hnext Hc HK) as
    (t1 & q1 & q2 & q2' & id2 & es1 & e2 & es2 & E1 & Ees & Hne1 & Hq1 & Hq2 & Hq2' & Hnone & Hnum2
      & Hrel & R1 & C1 & Hroom1); [eapply Forall_impl; [exact Hf'|]; intros ? Hx; apply Hx|exact Hroom|].
  rewrite Ees in Hs', Hf'. destruct (halves_in_range _ _ _ _ _ Hs' Hf') as [[S1 F1] [S2 F2]].
  pose proof (leaf_at_resealed _ _ _ (resealed_update_checksum crc32 q1) Hq1) as Hu1.
  assert (Hni : id2 ∉ F).
  { intros Hin. destruct (ctx_pages _ _ _ _ _ _ _ _ _ _ _ _ _ Hctx Hin). congruence. }
  assert (Hne2 : id2 <> lf_id l) by (intros ->; congruence).
  assert (Hnn2 : id2 <> lf_next l).
  { intros ->. destruct Hnext as [E|(p3 & l3 & Hp3 & _)]; [destruct Hnum2; congruence|congruence]. }
  pose proof (relinked_lookup _ _ _ _ (lf_id l) Hrel (fun _ => Hnn)) as V1.
  pose proof (relinked_lookup _ _ _ _ id2 Hrel (fun _ => not_eq_sym Hnn2)) as V2.
  rewrite lookup_insert_ne in V1 by done. rewrite lookup_insert, decide_True in V2 by done.
  destruct (bt_write_ok t1 (lf_id l) (update_checksum crc32 q1)) as (t2 & q1' & E2 & [Wv Ws Wr Wc Wm]);
    [rewrite V1, Hp; by eexists|exact (leaf_at_len _ _ Hu1)|exact (proj1 (proj2 Hu1))|].
  exists t1, t2, q1, q2, id2, {| lf_id := lf_id l; lf_prev := lf_prev l; lf_next := id2; lf_entries := es1 |},
    {| lf_id := id2; lf_prev := lf_id l; lf_next := lf_next l; lf_entries := e2 :: es2 |}, e2.1.
  cbn [lf_id lf_entries lf_next].
  split; [exact E1|]. split; [exact E2|]. split; [exact (proj1 (proj2 Hu1))|]. split; [exact Hq2|].
  do 3 (split; [reflexivity|]). split; [by rewrite Ees|].
  assert (V3 : view t2 !! lf_id l = Some q1') by (by rewrite Wv, lookup_insert, decide_True).
  assert (V4 : view t2 !! id2 = Some q2') by (by rewrite Wv, lookup_insert_ne).
  rewrite Hnx in Hrel. split; [|split; [|split; [|split; [exact Hni|split; [exact Hne2|]]]]].
  - apply (ctx_frame K (view t1)); [|intros x Hx; rewrite Wv, lookup_insert_ne; [done|by intros <-]].
    apply (relinked_ctx (<[id2 := q2']> (view t))); try done; [|apply Hnum2].
    apply (ctx_frame K (view t)); [done|]. intros x Hx. rewrite lookup_insert_ne; [done|by intros ->].
  - by apply (leaf_tree _ _ _ _ _ _ _ q1'); [..|exact (leaf_at_resealed _ _ _ Ws Hu1)| | |].
  - by apply (leaf_tree _ _ _ _ _ _ _ q2').
  - split; [|split; [by apply linked_relink|split; [|split; [congruence|split; [congruence|auto]]]]].
    + apply Forall_cons in F2 as [(_ & _ & (Ho & Hkl & _)) _]. by split; [apply Ho|].
    + split.
      * intros x Hx. rewrite elem_of_union, elem_of_singleton in Hx. destruct Hx as [?| ->]; auto.
      * intros x px Hx Hxn. rewrite Wv, lookup_insert_ne by (intros <-; clear - Hxn; set_solver).
        rewrite (relinked_lookup _ _ _ _ x Hrel), lookup_insert_ne; [done|congruence|].
        rewrite <-Hnx. intros Hnz' <-. by destruct HnF.
Qed.
End split_and_write.

(** ** The cached leaf *)

Definition cache_of (l : leaf) : option (Z * bytes) :=
  if lf_next l =? 0 then (fun high => (lf_id l, high)) <$> last (lf_entries l).*1 else None.

Lemma cache_rightmost_leaf_ok t q l :
  leaf_at q l ->
  cache_rightmost_leaf q t =
    ({| pager := pager t; root_page_id := root_page_id t; rightmost_leaf := cache_of l |}, Ok tt).
Proof.
  intros (_ & Hid & _ & Hn & Hr). unfold cache_rightmost_leaf, leaf_right_sibling, cache_of. rewrite Hn.
  destruct (lf_next l =? 0); [|reflexivity].
  assert (E : (high ← lift (leaf_high_key q); mret ((fun high => (page_id q, high)) <$> high)) t =
    (t, Ok ((fun high => (lf_id l, high)) <$> last (lf_entries l).*1))).
  { rewrite (eff_bind_lift _ _ _ _ (leaf_high_key_ok _ _ Hr)), Hid. reflexivity. }
  by rewrite (eff_bind_ok _ _ _ _ _ E).
Qed.

(** A leaf that is followed by none is the last one. *)
Lemma cache_of_last ls l R :
  linked 0 (ls ++ l :: R) 0 -> Forall (fun l => lf_id l <> 0) R -> cache_ok (cache_of l) (ls ++ l :: R).
Proof.
  intros (_ & _ & Hn & _)%linked_app Hz. unfold cache_of. rewrite Hn.
  destruct R as [|l2 R]; cbn [first_id].
  - cbn. destruct (last (lf_entries l).*1) as [high|] eqn:E; [|done]. exists l. by rewrite last_snoc.
  - apply Forall_cons in Hz as [Hz _]. by rewrite (proj2 (Z.eqb_neq _ _)).
Qed.

Lemma cache_ok_tail c ls l l' l2 R :
  cache_ok c (ls ++ l :: l2 :: R) -> cache_ok c (ls ++ l' :: l2 :: R).
Proof. destruct c as [[id high]|]; [|done]. cbn. by rewrite !last_app_cons, !last_cons_cons. Qed.

(** ** A leaf with room *)

Lemma place_ok t root H path l lo hi L R F key value p c :
  found K (view t) root H path l lo hi L R F key -> view t !! lf_id l = Some p -> leaf_at p l ->
  insertion_point (lf_entries l).*1 key c -> entry_fits K (key, value) ->
  can_insert_leaf p key value = true -> linked 0 (L ++ l :: R) 0 ->
  exists p' l', insert_into_leaf p key value = Ok p' /\ leaf_at p' l' /\ lf_id l' = lf_id l /\
    lf_next l' = lf_next l /\ lf_entries l' = insert_entry c (key, value) (lf_entries l) /\
    linked 0 (L ++ l' :: R) 0 /\
    forall t1, view t1 = view t -> root_page_id t1 = root ->
      exists t2, bt_write (lf_id l) p' t1 = (t2, Ok tt) /\
        tree K (view t2) H None None (root_page_id t2) (L ++ l' :: R) (F ∪ {[lf_id l]}) /\
        grown t t2 (F ∪ {[lf_id l]}) (F ∪ {[lf_id l]}) /\ rightmost_leaf t2 = rightmost_leaf t1.
Proof.
  intros Hfd Hp Hl Hc He Hcan Hli.
  destruct (found_entries _ _ _ _ _ _ _ _ _ _ _ Hfd) as (Hs & Hne & Hfe & Hnum & _ & Hw).
  destruct Hfd as [Hctx _ Hout Hab Hbe].
  destruct (placed_entries lo hi _ key value c Hs Hc Hfe Hab Hbe He) as [Hs' Hf'].
  pose proof (insert_into_leaf_spec p (lf_entries l) key value (proj2 (proj2 (proj2 (proj2 Hl)))) Hs
    (insertion_point_not_in _ _ _ Hc) (proj1 (proj1 He)) (proj2 (proj1 He))) as Hi.
  rewrite Hcan in Hi. destruct Hi as (p' & c' & E & Hc' & Hr' & _ & Hfr).
  rewrite (insertion_point_unique _ _ _ _ Hc' Hc) in Hr'.
  pose proof (leaf_at_cells p p' _ _ _ _ (leaf_at_head _ _ Hl) Hfr Hr') as Hl'.
  exists p', {| lf_id := lf_id l; lf_prev := lf_prev l; lf_next := lf_next l;
    lf_entries := insert_entry c (key, value) (lf_entries l) |}.
  split; [exact E|]. split; [exact Hl'|]. do 3 (split; [reflexivity|]). split.
  { apply linked_app in Hli as [A1 A2]. apply linked_app. by split. }
  intros t1 V1 R1. destruct (bt_write_ok t1 (lf_id l) p') as (t2 & q & E2 & W);
    [rewrite V1, Hp; by eexists|exact (leaf_at_len _ _ Hl')|exact (proj1 (proj2 Hl'))|].
  pose proof W as [Wv Ws Wr Wc Wm]. exists t2. split; [exact E2|]. rewrite V1 in Wv.
  split; [|split; [|exact Wc]].
  - rewrite Wr, R1. change (?L ++ ?l :: ?R) with (L ++ [l] ++ R).
    eapply ctx_plug; [| |disj].
    + apply (ctx_frame K (view t)); [exact Hctx|]. intros x Hx. rewrite Wv, lookup_insert_ne; [done|by intros <-].
    + apply (leaf_tree _ _ _ _ _ _ _ q); [by rewrite Wv, lookup_insert, decide_True|done| |..|done|done].
      * exact (leaf_at_resealed _ _ _ Ws Hl').
      * unfold insert_entry. by destruct (take c (lf_entries l)).
  - apply (grown_trans t t1 t2 _ (F ∪ {[lf_id l]})).
    + split; [by left|]. intros. by rewrite V1.
    + eapply grown_written; [exact W|]. clear; set_solver.
Qed.

(** ** Insertion of an encoded entry *)

(** What an insertion achieves *)
Definition inserted t t' (ls : list leaf) (F : gset Z) (e : entry) : Prop :=
  exists ls' F' c, btree_ok K t' ls' F' /\ grown t t' F F' /\ (c <= length (contents ls))%nat /\
    contents ls' = insert_entry c e (contents ls).

Lemma insert_entry_middle (A es B : list entry) c e :
  (c <= length es)%nat ->
  A ++ insert_entry c e es ++ B = insert_entry (length A + c) e (A ++ es ++ B).
Proof.
  intros Hc. unfold insert_entry. rewrite take_app_add, drop_app_add.
  rewrite take_app_le, drop_app_le by done. by rewrite <-!app_assoc.
Qed.

(** The page of a first leaf *)
Lemma first_leaf_page id key value :
  page_number id -> entry_fits K (key, value) -> longest K <= 353 ->
  exists p, insert_into_leaf (clear_leaf_cells (Page_new BTreeLeaf id)) key value = Ok p /\
    leaf_at (init_leaf_links p 0 0)
      {| lf_id := id; lf_prev := 0; lf_next := 0; lf_entries := [(key, value)] |}.
Proof.
  intros Hnum He HK.
  destruct (Page_new_fields BTreeLeaf id (proj2 Hnum)) as (F1 & _ & _ & _ & F5).
  destruct (clear_leaf_cells_area (Page_new BTreeLeaf id) (zlen_Page_new _ _)
    (Page_new_bytes _ _ (proj2 Hnum))) as (Hrep & Hend & Hfr).
  assert (Hh : exists a b, leaf_head (Page_new BTreeLeaf id) id a b).
  { do 2 eexists. split; [apply zlen_Page_new|by apply Page_new_bytes, Hnum|exact F1|exact F5|exact eq_refl..]. }
  destruct Hh as (a & b & Hh). clear F1 F5.
  remember (clear_leaf_cells (Page_new BTreeLeaf id)) as p0 eqn:E0. clear E0.
  remember (Page_new BTreeLeaf id) as w eqn:Ew. clear Ew.
  pose proof (insert_into_leaf_spec p0 [] key value Hrep ltac:(constructor) ltac:(apply not_elem_of_nil)
    (proj1 (proj1 He)) (proj2 (proj1 He))) as Hi.
  assert (Hcan : can_insert_leaf p0 key value = true).
  { apply (can_insert_leaf_spec p0 [] key value Hrep). unfold leaf_fits. rewrite Hend, zlen_leaf_cell.
    pose proof (leaf_entry_fits _ He HK) as Hsz. unfold leaf_entry_size in Hsz.
    change (zlen (@nil entry)) with 0. cbn [fst snd] in *. lia. }
  rewrite Hcan in Hi. destruct Hi as (p1 & c & E1 & Hc & Hr & _ & Hf1). exists p1. split; [exact E1|].
  assert (Ec : insert_entry c (key, value) [] = [(key, value)]) by (by destruct c). rewrite Ec in Hr.
  pose proof (leaf_at_cells w p1 _ _ _ _ Hh ltac:(by etrans) Hr) as Hl1.
  assert (U0 : u32_ok 0) by (unfold u32_ok; lia). exact (init_leaf_links_at _ _ 0 0 Hl1 U0 U0).
Qed.

Lemma create_root_ok t key value n :
  root_page_id t = 0 -> rightmost_leaf t = None -> entry_fits K (key, value) -> longest K <= 353 ->
  room (pager t) (Datatypes.S n) ->
  exists t', create_root crc32 key value t = (t', Ok tt) /\ inserted t t' [] ∅ (key, value).
Proof.
  intros Hr0 Hc0 He HK Hroom. unfold create_root.
  destruct (bt_allocate_ok t BTreeLeaf n Hroom) as (t1 & id & Ea & Hnone & Hnum & Hown & Hv1 & Hr1 & Hc1 & _).
  rewrite (eff_bind_ok _ _ _ _ _ Ea). clear Ea.
  destruct (first_leaf_page id key value Hnum He HK) as (p1 & E1 & Hl2). cbv zeta.
  rewrite (eff_bind_lift _ _ _ _ E1). clear E1.
  remember (init_leaf_links p1 0 0) as p2 eqn:E2. clear E2.
  pose proof (leaf_at_resealed _ _ _ (resealed_update_checksum crc32 p2) Hl2) as Hl3.
  remember (update_checksum crc32 p2) as p3 eqn:E3. clear E3. rewrite (proj1 (proj2 Hl3)). cbn [lf_id].
  destruct (bt_write_owned t1 id p3 Hown) as (t2 & q & E4 & W);
    [exact (leaf_at_len _ _ Hl3)|exact (proj1 (proj2 Hl3))|].
  rewrite (eff_bind_ok _ _ _ _ _ E4). pose proof (fresh_written _ _ _ _ _ _ Hv1 W) as Hv2.
  eexists. split; [reflexivity|].
  exists [{| lf_id := id; lf_prev := 0; lf_next := 0; lf_entries := [(key, value)] |}], {[id]}, O.
  split; [|split; [|done]].
  - apply (btree_root _ _ O).
    + change (tree K (view t2) 0 None None id
        [{| lf_id := id; lf_prev := 0; lf_next := 0; lf_entries := [(key, value)] |}] {[id]}).
      apply (leaf_tree _ _ _ _ _ _ _ q); [by rewrite Hv2, lookup_insert, decide_True|exact Hnum| |done| |].
      * exact (leaf_at_resealed _ _ _ (written_seal _ _ _ _ _ W) Hl3).
      * by repeat constructor.
      * by rewrite Forall_singleton.
    + done.
    + change (cache_ok (rightmost_leaf t2) [{| lf_id := id; lf_prev := 0; lf_next := 0;
        lf_entries := [(key, value)] |}]). by rewrite (written_cache _ _ _ _ _ W), Hc1, Hc0.
  - split; [intros x ->%elem_of_singleton; by right|]. intros x px Hx _. change (view t2 !! x = Some px).
    rewrite Hv2, lookup_insert_ne; [done|]. intros <-. congruence.
Qed.

(** The tree with the two halves of a leaf, once the ancestors know of both *)
Lemma inserted_split t t' ls F key value c L l R l1 l2 id2 H' F' :
  ls = L ++ l :: R -> (c <= length (lf_entries l))%nat ->
  lf_entries l1 ++ lf_entries l2 = insert_entry c (key, value) (lf_entries l) ->
  tree K (view t') H' None None (root_page_id t') (L ++ [l1] ++ [l2] ++ relink_first id2 R) F' ->
  linked 0 (L ++ [l1] ++ [l2] ++ relink_first id2 R) 0 -> rightmost_leaf t' = cache_of l2 ->
  Forall (fun l => lf_id l <> 0) R -> grown t t' F F' ->
  inserted t t' ls F (key, value).
Proof.
  intros -> Hc Ees Ht Hli Hca Hnz Hg.
  exists (L ++ [l1] ++ [l2] ++ relink_first id2 R), F', (length (contents L) + c)%nat.
  split; [|split; [exact Hg|]].
  - eapply btree_root; [exact Ht|exact Hli|]. rewrite Hca, (app_assoc L).
    apply cache_of_last; [by rewrite <-app_assoc|]. destruct R; [done|]. by inversion Hnz; subst; constructor.
  - rewrite contents_middle. split; [rewrite !length_app; lia|].
    rewrite <-insert_entry_middle by done. rewrite <-Ees.
    rewrite !contents_app, contents_relink_first. unfold contents at 2 3. cbn [map concat].
    by rewrite !app_nil_r, <-!app_assoc.
Qed.

(** The descent and the read of the leaf *)
Lemma locate_ok t root H ls F key :
  tree K (view t) H None None root ls F ->
  exists t1 t2 l path lo hi L R F' p,
    find_leaf root key t = (t1, Ok (lf_id l, path)) /\ bt_read (lf_id l) t1 = (t2, Ok p) /\
    unchanged t t2 /\ found K (view t2) root H path l lo hi L R F' key /\ ls = L ++ l :: R /\
    F = F' ∪ {[lf_id l]} /\ view t2 !! lf_id l = Some p /\ leaf_at p l.
Proof.
  intros Ht. destruct (find_leaf_ok K t root H ls F key Ht)
    as (t1 & l & path & lo & hi & L & R & F' & E1 & U1 & Hfd & EL & EF).
  destruct (found_entries _ _ _ _ _ _ _ _ _ _ _ Hfd) as (_ & _ & _ & _ & (p & Hp & Hl) & _).
  rewrite <-(same_pages _ _ U1) in Hp, Hfd. destruct (bt_read_ok t1 _ _ Hp) as (t2 & E2 & U2).
  rewrite <-(same_pages _ _ U2) in Hp, Hfd. exists t1, t2, l, path, lo, hi, L, R, F', p.
  split_and!; try done; [by etrans|apply Hl..].
Qed.

Lemma room_unchanged t t' n : unchanged t t' -> room (pager t) n -> room (pager t') n.
Proof. intros U. apply (same_room _ _ U). Qed.

Lemma grown_after t t1 t2 U U' : unchanged t t1 -> grown t1 t2 U U' -> grown t t2 U U'.
Proof. intros H1. apply grown_trans. by apply grown_unchanged. Qed.

(** The path of a leaf is short. *)
Lemma found_path m root H path l lo hi L R F key :
  found K m root H path l lo hi L R F key -> (length path <= 32)%nat.
Proof.
  intros Hfd. destruct (found_entries _ _ _ _ _ _ _ _ _ _ _ Hfd) as (_ & _ & _ & _ & _ & Hw).
  pose proof (tree_height _ _ _ _ _ _ _ _ Hw). pose proof (ctx_path _ _ _ _ _ _ _ _ _ _ _ _ (found_ctx _ _ _ _ _ _ _ _ _ _ _ _ Hfd)).
  lia.
Qed.

(** The ancestors are told of the second half. *)
Lemma settle_halves t t3 root H path l lo hi L R F U key value c id2 l1 l2 sep :
  ctx K (view t3) root H path 0 (lf_id l) lo hi L (relink_first id2 R) F ->
  tree K (view t3) 0 lo (Some sep) (lf_id l) [l1] {[lf_id l]} ->
  tree K (view t3) 0 (Some sep) hi id2 [l2] {[id2]} ->
  lf_id l ∉ F -> id2 ∉ F -> id2 <> lf_id l -> sep_fits K (sep, lf_id l) -> longest K <= 353 ->
  root_page_id t3 = root -> rightmost_leaf t3 = cache_of l2 ->
  linked 0 (L ++ [l1] ++ [l2] ++ relink_first id2 R) 0 ->
  lf_entries l1 ++ lf_entries l2 = insert_entry c (key, value) (lf_entries l) ->
  Forall (fun l => lf_id l <> 0) R -> (c <= length (lf_entries l))%nat ->
  grown t t3 U (F ∪ {[lf_id l]} ∪ {[id2]}) -> room (pager t3) 33 -> (length path <= 32)%nat ->
  exists t4, insert_into_parent crc32 path (lf_id l) sep id2 t3 = (t4, Ok tt) /\
    inserted t t4 (L ++ l :: R) U (key, value).
Proof.
  intros Hctx T1 T2 D1 D2 D3 Hsep HK R3 C3 Hli Ees Hnz Hc Hg Hroom Hpl. unfold insert_into_parent.
  destruct (insert_into_ancestors_ok path t3 root H 0 (lf_id l) lo hi L (relink_first id2 R) F sep id2
    [l1] {[lf_id l]} [l2] {[id2]} Hctx T1 T2) as (t4 & H' & F' & E4 & T4 & Hg4 & C4); try done.
  { disj. } { disj. } { clear - D3. set_solver. }
  { eapply room_le; [exact Hroom|lia]. }
  exists t4. split; [exact E4|].
  eapply (inserted_split t t4 _ _ key value c L l R l1 l2 id2); try done; [congruence|].
  by eapply grown_trans.
Qed.

(** The rest of an insertion from the root, once the leaf is known *)
Lemma insert_found_ok t root H path l lo hi L R F key value p c :
  found K (view t) root H path l lo hi L R F key -> linked 0 (L ++ l :: R) 0 ->
  cache_ok (rightmost_leaf t) (L ++ l :: R) ->
  view t !! lf_id l = Some p -> leaf_at p l -> insertion_point (lf_entries l).*1 key c ->
  entry_fits K (key, value) -> longest K <= 353 -> root_page_id t = root -> room (pager t) 34 ->
  exists t4,
    (if can_insert_leaf p key value then
       page ← lift (insert_into_leaf p key value);
       _ ← (if leaf_right_sibling page =? 0 then cache_rightmost_leaf page else mret tt);
       bt_write (page_id page) page
     else
       split ← split_leaf crc32 p key value;
       let '(page, new_leaf, separator_key) := split in
       _ ← bt_write (page_id (update_checksum crc32 page)) (update_checksum crc32 page);
       _ ← cache_rightmost_leaf new_leaf;
       insert_into_parent crc32 path (page_id (update_checksum crc32 page)) separator_key
         (page_id new_leaf)) t = (t4, Ok tt) /\
    inserted t t4 (L ++ l :: R) (F ∪ {[lf_id l]}) (key, value).
Proof.
  intros Hfd Hli Hca Hp Hl Hc He HK Hroot Hroom.
  assert (Hcl : (c <= length (lf_entries l))%nat) by (destruct Hc as (Hcl & _); by rewrite length_fmap in Hcl).
  destruct (successor_facts t root H path l lo hi L R F key Hfd Hli) as (_ & _ & _ & Hnx & _ & Hnz & _).
  destruct (can_insert_leaf p key value) eqn:Hcan.
  - destruct (place_ok t root H path l lo hi L R F key value p c Hfd Hp Hl Hc He Hcan Hli)
      as (p' & l' & E1 & Hl' & I1 & N1 & Ees & Hli' & Hwr).
    rewrite (eff_bind_lift _ _ _ _ E1). clear E1. rewrite (proj1 (proj2 Hl')), I1.
    assert (Hcache : exists t1, (if leaf_right_sibling p' =? 0 then cache_rightmost_leaf p' else mret tt) t
      = (t1, Ok tt) /\ view t1 = view t /\ root_page_id t1 = root /\
        cache_ok (rightmost_leaf t1) (L ++ l' :: R)).
    { unfold leaf_right_sibling. destruct Hl' as (X1 & X2 & X3 & X4 & X5). rewrite X4, N1.
      destruct (Z.eqb_spec (lf_next l) 0) as [E0|E0].
      - rewrite (cache_rightmost_leaf_ok t p' l') by done. eexists. split; [reflexivity|].
        split; [done|]. split; [done|]. by apply cache_of_last.
      - exists t. split; [done|]. split; [done|]. split; [done|].
        destruct R as [|l2 R]; [by rewrite Hnx in E0|]. by eapply cache_ok_tail. }
    destruct Hcache as (t1 & E1 & V1 & R1 & C1). rewrite (eff_bind_ok _ _ _ _ _ E1).
    destruct (Hwr t1 V1 R1) as (t2 & E2 & T2 & G2 & C2). exists t2. split; [exact E2|].
    exists (L ++ l' :: R), (F ∪ {[lf_id l]}), (length (contents L) + c)%nat.
    split; [eapply btree_root; [exact T2|exact Hli'|by rewrite C2]|]. split; [exact G2|].
    rewrite !contents_middle, Ees, insert_entry_middle by done. split; [rewrite !length_app; lia|done].
  - destruct (split_and_write t root H path l lo hi L R F key value p c 33 Hfd Hli Hp Hl Hc He HK Hroom)
      as (t1 & t2 & q1 & q2 & id2 & l1 & l2 & sep & E1 & E2 & I1 & Hq2 & I2 & I3 & N2 & Ees & Hctx & T1 & T2
        & D1 & D2 & Hsep & Hli' & Hg & R2 & C2 & Hroom2).
    rewrite (eff_bind_ok _ _ _ _ _ E1), I1, (eff_bind_ok _ _ _ _ _ E2).
    rewrite (eff_bind_ok _ _ _ _ _ (cache_rightmost_leaf_ok t2 q2 l2 Hq2)), (proj1 (proj2 Hq2)), I2.
    eapply settle_halves; try done; [apply Hfd|cbn; congruence| |by eapply found_path].
    destruct Hg as [G1 G2]. split; [exact G1|exact G2].
Qed.

(** ** Appending to the cached leaf *)

Lemma found_last m root H path l lo hi L R F key x e :
  found K m root H path l lo hi L R F key -> last (L ++ l :: R) = Some x -> e ∈ lf_entries x ->
  blt e.1 key -> R = [] /\ x = l.
Proof.
  intros Hfd Hx He Hlt. destruct (found_keys _ _ _ _ _ _ _ _ _ _ _ _ Hfd) as [_ HR].
  destruct R as [|l2 R]; [rewrite last_snoc in Hx; by injection Hx as ->|]. exfalso.
  rewrite last_app_cons, last_cons_cons in Hx. rewrite Forall_forall in HR.
  apply (blt_irrefl key). eapply blt_trans; [|exact Hlt]. apply HR. apply last_Some_elem_of in Hx.
  unfold contents. apply list_elem_of_In, in_concat. exists (lf_entries x).
  rewrite <-!list_elem_of_In. split; [|done]. apply list_elem_of_fmap. eauto.
Qed.

Lemma insert_entry_end es key value c high :
  insertion_point es.*1 key c -> last es.*1 = Some high -> blt high key ->
  last (insert_entry c (key, value) es).*1 = Some key.
Proof.
  intros (Hcl & _ & Hd) Hla Hlt. rewrite insert_entry_keys. destruct (drop c es.*1) as [|k ks] eqn:Ed.
  - apply last_snoc.
  - exfalso. rewrite <-(take_drop c es.*1), Ed, last_app_cons in Hla. apply last_Some_elem_of in Hla.
    rewrite Forall_forall in Hd. apply (blt_irrefl key). eapply blt_trans; [by apply Hd|done].
Qed.

(** A leaf's range can be given another lower bound of its entries. *)
Lemma leaf_bounds m lo lo' hi hi' id l :
  tree K m 0 lo hi id [l] {[id]} -> tree K m 0 lo' hi' id [l] {[id]} -> tree K m 0 lo' hi id [l] {[id]}.
Proof.
  intros H1 H2. inversion H1 as [lo0 hi0 p l0 A1 A2 A3 A4 A5 A6|]; subst.
  inversion H2 as [lo1 hi1 p1 l1 B1 B2 B3 B4 B5 B6|]; subst.
  apply (tree_leaf K m lo' hi p l); try done. rewrite Forall_forall in A6. rewrite Forall_forall in B6.
  apply Forall_forall. intros e He. destruct (A6 e He) as (_ & ? & ?), (B6 e He) as (? & _ & _). done.
Qed.

Lemma leaf_unbounded m lo hi id l : tree K m 0 lo hi id [l] {[id]} -> tree K m 0 lo None id [l] {[id]}.
Proof.
  intros H1. inversion H1 as [lo0 hi0 p l0 A1 A2 A3 A4 A5 A6|]; subst.
  apply (tree_leaf K m lo None p l); try done. eapply Forall_impl; [exact A6|]. intros e (? & _ & ?). done.
Qed.

(** The separator leads back to the last leaf. *)
Lemma find_last_leaf t root H path l1 lo L F sep id :
  ctx K (view t) root H path 0 id lo None L [] F ->
  tree K (view t) 0 lo (Some sep) id [l1] {[id]} -> id ∉ F ->
  exists t' path' lo', find_leaf root sep t = (t', Ok (id, path')) /\ unchanged t t' /\
    ctx K (view t) root H path' 0 id lo' None L [] F /\
    tree K (view t) 0 lo' (Some sep) id [l1] {[id]} /\ (length path' <= 32)%nat.
Proof.
  intros Hctx T1 Hout. assert (Eid : lf_id l1 = id) by (by inversion T1).
  assert (Hw : tree K (view t) H None None root (L ++ [l1] ++ []) (F ∪ {[id]})).
  { eapply ctx_plug; [exact Hctx|by eapply leaf_unbounded|disj]. }
  destruct (find_leaf_ok K t root H _ _ sep Hw) as (t' & l' & path' & lo' & hi' & L' & R' & F'' & E & U & Hfd & EL & EF).
  assert (He : exists e, e ∈ lf_entries l1 /\ blt e.1 sep).
  { inversion T1 as [lo0 hi0 p l0 A1 A2 A3 A4 A5 A6|]; subst. destruct (lf_entries l1) as [|e es]; [done|].
    exists e. split; [by left|]. apply Forall_cons in A6 as [(_ & ? & _) _]. done. }
  destruct He as (e & He & Hlt). rewrite app_nil_r in EL.
  destruct (found_last _ _ _ _ _ _ _ _ _ _ _ l1 e Hfd) as [-> <-]; [by rewrite <-EL, last_snoc|done|done|].
  apply app_inj_tail in EL as [<- _]. pose proof (found_path _ _ _ _ _ _ _ _ _ _ _ Hfd) as Hpl.
  destruct Hfd as [Hc Ht Ho _ _]. rewrite Eid in *.
  rewrite (union_singleton_inj _ _ _ EF Hout Ho) in *.
  pose proof (ctx_right_end _ _ _ _ _ _ _ _ _ _ _ _ Hc eq_refl) as ->.
  exists t', path', lo'. split_and!; try done. by eapply leaf_bounds.
Qed.

(** The last leaf [l], with the new greatest key *)
Section append.
Context (t : BTree S) (root : Z) (H : nat) (path : list Z) (l : leaf) (lo hi : option bytes)
  (L : list leaf) (F : gset Z) (key value p high : bytes) (c : nat).
Context (Hfd : found K (view t) root H path l lo hi L [] F key) (Hli : linked 0 (L ++ [l]) 0).
Context (Hp : view t !! lf_id l = Some p) (Hl : leaf_at p l) (Hroot : root_page_id t = root).
Context (Hc : insertion_point (lf_entries l).*1 key c) (Hcl : (c <= length (lf_entries l))%nat).
Context (Hhigh : last (lf_entries l).*1 = Some high) (Hlt : blt high key).
Context (He : entry_fits K (key, value)) (HK : longest K <= 353) (Hroom : room (pager t) 34).

Lemma append_place :
  can_insert_leaf p key value = true ->
  exists t', (page ← lift (insert_into_leaf p key value);
              _ ← set_rightmost (Some (page_id page, key));
              _ ← bt_write (page_id page) page;
              mret true) t = (t', Ok true) /\
    inserted t t' (L ++ [l]) (F ∪ {[lf_id l]}) (key, value).
Proof.
  intros Hcan. destruct (place_ok t root H path l lo hi L [] F key value p c Hfd Hp Hl Hc He Hcan Hli)
    as (p' & l' & E2 & Hl' & I1 & N1 & Ees & Hli' & Hwr).
  rewrite (eff_bind_lift _ _ _ _ E2). clear E2. rewrite (proj1 (proj2 Hl')), I1.
  rewrite (eff_bind_ok _ _ t _ _ eq_refl). cbn [fst snd].
  destruct (Hwr {| pager := pager t; root_page_id := root_page_id t;
    rightmost_leaf := Some (lf_id l, key) |} eq_refl Hroot) as (t2 & E2 & T2 & G2 & C2).
  rewrite (eff_bind_ok _ _ _ _ _ E2). exists t2. split; [done|].
  exists (L ++ [l']), (F ∪ {[lf_id l]}), (length (contents L) + c)%nat. split; [|split; [exact G2|]].
  - eapply btree_root; [exact T2|exact Hli'|]. rewrite C2. exists l'. rewrite last_snoc. split; [done|].
    split; [done|]. rewrite Ees. by eapply insert_entry_end.
  - rewrite !contents_middle, Ees, insert_entry_middle by done. split; [rewrite !length_app; lia|done].
Qed.

Lemma append_split :
  exists t', (split ← split_leaf crc32 p key value;
              let '(page, new_leaf, separator_key) := split in
              _ ← bt_write (page_id (update_checksum crc32 page)) (update_checksum crc32 page);
              _ ← cache_rightmost_leaf new_leaf;
              found ← find_leaf root separator_key;
              _ ← insert_into_parent crc32 found.2 (lf_id l) separator_key (page_id new_leaf);
              mret true) t = (t', Ok true) /\
    inserted t t' (L ++ [l]) (F ∪ {[lf_id l]}) (key, value).
Proof.
  destruct (split_and_write t root H path l lo hi L [] F key value p c 33 Hfd Hli Hp Hl Hc He HK Hroom)
    as (t1 & t2 & q1 & q2 & id2 & l1 & l2 & sep & E1 & E2 & I1 & Hq2 & I2 & I3 & N2 & Ees & Hctx & T1 & T2
      & D1 & D2 & Hsep & Hli' & Hg & R2 & C2 & Hroom2).
  destruct Hfd as [Hc0 _ Hout _ _]. pose proof (ctx_right_end _ _ _ _ _ _ _ _ _ _ _ _ Hc0 eq_refl) as Ehi.
  rewrite Ehi in Hctx, T2. cbn [relink_first] in *.
  rewrite (eff_bind_ok _ _ _ _ _ E1), I1, (eff_bind_ok _ _ _ _ _ E2).
  rewrite (eff_bind_ok _ _ _ _ _ (cache_rightmost_leaf_ok t2 q2 l2 Hq2)), (proj1 (proj2 Hq2)), I2.
  remember {| pager := pager t2; root_page_id := root_page_id t2; rightmost_leaf := cache_of l2 |} as t3 eqn:Et3.
  assert (V3 : view t3 = view t2) by (by rewrite Et3). rewrite <-V3 in Hctx, T1, T2.
  destruct (find_last_leaf t3 root H path l1 lo L F sep (lf_id l) Hctx T1 Hout)
    as (t4 & path' & lo' & E4 & U4 & Hctx' & T1' & Hpl).
  rewrite (eff_bind_ok _ _ _ _ _ E4). cbn [snd].
  pose proof (same_pages _ _ U4) as V4. rewrite <-V4 in Hctx', T1', T2.
  destruct (settle_halves t t4 root H path' l lo' None L [] F (F ∪ {[lf_id l]}) key value c id2 l1 l2 sep)
    as (t5 & E5 & Hins); try done.
  - rewrite (same_root _ _ U4), Et3. cbn. congruence.
  - by rewrite (same_cache _ _ U4), Et3.
  - eapply grown_trans; [exact Hg|]. split; [by left|]. intros. by rewrite V4, V3.
  - apply (same_room _ _ U4). by rewrite Et3.
  - exists t5. by rewrite (eff_bind_ok _ _ _ _ _ E5).
Qed.
End append.

Lemma inserted_after t t1 t2 ls F e : unchanged t t1 -> inserted t1 t2 ls F e -> inserted t t2 ls F e.
Proof.
  intros U (ls' & F' & c & H1 & H2 & H3). exists ls', F', c. split; [done|]. split; [|done].
  by eapply grown_after.
Qed.

Lemma append_rightmost_ok t H ls F key value cid high :
  tree K (view t) H None None (root_page_id t) ls F -> linked 0 ls 0 ->
  cache_ok (Some (cid, high)) ls -> blt high key -> entry_fits K (key, value) -> longest K <= 353 ->
  room (pager t) 34 ->
  exists t', append_rightmost crc32 (root_page_id t) cid key value t = (t', Ok true) /\
    inserted t t' ls F (key, value).
Proof.
  intros Ht Hli (l & Hlast & <- & Hhigh) Hlt He HK Hroom. set (root := root_page_id t) in *.
  destruct (find_leaf_ok K t root H ls F key Ht) as (_ & l0 & path & lo & hi & L & R & F' & _ & _ & Hfd & -> & ->).
  assert (Hin : exists e, e ∈ lf_entries l /\ e.1 = high).
  { apply last_Some_elem_of, list_elem_of_fmap in Hhigh as (e & -> & ?). eauto. }
  destruct Hin as (e & Hin & Ehigh). rewrite <-Ehigh in Hlt.
  destruct (found_last _ _ _ _ _ _ _ _ _ _ _ l e Hfd Hlast Hin Hlt) as [-> <-]. rewrite Ehigh in Hlt.
  destruct (found_entries _ _ _ _ _ _ _ _ _ _ _ Hfd) as (Hs & _ & _ & _ & (p & Hp & Hl) & _).
  pose proof Hli as (_ & _ & Hnx & _)%linked_app. cbn [first_id] in Hnx.
  unfold append_rightmost. destruct (bt_read_ok t _ _ Hp) as (t1 & E1 & U1).
  rewrite (eff_bind_ok _ _ _ _ _ E1). unfold leaf_right_sibling at 1.
  rewrite (proj1 (proj2 (proj2 (proj2 Hl)))), Hnx, Z.eqb_refl.
  rewrite <-(same_pages _ _ U1) in Hfd, Hp. apply (same_room _ _ U1) in Hroom.
  assert (R1 : root_page_id t1 = root) by apply (same_root _ _ U1).
  assert (Hni : key ∉ (lf_entries l).*1).
  { intros Hk. pose proof (StronglySorted_last _ _ _ _ Hs Hhigh Hk) as [->|Hb].
    - by apply (blt_irrefl high).
    - apply (blt_irrefl key). by eapply blt_trans. }
  destruct (insertion_point_exists _ _ Hs Hni) as (c & Hc).
  assert (Hcl : (c <= length (lf_entries l))%nat) by (destruct Hc as (Hcl & _); by rewrite length_fmap in Hcl).
  destruct (can_insert_leaf p key value) eqn:Hcan.
  - destruct (append_place t1 root H path l lo hi L F' key value p high c Hfd Hli Hp Hl R1 Hc Hcl Hhigh Hlt He
      Hcan) as (t' & E2 & Hins). exists t'. split; [exact E2|by eapply inserted_after].
  - destruct (append_split t1 root H path l lo hi L F' key value p c Hfd Hli Hp Hl R1 Hc Hcl He HK Hroom)
      as (t' & E2 & Hins). exists t'. split; [exact E2|by eapply inserted_after].
Qed.

(** ** Both outcomes of an insertion *)

Lemma insert_from_root_ok t H ls F key value :
  tree K (view t) H None None (root_page_id t) ls F -> linked 0 ls 0 -> cache_ok (rightmost_leaf t) ls ->
  key ∉ (contents ls).*1 -> entry_fits K (key, value) -> longest K <= 353 -> room (pager t) 34 ->
  exists t', insert_from_root crc32 (root_page_id t) key value t = (t', Ok tt) /\
    inserted t t' ls F (key, value).
Proof.
  intros Ht Hli Hca Hni He HK Hroom. unfold insert_from_root.
  destruct (locate_ok t _ H ls F key Ht) as
    (t1 & t2 & l & path & lo & hi & L & R & F' & p & E1 & E2 & U & Hfd & -> & -> & Hp & Hl).
  rewrite (eff_bind_ok _ _ _ _ _ E1), (eff_bind_ok _ _ _ _ _ E2).
  destruct (found_entries _ _ _ _ _ _ _ _ _ _ _ Hfd) as (Hs & _).
  rewrite contents_middle, !fmap_app, !elem_of_app in Hni.
  destruct (search_leaf_spec p _ key (proj2 (proj2 (proj2 (proj2 Hl)))) Hs) as [(i & v & E & Hi)|(c & E & Hc)].
  { exfalso. apply Hni. right. left. apply list_elem_of_fmap. exists (key, v). split; [done|].
    by eapply list_elem_of_lookup_2. }
  rewrite (eff_bind_lift _ _ _ _ E). cbv zeta.
  destruct (insert_found_ok t2 (root_page_id t) H path l lo hi L R F' key value p c Hfd Hli) as (t' & E3 & Hins);
    try done.
  - by rewrite (same_cache _ _ U).
  - apply (same_root _ _ U).
  - by apply (same_room _ _ U).
  - exists t'. split; [exact E3|by eapply inserted_after].
Qed.

Lemma insert_encoded_ok t ls F key value :
  btree_ok K t ls F -> key ∉ (contents ls).*1 -> entry_fits K (key, value) -> longest K <= 353 ->
  room (pager t) 34 ->
  exists t', insert_encoded crc32 key value t = (t', Ok tt) /\ inserted t t' ls F (key, value).
Proof.
  intros Hok Hni He HK Hroom. unfold insert_encoded.
  rewrite (eff_bind_ok get_root _ t t (root_page_id t) eq_refl).
  destruct Hok as [Hr0 Hc0|H ls F Ht Hli Hca].
  { rewrite Hr0. by apply (create_root_ok t key value 33). }
  destruct (tree_root_number _ _ _ _ _ _ _ _ Ht) as [Hn0 _]. rewrite (proj2 (Z.eqb_neq _ _)) by done.
  rewrite (eff_bind_ok get_rightmost _ t t (rightmost_leaf t) eq_refl).
  destruct (insert_from_root_ok t H ls F key value Ht Hli Hca Hni He HK Hroom) as (t' & E & Hins).
  destruct (rightmost_leaf t) as [[cid high]|] eqn:Ec.
  - case_bool_decide as Hlt.
    + destruct (append_rightmost_ok t H ls F key value cid high Ht Hli Hca Hlt He HK Hroom) as (t2 & E2 & Hins2).
      rewrite (eff_bind_ok _ _ _ _ _ E2). by exists t2.
    + rewrite (eff_bind_ok (mret false) _ t t false eq_refl). by exists t'.
  - rewrite (eff_bind_ok (mret false) _ t t false eq_refl). by exists t'.
Qed.

(** The cached key is the greatest one. *)
Lemma cache_high ls cid high key :
  StronglySorted blt (contents ls).*1 -> cache_ok (Some (cid, high)) ls -> key ∈ (contents ls).*1 ->
  ~ blt high key.
Proof.
  intros Hs (l & Hl & _ & Hh) Hk Hlt. destruct ls as [|x ls _] using rev_ind; [done|].
  rewrite last_snoc in Hl. injection Hl as ->. rewrite contents_middle in Hs, Hk.
  change (contents []) with (@nil entry) in *. rewrite app_nil_r, fmap_app in *.
  assert (Hla : last ((contents ls).*1 ++ (lf_entries l).*1) = Some high) by (by rewrite last_app, Hh).
  destruct (StronglySorted_last _ _ _ _ Hs Hla Hk) as [->|Hb].
  - by apply (blt_irrefl high).
  - apply (blt_irrefl key). by eapply blt_trans.
Qed.

(** A key that is present is in the leaf that the descent finds. *)
Lemma found_in m root H path l lo hi L R F key :
  found K m root H path l lo hi L R F key -> key ∈ (contents (L ++ l :: R)).*1 ->
  key ∈ (lf_entries l).*1.
Proof.
  intros Hfd Hin. destruct (decide (key ∈ (lf_entries l).*1)) as [|Hni]; [done|].
  exfalso. by eapply found_not_in.
Qed.

Lemma insert_encoded_dup t ls F key value :
  btree_ok K t ls F -> key ∈ (contents ls).*1 ->
  exists t', insert_encoded crc32 key value t = (t', Err DuplicateKey) /\ unchanged t t'.
Proof.
  intros Hok Hin. unfold insert_encoded. pose proof (btree_ok_sorted _ _ _ _ Hok) as Hs.
  rewrite (eff_bind_ok get_root _ t t (root_page_id t) eq_refl).
  destruct Hok as [Hr0 Hc0|H ls F Ht Hli Hca]; [by apply elem_of_nil in Hin|].
  destruct (tree_root_number _ _ _ _ _ _ _ _ Ht) as [Hn0 _]. rewrite (proj2 (Z.eqb_neq _ _)) by done.
  rewrite (eff_bind_ok get_rightmost _ t t (rightmost_leaf t) eq_refl).
  assert (E0 : (match rightmost_leaf t with
    | Some (cached_page_id, high_key) =>
        if bool_decide (blt high_key key)
        then append_rightmost crc32 (root_page_id t) cached_page_id key value else mret false
    | None => mret false end) t = (t, Ok false)).
  { destruct (rightmost_leaf t) as [[cid high]|]; [|done].
    rewrite bool_decide_false; [done|]. by eapply cache_high. }
  rewrite (eff_bind_ok _ _ _ _ _ E0). unfold insert_from_root.
  destruct (locate_ok t _ H ls F key Ht) as
    (t1 & t2 & l & path & lo & hi & L & R & F' & p & E1 & E2 & U & Hfd & -> & -> & Hp & Hl).
  rewrite (eff_bind_ok _ _ _ _ _ E1), (eff_bind_ok _ _ _ _ _ E2).
  destruct (found_entries _ _ _ _ _ _ _ _ _ _ _ Hfd) as (Hsl & _).
  pose proof (found_in _ _ _ _ _ _ _ _ _ _ _ Hfd Hin) as Hk.
  destruct (search_leaf_spec p _ key (proj2 (proj2 (proj2 (proj2 Hl)))) Hsl) as [(i & v & E & Hi)|(c & E & Hc)].
  - rewrite (eff_bind_lift _ _ _ _ E). by exists t2.
  - exfalso. by eapply insertion_point_not_in.
Qed.
End laws.
