(* ===== verification/Rebalance.v ===== *)
(** * Rebalancing the pages of a B+ tree

    What a deletion does to the pages above the leaf it shrinks: the separator is
    refreshed, entries move between neighbours, or two pages merge and the loss moves
    up.  Proved for keys of one length against the laws of the page store. *)

From S2P Require Import Prelude FileFormat Page PageStore Overflow ValueLayout Slots Leaf Interior BTree Delete Tree BTreeRead Splits Siblings BTreeInsert.
From Stdlib Require Import ZArith Lia.

(** ** Vectors *)

Lemma vec_get_middle {E A} (l1 : list A) x l2 : vec_get (length l1) (l1 ++ x :: l2) = Ok x :> result E A.
Proof. unfold vec_get. by rewrite list_lookup_middle. Qed.

Lemma vec_set_middle {E A} (l1 : list A) x y l2 :
  vec_set (length l1) y (l1 ++ x :: l2) = Ok (l1 ++ y :: l2) :> result E (list A).
Proof. unfold vec_set. by rewrite list_lookup_middle, insert_app_r_alt, Nat.sub_diag by done. Qed.

Lemma vec_remove_middle {E A} (l1 : list A) x l2 :
  vec_remove (length l1) (l1 ++ x :: l2) = Ok (l1 ++ l2) :> result E (list A).
Proof.
  unfold vec_remove. rewrite list_lookup_middle by done. rewrite take_app_length.
  rewrite cons_middle, app_assoc, drop_app_length'; [done|]. rewrite length_app. cbn. lia.
Qed.

Lemma elem_of_rev {A} (x : A) l : x ∈ rev l <-> x ∈ l.
Proof. rewrite !list_elem_of_In. symmetry. apply in_rev. Qed.

(** ** Sizes *)

Lemma interior_entries_size_app ks1 ks2 :
  interior_entries_size (ks1 ++ ks2) = interior_entries_size ks1 + interior_entries_size ks2.
Proof. unfold interior_entries_size. induction ks1; cbn in *; lia. Qed.

Lemma interior_entries_size_cons k ks :
  interior_entries_size (k :: ks) = interior_key_size k + interior_entries_size ks.
Proof. done. Qed.

(** A slot takes two bytes and a key at least six. *)
Lemma slotted_entries_size ks :
  0 <= interior_entries_size ks /\ 3 * interior_slotted_size ks <= 4 * interior_entries_size ks.
Proof.
  induction ks as [|k ks IH]; [done|]. rewrite interior_entries_size_cons, interior_slotted_size_cons.
  unfold interior_key_size in *. pose proof (zlen_nonneg k). lia.
Qed.

Lemma node_at_size p id seps right : node_at p id seps right -> interior_slotted_size seps.*1 <= 16352.
Proof. intros (_ & _ & Hr & Hk). unfold interior_packed in Hk. pose proof (interior_rep_room _ _ _ Hr). lia. Qed.

Lemma leaf_entries_size_rev es : leaf_entries_size (rev es) = leaf_entries_size es.
Proof.
  induction es as [|e es IH]; [done|]. cbn [rev]. rewrite leaf_entries_size_app, IH, !leaf_entries_size_cons.
  change (leaf_entries_size []) with 0. lia.
Qed.

(** ** Borrowing *)

(** Something moves while the leaf is too small and the neighbour stays large enough. *)
Lemma borrow_left_spec min_bytes E rleft : forall leaf b,
  Forall (fun e => leaf_entry_size e <= E) rleft ->
  exists rest moved,
    borrow_left min_bytes rleft leaf b = (rest, moved ++ leaf, b || negb (bool_decide (moved = []))) /\
    rleft = rev moved ++ rest /\
    (moved <> [] -> min_bytes <= leaf_entries_size rest /\ leaf_entries_size (moved ++ leaf) < min_bytes + E) /\
    (moved = [] -> leaf_entries_size leaf < min_bytes -> rleft = [] \/ leaf_entries_size (tail rleft) < min_bytes).
Proof.
  induction rleft as [|e rleft IH]; intros leaf b Hf; cbn [borrow_left].
  - exists [], []. cbn. rewrite orb_false_r. destruct (_ <? _); (split_and!; [done|done|done|auto]).
  - apply Forall_cons in Hf as [He Hf]. destruct (Z.ltb_spec (leaf_entries_size leaf) min_bytes) as [Hlt|Hge].
    2:{ exists (e :: rleft), []. cbn. rewrite orb_false_r. (split_and!; [done|done|done|lia]). }
    rewrite leaf_entries_size_rev. destruct (Z.ltb_spec (leaf_entries_size rleft) min_bytes) as [Hr|Hr].
    { exists (e :: rleft), []. cbn. rewrite orb_false_r. (split_and!; [done|done|done|auto]). }
    destruct (IH (e :: leaf) true Hf) as (rest & moved & Eq & Er & Hm & _).
    exists rest, (moved ++ [e]). rewrite <-app_assoc. cbn [app]. rewrite Eq. split_and!.
    + rewrite (bool_decide_false (moved ++ [e] = [])) by (by destruct moved). by rewrite orb_true_r.
    + rewrite rev_app_distr. cbn. by rewrite Er.
    + intros _. destruct moved as [|m0 moved]; [|by apply Hm]. cbn [rev app] in Er |- *. subst rest.
      rewrite leaf_entries_size_cons. lia.
    + by destruct moved.
Qed.

Lemma borrow_right_spec min_bytes E right : forall leaf b,
  Forall (fun e => leaf_entry_size e <= E) right ->
  exists rest moved,
    borrow_right min_bytes right leaf b = (rest, leaf ++ moved, b || negb (bool_decide (moved = []))) /\
    right = moved ++ rest /\
    (moved <> [] -> min_bytes <= leaf_entries_size rest /\ leaf_entries_size (leaf ++ moved) < min_bytes + E) /\
    (moved = [] -> leaf_entries_size leaf < min_bytes -> right = [] \/ leaf_entries_size (tail right) < min_bytes).
Proof.
  induction right as [|e right IH]; intros leaf b Hf; cbn [borrow_right].
  - exists [], []. cbn. rewrite orb_false_r, app_nil_r. destruct (_ <? _); (split_and!; [done|done|done|auto]).
  - apply Forall_cons in Hf as [He Hf]. destruct (Z.ltb_spec (leaf_entries_size leaf) min_bytes) as [Hlt|Hge].
    2:{ exists (e :: right), []. cbn. rewrite orb_false_r, app_nil_r. (split_and!; [done|done|done|lia]). }
    destruct (Z.ltb_spec (leaf_entries_size right) min_bytes) as [Hr|Hr].
    { exists (e :: right), []. cbn. rewrite orb_false_r, app_nil_r. (split_and!; [done|done|done|auto]). }
    destruct (IH (leaf ++ [e]) true Hf) as (rest & moved & Eq & Er & Hm & _).
    exists rest, (e :: moved). rewrite Eq, <-app_assoc. cbn [app]. split_and!.
    + by rewrite orb_true_r.
    + by rewrite Er.
    + intros _. destruct moved as [|m0 moved].
      * cbn in Er. subst rest. rewrite leaf_entries_size_app, leaf_entries_size_cons.
        change (leaf_entries_size []) with 0. lia.
      * rewrite <-app_assoc in Hm. by apply Hm.
    + done.
Qed.

(** ** Wider bounds *)

Lemma tree_wider K m h lo hi hi' id ls F :
  tree K m h lo hi id ls F -> (forall x, below x hi -> below x hi') -> tree K m h lo hi' id ls F.
Proof.
  revert lo hi hi' id ls F. induction h as [|h IH]; intros lo hi hi' id ls F Ht Hw.
  - inversion Ht as [lo0 hi0 p l Hp Hid Hl Hne Hs Hf|]; subst. apply (tree_leaf K m lo hi' p); try done.
    eapply Forall_impl; [exact Hf|]. intros e (A & B & C). auto.
  - inversion Ht as [|? ? mid ? ? p seps right ls1 F1 ls2 F2 Hp Hid Hn Hne Hf H1 H2 D1 D2 D3]; subst.
    apply (tree_node K m h lo mid hi' id p seps right); try done. by eapply IH.
Qed.

Section laws.
Context {S : Type} `{HS : PageStore S} `{!PageStoreLaws S}.
Context (crc32 : bytes -> Z) (K : key_sizes).
Implicit Types t : BTree S.

(** ** Steps on the pages of the tree *)

(** Only pages of [U] have changed. *)
Record settled t t' (U : gset Z) : Prop := {
  settled_frame : forall x, x ∉ U -> view t' !! x = view t !! x;
  settled_cache : rightmost_leaf t' = rightmost_leaf t;
  settled_room : forall n, room (pager t) n -> room (pager t') n;
}.

Lemma settled_trans t1 t2 t3 U : settled t1 t2 U -> settled t2 t3 U -> settled t1 t3 U.
Proof. intros [A1 A2 A3] [B1 B2 B3]. split; [|congruence|auto]. intros x Hx. by rewrite B1, A1. Qed.

Lemma settled_unchanged t t' U : unchanged t t' -> settled t t' U.
Proof. intros [A1 A2 A3 A4]. split; [by rewrite A1|done|done]. Qed.

Lemma settled_written t t' U id p q : written t t' id p q -> id ∈ U -> settled t t' U.
Proof.
  intros [A1 A2 A3 A4 A5] Hid. split; [|done|done]. intros x Hx. rewrite A1, lookup_insert_ne; [done|].
  by intros <-.
Qed.

(** The page [id] is freed. *)
Record freed t t' (id : Z) : Prop := {
  freed_pages : view t' = base.delete id (view t);
  freed_root : root_page_id t' = root_page_id t;
  freed_cache : rightmost_leaf t' = rightmost_leaf t;
  freed_room : forall n, room (pager t) n -> room (pager t') n;
}.

Lemma bt_free_ok t id :
  is_Some (view t !! id) -> exists t', bt_free id t = (t', Ok tt) /\ freed t t' id.
Proof.
  intros [p0 Hi]. destruct (free_page_ok (pager t) id (pages_owned _ _ _ Hi)) as (s' & E & Hp & _ & Hr).
  exists (set_pager s' t). split; [by apply within_ok|by split].
Qed.

Lemma settled_freed t t' U id : freed t t' id -> id ∈ U -> settled t t' U.
Proof.
  intros [A1 A2 A3 A4] Hid. split; [|done|done]. intros x Hx. rewrite A1, lookup_delete_ne; [done|].
  by intros <-.
Qed.

Lemma rewrite_leaf_ok t p id prev next es :
  leaf_head p id prev next -> Forall entry_ok es -> leaf_entries_size es <= 16344 -> is_Some (view t !! id) ->
  exists t' p0 q r, rewrite_leaf crc32 id p es t = (t', Ok r) /\ written t t' id p0 q /\
    leaf_at q {| lf_id := id; lf_prev := prev; lf_next := next; lf_entries := es |}.
Proof.
  intros Hh He Hsz Hi. unfold rewrite_leaf.
  destruct (write_leaf_node t p id prev next es Hh He Hsz) as (r & E & Hl).
  rewrite (eff_bind_ok _ _ _ _ _ E).
  pose proof (leaf_at_resealed _ _ _ (resealed_update_checksum crc32 r) Hl) as Hl'.
  destruct (bt_write_ok t id (update_checksum crc32 r) Hi) as (t' & q & E' & W); [exact (leaf_at_len _ _ Hl')|exact (proj1 (proj2 Hl'))|].
  rewrite (eff_bind_ok _ _ _ _ _ E'). eexists t', _, q, _. split; [reflexivity|]. split; [exact W|].
  exact (leaf_at_resealed _ _ _ (written_seal _ _ _ _ _ W) Hl').
Qed.

Lemma rewrite_interior_ok t p id seps0 right0 seps right :
  node_at p id seps0 right0 -> u32_ok right -> Forall (fun s => Forall byte_ok s.1 /\ u32_ok s.2) seps ->
  interior_slotted_size seps.*1 <= 16352 -> is_Some (view t !! id) ->
  exists t' p0 q r, rewrite_interior crc32 id p seps.*1 (seps.*2 ++ [right]) t = (t', Ok r) /\
    written t t' id p0 q /\ node_at q id seps right /\ node_at r id seps right.
Proof.
  intros (N1 & N2 & N3 & _) Hr Hf Hsz Hi. unfold rewrite_interior.
  destruct (write_interior_node t p id seps right N1 N2) as (r & E & Hn);
    [by eapply interior_rep_len|apply N3|done|done|done|].
  rewrite (eff_bind_ok _ _ _ _ _ E). clear E.
  pose proof (node_at_resealed _ _ _ _ _ (resealed_update_checksum crc32 r) Hn) as Hn'.
  destruct (bt_write_ok t id (update_checksum crc32 r) Hi) as (t' & q & E' & W); [exact (node_at_len _ _ _ _ Hn')|exact (proj1 (proj2 Hn'))|].
  rewrite (eff_bind_ok _ _ _ _ _ E'). eexists t', _, q, _. split; [reflexivity|]. split; [exact W|].
  split; [exact (node_at_resealed _ _ _ _ _ (written_seal _ _ _ _ _ W) Hn')|exact Hn'].
Qed.

(** ** Two leaves next to each other *)

(** The outcome of a step that is complete *)
Definition balanced t t' (H : nat) (U : gset Z) (ls : list leaf) : Prop :=
  settled t t' U /\ root_page_id t' = root_page_id t /\
  exists ls' F', tree K (view t') H None None (root_page_id t') ls' F' /\ F' ⊆ U /\
    contents ls' = contents ls /\ linked 0 ls' 0.

Definition with_entries (l : leaf) (es : list entry) : leaf :=
  {| lf_id := lf_id l; lf_prev := lf_prev l; lf_next := lf_next l; lf_entries := es |}.

Lemma linked_entries L la lb R es1 es2 :
  linked 0 (L ++ la :: lb :: R) 0 -> linked 0 (L ++ with_entries la es1 :: with_entries lb es2 :: R) 0.
Proof. rewrite !linked_app. intros [H1 (H2 & H3 & H4 & H5 & H6)]. by split_and!. Qed.

Lemma contents_two L la lb R :
  contents (L ++ la :: lb :: R) = contents L ++ (lf_entries la ++ lf_entries lb) ++ contents R.
Proof. rewrite contents_middle. cbn. by rewrite <-app_assoc. Qed.

(** A separator of the same length fits. *)
Lemma separator_fits s1 k k' a s2 p id right :
  shortest K = longest K -> node_at p id (s1 ++ (k, a) :: s2) right -> key_fits K k -> key_fits K k' ->
  interior_slotted_size (s1 ++ (k', a) :: s2).*1 <= 16352.
Proof.
  intros HK Hn H1 H2. apply node_at_size in Hn. revert Hn. rewrite !fmap_app. cbn [fmap list_fmap fst].
  rewrite !interior_slotted_size_app, !interior_slotted_size_cons. unfold interior_key_size, key_fits in *. lia.
Qed.

Lemma node_at_numbers p id seps right :
  node_at p id seps right -> Forall (fun s => u32_ok s.2) seps /\ u32_ok right.
Proof.
  intros (_ & _ & Hr & _). pose proof (interior_rep_len _ _ _ Hr) as Hlen. destruct Hr as (Ha & _ & <- & Hs).
  split; [done|]. apply u32_at_ok; [by eapply area_bytes|done|rewrite Hlen; done].
Qed.

Lemma seps_writable seps p id right :
  node_at p id seps right -> Forall (sep_fits K) seps ->
  Forall (fun s => Forall byte_ok s.1 /\ u32_ok s.2) seps.
Proof.
  intros [Hn _]%node_at_numbers Hf. apply Forall_and. split; [|done].
  eapply Forall_impl; [exact Hf|]. by intros s [? _].
Qed.

(** The outcome of a step that has taken a separator from the page [id] *)
Definition merged t t' (H : nat) (path : list Z) (h : nat) (id : Z) (U : gset Z) (ls : list leaf) : Prop :=
  settled t t' U /\ root_page_id t' = root_page_id t /\
  exists ls' F', loose K (view t') (root_page_id t') H path h id ls' F' /\ F' ⊆ U /\
    contents ls' = contents ls /\ linked 0 ls' 0.

Lemma pair_relinked m m' root H path h id p s1 k a s2 right lo hi L R F n :
  pair K m root H path h id p s1 k a s2 right lo hi L R F -> relinked_pages m (first_id R 0) n m' -> u32_ok n ->
  pair K m' root H path h id p s1 k a s2 right lo hi L (relink_first n R) F.
Proof.
  intros Hpair Hrel Hn. destruct (pair_leaves_in _ _ _ _ _ _ _ _ _ _ _ _ _ _ _ _ _ _ Hpair) as [Hok _ Hnd].
  destruct R as [|l3 R]; cbn [first_id relink_first] in *.
  { destruct Hrel as [[_ ->]|[? _]]; done. }
  destruct Hrel as [[E _]|(Hne & pn & l & q & Hp & Hl & Hq & ->)].
  { apply Forall_app in Hok as [_ [(_ & [? _] & _) _]%Forall_cons]. done. }
  pose proof (pair_relink _ _ _ _ _ _ _ _ _ _ _ _ _ _ _ _ _ _ Hpair _ n pn q l Hp Hl Hq Hn) as Hc'.
  rewrite map_app in Hnd. cbn [map] in Hnd, Hc'.
  apply NoDup_app in Hnd as (_ & Hd & [Hd2 _]%NoDup_cons).
  rewrite !relink_other in Hc'.
  - unfold relink in Hc'. by rewrite Z.eqb_refl in Hc'.
  - done.
  - intros Hin. apply (Hd _ Hin). by left.
Qed.

Lemma linked_merged L la lb R es :
  linked 0 (L ++ la :: lb :: R) 0 ->
  linked 0 (L ++ {| lf_id := lf_id la; lf_prev := lf_prev la; lf_next := lf_next lb; lf_entries := es |}
    :: relink_first (lf_id la) R) 0.
Proof.
  rewrite !linked_app. intros [H1 (H2 & H3 & H4 & H5 & H6)]. split; [done|]. cbn. split; [done|].
  destruct R as [|l R]; cbn in *; [done|]. destruct H6 as (_ & H7 & H8). by split_and!.
Qed.

(** The leaf behind the one that goes gets its new left neighbour. *)
Lemma relink_next_ok t next n :
  next = 0 \/ (exists p l, view t !! next = Some p /\ leaf_at p l /\ lf_id l = next) -> u32_ok n ->
  exists t', (if negb (next =? 0) then
       page ← bt_read next;
       bt_write next (update_checksum crc32 (set_prev_leaf page n))
     else mret tt) t = (t', Ok tt) /\
    relinked_pages (view t) next n (view t') /\ root_page_id t' = root_page_id t /\
    rightmost_leaf t' = rightmost_leaf t /\ (forall r, room (pager t) r -> room (pager t') r).
Proof.
  intros Hnext Hn. destruct (Z.eqb_spec next 0) as [->|Hne].
  { exists t. split; [reflexivity|]. split; [by left|done]. }
  destruct Hnext as [?|(p & l & Hp & Hl & Hid)]; [done|]. cbn [negb].
  destruct (bt_read_ok t next p Hp) as (t1 & E1 & U1). rewrite (eff_bind_ok _ _ _ _ _ E1).
  pose proof (set_prev_leaf_at p l n Hl Hn) as Hl'. remember (set_prev_leaf p n) as p' eqn:Ep'.
  pose proof (resealed_update_checksum crc32 p') as Hu.
  destruct (bt_write_ok t1 next (update_checksum crc32 p')) as (t2 & q & E2 & [Wv Ws Wr Wc Wm]).
  { rewrite (same_pages _ _ U1), Hp. by eexists. }
  { exact (leaf_at_len _ _ (leaf_at_resealed _ _ _ Hu Hl')). }
  { etrans; [exact (proj1 (proj2 (leaf_at_resealed _ _ _ Hu Hl')))|exact Hid]. }
  exists t2. split; [exact E2|]. split; [right; split; [done|]|].
  - exists p, l, q. do 2 (split; [assumption|]). rewrite <-Ep'. split; [by etrans|].
    by rewrite Wv, (same_pages _ _ U1).
  - rewrite Wr, Wc, (same_root _ _ U1), (same_cache _ _ U1). split; [done|]. split; [done|].
    intros r Hr. apply Wm. by apply (same_room _ _ U1).
Qed.

(** The parent without the separator and the child right of it *)
Lemma rewrite_merged t p id s1 k a s2 right :
  node_at p id (s1 ++ (k, a) :: s2) right -> Forall (sep_fits K) (s1 ++ (k, a) :: s2) -> u32_ok a ->
  is_Some (view t !! id) ->
  exists t' p0 q r, rewrite_interior crc32 id p (s1.*1 ++ s2.*1) (s1.*2 ++ a :: tail_children s2 right) t
    = (t', Ok r) /\ written t t' id p0 q /\ node_at q id (s1 ++ set_head a s2) (set_last a s2 right).
Proof.
  intros Hpm Hsf Ha Hi.
  pose proof (seps_writable _ _ _ _ Hpm Hsf) as Hw. apply Forall_app in Hw as [Hw1 [[_ Hw2] Hw3]%Forall_cons].
  pose proof (node_at_size _ _ _ _ Hpm) as Hsz. rewrite fmap_app, interior_slotted_size_app in Hsz.
  cbn [fmap list_fmap fst] in Hsz. rewrite interior_slotted_size_cons in Hsz.
  change (list_fmap _ _ fst ?l) with (l.*1) in Hsz. unfold interior_key_size in Hsz. pose proof (zlen_nonneg k).
  destruct (rewrite_interior_ok t p id _ _ (s1 ++ set_head a s2) (set_last a s2 right) Hpm)
    as (t4 & p4 & q & r & E & W & N & _).
  - destruct s2; [done|]. apply (node_at_numbers _ _ _ _ Hpm).
  - apply Forall_app. split; [done|]. destruct s2 as [|[k2 c2] s2']; [constructor|].
    apply Forall_cons in Hw3 as [[? _] ?]. by constructor.
  - rewrite fmap_app, keys_set_head, interior_slotted_size_app. lia.
  - done.
  - exists t4, p4, q, r. split; [|by split].
    rewrite !fmap_app, keys_set_head, <-app_assoc, children_set_head in E. exact E.
Qed.

(** The leaves [la] and [lb] next to each other under the page [id], one of which may
    be empty; [pm] is the parent as the code holds it. *)
Record twins t (root : Z) (H : nat) (path : list Z) (id : Z) (p pm : bytes) (s1 : list sep) (k : bytes)
    (s2 : list sep) (right : Z) (lo hi : option bytes) (L R : list leaf) (F : gset Z) (la lb : leaf)
    (pa pb : bytes) : Prop := {
  tw_pair : pair K (view t) root H path 0 id p s1 k (lf_id la) s2 right lo hi L R F;
  tw_right : head_child s2 right = lf_id lb;
  tw_parent : node_at pm id (s1 ++ (k, lf_id la) :: s2) right;
  tw_page_a : view t !! lf_id la = Some pa;
  tw_leaf_a : leaf_at pa la;
  tw_number_a : page_number (lf_id la);
  tw_page_b : view t !! lf_id lb = Some pb;
  tw_leaf_b : leaf_at pb lb;
  tw_number_b : page_number (lf_id lb);
  tw_out_a : lf_id la ∉ F;
  tw_out_b : lf_id lb ∉ F;
  tw_ne : lf_id la <> lf_id lb;
  tw_sorted : StronglySorted blt (lf_entries la ++ lf_entries lb).*1;
  tw_range : Forall (fun e => above lo e.1 /\ below e.1 hi /\ entry_fits K e) (lf_entries la ++ lf_entries lb);
  tw_linked : linked 0 (L ++ la :: lb :: R) 0;
  tw_root : root_page_id t = root;
}.

Context (Hu : shortest K = longest K) (HK : longest K <= 353).

Section twins.
Context (t : BTree S) (root : Z) (H : nat) (path : list Z) (id : Z) (p pm : bytes).
Context (s1 : list sep) (k : bytes) (s2 : list sep) (right : Z) (lo hi : option bytes).
Context (L R : list leaf) (F : gset Z) (la lb : leaf) (pa pb : bytes).
Context (Htw : twins t root H path id p pm s1 k s2 right lo hi L R F la lb pa pb).

Ltac open_twins :=
  pose proof Htw as [Hpair Hb Hpm Hpa Hla Hna Hpb Hlb Hnb Ha Hbo Hab Hs Hf Hli Hroot].

(** The two leaves and their parent are written with the entries divided otherwise. *)
Lemma shared m' qa qb q es1 e2 es2 :
  es1 ++ e2 :: es2 = lf_entries la ++ lf_entries lb -> es1 <> [] ->
  (forall x, x ∈ F -> x <> id -> m' !! x = view t !! x) -> m' !! id = Some q ->
  node_at q id (s1 ++ (e2.1, lf_id la) :: s2) right ->
  m' !! lf_id la = Some qa -> leaf_at qa (with_entries la es1) ->
  m' !! lf_id lb = Some qb -> leaf_at qb (with_entries lb (e2 :: es2)) ->
  tree K m' H None None root (L ++ with_entries la es1 :: with_entries lb (e2 :: es2) :: R)
    (F ∪ {[lf_id la]} ∪ {[lf_id lb]}).
Proof.
  open_twins.
  intros Ees Hne Hfr Hq Hnq Hqa Hla' Hqb Hlb'. rewrite <-Ees in Hs, Hf.
  destruct (halves_in_range K lo hi es1 e2 es2 Hs Hf) as ([S1 F1] & S2 & F2).
  assert (Hk : sep_fits K (e2.1, lf_id la)).
  { apply Forall_cons in F2 as [(_ & _ & He & Hk & _) _]. split; [apply He|apply Hk]. }
  pose proof (pair_rewritten _ _ _ _ _ _ _ _ _ _ _ _ _ _ _ _ _ _ Hpair m' q e2.1 Hfr Hq Hnq Hk) as Hpair'.
  change (L ++ with_entries la es1 :: with_entries lb (e2 :: es2) :: R)
    with (L ++ [with_entries la es1] ++ [with_entries lb (e2 :: es2)] ++ R).
  eapply pair_plug; [exact Hpair'| | |disj..].
  - by eapply leaf_tree.
  - rewrite Hb. by eapply leaf_tree.
Qed.

Let U : gset Z := F ∪ {[lf_id la]} ∪ {[lf_id lb]}.
Let keys : list bytes := (s1 ++ (k, lf_id la) :: s2).*1.
Let children : list Z := (s1 ++ (k, lf_id la) :: s2).*2 ++ [right].

Lemma twins_children :
  children = s1.*2 ++ lf_id la :: lf_id lb :: tail_children s2 right /\ keys = s1.*1 ++ k :: s2.*1.
Proof.
  open_twins.
  unfold children, keys. rewrite !fmap_app. cbn [fmap list_fmap fst snd]. split; [|done].
  rewrite <-app_assoc. cbn [app]. change (list_fmap _ _ ?f ?l) with (f <$> l). by rewrite children_head, Hb.
Qed.

Lemma twins_entry_ok es : es ⊆ lf_entries la ++ lf_entries lb -> Forall entry_ok es.
Proof. open_twins. intros Hsub. apply Forall_forall. intros e He. rewrite Forall_forall in Hf. by apply Hf, Hsub. Qed.

Lemma twins_entry_size es :
  es ⊆ lf_entries la ++ lf_entries lb -> Forall (fun e => leaf_entry_size e <= 4456) es.
Proof.
  open_twins.
  intros Hsub. apply Forall_forall. intros e He. rewrite Forall_forall in Hf.
  apply (leaf_entry_fits K); [by apply Hf, Hsub|done].
Qed.

(** The three pages of a new division, written in either order *)
Lemma share_ok t1 t2 t3 q1 q2 pq1 pq2 es1 e2 es2 :
  es1 ++ e2 :: es2 = lf_entries la ++ lf_entries lb -> es1 <> [] ->
  view t1 = view t -> settled t t3 U -> root_page_id t3 = root ->
  (written t1 t2 (lf_id la) pq1 q1 /\ written t2 t3 (lf_id lb) pq2 q2 \/
   written t1 t2 (lf_id lb) pq2 q2 /\ written t2 t3 (lf_id la) pq1 q1) ->
  leaf_at q1 (with_entries la es1) -> leaf_at q2 (with_entries lb (e2 :: es2)) ->
  exists t4 r, rewrite_interior crc32 id pm (s1.*1 ++ e2.1 :: s2.*1) children t3 = (t4, Ok r) /\
    balanced t t4 H U (L ++ la :: lb :: R).
Proof.
  open_twins.
  intros Ees Hne V1 St R3 HW H1 H2.
  destruct (pair_page _ _ _ _ _ _ _ _ _ _ _ _ _ _ _ _ _ _ Hpair) as (Hp & Hid & Hn & Hsf & HidF).
  assert (V3 : forall x, x <> lf_id la -> x <> lf_id lb -> view t3 !! x = view t !! x).
  { intros x Xa Xb. destruct HW as [[W1 W2]|[W1 W2]];
      rewrite (written_pages _ _ _ _ _ W2), (written_pages _ _ _ _ _ W1), V1, !lookup_insert_ne; done. }
  assert (V3ab : view t3 !! lf_id la = Some q1 /\ view t3 !! lf_id lb = Some q2).
  { destruct HW as [[W1 W2]|[W1 W2]]; rewrite (written_pages _ _ _ _ _ W2), (written_pages _ _ _ _ _ W1);
      split; rewrite ?lookup_insert_ne, lookup_insert, decide_True by congruence; done. }
  assert (Hida : id <> lf_id la) by (intros ->; done). assert (Hidb : id <> lf_id lb) by (intros ->; done).
  assert (Hk : key_fits K k /\ sep_fits K (e2.1, lf_id la)).
  { split; [apply Forall_app in Hsf as [_ [[_ ?] _]%Forall_cons]; done|].
    rewrite <-Ees in Hf. apply Forall_app in Hf as [_ [(_ & _ & He & Hk & _) _]%Forall_cons]. by split; [apply He|]. }
  destruct Hk as [Hk Hk2].
  destruct (rewrite_interior_ok t3 pm id _ _ (s1 ++ (e2.1, lf_id la) :: s2) right Hpm) as (t4 & p4 & q & r & E & W & N & _).
  - apply (node_at_numbers _ _ _ _ Hpm).
  - pose proof (seps_writable _ _ _ _ Hpm Hsf) as Hw. apply Forall_app in Hw as [Hw1 [[_ Hw2] Hw3]%Forall_cons].
    apply Forall_app. split; [done|]. constructor; [split; [apply Hk2|done]|done].
  - eapply (separator_fits s1 k); [exact Hu|exact Hpm|exact Hk|exact (proj2 Hk2)].
  - rewrite V3, Hp by done. by eexists.
  - unfold children. exists t4, r.
    assert (Ek : (s1 ++ (e2.1, lf_id la) :: s2).*1 = s1.*1 ++ e2.1 :: s2.*1) by (by rewrite fmap_app).
    assert (Ec : (s1 ++ (e2.1, lf_id la) :: s2).*2 = (s1 ++ (k, lf_id la) :: s2).*2) by (by rewrite !fmap_app).
    rewrite <-Ek, <-Ec. split; [exact E|].
    assert (St4 : settled t t4 U). { eapply settled_trans; [exact St|]. eapply settled_written; [exact W|]. unfold U. sets. }
    split; [exact St4|]. split; [by rewrite (written_root _ _ _ _ _ W), R3|].
    exists (L ++ with_entries la es1 :: with_entries lb (e2 :: es2) :: R), U. split.
    + rewrite (written_root _ _ _ _ _ W), R3. destruct V3ab as [Va Vb].
      apply (shared (view t4) q1 q2 q es1 e2 es2); try done.
      * intros x Hx Xid. rewrite (written_pages _ _ _ _ _ W), lookup_insert_ne by done. apply V3; intros ->; done.
      * by rewrite (written_pages _ _ _ _ _ W), lookup_insert, decide_True.
      * by rewrite (written_pages _ _ _ _ _ W), lookup_insert_ne.
      * by rewrite (written_pages _ _ _ _ _ W), lookup_insert_ne.
    + split; [done|]. split; [|by apply linked_entries]. rewrite !contents_two. cbn [with_entries lf_entries].
      by rewrite Ees.
Qed.

Lemma lend_left_ok :
  leaf_entries_size (lf_entries lb) < leaf_min_bytes -> lf_entries la <> [] ->
  exists t' r,
    lend_left crc32 (lf_id lb) pb (lf_entries lb) id pm keys children (Datatypes.S (length s1)) t = (t', Ok r) /\
    if (r : bool) then balanced t t' H U (L ++ la :: lb :: R)
    else unchanged t t' /\ leaf_entries_size (lf_entries la) < leaf_min_bytes + 4456.
Proof.
  open_twins.
  intros Hsmall Hne. destruct twins_children as [Ec Ek]. unfold lend_left.
  assert (Eg : vec_get (length s1) children = Ok (lf_id la) :> BTreeResult Z).
  { rewrite Ec, <-(length_fmap snd s1). apply vec_get_middle. }
  rewrite (eff_bind_lift _ _ _ _ Eg).
  destruct (bt_read_ok t _ _ Hpa) as (t1 & E1 & U1). rewrite (eff_bind_ok _ _ _ _ _ E1).
  rewrite (eff_bind_lift _ _ _ _ (read_leaf_entries_rep _ _ (proj2 (proj2 (proj2 (proj2 Hla)))))).
  destruct (borrow_left_spec leaf_min_bytes 4456 (rev (lf_entries la)) (lf_entries lb) false)
    as (rest & moved & Eb & Er & Hm & Hn).
  { apply twins_entry_size. intros e He. apply elem_of_app. left. by apply elem_of_rev. }
  rewrite Eb. cbn [orb]. apply (f_equal (@rev entry)) in Er. rewrite rev_involutive, rev_app_distr, rev_involutive in Er.
  destruct moved as [|e2 moved].
  { exists t1, false. split; [done|]. split; [done|]. destruct (Hn eq_refl Hsmall) as [E0|E0].
    { exfalso. apply Hne. by rewrite <-(rev_involutive (lf_entries la)), E0. }
    rewrite <-leaf_entries_size_rev. destruct (rev (lf_entries la)) as [|e es] eqn:Ea; [done|].
    rewrite leaf_entries_size_cons. cbn [tail] in E0. assert (leaf_entry_size e <= 4456); [|lia].
    assert (He : e ∈ lf_entries la) by (apply elem_of_rev; rewrite Ea; by left).
    pose proof (twins_entry_size [e]) as Hz. apply Forall_singleton in Hz; [done|].
    intros x ->%list_elem_of_singleton. apply elem_of_app. by left. }
  rewrite bool_decide_false by done. cbn [negb]. destruct (Hm ltac:(done)) as [Hm1 Hm2]. clear Hm Hn Eb.
  pose proof (leaf_rep_size _ _ (proj2 (proj2 (proj2 (proj2 Hla))))) as Hsz. change (PAGE_SIZE - LEAF_SLOT_ARRAY_OFFSET) with 16344 in Hsz.
  rewrite Er, leaf_entries_size_app in Hsz. pose proof (leaf_entries_size_nonneg (e2 :: moved)).
  change leaf_min_bytes with 4086 in *.
  destruct (rewrite_leaf_ok t1 pa _ _ _ (rev rest) (leaf_at_head _ _ Hla)) as (t2 & p2 & q2 & r2 & E2 & W2 & H2);
    [|lia|rewrite (same_pages _ _ U1), Hpa; by eexists|].
  { apply twins_entry_ok. rewrite Er. intros e He. apply elem_of_app. left. apply elem_of_app. by left. }
  rewrite (eff_bind_ok _ _ _ _ _ E2). clear E2.
  destruct (rewrite_leaf_ok t2 pb _ _ _ ((e2 :: moved) ++ lf_entries lb) (leaf_at_head _ _ Hlb)) as (t3 & p3 & q3 & r3 & E3 & W3 & H3);
    [|lia|rewrite (written_pages _ _ _ _ _ W2), lookup_insert_ne, (same_pages _ _ U1), Hpb by congruence; by eexists|].
  { apply twins_entry_ok. rewrite Er, <-app_assoc. intros e He. apply elem_of_app. by right. }
  rewrite (eff_bind_ok _ _ _ _ _ E3). clear E3. cbn [app]. destruct e2 as [k2 v2].
  rewrite Ek, <-(length_fmap fst s1), (eff_bind_lift _ _ _ _ (vec_set_middle _ _ _ _)).
  destruct (share_ok t1 t2 t3 q2 q3 p2 p3 (rev rest) (k2, v2) (moved ++ lf_entries lb)) as (t4 & r4 & E4 & B4).
  - by rewrite Er, <-app_assoc.
  - intros E0. rewrite <-leaf_entries_size_rev, E0 in Hm1. cbn in Hm1. lia.
  - apply (same_pages _ _ U1).
  - eapply settled_trans; [by apply settled_unchanged|].
    eapply settled_trans; (eapply settled_written; [eassumption|unfold U; sets]).
  - by rewrite (written_root _ _ _ _ _ W3), (written_root _ _ _ _ _ W2), (same_root _ _ U1).
  - by left.
  - exact H2.
  - exact H3.
  - cbn [fst] in E4. rewrite (eff_bind_ok _ _ _ _ _ E4). exists t4, true. split; [done|exact B4].
Qed.

Lemma lend_right_ok :
  leaf_entries_size (lf_entries la) < leaf_min_bytes -> lf_entries lb <> [] ->
  exists t' r,
    lend_right crc32 (lf_id la) pa (lf_entries la) id pm keys children (length s1) t = (t', Ok r) /\
    if (r : bool) then balanced t t' H U (L ++ la :: lb :: R)
    else unchanged t t' /\ leaf_entries_size (lf_entries lb) < leaf_min_bytes + 4456.
Proof.
  open_twins.
  intros Hsmall Hne. destruct twins_children as [Ec Ek]. unfold lend_right.
  rewrite bool_decide_true by (rewrite Ec, length_app, length_fmap; cbn; lia).
  assert (Eg : vec_get (length s1 + 1) children = Ok (lf_id lb) :> BTreeResult Z).
  { rewrite Ec, cons_middle, app_assoc. replace (length s1 + 1)%nat with (length (s1.*2 ++ [lf_id la])); [apply vec_get_middle|].
    rewrite length_app, length_fmap. done. }
  rewrite (eff_bind_lift _ _ _ _ Eg).
  destruct (bt_read_ok t _ _ Hpb) as (t1 & E1 & U1). rewrite (eff_bind_ok _ _ _ _ _ E1).
  rewrite (eff_bind_lift _ _ _ _ (read_leaf_entries_rep _ _ (proj2 (proj2 (proj2 (proj2 Hlb)))))).
  destruct (borrow_right_spec leaf_min_bytes 4456 (lf_entries lb) (lf_entries la) false)
    as (rest & moved & Eb & Er & Hm & Hn).
  { apply twins_entry_size. intros e He. apply elem_of_app. by right. }
  rewrite Eb. cbn [orb]. destruct moved as [|e1 moved].
  { exists t1, false. split; [done|]. split; [done|]. destruct (Hn eq_refl Hsmall) as [E0|E0]; [done|].
    assert (Hz : Forall (fun e => leaf_entry_size e <= 4456) (lf_entries lb)).
    { apply twins_entry_size. intros e He. apply elem_of_app. by right. }
    clear -E0 Hz Hne. destruct (lf_entries lb) as [|e es]; [done|]. apply Forall_cons in Hz as [Hz _].
    rewrite leaf_entries_size_cons. cbn [tail] in E0. lia. }
  rewrite bool_decide_false by done. cbn [negb]. destruct (Hm ltac:(done)) as [Hm1 Hm2]. clear Hm Hn Eb.
  pose proof (leaf_rep_size _ _ (proj2 (proj2 (proj2 (proj2 Hlb))))) as Hsz. change (PAGE_SIZE - LEAF_SLOT_ARRAY_OFFSET) with 16344 in Hsz.
  rewrite Er, leaf_entries_size_app in Hsz. pose proof (leaf_entries_size_nonneg (e1 :: moved)).
  change leaf_min_bytes with 4086 in *.
  destruct (rewrite_leaf_ok t1 pb _ _ _ rest (leaf_at_head _ _ Hlb)) as (t2 & p2 & q2 & r2 & E2 & W2 & H2);
    [|lia|rewrite (same_pages _ _ U1), Hpb; by eexists|].
  { apply twins_entry_ok. rewrite Er. intros e He. apply elem_of_app. right. apply elem_of_app. by right. }
  rewrite (eff_bind_ok _ _ _ _ _ E2). clear E2.
  destruct (rewrite_leaf_ok t2 pa _ _ _ (lf_entries la ++ e1 :: moved) (leaf_at_head _ _ Hla)) as (t3 & p3 & q3 & r3 & E3 & W3 & H3);
    [|lia|rewrite (written_pages _ _ _ _ _ W2), lookup_insert_ne, (same_pages _ _ U1), Hpa by congruence; by eexists|].
  { apply twins_entry_ok. rewrite Er, app_assoc. intros e He. apply elem_of_app. by left. }
  rewrite (eff_bind_ok _ _ _ _ _ E3). clear E3.
  destruct rest as [|[k2 v2] rest]; [cbn in Hm1; lia|].
  rewrite Ek, <-(length_fmap fst s1), (eff_bind_lift _ _ _ _ (vec_set_middle _ _ _ _)).
  destruct (share_ok t1 t2 t3 q3 q2 p3 p2 (lf_entries la ++ e1 :: moved) (k2, v2) rest) as (t4 & r4 & E4 & B4).
  - by rewrite Er, <-app_assoc.
  - by destruct (lf_entries la).
  - apply (same_pages _ _ U1).
  - eapply settled_trans; [by apply settled_unchanged|].
    eapply settled_trans; (eapply settled_written; [eassumption|unfold U; sets]).
  - by rewrite (written_root _ _ _ _ _ W3), (written_root _ _ _ _ _ W2), (same_root _ _ U1).
  - by right.
  - exact H3.
  - exact H2.
  - cbn [fst] in E4. rewrite (eff_bind_ok _ _ _ _ _ E4). exists t4, true. split; [done|exact B4].
Qed.

Lemma twins_next :
  lf_next lb = first_id R 0 /\ u32_ok (lf_next lb) /\
  (lf_next lb = 0 \/ lf_next lb ∈ F /\ exists p l, view t !! lf_next lb = Some p /\ leaf_at p l /\ lf_id l = lf_next lb).
Proof.
  open_twins.
  apply linked_app in Hli as [_ (_ & _ & _ & Hnx & _)].
  destruct (pair_leaves_in _ _ _ _ _ _ _ _ _ _ _ _ _ _ _ _ _ _ Hpair) as [Hok Hin _].
  split; [done|]. rewrite Hnx. destruct R as [|l3 R']; [split; [done|by left]|]. cbn [first_id].
  apply Forall_app in Hok as [_ [((p3 & Hp3 & Hl3) & [_ Hu3] & _) _]%Forall_cons].
  apply Forall_app in Hin as [_ [Hin _]%Forall_cons]. split; [done|]. right. split; [done|]. by exists p3, l3.
Qed.

Lemma merge_leaves_ok :
  lf_entries la ++ lf_entries lb <> [] -> leaf_entries_size (lf_entries la ++ lf_entries lb) <= 16344 ->
  exists t',
    merge_leaves crc32 (lf_id la) pa (lf_entries la) (lf_id lb) pb (lf_entries lb) id pm keys children
      (length s1) t = (t', Ok tt) /\
    merged t t' H path 0 id U (L ++ la :: lb :: R).
Proof.
  open_twins.
  intros Hne Hsz. destruct twins_children as [Ec Ek]. destruct twins_next as (Hnx & Hnu & Hnext).
  destruct (pair_page _ _ _ _ _ _ _ _ _ _ _ _ _ _ _ _ _ _ Hpair) as (Hp & Hid & _ & Hsf & HidF).
  assert (Hida : id <> lf_id la) by (intros ->; done). assert (Hidb : id <> lf_id lb) by (intros ->; done).
  unfold merge_leaves.
  destruct (write_leaf_node t pa _ _ _ _ (leaf_at_head _ _ Hla) (twins_entry_ok _ (fun _ x => x)) Hsz) as (q0 & E0 & H0).
  rewrite (eff_bind_ok _ _ _ _ _ E0). clear E0. cbv zeta.
  rewrite (proj1 (proj2 (proj2 (proj2 Hlb)))).
  destruct (relink_next_ok t (lf_next lb) (lf_id la)) as (t1 & E1 & Hrel & R1 & C1 & M1);
    [destruct Hnext as [?|[_ ?]]; auto|apply Hna|].
  rewrite (eff_bind_ok _ _ _ _ _ E1). clear E1.
  assert (V1 : forall x, x ∉ F -> view t1 !! x = view t !! x).
  { intros x Hx. apply (relinked_lookup _ _ _ _ _ Hrel). intros Hn0 <-. by destruct Hnext as [?|[? _]]. }
  assert (V1id : view t1 !! id = Some p).
  { rewrite (relinked_lookup _ _ _ _ _ Hrel); [done|]. intros Hn0 Hni. destruct Hnext as [?|[_ (p3 & l3 & H3 & Hl3 & _)]]; [done|].
    rewrite Hni, Hp in H3. injection H3 as <-. pose proof (proj1 Hl3).
    destruct (pair_page _ _ _ _ _ _ _ _ _ _ _ _ _ _ _ _ _ _ Hpair) as (_ & _ & (Hty & _) & _). congruence. }
  set (l0 := {| lf_id := lf_id la; lf_prev := lf_prev la; lf_next := lf_next lb;
    lf_entries := lf_entries la ++ lf_entries lb |}).
  assert (Hl0 : leaf_at (update_checksum crc32 (set_next_leaf q0 (lf_next lb))) l0).
  { eapply leaf_at_resealed; [apply resealed_update_checksum|].
    exact (leaf_next_at _ _ _ H0 Hnu). }
  destruct (bt_write_ok t1 (lf_id la) (update_checksum crc32 (set_next_leaf q0 (lf_next lb)))) as (t2 & q2 & E2 & W2);
    [rewrite V1, Hpa by done; by eexists|exact (leaf_at_len _ _ Hl0)|exact (proj1 (proj2 Hl0))|].
  rewrite (eff_bind_ok _ _ _ _ _ E2). clear E2.
  destruct (bt_free_ok t2 (lf_id lb)) as (t3 & E3 & W3);
    [rewrite (written_pages _ _ _ _ _ W2), lookup_insert_ne, V1, Hpb by done; by eexists|].
  rewrite (eff_bind_ok _ _ _ _ _ E3). clear E3.
  assert (V3 : forall x, x <> lf_id la -> x <> lf_id lb -> view t3 !! x = view t1 !! x).
  { intros x Xa Xb. by rewrite (freed_pages _ _ _ W3), lookup_delete_ne, (written_pages _ _ _ _ _ W2), lookup_insert_ne. }
  rewrite Ek, <-(length_fmap fst s1), (eff_bind_lift _ _ _ _ (vec_remove_middle _ _ _)).
  assert (Er : vec_remove (length s1.*1 + 1) children = Ok (s1.*2 ++ lf_id la :: tail_children s2 right) :> BTreeResult (list Z)).
  { rewrite Ec, cons_middle, app_assoc. replace (length s1.*1 + 1)%nat with (length (s1.*2 ++ [lf_id la])).
    - rewrite vec_remove_middle, <-app_assoc. done.
    - rewrite length_app, !length_fmap. done. }
  rewrite (eff_bind_lift _ _ _ _ Er).
  destruct (rewrite_merged t3 pm id s1 k (lf_id la) s2 right Hpm Hsf) as (t4 & p4 & q & r & E4 & W4 & N4);
    [apply Hna|rewrite V3, V1id by done; by eexists|].
  rewrite (eff_bind_ok _ _ _ _ _ E4). clear E4. exists t4. split; [done|].
  assert (St : settled t t4 U).
  { assert (settled t t1 U).
    { split; [|done|done]. intros x Hx. apply V1. intros HF. apply Hx. unfold U. sets. }
    eapply settled_trans; [eassumption|]. eapply settled_trans; [eapply settled_written; [exact W2|unfold U; sets]|].
    eapply settled_trans; [eapply settled_freed; [exact W3|unfold U; sets]|].
    eapply settled_written; [exact W4|unfold U; sets]. }
  assert (Er4 : root_page_id t4 = root_page_id t).
  { by rewrite (written_root _ _ _ _ _ W4), (freed_root _ _ _ W3), (written_root _ _ _ _ _ W2). }
  split; [exact St|]. split; [exact Er4|].
  exists (L ++ [l0] ++ relink_first (lf_id la) R), (F ∪ {[lf_id la]}). rewrite Er4, Hroot. split_and!.
  - rewrite Hnx in Hrel. pose proof (pair_relinked _ _ _ _ _ _ _ _ _ _ _ _ _ _ _ _ _ _ _ Hpair Hrel (proj2 Hna)) as Hpr.
    eapply pair_merged; [exact Hpr| | |exact N4| |disj].
    + intros x Hx Xid. rewrite (written_pages _ _ _ _ _ W4), lookup_insert_ne by done. apply V3; intros ->; done.
    + by rewrite (written_pages _ _ _ _ _ W4), lookup_insert, decide_True.
    + apply (leaf_tree K _ _ _ _ _ _ _ q2); [|done| |done|done|done].
      * rewrite (written_pages _ _ _ _ _ W4), lookup_insert_ne by done. rewrite (freed_pages _ _ _ W3), lookup_delete_ne by done.
        by rewrite (written_pages _ _ _ _ _ W2), lookup_insert, decide_True.
      * exact (leaf_at_resealed _ _ _ (written_seal _ _ _ _ _ W2) Hl0).
  - unfold U. clear; set_solver.
  - rewrite contents_two, !contents_app, contents_relink_first. unfold contents at 2. cbn [map concat].
    by rewrite app_nil_r.
  - by apply linked_merged.
Qed.

End twins.

Lemma twins_unchanged t t' root H path id p pm s1 k s2 right lo hi L R F la lb pa pb :
  unchanged t t' -> twins t root H path id p pm s1 k s2 right lo hi L R F la lb pa pb ->
  twins t' root H path id p pm s1 k s2 right lo hi L R F la lb pa pb.
Proof. intros [A1 A2 _ _] []. split; rewrite ?A1, ?A2; done. Qed.

(** ** A leaf that has shrunk *)

(** The leaf [l] in its place, possibly empty; some key lies between its bounds. *)
Record shrunk t (root : Z) (H : nat) (path : list Z) (id : Z) (p : bytes) (s1 s2 : list sep) (right : Z)
    (lo hi : option bytes) (L R : list leaf) (F : gset Z) (l : leaf) (pl : bytes) : Prop := {
  sh_slot : slot K (view t) root H path 0 id p s1 s2 right lo hi L R F;
  sh_child : head_child s2 right = lf_id l;
  sh_page : view t !! lf_id l = Some pl;
  sh_leaf : leaf_at pl l;
  sh_number : page_number (lf_id l);
  sh_out : lf_id l ∉ F;
  sh_sorted : StronglySorted blt (lf_entries l).*1;
  sh_range : Forall (fun e => above lo e.1 /\ below e.1 hi /\ entry_fits K e) (lf_entries l);
  sh_bounds : exists y, above lo y /\ below y hi;
  sh_linked : linked 0 (L ++ l :: R) 0;
  sh_root : root_page_id t = root;
}.

Lemma shrunk_unchanged t t' root H path id p s1 s2 right lo hi L R F l pl :
  unchanged t t' -> shrunk t root H path id p s1 s2 right lo hi L R F l pl ->
  shrunk t' root H path id p s1 s2 right lo hi L R F l pl.
Proof. intros [A1 A2 _ _] [B1 B2 B3 B4 B5 B6 B7 B8 B9 B10 B11]. split; rewrite ?A1, ?A2; done. Qed.

(** The entries of two neighbours together *)
Lemma joined lo k hi ea eb :
  StronglySorted blt ea.*1 -> StronglySorted blt eb.*1 ->
  Forall (fun e => above lo e.1 /\ below e.1 (Some k) /\ entry_fits K e) ea ->
  Forall (fun e => above (Some k) e.1 /\ below e.1 hi /\ entry_fits K e) eb ->
  (exists y, above lo y /\ below y (Some k)) -> (exists y, above (Some k) y /\ below y hi) ->
  StronglySorted blt (ea ++ eb).*1 /\
  Forall (fun e => above lo e.1 /\ below e.1 hi /\ entry_fits K e) (ea ++ eb).
Proof.
  intros Sa Sb Fa Fb (y & Ya & Yb) (z & Za & Zb). split.
  - rewrite fmap_app. apply sorted_app. split_and!; [done|done|]. rewrite Forall_fmap.
    eapply Forall_impl; [exact Fa|]. intros x (_ & Hx & _). cbn in *. rewrite Forall_fmap.
    eapply Forall_impl; [exact Fb|]. intros w (Hw & _). cbn in *.
    apply not_blt_cases in Hw as [->|Hw]; [done|]. by apply (blt_trans _ k).
  - apply Forall_app. split; [eapply Forall_impl; [exact Fa|]|eapply Forall_impl; [exact Fb|]]; intros x (A & B & C).
    + split_and!; [done|by apply (range_hi k z)|done].
    + split_and!; [by apply (range_lo lo y k)|done|done].
Qed.

(** The separator left of the leaf becomes its first key. *)
Lemma refresh_separator_ok t root H path id p s1 s2 right lo hi L R F l pl :
  shrunk t root H path id p s1 s2 right lo hi L R F l pl ->
  exists t' p' pm s1' lo',
    refresh_separator crc32 id p (s1 ++ s2).*1 ((s1 ++ s2).*2 ++ [right]) (length s1) (lf_entries l) t
      = (t', Ok (pm, (s1' ++ s2).*1)) /\
    settled t t' F /\ shrunk t' root H path id p' s1' s2 right lo' hi L R F l pl /\
    length s1' = length s1 /\ s1'.*2 = s1.*2 /\ node_at pm id (s1' ++ s2) right.
Proof.
  intros Hsh. pose proof Hsh as [Hslot Hch Hpl Hl Hnum Hout Hs Hf Hbd Hli Hroot].
  destruct (slot_page _ _ _ _ _ _ _ _ _ _ _ _ _ _ _ _ Hslot) as (Hp & Hid & Hn & Hsf & HidF).
  assert (Hsame : exists t' p' pm s1' lo', (t, Ok (p, (s1 ++ s2).*1)) = (t', Ok (pm, (s1' ++ s2).*1) : BTreeResult _) /\
    settled t t' F /\ shrunk t' root H path id p' s1' s2 right lo' hi L R F l pl /\
    length s1' = length s1 /\ s1'.*2 = s1.*2 /\ node_at pm id (s1' ++ s2) right).
  { exists t, p, p, s1, lo. split; [done|]. split; [by apply settled_unchanged|by split_and!]. }
  unfold refresh_separator. destruct s1 as [|[k a] s1 _] using rev_ind; [exact Hsame|].
  assert (El : length (s1 ++ [(k, a)]) = Datatypes.S (length s1)) by (rewrite length_app; cbn; lia).
  rewrite El in *. destruct (lf_entries l) as [|[k' v'] es] eqn:Ees; [exact Hsame|].
  case_bool_decide as Ek; [exact Hsame|]. clear Hsame.
  rewrite <-app_assoc in Hn, Hsf |- *. cbn [app] in Hn, Hsf |- *.
  assert (Hk' : sep_fits K (k', a)).
  { apply Forall_cons in Hf as [(_ & _ & He & Hk & _) _]. by split; [apply He|]. }
  assert (Hk : key_fits K k) by (by apply Forall_app in Hsf as [_ [[_ ?] _]%Forall_cons]).
  assert (E0 : (s1 ++ (k, a) :: s2).*1 = s1.*1 ++ k :: s2.*1) by (by rewrite fmap_app). rewrite E0.
  rewrite <-(length_fmap fst s1), (eff_bind_lift _ _ _ _ (vec_set_middle _ _ _ _)).
  destruct (rewrite_interior_ok t p id _ _ (s1 ++ (k', a) :: s2) right Hn) as (t1 & p1 & q & r & E & W & Nq & Nr).
  - apply (node_at_numbers _ _ _ _ Hn).
  - pose proof (seps_writable _ _ _ _ Hn Hsf) as Hw. apply Forall_app in Hw as [Hw1 [[_ Hw2] Hw3]%Forall_cons].
    apply Forall_app. split; [done|]. constructor; [split; [apply Hk'|done]|done].
  - eapply (separator_fits s1 k); [exact Hu|exact Hn|exact Hk|exact (proj2 Hk')].
  - rewrite Hp. by eexists.
  - assert (E1 : (s1 ++ (k', a) :: s2).*1 = s1.*1 ++ k' :: s2.*1) by (by rewrite fmap_app).
    assert (E2 : (s1 ++ (k', a) :: s2).*2 = (s1 ++ (k, a) :: s2).*2) by (by rewrite !fmap_app).
    rewrite E1, E2 in E. rewrite (eff_bind_ok _ _ _ _ _ E). clear E.
    destruct (slot_left _ _ _ _ _ _ _ _ _ _ _ _ _ _ _ _ _ _ Hslot)
      as (lo' & L' & lsa & Fa & F' & Hpair & Ta & -> & -> & -> & D).
    exists t1, q, r, (s1 ++ [(k', a)]), (Some k'). rewrite <-app_assoc. cbn [app]. rewrite E1.
    assert (St : settled t t1 (F' ∪ Fa)) by (eapply settled_written; [exact W|done]).
    split; [done|]. split; [exact St|].
    assert (Vl : forall x, x <> id -> view t1 !! x = view t !! x).
    { intros x Hx. by rewrite (written_pages _ _ _ _ _ W), lookup_insert_ne. }
    assert (Hidl : id <> lf_id l) by (intros ->; done).
    apply Forall_cons in Hf as [(Hab & Hbe & Hfit) Hf]. cbn [fst] in *. inversion Hs as [|? ? Hs' Hlt]; subst.
    split; [|split_and!; [by rewrite length_app, length_fmap, Nat.add_comm|by rewrite !fmap_app|done]]. split; try done.
    + eapply pair_slot_left.
      * eapply pair_rewritten; [exact Hpair| | |exact Nq|exact Hk'].
        -- intros x _ Hx. by apply Vl.
        -- by rewrite (written_pages _ _ _ _ _ W), lookup_insert, decide_True.
      * apply (tree_wider K _ _ _ (Some k)).
        -- eapply tree_frame; [exact Ta|]. intros x Hx. apply Vl. intros ->.
           destruct (pair_page _ _ _ _ _ _ _ _ _ _ _ _ _ _ _ _ _ _ Hpair) as (_ & _ & _ & _ & Hi). by apply (D id).
        -- cbn. intros x Hx. apply not_blt_cases in Hab as [->|?]; [done|]. by apply (blt_trans _ k).
      * done.
    + by rewrite Vl.
    + by rewrite Ees.
    + rewrite Ees. constructor; [split_and!; [apply blt_irrefl|done|done]|].
      rewrite Forall_fmap in Hlt. rewrite Forall_forall in Hf, Hlt |- *. intros e He. destruct (Hf e He) as (_ & ? & ?).
      split_and!; [|done|done]. cbn. intros Hb. apply (blt_irrefl k'). eapply blt_trans; [by apply (Hlt e He)|done].
    + exists k'. split; [apply blt_irrefl|done].
    + by rewrite (written_root _ _ _ _ _ W).
Qed.

(** The leaf and its left neighbour *)
Lemma shrunk_left t root H path id p pm s1 k a s2 right lo hi L R F l pl :
  shrunk t root H path id p (s1 ++ [(k, a)]) s2 right lo hi L R F l pl ->
  node_at pm id ((s1 ++ [(k, a)]) ++ s2) right ->
  exists lo' L' F' la pa, twins t root H path id p pm s1 k s2 right lo' hi L' R F' la l pa pl /\
    lf_id la = a /\ L = L' ++ [la] /\ F = F' ∪ {[lf_id la]} /\ lf_entries la <> [].
Proof.
  intros [Hslot Hch Hpl Hl Hnum Hout Hs Hf Hbd Hli Hroot] Hpm.
  destruct (slot_left _ _ _ _ _ _ _ _ _ _ _ _ _ _ _ _ _ _ Hslot)
    as (lo' & L' & lsa & Fa & F' & Hpair & Ta & -> & -> & -> & D).
  pose proof (tree_inhabited _ _ _ _ _ _ _ _ Ta) as Hin.
  inversion Ta as [lo0 hi0 pa la Hpa Hna Hla Hne Hsa Hfa|]; subst.
  destruct (joined lo' k hi (lf_entries la) (lf_entries l) Hsa Hs Hfa Hf Hin Hbd) as [Hs2 Hf2].
  rewrite <-!app_assoc in Hpm, Hli. cbn [app] in Hpm, Hli.
  exists lo', L', F', la, pa. split_and!; try done. split; try done; clear -D Hout; sets.
Qed.

(** The leaf and its right neighbour *)
Lemma shrunk_right t root H path id p pm s1 k c s2 right lo hi L R F l pl :
  shrunk t root H path id p s1 ((k, c) :: s2) right lo hi L R F l pl ->
  node_at pm id (s1 ++ (k, c) :: s2) right ->
  exists hi' R' F' lb pb, twins t root H path id p pm s1 k s2 right lo hi' L R' F' l lb pl pb /\
    c = lf_id l /\ R = lb :: R' /\ F = F' ∪ {[lf_id lb]} /\ lf_entries lb <> [].
Proof.
  intros [Hslot Hch Hpl Hl Hnum Hout Hs Hf Hbd Hli Hroot] Hpm. cbn [head_child] in Hch. subst c.
  destruct (slot_right _ _ _ _ _ _ _ _ _ _ _ _ _ _ _ _ _ _ Hslot)
    as (hi' & R' & lsb & Fb & F' & Hpair & Tb & -> & -> & -> & D).
  pose proof (tree_inhabited _ _ _ _ _ _ _ _ Tb) as Hin.
  remember (head_child s2 right) as b eqn:Eb.
  inversion Tb as [lo0 hi0 pb lb Hpb Hnb Hlb Hne Hsb Hfb|]; subst lo0 hi0.
  destruct (joined lo k hi' (lf_entries l) (lf_entries lb) Hs Hsb Hf Hfb Hbd Hin) as [Hs2 Hf2].
  subst. exists hi', R', F', lb, pb. split_and!; try done. split; try done; clear -D Hout; sets.
Qed.

Lemma lend_left_any t root H path id p pm s1 s2 right lo hi L R F l pl :
  shrunk t root H path id p s1 s2 right lo hi L R F l pl -> node_at pm id (s1 ++ s2) right ->
  leaf_entries_size (lf_entries l) < leaf_min_bytes ->
  exists t' r, lend_left crc32 (lf_id l) pl (lf_entries l) id pm (s1 ++ s2).*1 ((s1 ++ s2).*2 ++ [right])
      (length s1) t = (t', Ok r) /\
    if (r : bool) then balanced t t' H (F ∪ {[lf_id l]}) (L ++ l :: R)
    else unchanged t t' /\ forall s1' k a, s1 = s1' ++ [(k, a)] ->
      exists lo' L' F' la pa, twins t' root H path id p pm s1' k s2 right lo' hi L' R F' la l pa pl /\
        lf_id la = a /\ L = L' ++ [la] /\ F = F' ∪ {[lf_id la]} /\ lf_entries la <> [] /\
        leaf_entries_size (lf_entries la) < leaf_min_bytes + 4456.
Proof.
  intros Hsh Hpm Hsm. destruct s1 as [|[k a] s1 _] using rev_ind.
  { exists t, false. split; [done|]. split; [done|]. intros s1' k a E. by destruct s1'. }
  destruct (shrunk_left _ _ _ _ _ _ pm _ _ _ _ _ _ _ _ _ _ _ _ Hsh Hpm)
    as (lo' & L' & F' & la & pa & Htw & <- & -> & -> & Hne).
  assert (El : length (s1 ++ [(k, lf_id la)]) = Datatypes.S (length s1)) by (rewrite length_app; cbn; lia).
  rewrite El, <-!app_assoc. cbn [app].
  destruct (lend_left_ok _ _ _ _ _ _ _ _ _ _ _ _ _ _ _ _ _ _ _ _ Htw Hsm Hne) as (t' & r & E & Hr).
  exists t', r. split; [exact E|]. destruct r.
  - exact Hr.
  - destruct Hr as [Un Hz]. split; [done|]. intros s1' k' a' [-> [= -> <-]]%app_inj_tail.
    pose proof (shrunk_unchanged _ _ _ _ _ _ _ _ _ _ _ _ _ _ _ _ _ Un Hsh) as Hsh'.
    destruct (shrunk_left _ _ _ _ _ _ pm _ _ _ _ _ _ _ _ _ _ _ _ Hsh' Hpm)
      as (lo2 & L2 & F2 & la2 & pa2 & Htw2 & E1 & [-> [= ->]]%app_inj_tail & EF & Hne2).
    by exists lo2, L2, F2, la2, pa2.
Qed.

Lemma lend_right_any t root H path id p pm s1 s2 right lo hi L R F l pl :
  shrunk t root H path id p s1 s2 right lo hi L R F l pl -> node_at pm id (s1 ++ s2) right ->
  leaf_entries_size (lf_entries l) < leaf_min_bytes ->
  exists t' r, lend_right crc32 (lf_id l) pl (lf_entries l) id pm (s1 ++ s2).*1 ((s1 ++ s2).*2 ++ [right])
      (length s1) t = (t', Ok r) /\
    if (r : bool) then balanced t t' H (F ∪ {[lf_id l]}) (L ++ l :: R)
    else unchanged t t' /\ forall k a s2', s2 = (k, a) :: s2' ->
      exists hi' R' F' lb pb, twins t' root H path id p pm s1 k s2' right lo hi' L R' F' l lb pl pb /\
        a = lf_id l /\ R = lb :: R' /\ F = F' ∪ {[lf_id lb]} /\ lf_entries lb <> [] /\
        leaf_entries_size (lf_entries lb) < leaf_min_bytes + 4456.
Proof.
  intros Hsh Hpm Hsm. destruct s2 as [|[k a] s2].
  { exists t, false. split; [|done]. unfold lend_right. rewrite bool_decide_false; [done|].
    rewrite length_app, length_fmap, app_nil_r. cbn. lia. }
  destruct (shrunk_right _ _ _ _ _ _ pm _ _ _ _ _ _ _ _ _ _ _ _ Hsh Hpm)
    as (hi' & R' & F' & lb & pb & Htw & -> & -> & -> & Hne).
  destruct (lend_right_ok _ _ _ _ _ _ _ _ _ _ _ _ _ _ _ _ _ _ _ _ Htw Hsm Hne) as (t' & r & E & Hr).
  exists t', r. split; [exact E|]. destruct r.
  - replace (F' ∪ {[lf_id lb]} ∪ {[lf_id l]}) with (F' ∪ {[lf_id l]} ∪ {[lf_id lb]}) by (clear; set_solver).
    exact Hr.
  - destruct Hr as [Un Hz]. split; [done|]. intros k' a' s2' [= <- <- <-].
    pose proof (shrunk_unchanged _ _ _ _ _ _ _ _ _ _ _ _ _ _ _ _ _ Un Hsh) as Hsh'.
    destruct (shrunk_right _ _ _ _ _ _ pm _ _ _ _ _ _ _ _ _ _ _ _ Hsh' Hpm)
      as (hi2 & R2 & F2 & lb2 & pb2 & Htw2 & E1 & [= -> ->] & EF & Hne2).
    by exists hi2, R2, F2, lb2, pb2.
Qed.

(** ** The step of a leaf *)

Lemma settled_mono t t' U U' : settled t t' U -> U ⊆ U' -> settled t t' U'.
Proof. intros [A1 A2 A3] Hs. split; [|done|done]. intros x Hx. apply A1. auto. Qed.

Lemma balanced_after t t1 t2 H U ls :
  settled t t1 U -> root_page_id t1 = root_page_id t -> balanced t1 t2 H U ls -> balanced t t2 H U ls.
Proof.
  intros St Er (St2 & Er2 & ls' & F' & Hb). split; [by eapply settled_trans|]. split; [congruence|]. by exists ls', F'.
Qed.

Lemma merged_after t t1 t2 H path h id U ls :
  settled t t1 U -> root_page_id t1 = root_page_id t -> merged t1 t2 H path h id U ls ->
  merged t t2 H path h id U ls.
Proof.
  intros St Er (St2 & Er2 & ls' & F' & Hb). split; [by eapply settled_trans|]. split; [congruence|]. by exists ls', F'.
Qed.

(** The step is complete, or the page [id] has lost a separator. *)
Definition stepped t t' (r : option Z) (H : nat) (path : list Z) (h : nat) (id : Z) (U : gset Z) (ls : list leaf) : Prop :=
  match r with
  | None => balanced t t' H U ls
  | Some x => x = id /\ merged t t' H path h id U ls
  end.

Lemma stepped_after t t1 t2 r H path h id U ls :
  settled t t1 U -> root_page_id t1 = root_page_id t -> stepped t1 t2 r H path h id U ls ->
  stepped t t2 r H path h id U ls.
Proof.
  destruct r; cbn; [|apply balanced_after]. intros St Er [-> Hm]. split; [done|]. by eapply merged_after.
Qed.

(** A leaf that is large enough, or not empty, completes the tree. *)
Lemma shrunk_tree t root H path id p s1 s2 right lo hi L R F l pl :
  shrunk t root H path id p s1 s2 right lo hi L R F l pl -> lf_entries l <> [] -> s1 ++ s2 <> [] ->
  balanced t t H (F ∪ {[lf_id l]}) (L ++ l :: R).
Proof.
  intros Hsh Hne Hs0. pose proof Hsh as [Hslot Hch Hpl Hl Hnum Hout Hs Hf Hbd Hli Hroot].
  destruct (slot_page _ _ _ _ _ _ _ _ _ _ _ _ _ _ _ _ Hslot) as (Hp & Hid & Hn & Hsf & HidF).
  split; [by apply settled_unchanged|]. split; [done|]. exists (L ++ l :: R), (F ∪ {[lf_id l]}).
  split; [|done]. rewrite Hroot.
  assert (Tl : forall lo hi, Forall (fun e => above lo e.1 /\ below e.1 hi /\ entry_fits K e) (lf_entries l) ->
    tree K (view t) 0 lo hi (lf_id l) [l] {[lf_id l]}) by (intros; by apply (tree_leaf K _ _ _ pl)).
  destruct s1 as [|[k a] s1 _] using rev_ind.
  - destruct s2 as [|[k c] s2]; [done|]. cbn in Hch. subst c.
    destruct (slot_right _ _ _ _ _ _ _ _ _ _ _ _ _ _ _ _ _ _ Hslot)
      as (hi' & R' & lsb & Fb & F' & Hpair & Tb & -> & -> & -> & D).
    replace (F' ∪ Fb ∪ {[lf_id l]}) with (F' ∪ {[lf_id l]} ∪ Fb) by (clear; set_solver).
    change (L ++ l :: lsb ++ R') with (L ++ [l] ++ lsb ++ R').
    eapply pair_plug; [exact Hpair|by apply Tl|exact Tb|disj..].
  - destruct (slot_left _ _ _ _ _ _ _ _ _ _ _ _ _ _ _ _ _ _ Hslot)
      as (lo' & L' & lsa & Fa & F' & Hpair & Ta & -> & -> & -> & D).
    rewrite <-app_assoc. change (L' ++ lsa ++ l :: R) with (L' ++ lsa ++ [l] ++ R).
    eapply pair_plug; [exact Hpair|exact Ta|rewrite Hch; by apply Tl|disj..].
Qed.

(** The left neighbour when there is one, or else the right one, takes the leaf in. *)
Lemma fill_leaf_ok t root H path id p pm s1 s2 right lo hi L R F l pl :
  shrunk t root H path id p s1 s2 right lo hi L R F l pl -> node_at pm id (s1 ++ s2) right -> s1 ++ s2 <> [] ->
  leaf_entries_size (lf_entries l) < leaf_min_bytes ->
  exists t' r, fill_leaf crc32 (lf_id l) pl (lf_entries l) id pm (s1 ++ s2).*1 ((s1 ++ s2).*2 ++ [right])
      (length s1) t = (t', Ok r) /\
    stepped t t' r H path 0 id (F ∪ {[lf_id l]}) (L ++ l :: R).
Proof.
  intros Hsh Hpm Hs0 Hsm. unfold fill_leaf.
  destruct (lend_left_any _ _ _ _ _ _ pm _ _ _ _ _ _ _ _ _ _ Hsh Hpm Hsm) as (t1 & r1 & E1 & B1).
  rewrite (eff_bind_ok _ _ _ _ _ E1). clear E1. destruct r1; [by exists t1, None|]. destruct B1 as [U1 B1].
  pose proof (shrunk_unchanged _ _ _ _ _ _ _ _ _ _ _ _ _ _ _ _ _ U1 Hsh) as Hsh1.
  destruct (lend_right_any _ _ _ _ _ _ pm _ _ _ _ _ _ _ _ _ _ Hsh1 Hpm Hsm) as (t2 & r2 & E2 & B2).
  rewrite (eff_bind_ok _ _ _ _ _ E2). clear E2.
  destruct r2; [exists t2, None; split; [done|]; eapply balanced_after; [by apply settled_unchanged|apply U1|done]|].
  destruct B2 as [U2 B2]. assert (U12 : unchanged t t2) by (by etrans).
  pose proof (shrunk_unchanged _ _ _ _ _ _ _ _ _ _ _ _ _ _ _ _ _ U2 Hsh1) as Hsh2.
  change leaf_min_bytes with 4086 in *.
  destruct s1 as [|[k a] s1 _] using rev_ind.
  - destruct s2 as [|[k a] s2]; [done|]. cbn [app length] in *.
    destruct (B2 k a s2 eq_refl) as (hi' & R' & F' & lb & pb & Htw & -> & -> & -> & Hne & Hsz).
    destruct (twins_children _ _ _ _ _ _ _ _ _ _ _ _ _ _ _ _ _ _ _ _ Htw) as [Ec _]. cbn [app] in Ec.
    rewrite bool_decide_true by (rewrite Ec; cbn; lia).
    assert (Eg : vec_get (0 + 1) (((k, lf_id l) :: s2).*2 ++ [right]) = Ok (lf_id lb) :> BTreeResult Z) by (by rewrite Ec).
    rewrite (eff_bind_lift _ _ _ _ Eg).
    destruct (bt_read_ok t2 _ _ (tw_page_b _ _ _ _ _ _ _ _ _ _ _ _ _ _ _ _ _ _ _ _ Htw)) as (t3 & E3 & U3).
    rewrite (eff_bind_ok _ _ _ _ _ E3).
    rewrite (eff_bind_lift _ _ _ _ (read_leaf_entries_rep _ _
      (proj2 (proj2 (proj2 (proj2 (tw_leaf_b _ _ _ _ _ _ _ _ _ _ _ _ _ _ _ _ _ _ _ _ Htw))))))).
    pose proof (twins_unchanged _ _ _ _ _ _ _ _ _ _ _ _ _ _ _ _ _ _ _ _ _ U3 Htw) as Htw3.
    destruct (merge_leaves_ok _ _ _ _ _ _ _ _ _ _ _ _ _ _ _ _ _ _ _ _ Htw3) as (t4 & E4 & M4);
      [by destruct (lf_entries l)|rewrite leaf_entries_size_app; lia|]. cbn [app length] in E4.
    rewrite (eff_bind_ok _ _ _ _ _ E4). exists t4, (Some id). split; [done|]. split; [done|].
    replace (F' ∪ {[lf_id lb]} ∪ {[lf_id l]}) with (F' ∪ {[lf_id l]} ∪ {[lf_id lb]}) by (clear; set_solver).
    assert (U123 : unchanged t t3) by (by etrans).
    eapply merged_after; [by apply settled_unchanged|apply U123|exact M4].
  - destruct (B1 s1 k a eq_refl) as (lo1 & L1 & F1 & la1 & pa1 & Htw1 & <- & -> & -> & Hne & Hsz).
    assert (El : length (s1 ++ [(k, lf_id la1)]) = Datatypes.S (length s1)) by (rewrite length_app; cbn; lia).
    rewrite El. rewrite <-!app_assoc. cbn [app].
    destruct (twins_children _ _ _ _ _ _ _ _ _ _ _ _ _ _ _ _ _ _ _ _ Htw1) as [Ec _].
    assert (Eg : vec_get (length s1) ((s1 ++ (k, lf_id la1) :: s2).*2 ++ [right]) = Ok (lf_id la1) :> BTreeResult Z).
    { rewrite Ec, <-(length_fmap snd s1). apply vec_get_middle. }
    rewrite (eff_bind_lift _ _ _ _ Eg).
    pose proof (twins_unchanged _ _ _ _ _ _ _ _ _ _ _ _ _ _ _ _ _ _ _ _ _ U2 Htw1) as Htw2.
    destruct (bt_read_ok t2 _ _ (tw_page_a _ _ _ _ _ _ _ _ _ _ _ _ _ _ _ _ _ _ _ _ Htw2)) as (t3 & E3 & U3).
    rewrite (eff_bind_ok _ _ _ _ _ E3).
    rewrite (eff_bind_lift _ _ _ _ (read_leaf_entries_rep _ _
      (proj2 (proj2 (proj2 (proj2 (tw_leaf_a _ _ _ _ _ _ _ _ _ _ _ _ _ _ _ _ _ _ _ _ Htw2))))))).
    pose proof (twins_unchanged _ _ _ _ _ _ _ _ _ _ _ _ _ _ _ _ _ _ _ _ _ U3 Htw2) as Htw3.
    destruct (merge_leaves_ok _ _ _ _ _ _ _ _ _ _ _ _ _ _ _ _ _ _ _ _ Htw3) as (t4 & E4 & M4);
      [by destruct (lf_entries la1)|rewrite leaf_entries_size_app; lia|].
    rewrite (eff_bind_ok _ _ _ _ _ E4). exists t4, (Some id). split; [done|]. split; [done|].
    assert (U123 : unchanged t t3) by (by etrans).
    eapply merged_after; [by apply settled_unchanged|apply U123|exact M4].
Qed.

Lemma rebalance_leaf_step_ok t root H path id lo hi L R F l pl :
  ctx K (view t) root H (path ++ [id]) 0 (lf_id l) lo hi L R F ->
  view t !! lf_id l = Some pl -> leaf_at pl l -> page_number (lf_id l) -> (lf_id l ∉ F) ->
  StronglySorted blt (lf_entries l).*1 ->
  Forall (fun e => above lo e.1 /\ below e.1 hi /\ entry_fits K e) (lf_entries l) ->
  (exists y, above lo y /\ below y hi) -> linked 0 (L ++ l :: R) 0 -> root_page_id t = root ->
  exists t' r, rebalance_leaf_step crc32 (lf_id l) (path ++ [id]) t = (t', Ok r) /\
    stepped t t' r H path 0 id (F ∪ {[lf_id l]}) (L ++ l :: R).
Proof.
  intros Hctx Hpl Hl Hnum Hout Hs Hf Hbd Hli Hroot.
  destruct (ctx_slot _ _ _ _ _ _ _ _ _ _ _ _ _ Hctx) as (p & s1 & s2 & right & Hslot & Hch & Hs0).
  destruct (slot_page _ _ _ _ _ _ _ _ _ _ _ _ _ _ _ _ Hslot) as (Hp & Hid & Hn & Hsf & HidF).
  unfold rebalance_leaf_step. rewrite last_snoc, (eff_bind_ok get_root _ t t (root_page_id t) eq_refl), Hroot.
  rewrite (proj2 (Z.eqb_neq _ _)).
  2:{ destruct (ctx_root_in _ _ _ _ _ _ _ _ _ _ _ _ Hctx) as [[? _]|[_ Hr]]; [by destruct path|].
      intros E. by rewrite E in Hout. }
  destruct (bt_read_ok t _ _ Hpl) as (t1 & E1 & U1). rewrite (eff_bind_ok _ _ _ _ _ E1).
  rewrite (eff_bind_lift _ _ _ _ (read_leaf_entries_rep _ _ (proj2 (proj2 (proj2 (proj2 Hl)))))).
  destruct (bt_read_ok t1 id p) as (t2 & E2 & U2); [by rewrite (same_pages _ _ U1)|]. rewrite (eff_bind_ok _ _ _ _ _ E2).
  rewrite (eff_bind_lift _ _ _ _ (read_interior_keys_children_spec _ _ _ (proj1 (proj2 (proj2 Hn))) (or_introl Hs0))).
  assert (Hi : index_of (lf_id l) ((s1 ++ s2).*2 ++ [right]) = Some (length s1)).
  { rewrite Hch. eapply slot_index; [exact Hslot|]. by rewrite <-Hch. }
  rewrite Hi. cbn [ok_or]. rewrite (eff_bind_lift _ _ _ _ eq_refl).
  assert (Hsh : shrunk t2 root H path id p s1 s2 right lo hi L R F l pl).
  { eapply shrunk_unchanged; [exact U2|]. eapply shrunk_unchanged; [exact U1|]. by split. }
  assert (Hun : unchanged t t2) by (by etrans).
  destruct (refresh_separator_ok _ _ _ _ _ _ _ _ _ _ _ _ _ _ _ _ Hsh)
    as (t3 & p3 & pm & s1' & lo' & E3 & St3 & Hsh3 & El & Ec & Npm).
  rewrite (eff_bind_ok _ _ _ _ _ E3). clear E3.
  assert (Ech : (s1 ++ s2).*2 ++ [right] = (s1' ++ s2).*2 ++ [right]) by (by rewrite !fmap_app, Ec).
  assert (Hs0' : s1' ++ s2 <> []) by (destruct s1', s2, s1; cbn in *; congruence).
  rewrite Ech, <-El. clear Ech Ec.
  assert (St : settled t t3 (F ∪ {[lf_id l]})).
  { eapply settled_trans; [by apply settled_unchanged|]. eapply settled_mono; [exact St3|clear; set_solver]. }
  assert (Er : root_page_id t3 = root_page_id t) by (rewrite Hroot; apply Hsh3).
  destruct (Z.leb_spec leaf_min_bytes (leaf_entries_size (lf_entries l))) as [Hsz|Hsz].
  - exists t3, None. split; [done|]. eapply balanced_after; [exact St|exact Er|].
    eapply shrunk_tree; [exact Hsh3| |done]. intros E. rewrite E in Hsz. by vm_compute in Hsz.
  - destruct (fill_leaf_ok _ _ _ _ _ _ pm _ _ _ _ _ _ _ _ _ _ Hsh3 Npm Hs0' Hsz) as (t4 & r & E4 & Hst).
    exists t4, r. split; [exact E4|by eapply stepped_after].
Qed.
End laws.
