(* ===== verification/Rotate.v ===== *)
(** * Rebalancing the interior pages of a B+ tree

    An interior page that has lost a separator rotates one with a neighbour, or merges
    with it and passes the loss on to its parent, up to the root.  The leaves stay as
    they are. *)

From S2P Require Import Prelude FileFormat Page PageStore Overflow ValueLayout Slots Leaf Interior BTree Delete Tree BTreeRead Splits Siblings BTreeInsert Rebalance.
From Stdlib Require Import ZArith Lia.

Section laws.
Context {S : Type} `{HS : PageStore S} `{!PageStoreLaws S}.
Context (crc32 : bytes -> Z) (K : key_sizes).
Implicit Types t : BTree S.

(** An interior page with its children, possibly without a separator *)
Record node_in (m : gmap Z bytes) (h : nat) (lo hi : option bytes) (c : Z) (p : bytes) (seps : list sep)
    (right : Z) (ls : list leaf) (F : gset Z) : Prop := {
  ni_page : m !! c = Some p;
  ni_number : page_number c;
  ni_node : node_at p c seps right;
  ni_fits : Forall (sep_fits K) seps;
  ni_kids : kids K m h lo seps right hi ls F;
  ni_out : c ∉ F;
}.

Lemma node_in_tree m h lo hi c p seps right ls F :
  node_in m h lo hi c p seps right ls F -> seps <> [] -> tree K m (Datatypes.S h) lo hi c ls ({[c]} ∪ F).
Proof. intros [A1 A2 A3 A4 A5 A6] Hne. by eapply kids_tree. Qed.

Lemma tree_node_in m h lo hi c ls F :
  tree K m (Datatypes.S h) lo hi c ls F ->
  exists p seps right Fk, node_in m h lo hi c p seps right ls Fk /\ seps <> [] /\ F = {[c]} ∪ Fk.
Proof.
  intros (p & seps & right & Fk & A1 & A2 & A3 & A4 & A5 & A6 & A7 & ->)%tree_kids. by exists p, seps, right, Fk.
Qed.

(** The keys and children of the page *)
Lemma node_in_read m h lo hi c p seps right ls F :
  node_in m h lo hi c p seps right ls F ->
  read_interior_keys_children p = Ok (seps.*1, seps.*2 ++ [right]) /\ right <> 0.
Proof.
  intros [A1 A2 (_ & _ & A3 & _) A4 A5 A6]. assert (Hr : right <> 0).
  { apply kids_segs in A5 as (mid & ls1 & F1 & ls2 & F2 & _ & Ht & _).
    by destruct (tree_root_number _ _ _ _ _ _ _ _ Ht). }
  split; [|done]. apply read_interior_keys_children_spec; auto.
Qed.

(** The leaves are as before and form a tree again. *)
Definition placed t t' (H : nat) (U : gset Z) (ls : list leaf) : Prop :=
  settled t t' U /\ root_page_id t' = root_page_id t /\
  exists F', tree K (view t') H None None (root_page_id t') ls F' /\ F' ⊆ U.

(** The page [id] has lost a separator. *)
Definition lost t t' (H : nat) (path : list Z) (h : nat) (id : Z) (U : gset Z) (ls : list leaf) : Prop :=
  settled t t' U /\ root_page_id t' = root_page_id t /\
  exists F', loose K (view t') (root_page_id t') H path h id ls F' /\ F' ⊆ U.

(** Two interior pages next to each other *)
Record nodes t (root : Z) (H : nat) (path : list Z) (h : nat) (id : Z) (p : bytes) (s1 : list sep) (k : bytes)
    (s2 : list sep) (right : Z) (lo hi : option bytes) (L R : list leaf) (F : gset Z)
    (a : Z) (pa : bytes) (sA : list sep) (rA : Z) (lsA : list leaf) (FA : gset Z)
    (b : Z) (pb : bytes) (sB : list sep) (rB : Z) (lsB : list leaf) (FB : gset Z) : Prop := {
  nd_pair : pair K (view t) root H path (Datatypes.S h) id p s1 k a s2 right lo hi L R F;
  nd_right : head_child s2 right = b;
  nd_a : node_in (view t) h lo (Some k) a pa sA rA lsA FA;
  nd_b : node_in (view t) h (Some k) hi b pb sB rB lsB FB;
  nd_disj_a : F ## {[a]} ∪ FA;
  nd_disj_b : F ## {[b]} ∪ FB;
  nd_disj : {[a]} ∪ FA ## {[b]} ∪ FB;
  nd_root : root_page_id t = root;
}.

Lemma nodes_unchanged t t' root H path h id p s1 k s2 right lo hi L R F a pa sA rA lsA FA b pb sB rB lsB FB :
  unchanged t t' -> nodes t root H path h id p s1 k s2 right lo hi L R F a pa sA rA lsA FA b pb sB rB lsB FB ->
  nodes t' root H path h id p s1 k s2 right lo hi L R F a pa sA rA lsA FA b pb sB rB lsB FB.
Proof. intros [A1 A2 _ _] []. split; rewrite ?A1, ?A2; done. Qed.

Context (Hu : shortest K = longest K) (HK : longest K <= 353).

Lemma node_key_size seps : Forall (sep_fits K) seps -> Forall (fun k => interior_key_size k <= 359) seps.*1.
Proof.
  intros Hf. rewrite Forall_fmap. eapply Forall_impl; [exact Hf|]. intros s [_ [_ Hs]]. cbn.
  unfold interior_key_size. lia.
Qed.

Section nodes.
Context (t : BTree S) (root : Z) (H : nat) (path : list Z) (h : nat) (id : Z) (p : bytes).
Context (s1 : list sep) (k : bytes) (s2 : list sep) (right : Z) (lo hi : option bytes).
Context (L R : list leaf) (F : gset Z).
Context (a : Z) (pa : bytes) (sA : list sep) (rA : Z) (lsA : list leaf) (FA : gset Z).
Context (b : Z) (pb : bytes) (sB : list sep) (rB : Z) (lsB : list leaf) (FB : gset Z).
Context (Hnd : nodes t root H path h id p s1 k s2 right lo hi L R F a pa sA rA lsA FA b pb sB rB lsB FB).

Ltac open_nodes :=
  pose proof Hnd as [Hpair Hb Ha Hbn Da Db Dab Hroot];
  pose proof Ha as [A1 A2 A3 A4 A5 A6]; pose proof Hbn as [B1 B2 B3 B4 B5 B6].

Let U : gset Z := F ∪ ({[a]} ∪ FA) ∪ ({[b]} ∪ FB).
Let keys : list bytes := (s1 ++ (k, a) :: s2).*1.
Let children : list Z := (s1 ++ (k, a) :: s2).*2 ++ [right].

Lemma nodes_children : children = s1.*2 ++ a :: b :: tail_children s2 right /\ keys = s1.*1 ++ k :: s2.*1.
Proof.
  open_nodes. unfold children, keys. rewrite !fmap_app. cbn [fmap list_fmap fst snd]. split; [|done].
  rewrite <-app_assoc. cbn [app]. change (list_fmap _ _ ?f ?l) with (f <$> l). by rewrite children_head, Hb.
Qed.

Lemma nodes_ids : id <> a /\ id <> b /\ a <> b /\ id ∈ F /\ (id ∉ FA) /\ (id ∉ FB) /\ (a ∉ FB) /\ (b ∉ FA).
Proof.
  open_nodes. destruct (pair_page _ _ _ _ _ _ _ _ _ _ _ _ _ _ _ _ _ _ Hpair) as (_ & _ & _ & _ & Hid).
  clear -Da Db Dab Hid. split_and!; set_solver.
Qed.

(** The two pages and their parent are written with the children divided otherwise. *)
Lemma rotated t1 t2 t3 q1 q2 pq1 pq2 k2 sA2 rA2 lsA2 FA2 sB2 rB2 lsB2 FB2 :
  view t1 = view t -> settled t t3 U -> root_page_id t3 = root ->
  (written t1 t2 a pq1 q1 /\ written t2 t3 b pq2 q2 \/ written t1 t2 b pq2 q2 /\ written t2 t3 a pq1 q1) ->
  node_at q1 a sA2 rA2 -> node_at q2 b sB2 rB2 -> sA2 <> [] -> sB2 <> [] ->
  Forall (sep_fits K) sA2 -> Forall (sep_fits K) sB2 -> sep_fits K (k2, a) ->
  kids K (view t) h lo sA2 rA2 (Some k2) lsA2 FA2 -> kids K (view t) h (Some k2) sB2 rB2 hi lsB2 FB2 ->
  FA2 ## FB2 -> FA2 ∪ FB2 = FA ∪ FB -> lsA2 ++ lsB2 = lsA ++ lsB ->
  exists t4 r, rewrite_interior crc32 id p (s1.*1 ++ k2 :: s2.*1) children t3 = (t4, Ok r) /\
    placed t t4 H U (L ++ lsA ++ lsB ++ R).
Proof.
  intros V1 St R3 HW N1 N2 Hne1 Hne2 Hf1 Hf2 Hk2 K1 K2 DF EF Els. open_nodes.
  destruct (pair_page _ _ _ _ _ _ _ _ _ _ _ _ _ _ _ _ _ _ Hpair) as (Hp & Hid & Hn & Hsf & HidF).
  destruct nodes_ids as (Ia & Ib & Iab & _ & Ja & Jb & Jc & Jd).
  assert (V3 : forall x, x <> a -> x <> b -> view t3 !! x = view t !! x).
  { intros x Xa Xb. destruct HW as [[W1 W2]|[W1 W2]];
      rewrite (written_pages _ _ _ _ _ W2), (written_pages _ _ _ _ _ W1), V1, !lookup_insert_ne; done. }
  assert (V3ab : view t3 !! a = Some q1 /\ view t3 !! b = Some q2).
  { destruct HW as [[W1 W2]|[W1 W2]]; rewrite (written_pages _ _ _ _ _ W2), (written_pages _ _ _ _ _ W1);
      split; rewrite ?lookup_insert_ne, lookup_insert, decide_True by congruence; done. }
  destruct V3ab as [Va Vb].
  assert (Hk : key_fits K k) by (by apply Forall_app in Hsf as [_ [[_ ?] _]%Forall_cons]).
  destruct (rewrite_interior_ok crc32 t3 p id _ _ (s1 ++ (k2, a) :: s2) right Hn) as (t4 & p4 & q & r & E & W & N & _).
  - apply (node_at_numbers _ _ _ _ Hn).
  - pose proof (seps_writable K _ _ _ _ Hn Hsf) as Hw. apply Forall_app in Hw as [Hw1 [[_ Hw2] Hw3]%Forall_cons].
    apply Forall_app. split; [done|]. constructor; [split; [apply Hk2|done]|done].
  - eapply (separator_fits K s1 k); [exact Hu|exact Hn|exact Hk|exact (proj2 Hk2)].
  - rewrite V3, Hp by done. by eexists.
  - assert (Ek : (s1 ++ (k2, a) :: s2).*1 = s1.*1 ++ k2 :: s2.*1) by (by rewrite fmap_app).
    assert (Ec : (s1 ++ (k2, a) :: s2).*2 = (s1 ++ (k, a) :: s2).*2) by (by rewrite !fmap_app).
    rewrite Ek, Ec in E. exists t4, r. split; [exact E|].
    assert (V4 : forall x, x <> id -> view t4 !! x = view t3 !! x).
    { intros x Hx. by rewrite (written_pages _ _ _ _ _ W), lookup_insert_ne. }
    split; [eapply settled_trans; [exact St|]; eapply settled_written; [exact W|unfold U; sets]|].
    split; [by rewrite (written_root _ _ _ _ _ W), R3|]. exists (F ∪ ({[a]} ∪ FA2) ∪ ({[b]} ∪ FB2)). split.
    + rewrite (written_root _ _ _ _ _ W), R3. rewrite (app_assoc lsA), <-Els, <-app_assoc.
      assert (Hfr : forall x, x ∈ FA2 ∪ FB2 -> view t4 !! x = view t !! x).
      { intros x Hx. rewrite EF in Hx. rewrite V4, V3; [done|..]; intros ->; sets. }
      eapply pair_plug.
      * eapply pair_rewritten; [exact Hpair| | |exact N|exact Hk2].
        -- intros x Hx Xid. rewrite V4, V3; [done|..|done]; intros ->; [apply (Da a)|apply (Db b)]; sets.
        -- by rewrite (written_pages _ _ _ _ _ W), lookup_insert, decide_True.
      * eapply kids_tree; [by rewrite V4|done|exact N1|done|done| |].
        -- eapply kids_frame; [exact K1|]. intros. apply Hfr. sets.
        -- assert (a ∉ FA2 ∪ FB2) by (rewrite EF; sets). sets.
      * rewrite Hb. eapply kids_tree; [by rewrite V4|done|exact N2|done|done| |].
        -- eapply kids_frame; [exact K2|]. intros. apply Hfr. sets.
        -- assert (b ∉ FA2 ∪ FB2) by (rewrite EF; sets). sets.
      * clear -Da Db EF. set_solver.
      * clear -Da Db EF. set_solver.
      * clear -Dab EF DF A6 B6 Iab Jc Jd. set_solver.
    + unfold U. clear -EF. set_solver.
Qed.

Lemma sat_sub_last ks x : sat_sub (interior_entries_size (ks ++ [x])) (interior_key_size x) = interior_entries_size ks.
Proof.
  rewrite interior_entries_size_app, interior_entries_size_cons. destruct (slotted_entries_size ks) as [H0 _].
  unfold sat_sub. change (interior_entries_size []) with 0. lia.
Qed.

Lemma sat_sub_first ks x : sat_sub (interior_entries_size (x :: ks)) (interior_key_size x) = interior_entries_size ks.
Proof.
  rewrite interior_entries_size_cons. destruct (slotted_entries_size ks) as [H0 _]. unfold sat_sub. lia.
Qed.

(** The neighbour has a separator to spare, or is small. *)
Lemma rotate_left_ok :
  interior_entries_size sB.*1 < interior_min_bytes -> sA <> [] ->
  exists t' r,
    rotate_left crc32 b pb sB.*1 (sB.*2 ++ [rB]) id p keys children (Datatypes.S (length s1)) t = (t', Ok r) /\
    if (r : bool) then placed t t' H U (L ++ lsA ++ lsB ++ R)
    else unchanged t t' /\ interior_entries_size sA.*1 < interior_min_bytes + 359.
Proof.
  intros Hsmall Hne. open_nodes. destruct nodes_children as [Ec Ek]. destruct nodes_ids as (Ia & Ib & Iab & _).
  unfold rotate_left.
  assert (Eg : vec_get (length s1) children = Ok a :> BTreeResult Z).
  { rewrite Ec, <-(length_fmap snd s1). apply vec_get_middle. }
  rewrite (eff_bind_lift _ _ _ _ Eg).
  destruct (bt_read_ok t _ _ A1) as (t1 & E1 & U1). rewrite (eff_bind_ok _ _ _ _ _ E1).
  destruct (node_in_read _ _ _ _ _ _ _ _ _ _ Ha) as [Er HrA]. rewrite (eff_bind_lift _ _ _ _ Er). clear Er E1.
  destruct (exists_last Hne) as (sA' & [bk bc] & EsA). rewrite EsA in A3, A4, A5 |- *.
  rewrite !fmap_app. cbn [fmap list_fmap fst snd]. rewrite last_snoc, sat_sub_last.
  pose proof A4 as [A4' [A4k _]%Forall_cons]%Forall_app.
  destruct (Z.leb_spec interior_min_bytes (interior_entries_size sA'.*1)) as [Hsz|Hsz].
  2:{ exists t1, false. split; [done|]. split; [done|]. rewrite interior_entries_size_app, interior_entries_size_cons.
      change (interior_entries_size []) with 0. pose proof (node_key_size _ A4) as Hz. rewrite fmap_app in Hz.
      apply Forall_app in Hz as [_ [Hz _]%Forall_cons]. cbn in Hz. lia. }
  rewrite Ek, <-(length_fmap fst s1), (eff_bind_lift _ _ _ _ (vec_get_middle _ _ _)).
  rewrite last_snoc. cbn [ok_or]. rewrite (eff_bind_lift _ _ _ _ eq_refl).
  rewrite (eff_bind_lift _ _ _ _ (vec_set_middle _ _ _ _)), !removelast_last.
  apply kids_app_inv in A5 as (mid & lsx & Fx & lsy & Fy & X1 & X2 & EL & EF & X3).
  apply kids_cons_inv in X2 as (lsz & Fz & lsw & Fw & Tz & Tw%kids_nil_inv & -> & -> & X4).
  pose proof (node_at_size _ _ _ _ A3) as Hza. rewrite fmap_app, interior_slotted_size_app in Hza.
  pose proof (interior_slotted_size_nonneg [(bk, bc)].*1).
  pose proof (seps_writable K _ _ _ _ A3 A4) as [Hwa _]%Forall_app.
  destruct (node_at_numbers _ _ _ _ A3) as [Hna HnrA]. apply Forall_app in Hna as [_ [Hnbc _]%Forall_cons]. cbn in Hnbc.
  destruct (rewrite_interior_ok crc32 t1 pa a _ _ sA' bc A3) as (t2 & p2 & q2 & r2 & E2 & W2 & N2 & _);
    [done|done|lia|rewrite (same_pages _ _ U1), A1; by eexists|].
  rewrite (eff_bind_ok _ _ _ _ _ E2). clear E2.
  destruct (pair_page _ _ _ _ _ _ _ _ _ _ _ _ _ _ _ _ _ _ Hpair) as (_ & _ & _ & Hsf & _).
  assert (Hk : sep_fits K (k, rA)) by (by apply Forall_app in Hsf as [_ [? _]%Forall_cons]).
  assert (Hks : interior_key_size k <= 359) by (destruct Hk as [_ [_ Hk]]; cbn in Hk; unfold interior_key_size; lia).
  destruct (slotted_entries_size (k :: sB.*1)) as [_ Hsl]. rewrite interior_entries_size_cons in Hsl.
  change interior_min_bytes with 4088 in *.
  destruct (rewrite_interior_ok crc32 t2 pb b _ _ ((k, rA) :: sB) rB B3) as (t3 & p3 & q3 & r3 & E3 & W3 & N3 & _).
  { apply (node_at_numbers _ _ _ _ B3). }
  { constructor; [split; [apply Hk|done]|]. by eapply seps_writable. }
  { cbn [fmap list_fmap fst]. lia. }
  { rewrite (written_pages _ _ _ _ _ W2), lookup_insert_ne, (same_pages _ _ U1), B1 by congruence. by eexists. }
  cbn [fmap list_fmap fst snd app] in E3. rewrite (eff_bind_ok _ _ _ _ _ E3). clear E3.
  destruct (rotated t1 t2 t3 q2 q3 p2 p3 bk sA' bc (lsx ++ lsz) (Fx ∪ Fz) ((k, rA) :: sB) rB (lsw ++ lsB) (Fw ∪ FB))
    as (t4 & r4 & E4 & B4'); try done.
  - apply (same_pages _ _ U1).
  - eapply settled_trans; [by apply settled_unchanged|].
    eapply settled_trans; (eapply settled_written; [eassumption|unfold U; sets]).
  - by rewrite (written_root _ _ _ _ _ W3), (written_root _ _ _ _ _ W2), (same_root _ _ U1).
  - by left.
  - intros ->. cbn in Hsz. lia.
  - by constructor.
  - rewrite <-(app_nil_r sA'). eapply kids_app; [exact X1|by constructor|sets].
  - constructor; [done|done|]. clear -Dab EF. set_solver.
  - clear -Dab X3 X4 EF. set_solver.
  - clear -EF. set_solver.
  - by rewrite EL, <-!app_assoc.
  - rewrite (eff_bind_ok _ _ _ _ _ E4). exists t4, true. split; [done|exact B4'].
Qed.

Lemma nodes_separator c : sep_fits K (k, c) /\ interior_key_size k <= 359.
Proof.
  open_nodes. destruct (pair_page _ _ _ _ _ _ _ _ _ _ _ _ _ _ _ _ _ _ Hpair) as (_ & _ & _ & Hsf & _).
  apply Forall_app in Hsf as [_ [[Hk1 Hk2] _]%Forall_cons]. split; [done|].
  destruct Hk2 as [_ Hk]. cbn in Hk. unfold interior_key_size. lia.
Qed.

Lemma nodes_second : vec_get (length s1 + 1) children = Ok b :> BTreeResult Z.
Proof.
  destruct nodes_children as [Ec _]. rewrite Ec, cons_middle, app_assoc.
  replace (length s1 + 1)%nat with (length (s1.*2 ++ [a])); [apply vec_get_middle|].
  rewrite length_app, length_fmap. done.
Qed.

Lemma rotate_right_ok :
  interior_entries_size sA.*1 < interior_min_bytes -> sB <> [] ->
  exists t' r,
    rotate_right crc32 a pa sA.*1 (sA.*2 ++ [rA]) id p keys children (length s1) t = (t', Ok r) /\
    if (r : bool) then placed t t' H U (L ++ lsA ++ lsB ++ R)
    else unchanged t t' /\ interior_entries_size sB.*1 < interior_min_bytes + 359.
Proof.
  intros Hsmall Hne. open_nodes. destruct nodes_children as [Ec Ek]. destruct nodes_ids as (Ia & Ib & Iab & _).
  destruct (nodes_separator rA) as [Hk Hks]. unfold rotate_right.
  rewrite bool_decide_true by (rewrite Ec, length_app, length_fmap; cbn; lia).
  rewrite (eff_bind_lift _ _ _ _ nodes_second).
  destruct (bt_read_ok t _ _ B1) as (t1 & E1 & U1). rewrite (eff_bind_ok _ _ _ _ _ E1).
  destruct (node_in_read _ _ _ _ _ _ _ _ _ _ Hbn) as [Er HrB]. rewrite (eff_bind_lift _ _ _ _ Er). clear Er E1.
  assert (EsB : exists bk bc sB', sB = (bk, bc) :: sB') by (destruct sB as [|[bk bc] sB']; [done|eauto]).
  destruct EsB as (bk & bc & sB' & EsB). rewrite EsB in B3, B4, B5 |- *. cbn [fmap list_fmap fst snd app tail].
  change (list_fmap _ _ ?f ?l) with (f <$> l). rewrite sat_sub_first.
  pose proof B4 as [B4k B4']%Forall_cons.
  destruct (Z.leb_spec interior_min_bytes (interior_entries_size sB'.*1)) as [Hsz|Hsz].
  2:{ exists t1, false. split; [done|]. split; [done|]. rewrite interior_entries_size_cons.
      pose proof (node_key_size _ B4) as [Hz _]%Forall_cons. cbn in Hz. lia. }
  rewrite Ek, <-(length_fmap fst s1), (eff_bind_lift _ _ _ _ (vec_get_middle _ _ _)).
  assert (Eg : vec_get 0 (bc :: sB'.*2 ++ [rB]) = Ok bc :> BTreeResult Z) by done. rewrite (eff_bind_lift _ _ _ _ Eg). clear Eg.
  rewrite (eff_bind_lift _ _ _ _ (vec_set_middle _ _ _ _)).
  apply kids_cons_inv in B5 as (lsx & Fx & lsy & Fy & X1 & X2 & EL & EF & X3).
  apply kids_segs in A5 as (mid & lsz & Fz & lsw & Fw & Z1 & Z2 & EL2 & EF2 & Z3).
  pose proof (node_at_size _ _ _ _ B3) as Hza. cbn [fmap list_fmap fst] in Hza. rewrite interior_slotted_size_cons in Hza.
  change (list_fmap _ _ fst ?l) with (l.*1) in Hza.
  assert (0 <= interior_key_size bk) by (unfold interior_key_size; pose proof (zlen_nonneg bk); lia).
  pose proof (seps_writable K _ _ _ _ B3 B4) as [_ Hwb]%Forall_cons.
  destruct (node_at_numbers _ _ _ _ B3) as [[Hnbc _]%Forall_cons HnrB]. cbn in Hnbc.
  destruct (rewrite_interior_ok crc32 t1 pb b _ _ sB' rB B3) as (t2 & p2 & q2 & r2 & E2 & W2 & N2 & _);
    [done|done|lia|rewrite (same_pages _ _ U1), B1; by eexists|].
  rewrite (eff_bind_ok _ _ _ _ _ E2). clear E2.
  destruct (slotted_entries_size (sA.*1 ++ [k])) as [_ Hsl]. rewrite interior_entries_size_app, interior_entries_size_cons in Hsl.
  change (interior_entries_size []) with 0 in Hsl. change interior_min_bytes with 4088 in *.
  destruct (node_at_numbers _ _ _ _ A3) as [_ HnrA].
  destruct (rewrite_interior_ok crc32 t2 pa a _ _ (sA ++ [(k, rA)]) bc A3) as (t3 & p3 & q3 & r3 & E3 & W3 & N3 & _).
  { done. }
  { apply Forall_app. split; [by eapply seps_writable|]. constructor; [split; [apply Hk|done]|constructor]. }
  { rewrite fmap_app. cbn [fmap list_fmap fst]. lia. }
  { rewrite (written_pages _ _ _ _ _ W2), lookup_insert_ne, (same_pages _ _ U1), A1 by congruence. by eexists. }
  rewrite !fmap_app in E3. cbn [fmap list_fmap fst snd] in E3. rewrite (eff_bind_ok _ _ _ _ _ E3). clear E3.
  destruct (rotated t1 t2 t3 q3 q2 p3 p2 bk (sA ++ [(k, rA)]) bc (lsz ++ (lsw ++ lsx)) (Fz ∪ (Fw ∪ Fx)) sB' rB lsy Fy)
    as (t4 & r4 & E4 & B4''); try done.
  - apply (same_pages _ _ U1).
  - eapply settled_trans; [by apply settled_unchanged|].
    eapply settled_trans; (eapply settled_written; [eassumption|unfold U; sets]).
  - by rewrite (written_root _ _ _ _ _ W3), (written_root _ _ _ _ _ W2), (same_root _ _ U1).
  - by right.
  - by destruct sA.
  - intros ->. cbn in Hsz. lia.
  - apply Forall_app. split; [done|by constructor].
  - eapply kids_app; [exact Z1| |clear -Dab EF EF2 Z3; set_solver].
    constructor; [done|by constructor|]. clear -Dab EF EF2. set_solver.
  - clear -Dab X3 EF EF2. set_solver.
  - clear -EF EF2. set_solver.
  - by rewrite EL, EL2, <-!app_assoc.
  - rewrite (eff_bind_ok _ _ _ _ _ E4). exists t4, true. split; [done|exact B4''].
Qed.

(** The right one of the two is appended to the left one. *)
Lemma merge_interiors_ok :
  interior_entries_size sA.*1 + interior_entries_size sB.*1 <= 8534 ->
  exists t',
    merge_interiors crc32 a pa sA.*1 (sA.*2 ++ [rA]) b sB.*1 (sB.*2 ++ [rB]) id p keys children (length s1) t
      = (t', Ok tt) /\
    lost t t' H path (Datatypes.S h) id U (L ++ lsA ++ lsB ++ R).
Proof.
  intros Hsz. open_nodes. destruct nodes_children as [Ec Ek].
  destruct nodes_ids as (Ia & Ib & Iab & HidF & Ja & Jb & Jc & Jd). destruct (nodes_separator rA) as [Hk Hks].
  destruct (pair_page _ _ _ _ _ _ _ _ _ _ _ _ _ _ _ _ _ _ Hpair) as (Hp & Hid & Hn & Hsf & _).
  unfold merge_interiors. rewrite Ek, <-(length_fmap fst s1), (eff_bind_lift _ _ _ _ (vec_get_middle _ _ _)).
  rewrite (eff_bind_lift _ _ _ _ (vec_remove_middle _ _ _)).
  assert (Er : vec_remove (length s1.*1 + 1) children = Ok (s1.*2 ++ a :: tail_children s2 right) :> BTreeResult (list Z)).
  { rewrite Ec, cons_middle, app_assoc. replace (length s1.*1 + 1)%nat with (length (s1.*2 ++ [a])).
    - rewrite vec_remove_middle, <-app_assoc. done.
    - rewrite length_app, !length_fmap. done. }
  rewrite (eff_bind_lift _ _ _ _ Er). clear Er.
  destruct (slotted_entries_size (sA.*1 ++ k :: sB.*1)) as [_ Hsl].
  rewrite interior_entries_size_app, interior_entries_size_cons in Hsl.
  destruct (node_at_numbers _ _ _ _ A3) as [_ HnrA]. destruct (node_at_numbers _ _ _ _ B3) as [_ HnrB].
  destruct (rewrite_interior_ok crc32 t pa a _ _ (sA ++ (k, rA) :: sB) rB A3) as (t1 & p1 & q1 & r1 & E1 & W1 & N1 & _).
  { done. }
  { apply Forall_app. split; [by eapply seps_writable|]. constructor; [split; [apply Hk|done]|by eapply seps_writable]. }
  { rewrite fmap_app. cbn [fmap list_fmap fst]. change (list_fmap _ _ fst ?l) with (l.*1). lia. }
  { rewrite A1. by eexists. }
  assert (E1' : (sA.*2 ++ [rA]) ++ sB.*2 ++ [rB] = (sA ++ (k, rA) :: sB).*2 ++ [rB]).
  { rewrite fmap_app, <-!app_assoc. done. }
  assert (E1'' : sA.*1 ++ k :: sB.*1 = (sA ++ (k, rA) :: sB).*1) by (by rewrite fmap_app).
  rewrite E1', E1'', (eff_bind_ok _ _ _ _ _ E1). clear E1 E1' E1''.
  destruct (bt_free_ok t1 b) as (t2 & E2 & W2);
    [rewrite (written_pages _ _ _ _ _ W1), lookup_insert_ne, B1 by congruence; by eexists|].
  rewrite (eff_bind_ok _ _ _ _ _ E2). clear E2.
  assert (V2 : forall x, x <> a -> x <> b -> view t2 !! x = view t !! x).
  { intros x Xa Xb. by rewrite (freed_pages _ _ _ W2), lookup_delete_ne, (written_pages _ _ _ _ _ W1), lookup_insert_ne. }
  destruct (rewrite_merged crc32 K t2 p id s1 k a s2 right Hn Hsf) as (t3 & p3 & q3 & r3 & E3 & W3 & N3);
    [apply A2|rewrite V2, Hp by done; by eexists|].
  rewrite (eff_bind_ok _ _ _ _ _ E3). clear E3. exists t3. split; [done|].
  assert (St : settled t t3 U).
  { eapply settled_trans; [eapply settled_written; [exact W1|unfold U; sets]|].
    eapply settled_trans; [eapply settled_freed; [exact W2|unfold U; sets]|].
    eapply settled_written; [exact W3|unfold U; sets]. }
  assert (Er3 : root_page_id t3 = root_page_id t).
  { by rewrite (written_root _ _ _ _ _ W3), (freed_root _ _ _ W2), (written_root _ _ _ _ _ W1). }
  assert (V3 : forall x, x <> id -> x <> a -> x <> b -> view t3 !! x = view t !! x).
  { intros x Xi Xa Xb. by rewrite (written_pages _ _ _ _ _ W3), lookup_insert_ne, V2. }
  split; [exact St|]. split; [exact Er3|]. exists (F ∪ ({[a]} ∪ (FA ∪ FB))). rewrite Er3, Hroot. split.
  - rewrite (app_assoc lsA). eapply pair_merged; [exact Hpair| | |exact N3| |clear -Da Db; set_solver].
    + intros x Hx Xid. apply V3; [done|..]; intros ->; [apply (Da a)|apply (Db b)]; sets.
    + by rewrite (written_pages _ _ _ _ _ W3), lookup_insert, decide_True.
    + eapply kids_tree; [|done|exact N1|by destruct sA| | |clear -A6 Jc; set_solver].
      * rewrite (written_pages _ _ _ _ _ W3), lookup_insert_ne, (freed_pages _ _ _ W2), lookup_delete_ne by congruence.
        by rewrite (written_pages _ _ _ _ _ W1), lookup_insert, decide_True.
      * apply Forall_app. split; [done|by constructor].
      * apply kids_segs in A5 as (mid & lsx & Fx & lsy & Fy & X1 & X2 & -> & EF & X3).
        eapply (kids_frame _ (view t)).
        -- rewrite EF, <-app_assoc, <-(assoc_L (∪)). eapply kids_app; [exact X1| |clear -Dab EF X3; set_solver].
           constructor; [exact X2|exact B5|clear -Dab EF; set_solver].
        -- intros x Hx. apply V3; intros ->; clear -Hx Ja Jb Jc Jd A6 B6; set_solver.
  - unfold U. clear; set_solver.
Qed.

End nodes.
(** ** The step of an interior page *)

(** The interior page [c] has lost a separator. *)
Record weak t (root : Z) (H : nat) (path : list Z) (h : nat) (id : Z) (p : bytes) (s1 s2 : list sep) (right : Z)
    (lo hi : option bytes) (L R : list leaf) (F : gset Z)
    (c : Z) (pc : bytes) (sc : list sep) (rc : Z) (lsc : list leaf) (Fc : gset Z) : Prop := {
  wk_slot : slot K (view t) root H path (Datatypes.S h) id p s1 s2 right lo hi L R F;
  wk_child : head_child s2 right = c;
  wk_node : node_in (view t) h lo hi c pc sc rc lsc Fc;
  wk_disj : F ## {[c]} ∪ Fc;
  wk_root : root_page_id t = root;
  wk_small : interior_entries_size sc.*1 < interior_min_bytes;
}.

Lemma weak_unchanged t t' root H path h id p s1 s2 right lo hi L R F c pc sc rc lsc Fc :
  unchanged t t' -> weak t root H path h id p s1 s2 right lo hi L R F c pc sc rc lsc Fc ->
  weak t' root H path h id p s1 s2 right lo hi L R F c pc sc rc lsc Fc.
Proof. intros [A1 A2 _ _] []. split; rewrite ?A1, ?A2; done. Qed.

(** The page and its left neighbour *)
Lemma weak_left t root H path h id p s1 k a s2 right lo hi L R F c pc sc rc lsc Fc :
  weak t root H path h id p (s1 ++ [(k, a)]) s2 right lo hi L R F c pc sc rc lsc Fc ->
  exists lo' L' F' pa sA rA lsA FA,
    nodes t root H path h id p s1 k s2 right lo' hi L' R F' a pa sA rA lsA FA c pc sc rc lsc Fc /\
    sA <> [] /\ L ++ lsc ++ R = L' ++ lsA ++ lsc ++ R /\
    F ∪ ({[c]} ∪ Fc) = F' ∪ ({[a]} ∪ FA) ∪ ({[c]} ∪ Fc).
Proof.
  intros [Hslot Hch Hn D Hroot _].
  destruct (slot_left _ _ _ _ _ _ _ _ _ _ _ _ _ _ _ _ _ _ Hslot)
    as (lo' & L' & lsa & Fa & F' & Hpair & Ta & -> & -> & -> & D').
  apply tree_node_in in Ta as (pa & sA & rA & FA & Hna & Hne & ->).
  exists lo', L', F', pa, sA, rA, lsa, FA. rewrite <-app_assoc.
  split; [split; try done; clear -D D'; set_solver|]. done.
Qed.

(** The page and its right neighbour *)
Lemma weak_right t root H path h id p s1 k a s2 right lo hi L R F c pc sc rc lsc Fc :
  weak t root H path h id p s1 ((k, a) :: s2) right lo hi L R F c pc sc rc lsc Fc ->
  exists hi' R' F' b pb sB rB lsB FB,
    nodes t root H path h id p s1 k s2 right lo hi' L R' F' c pc sc rc lsc Fc b pb sB rB lsB FB /\
    a = c /\ sB <> [] /\ L ++ lsc ++ R = L ++ lsc ++ lsB ++ R' /\
    F ∪ ({[c]} ∪ Fc) = F' ∪ ({[c]} ∪ Fc) ∪ ({[b]} ∪ FB).
Proof.
  intros [Hslot Hch Hn D Hroot _]. cbn [head_child] in Hch. subst a.
  destruct (slot_right _ _ _ _ _ _ _ _ _ _ _ _ _ _ _ _ _ _ Hslot)
    as (hi' & R' & lsb & Fb & F' & Hpair & Tb & -> & -> & -> & D').
  apply tree_node_in in Tb as (pb & sB & rB & FB & Hnb & Hne & ->).
  exists hi', R', F', (head_child s2 right), pb, sB, rB, lsb, FB.
  split; [split; try done; clear -D D'; set_solver|]. split_and!; try done. clear; set_solver.
Qed.

Lemma placed_after t t1 t2 H U ls : unchanged t t1 -> placed t1 t2 H U ls -> placed t t2 H U ls.
Proof.
  intros Un (St & Er & F' & Hp). split; [eapply settled_trans; [by apply settled_unchanged|done]|].
  split; [by rewrite Er, (same_root _ _ Un)|]. by exists F'.
Qed.

Lemma lost_after t t1 t2 H path h id U ls : unchanged t t1 -> lost t1 t2 H path h id U ls -> lost t t2 H path h id U ls.
Proof.
  intros Un (St & Er & F' & Hp). split; [eapply settled_trans; [by apply settled_unchanged|done]|].
  split; [by rewrite Er, (same_root _ _ Un)|]. by exists F'.
Qed.

(** The page [a] is there and too small to lend a separator. *)
Definition small (m : gmap Z bytes) (a : Z) : Prop :=
  forall pa ks cs, m !! a = Some pa -> read_interior_keys_children pa = Ok (ks, cs) ->
    interior_entries_size ks < interior_min_bytes + 359.

Lemma node_in_small m h lo hi c p seps right ls F :
  node_in m h lo hi c p seps right ls F ->
  interior_entries_size seps.*1 < interior_min_bytes + 359 <-> small m c.
Proof.
  intros Hn. destruct (node_in_read _ _ _ _ _ _ _ _ _ _ Hn) as [Er _]. destruct Hn as [A1 _ _ _ _ _]. split.
  - intros Hz pa ks cs Hp Hr. rewrite A1 in Hp. injection Hp as <-. rewrite Er in Hr. by injection Hr as <- _.
  - intros Hs. by eapply Hs.
Qed.

Lemma rotate_left_any t root H path h id p s1 s2 right lo hi L R F c pc sc rc lsc Fc :
  weak t root H path h id p s1 s2 right lo hi L R F c pc sc rc lsc Fc ->
  exists t' r,
    rotate_left crc32 c pc sc.*1 (sc.*2 ++ [rc]) id p (s1 ++ s2).*1 ((s1 ++ s2).*2 ++ [right]) (length s1) t
      = (t', Ok r) /\
    if (r : bool) then placed t t' H (F ∪ ({[c]} ∪ Fc)) (L ++ lsc ++ R)
    else unchanged t t' /\ forall s1' k a, s1 = s1' ++ [(k, a)] -> small (view t) a.
Proof.
  intros Hw. destruct s1 as [|[k a] s1 _] using rev_ind.
  { exists t, false. split; [done|]. split; [done|]. intros s1' k a E. by destruct s1'. }
  destruct (weak_left _ _ _ _ _ _ _ _ _ _ _ _ _ _ _ _ _ _ _ _ _ _ _ Hw)
    as (lo' & L' & F' & pa & sA & rA & lsA & FA & Hnd & Hne & -> & ->).
  assert (El : length (s1 ++ [(k, a)]) = Datatypes.S (length s1)) by (rewrite length_app; cbn; lia).
  rewrite El, <-!app_assoc. cbn [app].
  edestruct rotate_left_ok as (t' & r & E & Hr); [exact Hnd|apply Hw|exact Hne|].
  exists t', r. split; [exact E|]. destruct r; [exact Hr|]. destruct Hr as [Un Hz]. split; [done|].
  intros s1' k' a' Es. apply app_inj_tail in Es as [<- [= <- <-]].
  by apply (node_in_small _ _ _ _ _ _ _ _ _ _ (nd_a _ _ _ _ _ _ _ _ _ _ _ _ _ _ _ _ _ _ _ _ _ _ _ _ _ _ _ _ Hnd)).
Qed.

Lemma rotate_right_any t root H path h id p s1 s2 right lo hi L R F c pc sc rc lsc Fc :
  weak t root H path h id p s1 s2 right lo hi L R F c pc sc rc lsc Fc ->
  exists t' r,
    rotate_right crc32 c pc sc.*1 (sc.*2 ++ [rc]) id p (s1 ++ s2).*1 ((s1 ++ s2).*2 ++ [right]) (length s1) t
      = (t', Ok r) /\
    if (r : bool) then placed t t' H (F ∪ ({[c]} ∪ Fc)) (L ++ lsc ++ R)
    else unchanged t t' /\ forall k a s2', s2 = (k, a) :: s2' -> small (view t) (head_child s2' right).
Proof.
  intros Hw. destruct s2 as [|[k a] s2].
  { exists t, false. split; [|done]. unfold rotate_right. rewrite bool_decide_false; [done|].
    rewrite length_app, length_fmap, app_nil_r. cbn. lia. }
  destruct (weak_right _ _ _ _ _ _ _ _ _ _ _ _ _ _ _ _ _ _ _ _ _ _ _ Hw)
    as (hi' & R' & F' & b & pb & sB & rB & lsB & FB & Hnd & -> & Hne & -> & ->).
  edestruct rotate_right_ok as (t' & r & E & Hr); [exact Hnd|apply Hw|exact Hne|].
  exists t', r. split; [exact E|]. destruct r; [exact Hr|]. destruct Hr as [Un Hz]. split; [done|].
  intros k' a' s2' [= <- <- <-]. rewrite (nd_right _ _ _ _ _ _ _ _ _ _ _ _ _ _ _ _ _ _ _ _ _ _ _ _ _ _ _ _ Hnd).
  by apply (node_in_small _ _ _ _ _ _ _ _ _ _ (nd_b _ _ _ _ _ _ _ _ _ _ _ _ _ _ _ _ _ _ _ _ _ _ _ _ _ _ _ _ Hnd)).
Qed.

(** The two neighbours are merged. *)
Lemma read_merge_left t root H path h id p s1 k s2 right lo hi L R F a pa sA rA lsA FA b pb sB rB lsB FB :
  nodes t root H path h id p s1 k s2 right lo hi L R F a pa sA rA lsA FA b pb sB rB lsB FB ->
  interior_entries_size sB.*1 < interior_min_bytes -> small (view t) a ->
  exists t',
    (left_id ← lift (vec_get (length s1) ((s1 ++ (k, a) :: s2).*2 ++ [right]));
     left ← bt_read left_id;
     kc ← lift (read_interior_keys_children left);
     _ ← merge_interiors crc32 left_id left kc.1 kc.2 b sB.*1 (sB.*2 ++ [rB]) id p
           (s1 ++ (k, a) :: s2).*1 ((s1 ++ (k, a) :: s2).*2 ++ [right]) (length s1);
     mret (Some id)) t = (t', Ok (Some id)) /\
    lost t t' H path (Datatypes.S h) id (F ∪ ({[a]} ∪ FA) ∪ ({[b]} ∪ FB)) (L ++ lsA ++ lsB ++ R).
Proof.
  intros Hnd Hz Hsm. pose proof (nd_a _ _ _ _ _ _ _ _ _ _ _ _ _ _ _ _ _ _ _ _ _ _ _ _ _ _ _ _ Hnd) as Ha.
  apply (node_in_small _ _ _ _ _ _ _ _ _ _ Ha) in Hsm.
  destruct (nodes_children _ _ _ _ _ _ _ _ _ _ _ _ _ _ _ _ _ _ _ _ _ _ _ _ _ _ _ _ Hnd) as [Ec _].
  assert (Eg : vec_get (length s1) ((s1 ++ (k, a) :: s2).*2 ++ [right]) = Ok a :> BTreeResult Z).
  { rewrite Ec, <-(length_fmap snd s1). apply vec_get_middle. }
  rewrite (eff_bind_lift _ _ _ _ Eg). clear Eg Ec.
  destruct (bt_read_ok t _ _ (ni_page _ _ _ _ _ _ _ _ _ _ Ha)) as (t1 & E1 & U1). rewrite (eff_bind_ok _ _ _ _ _ E1).
  rewrite (eff_bind_lift _ _ _ _ (proj1 (node_in_read _ _ _ _ _ _ _ _ _ _ Ha))). clear E1. cbn [fst snd].
  pose proof (nodes_unchanged _ _ _ _ _ _ _ _ _ _ _ _ _ _ _ _ _ _ _ _ _ _ _ _ _ _ _ _ _ U1 Hnd) as Hnd1.
  edestruct merge_interiors_ok as (t2 & E2 & M2); [exact Hnd1|change interior_min_bytes with 4088 in *; lia|].
  rewrite (eff_bind_ok _ _ _ _ _ E2). exists t2. split; [done|]. by eapply lost_after.
Qed.

Lemma read_merge_right t root H path h id p s1 k s2 right lo hi L R F a pa sA rA lsA FA b pb sB rB lsB FB :
  nodes t root H path h id p s1 k s2 right lo hi L R F a pa sA rA lsA FA b pb sB rB lsB FB ->
  interior_entries_size sA.*1 < interior_min_bytes -> small (view t) b ->
  exists t',
    (right_id ← lift (vec_get (length s1 + 1) ((s1 ++ (k, a) :: s2).*2 ++ [right]));
     right_page ← bt_read right_id;
     kc ← lift (read_interior_keys_children right_page);
     _ ← merge_interiors crc32 a pa sA.*1 (sA.*2 ++ [rA]) right_id kc.1 kc.2 id p
           (s1 ++ (k, a) :: s2).*1 ((s1 ++ (k, a) :: s2).*2 ++ [right]) (length s1);
     mret (Some id)) t = (t', Ok (Some id)) /\
    lost t t' H path (Datatypes.S h) id (F ∪ ({[a]} ∪ FA) ∪ ({[b]} ∪ FB)) (L ++ lsA ++ lsB ++ R).
Proof.
  intros Hnd Hz Hsm. pose proof (nd_b _ _ _ _ _ _ _ _ _ _ _ _ _ _ _ _ _ _ _ _ _ _ _ _ _ _ _ _ Hnd) as Hb.
  apply (node_in_small _ _ _ _ _ _ _ _ _ _ Hb) in Hsm.
  pose proof (nodes_second _ _ _ _ _ _ _ _ _ _ _ _ _ _ _ _ _ _ _ _ _ _ _ _ _ _ _ _ Hnd) as Eg.
  rewrite (eff_bind_lift _ _ _ _ Eg). clear Eg.
  destruct (bt_read_ok t _ _ (ni_page _ _ _ _ _ _ _ _ _ _ Hb)) as (t1 & E1 & U1). rewrite (eff_bind_ok _ _ _ _ _ E1).
  rewrite (eff_bind_lift _ _ _ _ (proj1 (node_in_read _ _ _ _ _ _ _ _ _ _ Hb))). clear E1. cbn [fst snd].
  pose proof (nodes_unchanged _ _ _ _ _ _ _ _ _ _ _ _ _ _ _ _ _ _ _ _ _ _ _ _ _ _ _ _ _ U1 Hnd) as Hnd1.
  edestruct merge_interiors_ok as (t2 & E2 & M2); [exact Hnd1|change interior_min_bytes with 4088 in *; lia|].
  rewrite (eff_bind_ok _ _ _ _ _ E2). exists t2. split; [done|]. by eapply lost_after.
Qed.

(** The step is complete, or the page [id] has lost a separator. *)
Definition climbed t t' (r : option Z) (H : nat) (path : list Z) (h : nat) (id : Z) (U : gset Z) (ls : list leaf) : Prop :=
  match r with
  | None => placed t t' H U ls
  | Some x => x = id /\ lost t t' H path h id U ls
  end.

Lemma climbed_after t t1 t2 r H path h id U ls :
  unchanged t t1 -> climbed t1 t2 r H path h id U ls -> climbed t t2 r H path h id U ls.
Proof. destruct r; cbn; [|apply placed_after]. intros Un [-> Hm]. split; [done|]. by eapply lost_after. Qed.

Lemma fill_interior_ok t root H path h id p s1 s2 right lo hi L R F c pc sc rc lsc Fc :
  weak t root H path h id p s1 s2 right lo hi L R F c pc sc rc lsc Fc -> s1 ++ s2 <> [] ->
  exists t' r, fill_interior crc32 c pc sc.*1 (sc.*2 ++ [rc]) id p (s1 ++ s2).*1 ((s1 ++ s2).*2 ++ [right])
      (length s1) t = (t', Ok r) /\
    climbed t t' r H path (Datatypes.S h) id (F ∪ ({[c]} ∪ Fc)) (L ++ lsc ++ R).
Proof.
  intros Hw Hs0. unfold fill_interior.
  destruct (rotate_left_any _ _ _ _ _ _ _ _ _ _ _ _ _ _ _ _ _ _ _ _ _ Hw) as (t1 & r1 & E1 & B1).
  rewrite (eff_bind_ok _ _ _ _ _ E1). clear E1. destruct r1; [by exists t1, None|]. destruct B1 as [U1 B1].
  pose proof (weak_unchanged _ _ _ _ _ _ _ _ _ _ _ _ _ _ _ _ _ _ _ _ _ _ U1 Hw) as Hw1.
  destruct (rotate_right_any _ _ _ _ _ _ _ _ _ _ _ _ _ _ _ _ _ _ _ _ _ Hw1) as (t2 & r2 & E2 & B2).
  rewrite (eff_bind_ok _ _ _ _ _ E2). clear E2.
  destruct r2; [exists t2, None; split; [done|]; by eapply placed_after|].
  destruct B2 as [U2 B2]. assert (U12 : unchanged t t2) by (by etrans).
  pose proof (weak_unchanged _ _ _ _ _ _ _ _ _ _ _ _ _ _ _ _ _ _ _ _ _ _ U2 Hw1) as Hw2.
  rewrite <-(same_pages _ _ U12) in B1. rewrite <-(same_pages _ _ U2) in B2. pose proof (wk_small _ _ _ _ _ _ _ _ _ _ _ _ _ _ _ _ _ _ _ _ _ Hw) as Hz.
  destruct s1 as [|[k a] s1 _] using rev_ind.
  - destruct s2 as [|[k a] s2]; [done|]. cbn [app length] in *.
    destruct (weak_right _ _ _ _ _ _ _ _ _ _ _ _ _ _ _ _ _ _ _ _ _ _ _ Hw2)
      as (hi' & R' & F' & b & pb & sB & rB & lsB & FB & Hnd & -> & Hne & -> & ->).
    specialize (B2 _ _ _ eq_refl). rewrite (nd_right _ _ _ _ _ _ _ _ _ _ _ _ _ _ _ _ _ _ _ _ _ _ _ _ _ _ _ _ Hnd) in B2.
    rewrite bool_decide_true by (rewrite length_app, fmap_cons; cbn; lia).
    destruct (read_merge_right _ _ _ _ _ _ _ _ _ _ _ _ _ _ _ _ _ _ _ _ _ _ _ _ _ _ _ _ Hnd Hz B2) as (t3 & E3 & M3).
    exists t3, (Some id). split; [exact E3|]. split; [done|]. by eapply lost_after.
  - destruct (weak_left _ _ _ _ _ _ _ _ _ _ _ _ _ _ _ _ _ _ _ _ _ _ _ Hw2)
      as (lo' & L' & F' & pa & sA & rA & lsA & FA & Hnd & Hne & -> & ->).
    assert (El : length (s1 ++ [(k, a)]) = Datatypes.S (length s1)) by (rewrite length_app; cbn; lia).
    rewrite El, <-!app_assoc. cbn [app]. specialize (B1 _ _ _ eq_refl).
    destruct (read_merge_left _ _ _ _ _ _ _ _ _ _ _ _ _ _ _ _ _ _ _ _ _ _ _ _ _ _ _ _ Hnd Hz B1) as (t3 & E3 & M3).
    exists t3, (Some id). split; [exact E3|]. split; [done|]. by eapply lost_after.
Qed.
(** ** Up to the root *)

(** The leaves form a tree again, perhaps one that is less high. *)
Definition regrown t t' (U : gset Z) (ls : list leaf) : Prop :=
  settled t t' U /\ exists H' F', tree K (view t') H' None None (root_page_id t') ls F' /\ F' ⊆ U.

Lemma placed_regrown t t' H U ls : placed t t' H U ls -> regrown t t' U ls.
Proof. intros (St & _ & F' & Ht & Hs). split; [done|]. by exists H, F'. Qed.

Lemma regrown_after t t1 t2 U ls : settled t t1 U -> regrown t1 t2 U ls -> regrown t t2 U ls.
Proof. intros St (St2 & Ht). split; [by eapply settled_trans|done]. Qed.

Lemma regrown_mono t t' U U' ls : regrown t t' U ls -> U ⊆ U' -> regrown t t' U' ls.
Proof.
  intros (St & H' & F' & Ht & Hs) Hsub. split; [by eapply settled_mono|]. exists H', F'. split; [done|by etrans].
Qed.

(** The outcome of a step at a page under the pages of [path] *)
Definition risen t t' (r : option Z) (H : nat) (path : list Z) (h : nat) (U : gset Z) (ls : list leaf) : Prop :=
  match r with
  | None => regrown t t' U ls
  | Some x => exists path', path = path' ++ [x] /\ lost t t' H path' h x U ls
  end.

(** The root without a separator gives way to its child. *)
Lemma shrink_root_ok t h id p right ls F :
  node_in (view t) h None None id p [] right ls F ->
  exists t', (_ ← bt_free id; _ ← set_root right; mret None) t = (t', Ok (@None Z)) /\
    regrown t t' ({[id]} ∪ F) ls.
Proof.
  intros [A1 A2 A3 A4 A5 A6]. apply kids_nil_inv in A5.
  destruct (bt_free_ok t id) as (t1 & E1 & W1); [rewrite A1; by eexists|]. rewrite (eff_bind_ok _ _ _ _ _ E1).
  rewrite (eff_bind_ok (set_root right) _ t1 (set_root right t1).1 tt eq_refl).
  eexists. split; [reflexivity|]. pose proof (settled_freed _ _ ({[id]} ∪ F) _ W1 ltac:(sets)) as [S1 S2 S3].
  split; [by split|]. exists h, F. split; [|sets]. eapply tree_frame; [exact A5|].
  intros x Hx. change (view t1 !! x = view t !! x). rewrite (freed_pages _ _ _ W1), lookup_delete_ne; [done|].
  by intros ->.
Qed.

Lemma ctx_top_inv m root H h id lo hi L R F :
  ctx K m root H [] h id lo hi L R F ->
  h = H /\ lo = None /\ hi = None /\ L = [] /\ R = [] /\ F = ∅ /\ id = root.
Proof.
  intros Hc. remember (@nil Z) as path eqn:E. destruct Hc as [|path| path]; [done|by destruct path..].
Qed.

Lemma rebalance_interior_step_ok t H path h id ls F :
  loose K (view t) (root_page_id t) H path h id ls F ->
  exists t' r, rebalance_interior_step crc32 id path t = (t', Ok r) /\ risen t t' r H path (Datatypes.S h) F ls.
Proof.
  intros (lo & hi & L & R & F0 & p & seps & right & lsk & Fk & Hc & Hp & Hid & Hn & Hf & Hk & D1 & D2 & D3 & -> & ->).
  assert (Hnode : node_in (view t) h lo hi id p seps right lsk Fk) by (by split).
  unfold rebalance_interior_step. rewrite (eff_bind_ok get_root _ t t (root_page_id t) eq_refl).
  destruct (bt_read_ok t _ _ Hp) as (t1 & E1 & U1). rewrite (eff_bind_ok _ _ _ _ _ E1). clear E1.
  destruct (node_in_read _ _ _ _ _ _ _ _ _ _ Hnode) as [Er _]. rewrite (eff_bind_lift _ _ _ _ Er). clear Er.
  rewrite <-(same_pages _ _ U1) in Hnode.
  assert (Hplug : seps <> [] -> placed t t1 H (F0 ∪ ({[id]} ∪ Fk)) (L ++ lsk ++ R)).
  { intros Hne. split; [by apply settled_unchanged|]. split; [apply (same_root _ _ U1)|].
    eexists. split; [|reflexivity]. rewrite (same_pages _ _ U1), (same_root _ _ U1).
    eapply ctx_plug; [exact Hc|by eapply kids_tree|clear -D1 D3; set_solver]. }
  destruct (Z.eqb_spec id (root_page_id t)) as [Eid|Eid].
  - destruct (ctx_root_in _ _ _ _ _ _ _ _ _ _ _ _ Hc) as [[-> _]|[_ Hin]]; [|by rewrite <-Eid in Hin].
    pose proof Hc as Ht. apply ctx_top_inv in Ht as (-> & -> & -> & -> & -> & -> & _). cbn [app] in *. rewrite app_nil_r.
    destruct (bool_decide_reflect (seps.*1 = [])) as [En|En].
    + apply fmap_nil_inv in En as ->. cbn [app fmap list_fmap head default].
      destruct (shrink_root_ok _ _ _ _ _ _ _ Hnode) as (t2 & E2 & R2).
      exists t2, None. split; [exact E2|]. eapply regrown_after; [by apply settled_unchanged|].
      eapply regrown_mono; [exact R2|sets].
    + exists t1, None. split; [done|]. rewrite app_nil_r in Hplug. eapply placed_regrown, Hplug. by intros ->.
  - destruct (ctx_root_in _ _ _ _ _ _ _ _ _ _ _ _ Hc) as [[_ ?]|[Hne _]]; [done|].
    destruct (Z.leb_spec interior_min_bytes (interior_entries_size seps.*1)) as [Hz|Hz].
    { exists t1, None. split; [done|]. eapply placed_regrown, Hplug. intros ->. by vm_compute in Hz. }
    destruct (exists_last Hne) as (path' & x & ->). rewrite last_snoc.
    destruct (ctx_slot _ _ _ _ _ _ _ _ _ _ _ _ _ Hc) as (q & s1 & s2 & rt & Hslot & Hch & Hs0).
    destruct (slot_page _ _ _ _ _ _ _ _ _ _ _ _ _ _ _ _ Hslot) as (Hq & Hx & Hnq & Hfq & HxF).
    destruct (bt_read_ok t1 x q) as (t2 & E2 & U2); [by rewrite (same_pages _ _ U1)|].
    rewrite (eff_bind_ok _ _ _ _ _ E2). clear E2. assert (Un : unchanged t t2) by (by etrans).
    rewrite (eff_bind_lift _ _ _ _ (read_interior_keys_children_spec _ _ _ (proj1 (proj2 (proj2 Hnq))) (or_introl Hs0))).
    rewrite Hch, (slot_index _ _ _ _ _ _ _ _ _ _ _ _ _ _ _ _ Hslot) by (by rewrite <-Hch).
    cbn [ok_or]. rewrite (eff_bind_lift _ _ _ _ eq_refl), <-Hch.
    destruct (fill_interior_ok t2 (root_page_id t) H path' h x q s1 s2 rt lo hi L R F0 id p seps right lsk Fk)
      as (t3 & r & E3 & C3); [|done|].
    { split; [by rewrite (same_pages _ _ Un)|done|by rewrite (same_pages _ _ U2)| |apply (same_root _ _ Un)|done].
      clear -D1 D3; set_solver. }
    exists t3, r. split; [exact E3|]. eapply climbed_after in C3; [|exact Un].
    destruct r as [y|]; [|by eapply placed_regrown]. destruct C3 as [-> C3]. by exists path'.
Qed.

Lemma rebalance_ancestors_ok path t H h id ls F :
  loose K (view t) (root_page_id t) H path h id ls F ->
  exists t', rebalance_ancestors crc32 (rev path) id t = (t', Ok tt) /\ regrown t t' F ls.
Proof.
  revert t h id F. induction path as [|x path IH] using rev_ind; intros t h id F Hl.
  - destruct (rebalance_interior_step_ok _ _ _ _ _ _ _ Hl) as (t1 & r & E1 & R1). cbn [rev rebalance_ancestors].
    rewrite (eff_bind_ok _ _ _ _ _ E1). exists t1. destruct r as [y|]; [|done].
    destruct R1 as (path' & ? & _). by destruct path'.
  - destruct (rebalance_interior_step_ok _ _ _ _ _ _ _ Hl) as (t1 & r & E1 & R1).
    rewrite rev_unit. cbn [rebalance_ancestors]. rewrite <-rev_unit, rev_involutive, (eff_bind_ok _ _ _ _ _ E1).
    destruct r as [y|]; [|by exists t1]. destruct R1 as (path' & Ep & St & Er & F' & Hl' & Hs).
    apply app_inj_tail in Ep as [<- <-].
    destruct (IH _ _ _ _ Hl') as (t2 & E2 & R2). exists t2. split; [exact E2|].
    eapply regrown_after; [exact St|]. by eapply regrown_mono.
Qed.
End laws.
