(* ===== verification/BTreeDelete.v ===== *)
(** * Deletion from a B+ tree

    The deletion of an entry, with the overflow chain of its value and the rebalancing
    it causes, keeps the invariant of the tree and removes exactly that entry. *)

From S2P Require Import Prelude FileFormat Page PageStore Overflow ValueLayout Slots Leaf Interior BTree Delete Tree BTreeRead Splits Siblings BTreeInsert Rebalance Rotate.
From Stdlib Require Import ZArith Lia.

Lemma elem_of_delete_entry i e es : e ∈ delete_entry i es -> e ∈ es.
Proof.
  unfold delete_entry. rewrite elem_of_app. intros [He|He]; [by eapply subseteq_take|by eapply subseteq_drop].
Qed.

Lemma delete_entry_sorted i es : StronglySorted blt es.*1 -> StronglySorted blt (delete_entry i es).*1.
Proof.
  intros Hs. destruct (decide (i < length es)%nat) as [Hi|Hi].
  - destruct (lookup_lt_is_Some_2 _ _ Hi) as [e E]. rewrite <-(take_drop_middle _ _ _ E) in Hs.
    unfold delete_entry. rewrite fmap_app in Hs |- *. apply sorted_app in Hs as (S1 & S2 & S12).
    apply sorted_app. cbn in S2, S12. inversion S2; subst. split_and!; [done|done|].
    eapply Forall_impl; [exact S12|]. cbn. by intros x [_ ?]%Forall_cons.
  - unfold delete_entry. by rewrite take_ge, drop_ge, app_nil_r by lia.
Qed.

Section laws.
Context {S : Type} `{HS : PageStore S} `{!PageStoreLaws S}.
Context (crc32 : bytes -> Z) (K : key_sizes).
Implicit Types t : BTree S.
Context (Hu : shortest K = longest K) (HK : longest K <= 353).

(** The leaves form a tree again, with the same entries. *)
Definition rebalanced t t' (U : gset Z) (es : list entry) : Prop :=
  settled t t' U /\
  exists H' ls' F', tree K (view t') H' None None (root_page_id t') ls' F' /\ F' ⊆ U /\
    contents ls' = es /\ linked 0 ls' 0.

Lemma rebalance_leaf_ok t root H path lo hi L R F l pl :
  ctx K (view t) root H path 0 (lf_id l) lo hi L R F ->
  view t !! lf_id l = Some pl -> leaf_at pl l -> page_number (lf_id l) -> (lf_id l ∉ F) ->
  StronglySorted blt (lf_entries l).*1 ->
  Forall (fun e => above lo e.1 /\ below e.1 hi /\ entry_fits K e) (lf_entries l) ->
  (exists y, above lo y /\ below y hi) -> linked 0 (L ++ l :: R) 0 -> root_page_id t = root ->
  (path = [] -> lf_entries l <> []) ->
  exists t', rebalance_leaf crc32 (lf_id l) path t = (t', Ok tt) /\
    rebalanced t t' (F ∪ {[lf_id l]}) (contents (L ++ l :: R)).
Proof.
  intros Hc Hp Hl Hnum Hout Hs Hf Hbd Hli Hroot Hne. unfold rebalance_leaf.
  destruct path as [|id path _] using rev_ind.
  - exists t. split; [done|]. split; [by apply settled_unchanged|]. exists H, (L ++ l :: R), (F ∪ {[lf_id l]}).
    split_and!; [|done..]. rewrite Hroot. change (L ++ l :: R) with (L ++ [l] ++ R).
    eapply ctx_plug; [exact Hc| |clear -Hout; set_solver]. apply (tree_leaf K _ _ _ pl); auto.
  - destruct (rebalance_leaf_step_ok crc32 K Hu HK t root H path id lo hi L R F l pl Hc Hp Hl Hnum Hout Hs Hf Hbd Hli Hroot)
      as (t1 & r & E1 & St1). rewrite (eff_bind_ok _ _ _ _ _ E1). clear E1. destruct r as [x|]; cbn in St1.
    + destruct St1 as (-> & St & Er & ls' & F' & Hlo & Hsub & Ec & Hli').
      unfold rebalance_interior. rewrite removelast_last.
      destruct (rebalance_ancestors_ok crc32 K Hu HK path t1 H 0 id ls' F' Hlo)
        as (t2 & E2 & St2 & H2 & F2 & T2 & Hs2). exists t2. split; [exact E2|].
      split; [eapply settled_trans; [exact St|by eapply settled_mono]|].
      exists H2, ls', F2. split_and!; [done|by etrans|done|done].
    + destruct St1 as (St & Er & ls' & F' & T & Hsub & Ec & Hli'). exists t1. split; [done|].
      split; [done|]. by exists H, ls', F'.
Qed.

Context (lz4_decompress : bytes -> Z -> string + bytes) (fuel : nat).

(** The pages [ids] are free. *)
Record dropped t t' (ids : list Z) : Prop := {
  dropped_pages : forall x, view t' !! x = if decide (x ∈ ids) then None else view t !! x;
  dropped_root : root_page_id t' = root_page_id t;
  dropped_cache : rightmost_leaf t' = rightmost_leaf t;
  dropped_room : forall n, room (pager t) n -> room (pager t') n;
}.

Lemma dropped_kept t t' ids x : dropped t t' ids -> x ∉ ids -> view t' !! x = view t !! x.
Proof. intros [Hd _ _ _] Hx. by rewrite Hd, decide_False. Qed.

Lemma free_chain_if_pointer_ok t stored v ids :
  value_at lz4_decompress (view t) stored v ids -> (length ids <= fuel)%nat ->
  exists t', free_chain_if_pointer fuel stored t = (t', Ok tt) /\ dropped t t' ids.
Proof.
  unfold value_at, free_chain_if_pointer, pointer_head, btree_value_pointer_head. intros Hv Hf.
  destruct (decode_btree_value_cell stored) as [[c payload|c head total]| |]; try done.
  - destruct Hv as [_ ->]. exists t. by split.
  - destruct Hv as (bs & Hch & Hnd & _). destruct (free_ok fuel head ids bs (pager t) Hch Hnd Hf) as (s' & E & Hp & Hr).
    exists (set_pager s' t). split; [by apply within_ok|by split].
Qed.

(** The tree [t'] has the entries [es] in pages of [U], the pages [ids] are free. *)
Record deleted t t' (U : gset Z) (ids : list Z) (ls' : list leaf) (F' : gset Z) (es : list entry) : Prop := {
  del_ok : btree_ok K t' ls' F';
  del_pages : F' ⊆ U;
  del_contents : contents ls' = es;
  del_frame : forall x, x ∉ U -> x ∉ ids -> view t' !! x = view t !! x;
  del_room : forall n, room (pager t) n -> room (pager t') n;
}.

(** ** The leaf without the entry *)

Lemma delete_from_leaf_ok p l i :
  leaf_at p l -> (i < length (lf_entries l))%nat ->
  exists p', delete_from_leaf p (Z.of_nat i) = Ok p' /\ leaf_at p' (with_entries l (delete_entry i (lf_entries l))).
Proof.
  intros Hl Hi. pose proof (delete_from_leaf_spec p (lf_entries l) i (proj2 (proj2 (proj2 (proj2 Hl))))) as Hd.
  rewrite decide_True in Hd by done. destruct Hd as (p' & E & Hr & Hfr). exists p'. split; [done|].
  exact (leaf_at_cells p p' _ _ _ _ (leaf_at_head _ _ Hl) Hfr Hr).
Qed.

Lemma linked_with_entries L l R es : linked 0 (L ++ l :: R) 0 -> linked 0 (L ++ with_entries l es :: R) 0.
Proof. intros Hli. apply linked_app in Hli as [A1 A2]. apply linked_app. by split. Qed.

(** The emptied root is freed. *)
Lemma drop_root_ok t t0 U ids root :
  is_Some (view t !! root) -> rightmost_leaf t = None -> root ∈ U ->
  (forall x, x ∉ U -> x ∉ ids -> view t !! x = view t0 !! x) ->
  (forall n, room (pager t0) n -> room (pager t) n) ->
  exists t', (_ ← bt_free root; set_root 0) t = (t', Ok tt) /\ deleted t0 t' U ids [] ∅ [].
Proof.
  intros Hi Hc HU Hfr Hroom. destruct (bt_free_ok t root Hi) as (t1 & E1 & W1). rewrite (eff_bind_ok _ _ _ _ _ E1).
  eexists. split; [reflexivity|]. destruct W1 as [W1 W2 W3 W4]. split; [| |done| |].
  - constructor; [done|]. cbn. by rewrite W3.
  - sets.
  - intros x Hx Hxi. change (view t1 !! x = view t0 !! x). rewrite W1, lookup_delete_ne; [by apply Hfr|].
    by intros ->.
  - intros n Hn. change (room (pager t1) n). auto.
Qed.

Lemma delete_found_ok t root H path l lo hi L R F key i stored p v ids :
  found K (view t) root H path l lo hi L R F key -> linked 0 (L ++ l :: R) 0 ->
  view t !! lf_id l = Some p -> leaf_at p l -> lf_entries l !! i = Some (key, stored) ->
  value_at lz4_decompress (view t) stored v ids -> (length ids <= fuel)%nat ->
  F ∪ {[lf_id l]} ## list_to_set ids -> root_page_id t = root ->
  exists t' ls' F', delete_found crc32 fuel root (lf_id l) path p (Z.of_nat i) t = (t', Ok tt) /\
    deleted t t' (F ∪ {[lf_id l]}) ids ls' F' (contents L ++ delete_entry i (lf_entries l) ++ contents R).
Proof.
  intros Hfd Hli Hp Hl Hi Hv Hfu D Hroot. unfold delete_found.
  rewrite (eff_bind_lift _ _ _ _ (leaf_rep_read _ _ _ _ (proj2 (proj2 (proj2 (proj2 Hl)))) Hi)).
  destruct (free_chain_if_pointer_ok t stored v ids Hv Hfu) as (t1 & E1 & W1). cbn [snd].
  rewrite (eff_bind_ok _ _ _ _ _ E1). clear E1.
  destruct (delete_from_leaf_ok p l i Hl (lookup_lt_Some _ _ _ Hi)) as (p' & E2 & Hl2).
  rewrite (eff_bind_lift _ _ _ _ E2). clear E2. cbv zeta.
  pose proof (leaf_at_resealed _ _ _ (resealed_update_checksum crc32 p') Hl2) as Hl3.
  remember (update_checksum crc32 p') as p3 eqn:E3. clear E3 Hl2. pose proof Hl3 as (_ & Hid3 & _ & _ & _ & Hcnt).
  cbn [with_entries lf_id lf_entries] in Hid3, Hcnt. rewrite Hid3, Hcnt.
  assert (Hk : forall x, x ∈ F ∪ {[lf_id l]} -> view t1 !! x = view t !! x).
  { intros x Hx. apply (dropped_kept _ _ _ _ W1). intros Hin. apply (D x Hx). by apply elem_of_list_to_set. }
  destruct (bt_write_ok t1 (lf_id l) p3) as (t2 & q & E2 & W2); [rewrite Hk, Hp by sets; by eexists|exact (leaf_at_len _ _ Hl3)|exact (proj1 (proj2 Hl3))|].
  rewrite (eff_bind_ok _ _ _ _ _ E2). clear E2.
  pose proof (leaf_at_resealed _ _ _ (written_seal _ _ _ _ _ W2) Hl3) as Hq.
  remember (set_rightmost None t2).1 as t3 eqn:E3.
  rewrite (eff_bind_ok (set_rightmost None) _ t2 t3 tt) by (by rewrite E3).
  assert (V3 : view t3 = <[lf_id l := q]> (view t1)) by (rewrite E3; apply (written_pages _ _ _ _ _ W2)).
  assert (R3 : root_page_id t3 = root).
  { rewrite E3. cbn. by rewrite (written_root _ _ _ _ _ W2), (dropped_root _ _ _ W1). }
  assert (C3 : rightmost_leaf t3 = None) by (by rewrite E3).
  assert (M3 : forall n, room (pager t) n -> room (pager t3) n).
  { intros n Hn. rewrite E3. cbn. by apply (written_room _ _ _ _ _ W2), (dropped_room _ _ _ W1). }
  clear E3.
  assert (Fr : forall x, x ∉ F ∪ {[lf_id l]} -> x ∉ ids -> view t3 !! x = view t !! x).
  { intros x Hx Hxi. rewrite V3, lookup_insert_ne by (intros <-; sets). by apply (dropped_kept _ _ _ _ W1). }
  destruct (found_entries _ _ _ _ _ _ _ _ _ _ _ _ Hfd) as (Hs & _ & Hf & Hnum & _). destruct Hfd as [Hc _ Hout Ha Hb].
  assert (Vl : view t3 !! lf_id l = Some q) by (by rewrite V3, lookup_insert, decide_True).
  destruct ((zlen (delete_entry i (lf_entries l)) =? 0) && (lf_id l =? root)) eqn:Er.
  - apply andb_true_iff in Er as [Ez Er]. apply Z.eqb_eq in Ez, Er. apply zlen_nil_inv in Ez.
    destruct (ctx_root_in _ _ _ _ _ _ _ _ _ _ _ _ Hc) as [[-> _]|[_ Hin]]; [|by rewrite <-Er in Hin].
    destruct (ctx_top_inv _ _ _ _ _ _ _ _ _ _ _ Hc) as (_ & _ & _ & -> & -> & -> & _). rewrite Ez.
    destruct (drop_root_ok t3 t (∅ ∪ {[lf_id l]}) ids root) as (t4 & E4 & D4);
      [rewrite <-Er, Vl; by eexists|done|rewrite <-Er; sets|done|done|].
    exists t4, [], ∅. by split.
  - destruct (rebalance_leaf_ok t3 root H path lo hi L R F (with_entries l (delete_entry i (lf_entries l))) q)
      as (t4 & E4 & [S1 S2 S3] & H4 & ls4 & F4 & T4 & Hsub & Ec & Hli4);
      cbn [with_entries lf_id lf_entries]; try done.
    + eapply ctx_frame; [exact Hc|]. intros x Hx. rewrite V3, lookup_insert_ne by (by intros <-). apply Hk. sets.
    + by apply delete_entry_sorted.
    + rewrite Forall_forall in Hf |- *. intros e He. apply Hf. by eapply elem_of_delete_entry.
    + by exists key.
    + by apply linked_with_entries.
    + intros -> En. destruct (ctx_top_inv _ _ _ _ _ _ _ _ _ _ _ Hc) as (_ & _ & _ & _ & _ & _ & Eid).
      rewrite En, Eid, zlen_nil, !Z.eqb_refl in Er. done.
    + exists t4, ls4, F4. split; [exact E4|]. split; [| done | | |auto].
      * apply (btree_root K t4 H4); [done|done|]. by rewrite S2, C3.
      * by rewrite Ec, contents_middle.
      * intros x Hx Hxi. rewrite S1 by done. by apply Fr.
Qed.

(** ** From the root *)

Lemma deleted_after t t1 t2 U ids ls' F' es :
  unchanged t t1 -> deleted t1 t2 U ids ls' F' es -> deleted t t2 U ids ls' F' es.
Proof.
  intros Un [A1 A2 A3 A4 A5]. split; [done..| |].
  - intros x Hx Hi. by rewrite A4, (same_pages _ _ Un).
  - intros n Hn. by apply A5, (same_room _ _ Un).
Qed.

(** A leaf of the walk that does not have the key *)
Lemma delete_hop t n root path l p key :
  view t !! lf_id l = Some p -> leaf_at p l -> StronglySorted blt (lf_entries l).*1 -> key ∉ (lf_entries l).*1 ->
  exists t', unchanged t t' /\
    delete_hops crc32 fuel (Datatypes.S n) root (lf_id l) path key t =
      match beyond_spec l key with
      | Some next => delete_hops crc32 fuel n root next path key t'
      | None => (t', Ok false)
      end.
Proof.
  intros Hp Hl Hs Hni. cbn [delete_hops]. destruct (bt_read_ok t _ _ Hp) as (t1 & E1 & U1).
  rewrite (eff_bind_ok _ _ _ _ _ E1). exists t1. split; [done|].
  destruct (search_leaf_spec p _ key (proj2 (proj2 (proj2 (proj2 Hl)))) Hs) as [(i & v & E & Hi)|(c & E & Hc)].
  { exfalso. apply Hni, list_elem_of_fmap. exists (key, v). split; [done|]. by eapply list_elem_of_lookup_2. }
  rewrite (eff_bind_lift _ _ _ _ E), (eff_bind_ok _ _ _ _ _ (beyond_ok t1 p l key Hl)).
  by destruct (beyond_spec l key).
Qed.

Lemma delete_hops_absent t n root H path l lo hi L R F key :
  found K (view t) root H path l lo hi L R F key ->
  Forall (leaf_ok K (view t)) (L ++ l :: R) -> linked 0 (L ++ l :: R) 0 ->
  key ∉ (contents (L ++ l :: R)).*1 ->
  exists t', unchanged t t' /\ delete_hops crc32 fuel (2 + n) root (lf_id l) path key t = (t', Ok false).
Proof.
  intros Hfd Hok Hli Hni. destruct (found_keys _ _ _ _ _ _ _ _ _ _ _ _ Hfd) as [_ HR].
  rewrite contents_middle, !fmap_app, !not_elem_of_app in Hni. destruct Hni as (_ & Hni & HniR).
  apply Forall_app in Hok as [_ [((p & Hp & Hat) & _ & _ & Hs & _) HokR]%Forall_cons].
  destruct (delete_hop t (1 + n) root path l p key Hp Hat Hs Hni) as (t1 & U1 & E1). cbn [Nat.add].
  cbn [Nat.add] in E1. rewrite E1. clear E1.
  unfold beyond_spec. apply linked_app in Hli as [_ (_ & Hnx & _)].
  destruct (negb (lf_next l =? 0)) eqn:En; [|by exists t1].
  destruct (last (lf_entries l).*1) as [high|]; [|by exists t1]. case_bool_decide; [|by exists t1].
  destruct R as [|l2 R]; cbn [first_id] in Hnx; [by rewrite Hnx in En|]. rewrite Hnx.
  apply Forall_cons in HokR as [((p2 & Hp2 & Hat2) & _ & _ & Hs2 & _) _]. rewrite <-(same_pages _ _ U1) in Hp2.
  change (contents (l2 :: R)) with (lf_entries l2 ++ contents R) in *.
  rewrite fmap_app, not_elem_of_app in HniR. apply Forall_app in HR as [HR _].
  destruct (delete_hop t1 n root path l2 p2 key Hp2 Hat2 Hs2 (proj1 HniR)) as (t2 & U2 & E2).
  exists t2. rewrite E2, (beyond_next l2 key) by done. split; [by etrans|done].
Qed.

Lemma delete_absent t ls F key :
  btree_ok K t ls F -> key ∉ (contents ls).*1 ->
  exists t', delete crc32 fuel key t = (t', Ok false) /\ unchanged t t'.
Proof.
  intros Hok Hni. unfold delete. rewrite (eff_bind_ok get_root _ t t (root_page_id t) eq_refl).
  destruct Hok as [Hr0 _|H ls F Ht Hli _]; [rewrite Hr0; by exists t|].
  destruct (tree_root_number _ _ _ _ _ _ _ _ Ht) as [Hn0 _]. rewrite (proj2 (Z.eqb_neq _ _)) by done.
  destruct (find_leaf_ok K t _ H ls F key Ht) as (t1 & l & path & lo & hi & L & R & F' & E1 & U1 & Hfd & -> & _).
  rewrite (eff_bind_ok _ _ _ _ _ E1). cbn [fst snd]. pose proof (leaves_ok _ _ _ _ _ _ Ht) as Hlv.
  rewrite <-(same_pages _ _ U1) in Hfd, Hlv.
  destruct (delete_hops_absent t1 30 _ _ _ _ _ _ _ _ _ _ Hfd Hlv Hli Hni) as (t2 & U2 & E2).
  exists t2. split; [exact E2|by etrans].
Qed.

Lemma delete_present t ls F key :
  btree_ok K t ls F -> key ∈ (contents ls).*1 ->
  exists A stored B, contents ls = A ++ (key, stored) :: B /\
    forall v ids, value_at lz4_decompress (view t) stored v ids -> (length ids <= fuel)%nat ->
      F ## list_to_set ids ->
      exists t' ls' F', delete crc32 fuel key t = (t', Ok true) /\ deleted t t' F ids ls' F' (A ++ B).
Proof.
  intros Hok Hin. destruct Hok as [Hr0 _|H ls F Ht Hli _]; [by apply elem_of_nil in Hin|].
  destruct (locate_ok K t _ H ls F key Ht) as
    (t1 & t2 & l & path & lo & hi & L & R & F' & p & E1 & E2 & U & Hfd & -> & -> & Hp & Hl).
  destruct (found_entries _ _ _ _ _ _ _ _ _ _ _ _ Hfd) as (Hs & _).
  pose proof (found_in _ _ _ _ _ _ _ _ _ _ _ _ Hfd Hin) as Hk.
  destruct (search_leaf_spec p _ key (proj2 (proj2 (proj2 (proj2 Hl)))) Hs) as [(i & stored & E & Hi)|(c & E & Hc)].
  2:{ exfalso. by eapply insertion_point_not_in. }
  exists (contents L ++ take i (lf_entries l)), stored, (drop (Datatypes.S i) (lf_entries l) ++ contents R). split.
  { rewrite contents_middle. rewrite <-(take_drop_middle _ _ _ Hi) at 1. by rewrite <-!app_assoc. }
  intros v ids Hv Hfu D. rewrite <-(same_pages _ _ U) in Hv.
  destruct (delete_found_ok t2 (root_page_id t) H path l lo hi L R F' key i stored p v ids Hfd Hli Hp Hl Hi Hv Hfu D
    (same_root _ _ U)) as (t3 & ls' & F2 & E3 & D3).
  exists t3, ls', F2. split.
  - unfold delete. rewrite (eff_bind_ok get_root _ t t (root_page_id t) eq_refl).
    destruct (tree_root_number _ _ _ _ _ _ _ _ Ht) as [Hn0 _]. rewrite (proj2 (Z.eqb_neq _ _)) by done.
    rewrite (eff_bind_ok _ _ _ _ _ E1). change MAX_RIGHTLINK_HOPS with 32%nat. cbn [fst snd delete_hops].
    rewrite (eff_bind_ok _ _ _ _ _ E2), (eff_bind_lift _ _ _ _ E). by rewrite (eff_bind_ok _ _ _ _ _ E3).
  - unfold delete_entry in D3. rewrite <-!app_assoc in D3 |- *. by eapply deleted_after.
Qed.
End laws.
