(* ===== verification/BTreeMap.v ===== *)
(** * The B+ tree as a map

    A tree over a page store represents a finite map from keys to values.  The
    theorems say what the operations do to that map, with the values encoded,
    compressed and spilled to overflow chains. *)

From S2P Require Import Prelude FileFormat Page PageStore Overflow ValueLayout Slots Leaf Interior BTree Tree BTreeRead Splits Cursor BTreeInsert.
From Stdlib Require Import ZArith Lia.

Lemma chain_pages m head ids bs x : chain m head ids bs -> x ∈ ids -> is_Some (m !! x).
Proof.
  induction 1 as [|id next p payload ids bs Hid Hm Hc Hch IH]; intros Hx; [by apply elem_of_nil in Hx|].
  apply elem_of_cons in Hx as [->|Hx]; [by eexists|auto].
Qed.

Section laws.
Context {S : Type} `{HS : PageStore S} `{!PageStoreLaws S}.
Context (crc32 : bytes -> Z).
Context (lz4_compress : bytes -> bytes) (lz4_decompress : bytes -> Z -> string + bytes).
Context (lz4_bytes : forall d, Forall byte_ok d -> Forall byte_ok (lz4_compress d)).
Context (lz4_roundtrip : forall d, lz4_decompress (lz4_compress d) (zlen d) = inr d).
Context (fuel : nat) (K : key_sizes).
Implicit Types t : BTree S.

Abbreviation held := (held lz4_decompress fuel).
Abbreviation represents := (represents lz4_decompress fuel K).

Lemma value_at_pages m stored v ids x :
  value_at lz4_decompress m stored v ids -> x ∈ ids -> is_Some (m !! x).
Proof.
  unfold value_at. destruct (decode_btree_value_cell stored) as [[c payload|c head total]| |]; try done.
  - intros [_ ->] Hx. by apply elem_of_nil in Hx.
  - intros (bs & Hch & _). by eapply chain_pages.
Qed.

Lemma held_pages m es kvs G x : held m es kvs G -> x ∈ G -> is_Some (m !! x).
Proof.
  induction 1 as [|k stored es v ids kvs G Hv Hl Hf Hh IH D]; intros Hx; [by apply elem_of_empty in Hx|].
  apply elem_of_union in Hx as [Hx|Hx]; [|auto]. apply elem_of_list_to_set in Hx. by eapply value_at_pages.
Qed.

Lemma btree_ok_pages t ls F x : btree_ok K t ls F -> x ∈ F -> is_Some (view t !! x).
Proof.
  intros [H1 H2|H ls' F' H1 H2 H3] Hx; [by apply elem_of_empty in Hx|]. by eapply tree_pages.
Qed.

Lemma btree_ok_frame t t' ls F :
  btree_ok K t ls F -> root_page_id t' = root_page_id t -> rightmost_leaf t' = rightmost_leaf t ->
  (forall x, x ∈ F -> view t' !! x = view t !! x) -> btree_ok K t' ls F.
Proof.
  intros [H1 H2|H ls' F' H1 H2 H3] Hr Hc Hf; [constructor; congruence|].
  apply (btree_root K t' H); [rewrite Hr; by eapply tree_frame|done|by rewrite Hc].
Qed.

(** An entry more is a pair more. *)
Lemma held_insert m es kvs G key stored v ids c :
  held m es kvs G -> value_at lz4_decompress m stored v ids -> zlen v <= BTREE_VALUE_MAX_SIZE ->
  (length ids <= fuel)%nat -> (c <= length es)%nat -> list_to_set ids ## G -> key ∉ es.*1 ->
  exists kvs', held m (insert_entry c (key, stored) es) kvs' (list_to_set ids ∪ G) /\
    (list_to_map kvs' : gmap bytes bytes) = <[key := v]> (list_to_map kvs).
Proof.
  intros Hh Hv Hl Hf Hc D Hni. rewrite <-(take_drop c es) in Hh.
  apply held_app_inv in Hh as (k1 & k2 & G1 & G2 & -> & -> & D12 & H1 & H2).
  exists (k1 ++ (key, v) :: k2). split.
  - unfold insert_entry. replace (list_to_set ids ∪ (G1 ∪ G2)) with (G1 ∪ (list_to_set ids ∪ G2))
      by (clear; set_solver).
    apply held_app; [done| |disj]. by constructor; [..|disj].
  - rewrite !list_to_map_app. cbn. rewrite insert_union_r; [done|].
    apply not_elem_of_list_to_map_1. rewrite (held_keys _ _ _ _ _ _ H1). intros Hin. apply Hni.
    rewrite fmap_take in Hin. by apply (subseteq_take c).
Qed.

(** ** The value is encoded *)

(** After the encoding the tree is as before, beside the pages [ids] of the value. *)
Lemma bt_encode_ok t ls F kvs G value n :
  btree_ok K t ls F -> held (view t) (contents ls) kvs G -> F ## G ->
  zlen value <= BTREE_VALUE_MAX_SIZE -> Forall byte_ok value ->
  (Z.to_nat (pages_needed (zlen value)) <= fuel)%nat ->
  room (pager t) (Z.to_nat (pages_needed (zlen value)) + n) ->
  exists t1 stored ids, bt_encode lz4_compress value t = (t1, Ok stored) /\
    btree_ok K t1 ls F /\ held (view t1) (contents ls) kvs G /\
    value_at lz4_decompress (view t1) stored value ids /\ (length ids <= fuel)%nat /\
    F ## list_to_set ids /\ list_to_set ids ## G /\ Forall byte_ok stored /\
    zlen stored <= BTREE_VALUE_OVERFLOW_THRESHOLD + 1 /\ room (pager t1) n.
Proof.
  intros Hok Hh D Hl Hb Hfu Hroom.
  destruct (encode_ok lz4_compress lz4_decompress lz4_bytes lz4_roundtrip value (pager t) n Hl Hb Hroom)
    as (s1 & stored & ids & E & Hv & Hsb & Hsl & Hids & Hfr & Hr1 & Hn).
  assert (Hfresh : forall x, is_Some (view t !! x) -> x ∉ ids).
  { intros x [p Hx] Hin. rewrite Forall_forall in Hids. destruct (Hids x Hin) as [Hnone _].
    unfold view in Hx. congruence. }
  exists (set_pager s1 t), stored, ids. split; [by apply within_ok|].
  assert (Hsame : forall x, is_Some (view t !! x) -> view (set_pager s1 t) !! x = view t !! x).
  { intros x Hx. apply Hfr. auto. }
  split_and!; [| |exact Hv|lia| | |done|lia|done].
  - apply (btree_ok_frame t); try done. intros x Hx. apply Hsame. by eapply btree_ok_pages.
  - eapply held_kept; [exact Hh|]. intros x Hx. apply Hsame. by eapply held_pages.
  - intros x Hx Hin. apply elem_of_list_to_set in Hin. apply (Hfresh x); [|done]. by eapply btree_ok_pages.
  - intros x Hin Hx. apply elem_of_list_to_set in Hin. apply (Hfresh x); [|done]. by eapply held_pages.
Qed.

(** ** Insertion *)

(** What an insertion asks of its key, its value and the store *)
Record insertable t (key value : bytes) : Prop := {
  key_bytes : Forall byte_ok key;
  key_length : key_fits K key;
  key_bound : longest K <= 353;
  value_length : zlen value <= BTREE_VALUE_MAX_SIZE;
  value_bytes : Forall byte_ok value;
  value_fuel : (Z.to_nat (pages_needed (zlen value)) <= fuel)%nat;
  insert_room : room (pager t) (Z.to_nat (pages_needed (zlen value)) + 34);
}.

Lemma insert_dup_ok t M key value :
  represents t M -> insertable t key value -> is_Some (M !! key) ->
  exists t', insert crc32 lz4_compress key value t = (t', Err DuplicateKey) /\ represents t' M.
Proof.
  intros (ls & F & kvs & G & Hok & Hh & D & ->) [Hkb [Hks Hkl] HK Hvl Hvb Hfu Hroom] [v0 Ek]. unfold insert.
  rewrite (proj2 (Z.ltb_ge _ _)) by (change MAX_KEY_SIZE with 1024; lia).
  destruct (bt_encode_ok t ls F kvs G value 34 Hok Hh D Hvl Hvb Hfu Hroom)
    as (t1 & stored & ids & E1 & Hok1 & Hh1 & _).
  rewrite (eff_bind_ok _ _ _ _ _ E1).
  assert (Hin : key ∈ (contents ls).*1).
  { rewrite <-(held_keys _ _ _ _ _ _ Hh). apply elem_of_list_to_map_2 in Ek.
    apply list_elem_of_fmap. by exists (key, v0). }
  destruct (insert_encoded_dup crc32 K t1 ls F key stored Hok1 Hin) as (t2 & E2 & U2).
  exists t2. split; [exact E2|]. exists ls, F, kvs, G. rewrite (same_pages _ _ U2). split_and!; [|done..].
  by eapply btree_ok_unchanged.
Qed.

(** A stored value under a new key is a pair more. *)
Lemma insert_stored_ok t ls F kvs G key value stored ids :
  btree_ok K t ls F -> held (view t) (contents ls) kvs G -> F ## G ->
  value_at lz4_decompress (view t) stored value ids -> zlen value <= BTREE_VALUE_MAX_SIZE ->
  (length ids <= fuel)%nat -> F ## list_to_set ids -> list_to_set ids ## G -> key ∉ (contents ls).*1 ->
  entry_fits K (key, stored) -> longest K <= 353 -> room (pager t) 34 ->
  exists t', insert_encoded crc32 key stored t = (t', Ok tt) /\ represents t' (<[key := value]> (list_to_map kvs)).
Proof.
  intros Hok Hh D Hv Hvl Hil D1 D2 Hni He HK Hroom.
  destruct (insert_encoded_ok crc32 K t ls F key stored Hok Hni He HK Hroom)
    as (t2 & E2 & ls' & F' & c & Hok2 & Hg & Hc & Ec).
  exists t2. split; [exact E2|].
  assert (Hsame : forall x, x ∈ list_to_set ids ∪ G -> view t2 !! x = view t !! x /\ x ∉ F').
  { intros x Hx. assert (HxF : x ∉ F).
    { intros HF. apply elem_of_union in Hx as [Hx|Hx]; [by apply (D1 x)|by apply (D x)]. }
    assert (is_Some (view t !! x)) as [p Hp].
    { apply elem_of_union in Hx as [Hx|Hx]; [apply elem_of_list_to_set in Hx; by eapply value_at_pages
        |by eapply held_pages]. }
    split; [rewrite Hp; by eapply grown_frame|]. intros Hin.
    destruct (grown_pages _ _ _ _ Hg x Hin); [done|congruence]. }
  destruct (held_insert (view t) (contents ls) kvs G key stored value ids c Hh Hv Hvl Hil Hc D2 Hni)
    as (kvs' & Hh2 & <-).
  exists ls', F', kvs', (list_to_set ids ∪ G). split_and!; [done| | |done].
  - rewrite Ec. eapply held_kept; [exact Hh2|]. intros x Hx. by apply Hsame.
  - intros x Hx1 Hx2. by apply (Hsame x Hx2).
Qed.

Lemma insert_new_ok t M key value :
  represents t M -> insertable t key value -> M !! key = None ->
  exists t', insert crc32 lz4_compress key value t = (t', Ok tt) /\ represents t' (<[key := value]> M).
Proof.
  intros (ls & F & kvs & G & Hok & Hh & D & ->) [Hkb [Hks Hkl] HK Hvl Hvb Hfu Hroom] Ek. unfold insert.
  rewrite (proj2 (Z.ltb_ge _ _)) by (change MAX_KEY_SIZE with 1024; lia).
  destruct (bt_encode_ok t ls F kvs G value 34 Hok Hh D Hvl Hvb Hfu Hroom)
    as (t1 & stored & ids & E1 & Hok1 & Hh1 & Hv & Hil & D1 & D2 & Hsb & Hsl & Hr1).
  rewrite (eff_bind_ok _ _ _ _ _ E1). eapply insert_stored_ok; try done.
  rewrite <-(held_keys _ _ _ _ _ _ Hh). by apply not_elem_of_list_to_map_2.
Qed.

(** C1. Inserting into a tree that represents a finite map, with keys of at most 353 bytes, a value
    within the size limit, and room in the store for its overflow pages and 34 more: a new key is
    added with its value, whatever splits and overflow pages this takes, and nothing else
    changes; a key that is present is refused and the map stays as it is. *)
Theorem btree_insert t M key value :
  represents t M -> insertable t key value ->
  exists t', match M !! key with
  | None => insert crc32 lz4_compress key value t = (t', Ok tt) /\ represents t' (<[key := value]> M)
  | Some _ => insert crc32 lz4_compress key value t = (t', Err DuplicateKey) /\ represents t' M
  end.
Proof.
  intros Hrep Hin. destruct (M !! key) as [v0|] eqn:Ek; [|by apply insert_new_ok].
  apply insert_dup_ok; [done|done|by eexists].
Qed.

Lemma get_ok t M key :
  represents t M ->
  exists t', get lz4_decompress fuel key t = (t', Ok (M !! key)) /\ unchanged t t' /\ represents t' M.
Proof.
  intros (ls & F & kvs & G & Hok & Hh & D & ->). unfold get, get_with_budget.
  assert (Hrep : forall t', unchanged t t' -> represents t' (list_to_map kvs)).
  { intros t' U. exists ls, F, kvs, G. rewrite (same_pages _ _ U). split_and!; [|done..].
    by eapply btree_ok_unchanged. }
  rewrite (eff_bind_ok get_root _ t t (root_page_id t) eq_refl).
  destruct Hok as [Hr0 Hc|H ls F Ht Hli Hc].
  - rewrite Hr0. inversion Hh; subst. exists t. by split_and!; [|reflexivity|apply Hrep].
  - destruct (tree_root_number _ _ _ _ _ _ _ _ Ht) as [Hn0 _].
    rewrite (proj2 (Z.eqb_neq _ _)) by done.
    destruct (find_leaf_ok K t _ H ls F key Ht) as (t1 & l & path & lo & hi & L & R & F' & E1 & U1 & Hf & -> & _).
    rewrite (eff_bind_ok _ _ _ _ _ E1). pose proof (same_pages _ _ U1) as Ev.
    pose proof (leaves_ok _ _ _ _ _ _ Ht) as Hlv. rewrite <-Ev in Hf, Hh, Hlv.
    destruct (get_hops_ok lz4_decompress fuel K t1 30 _ _ _ _ _ _ _ _ _ _ _ _ Hf Hlv Hli Hh) as (t2 & U2 & E2).
    change MAX_RIGHTLINK_HOPS with (2 + 30)%nat. cbn [fst]. rewrite (eff_bind_ok _ _ _ _ _ E2).
    exists t2. assert (unchanged t t2) by (by etrans). by split_and!; [|done|apply Hrep].
Qed.

(** C14. A lookup in a tree that represents a finite map answers what the map
    answers: the stored value, decompressed and collected from its overflow chain,
    or nothing; and it leaves the tree as it is. *)
Theorem btree_get t M key :
  represents t M ->
  exists t', get lz4_decompress fuel key t = (t', Ok (M !! key)) /\ unchanged t t' /\ represents t' M.
Proof. apply get_ok. Qed.

(** ** Scans *)

(** A tree that represents a map has as many entries as the map. *)
Lemma represents_list t ls F kvs G :
  btree_ok K t ls F -> held (view t) (contents ls) kvs G ->
  NoDup kvs.*1 /\ size (list_to_map kvs : gmap bytes bytes) = length kvs /\ StronglySorted blt kvs.*1.
Proof.
  intros Hok Hh. pose proof (btree_ok_sorted _ _ _ _ Hok) as Hs. rewrite <-(held_keys _ _ _ _ _ _ Hh) in Hs.
  pose proof (blt_sorted_NoDup _ Hs) as Hn. split_and!; [done|by apply map_size_list_to_map|done].
Qed.

(** The entries from where a seek stands are those of the map that are not below. *)
Lemma seek_map t es1 es2 k1 k2 G1 G2 start_key :
  held (view t) es1 k1 G1 -> held (view t) es2 k2 G2 -> NoDup (k1 ++ k2).*1 ->
  Forall (fun e => blt e.1 start_key) es1 -> Forall (fun e => ~ blt e.1 start_key) es2 ->
  forall k v, (k, v) ∈ k2 <-> (list_to_map (k1 ++ k2) : gmap bytes bytes) !! k = Some v /\ ~ blt k start_key.
Proof.
  intros Hh1 Hh2 Hnd H1 H2 k v. rewrite <-elem_of_list_to_map by done. rewrite elem_of_app.
  rewrite <-(Forall_fmap fst (fun k => blt k start_key)), <-(held_keys _ _ _ _ _ _ Hh1), Forall_forall in H1.
  rewrite <-(Forall_fmap fst (fun k => ~ blt k start_key)), <-(held_keys _ _ _ _ _ _ Hh2), Forall_forall in H2.
  split.
  - intros Hin. split; [by right|]. apply H2, list_elem_of_fmap. by exists (k, v).
  - intros [[Hin|Hin] Ha]; [|done]. exfalso. apply Ha, H1, list_elem_of_fmap. by exists (k, v).
Qed.

(** A scan with a cursor of the tree, in either mode *)
Lemma scan_ok t t' ls F c es kvs G end_key n (im : bool) :
  btree_ok K t ls F -> unchanged t t' -> cur_pager c = pager t' -> immutable c = im ->
  mode_ok (view t) c -> stands ls c es -> held (view t) es kvs G -> (length kvs < n)%nat ->
  exists t2, with_cursor c (range_loop lz4_decompress fuel n end_key []) t' = (t2, Ok (until end_key kvs)) /\
    unchanged t t2.
Proof.
  intros Hok U Hcp Him Hmo Hst Hh Hn. unfold with_cursor.
  assert (Ec : set_cur_pager (pager t') c = c) by (rewrite <-Hcp; by destruct c). rewrite Ec.
  destruct (range_loop_ok lz4_decompress fuel K n c (view t) ls es kvs G end_key []) as (c' & E & S1); try done.
  - by apply (btree_walk K t ls F).
  - rewrite Hcp. apply (same_pages _ _ U).
  - rewrite E. exists (set_pager (cur_pager c') t'). split; [done|]. etrans; [exact U|]. split; try done.
    + change (pages (cur_pager c') = pages (pager t')). by rewrite (store_pages _ _ S1), Hcp.
    + intros r Hr. apply (Cursor.store_room _ _ S1). by rewrite Hcp.
Qed.

(** C15. A range scan of a tree that represents a finite map returns exactly the
    pairs of the map whose keys lie between the bounds, both included, in ascending
    order of keys, and leaves the tree as it is; it ends after as many steps as the
    map has keys, and one more. *)
Theorem btree_range t M start_key end_key n :
  represents t M -> (size M < n)%nat ->
  exists t' kvs, range lz4_decompress fuel n start_key end_key t = (t', Ok kvs) /\ unchanged t t' /\
    StronglySorted blt kvs.*1 /\
    forall k v, (k, v) ∈ kvs <-> M !! k = Some v /\ ~ blt k start_key /\ ~ blt end_key k.
Proof.
  intros (ls & F & kvs & G & Hok & Hh & D & ->) Hn.
  destruct (represents_list t ls F kvs G Hok Hh) as (Hnd & Hsz & Hs). rewrite Hsz in Hn.
  destruct (cursor_seek_ok K t ls F start_key Hok)
    as (t1 & c & es1 & es2 & E1 & U1 & Hcp & _ & Him & Ees & Hst & H1 & H2).
  rewrite Ees in Hh. apply held_app_inv in Hh as (k1 & k2 & G1 & G2 & -> & -> & D12 & Hh1 & Hh2).
  destruct (scan_ok t t1 ls F c es2 k2 G2 end_key n false Hok U1 Hcp Him) as (t2 & E2 & U2); try done.
  { intros Hc. congruence. }
  { rewrite length_app in Hn. lia. }
  unfold range. rewrite (eff_bind_ok _ _ _ _ _ E1). exists t2, (until end_key k2).
  rewrite fmap_app in Hs. apply sorted_app in Hs as (_ & Hs2 & _).
  split; [done|]. split; [done|]. split; [by apply until_sorted|]. intros k v.
  rewrite elem_of_until by done. rewrite (seek_map t es1 es2 k1 k2 G1 G2 start_key) by done. cbn [fst]. apply Logic.and_assoc.
Qed.

(** C37. A cursor that retains its leaf, as readers of published generations use,
    returns the same pairs as one that reads its page again at every step. *)
Theorem immutable_scan_agrees t M start_key end_key n :
  represents t M -> (size M < n)%nat ->
  exists t1 c t2 t3 kvs, cursor_seek start_key t = (t1, Ok c) /\
    with_cursor c (range_loop lz4_decompress fuel n end_key []) t1 = (t2, Ok kvs) /\
    with_cursor (with_immutable_leaves c) (range_loop lz4_decompress fuel n end_key []) t1 = (t3, Ok kvs) /\
    unchanged t t2 /\ unchanged t t3.
Proof.
  intros (ls & F & kvs & G & Hok & Hh & D & ->) Hn.
  destruct (represents_list t ls F kvs G Hok Hh) as (_ & Hsz & _). rewrite Hsz in Hn.
  destruct (cursor_seek_ok K t ls F start_key Hok)
    as (t1 & c & es1 & es2 & E1 & U1 & Hcp & Hmo & Him & Ees & Hst & _ & _).
  rewrite Ees in Hh. apply held_app_inv in Hh as (k1 & k2 & G1 & G2 & -> & -> & _ & _ & Hh2).
  rewrite length_app in Hn.
  destruct (scan_ok t t1 ls F c es2 k2 G2 end_key n false Hok U1 Hcp Him) as (t2 & E2 & U2); try done.
  { intros Hc. congruence. }
  { lia. }
  destruct (scan_ok t t1 ls F (with_immutable_leaves c) es2 k2 G2 end_key n true Hok U1 Hcp) as (t3 & E3 & U3);
    try done.
  { by apply stands_retaining. }
  { lia. }
  by exists t1, c, t2, t3, (until end_key k2).
Qed.

(** The number of entries of a tree is the size of the map it represents. *)
Theorem btree_count t M n :
  represents t M -> (size M < n)%nat ->
  exists t', count lz4_decompress fuel n t = (t', Ok (Z.of_nat (size M))) /\ unchanged t t'.
Proof.
  intros (ls & F & kvs & G & Hok & Hh & D & ->) Hn.
  destruct (represents_list t ls F kvs G Hok Hh) as (_ & Hsz & _). rewrite Hsz in *.
  unfold count. rewrite (eff_bind_ok get_root _ t t (root_page_id t) eq_refl).
  destruct (Z.eqb_spec (root_page_id t) 0) as [E0|E0].
  { exists t. split; [|done]. destruct Hok as [_ _|H ls F Ht _ _]; [by inversion Hh; subst|].
    exfalso. destruct (tree_root_number _ _ _ _ _ _ _ _ Ht). done. }
  destruct (cursor_first_ok K t ls F Hok) as (t1 & c & E1 & U1 & Hcp & _ & Him & Hst).
  rewrite (eff_bind_ok _ _ _ _ _ E1). unfold with_cursor.
  assert (Ec : set_cur_pager (pager t1) c = c) by (rewrite <-Hcp; by destruct c). rewrite Ec.
  destruct (count_loop_ok lz4_decompress fuel K n c (view t) ls (contents ls) kvs G 0) as (c' & E & S1); try done.
  - by apply (btree_walk K t ls F).
  - rewrite Hcp. apply (same_pages _ _ U1).
  - intros Hc. congruence.
  - rewrite E. eexists. split; [done|]. etrans; [exact U1|]. split; try done.
    + change (pages (cur_pager c') = pages (pager t1)). by rewrite (store_pages _ _ S1), Hcp.
    + intros r Hr. apply (Cursor.store_room _ _ S1). by rewrite Hcp.
Qed.

(** Looking at a key and skipping it agree with reading it, in both modes of a
    cursor: from the start of a scan the peeked key is the first key of the map that
    is not below the start, a skip passes exactly that entry, and the entry read
    next is the second. *)
Theorem peek_skip_next t M start_key (im : bool) :
  represents t M ->
  exists t1 c kvs, cursor_seek start_key t = (t1, Ok c) /\ StronglySorted blt kvs.*1 /\
    (forall k v, (k, v) ∈ kvs <-> M !! k = Some v /\ ~ blt k start_key) /\
    exists c1 c2 c3, peek_key (if im then with_immutable_leaves c else c) = (c1, Ok (head kvs.*1)) /\
      skip_next c1 = (c2, Ok (negb (bool_decide (kvs = [])))) /\
      next lz4_decompress fuel c2 = (c3, Ok (head (tail kvs))).
Proof.
  intros (ls & F & kvs & G & Hok & Hh & D & ->).
  destruct (represents_list t ls F kvs G Hok Hh) as (Hnd & _ & Hs).
  destruct (cursor_seek_ok K t ls F start_key Hok)
    as (t1 & c & es1 & es2 & E1 & U1 & Hcp & Hmo & Him & Ees & Hst & H1 & H2).
  rewrite Ees in Hh. apply held_app_inv in Hh as (k1 & k2 & G1 & G2 & -> & -> & D12 & Hh1 & Hh2).
  exists t1, c, k2. split; [done|]. rewrite fmap_app in Hs. apply sorted_app in Hs as (_ & Hs & _). split; [done|].
  assert (Hw : walk K (view t) ls) by (by apply (btree_walk K t ls F)).
  split.
  - by apply (seek_map t es1 es2 k1 k2 G1 G2).
  - set (c0 := if im then with_immutable_leaves c else c).
    assert (S0 : pages (cur_pager c0) = view t).
    { transitivity (pages (cur_pager c)); [by destruct im|]. rewrite Hcp. apply (same_pages _ _ U1). }
    assert (T0 : stands ls c0 es2) by (destruct im; [by apply stands_retaining|done]).
    assert (M0 : mode_ok (view t) c0) by (unfold c0; destruct im; [exact Hmo|intros Hc; congruence]).
    destruct (peek_key_with_ok K id c0 (view t) ls es2 Hw S0 T0 M0) as (c1 & E2 & S1 & T1 & M1).
    destruct (skip_next_ok K c1 (view t) ls es2 Hw ltac:(by rewrite (store_pages _ _ S1)) T1 M1)
      as (c2 & E3 & S2 & T2 & M2).
    destruct (held_tail _ _ _ _ _ _ Hh2) as (G' & Hh').
    destruct (next_ok lz4_decompress fuel K c2 (view t) ls (tail es2) (tail k2) G' Hw) as (c3 & E4 & _); [|done..|].
    { by rewrite (store_pages _ _ S2), (store_pages _ _ S1). }
    exists c1, c2, c3. rewrite <-(held_keys _ _ _ _ _ _ Hh2) in E2. unfold peek_key. rewrite E2, option_fmap_id.
    split; [done|]. split; [|done]. rewrite E3. inversion Hh2; subst; done.
Qed.
End laws.

(** ** Instances of the theorems *)

Definition no_crc (bs : bytes) : Z := 0.

(** A new tree represents the empty map. *)
Lemma new_represents {S} `{HS : PageStore S} `{!PageStoreLaws S} lz4_decompress fuel K (s : S) :
  represents lz4_decompress fuel K (new s) ∅.
Proof. exists [], ∅, [], ∅. split_and!; [by constructor|constructor|done|done]. Qed.

Lemma sample_insertable : insertable 8 (KeySizes 0 16) (new empty_store) [1] [2; 3].
Proof.
  split; [|done|done|vm_compute; discriminate| |vm_compute; lia|apply empty_room; vm_compute; discriminate];
    repeat constructor; unfold byte_ok; lia.
Qed.

Lemma btree_insert_witness :
  exists t', insert no_crc copy_compress [1] [2; 3] (new empty_store) = (t', Ok tt) /\
    represents copy_decompress 8 (KeySizes 0 16) t' {[ [1] := [2; 3] ]}.
Proof.
  destruct (btree_insert no_crc copy_compress copy_decompress copy_bytes copy_roundtrip 8 (KeySizes 0 16)
    (new empty_store) ∅ [1] [2; 3] (new_represents _ _ _ _) sample_insertable) as (t' & Ht').
  rewrite lookup_empty in Ht'. destruct Ht' as [E R]. exists t'. split; [exact E|exact R].
Defined.

(** The tree with the single entry of the samples *)
Lemma sample_tree : exists t : BTree MemStore, represents copy_decompress 8 (KeySizes 0 16) t {[ [1] := [2; 3] ]}.
Proof.
  destruct (insert_new_ok no_crc copy_compress copy_decompress copy_bytes copy_roundtrip 8 (KeySizes 0 16)
    (new empty_store) ∅ [1] [2; 3] (new_represents _ _ _ _) sample_insertable eq_refl) as (t & _ & R).
  exists t. exact R.
Qed.

Lemma sample_size : (size ({[ [1%Z] := [2%Z; 3%Z] ]} : gmap bytes bytes) < 2)%nat.
Proof. rewrite map_size_singleton. lia. Qed.

Lemma btree_get_witness :
  exists t t' : BTree MemStore, represents copy_decompress 8 (KeySizes 0 16) t {[ [1] := [2; 3] ]} /\
    get copy_decompress 8 [1] t = (t', Ok (Some [2; 3])).
Proof.
  destruct sample_tree as (t & R). destruct (btree_get copy_decompress 8 (KeySizes 0 16) t _ [1] R) as (t' & E & _).
  exists t, t'. split; [exact R|]. rewrite E. by rewrite lookup_singleton_eq.
Defined.

Lemma btree_range_witness :
  exists (t t' : BTree MemStore) kvs, represents copy_decompress 8 (KeySizes 0 16) t {[ [1] := [2; 3] ]} /\
    range copy_decompress 8 2 [0] [9] t = (t', Ok kvs) /\ ([1], [2; 3]) ∈ kvs.
Proof.
  destruct sample_tree as (t & R).
  destruct (btree_range copy_decompress 8 (KeySizes 0 16) t _ [0] [9] 2 R sample_size) as (t' & kvs & E & _ & _ & I).
  exists t, t', kvs. split; [exact R|]. split; [exact E|]. apply I.
  split; [by rewrite lookup_singleton_eq|]. split; by vm_compute.
Defined.

Lemma immutable_scan_agrees_witness :
  exists (t : BTree MemStore) t1 c t2 t3 kvs, cursor_seek [0] t = (t1, Ok c) /\
    with_cursor c (range_loop copy_decompress 8 2 [9] []) t1 = (t2, Ok kvs) /\
    with_cursor (with_immutable_leaves c) (range_loop copy_decompress 8 2 [9] []) t1 = (t3, Ok kvs).
Proof.
  destruct sample_tree as (t & R).
  destruct (immutable_scan_agrees copy_decompress 8 (KeySizes 0 16) t _ [0] [9] 2 R sample_size)
    as (t1 & c & t2 & t3 & kvs & E1 & E2 & E3 & _).
  exists t, t1, c, t2, t3, kvs. split; [exact E1|]. split; [exact E2|exact E3].
Defined.

Lemma btree_count_witness :
  exists (t t' : BTree MemStore), represents copy_decompress 8 (KeySizes 0 16) t {[ [1] := [2; 3] ]} /\
    count copy_decompress 8 2 t = (t', Ok 1).
Proof.
  destruct sample_tree as (t & R).
  destruct (btree_count copy_decompress 8 (KeySizes 0 16) t _ 2 R sample_size) as (t' & E & _).
  exists t, t'. split; [exact R|]. rewrite E. by rewrite map_size_singleton.
Defined.

Lemma peek_skip_next_witness :
  exists (t t1 : BTree MemStore) c c1, cursor_seek [0] t = (t1, Ok c) /\
    peek_key (with_immutable_leaves c) = (c1, Ok (Some [1])).
Proof.
  destruct sample_tree as (t & R).
  destruct (peek_skip_next copy_decompress 8 (KeySizes 0 16) t _ [0] true R) as (t1 & c & kvs & E & _ & I & c1 & _ & _ & E1 & _).
  exists t, t1, c, c1. split; [exact E|]. rewrite E1.
  assert (Hin : ([1], [2; 3]) ∈ kvs) by (apply I; split; [by rewrite lookup_singleton_eq|by vm_compute]).
  destruct kvs as [|[k v] kvs]; [by apply elem_of_nil in Hin|].
  destruct (proj1 (I k v) (list_elem_of_here _ _)) as [Hk _]. by apply lookup_singleton_Some in Hk as [<- _].
Defined.
