(* ===== verification/BTreeOps.v ===== *)
(** * The operations of a B+ tree, one after another

    What deletion and upsert do to the map that a tree represents, and that a tree and
    the map answer every sequence of operations alike. *)

From S2P Require Import Prelude FileFormat Page PageStore Overflow ValueLayout Slots Leaf Interior BTree Delete Tree BTreeRead Splits Siblings Cursor BTreeInsert Rebalance Rotate BTreeDelete BTreeMap.
From Stdlib Require Import ZArith Lia.

Section laws.
Context {S : Type} `{HS : PageStore S} `{!PageStoreLaws S}.
Context (crc32 : bytes -> Z).
Context (lz4_compress : bytes -> bytes) (lz4_decompress : bytes -> Z -> string + bytes).
Context (lz4_bytes : forall d, Forall byte_ok d -> Forall byte_ok (lz4_compress d)).
Context (lz4_roundtrip : forall d, lz4_decompress (lz4_compress d) (zlen d) = inr d).
Context (fuel : nat) (K : key_sizes).
Implicit Types t : BTree S.

Abbreviation held := (held lz4_decompress fuel).
Abbreviation represents := (represents lz4_decompress fuel K).

(** An entry less is a pair less. *)
Lemma held_middle m A key stored B kvs G :
  held m (A ++ (key, stored) :: B) kvs G -> NoDup kvs.*1 ->
  exists v ids kvs' G', value_at lz4_decompress m stored v ids /\ zlen v <= BTREE_VALUE_MAX_SIZE /\
    (length ids <= fuel)%nat /\ held m (A ++ B) kvs' G' /\ G = list_to_set ids ∪ G' /\ list_to_set ids ## G' /\
    (list_to_map kvs' : gmap bytes bytes) = base.delete key (list_to_map kvs) /\
    (list_to_map kvs : gmap bytes bytes) !! key = Some v /\ key ∉ (A ++ B).*1.
Proof.
  intros Hh Hnd. apply held_app_inv in Hh as (k1 & k2 & G1 & G2 & -> & -> & D12 & H1 & H2).
  inversion H2 as [|k st es v ids kvs G' Hv Hl Hf H3 D]; subst. rewrite fmap_app in Hnd. cbn in Hnd.
  apply NoDup_app in Hnd as (Hn1 & Hn2 & [Hn3 Hn4]%NoDup_cons).
  assert (Hk1 : key ∉ k1.*1) by (intros Hin; apply (Hn2 key Hin); left).
  exists v, ids, (k1 ++ kvs), (G1 ∪ G'). split_and!; try done.
  - apply held_app; [done|done|disj].
  - clear; set_solver.
  - disj.
  - rewrite !list_to_map_app. cbn. rewrite delete_union, delete_insert_eq, !delete_id; [done|..];
      by apply not_elem_of_list_to_map_1.
  - rewrite list_to_map_app, lookup_union_r by (by apply not_elem_of_list_to_map_1). cbn. by rewrite lookup_insert_eq.
  - rewrite fmap_app, <-(held_keys _ _ _ _ _ _ H1), <-(held_keys _ _ _ _ _ _ H3). by rewrite not_elem_of_app.
Qed.

Lemma represents_NoDup t ls F kvs G :
  btree_ok K t ls F -> held (view t) (contents ls) kvs G -> NoDup kvs.*1.
Proof. intros Hok Hh. by destruct (represents_list _ _ _ _ _ _ _ _ Hok Hh). Qed.

(** ** Deletion *)

(** Other values of the store, those of [X], are kept. *)
Lemma delete_stored_ok t ls F kvs G key (X : gset Z) :
  shortest K = longest K -> longest K <= 353 ->
  btree_ok K t ls F -> held (view t) (contents ls) kvs G -> F ## G -> X ## F -> X ## G -> key ∈ (contents ls).*1 ->
  exists t' ls' F' kvs' G', delete crc32 fuel key t = (t', Ok true) /\ btree_ok K t' ls' F' /\
    held (view t') (contents ls') kvs' G' /\ F' ## G' /\ F' ⊆ F /\ G' ⊆ G /\
    (list_to_map kvs' : gmap bytes bytes) = base.delete key (list_to_map kvs) /\ (key ∉ (contents ls').*1) /\
    (forall x, x ∈ X -> view t' !! x = view t !! x) /\ forall n, room (pager t) n -> room (pager t') n.
Proof.
  intros Hu HK Hok Hh D DX DX2 Hin.
  destruct (delete_present crc32 K Hu HK lz4_decompress fuel t ls F key Hok Hin) as (A & stored & B & Ec & Hdel).
  pose proof (represents_NoDup _ _ _ _ _ Hok Hh) as Hnd. rewrite Ec in Hh.
  destruct (held_middle _ _ _ _ _ _ _ Hh Hnd) as (v & ids & kvs' & G' & Hv & _ & Hf & Hh' & -> & D' & Em & _ & Hni).
  destruct (Hdel v ids Hv Hf) as (t' & ls' & F' & E & [D1 D2 D3 D4 D5]); [clear -D; set_solver|].
  exists t', ls', F', kvs', G'. rewrite D3. split_and!; try done.
  - eapply held_kept; [exact Hh'|]. intros x Hx. apply D4; [clear -D Hx; set_solver|].
    intros Hi. apply (D' x); [by apply elem_of_list_to_set|done].
  - clear -D D2; set_solver.
  - clear; set_solver.
  - intros x Hx. apply D4; [clear -DX Hx; set_solver|]. intros Hi. apply (DX2 x Hx).
    apply elem_of_union_l. by apply elem_of_list_to_set.
Qed.

Lemma delete_ok t M key :
  shortest K = longest K -> longest K <= 353 -> represents t M ->
  exists t', delete crc32 fuel key t = (t', Ok (bool_decide (is_Some (M !! key)))) /\
    represents t' (base.delete key M).
Proof.
  intros Hu HK (ls & F & kvs & G & Hok & Hh & D & ->).
  destruct (decide (key ∈ (contents ls).*1)) as [Hin|Hni].
  - destruct (delete_stored_ok t ls F kvs G key ∅ Hu HK Hok Hh D) as
      (t' & ls' & F' & kvs' & G' & E & Hok' & Hh' & D' & _ & _ & Em & _); [disj..|done|].
    exists t'. rewrite bool_decide_true.
    + split; [done|]. by exists ls', F', kvs', G'.
    + rewrite <-(held_keys _ _ _ _ _ _ Hh) in Hin. destruct (list_to_map kvs !! key) eqn:Ek; [by eexists|].
      by apply not_elem_of_list_to_map_2 in Ek.
  - destruct (delete_absent crc32 K fuel t ls F key Hok Hni) as (t' & E & Un).
    rewrite <-(held_keys _ _ _ _ _ _ Hh) in Hni. apply not_elem_of_list_to_map_1 in Hni.
    exists t'. rewrite Hni, delete_id by done. split; [done|].
    exists ls, F, kvs, G. rewrite (same_pages _ _ Un). split_and!; [by eapply btree_ok_unchanged|done..].
Qed.

(** ** Upsert *)

Lemma cache_ok_same_keys c L l l' R :
  cache_ok c (L ++ l :: R) -> lf_id l' = lf_id l -> (lf_entries l').*1 = (lf_entries l).*1 -> cache_ok c (L ++ l' :: R).
Proof.
  destruct c as [[id high]|]; [|done]. cbn. intros (x & Hx & Hid & Hh) Ei Ek.
  destruct R as [|y R _] using rev_ind.
  - rewrite last_snoc in Hx |- *. injection Hx as <-. exists l'. by rewrite Ei, Ek.
  - rewrite app_comm_cons, app_assoc, last_snoc in Hx |- *. injection Hx as <-. by exists y.
Qed.

Lemma insert_keys i key old v (es : list entry) :
  es !! i = Some (key, old) -> (<[i := (key, v)]> es).*1 = es.*1.
Proof. intros Hi. rewrite list_fmap_insert. apply list_insert_id. by rewrite list_lookup_fmap, Hi. Qed.

(** The value of an entry is written over. *)
Lemma overwrite_ok t H path l lo hi L R F key i old p v ids stored :
  found K (view t) (root_page_id t) H path l lo hi L R F key -> linked 0 (L ++ l :: R) 0 ->
  cache_ok (rightmost_leaf t) (L ++ l :: R) -> view t !! lf_id l = Some p -> leaf_at p l ->
  lf_entries l !! i = Some (key, old) -> value_at lz4_decompress (view t) old v ids -> (length ids <= fuel)%nat ->
  F ∪ {[lf_id l]} ## list_to_set ids -> zlen stored <= zlen old -> entry_fits K (key, stored) ->
  exists t' ls', (_ ← free_chain_if_pointer fuel old;
     page ← lift (overwrite_leaf_value p (Z.of_nat i) stored);
     bt_write (page_id page) page) t = (t', Ok tt) /\
    deleted K t t' (F ∪ {[lf_id l]}) ids ls' (F ∪ {[lf_id l]})
      (contents L ++ <[i := (key, stored)]> (lf_entries l) ++ contents R).
Proof.
  intros Hfd Hli Hca Hp Hl Hi Hv Hfu D Hlen He.
  destruct (free_chain_if_pointer_ok lz4_decompress fuel t old v ids Hv Hfu) as (t1 & E1 & W1).
  rewrite (eff_bind_ok _ _ _ _ _ E1). clear E1.
  pose proof (overwrite_leaf_value_spec p (lf_entries l) i key old stored (proj2 (proj2 (proj2 (proj2 Hl)))) Hi
    (proj2 (proj1 He))) as Hov. rewrite decide_True in Hov by done. destruct Hov as (p' & E2 & Hr' & Hfr).
  rewrite (eff_bind_lift _ _ _ _ E2). clear E2.
  pose proof (leaf_at_cells p p' _ _ _ _ (leaf_at_head _ _ Hl) Hfr Hr') as Hl'.
  rewrite (proj1 (proj2 Hl')). cbn [lf_id].
  assert (Hk : forall x, x ∈ F ∪ {[lf_id l]} -> view t1 !! x = view t !! x).
  { intros x Hx. apply (dropped_kept _ _ _ _ W1). intros Hin. apply (D x Hx). by apply elem_of_list_to_set. }
  destruct (bt_write_ok t1 (lf_id l) p') as (t2 & q & E2 & W2); [rewrite Hk, Hp by sets; by eexists|exact (leaf_at_len _ _ Hl')|exact (proj1 (proj2 Hl'))|].
  pose proof (leaf_at_resealed _ _ _ (written_seal _ _ _ _ _ W2) Hl') as Hq.
  destruct (found_entries _ _ _ _ _ _ _ _ _ _ _ _ Hfd) as (Hs & Hne & Hf & Hnum & _). destruct Hfd as [Hc _ Hout Ha Hb].
  exists t2, (L ++ with_entries l (<[i := (key, stored)]> (lf_entries l)) :: R). split; [exact E2|].
  pose proof W2 as [V2 _ R2 C2 M2]. split; [|done|by rewrite contents_middle| |].
  - apply (btree_root K t2 H); [|by apply linked_with_entries|].
    + rewrite R2, (dropped_root _ _ _ W1). change (?L ++ ?x :: ?R) with (L ++ [x] ++ R).
      eapply ctx_plug; [| |clear -Hout; set_solver].
      * eapply ctx_frame; [exact Hc|]. intros x Hx. rewrite V2, lookup_insert_ne by (by intros <-). apply Hk. sets.
      * apply (leaf_tree _ _ _ _ _ _ _ _ q); [by rewrite V2, lookup_insert_eq|done|exact Hq|..].
        -- intros E0. apply (f_equal length) in E0. rewrite length_insert in E0. by destruct (lf_entries l).
        -- by rewrite (insert_keys _ _ _ _ _ Hi).
        -- by apply Forall_insert.
    + rewrite C2, (dropped_cache _ _ _ W1). eapply cache_ok_same_keys; [exact Hca|done|]. by eapply insert_keys.
  - intros x Hx Hxi. rewrite V2, lookup_insert_ne by (intros <-; sets). by apply (dropped_kept _ _ _ _ W1).
  - intros n Hn. by apply M2, (dropped_room _ _ _ W1).
Qed.

(** The new value replaces the one the tree has for the key. *)
Lemma replace_ok t ls F kvs G key value stored ids t2 l path p i old H lo hi L R F' :
  unchanged t t2 -> found K (view t2) (root_page_id t) H path l lo hi L R F' key -> ls = L ++ l :: R ->
  F = F' ∪ {[lf_id l]} -> view t2 !! lf_id l = Some p -> leaf_at p l -> lf_entries l !! i = Some (key, old) ->
  linked 0 ls 0 -> cache_ok (rightmost_leaf t) ls ->
  btree_ok K t ls F -> held (view t) (contents ls) kvs G -> F ## G ->
  value_at lz4_decompress (view t) stored value ids -> zlen value <= BTREE_VALUE_MAX_SIZE ->
  (length ids <= fuel)%nat -> F ## list_to_set ids -> list_to_set ids ## G ->
  entry_fits K (key, stored) -> zlen stored <= zlen old ->
  exists t', (_ ← free_chain_if_pointer fuel old;
     page ← lift (overwrite_leaf_value p (Z.of_nat i) stored);
     bt_write (page_id page) page) t2 = (t', Ok tt) /\
    represents t' (<[key := value]> (list_to_map kvs)).
Proof.
  intros Un Hfd -> -> Hp Hl Hi Hli Hca Hok Hh D Hv Hvl Hil D1 D2 He Hlen.
  pose proof (represents_NoDup _ _ _ _ _ Hok Hh) as Hnd.
  set (A := contents L ++ take i (lf_entries l)). set (B := drop (Datatypes.S i) (lf_entries l) ++ contents R).
  assert (Ec : forall e, contents L ++ <[i := e]> (lf_entries l) ++ contents R = A ++ e :: B).
  { intros e. rewrite insert_take_drop by (by eapply lookup_lt_Some). unfold A, B. by rewrite <-!app_assoc. }
  assert (Ec0 : contents (L ++ l :: R) = A ++ (key, old) :: B).
  { by rewrite <-Ec, list_insert_id, contents_middle. }
  rewrite Ec0 in Hh. destruct (held_middle _ _ _ _ _ _ _ Hh Hnd)
    as (v0 & ids0 & kvs' & G' & Hv0 & _ & Hf0 & Hh' & -> & D' & Em & _ & Hni).
  rewrite <-(same_root _ _ Un) in Hfd. rewrite <-(same_cache _ _ Un) in Hca.
  destruct (overwrite_ok t2 H path l lo hi L R F' key i old p v0 ids0 stored) as (t3 & ls' & E3 & [X1 _ X3 X4 _]);
    [done|done|done|done|done|done|by rewrite (same_pages _ _ Un)|done|clear -D; set_solver|done|done|].
  exists t3. split; [exact E3|]. rewrite Ec in X3.
  assert (Hsame : forall x, x ∈ list_to_set ids ∪ G' -> view t3 !! x = view t !! x).
  { intros x Hx. rewrite X4, (same_pages _ _ Un); [done|clear -Hx D D1; set_solver|].
    rewrite <-(elem_of_list_to_set (C := gset Z)). clear -Hx D' D2. set_solver. }
  destruct (held_insert lz4_decompress fuel (view t) (A ++ B) kvs' G' key stored value ids (length A)) as (kvs2 & Hh2 & Em2);
    [done|done|done|done|rewrite length_app; lia|clear -D2; set_solver|done|].
  unfold insert_entry in Hh2. rewrite take_app_length, drop_app_length in Hh2.
  exists ls', (F' ∪ {[lf_id l]}), kvs2, (list_to_set ids ∪ G'). split_and!; [done| | |].
  - rewrite X3. eapply held_kept; [exact Hh2|exact Hsame].
  - clear -D D1; set_solver.
  - by rewrite Em2, Em, insert_delete_eq.
Qed.

Lemma btree_ok_root t ls F :
  btree_ok K t ls F -> root_page_id t <> 0 ->
  exists H, tree K (view t) H None None (root_page_id t) ls F /\ linked 0 ls 0 /\ cache_ok (rightmost_leaf t) ls.
Proof. intros [Hr _|H ls' F' Ht Hli Hca] Hr0; [done|by exists H]. Qed.

(** The tree has the encoded value, which belongs to no entry yet. *)
Lemma upsert_stored_ok t ls F kvs G key value stored ids :
  shortest K = longest K -> longest K <= 353 -> root_page_id t <> 0 ->
  btree_ok K t ls F -> held (view t) (contents ls) kvs G -> F ## G ->
  value_at lz4_decompress (view t) stored value ids -> zlen value <= BTREE_VALUE_MAX_SIZE ->
  (length ids <= fuel)%nat -> F ## list_to_set ids -> list_to_set ids ## G ->
  entry_fits K (key, stored) -> room (pager t) 34 ->
  exists t', (found ← find_leaf (root_page_id t) key;
    page ← bt_read found.1;
    r ← lift (search_leaf page key);
    match r with
    | Found pos =>
        cell ← lift (read_leaf_cell page pos);
        if zlen stored <=? zlen cell.2 then
          _ ← free_chain_if_pointer fuel cell.2;
          page ← lift (overwrite_leaf_value page pos stored);
          bt_write (page_id page) page
        else
          _ ← ignore (delete crc32 fuel key);
          insert_encoded crc32 key stored
    | SearchNotFound _ => insert_encoded crc32 key stored
    end) t = (t', Ok tt) /\ represents t' (<[key := value]> (list_to_map kvs)).
Proof.
  intros Hu HK Hr0 Hok Hh D Hv Hvl Hil D1 D2 He Hroom. destruct (btree_ok_root _ _ _ Hok Hr0) as (H & Ht & Hli & Hca).
  destruct (locate_ok K t _ H ls F key Ht) as
    (t1 & t2 & l & path & lo & hi & L & R & F' & p & E1 & E2 & U & Hfd & EL & EF & Hp & Hl).
  rewrite (eff_bind_ok _ _ _ _ _ E1). cbn [fst]. rewrite (eff_bind_ok _ _ _ _ _ E2).
  destruct (found_entries _ _ _ _ _ _ _ _ _ _ _ _ Hfd) as (Hs & _).
  pose proof (btree_ok_unchanged _ _ _ _ _ U Hok) as Hok2.
  destruct (search_leaf_spec p _ key (proj2 (proj2 (proj2 (proj2 Hl)))) Hs) as [(i & old & E & Hi)|(c & E & Hc)];
    rewrite (eff_bind_lift _ _ _ _ E).
  - rewrite (eff_bind_lift _ _ _ _ (leaf_rep_read _ _ _ _ (proj2 (proj2 (proj2 (proj2 Hl)))) Hi)). cbn [snd].
    destruct (Z.leb_spec (zlen stored) (zlen old)) as [Hle|Hgt].
    + by eapply (replace_ok t ls F kvs G key value stored ids t2 l path p i old H lo hi L R F').
    + assert (Hin : key ∈ (contents ls).*1).
      { rewrite EL, contents_middle, !fmap_app, !elem_of_app. right. left. apply list_elem_of_fmap.
        exists (key, old). split; [done|]. by eapply list_elem_of_lookup_2. }
      rewrite <-(same_pages _ _ U) in Hh, Hv.
      destruct (delete_stored_ok t2 ls F kvs G key (list_to_set ids) Hu HK Hok2 Hh D) as
        (t3 & ls' & F3 & kvs' & G' & E3 & Hok' & Hh' & D' & HF & HG & Em & Hni & Hk & Hr); [done|done|done|].
      assert (E4 : ignore (delete crc32 fuel key) t2 = (t3, Ok tt)) by (unfold ignore; by rewrite E3).
      rewrite (eff_bind_ok _ _ _ _ _ E4). rewrite <-insert_delete_eq, <-Em.
      eapply insert_stored_ok; try done.
      * eapply value_at_frame; [exact Hv|]. intros x Hx. apply Hk. by apply elem_of_list_to_set.
      * clear -D1 HF; set_solver.
      * clear -D2 HG; set_solver.
      * by apply Hr, (same_room _ _ U).
  - rewrite <-(same_pages _ _ U) in Hh, Hv. eapply insert_stored_ok; try done.
    + rewrite EL. eapply found_not_in; [exact Hfd|]. by eapply insertion_point_not_in.
    + by apply (same_room _ _ U).
Qed.

Lemma upsert_ok t M key value :
  shortest K = longest K -> represents t M -> insertable fuel K t key value ->
  exists t', upsert crc32 lz4_compress fuel key value t = (t', Ok tt) /\ represents t' (<[key := value]> M).
Proof.
  intros Hu Hrep Hins. pose proof Hrep as (ls & F & kvs & G & Hok & Hh & D & ->).
  pose proof Hins as [Hkb [Hks Hkl] HK Hvl Hvb Hfu Hroom]. unfold upsert.
  rewrite (eff_bind_ok get_root _ t t (root_page_id t) eq_refl).
  destruct (Z.eqb_spec (root_page_id t) 0) as [E0|E0].
  { apply (insert_new_ok crc32 lz4_compress lz4_decompress lz4_bytes lz4_roundtrip fuel K); [done|done|].
    destruct Hok as [_ _|H ls F Ht _ _]; [by inversion Hh; subst|].
    exfalso. by destruct (tree_root_number _ _ _ _ _ _ _ _ Ht). }
  destruct (bt_encode_ok lz4_compress lz4_decompress lz4_bytes lz4_roundtrip fuel K t ls F kvs G value 34
    Hok Hh D Hvl Hvb Hfu Hroom) as (t1 & stored & ids & E1 & Hok1 & Hh1 & Hv & Hil & D1 & D2 & Hsb & Hsl & Hr1).
  rewrite (eff_bind_ok _ _ _ _ _ E1).
  assert (Er : root_page_id t1 = root_page_id t).
  { unfold bt_encode, within in E1. destruct (encode _ _ (pager t)) as [s1 [ | | ]]; by injection E1 as <- _. }
  rewrite <-Er. eapply upsert_stored_ok; try done. by rewrite Er.
Qed.

(** C2. Deletion from a tree that represents a finite map, with keys of one length of at most
    353 bytes, answers whether the key was there and takes exactly its pair out of the map,
    whatever overflow chain is freed and whatever pages borrow from each other or
    merge, up to the root; a key that is not there changes nothing. *)
Theorem btree_delete t M key :
  represents t M -> shortest K = longest K -> longest K <= 353 ->
  exists t', delete crc32 fuel key t = (t', Ok (bool_decide (is_Some (M !! key)))) /\
    represents t' (base.delete key M).
Proof. intros. by apply delete_ok. Qed.

(** C13. An upsert, with keys of one length of at most 353 bytes, a value within the size limit and room
    in the store, sets the value of its key in the map that the tree represents and
    changes nothing else: the old value is written over when the new one is not
    longer, is deleted and inserted again when it is, and the key is inserted when
    it is not there. *)
Theorem btree_upsert t M key value :
  represents t M -> insertable fuel K t key value -> shortest K = longest K ->
  exists t', upsert crc32 lz4_compress fuel key value t = (t', Ok tt) /\ represents t' (<[key := value]> M).
Proof. intros. by apply upsert_ok. Qed.

(** ** Sequences of operations *)

Inductive op : Type :=
| OpInsert (key value : bytes)
| OpUpsert (key value : bytes)
| OpDelete (key : bytes)
| OpGet (key : bytes).

Inductive answer : Type :=
| Done
| Removed (found : bool)
| Got (value : option bytes).

Definition exec (o : op) : eff (BTree S) BTreeError answer :=
  match o with
  | OpInsert key value => _ ← insert crc32 lz4_compress key value; mret Done
  | OpUpsert key value => _ ← upsert crc32 lz4_compress fuel key value; mret Done
  | OpDelete key => found ← delete crc32 fuel key; mret (Removed found)
  | OpGet key => value ← get lz4_decompress fuel key; mret (Got value)
  end.

(** The same operation on a finite map *)
Definition map_exec (o : op) (M : gmap bytes bytes) : gmap bytes bytes * result BTreeError answer :=
  match o with
  | OpInsert key value =>
      match M !! key with
      | Some _ => (M, Err DuplicateKey)
      | None => (<[key := value]> M, Ok Done)
      end
  | OpUpsert key value => (<[key := value]> M, Ok Done)
  | OpDelete key => (base.delete key M, Ok (Removed (bool_decide (is_Some (M !! key)))))
  | OpGet key => (M, Ok (Got (M !! key)))
  end.

Fixpoint map_run (os : list op) (M : gmap bytes bytes) : gmap bytes bytes * list (result BTreeError answer) :=
  match os with
  | [] => (M, [])
  | o :: os => let '(M1, r) := map_exec o M in let '(M2, rs) := map_run os M1 in (M2, r :: rs)
  end.

(** What the operation asks of the tree it is applied to *)
Definition admissible t (o : op) : Prop :=
  match o with
  | OpInsert key value | OpUpsert key value => insertable fuel K t key value
  | OpDelete _ | OpGet _ => True
  end.

Inductive runs : BTree S -> list op -> list (result BTreeError answer) -> BTree S -> Prop :=
| runs_nil t : runs t [] [] t
| runs_cons t o t1 r os rs t2 :
    admissible t o -> exec o t = (t1, r) -> runs t1 os rs t2 -> runs t (o :: os) (r :: rs) t2.

(** One operation of the tree is one of the map. *)
Lemma exec_simulates t M o :
  shortest K = longest K -> longest K <= 353 -> represents t M -> admissible t o ->
  exists t', exec o t = (t', (map_exec o M).2) /\ represents t' (map_exec o M).1.
Proof.
  intros Hu HK Hrep Had. destruct o as [key value|key value|key|key]; cbn [exec map_exec].
  - destruct (M !! key) as [v|] eqn:Ek.
    + destruct (insert_dup_ok crc32 lz4_compress lz4_decompress lz4_bytes lz4_roundtrip fuel K t M key value Hrep Had)
        as (t' & E & R); [by eexists|]. exists t'. split; [by rewrite (eff_bind_err _ _ _ _ _ E)|done].
    + destruct (insert_new_ok crc32 lz4_compress lz4_decompress lz4_bytes lz4_roundtrip fuel K t M key value Hrep Had Ek)
        as (t' & E & R). exists t'. split; [by rewrite (eff_bind_ok _ _ _ _ _ E)|done].
  - destruct (upsert_ok t M key value Hu Hrep Had) as (t' & E & R). exists t'.
    split; [by rewrite (eff_bind_ok _ _ _ _ _ E)|done].
  - destruct (delete_ok t M key Hu HK Hrep) as (t' & E & R). exists t'.
    split; [by rewrite (eff_bind_ok _ _ _ _ _ E)|done].
  - destruct (get_ok lz4_decompress fuel K t M key Hrep) as (t' & E & _ & R). exists t'.
    split; [by rewrite (eff_bind_ok _ _ _ _ _ E)|done].
Qed.

Lemma runs_simulate t M os rs t' :
  runs t os rs t' -> represents t M -> shortest K = longest K -> longest K <= 353 ->
  represents t' (map_run os M).1 /\ rs = (map_run os M).2.
Proof.
  intros Hr. revert M. induction Hr as [t|t o t1 r os rs t2 Ha E Hr IH]; intros M Hrep Hu HK; [done|].
  destruct (exec_simulates t M o Hu HK Hrep Ha) as (t1' & E' & R'). rewrite E in E'. injection E' as <- ->.
  cbn [map_run]. destruct (map_exec o M) as [M1 r]. cbn [fst snd] in *.
  destruct (IH M1 R' Hu HK) as [R2 ->]. by destruct (map_run os M1).
Qed.

(** C3. A tree refines a finite map: every sequence of insertions, upserts, deletions
    and lookups, with keys of one length of at most 353 bytes, values within the size limit and,
    before each insertion or upsert, room in the store for what it may allocate, gets the answers
    the map gives, refusals included, and the tree that is left represents the map that is left. *)
Theorem btree_refines_map t M os rs t' :
  runs t os rs t' -> represents t M -> shortest K = longest K -> longest K <= 353 ->
  represents t' (map_run os M).1 /\ rs = (map_run os M).2.
Proof. exact (runs_simulate t M os rs t'). Qed.

End laws.

(** ** Instances of the theorems *)

Abbreviation one := (KeySizes 1 1).

Lemma one_insertable : insertable 8 one (new empty_store) [1] [2; 3].
Proof.
  split; [|done|done|vm_compute; discriminate| |vm_compute; lia|apply empty_room; vm_compute; discriminate];
    repeat constructor; unfold byte_ok; lia.
Qed.

Lemma one_tree : exists t : BTree MemStore,
  insert no_crc copy_compress [1] [2; 3] (new empty_store) = (t, Ok tt) /\
  represents copy_decompress 8 one t {[ [1] := [2; 3] ]}.
Proof.
  destruct (insert_new_ok no_crc copy_compress copy_decompress copy_bytes copy_roundtrip 8 one
    (new empty_store) ∅ [1] [2; 3] (new_represents _ _ _ _) one_insertable eq_refl) as (t & E & R).
  exists t. split; [exact E|exact R].
Qed.

Lemma btree_delete_witness :
  exists t t' : BTree MemStore, represents copy_decompress 8 one t {[ [1] := [2; 3] ]} /\
    delete no_crc 8 [1] t = (t', Ok true) /\ represents copy_decompress 8 one t' ∅.
Proof.
  destruct one_tree as (t & _ & R).
  destruct (btree_delete no_crc copy_decompress 8 one t _ [1] R eq_refl ltac:(done)) as (t' & E & R').
  exists t, t'. rewrite lookup_singleton_eq in E. rewrite delete_singleton_eq in R'. split; [exact R|]. split; [exact E|exact R'].
Defined.

Lemma btree_upsert_witness :
  exists t' : BTree MemStore, upsert no_crc copy_compress 8 [1] [2; 3] (new empty_store) = (t', Ok tt) /\
    represents copy_decompress 8 one t' {[ [1] := [2; 3] ]}.
Proof.
  destruct (btree_upsert no_crc copy_compress copy_decompress copy_bytes copy_roundtrip 8 one
    (new empty_store) ∅ [1] [2; 3] (new_represents _ _ _ _) one_insertable eq_refl) as (t' & E & R).
  exists t'. split; [exact E|exact R].
Defined.

Lemma btree_refines_map_witness :
  exists (t' : BTree MemStore) rs,
    runs no_crc copy_compress copy_decompress 8 one (new empty_store)
      [OpInsert [1] [2; 3]; OpDelete [1]; OpGet [1]] rs t' /\
    rs = [Ok Done; Ok (Removed true); Ok (Got None)] /\ represents copy_decompress 8 one t' ∅.
Proof.
  destruct one_tree as (t1 & E1 & R1).
  destruct (delete_ok no_crc copy_decompress 8 one t1 _ [1] eq_refl ltac:(done) R1) as (t2 & E2 & R2).
  destruct (get_ok copy_decompress 8 one t2 _ [1] R2) as (t3 & E3 & _).
  assert (Hr : exists rs, runs no_crc copy_compress copy_decompress 8 one (new empty_store)
      [OpInsert [1] [2; 3]; OpDelete [1]; OpGet [1]] rs t3).
  { eexists. eapply runs_cons; [exact one_insertable|exact (eff_bind_ok _ _ _ _ _ E1)|].
    eapply runs_cons; [exact I|exact (eff_bind_ok _ _ _ _ _ E2)|].
    eapply runs_cons; [exact I|exact (eff_bind_ok _ _ _ _ _ E3)|apply runs_nil]. }
  destruct Hr as (rs & Hr). exists t3, rs. split; [exact Hr|].
  destruct (btree_refines_map no_crc copy_compress copy_decompress copy_bytes copy_roundtrip 8 one
    _ ∅ _ rs t3 Hr (new_represents _ _ _ _) eq_refl ltac:(done)) as [R E].
  split; [exact E|exact R].
Defined.
