(* ===== verification/Database.v ===== *)
(** * The tree on the pager

    The B+ tree of the engine runs over the pager: the tree's theorems ask for a page store
    with its laws, the pager keeps them.  Together: a tree on a pager answers as a map does, and
    what it holds survives [sync], a crash and opening the file again. *)

From S2P Require Import Prelude Vfs FileFormat Page PagerIo PageCache FreeList PageStore Pager Coherence Durability Reopen Overflow ValueLayout Slots Leaf Interior BTree Tree BTreeRead Splits Cursor BTreeInsert BTreeMap BTreeOps.
From Stdlib Require Import ZArith Lia.
#[local] Open Scope Z_scope.

Section database.
Context (crc32 : bytes -> Z) (crc32_u32 : forall b, u32_ok (crc32 b)).
Context (iter : gmap Z nat -> list (Z * nat)) (iter_perm : forall m, iter m ≡ₚ map_to_list m).
Context {W : Type} `{WalBarrier W} (accepts : W -> Prop) (fresh : W -> Z -> bool) (Hlog : log_accepts accepts fresh) (Hcalm : log_calm (W := W)).
Context (lz4_compress : bytes -> bytes) (lz4_decompress : bytes -> Z -> string + bytes).
Context (lz4_bytes : forall d, Forall byte_ok d -> Forall byte_ok (lz4_compress d)).
Context (lz4_roundtrip : forall d, lz4_decompress (lz4_compress d) (zlen d) = inr d).
Context (fuel : nat) (K : key_sizes).
(** The configuration the database will be opened with again *)
Context (cfg : PagerConfig).

#[local] Instance pager_pages : PageStore (Pager W) := Pager_store crc32 iter.

(** [n] more publications of the header are possible, and [cfg] may open the file. *)
Definition lasting (n : Z) (s : Pager W) : Prop :=
  booted crc32 n s /\ admits cfg (db_header s) /\ (verify_checksums cfg = true -> verify_checksums (config s) = true).

Lemma lasting_onward n s s' : onward accepts s s' -> coherent s -> coherent s' -> allocator s' -> lasting n s -> lasting n s'.
Proof.
  intros Hon Hs Hs' Ha' (Hb & Had & Hv). split; [by eapply booted_onward|]. destruct Hon as (_ & -> & _ & -> & _). done.
Qed.

(** The laws of such a pager *)
Definition laws (n : Z) : PageStoreLaws (Pager W) :=
  pager_laws crc32 iter iter_perm accepts fresh Hlog Hcalm crc32_u32 (lasting n) (lasting_onward n).

Definition working (n : Z) : Pager W -> Prop := sound_pager accepts (lasting n).

(** The tree [t] on a pager represents [M]. *)
Definition holds (n : Z) (t : BTree (Pager W)) (M : gmap bytes bytes) : Prop :=
  BTreeRead.represents (PageStoreLaws0 := laws n) lz4_decompress fuel K t M.

Lemma lookup_pages n s id p : pages (PageStoreLaws := laws n) s !! id = Some p <-> working n s /\ stored_pages crc32 s !! id = Some p.
Proof.
  split; [apply if_sound_lookup|]. intros [Hs Hp]. change (if_sound accepts (lasting n) s (stored_pages crc32 s) ∅ !! id = Some p).
  by rewrite if_sound_true.
Qed.

(** A tree that is not empty is on a pager that works. *)
Lemma holds_working n t M : holds n t M -> M <> ∅ -> working n (pager t).
Proof.
  intros (ls & F & kvs & G & Hok & Hh & _ & ->) HM. destruct Hok as [H1 H2|h ls F Ht _ _].
  - inversion Hh; subst. done.
  - assert (is_Some (pages (PageStoreLaws := laws n) (pager t) !! root_page_id t)) as [p Hp] by (inversion Ht; subst; eauto).
    by apply lookup_pages in Hp as [? _].
Qed.

(** A tree moves to a pager that has its pages. *)
Lemma holds_moves n k t M q :
  holds n t M ->
  (forall id p, pages (PageStoreLaws := laws n) (pager t) !! id = Some p -> pages (PageStoreLaws := laws k) q !! id = Some p) ->
  holds k (with_root q (root_page_id t)) M.
Proof.
  intros (ls & F & kvs & G & Hok & Hh & D & ->) Hsub. exists ls, F, kvs, G.
  assert (Hmove : forall x, is_Some (pages (PageStoreLaws := laws n) (pager t) !! x) ->
    pages (PageStoreLaws := laws k) q !! x = pages (PageStoreLaws := laws n) (pager t) !! x).
  { intros x [p Hp]. rewrite Hp. by apply Hsub. }
  split_and!; [|eapply held_kept; [exact Hh|]|done|done].
  - destruct Hok as [H1 H2|h ls F Ht Hl _]; [by apply btree_empty|]. apply (btree_root K _ h); [|done|done].
    eapply tree_frame; [exact Ht|]. intros x Hx. apply Hmove. by eapply tree_pages.
  - intros x Hx. apply Hmove. by eapply held_pages.
Qed.

(** The pages that a pager opened again has *)
Lemma reopened_pages n k s q id p :
  pages (PageStoreLaws := laws n) s !! id = Some p -> working k q -> config q = cfg ->
  (forall j, in_use s j -> in_use q j /\ Coherence.held q j = Coherence.held s j) -> pages (PageStoreLaws := laws k) q !! id = Some p.
Proof.
  intros [(_ & _ & _ & _ & _ & Hv) (Hu & Hh & Hi)%lookup_stored_pages]%lookup_pages Hq Hc Hin. apply lookup_pages. split; [done|].
  apply elem_of_used_pages in Hu as [Hu _]. destruct (Hin id Hu) as [Hu' Hh']. apply lookup_stored_pages. rewrite elem_of_used_pages, Hh', Hh.
  split_and!; [done|by eexists|done|]. intros Hver. apply Hi, Hv. by rewrite <-Hc.
Qed.

(** C4. The engine end to end, for keys of one length, at most 353 bytes, and a log that may ask for page
    images: a tree on a working pager that represents a map answers every sequence of admissible
    insertions, upserts, deletions and lookups (each finds the room it may need: page numbers left,
    and no trunk of the free list on disk) as the map does.  If the map that they lead to is not
    empty, [sync] of the pager then returns; and a tree opened at the same root, on a pager opened
    on the file that a crash leaves, represents that map. *)
Theorem database_durable n t M os rs t' path w :
  0 <= n -> holds (n + 2) t M ->
  BTreeOps.runs (PageStoreLaws0 := laws (n + 2)) crc32 lz4_compress lz4_decompress fuel K t os rs t' ->
  shortest K = longest K -> longest K <= 353 -> (map_run os M).1 <> ∅ -> accepts w ->
  rs = (map_run os M).2 /\ holds (n + 2) t' (map_run os M).1 /\
  exists s, sync crc32 iter (pager t') = (s, Ok tt) /\
    forall c, crash_image (file s) c -> zlen c = zlen (stable (file s)) -> zlen c <= U32_MAX * PAGE_SIZE ->
    exists q, open_owned crc32 iter (reopen c None) path cfg w false = (q, Ok tt) /\
      holds n (with_root q (root_page_id t')) (map_run os M).1.
Proof.
  intros Hn Ht Hr Hu HK HM Hw.
  destruct (runs_simulate crc32 lz4_compress lz4_decompress lz4_bytes lz4_roundtrip fuel K t M os rs t' Hr Ht Hu HK) as [Ht' Hrs].
  split_and!; [done|done|]. pose proof (holds_working _ _ _ Ht' HM) as (Hs & Ha & Hrd & Hb & Had & _).
  destruct (sync_reopens crc32 crc32_u32 iter iter_perm accepts fresh Hlog Hcalm n (pager t') path cfg w Hn
    ltac:(by split_and!) Had Hw) as (s & E & _ & Hre).
  exists s. split; [done|]. intros c Hc Hl Hsz. destruct (Hre c Hc Hl Hsz) as (q & Eq & (H1 & H2 & H3 & H4) & Hcq & Hvq & Hin).
  assert (Hq : working n q).
  { split_and!; [done|done|done|]. split_and!; [done| |by rewrite Hcq]. unfold admits. by rewrite Hvq. }
  exists q. split; [done|]. eapply holds_moves; [exact Ht'|]. intros id p Hp. by eapply reopened_pages.
Qed.
End database.

(** ** The database on the sample pager *)

#[local] Existing Instance SamplePager.log_barrier.

Abbreviation sample_holds := (holds byte_sum byte_sum_u32 map_to_list (fun _ => reflexivity _) SamplePager.accepts SamplePager.fresh
  SamplePager.log_is_accepting SamplePager.log_is_calm copy_decompress 8 (KeySizes 1 1) SamplePager.cfg).

Lemma sample_lasting : working byte_sum SamplePager.accepts SamplePager.cfg 4 SamplePager.pager.
Proof. split_and!; [exact SamplePager.pager_coherent|exact SamplePager.pager_allocator|done|]. split_and!; [exact SamplePager.pager_booted|done|done]. Qed.

Abbreviation sample_laws := (laws byte_sum byte_sum_u32 map_to_list (fun _ => reflexivity _) SamplePager.accepts SamplePager.fresh
  SamplePager.log_is_accepting SamplePager.log_is_calm SamplePager.cfg 4).

Lemma sample_admissible :
  admissible (PageStoreLaws0 := sample_laws) 8 (KeySizes 1 1) (new SamplePager.pager) (OpInsert [1] [2; 3]).
Proof.
  split; [|done|done|vm_compute; discriminate| |vm_compute; lia|].
  - repeat constructor; unfold byte_ok; lia.
  - repeat constructor; unfold byte_ok; lia.
  - split_and!; [exact sample_lasting|done|]. by vm_compute.
Qed.

Lemma database_durable_witness :
  exists (t' : BTree (Pager SamplePager.log)) s, sync byte_sum map_to_list (pager t') = (s, Ok tt) /\
    sample_holds 4 t' {[ [1] := [2; 3] ]} /\
    (zlen (stable (file s)) <= U32_MAX * PAGE_SIZE ->
     exists q, open_owned byte_sum map_to_list (reopen (stable (file s)) None) "data.rdb" SamplePager.cfg SamplePager.durable false = (q, Ok tt) /\
       sample_holds 2 (with_root q (root_page_id t')) {[ [1] := [2; 3] ]}).
Proof.
  destruct (exec_simulates (PageStoreLaws0 := sample_laws) byte_sum copy_compress copy_decompress copy_bytes copy_roundtrip 8 (KeySizes 1 1)
    (new SamplePager.pager) ∅ (OpInsert [1] [2; 3]) eq_refl ltac:(done) (new_represents _ _ _ _) sample_admissible) as (t' & E & _).
  destruct (database_durable byte_sum byte_sum_u32 map_to_list (fun _ => reflexivity _) SamplePager.accepts SamplePager.fresh SamplePager.log_is_accepting
    SamplePager.log_is_calm copy_compress copy_decompress copy_bytes copy_roundtrip 8 (KeySizes 1 1) SamplePager.cfg 2 (new SamplePager.pager) ∅
    [OpInsert [1] [2; 3]] [(map_exec (OpInsert [1] [2; 3]) ∅).2] t' "data.rdb" SamplePager.durable) as (_ & Ht & s & Es & Hc).
  - lia.
  - apply new_represents.
  - eapply runs_cons; [exact sample_admissible|exact E|constructor].
  - done.
  - done.
  - intros Hm. by apply (f_equal (fun m : gmap bytes bytes => m !! [1])) in Hm.
  - done.
  - exists t', s. split; [exact Es|]. split; [exact Ht|]. intros Hl. apply Hc; [|done|exact Hl]. split; [done|]. intros i _. by left.
Defined.
