(* ===== verification/Snapshot.v ===== *)
(** * Multi-version visibility and the snapshot manager

    Models [crates/reddb-engine/src/transaction/visibility.rs], [snapshot.rs]
    and the visibility check of [read.rs].

    The manager is one record; every method holds the state lock or the pool
    lock for its whole body and [next_xid] is written only under the pool lock,
    so a method is one atomic step and an execution is a sequence of them.
    The manager is proved against an abstract outcome map (transaction id to
    active, committed or aborted): a statement's snapshot sees exactly the
    transactions that had committed when it was captured, a transaction's snapshot
    those of them with ids up to its own, and both keep seeing exactly those.  What
    the garbage collection deletes is shown by no snapshot that is protected or
    captured later. *)

From S2P Require Import Prelude.
From Stdlib Require Import ZArith Lia.

#[local] Set Warnings "-clear-no-such-hyp".

(** ** The visibility predicate *)

Definition XID_NONE : Z := 0.

Definition is_visible (xmin xmax snapshot_xid : Z) (in_progress aborted : gset Z) : bool :=
  if negb (xmin =? XID_NONE) && (snapshot_xid <? xmin) then false
  else if negb (xmin =? XID_NONE) && bool_decide (xmin ∈ in_progress) then false
  else if negb (xmin =? XID_NONE) && bool_decide (xmin ∈ aborted) then false
  else if negb (xmax =? XID_NONE) && (xmax <=? snapshot_xid)
          && negb (bool_decide (xmax ∈ in_progress))
          && negb (bool_decide (xmax ∈ aborted)) then false
  else true.

(** ** Snapshots and the manager's state *)

Definition AUTOCOMMIT_POOL_BATCH : Z := 16.

Record Snapshot : Type := {
  snapshot_xid : Z;
  in_progress : gset Z;
}.

Definition sees (s : Snapshot) (xmin xmax : Z) : bool :=
  is_visible xmin xmax (snapshot_xid s) (in_progress s) ∅.

Abbreviation LogicalRowKey := (string * Z)%type.
Abbreviation VaultRead := (string * option string * option string)%type.
Abbreviation VaultWrite := (string * option string * string)%type.

Record SerializableTxnState : Type := {
  read_set : gset LogicalRowKey;
  vault_reads : gset VaultRead;
  incoming_rw : gset Z;
  outgoing_rw : gset Z;
  committed : bool;
}.

Definition SerializableTxnState_default : SerializableTxnState :=
  {| read_set := ∅; vault_reads := ∅; incoming_rw := ∅; outgoing_rw := ∅;
     committed := false |}.

Record AutocommitPool : Type := {
  pool_next : Z;
  pool_end : Z;
}.

Record ManagerState : Type := {
  active : gset Z;
  snapshot_horizons : gmap Z Z;
  statement_horizons : gmap Z Z;
  aborted : gset Z;
  untracked_visibility_revision : Z;
  pinned : gmap Z Z;
  serializable : gmap Z SerializableTxnState;
}.

Definition ManagerState_default : ManagerState :=
  {| active := ∅; snapshot_horizons := ∅; statement_horizons := ∅; aborted := ∅;
     untracked_visibility_revision := 0; pinned := ∅; serializable := ∅ |}.

Record SnapshotManager : Type := {
  next_xid : Z;
  visibility_revision : Z;
  state : ManagerState;
  autocommit_pool : AutocommitPool;
}.

(** Field updates *)
Definition set_read_set (v : gset LogicalRowKey) (t : SerializableTxnState) :=
  {| read_set := v; vault_reads := vault_reads t; incoming_rw := incoming_rw t;
     outgoing_rw := outgoing_rw t; committed := committed t |}.
Definition set_vault_reads (v : gset VaultRead) (t : SerializableTxnState) :=
  {| read_set := read_set t; vault_reads := v; incoming_rw := incoming_rw t;
     outgoing_rw := outgoing_rw t; committed := committed t |}.
Definition set_incoming_rw (v : gset Z) (t : SerializableTxnState) :=
  {| read_set := read_set t; vault_reads := vault_reads t; incoming_rw := v;
     outgoing_rw := outgoing_rw t; committed := committed t |}.
Definition set_outgoing_rw (v : gset Z) (t : SerializableTxnState) :=
  {| read_set := read_set t; vault_reads := vault_reads t; incoming_rw := incoming_rw t;
     outgoing_rw := v; committed := committed t |}.
Definition set_committed (v : bool) (t : SerializableTxnState) :=
  {| read_set := read_set t; vault_reads := vault_reads t; incoming_rw := incoming_rw t;
     outgoing_rw := outgoing_rw t; committed := v |}.

Definition set_active (v : gset Z) (st : ManagerState) :=
  {| active := v; snapshot_horizons := snapshot_horizons st;
     statement_horizons := statement_horizons st; aborted := aborted st;
     untracked_visibility_revision := untracked_visibility_revision st;
     pinned := pinned st; serializable := serializable st |}.
Definition set_snapshot_horizons (v : gmap Z Z) (st : ManagerState) :=
  {| active := active st; snapshot_horizons := v;
     statement_horizons := statement_horizons st; aborted := aborted st;
     untracked_visibility_revision := untracked_visibility_revision st;
     pinned := pinned st; serializable := serializable st |}.
Definition set_statement_horizons (v : gmap Z Z) (st : ManagerState) :=
  {| active := active st; snapshot_horizons := snapshot_horizons st;
     statement_horizons := v; aborted := aborted st;
     untracked_visibility_revision := untracked_visibility_revision st;
     pinned := pinned st; serializable := serializable st |}.
Definition set_aborted (v : gset Z) (st : ManagerState) :=
  {| active := active st; snapshot_horizons := snapshot_horizons st;
     statement_horizons := statement_horizons st; aborted := v;
     untracked_visibility_revision := untracked_visibility_revision st;
     pinned := pinned st; serializable := serializable st |}.
Definition set_untracked (v : Z) (st : ManagerState) :=
  {| active := active st; snapshot_horizons := snapshot_horizons st;
     statement_horizons := statement_horizons st; aborted := aborted st;
     untracked_visibility_revision := v;
     pinned := pinned st; serializable := serializable st |}.
Definition set_pinned (v : gmap Z Z) (st : ManagerState) :=
  {| active := active st; snapshot_horizons := snapshot_horizons st;
     statement_horizons := statement_horizons st; aborted := aborted st;
     untracked_visibility_revision := untracked_visibility_revision st;
     pinned := v; serializable := serializable st |}.
Definition set_serializable (v : gmap Z SerializableTxnState) (st : ManagerState) :=
  {| active := active st; snapshot_horizons := snapshot_horizons st;
     statement_horizons := statement_horizons st; aborted := aborted st;
     untracked_visibility_revision := untracked_visibility_revision st;
     pinned := pinned st; serializable := v |}.

Definition set_state (st : ManagerState) (m : SnapshotManager) :=
  {| next_xid := next_xid m; visibility_revision := visibility_revision m;
     state := st; autocommit_pool := autocommit_pool m |}.
(** [next_xid.fetch_add(n)] *)
Definition fetch_add_next_xid (n : Z) (m : SnapshotManager) :=
  {| next_xid := as_u64 (next_xid m + n); visibility_revision := visibility_revision m;
     state := state m; autocommit_pool := autocommit_pool m |}.
Definition set_next_xid (x : Z) (m : SnapshotManager) :=
  {| next_xid := x; visibility_revision := visibility_revision m;
     state := state m; autocommit_pool := autocommit_pool m |}.
(** [visibility_revision.fetch_add(1)] *)
Definition bump_visibility_revision (m : SnapshotManager) :=
  {| next_xid := next_xid m; visibility_revision := as_u64 (visibility_revision m + 1);
     state := state m; autocommit_pool := autocommit_pool m |}.
Definition set_pool (next end_ : Z) (m : SnapshotManager) :=
  {| next_xid := next_xid m; visibility_revision := visibility_revision m;
     state := state m; autocommit_pool := {| pool_next := next; pool_end := end_ |} |}.

(** [x.saturating_sub(1)] and [x.saturating_add(1)] on [u64] *)
Definition saturating_dec (x : Z) : Z := Z.max 0 (x - 1).
Definition saturating_inc (x : Z) : Z := Z.min U64_MAX (x + 1).

(** [pool.next..pool.end] *)
Definition pool_range (m : SnapshotManager) : gset Z :=
  list_to_set (seqZ (pool_next (autocommit_pool m))
                    (pool_end (autocommit_pool m) - pool_next (autocommit_pool m))).

(** [iter().copied().fold(init, Xid::min)] *)
Definition fold_min (init : Z) (l : list Z) : Z := foldl Z.min init l.

(** [iter().copied().min()] *)
Definition iter_min (l : list Z) : option Z :=
  match l with [] => None | x :: r => Some (fold_min x r) end.

(** ** Operations of the manager *)

Module SnapshotManager.

Definition new : SnapshotManager :=
  {| next_xid := 1; visibility_revision := 0; state := ManagerState_default;
     autocommit_pool := {| pool_next := 0; pool_end := 0 |} |}.

Definition begin (m : SnapshotManager) : SnapshotManager * Z :=
  let pool := autocommit_pool m in
  let m := set_pool (pool_end pool) (pool_end pool) m in
  let xid := next_xid m in
  let m := fetch_add_next_xid 1 m in
  let m := set_state (set_active (active (state m) ∪ {[xid]}) (state m)) m in
  (bump_visibility_revision m, xid).

Definition fresh_read_snapshot (m : SnapshotManager) : Snapshot :=
  {| snapshot_xid := saturating_dec (next_xid m);
     in_progress := active (state m) ∪ pool_range m |}.

(** The horizon that [retain_snapshot_locked] registers. *)
Definition snapshot_horizon (s : Snapshot) : Z :=
  fold_min (saturating_inc (snapshot_xid s)) (elements (in_progress s)).

(** Returns the horizon of the [SnapshotRetentionGuard]. *)
Definition retain_snapshot_locked (s : Snapshot) (m : SnapshotManager) : SnapshotManager * Z :=
  let horizon := snapshot_horizon s in
  let sh := statement_horizons (state m) in
  let count := default 0 (sh !! horizon) in
  (set_state (set_statement_horizons (<[horizon := as_u64 (count + 1)]> sh) (state m)) m,
   horizon).

Definition fresh_retained_snapshot (m : SnapshotManager) : SnapshotManager * (Snapshot * Z) :=
  let s := fresh_read_snapshot m in
  let '(m, guard) := retain_snapshot_locked s m in
  (m, (s, guard)).

Definition retain_snapshot (s : Snapshot) (m : SnapshotManager) : SnapshotManager * (Snapshot * Z) :=
  let '(m, guard) := retain_snapshot_locked s m in
  (m, (s, guard)).

(** [SnapshotRetentionGuard::drop]: the [expect] panics on an unregistered horizon. *)
Definition drop_guard {E} (horizon : Z) (m : SnapshotManager) : result E SnapshotManager :=
  let sh := statement_horizons (state m) in
  match sh !! horizon with
  | None => Panic
  | Some count =>
      Ok (set_state (set_statement_horizons
            (if count =? 1 then delete horizon sh
             else <[horizon := as_u64 (count - 1)]> sh) (state m)) m)
  end.

Definition snapshot (xid : Z) (m : SnapshotManager) : SnapshotManager * Snapshot :=
  let st := state m in
  let in_progress := (active st ∖ {[xid]}) ∪ pool_range m in
  let m :=
    if bool_decide (xid ∈ active st) then
      let horizon := fold_min xid (elements in_progress) in
      let horizon :=
        match snapshot_horizons st !! xid with
        | Some previous => Z.min previous horizon
        | None => horizon
        end in
      set_state (set_snapshot_horizons (<[xid := horizon]> (snapshot_horizons st)) st) m
    else m in
  (m, {| snapshot_xid := xid; in_progress := in_progress |}).

Definition prune_serializable_state (st : ManagerState) : ManagerState :=
  if bool_decide (active st = ∅) then set_serializable ∅ st else st.

Definition commit (xid : Z) (m : SnapshotManager) : SnapshotManager :=
  let st := state m in
  let was_active := bool_decide (xid ∈ active st) in
  let st := set_active (active st ∖ {[xid]}) st in
  let st := set_snapshot_horizons (delete xid (snapshot_horizons st)) st in
  let was_aborted := bool_decide (xid ∈ aborted st) in
  let st := set_aborted (aborted st ∖ {[xid]}) st in
  let m := if was_active || was_aborted then bump_visibility_revision m else m in
  let st := set_serializable (alter (set_committed true) xid (serializable st)) st in
  set_state (prune_serializable_state st) m.

Definition allocate_committed_xid (m : SnapshotManager) : SnapshotManager * Z :=
  let m :=
    if pool_end (autocommit_pool m) <=? pool_next (autocommit_pool m) then
      let start := next_xid m in
      set_pool start (as_u64 (start + AUTOCOMMIT_POOL_BATCH))
        (fetch_add_next_xid AUTOCOMMIT_POOL_BATCH m)
    else m in
  let pool := autocommit_pool m in
  let xid := pool_next pool in
  (set_pool (as_u64 (xid + 1)) (pool_end pool) m, xid).

(** The [expect] on the invalidation counter panics when it overflows. *)
Definition rollback {E} (xid : Z) (m : SnapshotManager) : result E SnapshotManager :=
  let st := state m in
  let st := set_snapshot_horizons (delete xid (snapshot_horizons st)) st in
  let was_active := bool_decide (xid ∈ active st) in
  let st := set_active (active st ∖ {[xid]}) st in
  let newly_aborted := bool_decide (xid ∉ aborted st) in
  let st := set_aborted (aborted st ∪ {[xid]}) st in
  st ← (if newly_aborted && negb was_active then
          if untracked_visibility_revision st =? U64_MAX then Panic
          else Ok (set_untracked (untracked_visibility_revision st + 1) st)
        else Ok st);
  let m := if was_active || newly_aborted then bump_visibility_revision m else m in
  let ser := delete xid (serializable st) in
  let ser := (fun t => set_outgoing_rw (outgoing_rw t ∖ {[xid]})
                         (set_incoming_rw (incoming_rw t ∖ {[xid]}) t)) <$> ser in
  Ok (set_state (prune_serializable_state (set_serializable ser st)) m).

Definition with_serializable (f : gmap Z SerializableTxnState -> gmap Z SerializableTxnState)
  (m : SnapshotManager) : SnapshotManager :=
  set_state (set_serializable (f (serializable (state m))) (state m)) m.

Definition begin_serializable (xid : Z) (m : SnapshotManager) : SnapshotManager :=
  with_serializable (fun ser =>
    match ser !! xid with
    | Some _ => ser
    | None => <[xid := SerializableTxnState_default]> ser
    end) m.

Definition record_serializable_read (reader : Z) (collection : string) (logical_id : Z)
  (m : SnapshotManager) : SnapshotManager :=
  with_serializable (alter (fun t => set_read_set (read_set t ∪ {[(collection, logical_id)]}) t) reader) m.

Definition record_serializable_vault_read (reader : Z) (collection : string)
  (tenant key : option string) (m : SnapshotManager) : SnapshotManager :=
  with_serializable (alter (fun t => set_vault_reads (vault_reads t ∪ {[(collection, tenant, key)]}) t) reader) m.

Definition add_rw_edge (writer : Z) (ser : gmap Z SerializableTxnState) (reader : Z)
  : gmap Z SerializableTxnState :=
  let ser := alter (fun t => set_outgoing_rw (outgoing_rw t ∪ {[writer]}) t) reader ser in
  alter (fun t => set_incoming_rw (incoming_rw t ∪ {[reader]}) t) writer ser.

Definition is_committed (ser : gmap Z SerializableTxnState) (xid : Z) : bool :=
  match ser !! xid with Some t => committed t | None => false end.

Definition serializable_readers_would_be_dangerous (st : ManagerState) (writer : Z)
  (readers : list Z) : ManagerState * bool :=
  let ser := foldl (add_rw_edge writer) (serializable st) readers in
  let st := set_serializable ser st in
  match ser !! writer with
  | None => (st, false)
  | Some writer_state =>
      let has_incoming := negb (bool_decide (incoming_rw writer_state = ∅)) in
      let has_outgoing_to_committed :=
        existsb (is_committed ser) (elements (outgoing_rw writer_state)) in
      (st, has_incoming && has_outgoing_to_committed)
  end.

(** The keys of [serializable] whose transaction satisfies [p] *)
Definition readers_where (p : Z -> SerializableTxnState -> bool)
  (ser : gmap Z SerializableTxnState) : list Z :=
  fst <$> List.filter (fun e => p e.1 e.2) (map_to_list ser).

Definition vault_read_overlaps (write_set : gset VaultWrite) (r : VaultRead) : bool :=
  let '(collection, tenant, key) := r in
  existsb (fun w : VaultWrite =>
    let '(written_collection, written_tenant, written_key) := w in
    bool_decide (collection = written_collection)
    && bool_decide (tenant = written_tenant)
    && match key with None => true | Some key => bool_decide (key = written_key) end)
    (elements write_set).

Definition serializable_vault_commit_would_be_dangerous (writer : Z) (write_set : gset VaultWrite)
  (m : SnapshotManager) : SnapshotManager * bool :=
  let st := state m in
  if bool_decide (is_Some (serializable st !! writer)) then
    let readers := readers_where (fun reader ssi =>
      negb (reader =? writer)
      && existsb (vault_read_overlaps write_set) (elements (vault_reads ssi))) (serializable st) in
    let '(st, b) := serializable_readers_would_be_dangerous st writer readers in
    (set_state st m, b)
  else (m, false).

Definition serializable_commit_would_be_dangerous (writer : Z) (write_set : gset LogicalRowKey)
  (m : SnapshotManager) : SnapshotManager * bool :=
  if bool_decide (write_set = ∅) then (m, false)
  else
    let st := state m in
    if bool_decide (is_Some (serializable st !! writer)) then
      let readers := readers_where (fun reader ssi =>
        negb (reader =? writer)
        && negb (bool_decide (read_set ssi ∩ write_set = ∅))) (serializable st) in
      let '(st, b) := serializable_readers_would_be_dangerous st writer readers in
      (set_state st m, b)
    else (m, false).

Definition is_aborted (xid : Z) (m : SnapshotManager) : bool :=
  bool_decide (xid ∈ aborted (state m)).

Definition checkpoint_projection_state (m : SnapshotManager) : Z * gset Z * Z :=
  (visibility_revision m, aborted (state m) ∪ active (state m),
   untracked_visibility_revision (state m)).

Definition checkpoint_excluded_state (m : SnapshotManager) : Z * gset Z :=
  let '(revision, excluded, _) := checkpoint_projection_state m in (revision, excluded).

Definition is_active (xid : Z) (m : SnapshotManager) : bool :=
  bool_decide (xid ∈ active (state m)).

Definition row_reserves_unique_key (xmin xmax : Z) (own_xids : gset Z) (m : SnapshotManager) : bool :=
  let st := state m in
  if bool_decide (xmin ∈ aborted st) then false
  else if bool_decide (xmin ∈ active st) && negb (bool_decide (xmin ∈ own_xids)) then true
  else if (xmax =? 0) || bool_decide (xmax ∈ aborted st) then true
  else negb (bool_decide (xmax ∈ own_xids)) && bool_decide (xmax ∈ active st).

Definition oldest_active_xid (m : SnapshotManager) : option Z :=
  iter_min (elements (active (state m))).

(** Every xid that garbage collection must preserve. *)
Definition required_xids (m : SnapshotManager) : list Z :=
  elements (active (state m))
  ++ (snd <$> map_to_list (snapshot_horizons (state m)))
  ++ (fst <$> map_to_list (statement_horizons (state m)))
  ++ (fst <$> map_to_list (pinned (state m))).

Definition oldest_required_xid (m : SnapshotManager) : option Z :=
  iter_min (required_xids m).

Definition oldest_pinned_xid (m : SnapshotManager) : option Z :=
  iter_min (fst <$> map_to_list (pinned (state m))).

Definition peek_next_xid (m : SnapshotManager) : Z := next_xid m.

(** The pool lock is held, so the compare-exchange loop ends at its first turn. *)
Definition observe_committed_xid (xid : Z) (m : SnapshotManager) : SnapshotManager :=
  if xid =? XID_NONE then m
  else
    let pool := autocommit_pool m in
    let target := saturating_inc xid in
    let m := set_pool (Z.max (pool_next pool) (Z.min target (pool_end pool))) (pool_end pool) m in
    if next_xid m <? target then set_next_xid target m else m.

Definition prune_aborted (below : Z) (m : SnapshotManager) : SnapshotManager :=
  let st := state m in
  let kept := filter (fun x => below <= x \/ is_Some (pinned st !! x)) (aborted st) in
  let m' := if (Z.of_nat (size (aborted st)) =? Z.of_nat (size kept))
            then m else bump_visibility_revision m in
  set_state (set_aborted kept st) m'.

Definition pin (xid : Z) (m : SnapshotManager) : SnapshotManager :=
  if xid =? XID_NONE then m
  else
    let st := state m in
    let count := default 0 (pinned st !! xid) in
    set_state (set_pinned (<[xid := as_u32 (count + 1)]> (pinned st)) st) m.

Definition unpin (xid : Z) (m : SnapshotManager) : SnapshotManager :=
  if xid =? XID_NONE then m
  else
    let st := state m in
    match pinned st !! xid with
    | None => m
    | Some count =>
        set_state (set_pinned (if count <=? 1 then delete xid (pinned st)
                               else <[xid := count - 1]> (pinned st)) st) m
    end.

Definition is_pinned (xid : Z) (m : SnapshotManager) : bool :=
  bool_decide (is_Some (pinned (state m) !! xid)).

Definition pin_count (xid : Z) (m : SnapshotManager) : Z :=
  default 0 (pinned (state m) !! xid).

End SnapshotManager.

(** ** The read path's check ([read.rs]) *)

Record SnapshotContext : Type := {
  ctx_snapshot : Snapshot;
  own_xids : gset Z;
  requires_index_fallback : bool;
  serializable_reader : option Z;
}.

(** The manager that the context points to is shared and mutable; its current
    state is the first argument. *)
Definition visibility_check (m : SnapshotManager) (ctx : SnapshotContext) (xmin xmax : Z) : bool :=
  if negb (xmin =? 0) && SnapshotManager.is_aborted xmin m then false
  else
    let effective_xmax :=
      if negb (xmax =? 0) && SnapshotManager.is_aborted xmax m then 0 else xmax in
    let own_xmin := negb (xmin =? 0) && bool_decide (xmin ∈ own_xids ctx) in
    let own_xmax := negb (effective_xmax =? 0) && bool_decide (effective_xmax ∈ own_xids ctx) in
    if own_xmax then false
    else if own_xmin then true
    else sees (ctx_snapshot ctx) xmin effective_xmax.

(** [RedDBRuntime::mvcc_vacuum_cutoff_xid] of the server's [mvcc_lifecycle.rs];
    [retention_xids] is the value of [runtime.mvcc.vacuum_retention_xids]. *)
Definition mvcc_vacuum_cutoff_xid (retention_xids : Z) (m : SnapshotManager) : Z :=
  let next_xid := SnapshotManager.peek_next_xid m in
  let cutoff :=
    match SnapshotManager.oldest_required_xid m with
    | Some oldest_required => Z.min next_xid oldest_required
    | None => next_xid
    end in
  if 0 <? retention_xids then Z.min cutoff (Z.max 0 (next_xid - retention_xids)) else cutoff.

(** [reclaimable] of the server's [mvcc_reclaim.rs]: the versions that the paced reclamation deletes.
    The cutoff was computed before, the aborted ids are those of the moment of the test. *)
Definition reclaimable (m : SnapshotManager) (cutoff xmin xmax : Z) : bool :=
  (negb (xmin =? 0) && SnapshotManager.is_aborted xmin m)
  || (negb (xmax =? 0) && (xmax <? cutoff) && negb (SnapshotManager.is_aborted xmax m)).

(** ** Executions

    A world is the manager with two ghost components: the outcome of every
    transaction id handed out so far, and the snapshots whose history is
    protected (by a retention guard or by the transaction that captured it). *)

Inductive outcome : Type := Active | Committed | Aborted.

#[global] Instance outcome_eq_dec : EqDecision outcome.
Proof. solve_decision. Defined.

Inductive holder : Type :=
| Guard (s : Snapshot)
| Txn (xid : Z) (s : Snapshot).

Definition held_snapshot (h : holder) : Snapshot :=
  match h with Guard s => s | Txn _ s => s end.

Definition is_txn (xid : Z) (h : holder) : bool :=
  match h with Guard _ => false | Txn x _ => x =? xid end.

(** The protected snapshots once transaction [xid] has ended. *)
Definition release (xid : Z) (held : list holder) : list holder :=
  List.filter (fun h => negb (is_txn xid h)) held.

Record world : Type := World {
  mgr : SnapshotManager;
  outcomes : gmap Z outcome;
  held : list holder;
}.

(** An id that the manager may still hand out. *)
Definition unissued (m : SnapshotManager) (x : Z) : Prop :=
  next_xid m <= x \/ pool_next (autocommit_pool m) <= x < pool_end (autocommit_pool m).

Section steps.
Import SnapshotManager.

(** The operations that concern only serializable conflicts and pins. *)
Inductive bookkeeping (m : SnapshotManager) : SnapshotManager -> Prop :=
| bk_begin_serializable xid : bookkeeping m (begin_serializable xid m)
| bk_read reader c id : bookkeeping m (record_serializable_read reader c id m)
| bk_vault_read reader c t k : bookkeeping m (record_serializable_vault_read reader c t k m)
| bk_check writer ws : bookkeeping m (serializable_commit_would_be_dangerous writer ws m).1
| bk_vault_check writer ws :
    bookkeeping m (serializable_vault_commit_would_be_dangerous writer ws m).1
| bk_pin xid : bookkeeping m (pin xid m)
| bk_unpin xid : bookkeeping m (unpin xid m).

(** One call on the manager.  A transaction ends once, ids do not reach the top
    of [u64], and recovery imports ids that this manager has not handed out. *)
Inductive step : world -> world -> Prop :=
| step_begin m σ H m' xid :
    next_xid m < U64_MAX ->
    begin m = (m', xid) ->
    step (World m σ H) (World m' (<[xid := Active]> σ) H)
| step_allocate m σ H m' xid :
    next_xid m + AUTOCOMMIT_POOL_BATCH <= U64_MAX ->
    allocate_committed_xid m = (m', xid) ->
    step (World m σ H) (World m' (<[xid := Committed]> σ) H)
| step_commit m σ H xid :
    σ !! xid = Some Active ->
    step (World m σ H) (World (commit xid m) (<[xid := Committed]> σ) (release xid H))
| step_rollback m σ H xid m' :
    σ !! xid = Some Active ->
    rollback (E := unit) xid m = Ok m' ->
    step (World m σ H) (World m' (<[xid := Aborted]> σ) (release xid H))
| step_snapshot m σ H xid m' s :
    σ !! xid = Some Active -> zlen H < U64_MAX ->
    snapshot xid m = (m', s) ->
    step (World m σ H) (World m' σ (Txn xid s :: H))
| step_retain_fresh m σ H m' s g :
    zlen H < U64_MAX ->
    fresh_retained_snapshot m = (m', (s, g)) ->
    step (World m σ H) (World m' σ (Guard s :: H))
| step_retain m σ H m' s s' g :
    zlen H < U64_MAX ->
    retain_snapshot s m = (m', (s', g)) ->
    step (World m σ H) (World m' σ (Guard s' :: H))
| step_drop m σ H1 H2 s m' :
    drop_guard (E := unit) (snapshot_horizon s) m = Ok m' ->
    step (World m σ (H1 ++ Guard s :: H2)) (World m' σ (H1 ++ H2))
| step_observe m σ H x :
    0 < x < U64_MAX -> unissued m x ->
    step (World m σ H) (World (observe_committed_xid x m) (<[x := Committed]> σ) H)
| step_prune m σ H below :
    step (World m σ H)
         (World (prune_aborted below m)
            (filter (fun e => e.2 <> Aborted \/ below <= e.1 \/ is_Some (pinned (state m) !! e.1)) σ)
            H)
| step_bookkeeping m σ H m' :
    bookkeeping m m' ->
    step (World m σ H) (World m' σ H).

Definition initial : world := World new ∅ [].

Definition reachable (w : world) : Prop := rtc step initial w.

End steps.

(** ** The refinement: the manager implements the outcome map *)

Definition pool_ok (m : SnapshotManager) : Prop :=
  let '{| pool_next := n; pool_end := e |} := autocommit_pool m in
  0 <= n <= e /\ e <= next_xid m /\ (n < e -> 0 < n).

Record refines (m : SnapshotManager) (σ : gmap Z outcome) : Prop := {
  ref_next : 1 <= next_xid m <= U64_MAX;
  ref_pool : pool_ok m;
  ref_active : forall x, x ∈ active (state m) <-> σ !! x = Some Active;
  ref_aborted : forall x, x ∈ aborted (state m) <-> σ !! x = Some Aborted;
  ref_issued : forall x o, σ !! x = Some o -> 0 < x /\ ~ unissued m x;
}.

(** What a later world may have changed. *)
Record later (w w' : world) : Prop := {
  later_committed : forall x, outcomes w !! x = Some Committed -> outcomes w' !! x = Some Committed;
  later_aborted : forall x o, outcomes w !! x = Some Aborted -> outcomes w' !! x = Some o -> o = Aborted;
  later_fresh : forall x o, outcomes w !! x = None -> outcomes w' !! x = Some o -> unissued (mgr w) x;
  later_unissued : forall x, unissued (mgr w') x -> unissued (mgr w) x;
}.

Ltac mgr_simpl :=
  cbn [mgr outcomes held state next_xid visibility_revision autocommit_pool pool_next pool_end
       active aborted snapshot_horizons statement_horizons pinned serializable
       untracked_visibility_revision
       set_state set_active set_aborted set_snapshot_horizons set_statement_horizons set_pinned
       set_serializable set_untracked set_pool set_next_xid fetch_add_next_xid
       bump_visibility_revision fst snd] in *.

(** The parts of the manager that the outcome map abstracts. *)
Definition core (m : SnapshotManager) : Z * AutocommitPool * gset Z * gset Z :=
  (next_xid m, autocommit_pool m, active (state m), aborted (state m)).

(** The parts that protect history. *)
Definition horizons (m : SnapshotManager) : gmap Z Z * gmap Z Z :=
  (snapshot_horizons (state m), statement_horizons (state m)).

Lemma refines_core m m' σ : core m' = core m -> refines m σ -> refines m' σ.
Proof.
  unfold core. intros [= En Ep Ea Eb] [H1 H2 H3 H4 H5].
  split; unfold unissued, pool_ok in *; rewrite ?En, ?Ep, ?Ea, ?Eb; auto.
Qed.

Lemma later_core m m' σ H H' : core m' = core m -> later (World m σ H) (World m' σ H').
Proof.
  unfold core. intros [= En Ep Ea Eb].
  split; mgr_simpl; unfold unissued; rewrite ?En, ?Ep; naive_solver.
Qed.

Lemma core_prune st : active (SnapshotManager.prune_serializable_state st) = active st
  /\ aborted (SnapshotManager.prune_serializable_state st) = aborted st
  /\ snapshot_horizons (SnapshotManager.prune_serializable_state st) = snapshot_horizons st
  /\ statement_horizons (SnapshotManager.prune_serializable_state st) = statement_horizons st.
Proof. unfold SnapshotManager.prune_serializable_state. by case_bool_decide. Qed.

Lemma bookkeeping_frame m m' : bookkeeping m m' -> core m' = core m /\ horizons m' = horizons m.
Proof.
  destruct 1; try done;
    unfold SnapshotManager.serializable_commit_would_be_dangerous,
      SnapshotManager.serializable_vault_commit_would_be_dangerous,
      SnapshotManager.serializable_readers_would_be_dangerous,
      SnapshotManager.pin, SnapshotManager.unpin; repeat case_match; simplify_eq; done.
Qed.

Lemma drop_guard_core {E} h m m' :
  SnapshotManager.drop_guard (E := E) h m = Ok m' -> core m' = core m.
Proof. unfold SnapshotManager.drop_guard. intros. case_match; simplify_eq. done. Qed.

Lemma snapshot_core xid m : core (SnapshotManager.snapshot xid m).1 = core m.
Proof. unfold SnapshotManager.snapshot. mgr_simpl. by case_bool_decide. Qed.

(** Handing out one id. *)
Lemma issue_refines m m' σ x o H :
  refines m σ -> o <> Aborted -> 0 < x -> unissued m x -> ~ unissued m' x ->
  (forall y, unissued m' y -> unissued m y) ->
  1 <= next_xid m' <= U64_MAX -> pool_ok m' ->
  active (state m') = (if decide (o = Active) then active (state m) ∪ {[x]} else active (state m)) ->
  aborted (state m') = aborted (state m) ->
  refines m' (<[x := o]> σ) /\ later (World m σ H) (World m' (<[x := o]> σ) H).
Proof.
  intros [Hn Hp Ha Hb Hi] Ho Hx Hu Hu' Hsub Hn' Hp' Ea Eb.
  assert (σ !! x = None) as Hfresh.
  { destruct (σ !! x) eqn:E; [|done]. by apply Hi in E as [_ []]. }
  split; split; mgr_simpl; try done.
  - intros y. rewrite Ea, lookup_insert. specialize (Ha y).
    repeat case_decide; subst; set_solver.
  - intros y. rewrite Eb, Hb, lookup_insert. destruct (decide (x = y)); [subst; split; congruence|done].
  - intros y o'. rewrite lookup_insert. destruct (decide (x = y)); [by subst|].
    intros [? ?]%Hi. split; [done|]. by intros ?%Hsub.
  - intros y. rewrite lookup_insert. destruct (decide (x = y)); congruence.
  - intros y o'. rewrite lookup_insert. destruct (decide (x = y)); congruence.
  - intros y o'. rewrite lookup_insert. destruct (decide (x = y)); congruence.
Qed.

Ltac mgr_lia :=
  unfold unissued, pool_ok, saturating_inc, U64_MAX in *; mgr_simpl;
  rewrite ?as_u64_id in * by (unfold u64_ok; lia); lia.

Lemma begin_refines m σ m' xid H :
  refines m σ -> next_xid m < U64_MAX -> SnapshotManager.begin m = (m', xid) ->
  refines m' (<[xid := Active]> σ) /\ later (World m σ H) (World m' (<[xid := Active]> σ) H).
Proof.
  intros R Hlt [= <- <-]. pose proof (ref_next _ _ R). pose proof (ref_pool _ _ R).
  unfold pool_ok in *. destruct (autocommit_pool m) as [pn pe] eqn:Ep.
  apply issue_refines; [done| | | | | | | | |]; mgr_simpl; try done;
    unfold unissued, pool_ok in *; rewrite ?Ep; intros; mgr_lia.
Qed.

Lemma allocate_refines m σ m' xid H :
  refines m σ -> next_xid m + AUTOCOMMIT_POOL_BATCH <= U64_MAX ->
  SnapshotManager.allocate_committed_xid m = (m', xid) ->
  refines m' (<[xid := Committed]> σ) /\ later (World m σ H) (World m' (<[xid := Committed]> σ) H).
Proof.
  intros R Hlt. pose proof (ref_next _ _ R). pose proof (ref_pool _ _ R).
  unfold SnapshotManager.allocate_committed_xid, AUTOCOMMIT_POOL_BATCH, pool_ok in *.
  destruct (autocommit_pool m) as [pn pe] eqn:Ep. mgr_simpl.
  destruct (Z.leb_spec pe pn); mgr_simpl; rewrite ?Ep; intros [= <- <-];
    (apply issue_refines; [done| | | | | | | | |]; mgr_simpl; try done;
     unfold unissued, pool_ok in *; rewrite ?Ep; intros; mgr_lia).
Qed.

Lemma observe_refines m σ x H :
  refines m σ -> 0 < x < U64_MAX -> unissued m x ->
  refines (SnapshotManager.observe_committed_xid x m) (<[x := Committed]> σ) /\
  later (World m σ H) (World (SnapshotManager.observe_committed_xid x m) (<[x := Committed]> σ) H).
Proof.
  intros R Hx Hu. pose proof (ref_next _ _ R). pose proof (ref_pool _ _ R).
  unfold SnapshotManager.observe_committed_xid, pool_ok, XID_NONE in *.
  rewrite (proj2 (Z.eqb_neq x 0)) by lia.
  destruct (autocommit_pool m) as [pn pe] eqn:Ep. mgr_simpl.
  destruct (Z.ltb_spec (next_xid m) (saturating_inc x));
    (apply issue_refines; [done|done|lia|done| | | | | |]; mgr_simpl; try done;
     unfold unissued, pool_ok in *; rewrite ?Ep in *; intros; mgr_lia).
Qed.

(** Ending a transaction. *)
Lemma finish_refines m m' σ x o H H' :
  refines m σ -> σ !! x = Some Active -> o <> Active ->
  next_xid m' = next_xid m -> autocommit_pool m' = autocommit_pool m ->
  active (state m') = active (state m) ∖ {[x]} ->
  (forall y, y ∈ aborted (state m') <-> y ∈ aborted (state m) /\ y <> x \/ y = x /\ o = Aborted) ->
  refines m' (<[x := o]> σ) /\ later (World m σ H) (World m' (<[x := o]> σ) H').
Proof.
  intros [Hn Hp Ha Hb Hi] Hx Ho En Ep Ea Eb.
  split; split; mgr_simpl; unfold unissued, pool_ok in *; rewrite ?En, ?Ep; try done.
  - intros y. rewrite Ea, lookup_insert. specialize (Ha y). case_decide; set_solver.
  - intros y. rewrite Eb, Hb, lookup_insert.
    case_decide; subst; [split; [intros [[? ?]|[? ->]]|intros [= ->]; right] |
      split; [intros [[? ?]|[? ?]]|left]]; done.
  - intros y o'. rewrite lookup_insert. case_decide; [subst; intros _; by eapply Hi|apply Hi].
  - intros y. rewrite lookup_insert. case_decide; congruence.
  - intros y o'. rewrite lookup_insert. case_decide; congruence.
  - intros y o'. rewrite lookup_insert. case_decide; congruence.
Qed.

Lemma commit_refines m σ xid H H' :
  refines m σ -> σ !! xid = Some Active ->
  refines (SnapshotManager.commit xid m) (<[xid := Committed]> σ) /\
  later (World m σ H) (World (SnapshotManager.commit xid m) (<[xid := Committed]> σ) H').
Proof.
  intros R Hx. apply (finish_refines m); try done; unfold SnapshotManager.commit;
    try by destruct (_ || _).
  - mgr_simpl. by rewrite (proj1 (core_prune _)).
  - intros y. mgr_simpl. rewrite (proj1 (proj2 (core_prune _))). mgr_simpl. set_solver.
Qed.

(** Rolling an active transaction back never panics. *)
Lemma rollback_refines {E} m σ xid H H' :
  refines m σ -> σ !! xid = Some Active ->
  exists m', SnapshotManager.rollback (E := E) xid m = Ok m' /\
  refines m' (<[xid := Aborted]> σ) /\ later (World m σ H) (World m' (<[xid := Aborted]> σ) H').
Proof.
  intros R Hx. unfold SnapshotManager.rollback. mgr_simpl.
  rewrite (bool_decide_eq_true_2 (xid ∈ active (state m))) by (by apply (ref_active _ _ R)).
  rewrite andb_false_r. cbn [mbind result_bind negb orb]. eexists. split; [done|].
  apply (finish_refines m); try done; mgr_simpl.
  - by rewrite (proj1 (core_prune _)).
  - intros y. rewrite (proj1 (proj2 (core_prune _))). mgr_simpl. clear. rewrite elem_of_union, elem_of_singleton.
    destruct (decide (y = xid)); tauto.
Qed.

Lemma prune_refines m σ below H :
  refines m σ ->
  let σ' := filter (fun e => e.2 <> Aborted \/ below <= e.1 \/ is_Some (pinned (state m) !! e.1)) σ in
  refines (SnapshotManager.prune_aborted below m) σ' /\
  later (World m σ H) (World (SnapshotManager.prune_aborted below m) σ' H).
Proof.
  intros R σ'. destruct R as [Hn Hp Ha Hb Hi].
  assert (forall x o, σ' !! x = Some o <-> σ !! x = Some o /\
     (o <> Aborted \/ below <= x \/ is_Some (pinned (state m) !! x))) as Hσ.
  { intros x o. unfold σ'. by rewrite map_lookup_filter_Some. }
  assert (next_xid (SnapshotManager.prune_aborted below m) = next_xid m /\
    autocommit_pool (SnapshotManager.prune_aborted below m) = autocommit_pool m) as [En Ep]
    by (unfold SnapshotManager.prune_aborted; by case_match).
  split; split; mgr_simpl; unfold unissued, pool_ok in *; rewrite ?En, ?Ep; try done.
  - intros x. unfold SnapshotManager.prune_aborted. mgr_simpl. rewrite Ha, Hσ.
    split; [by split; [|left] | by intros [? _]].
  - intros x. unfold SnapshotManager.prune_aborted. mgr_simpl.
    rewrite elem_of_filter, Hb, Hσ. split; [intros [? ?]; split; by try right|].
    by intros [? [?|?]].
  - intros x o [? _]%Hσ. by eapply Hi.
  - intros x. rewrite Hσ. by split; [|left].
  - intros x o ? [? _]%Hσ. congruence.
  - intros x o ? [? _]%Hσ. congruence.
Qed.

Lemma later_refl w : later w w.
Proof. split; congruence || done. Qed.

Lemma later_trans w1 w2 w3 :
  (forall x o, outcomes w1 !! x = Some o -> ~ unissued (mgr w1) x) ->
  later w1 w2 -> later w2 w3 -> later w1 w3.
Proof.
  intros Hi [C1 A1 F1 U1] [C2 A2 F2 U2]. split.
  - intros x Hx. by apply C2, C1.
  - intros x o Hx Ho. destruct (outcomes w2 !! x) as [o2|] eqn:E2.
    + specialize (A1 _ _ Hx E2). subst. by apply (A2 x).
    + destruct (Hi _ _ Hx). by eapply U1, F2.
  - intros x o Hx Ho. destruct (outcomes w2 !! x) as [o2|] eqn:E2; [by eapply F1|].
    by eapply U1, F2.
  - intros x Hx. by apply U1, U2.
Qed.

Lemma step_refines w w' :
  step w w' -> refines (mgr w) (outcomes w) -> refines (mgr w') (outcomes w') /\ later w w'.
Proof.
  destruct 1 as [m σ H m' xid Hlt Hb|m σ H m' xid Hlt Hb|m σ H xid Hx|m σ H xid m' Hx Hr
    |m σ H xid m' s Hx Hl Hs|m σ H m' s g Hl Hs|m σ H m' s s' g Hl Hs|m σ H1 H2 s m' Hd|m σ H x Hx Hu
    |m σ H below|m σ H m' Hb]; mgr_simpl; intros R.
  - by apply begin_refines.
  - by apply allocate_refines.
  - by apply commit_refines.
  - destruct (rollback_refines (E := unit) m σ xid H (release xid H) R Hx) as (m2 & E & HR).
    rewrite E in Hr. by injection Hr as <-.
  - pose proof (snapshot_core xid m) as C. rewrite Hs in C. split; [by apply (refines_core m)|by apply later_core].
  - injection Hs as <- <- <-. split; [by apply (refines_core m)|by apply later_core].
  - injection Hs as <- <- <-. split; [by apply (refines_core m)|by apply later_core].
  - apply drop_guard_core in Hd. split; [by apply (refines_core m)|by apply later_core].
  - by apply observe_refines.
  - by apply prune_refines.
  - apply bookkeeping_frame in Hb as [Hc _]. split; [by apply (refines_core m)|by apply later_core].
Qed.

Lemma steps_refine w w' :
  rtc step w w' -> refines (mgr w) (outcomes w) -> refines (mgr w') (outcomes w') /\ later w w'.
Proof.
  induction 1 as [w|w1 w2 w3 Hs _ IH]; intros R; [by split; [|apply later_refl]|].
  apply step_refines in Hs as [R2 L2]; [|done]. destruct (IH R2) as [R3 L3].
  split; [done|]. eapply later_trans; [|done|done]. intros x o Hx. by eapply (ref_issued _ _ R).
Qed.

Lemma initial_refines : refines (mgr initial) (outcomes initial).
Proof. split; unfold unissued, pool_ok, U64_MAX; cbn; try lia; intros x; set_solver. Qed.

Lemma reachable_refines w : reachable w -> refines (mgr w) (outcomes w).
Proof. intros H. by apply (steps_refine initial), initial_refines. Qed.

(** ** What a snapshot sees *)

(** The id belongs to the reader and has not been rolled back. *)
Definition own_live (own : gset Z) (σ : gmap Z outcome) (x : Z) : bool :=
  bool_decide (x ∈ own) && negb (bool_decide (σ !! x = Some Aborted)).

Definition was_committed (σ : gmap Z outcome) (x : Z) : bool :=
  bool_decide (σ !! x = Some Committed).

(** The specification of a read: [σ] is the outcome map when the snapshot was
    captured, [σ'] the one at the time of the read. *)
Definition read_view (own : gset Z) (σ σ' : gmap Z outcome) (xmin xmax : Z) : bool :=
  if negb (xmax =? 0) && own_live own σ' xmax then false
  else if negb (xmin =? 0) && own_live own σ' xmin then true
  else ((xmin =? 0) || was_committed σ xmin) && negb (negb (xmax =? 0) && was_committed σ xmax).

(** The outcomes of the ids up to [bound] *)
Definition up_to (bound : Z) (σ : gmap Z outcome) : gmap Z outcome := filter (fun e => e.1 <= bound) σ.

Lemma was_committed_up_to bound σ x : was_committed (up_to bound σ) x = (x <=? bound) && was_committed σ x.
Proof.
  unfold was_committed, up_to. apply eq_true_iff_eq. rewrite andb_true_iff, !bool_decide_eq_true, Z.leb_le, map_lookup_filter_Some. cbn. tauto.
Qed.

(** An id that a stored row can carry. *)
Definition stamp_ok (σ : gmap Z outcome) (x : Z) : Prop := x = 0 \/ is_Some (σ !! x).

(** A snapshot that hides what was unfinished in [m], up to ids of the reader. *)
Record captured (m : SnapshotManager) (own : gset Z) (s : Snapshot) : Prop := {
  captured_xid : snapshot_xid s < next_xid m;
  captured_in_progress : forall x, x ∉ own ->
    (x ∈ in_progress s <-> x ∈ active (state m) \/ x ∈ pool_range m);
}.

Lemma elem_of_pool_range m x :
  x ∈ pool_range m <-> pool_next (autocommit_pool m) <= x < pool_end (autocommit_pool m).
Proof. unfold pool_range. rewrite elem_of_list_to_set, elem_of_seqZ. lia. Qed.

(** A live id is in the snapshot's past exactly when it had committed at capture. *)
Lemma captured_settled w w' own s x :
  refines (mgr w) (outcomes w) -> rtc step w w' -> captured (mgr w) own s ->
  x ∉ own -> is_Some (outcomes w' !! x) -> outcomes w' !! x <> Some Aborted ->
  x <= snapshot_xid s /\ x ∉ in_progress s <-> x <= snapshot_xid s /\ outcomes w !! x = Some Committed.
Proof.
  intros R Hst [Hx Hip] Hown [o Ho] Hna.
  destruct (steps_refine _ _ Hst R) as [R' L]. rewrite (Hip x Hown), elem_of_pool_range.
  rewrite (ref_active _ _ R). destruct (outcomes w !! x) as [[]|] eqn:E.
  - split; [intros [_ []]; by left|by intros [_ ?]].
  - destruct (ref_issued _ _ R _ _ E) as [_ Hu]. unfold unissued in Hu.
    split; [by intros [? _]|]. intros [? _]. split; [done|]. intros [?|?]; [done|lia].
  - pose proof (later_aborted _ _ L _ _ E Ho). congruence.
  - split; [|by intros [_ ?]]. pose proof (later_fresh _ _ L _ _ E Ho) as Hu. unfold unissued in Hu.
    intros [? Hn]. destruct Hn. right. lia.
Qed.

(** [x] had committed from the snapshot's point of view. *)
Definition in_past (s : Snapshot) (x : Z) : bool :=
  (x <=? snapshot_xid s) && negb (bool_decide (x ∈ in_progress s)).

Lemma sees_in_past s xmin xmax :
  sees s xmin xmax =
    ((xmin =? 0) || in_past s xmin) && negb (negb (xmax =? 0) && in_past s xmax).
Proof.
  unfold sees, is_visible, in_past, XID_NONE.
  rewrite !(bool_decide_eq_false_2 (_ ∈ (∅ : gset Z))) by set_solver.
  rewrite (Z.ltb_antisym xmin). destruct (xmin =? 0), (xmin <=? _), (bool_decide (xmin ∈ _));
    cbn; try done; destruct (xmax =? 0), (xmax <=? _), (bool_decide (xmax ∈ _)); done.
Qed.

Section view.
Context (w w' : world) (ctx : SnapshotContext).
Hypothesis reach : refines (mgr w) (outcomes w).
Hypothesis exec : rtc step w w'.
Hypothesis capt : captured (mgr w) (own_xids ctx) (ctx_snapshot ctx).

Lemma aborted_now x :
  SnapshotManager.is_aborted x (mgr w') = bool_decide (outcomes w' !! x = Some Aborted).
Proof.
  destruct (steps_refine _ _ exec reach) as [R' _].
  unfold SnapshotManager.is_aborted. apply bool_decide_ext, (ref_aborted _ _ R').
Qed.

Lemma in_past_committed x :
  x ∉ own_xids ctx -> is_Some (outcomes w' !! x) -> outcomes w' !! x <> Some Aborted ->
  in_past (ctx_snapshot ctx) x = was_committed (up_to (snapshot_xid (ctx_snapshot ctx)) (outcomes w)) x.
Proof.
  intros Hown Hs Hna. pose proof (captured_settled _ _ _ _ _ reach exec capt Hown Hs Hna) as Hc.
  rewrite was_committed_up_to. unfold in_past, was_committed. apply eq_true_iff_eq.
  rewrite !andb_true_iff, negb_true_iff, bool_decide_eq_false, bool_decide_eq_true, !Z.leb_le. exact Hc.
Qed.

Lemma aborted_not_committed x :
  outcomes w' !! x = Some Aborted -> was_committed (up_to (snapshot_xid (ctx_snapshot ctx)) (outcomes w)) x = false.
Proof.
  destruct (steps_refine _ _ exec reach) as [_ L]. intros Hx. rewrite was_committed_up_to.
  replace (was_committed (outcomes w) x) with false; [apply andb_false_r|]. symmetry. apply bool_decide_eq_false_2.
  intros Hc%(later_committed _ _ L). congruence.
Qed.

Lemma visibility_check_view xmin xmax :
  stamp_ok (outcomes w') xmin -> stamp_ok (outcomes w') xmax ->
  visibility_check (mgr w') ctx xmin xmax
  = read_view (own_xids ctx) (up_to (snapshot_xid (ctx_snapshot ctx)) (outcomes w)) (outcomes w') xmin xmax.
Proof.
  intros Hmin Hmax. unfold visibility_check, read_view, own_live. rewrite !aborted_now.
  destruct (bool_decide_reflect (outcomes w' !! xmax = Some Aborted)) as [Ax|Ax];
    destruct (bool_decide_reflect (outcomes w' !! xmin = Some Aborted)) as [An|An];
    rewrite ?(aborted_not_committed xmax Ax), ?(aborted_not_committed xmin An), ?sees_in_past;
    destruct (bool_decide_reflect (xmin ∈ own_xids ctx));
    destruct (bool_decide_reflect (xmax ∈ own_xids ctx));
    destruct (Z.eqb_spec xmin 0) as [Z1|Z1]; destruct (Z.eqb_spec xmax 0) as [Z2|Z2];
    cbn; rewrite ?Z2, ?(proj2 (Z.eqb_neq xmax 0) Z2), ?bool_decide_eq_false_2 by done; cbn; try done;
    destruct Hmin as [?|Hmin]; destruct Hmax as [?|Hmax]; try done;
    rewrite ?in_past_committed by done; try done;
    by rewrite ?bool_decide_eq_true_2, ?andb_false_r, ?andb_true_r by done.
Qed.

End view.

Lemma fresh_captured m σ own :
  refines m σ -> captured m own (SnapshotManager.fresh_read_snapshot m).
Proof.
  intros R. pose proof (ref_next _ _ R). split; cbn; unfold saturating_dec; [lia|].
  intros x _. by rewrite elem_of_union.
Qed.

Lemma snapshot_captured m xid own :
  xid < next_xid m -> xid ∈ own -> captured m own (SnapshotManager.snapshot xid m).2.
Proof.
  intros Hlt Hown. split; [done|]. intros x Hx. cbn. assert (x <> xid) by congruence. set_solver.
Qed.

(** Every id handed out is in the past of a fresh snapshot. *)
Lemma up_to_all m σ : refines m σ -> up_to (snapshot_xid (SnapshotManager.fresh_read_snapshot m)) σ = σ.
Proof.
  intros R. apply map_filter_id. intros x o Hx. destruct (ref_issued _ _ R _ _ Hx) as [_ Hu].
  cbn. unfold saturating_dec, unissued in *. lia.
Qed.

(** C25. A read-committed statement: at any later point of the execution, the
    read path shows a stored row version exactly when, in the outcome map at the
    moment [fresh_read_snapshot] was taken, its creator had committed and its
    deleter had not, where the reader's own transaction ids count as committed
    until they are rolled back.  Transactions that begin, commit or roll back
    after the capture, autocommit ids that were reserved but not yet handed out,
    and imported ids never change the answer. *)
Theorem read_committed_view w w' own fallback reader xmin xmax :
  reachable w -> rtc step w w' ->
  stamp_ok (outcomes w') xmin -> stamp_ok (outcomes w') xmax ->
  visibility_check (mgr w')
    {| ctx_snapshot := SnapshotManager.fresh_read_snapshot (mgr w); own_xids := own;
       requires_index_fallback := fallback; serializable_reader := reader |} xmin xmax
  = read_view own (outcomes w) (outcomes w') xmin xmax.
Proof.
  intros Hr Hs Hmin Hmax. apply reachable_refines in Hr as R.
  rewrite (visibility_check_view w w'); [|done|done|by apply (fresh_captured _ (outcomes w))|done|done].
  cbn [own_xids ctx_snapshot]. by rewrite up_to_all.
Qed.

(** C24. A transaction that keeps the snapshot of its start (isolation levels above read committed).
    [begin] and [snapshot] are two calls, and other connections may run in between.  The
    snapshot fixes the view for the whole execution: a row version is shown exactly when its
    creator had committed by the time of [snapshot] and has an id not above that of the
    transaction (or is one of the transaction's own ids, not rolled back), and its deleter had
    not or has a greater id. *)
Theorem transaction_view w m xid own fallback reader w1 w' xmin xmax :
  reachable w -> next_xid (mgr w) < U64_MAX ->
  SnapshotManager.begin (mgr w) = (m, xid) -> xid ∈ own ->
  rtc step (World m (<[xid := Active]> (outcomes w)) (held w)) w1 -> rtc step w1 w' ->
  stamp_ok (outcomes w') xmin -> stamp_ok (outcomes w') xmax ->
  visibility_check (mgr w')
    {| ctx_snapshot := (SnapshotManager.snapshot xid (mgr w1)).2; own_xids := own;
       requires_index_fallback := fallback; serializable_reader := reader |} xmin xmax
  = read_view own (up_to xid (outcomes w1)) (outcomes w') xmin xmax.
Proof.
  intros Hr Hlt Hb Hown Hs1 Hs Hmin Hmax. apply reachable_refines in Hr as R.
  destruct (begin_refines _ _ _ _ (held w) R Hlt Hb) as [R0 _].
  destruct (steps_refine _ _ Hs1 R0) as [R1 L]. cbn [mgr outcomes] in *.
  destruct (ref_issued _ _ R0 xid Active (lookup_insert_eq _ _ _)) as [_ Hu].
  apply (visibility_check_view w1 w'); [done|done| |done|done]. apply snapshot_captured; [|done].
  destruct (Z.lt_ge_cases xid (next_xid (mgr w1))); [done|]. destruct Hu. apply (later_unissued _ _ L). by left.
Qed.

(** ** Retention: protected snapshots and garbage collection *)

Lemma fold_min_le init l : fold_min init l <= init /\ forall x, x ∈ l -> fold_min init l <= x.
Proof.
  revert init. induction l as [|y l IH]; intros init; cbn.
  - split; [lia|]. set_solver.
  - destruct (IH (Z.min init y)) as [H1 H2]. fold (fold_min (Z.min init y) l). split; [lia|].
    intros x [->|Hx]%elem_of_cons; [lia|by apply H2].
Qed.

Lemma iter_min_le l c x : iter_min l = Some c -> x ∈ l -> c <= x.
Proof.
  destruct l as [|y l]; [done|]. cbn. intros [= <-] [->|Hx]%elem_of_cons;
    pose proof (fold_min_le y l) as [H1 H2]; [done|by apply H2].
Qed.

Lemma iter_min_elem l x : x ∈ l -> exists c, iter_min l = Some c.
Proof. destruct l; [set_solver|]. intros _. by eexists. Qed.

Definition guard_horizon (h : holder) : option Z :=
  match h with Guard s => Some (SnapshotManager.snapshot_horizon s) | Txn _ _ => None end.

(** How many guards are registered at horizon [h], as the manager stores it. *)
Definition guard_count (h : Z) (H : list holder) : option Z :=
  let n := zlen (List.filter (fun g => bool_decide (guard_horizon g = Some h)) H) in
  if n =? 0 then None else Some n.

(** The horizon registered for transaction [xid] reaches below everything [s] hides. *)
Definition txn_protected (m : SnapshotManager) (xid : Z) (s : Snapshot) : Prop :=
  xid ∈ active (state m) /\
  exists h, snapshot_horizons (state m) !! xid = Some h /\ h <= snapshot_xid s
            /\ forall x, x ∈ in_progress s -> h <= x.

Record held_ok (m : SnapshotManager) (H : list holder) : Prop := {
  held_len : zlen H <= U64_MAX;
  held_guards : forall h, statement_horizons (state m) !! h = guard_count h H;
  held_txns : forall xid s, Txn xid s ∈ H -> txn_protected m xid s;
}.

Lemma held_frame m m' H :
  active (state m) ⊆ active (state m') -> horizons m' = horizons m ->
  held_ok m H -> held_ok m' H.
Proof.
  unfold horizons. intros Ha [= E1 E2] [Hl Hg Ht]. split; [done|by rewrite E2|].
  intros xid s (Hx & h & Hh)%Ht. unfold txn_protected. rewrite E1. set_solver.
Qed.

Lemma guard_count_release h xid H : guard_count h (release xid H) = guard_count h H.
Proof.
  unfold guard_count, release.
  assert (List.filter (fun g => bool_decide (guard_horizon g = Some h))
            (List.filter (fun g => negb (is_txn xid g)) H)
          = List.filter (fun g => bool_decide (guard_horizon g = Some h)) H) as ->; [|done].
  induction H as [|[s|x s] H IH]; [done| |].
  - cbn. by rewrite IH.
  - cbn. by destruct (x =? xid).
Qed.

Lemma length_release xid H : zlen (release xid H) <= zlen H.
Proof. unfold zlen, release. pose proof (List.filter_length_le (fun h => negb (is_txn xid h)) H). lia. Qed.

Lemma elem_of_release xid y s H : Txn y s ∈ release xid H -> Txn y s ∈ H /\ y <> xid.
Proof.
  unfold release. rewrite !list_elem_of_In, List.filter_In. cbn. intros [? Hb].
  split; [done|]. intros ->. by rewrite Z.eqb_refl in Hb.
Qed.

Lemma held_release m m' xid H :
  active (state m') = active (state m) ∖ {[xid]} ->
  snapshot_horizons (state m') = delete xid (snapshot_horizons (state m)) ->
  statement_horizons (state m') = statement_horizons (state m) ->
  held_ok m H -> held_ok m' (release xid H).
Proof.
  intros Ea E1 E2 [Hl Hg Ht]. pose proof (length_release xid H). split; [lia| |].
  - intros h. by rewrite E2, guard_count_release.
  - intros y s [(Hy & h & Hh & ?)%Ht Hne]%elem_of_release. unfold txn_protected. rewrite Ea, E1.
    split; [set_solver|]. exists h. by rewrite lookup_delete_ne.
Qed.

Lemma held_commit m xid H : held_ok m H -> held_ok (SnapshotManager.commit xid m) (release xid H).
Proof.
  apply held_release; unfold SnapshotManager.commit; mgr_simpl;
    destruct (core_prune (set_serializable (alter (set_committed true) xid (serializable (state m)))
      (set_aborted (aborted (state m) ∖ {[xid]})
         (set_snapshot_horizons (delete xid (snapshot_horizons (state m)))
            (set_active (active (state m) ∖ {[xid]}) (state m)))))) as (A & B & C & D);
    unfold set_serializable, set_aborted, set_snapshot_horizons, set_active in *; mgr_simpl; done.
Qed.

Lemma held_rollback {E} m m' xid H :
  SnapshotManager.rollback (E := E) xid m = Ok m' -> held_ok m H -> held_ok m' (release xid H).
Proof.
  unfold SnapshotManager.rollback. intros Hr. inv_bind Hr. injection Hr as <-.
  assert (active a = active (state m) ∖ {[xid]} /\
    snapshot_horizons a = delete xid (snapshot_horizons (state m)) /\
    statement_horizons a = statement_horizons (state m)) as (Ha & Hb & Hc).
  { repeat case_match; simplify_eq; done. }
  apply held_release; mgr_simpl;
  match goal with |- context [SnapshotManager.prune_serializable_state ?st] =>
    destruct (core_prune st) as (A & B & C & D) end; by rewrite ?A, ?C, ?D.
Qed.

Lemma guard_count_insert h s H1 H2 :
  guard_count h (H1 ++ Guard s :: H2) =
    (if decide (SnapshotManager.snapshot_horizon s = h)
     then Some (default 0 (guard_count h (H1 ++ H2)) + 1)
     else guard_count h (H1 ++ H2)).
Proof.
  unfold guard_count. rewrite !List.filter_app. cbn.
  case_decide as Hd; [rewrite bool_decide_eq_true_2 by congruence
                     |rewrite bool_decide_eq_false_2 by congruence; done].
  set (l1 := List.filter _ H1). set (l2 := List.filter _ H2).
  unfold zlen. rewrite !length_app. cbn. rewrite (proj2 (Z.eqb_neq (Z.of_nat (length l1 + S (length l2))) 0)) by lia.
  destruct (Z.eqb_spec (Z.of_nat (length l1 + length l2)) 0); cbn; f_equal; lia.
Qed.

Lemma guard_count_pos h H n : guard_count h H = Some n -> 1 <= n <= zlen H.
Proof.
  unfold guard_count. set (p := fun g => _).
  pose proof (List.filter_length_le p H). unfold zlen in *.
  destruct (Z.eqb_spec (Z.of_nat (length (List.filter p H))) 0); [done|]. intros [= <-]. lia.
Qed.

Lemma held_retain m s H :
  zlen H < U64_MAX -> held_ok m H ->
  held_ok (SnapshotManager.retain_snapshot_locked s m).1 (Guard s :: H).
Proof.
  intros Hlt [Hl Hg Ht]. split; [unfold zlen in *; cbn; lia| |].
  - intros h. pose proof (guard_count_insert h s [] H) as Hc. cbn [app] in Hc.
    unfold SnapshotManager.retain_snapshot_locked. mgr_simpl. rewrite Hc, lookup_insert, Hg.
    repeat case_decide; subst; try done. cbn. f_equal.
    destruct (guard_count _ H) as [n|] eqn:E; cbn; [apply guard_count_pos in E|];
      rewrite as_u64_id; unfold u64_ok, U64_MAX in *; try lia.
  - intros xid s' [?|Hin]%elem_of_cons; [done|]. by apply Ht in Hin.
Qed.

(** Dropping an outstanding guard neither panics nor touches the other guards. *)
Lemma held_drop {E} m s H1 H2 :
  held_ok m (H1 ++ Guard s :: H2) ->
  exists m', SnapshotManager.drop_guard (E := E) (SnapshotManager.snapshot_horizon s) m = Ok m'
             /\ held_ok m' (H1 ++ H2).
Proof.
  intros [Hl Hg Ht]. unfold SnapshotManager.drop_guard.
  pose proof (Hg (SnapshotManager.snapshot_horizon s)) as Hs.
  rewrite guard_count_insert in Hs. case_decide; [|done]. rewrite Hs. eexists. split; [done|].
  split.
  - rewrite zlen_app in *. unfold zlen in *. cbn in Hl. lia.
  - intros h. mgr_simpl. specialize (Hg h). rewrite guard_count_insert in Hg.
    destruct (guard_count (SnapshotManager.snapshot_horizon s) (H1 ++ H2)) as [n|] eqn:E0;
      cbn in *; [apply guard_count_pos in E0 as Hn|].
    + rewrite (proj2 (Z.eqb_neq (n + 1) 1)) by lia. rewrite lookup_insert.
      case_decide; [subst|done]. rewrite E0, as_u64_id; [f_equal; lia|].
      rewrite !zlen_app in *. unfold zlen, u64_ok, U64_MAX in *. cbn in *. lia.
    + change (0 + 1 =? 1) with true. cbv iota. rewrite lookup_delete. case_decide; [by subst|done].
  - intros xid s' Hin. apply Ht. set_solver.
Qed.

Lemma held_snapshot_step m xid H m' s :
  xid ∈ active (state m) -> zlen H < U64_MAX -> SnapshotManager.snapshot xid m = (m', s) ->
  held_ok m H -> held_ok m' (Txn xid s :: H).
Proof.
  unfold SnapshotManager.snapshot. intros Hx Hlt. rewrite bool_decide_eq_true_2 by done.
  set (ip := _ ∪ _). intros [= <- <-] [Hl Hg Ht].
  destruct (fold_min_le xid (elements ip)) as [F1 F2].
  split; [unfold zlen in *; cbn; lia|intros h; mgr_simpl; by rewrite Hg|].
  intros y s' [[= -> ->]|Hin]%elem_of_cons; unfold txn_protected; mgr_simpl.
  - split; [done|]. rewrite lookup_insert_eq. eexists. split; [done|]. cbn.
    split; [case_match; lia|]. intros x Hxi.
    assert (fold_min xid (elements ip) <= x) by (by apply F2, elem_of_elements). case_match; lia.
  - apply Ht in Hin as (Hy & h & Hh & Hle & Hall). split; [done|].
    rewrite lookup_insert. case_decide as Hd; [subst y; rewrite Hh|by eauto].
    eexists. split; [done|]. split; [lia|]. intros x Hxi%Hall. lia.
Qed.

Lemma step_held w w' :
  step w w' -> refines (mgr w) (outcomes w) -> held_ok (mgr w) (held w) -> held_ok (mgr w') (held w').
Proof.
  destruct 1 as [m σ H m' xid Hlt Hb|m σ H m' xid Hlt Hb|m σ H xid Hx|m σ H xid m' Hx Hr
    |m σ H xid m' s Hx Hl Hs|m σ H m' s g Hl Hs|m σ H m' s s' g Hl Hs|m σ H1 H2 s m' Hd|m σ H x Hx Hu
    |m σ H below|m σ H m' Hb]; mgr_simpl; intros R; try (intros Hh; exact Hh).
  - injection Hb as <- <-. apply held_frame; [mgr_simpl; set_solver|done].
  - unfold SnapshotManager.allocate_committed_xid in Hb. injection Hb as <- <-.
    by apply held_frame; mgr_simpl; destruct (_ <=? _).
  - apply held_commit.
  - by eapply held_rollback.
  - apply held_snapshot_step; [by apply (ref_active _ _ R)|done|done].
  - injection Hs as <- <- <-. by apply held_retain.
  - injection Hs as <- <- <-. by apply held_retain.
  - intros (m2 & Em & Hh)%(held_drop (E := unit)). rewrite Em in Hd. by injection Hd as <-.
  - unfold SnapshotManager.observe_committed_xid.
    apply held_frame; mgr_simpl; repeat case_match; done.
  - by apply held_frame.
  - apply bookkeeping_frame in Hb as [Hc Hh]. unfold core in Hc. injection Hc as ? ? Ha ?.
    apply held_frame; [by rewrite Ha|done].
Qed.

Lemma reachable_held w : reachable w -> held_ok (mgr w) (held w).
Proof.
  intros Hr. unfold reachable in Hr. apply rtc_ind_r with (P := fun w => held_ok (mgr w) (held w)) in Hr;
    [done| |].
  - split; cbn; [done|done|set_solver].
  - intros w1 w2 H1 H2. apply step_held; [done|]. by apply reachable_refines.
Qed.

Lemma cutoff_le retention m x :
  x ∈ SnapshotManager.required_xids m -> mvcc_vacuum_cutoff_xid retention m <= x.
Proof.
  intros Hx. unfold mvcc_vacuum_cutoff_xid, SnapshotManager.oldest_required_xid.
  destruct (iter_min_elem _ _ Hx) as [c Hc]. rewrite Hc. pose proof (iter_min_le _ _ _ Hc Hx).
  destruct (0 <? retention); lia.
Qed.

Lemma cutoff_le_next retention m :
  mvcc_vacuum_cutoff_xid retention m <= next_xid m.
Proof.
  unfold mvcc_vacuum_cutoff_xid, SnapshotManager.peek_next_xid. repeat case_match; lia.
Qed.

(** The cutoff stays below whatever a protected snapshot hides. *)
Lemma cutoff_below_held retention w h :
  reachable w -> h ∈ held w ->
  mvcc_vacuum_cutoff_xid retention (mgr w) <= snapshot_xid (held_snapshot h) + 1 /\
  forall x, x ∈ in_progress (held_snapshot h) -> mvcc_vacuum_cutoff_xid retention (mgr w) <= x.
Proof.
  intros Hr Hh. apply reachable_held in Hr as [Hl Hg Ht]. destruct h as [s|xid s]; cbn.
  - assert (mvcc_vacuum_cutoff_xid retention (mgr w) <= SnapshotManager.snapshot_horizon s) as Hc.
    { apply cutoff_le. unfold SnapshotManager.required_xids.
      apply list_elem_of_split in Hh as (H1 & H2 & Eh).
      specialize (Hg (SnapshotManager.snapshot_horizon s)).
      rewrite Eh, guard_count_insert, decide_True in Hg by done.
      rewrite !elem_of_app, !list_elem_of_fmap. right. right. left. eexists (_, _).
      split; [|by apply elem_of_map_to_list]. done. }
    destruct (fold_min_le (saturating_inc (snapshot_xid s)) (elements (in_progress s))) as [F1 F2].
    unfold SnapshotManager.snapshot_horizon in Hc. unfold saturating_inc in *. split; [lia|].
    intros x Hx%elem_of_elements%F2. lia.
  - apply Ht in Hh as (_ & hz & Hz & Hle & Hall).
    assert (mvcc_vacuum_cutoff_xid retention (mgr w) <= hz) as Hc.
    { apply cutoff_le. unfold SnapshotManager.required_xids.
      rewrite !elem_of_app, !list_elem_of_fmap. right. left. exists (xid, hz).
      split; [done|by apply elem_of_map_to_list]. }
    split; [lia|]. intros x Hx%Hall. lia.
Qed.

Lemma in_past_hides s xmin xmax : 0 < xmax -> in_past s xmax = true -> sees s xmin xmax = false.
Proof.
  intros H1 H2. rewrite sees_in_past, H2, (proj2 (Z.eqb_neq xmax 0)) by lia. apply andb_false_r.
Qed.

(** The ids that are active later were active, or are greater than every id handed out before. *)
Definition grows (w w' : world) : Prop :=
  next_xid (mgr w) <= next_xid (mgr w') /\
  forall x, outcomes w' !! x = Some Active -> outcomes w !! x = Some Active \/ next_xid (mgr w) <= x.

#[local] Instance grows_preorder : PreOrder grows.
Proof.
  split; [split; [lia|by left]|]. intros w1 w2 w3 [N1 A1] [N2 A2]. split; [lia|].
  intros x [[?|?]%A1|?]%A2; [by left|by right|right; lia].
Qed.

Lemma grows_insert m m' σ H H' x o :
  next_xid m <= next_xid m' -> (o = Active -> next_xid m <= x) -> grows (World m σ H) (World m' (<[x := o]> σ) H').
Proof.
  intros Hn Hx. split; [done|]. cbn. intros y Hy. apply lookup_insert_Some in Hy as [[-> ->]|[_ ?]]; [right; by apply Hx|by left].
Qed.

Lemma grows_core m m' σ H H' : core m' = core m -> grows (World m σ H) (World m' σ H').
Proof. intros [= E _ _ _]. split; cbn; [lia|by left]. Qed.

Lemma step_grows w w' : step w w' -> refines (mgr w) (outcomes w) -> grows w w'.
Proof.
  destruct 1 as [m σ H m' xid Hlt Hb|m σ H m' xid Hlt Hb|m σ H xid Hx|m σ H xid m' Hx Hr
    |m σ H xid m' s Hx Hl Hs|m σ H m' s g Hl Hs|m σ H m' s s' g Hl Hs|m σ H1 H2 s m' Hd|m σ H x Hx Hu
    |m σ H below|m σ H m' Hb]; mgr_simpl; intros R; pose proof (ref_next _ _ R) as Hn.
  - injection Hb as <- <-. apply grows_insert; cbn; [|lia]. rewrite as_u64_id; unfold u64_ok, U64_MAX in *; lia.
  - injection Hb as <- <-. apply grows_insert; [|done]. destruct (_ <=? _); cbn; [|lia].
    rewrite as_u64_id; unfold u64_ok, U64_MAX, AUTOCOMMIT_POOL_BATCH in *; lia.
  - apply grows_insert; [|done]. unfold SnapshotManager.commit. repeat case_match; mgr_simpl; lia.
  - destruct (rollback_refines (E := unit) m σ xid H (release xid H) R Hx) as (m2 & E & R2 & _).
    rewrite E in Hr. injection Hr as <-. apply grows_insert; [|done].
    unfold SnapshotManager.rollback in E. destruct (if _ && _ then _ else _); [|done|done]. injection E as <-. cbn.
    destruct (_ || _); cbn; lia.
  - pose proof (snapshot_core xid m) as C. rewrite Hs in C. by apply grows_core.
  - injection Hs as <- <- <-. by apply grows_core.
  - injection Hs as <- <- <-. by apply grows_core.
  - apply drop_guard_core in Hd. by apply grows_core.
  - apply grows_insert; [|done]. unfold SnapshotManager.observe_committed_xid. repeat case_match; mgr_simpl; lia.
  - split; cbn; [unfold SnapshotManager.prune_aborted; case_match; cbn; lia|].
    intros x [? _]%map_lookup_filter_Some. by left.
  - apply bookkeeping_frame in Hb as [Hc _]. by apply grows_core.
Qed.

Lemma steps_grow w w' : rtc step w w' -> refines (mgr w) (outcomes w) -> grows w w'.
Proof.
  induction 1 as [|w1 w2 w3 H12 _ IH]; intros R; [reflexivity|]. transitivity w2; [by apply step_grows|].
  apply IH. by eapply step_refines.
Qed.

(** The snapshots that a read after the cutoff was computed may use: those protected then by a guard or
    by their transaction, and those captured later, for a statement or for a running transaction *)
Inductive usable (w : world) : Snapshot -> Prop :=
| usable_held h : h ∈ held w -> usable w (held_snapshot h)
| usable_fresh w1 : rtc step w w1 -> usable w (SnapshotManager.fresh_read_snapshot (mgr w1))
| usable_txn w1 xid : rtc step w w1 -> outcomes w1 !! xid = Some Active -> usable w ((SnapshotManager.snapshot xid (mgr w1)).2).

Section reclaim.
Context (retention : Z) (w : world) (Hr : reachable w).
Context (xmax : Z) (Hissued : is_Some (outcomes w !! xmax)) (Hcut : xmax < mvcc_vacuum_cutoff_xid retention (mgr w)).

Lemma cutoff_settled w1 :
  rtc step w w1 -> (xmax ∉ active (state (mgr w1))) /\ ~ unissued (mgr w1) xmax.
Proof.
  intros Hs. apply reachable_refines in Hr as R. destruct Hissued as [o Ho].
  destruct (steps_refine _ _ Hs R) as [R1 L]. destruct (ref_issued _ _ R _ _ Ho) as [_ Hu].
  split; [|by intros ?%(later_unissued _ _ L)].
  rewrite (ref_active _ _ R1). intros Ha. destruct o.
  - apply (ref_active _ _ R) in Ho.
    assert (mvcc_vacuum_cutoff_xid retention (mgr w) <= xmax); [|lia]. apply cutoff_le.
    unfold SnapshotManager.required_xids. rewrite elem_of_app, elem_of_elements. by left.
  - apply (later_committed _ _ L) in Ho. congruence.
  - by apply (later_aborted _ _ L _ _ Ho) in Ha.
Qed.

Lemma cutoff_not_aborted w1 w2 :
  rtc step w w1 -> SnapshotManager.is_aborted xmax (mgr w1) = false -> rtc step w1 w2 ->
  SnapshotManager.is_aborted xmax (mgr w2) = false.
Proof.
  intros H1 Ha H2. apply reachable_refines in Hr as R. destruct (steps_refine _ _ H1 R) as [R1 L1].
  destruct (steps_refine _ _ H2 R1) as [R2 L2]. destruct (cutoff_settled w1 H1) as [Hact Hu].
  apply bool_decide_eq_false in Ha. rewrite (ref_aborted _ _ R1) in Ha. rewrite (ref_active _ _ R1) in Hact.
  apply bool_decide_eq_false. rewrite (ref_aborted _ _ R2). intros Hb.
  destruct (outcomes w1 !! xmax) as [[]|] eqn:E; [done| |done|].
  - apply (later_committed _ _ L2) in E. congruence.
  - by apply (later_fresh _ _ L2 _ _ E) in Hb.
Qed.

Lemma cutoff_txn w1 xid : rtc step w w1 -> outcomes w1 !! xid = Some Active -> xmax < xid.
Proof.
  intros Hs Ha. apply reachable_refines in Hr as R. destruct (steps_grow _ _ Hs R) as [_ Hg].
  pose proof (cutoff_le_next retention (mgr w)). destruct (Hg _ Ha) as [Hw|?]; [|lia].
  apply (ref_active _ _ R) in Hw. assert (mvcc_vacuum_cutoff_xid retention (mgr w) <= xid); [|lia]. apply cutoff_le.
  unfold SnapshotManager.required_xids. rewrite elem_of_app, elem_of_elements. by left.
Qed.

Lemma usable_in_past s : usable w s -> in_past s xmax = true.
Proof.
  assert (Hp : forall s, xmax <= snapshot_xid s -> xmax ∉ in_progress s -> in_past s xmax = true).
  { intros t ? ?. unfold in_past. by rewrite (proj2 (Z.leb_le _ _)), bool_decide_eq_false_2. }
  intros [h Hh|w1 Hs|w1 xid Hs Ha]; apply Hp.
  - destruct (cutoff_below_held retention w h Hr Hh). lia.
  - destruct (cutoff_below_held retention w h Hr Hh) as [_ Hc]. intros ?%Hc. lia.
  - destruct (cutoff_settled w1 Hs) as [_ Hu]. cbn. unfold saturating_dec, unissued in *. lia.
  - destruct (cutoff_settled w1 Hs) as [Hna Hu]. cbn. rewrite elem_of_union, elem_of_pool_range. unfold unissued in Hu. intros [?|?]; [done|lia].
  - pose proof (cutoff_txn w1 xid Hs Ha). cbn. lia.
  - destruct (cutoff_settled w1 Hs) as [Hna Hu]. cbn. rewrite elem_of_union, elem_of_difference, elem_of_pool_range. unfold unissued in Hu.
    intros [[? _]|?]; [done|lia].
Qed.
End reclaim.

(** C28. Garbage collection is safe: a row version that the reclamation deletes is one that no read
    from then on would show.  The version was tested in state [w] against a cutoff computed in an
    earlier state [w0]; its deleter's id, if it has a deleter, had been handed out in [w0].  The
    read, in any later state, goes through the read path with its aborted and own ids, on a snapshot
    that was protected in [w0] by a retention guard or its active transaction, or that is captured
    after [w0] for a statement or a running transaction.  The reader has created the version only if
    it has also deleted it, and the outcome of a rolled back creator has not been forgotten. *)
Theorem vacuum_cutoff_safe retention w0 w w' ctx xmin xmax :
  reachable w0 -> rtc step w0 w -> rtc step w w' -> stamp_ok (outcomes w0) xmax ->
  reclaimable (mgr w) (mvcc_vacuum_cutoff_xid retention (mgr w0)) xmin xmax = true ->
  usable w0 (ctx_snapshot ctx) ->
  (xmin ∈ own_xids ctx -> xmax ∈ own_xids ctx) -> stamp_ok (outcomes w') xmin ->
  visibility_check (mgr w') ctx xmin xmax = false.
Proof.
  intros Hr H1 H2 Hx Hrec Hu Hown Hmin. apply reachable_refines in Hr as R.
  destruct (steps_refine _ _ H1 R) as [R1 _]. destruct (steps_refine _ _ H2 R1) as [R2 L].
  unfold visibility_check. apply orb_true_iff in Hrec as [[Hm Ha]%andb_true_iff|[[Hm Hc]%andb_true_iff Hna]%andb_true_iff].
  - apply bool_decide_eq_true, (ref_aborted _ _ R1) in Ha. destruct Hmin as [->|[o Ho]]; [done|].
    rewrite (later_aborted _ _ L _ _ Ha Ho) in Ho. apply (ref_aborted _ _ R2) in Ho.
    unfold SnapshotManager.is_aborted. by rewrite Hm, (bool_decide_eq_true_2 _ Ho).
  - apply negb_true_iff in Hm, Hna. apply Z.eqb_neq in Hm as Hm'. apply Z.ltb_lt in Hc. destruct Hx as [?|Hx]; [done|].
    rewrite (cutoff_not_aborted retention w0 Hr xmax Hx Hc w w' H1 Hna H2), andb_false_r, Hm.
    destruct (negb (xmin =? 0) && SnapshotManager.is_aborted xmin (mgr w')); [done|]. cbn.
    case_bool_decide as Ho; [done|]. rewrite (bool_decide_eq_false_2 (xmin ∈ _)), andb_false_r by auto.
    rewrite sees_in_past, (usable_in_past retention w0 Hr xmax Hx Hc _ Hu), Hm. apply andb_false_r.
Qed.

(** Dropping a retention guard that is still held never hits the [expect] in
    [SnapshotRetentionGuard::drop], and leaves every other guard registered. *)
Theorem guard_drop_total {E} w H1 s H2 :
  reachable w -> held w = H1 ++ Guard s :: H2 ->
  exists m', SnapshotManager.drop_guard (E := E) (SnapshotManager.snapshot_horizon s) (mgr w) = Ok m'
             /\ held_ok m' (H1 ++ H2).
Proof. intros Hr%reachable_held Hh. rewrite Hh in Hr. by apply held_drop. Qed.

(** ** Serializable conflicts *)

Lemma is_committed_edge writer ser reader x :
  SnapshotManager.is_committed (SnapshotManager.add_rw_edge writer ser reader) x
  = SnapshotManager.is_committed ser x.
Proof.
  unfold SnapshotManager.is_committed, SnapshotManager.add_rw_edge. rewrite !lookup_alter.
  repeat case_decide; subst; by destruct (ser !! _).
Qed.

Lemma is_committed_edges writer readers ser x :
  SnapshotManager.is_committed (foldl (SnapshotManager.add_rw_edge writer) ser readers) x
  = SnapshotManager.is_committed ser x.
Proof.
  revert ser. induction readers as [|r readers IH]; intros ser; [done|].
  cbn. by rewrite IH, is_committed_edge.
Qed.

Lemma writer_after_edges writer readers ser t :
  writer ∉ readers -> ser !! writer = Some t ->
  foldl (SnapshotManager.add_rw_edge writer) ser readers !! writer
  = Some (set_incoming_rw (incoming_rw t ∪ list_to_set readers) t).
Proof.
  revert ser t. induction readers as [|r readers IH]; intros ser t Hw Ht; cbn.
  - rewrite Ht. f_equal. destruct t. unfold set_incoming_rw. cbn. f_equal. set_solver.
  - apply not_elem_of_cons in Hw as [Hr Hw].
    rewrite (IH _ (set_incoming_rw (incoming_rw t ∪ {[r]}) t)); [|done|].
    + f_equal. unfold set_incoming_rw. cbn. f_equal. set_solver.
    + unfold SnapshotManager.add_rw_edge.
      by rewrite lookup_alter, decide_True, lookup_alter_ne, Ht by done.
Qed.

Lemma elem_of_readers_where p ser x :
  x ∈ SnapshotManager.readers_where p ser <-> exists t, ser !! x = Some t /\ p x t = true.
Proof.
  unfold SnapshotManager.readers_where. rewrite list_elem_of_fmap. split.
  - intros ([y t] & -> & Hin). rewrite list_elem_of_In, List.filter_In, <- list_elem_of_In in Hin.
    destruct Hin as [Hin Hp]. exists t. by rewrite elem_of_map_to_list in Hin.
  - intros (t & Ht & Hp). exists (x, t). split; [done|].
    by rewrite list_elem_of_In, List.filter_In, <- list_elem_of_In, elem_of_map_to_list.
Qed.

Lemma readers_dangerous_iff st writer readers t :
  writer ∉ readers -> serializable st !! writer = Some t ->
  (SnapshotManager.serializable_readers_would_be_dangerous st writer readers).2 = true <->
  (readers <> [] \/ incoming_rw t <> ∅) /\
  exists out, out ∈ outgoing_rw t /\ SnapshotManager.is_committed (serializable st) out = true.
Proof.
  intros Hw Ht. unfold SnapshotManager.serializable_readers_would_be_dangerous.
  rewrite (writer_after_edges _ _ _ t) by done. cbn.
  rewrite andb_true_iff, negb_true_iff, bool_decide_eq_false, List.existsb_exists.
  assert (incoming_rw t ∪ list_to_set readers <> (∅ : gset Z) <-> readers <> [] \/ incoming_rw t <> ∅) as ->.
  { destruct readers as [|r rs]; [rewrite list_to_set_nil, (right_id_L ∅ (∪)); naive_solver|].
    split; [by left|]. intros _. set_solver. }
  split; intros [? (out & Hout & Hc)]; (split; [done|]); exists out.
  - rewrite <- list_elem_of_In, elem_of_elements in Hout. by rewrite is_committed_edges in Hc.
  - rewrite <- list_elem_of_In, elem_of_elements. by rewrite is_committed_edges.
Qed.

(** The serializable commit check reports a dangerous structure exactly when
    the writer is tracked, it has an incoming read-write conflict (one recorded
    before, or a tracked transaction whose recorded reads intersect the write
    set), and one of its recorded outgoing conflicts leads to a committed
    transaction. *)
Theorem serializable_check_iff writer write_set m :
  write_set <> ∅ ->
  (SnapshotManager.serializable_commit_would_be_dangerous writer write_set m).2 = true <->
  exists t, serializable (state m) !! writer = Some t /\
    (incoming_rw t <> ∅ \/
     exists reader t', reader <> writer /\ serializable (state m) !! reader = Some t'
                       /\ read_set t' ∩ write_set <> ∅) /\
    exists out, out ∈ outgoing_rw t /\
                SnapshotManager.is_committed (serializable (state m)) out = true.
Proof.
  intros Hne. unfold SnapshotManager.serializable_commit_would_be_dangerous.
  rewrite bool_decide_eq_false_2 by done.
  destruct (serializable (state m) !! writer) as [t|] eqn:Ht.
  2:{ rewrite bool_decide_eq_false_2 by (by intros [? ?]). naive_solver. }
  rewrite bool_decide_eq_true_2 by done. cbv zeta.
  set (p := fun reader ssi => _).
  set (readers := SnapshotManager.readers_where p (serializable (state m))).
  assert (forall x, x ∈ readers <-> exists t', serializable (state m) !! x = Some t'
     /\ x <> writer /\ read_set t' ∩ write_set <> ∅) as Hreaders.
  { intros x. unfold readers. rewrite elem_of_readers_where. unfold p.
    setoid_rewrite andb_true_iff. setoid_rewrite negb_true_iff.
    setoid_rewrite Z.eqb_neq. setoid_rewrite bool_decide_eq_false. naive_solver. }
  assert (writer ∉ readers) as Hw by (rewrite Hreaders; naive_solver).
  pose proof (readers_dangerous_iff (state m) writer readers t Hw Ht) as Hd.
  destruct (SnapshotManager.serializable_readers_would_be_dangerous _ _ _) as [st b]. cbn in *.
  rewrite Hd. clear Hd. split.
  - intros [Hin Hout]. exists t. split; [done|]. split; [|done]. destruct Hin as [Hr|Hr]; [right|by left].
    destruct readers as [|r rs]; [done|]. destruct (proj1 (Hreaders r)) as (t' & ? & ? & ?); [set_solver|].
    by exists r, t'.
  - intros (t0 & [= <-] & Hin & Hout). split; [|done]. destruct Hin as [?|(r & t' & ? & ? & ?)]; [by right|left].
    intros Hnil. assert (r ∈ readers) as Hr by (apply Hreaders; by exists t'). rewrite Hnil in Hr. set_solver.
Qed.

(** ** Sample executions *)

(** Transaction 1 begins and commits; transaction 2 begins. *)
Definition sample0 : world := World (SnapshotManager.begin SnapshotManager.new).1 (<[1 := Active]> ∅) [].
Definition sample1 : world :=
  World (SnapshotManager.commit 1 (mgr sample0)) (<[1 := Committed]> (outcomes sample0)) [].
Definition sample2 : world :=
  World (SnapshotManager.begin (mgr sample1)).1 (<[2 := Active]> (outcomes sample1)) [].
(** Transaction 2 commits. *)
Definition sample3 : world :=
  World (SnapshotManager.commit 2 (mgr sample2)) (<[2 := Committed]> (outcomes sample2)) [].

Lemma sample0_step : step initial sample0.
Proof. by apply (step_begin SnapshotManager.new ∅ [] (mgr sample0) 1). Qed.

Lemma sample1_step : step sample0 sample1.
Proof. by apply (step_commit (mgr sample0) (outcomes sample0) [] 1). Qed.

Lemma sample2_step : step sample1 sample2.
Proof. by apply (step_begin (mgr sample1) (outcomes sample1) [] (mgr sample2) 2). Qed.

Lemma sample3_step : step sample2 sample3.
Proof. by apply (step_commit (mgr sample2) (outcomes sample2) [] 2). Qed.

Lemma sample1_reachable : reachable sample1.
Proof. eapply rtc_l; [apply sample0_step|]. apply rtc_once, sample1_step. Qed.

Lemma sample2_reachable : reachable sample2.
Proof. eapply rtc_r; [apply sample1_reachable|]. apply sample2_step. Qed.

(** A statement snapshot taken while transaction 2 runs does not show its row
    even after it commits, and shows the row of transaction 1. *)
Lemma read_committed_view_witness :
  visibility_check (mgr sample3)
    {| ctx_snapshot := SnapshotManager.fresh_read_snapshot (mgr sample2); own_xids := ∅;
       requires_index_fallback := false; serializable_reader := None |} 1 0 = true /\
  visibility_check (mgr sample3)
    {| ctx_snapshot := SnapshotManager.fresh_read_snapshot (mgr sample2); own_xids := ∅;
       requires_index_fallback := false; serializable_reader := None |} 2 0 = false.
Proof.
  split.
  - rewrite (read_committed_view sample2 sample3 ∅ false None 1 0 sample2_reachable
      (rtc_once _ _ sample3_step) ltac:(right; by eexists) ltac:(by left)). by vm_compute.
  - rewrite (read_committed_view sample2 sample3 ∅ false None 2 0 sample2_reachable
      (rtc_once _ _ sample3_step) ltac:(right; by eexists) ltac:(by left)). by vm_compute.
Defined.

(** Transaction 3 begins while transaction 2 runs, and transaction 2 commits before transaction 3 takes its
    snapshot: transaction 3 sees the row that transaction 2 created, and not the one that it deleted. *)
Definition sample4 : world :=
  World (SnapshotManager.begin (mgr sample2)).1 (<[3 := Active]> (outcomes sample2)) [].
Definition sample5 : world :=
  World (SnapshotManager.commit 2 (mgr sample4)) (<[2 := Committed]> (outcomes sample4)) [].

Lemma sample5_step : step sample4 sample5.
Proof. by apply (step_commit (mgr sample4) (outcomes sample4) [] 2). Qed.

Lemma transaction_view_witness :
  visibility_check (mgr sample5)
    {| ctx_snapshot := (SnapshotManager.snapshot 3 (mgr sample5)).2; own_xids := {[3]};
       requires_index_fallback := false; serializable_reader := None |} 2 0 = true /\
  visibility_check (mgr sample5)
    {| ctx_snapshot := (SnapshotManager.snapshot 3 (mgr sample5)).2; own_xids := {[3]};
       requires_index_fallback := false; serializable_reader := None |} 1 2 = false.
Proof.
  split; (etransitivity; [apply (transaction_view sample2 (mgr sample4) 3 {[3]} false None sample5 sample5
    _ _ sample2_reachable ltac:(by vm_compute) ltac:(by vm_compute) ltac:(set_solver) (rtc_once _ _ sample5_step) (rtc_refl _ _))|]);
    [right; by eexists|by left|by vm_compute|right; by eexists|right; by eexists|by vm_compute].
Defined.

(** A retained statement snapshot. *)
Definition sample_retained : world :=
  World (SnapshotManager.fresh_retained_snapshot (mgr sample2)).1 (outcomes sample2)
    [Guard (SnapshotManager.fresh_read_snapshot (mgr sample2))].

Lemma sample_retained_reachable : reachable sample_retained.
Proof.
  eapply rtc_r; [apply sample2_reachable|].
  eapply (step_retain_fresh (mgr sample2) (outcomes sample2) []); [by vm_compute|].
  reflexivity.
Qed.

(** A version that transaction 1 deleted may go: the retained statement does not see it. *)
Lemma vacuum_cutoff_safe_witness :
  mvcc_vacuum_cutoff_xid 0 (mgr sample_retained) = 2 /\
  visibility_check (mgr sample_retained)
    {| ctx_snapshot := SnapshotManager.fresh_read_snapshot (mgr sample2); own_xids := ∅;
       requires_index_fallback := false; serializable_reader := None |} 0 1 = false.
Proof.
  split; [by vm_compute|].
  apply (vacuum_cutoff_safe 0 sample_retained sample_retained sample_retained _ 0 1 sample_retained_reachable (rtc_refl _ _) (rtc_refl _ _)).
  - right. by eexists.
  - by vm_compute.
  - apply (usable_held sample_retained (Guard (SnapshotManager.fresh_read_snapshot (mgr sample2)))). by apply list_elem_of_singleton.
  - set_solver.
  - by left.
Defined.

(** That the deleter's id had been handed out is needed: the cutoff does not count the
    autocommit ids that are reserved but not yet handed out.  An id is handed out, the cutoff is
    computed, a statement captures its snapshot, and an autocommitted deletion takes the next reserved
    id: the version passes the test of the reclamation, and the statement still sees it. *)
Definition pooled0 : world :=
  World (SnapshotManager.allocate_committed_xid SnapshotManager.new).1 (<[1 := Committed]> ∅) [].
Definition pooled1 : world :=
  World (SnapshotManager.fresh_retained_snapshot (mgr pooled0)).1 (outcomes pooled0)
    [Guard (SnapshotManager.fresh_read_snapshot (mgr pooled0))].
Definition pooled2 : world :=
  World (SnapshotManager.allocate_committed_xid (mgr pooled1)).1 (<[2 := Committed]> (outcomes pooled1)) (held pooled1).

Example cutoff_ignores_reserved_ids :
  reachable pooled0 /\ rtc step pooled0 pooled2 /\
  reclaimable (mgr pooled2) (mvcc_vacuum_cutoff_xid 0 (mgr pooled0)) 1 2 = true /\
  visibility_check (mgr pooled2)
    {| ctx_snapshot := SnapshotManager.fresh_read_snapshot (mgr pooled0); own_xids := ∅;
       requires_index_fallback := false; serializable_reader := None |} 1 2 = true.
Proof.
  split; [|split; [|split; by vm_compute]].
  - apply rtc_once. apply (step_allocate SnapshotManager.new ∅ [] (mgr pooled0) 1); by vm_compute.
  - eapply (rtc_l _ _ pooled1).
    + eapply (step_retain_fresh (mgr pooled0) (outcomes pooled0) []); [by vm_compute|reflexivity].
    + apply rtc_once. apply (step_allocate (mgr pooled1) (outcomes pooled1) (held pooled1) (mgr pooled2) 2); by vm_compute.
Qed.

Lemma guard_drop_total_witness :
  exists m', SnapshotManager.drop_guard (E := unit)
    (SnapshotManager.snapshot_horizon (SnapshotManager.fresh_read_snapshot (mgr sample2)))
    (mgr sample_retained) = Ok m' /\ held_ok m' [].
Proof.
  exact (guard_drop_total sample_retained []
    (SnapshotManager.fresh_read_snapshot (mgr sample2)) [] sample_retained_reachable eq_refl).
Defined.

(** A pivot: transaction 3 read what committed transaction 2 overwrote and
    overwrites what transaction 1 read. *)
Definition sample_pivot : SnapshotManager :=
  SnapshotManager.with_serializable (fun _ =>
    {[ 1 := set_read_set {[("t", 7)]} SerializableTxnState_default;
       2 := set_committed true SerializableTxnState_default;
       3 := set_outgoing_rw {[2]} SerializableTxnState_default ]}) SnapshotManager.new.

Lemma serializable_check_iff_witness :
  (SnapshotManager.serializable_commit_would_be_dangerous 3 {[("t", 7)]} sample_pivot).2 = true.
Proof.
  apply (serializable_check_iff 3 {[("t", 7)]} sample_pivot); [set_solver|].
  exists (set_outgoing_rw {[2]} SerializableTxnState_default). split; [by vm_compute|]. split.
  - right. exists 1, (set_read_set {[("t", 7)]} SerializableTxnState_default).
    split; [done|]. split; [by vm_compute|]. set_solver.
  - exists 2. split; [set_solver|by vm_compute].
Defined.
