(* ===== verification/TxnState.v ===== *)
(** * Per-connection transactions, savepoints and version selection

    Models [crates/reddb-engine/src/transaction/state.rs] and the row-version
    selection of [read.rs] over the snapshot manager of [Snapshot.v].

    The invariant [txns_ok] says that every id a connection owns (its
    transaction, its open savepoints, its released savepoints) is active and
    owned once; it is preserved by every operation.  The theorems state what
    COMMIT, ROLLBACK, SAVEPOINT, RELEASE and ROLLBACK TO do to the outcome of
    every transaction id. *)

From S2P Require Import Prelude Snapshot.
From Stdlib Require Import ZArith Lia.

#[local] Set Warnings "-clear-no-such-hyp".

Inductive IsolationLevel : Type :=
| ReadUncommitted
| ReadCommitted
| SnapshotIsolation
| Serializable.

#[global] Instance IsolationLevel_eq_dec : EqDecision IsolationLevel.
Proof. solve_decision. Defined.

Record TxnContext : Type := {
  txn_xid : Z;
  isolation : IsolationLevel;
  txn_snapshot : Snapshot;
  savepoints : list (string * Z);
  released_sub_xids : list Z;
}.

Definition set_savepoints (sps : list (string * Z)) (released : list Z) (c : TxnContext) : TxnContext :=
  {| txn_xid := txn_xid c; isolation := isolation c; txn_snapshot := txn_snapshot c;
     savepoints := sps; released_sub_xids := released |}.

(** [TxnContext::writer_xid] *)
Definition context_writer_xid (c : TxnContext) : Z :=
  default (txn_xid c) (snd <$> last (savepoints c)).

Record TransactionState : Type := {
  snapshot_manager : SnapshotManager;
  contexts : gmap Z TxnContext;
  local_tenants : gmap Z (option string);
}.

Record RollbackToSavepoint : Type := {
  savepoint_xid : Z;
  aborted_xids : list Z;
}.

Inductive SavepointError : Type := SavepointMissing (name : string).

(** [iter().position(|(n, _)| n == name)] *)
Fixpoint position (name : string) (sps : list (string * Z)) : option nat :=
  match sps with
  | [] => None
  | (n, _) :: sps =>
      if bool_decide (n = name) then Some 0%nat else S <$> position name sps
  end.

Module TransactionState.

Definition new : TransactionState :=
  {| snapshot_manager := SnapshotManager.new; contexts := ∅; local_tenants := ∅ |}.

(** [begin] up to the call of [snapshot]: the manager hands out the id. *)
Definition begin_xid (isolation : IsolationLevel) (ts : TransactionState) : TransactionState * Z :=
  let '(m, xid) := SnapshotManager.begin (snapshot_manager ts) in
  let m := if bool_decide (isolation = Serializable)
           then SnapshotManager.begin_serializable xid m else m in
  ({| snapshot_manager := m; contexts := contexts ts; local_tenants := local_tenants ts |}, xid).

(** The rest of [begin]: the snapshot is captured and the context stored.  No lock is held from the first
    part to the second, so other connections may run in between. *)
Definition begin_context (connection_id : Z) (isolation : IsolationLevel) (xid : Z) (ts : TransactionState)
  : TransactionState :=
  let '(m, s) := SnapshotManager.snapshot xid (snapshot_manager ts) in
  let context := {| txn_xid := xid; isolation := isolation; txn_snapshot := s;
                    savepoints := []; released_sub_xids := [] |} in
  {| snapshot_manager := m; contexts := <[connection_id := context]> (contexts ts);
     local_tenants := local_tenants ts |}.

(** [begin] when no other connection runs meanwhile *)
Definition begin (connection_id : Z) (isolation : IsolationLevel) (ts : TransactionState)
  : TransactionState * Z :=
  let '(ts, xid) := begin_xid isolation ts in
  (begin_context connection_id isolation xid ts, xid).

(** The ids of a context in the order in which it ends them. *)
Definition end_order (c : TxnContext) : list Z :=
  (savepoints c).*2 ++ released_sub_xids c ++ [txn_xid c].

Definition rollback_all {E} (xids : list Z) (m : SnapshotManager) : result E SnapshotManager :=
  foldl (fun rm xid => m ← rm; SnapshotManager.rollback xid m) (Ok m) xids.

Definition rollback_context {E} (c : TxnContext) (m : SnapshotManager) : result E SnapshotManager :=
  rollback_all (end_order c) m.

Definition commit_all (xids : list Z) (m : SnapshotManager) : SnapshotManager :=
  foldl (fun m xid => SnapshotManager.commit xid m) m xids.

(** [prepare] is the host's validation and publication; it may use the manager.
    The outer result is [Panic] when the call panics; otherwise it holds the new
    state and what [commit] returns. *)
Definition commit {E P} (connection_id : Z)
  (prepare : SnapshotManager -> TxnContext -> SnapshotManager * result E P)
  (ts : TransactionState) : result E (TransactionState * result E (option TxnContext)) :=
  let tenants := delete connection_id (local_tenants ts) in
  match contexts ts !! connection_id with
  | None => Ok ({| snapshot_manager := snapshot_manager ts; contexts := contexts ts;
                   local_tenants := tenants |}, Ok None)
  | Some context =>
      let ctxs := delete connection_id (contexts ts) in
      let '(m, prepared) := prepare (snapshot_manager ts) context in
      match prepared with
      | Ok _ =>
          Ok ({| snapshot_manager := commit_all (end_order context) m; contexts := ctxs;
                 local_tenants := tenants |}, Ok (Some context))
      | Err error =>
          m ← rollback_context context m;
          Ok ({| snapshot_manager := m; contexts := ctxs; local_tenants := tenants |}, Err error)
      | Panic => Panic
      end
  end.

Definition rollback {E} (connection_id : Z) (ts : TransactionState)
  : result E (TransactionState * option TxnContext) :=
  let tenants := delete connection_id (local_tenants ts) in
  match contexts ts !! connection_id with
  | None => Ok ({| snapshot_manager := snapshot_manager ts; contexts := contexts ts;
                   local_tenants := tenants |}, None)
  | Some context =>
      m ← rollback_context context (snapshot_manager ts);
      Ok ({| snapshot_manager := m; contexts := delete connection_id (contexts ts);
             local_tenants := tenants |}, Some context)
  end.

Definition has_savepoint (connection_id : Z) (name : string) (ts : TransactionState) : bool :=
  match contexts ts !! connection_id with
  | None => false
  | Some context => existsb (fun sp => bool_decide (sp.1 = name)) (savepoints context)
  end.

Definition set_context (connection_id : Z) (c : TxnContext) (m : SnapshotManager)
  (ts : TransactionState) : TransactionState :=
  {| snapshot_manager := m; contexts := <[connection_id := c]> (contexts ts);
     local_tenants := local_tenants ts |}.

Definition savepoint (connection_id : Z) (name : string) (ts : TransactionState)
  : TransactionState * option Z :=
  match contexts ts !! connection_id with
  | None => (ts, None)
  | Some context =>
      let '(m, xid) := SnapshotManager.begin (snapshot_manager ts) in
      (set_context connection_id
         (set_savepoints (savepoints context ++ [(name, xid)]) (released_sub_xids context) context)
         m ts, Some xid)
  end.

Definition release_savepoint (connection_id : Z) (name : string) (ts : TransactionState)
  : TransactionState * result SavepointError (option Z) :=
  match contexts ts !! connection_id with
  | None => (ts, Ok None)
  | Some context =>
      match position name (savepoints context) with
      | None => (ts, Err (SavepointMissing name))
      | Some pos =>
          let released := Z.of_nat (length (savepoints context) - pos) in
          (set_context connection_id
             (set_savepoints (take pos (savepoints context))
                (released_sub_xids context ++ (drop pos (savepoints context)).*2) context)
             (snapshot_manager ts) ts, Ok (Some released))
      end
  end.

(** [E::from(SavepointError)] is [from_error]. *)
Definition rollback_to_savepoint_with {E T} (from_error : SavepointError -> E)
  (connection_id : Z) (name : string)
  (prepare : SnapshotManager -> RollbackToSavepoint -> SnapshotManager * result E T)
  (ts : TransactionState)
  : result E (TransactionState * result E (option (RollbackToSavepoint * T))) :=
  match contexts ts !! connection_id with
  | None => Ok (ts, Ok None)
  | Some context =>
      match position name (savepoints context) with
      | None => Ok (ts, Err (from_error (SavepointMissing name)))
      | Some pos =>
          let aborted_xids := (drop pos (savepoints context)).*2 in
          let context' := set_savepoints (take pos (savepoints context))
                            (released_sub_xids context) context in
          match savepoints context !! pos with
          | None => Panic
          | Some (_, savepoint_xid) =>
              let rollback := {| savepoint_xid := savepoint_xid; aborted_xids := aborted_xids |} in
              let '(m, prepared) := prepare (snapshot_manager ts) rollback in
              match prepared with
              | Panic => Panic
              | Ok t => m ← rollback_all aborted_xids m;
                        Ok (set_context connection_id context' m ts, Ok (Some (rollback, t)))
              | Err e => m ← rollback_all aborted_xids m;
                         Ok (set_context connection_id context' m ts, Err e)
              end
          end
      end
  end.

Definition rollback_to_savepoint (connection_id : Z) (name : string) (ts : TransactionState)
  : result SavepointError
      (TransactionState * result SavepointError (option RollbackToSavepoint)) :=
  match rollback_to_savepoint_with (fun e => e) connection_id name
          (fun m _ => (m, Ok tt)) ts with
  | Ok (ts, Ok r) => Ok (ts, Ok (fst <$> r))
  | Ok (ts, Err e) => Ok (ts, Err e)
  | Ok (_, Panic) | Panic => Panic
  | Err e => Err e
  end.

Definition context (connection_id : Z) (ts : TransactionState) : option TxnContext :=
  contexts ts !! connection_id.

Definition in_transaction (connection_id : Z) (ts : TransactionState) : bool :=
  bool_decide (is_Some (contexts ts !! connection_id)).

Definition current_snapshot (connection_id : Z) (ts : TransactionState) : Snapshot :=
  match context connection_id ts with
  | Some c =>
      if bool_decide (isolation c = ReadCommitted)
      then SnapshotManager.fresh_read_snapshot (snapshot_manager ts)
      else txn_snapshot c
  | None => SnapshotManager.fresh_read_snapshot (snapshot_manager ts)
  end.

(** Returns the snapshot and the horizon of its guard. *)
Definition retained_current_snapshot (connection_id : Z) (ts : TransactionState)
  : TransactionState * (Snapshot * Z) :=
  let '(m, r) :=
    match context connection_id ts with
    | Some c =>
        if bool_decide (isolation c <> ReadCommitted)
        then SnapshotManager.retain_snapshot (txn_snapshot c) (snapshot_manager ts)
        else SnapshotManager.fresh_retained_snapshot (snapshot_manager ts)
    | None => SnapshotManager.fresh_retained_snapshot (snapshot_manager ts)
    end in
  ({| snapshot_manager := m; contexts := contexts ts; local_tenants := local_tenants ts |}, r).

Definition writer_xid (connection_id : Z) (ts : TransactionState) : option Z :=
  context_writer_xid <$> context connection_id ts.

Definition own_xids (connection_id : Z) (ts : TransactionState) : gset Z :=
  match context connection_id ts with
  | Some c => {[txn_xid c]} ∪ list_to_set (savepoints c).*2 ∪ list_to_set (released_sub_xids c)
  | None => ∅
  end.

Definition set_local_tenant (connection_id : Z) (tenant : option string) (ts : TransactionState)
  : TransactionState :=
  {| snapshot_manager := snapshot_manager ts; contexts := contexts ts;
     local_tenants := <[connection_id := tenant]> (local_tenants ts) |}.

Definition local_tenant (connection_id : Z) (ts : TransactionState) : option (option string) :=
  local_tenants ts !! connection_id.

End TransactionState.

(** ** The invariant *)

(** Gives every id of [xids] the outcome [o]. *)
Definition mark (o : outcome) (xids : list Z) (σ : gmap Z outcome) : gmap Z outcome :=
  foldl (fun σ x => <[x := o]> σ) σ xids.

Lemma lookup_mark o xids σ y :
  mark o xids σ !! y = if decide (y ∈ xids) then Some o else σ !! y.
Proof.
  unfold mark. revert σ. induction xids as [|x xids IH]; intros σ; cbn.
  - by rewrite decide_False by set_solver.
  - rewrite IH, lookup_insert. repeat case_decide; set_solver.
Qed.

Definition all_active (σ : gmap Z outcome) (xids : list Z) : Prop :=
  NoDup xids /\ forall x, x ∈ xids -> σ !! x = Some Active.

Record txns_ok (ts : TransactionState) (σ : gmap Z outcome) : Prop := {
  txns_refine : refines (snapshot_manager ts) σ;
  txns_active : forall c ctx, contexts ts !! c = Some ctx -> all_active σ (TransactionState.end_order ctx);
  txns_disjoint : forall c c' ctx ctx' x, c <> c' -> contexts ts !! c = Some ctx ->
    contexts ts !! c' = Some ctx' ->
    x ∈ TransactionState.end_order ctx -> x ∉ TransactionState.end_order ctx';
}.

Lemma all_active_cons σ x xids o :
  all_active σ (x :: xids) ->
  σ !! x = Some Active /\ all_active (<[x := o]> σ) xids.
Proof.
  intros [[Hx Hn]%NoDup_cons Ha]. split; [apply Ha; set_solver|]. split; [done|].
  intros y Hy. rewrite lookup_insert_ne by (intros ->; done). apply Ha. set_solver.
Qed.

Lemma commit_all_refines xids m σ :
  refines m σ -> all_active σ xids ->
  refines (TransactionState.commit_all xids m) (mark Committed xids σ).
Proof.
  revert m σ. induction xids as [|x xids IH]; intros m σ R Ha; [done|].
  apply (all_active_cons _ _ _ Committed) in Ha as [Hx Ha]. apply IH; [|done].
  by apply (commit_refines _ _ _ [] [] R Hx).
Qed.

Lemma rollback_all_refines {E} xids m σ :
  refines m σ -> all_active σ xids ->
  exists m', TransactionState.rollback_all (E := E) xids m = Ok m' /\ refines m' (mark Aborted xids σ).
Proof.
  revert m σ. induction xids as [|x xids IH]; intros m σ R Ha; [by exists m|].
  apply (all_active_cons _ _ _ Aborted) in Ha as [Hx Ha].
  destruct (rollback_refines (E := E) _ _ _ [] [] R Hx) as (m1 & E1 & R1 & _).
  destruct (IH m1 _ R1 Ha) as (m2 & E2 & R2). exists m2. split; [|done].
  unfold TransactionState.rollback_all in *. cbn. by rewrite E1.
Qed.

(** The ids of the other connections keep their outcome. *)
Lemma txns_ok_finish ts ts' σ c ctx xids o :
  txns_ok ts σ -> contexts ts !! c = Some ctx ->
  (forall x, x ∈ xids -> x ∈ TransactionState.end_order ctx) ->
  refines (snapshot_manager ts') (mark o xids σ) ->
  (forall c', c' <> c -> contexts ts' !! c' = contexts ts !! c') ->
  (forall ctx', contexts ts' !! c = Some ctx' ->
     NoDup (TransactionState.end_order ctx') /\
     forall x, x ∈ TransactionState.end_order ctx' ->
               x ∈ TransactionState.end_order ctx /\ x ∉ xids) ->
  txns_ok ts' (mark o xids σ).
Proof.
  intros [R Ha Hd] Hc Hsub R' Hother Hown. split; [done| |].
  - intros c' ctx' Hc'. destruct (decide (c' = c)) as [->|Hne].
    + destruct (Hown ctx' Hc') as [Hn Hx]. split; [done|]. intros x [Hin Hout]%Hx.
      rewrite lookup_mark, decide_False by done. by apply (Ha c ctx).
    + rewrite Hother in Hc' by done. destruct (Ha _ _ Hc') as [Hn Hx]. split; [done|].
      intros x Hin. rewrite lookup_mark, decide_False; [by apply Hx|].
      intros Hin'%Hsub. by apply (Hd c' c ctx' ctx x Hne Hc' Hc).
  - intros c1 c2 ctx1 ctx2 x Hne H1 H2 Hin.
    destruct (decide (c1 = c)) as [->|]; [|destruct (decide (c2 = c)) as [->|]].
    + rewrite Hother in H2 by congruence. apply (Hd c c2 ctx ctx2); [done|done|done|].
      by apply (Hown _ H1).
    + rewrite Hother in H1 by congruence. intros Hin2. destruct (Hown _ H2) as [_ Hx].
      apply Hx in Hin2 as [Hin2 _]. by apply (Hd c1 c ctx1 ctx x).
    + rewrite Hother in H1, H2 by done. by apply (Hd c1 c2 ctx1 ctx2).
Qed.

(** ** What the operations do to the outcomes *)

Lemma txns_ok_core ts σ m : core m = core (snapshot_manager ts) -> txns_ok ts σ -> refines m σ.
Proof. intros Hc [R _ _]. by apply (refines_core (snapshot_manager ts)). Qed.

Lemma txns_ok_removed ts σ c ctx m tenants o :
  txns_ok ts σ -> contexts ts !! c = Some ctx ->
  refines m (mark o (TransactionState.end_order ctx) σ) ->
  txns_ok {| snapshot_manager := m; contexts := delete c (contexts ts); local_tenants := tenants |}
          (mark o (TransactionState.end_order ctx) σ).
Proof.
  intros Hok Hc R. apply (txns_ok_finish ts _ σ c ctx); try done; cbn.
  - intros c' Hne. by rewrite lookup_delete_ne.
  - intros ctx'. by rewrite lookup_delete_eq.
Qed.

(** C26. COMMIT is all or nothing with respect to the outcome map: when the
    host's preparation succeeds, the transaction's id and the ids of all its open
    and released savepoints commit; when it fails, all of them are rolled back and
    the error is returned.  No id of another connection changes, the connection
    leaves its transaction, and the invariant is kept. *)
Theorem commit_outcome {E P} c
  (prepare : SnapshotManager -> TxnContext -> SnapshotManager * result E P) ts σ ctx m r :
  txns_ok ts σ -> contexts ts !! c = Some ctx ->
  prepare (snapshot_manager ts) ctx = (m, r) -> core m = core (snapshot_manager ts) ->
  match r with
  | Ok _ => exists ts', TransactionState.commit c prepare ts = Ok (ts', Ok (Some ctx)) /\
              contexts ts' = delete c (contexts ts) /\
              txns_ok ts' (mark Committed (TransactionState.end_order ctx) σ)
  | Err e => exists ts', TransactionState.commit c prepare ts = Ok (ts', Err e) /\
              contexts ts' = delete c (contexts ts) /\
              txns_ok ts' (mark Aborted (TransactionState.end_order ctx) σ)
  | Panic => TransactionState.commit c prepare ts = Panic
  end.
Proof.
  intros Hok Hc Hp Hcore. pose proof (txns_ok_core _ _ _ Hcore Hok) as R.
  pose proof (txns_active _ _ Hok _ _ Hc) as Ha.
  unfold TransactionState.commit. rewrite Hc, Hp. destruct r as [p|e|]; [| |done].
  - eexists. split; [done|]. split; [done|]. apply (txns_ok_removed ts); [done|done|].
    by apply commit_all_refines.
  - destruct (rollback_all_refines (E := E) _ _ _ R Ha) as (m' & Em & R').
    unfold TransactionState.rollback_context. rewrite Em. cbn [mbind result_bind].
    eexists. split; [done|]. split; [done|]. by apply (txns_ok_removed ts).
Qed.

(** C38. ROLLBACK never panics, aborts the transaction's id and the ids of all its
    savepoints, open or released, and changes nothing else. *)
Theorem rollback_outcome {E} c ts σ ctx :
  txns_ok ts σ -> contexts ts !! c = Some ctx ->
  exists ts', TransactionState.rollback (E := E) c ts = Ok (ts', Some ctx) /\
    contexts ts' = delete c (contexts ts) /\
    txns_ok ts' (mark Aborted (TransactionState.end_order ctx) σ).
Proof.
  intros Hok Hc. pose proof (txns_active _ _ Hok _ _ Hc) as Ha.
  destruct (rollback_all_refines (E := E) _ _ _ (txns_refine _ _ Hok) Ha) as (m' & Em & R').
  unfold TransactionState.rollback, TransactionState.rollback_context. rewrite Hc, Em.
  cbn [mbind result_bind]. eexists. split; [done|]. split; [done|]. by apply (txns_ok_removed ts).
Qed.


Lemma end_order_set sps rel ctx :
  TransactionState.end_order (set_savepoints sps rel ctx) = sps.*2 ++ rel ++ [txn_xid ctx].
Proof. done. Qed.

Lemma elem_of_take_fmap {A B} (f : A -> B) n l x : x ∈ f <$> take n l -> x ∈ f <$> l.
Proof. rewrite <- (take_drop n l) at 2. rewrite fmap_app. set_solver. Qed.

Lemma elem_of_drop_fmap {A B} (f : A -> B) n l x : x ∈ f <$> drop n l -> x ∈ f <$> l.
Proof. rewrite <- (take_drop n l) at 2. rewrite fmap_app. set_solver. Qed.

(** The ids left after the savepoints from [pos] on are gone. *)
Lemma kept_ids ctx σ pos :
  all_active σ (TransactionState.end_order ctx) ->
  let ctx' := set_savepoints (take pos (savepoints ctx)) (released_sub_xids ctx) ctx in
  NoDup (TransactionState.end_order ctx') /\
  forall x, x ∈ TransactionState.end_order ctx' ->
    x ∈ TransactionState.end_order ctx /\ x ∉ (drop pos (savepoints ctx)).*2.
Proof.
  unfold TransactionState.end_order. cbn. intros [Hn _].
  rewrite <- (take_drop pos (savepoints ctx)) in Hn. rewrite fmap_app, <- app_assoc in Hn.
  apply NoDup_app in Hn as (Ht & Hd1 & Hn). apply NoDup_app in Hn as (Hd & Hd2 & Hr). split.
  - apply NoDup_app. split; [done|]. split; [|done]. intros x Hx Hx'. apply (Hd1 x Hx). set_solver.
  - intros x [Hx|Hx]%elem_of_app; (split; [|intros Hx']).
    + apply elem_of_app. left. by eapply elem_of_take_fmap.
    + apply (Hd1 x Hx). set_solver.
    + set_solver.
    + by apply (Hd2 x).
Qed.

(** Rolling back the savepoints from [pos] on. *)
Lemma rollback_to_run {E} c ts σ ctx pos :
  txns_ok ts σ -> contexts ts !! c = Some ctx ->
  exists m',
    TransactionState.rollback_all (E := E) (drop pos (savepoints ctx)).*2 (snapshot_manager ts) = Ok m' /\
    txns_ok (TransactionState.set_context c
               (set_savepoints (take pos (savepoints ctx)) (released_sub_xids ctx) ctx) m' ts)
            (mark Aborted (drop pos (savepoints ctx)).*2 σ).
Proof.
  intros Hok Hc. pose proof (txns_active _ _ Hok _ _ Hc) as Ha.
  assert (all_active σ (drop pos (savepoints ctx)).*2) as Hd.
  { destruct Ha as [Hn Ha]. unfold TransactionState.end_order in *. split.
    - apply NoDup_app in Hn as (Hn & _ & _). rewrite <- (take_drop pos (savepoints ctx)), fmap_app in Hn.
      by apply NoDup_app in Hn as (_ & _ & Hn).
    - intros y Hy. apply Ha, elem_of_app. left. by eapply elem_of_drop_fmap. }
  destruct (rollback_all_refines (E := E) _ _ _ (txns_refine _ _ Hok) Hd) as (m' & Em & R').
  exists m'. split; [done|]. apply (txns_ok_finish ts _ σ c ctx); try done; cbn.
  - intros x Hx'. apply elem_of_app. left. by eapply elem_of_drop_fmap.
  - intros c' Hne. by rewrite lookup_insert_ne.
  - intros ctx'. rewrite lookup_insert_eq. intros [= <-]. by eapply kept_ids.
Qed.


Lemma begin_fresh m σ m' xid :
  refines m σ -> SnapshotManager.begin m = (m', xid) -> σ !! xid = None.
Proof.
  intros R [= _ <-]. destruct (σ !! next_xid m) eqn:E; [|done].
  destruct (ref_issued _ _ R _ _ E) as [_ []]. left. lia.
Qed.

Lemma txns_ok_new ts ts' σ c xid :
  txns_ok ts σ -> σ !! xid = None ->
  refines (snapshot_manager ts') (<[xid := Active]> σ) ->
  (forall c', c' <> c -> contexts ts' !! c' = contexts ts !! c') ->
  (forall ctx', contexts ts' !! c = Some ctx' ->
     NoDup (TransactionState.end_order ctx') /\
     forall x, x ∈ TransactionState.end_order ctx' ->
       x = xid \/ exists ctx, contexts ts !! c = Some ctx /\ x ∈ TransactionState.end_order ctx) ->
  txns_ok ts' (<[xid := Active]> σ).
Proof.
  intros [R Ha Hd] Hf R' Hother Hown.
  assert (forall c' ctx', c' <> c -> contexts ts !! c' = Some ctx' ->
            xid ∉ TransactionState.end_order ctx') as Hfresh.
  { intros c' ctx' _ Hc' Hin. apply (Ha _ _ Hc') in Hin. congruence. }
  split; [done| |].
  - intros c' ctx' Hc'. destruct (decide (c' = c)) as [->|Hne].
    + destruct (Hown _ Hc') as [Hn Hx]. split; [done|]. intros x Hin. rewrite lookup_insert.
      case_decide; [done|]. destruct (Hx x Hin) as [->|(ctx & Hc & Hin')]; [done|]. by apply (Ha _ _ Hc).
    + rewrite Hother in Hc' by done. destruct (Ha _ _ Hc') as [Hn Hx]. split; [done|].
      intros x Hin. rewrite lookup_insert_ne; [by apply Hx|]. intros ->. by apply (Hfresh c' ctx').
  - intros c1 c2 ctx1 ctx2 x Hne H1 H2 Hin Hin2.
    destruct (decide (c1 = c)) as [->|]; [|destruct (decide (c2 = c)) as [->|]].
    + rewrite Hother in H2 by congruence.
      destruct (proj2 (Hown _ H1) x Hin) as [->|(ctx & Hc & Hin')]; [by apply (Hfresh c2 ctx2)|].
      by apply (Hd c c2 ctx ctx2 x).
    + rewrite Hother in H1 by congruence.
      destruct (proj2 (Hown _ H2) x Hin2) as [->|(ctx & Hc & Hin')]; [by apply (Hfresh c1 ctx1)|].
      by apply (Hd c c1 ctx ctx1 x).
    + rewrite Hother in H1, H2 by done. by apply (Hd c1 c2 ctx1 ctx2 x).
Qed.

Lemma begin_xid_txns_ok iso ts σ ts' xid :
  txns_ok ts σ -> next_xid (snapshot_manager ts) < U64_MAX ->
  TransactionState.begin_xid iso ts = (ts', xid) ->
  txns_ok ts' (<[xid := Active]> σ) /\ contexts ts' = contexts ts /\
  forall c ctx, contexts ts !! c = Some ctx -> xid ∉ TransactionState.end_order ctx.
Proof.
  intros Hok Hlt. unfold TransactionState.begin_xid.
  destruct (SnapshotManager.begin (snapshot_manager ts)) as [m x] eqn:Eb.
  destruct (begin_refines _ _ _ _ [] (txns_refine _ _ Hok) Hlt Eb) as [R _].
  pose proof (begin_fresh _ _ _ _ (txns_refine _ _ Hok) Eb) as Hf.
  assert (Hnew : forall c ctx, contexts ts !! c = Some ctx -> x ∉ TransactionState.end_order ctx).
  { intros c ctx Hc Hin. apply (txns_active _ _ Hok _ _ Hc) in Hin. congruence. }
  intros [= <- <-]. split; [|by split]. split; cbn; [|..|apply Hok].
  - apply (refines_core m); [|done]. by destruct (bool_decide _).
  - intros c ctx Hc. destruct (txns_active _ _ Hok _ _ Hc) as [Hn Ha]. split; [done|].
    intros y Hy. rewrite lookup_insert_ne; [by apply Ha|]. intros ->. by apply (Hnew c ctx).
Qed.

Lemma begin_context_txns_ok c iso xid ts σ :
  txns_ok ts σ -> contexts ts !! c = None -> σ !! xid = Some Active ->
  (forall c' ctx, contexts ts !! c' = Some ctx -> xid ∉ TransactionState.end_order ctx) ->
  txns_ok (TransactionState.begin_context c iso xid ts) σ.
Proof.
  intros [R Ha Hd] Hc Hx Hnew. unfold TransactionState.begin_context.
  pose proof (snapshot_core xid (snapshot_manager ts)) as Hs. destruct (SnapshotManager.snapshot xid _) as [m s].
  split; cbn; [by apply (refines_core (snapshot_manager ts))| |].
  - intros c' ctx [[<- <-]|[_ Hc']]%lookup_insert_Some; [|by apply (Ha c')]. unfold TransactionState.end_order. cbn.
    split; [apply NoDup_singleton|]. by intros y ->%list_elem_of_singleton.
  - intros c1 c2 ctx1 ctx2 y Hne H1 H2. apply lookup_insert_Some in H1 as [[<- <-]|[N1 H1]];
      apply lookup_insert_Some in H2 as [[<- <-]|[N2 H2]]; [done|..|by apply (Hd c1 c2)].
    + intros ->%list_elem_of_singleton. by apply (Hnew c2).
    + intros Hy ->%list_elem_of_singleton. by apply (Hnew c1 ctx1).
Qed.

Lemma begin_txns_ok c iso ts σ ts' xid :
  txns_ok ts σ -> contexts ts !! c = None -> next_xid (snapshot_manager ts) < U64_MAX ->
  TransactionState.begin c iso ts = (ts', xid) ->
  txns_ok ts' (<[xid := Active]> σ).
Proof.
  intros Hok Hc Hlt. unfold TransactionState.begin. destruct (TransactionState.begin_xid iso ts) as [ts1 x] eqn:E.
  destruct (begin_xid_txns_ok iso ts σ ts1 x Hok Hlt E) as (H1 & Ec & Hnew). intros [= <- <-].
  apply begin_context_txns_ok; rewrite ?Ec; [done|done|apply lookup_insert_eq|done].
Qed.

Lemma savepoint_txns_ok c name ts σ ts' xid :
  txns_ok ts σ -> next_xid (snapshot_manager ts) < U64_MAX ->
  TransactionState.savepoint c name ts = (ts', Some xid) ->
  txns_ok ts' (<[xid := Active]> σ).
Proof.
  intros Hok Hlt. unfold TransactionState.savepoint.
  destruct (contexts ts !! c) as [ctx|] eqn:Hc; [|done].
  destruct (SnapshotManager.begin (snapshot_manager ts)) as [m x] eqn:Eb. intros [= <- <-].
  destruct (begin_refines _ _ _ _ [] (txns_refine _ _ Hok) Hlt Eb) as [R _].
  pose proof (begin_fresh _ _ _ _ (txns_refine _ _ Hok) Eb) as Hf.
  apply (txns_ok_new ts _ σ c); try done; cbn.
  - intros c' Hne. by rewrite lookup_insert_ne.
  - intros ctx'. rewrite lookup_insert_eq. intros [= <-]. rewrite end_order_set, fmap_app.
    destruct (txns_active _ _ Hok _ _ Hc) as [Hn Ha]. unfold TransactionState.end_order in Hn, Ha. split.
    + rewrite <- app_assoc. apply NoDup_app in Hn as (H1 & H2 & H3). apply NoDup_app.
      split; [done|]. split.
      * intros y Hy [->%list_elem_of_singleton|Hy']%elem_of_app; [|by apply (H2 y)].
        rewrite (Ha x) in Hf; [done|]. apply elem_of_app. by left.
      * cbn. constructor; [|done].
        intros Hin. rewrite (Ha x) in Hf; [done|]. apply elem_of_app. by right.
    + intros y Hy. rewrite !elem_of_app in Hy. destruct Hy as [[Hy|Hy]|Hy].
      * right. exists ctx. split; [done|]. apply elem_of_app. by left.
      * left. by apply list_elem_of_singleton in Hy.
      * right. exists ctx. split; [done|]. by rewrite <- elem_of_app in Hy; apply elem_of_app; right.
Qed.

Lemma release_txns_ok c name ts σ ts' r :
  txns_ok ts σ -> TransactionState.release_savepoint c name ts = (ts', r) -> txns_ok ts' σ.
Proof.
  intros Hok. unfold TransactionState.release_savepoint.
  destruct (contexts ts !! c) as [ctx|] eqn:Hc; [|by intros [= <- <-]].
  destruct (position name (savepoints ctx)) as [pos|]; [|by intros [= <- <-]].
  intros [= <- <-]. apply (txns_ok_finish ts _ σ c ctx [] Active Hok Hc); cbn.
  - set_solver.
  - apply (txns_refine _ _ Hok).
  - intros c' Hne. by rewrite lookup_insert_ne.
  - intros ctx'. rewrite lookup_insert_eq. intros [= <-]. rewrite end_order_set.
    assert ((take pos (savepoints ctx)).*2 ++ (released_sub_xids ctx ++ (drop pos (savepoints ctx)).*2)
              ++ [txn_xid ctx] ≡ₚ TransactionState.end_order ctx) as Hp.
    { unfold TransactionState.end_order. rewrite <- (take_drop pos (savepoints ctx)) at 3.
      rewrite fmap_app. solve_Permutation. }
    split; [rewrite Hp; apply (txns_active _ _ Hok _ _ Hc)|].
    intros x Hx. rewrite Hp in Hx. set_solver.
Qed.

(** ** Executions of a dispatcher

    The host calls [begin] only on a connection with no open transaction; its
    preparation leaves the visibility state of the manager alone.  [begin] is two steps; the id
    of the second is the one that the first has returned, which no other connection has. *)
Inductive txn_step : TransactionState * gmap Z outcome -> TransactionState * gmap Z outcome -> Prop :=
| txn_begin_xid ts σ iso ts' xid :
    next_xid (snapshot_manager ts) < U64_MAX ->
    TransactionState.begin_xid iso ts = (ts', xid) ->
    txn_step (ts, σ) (ts', <[xid := Active]> σ)
| txn_begin_context ts σ c iso xid :
    contexts ts !! c = None -> σ !! xid = Some Active ->
    (forall c' ctx, contexts ts !! c' = Some ctx -> xid ∉ TransactionState.end_order ctx) ->
    txn_step (ts, σ) (TransactionState.begin_context c iso xid ts, σ)
| txn_savepoint ts σ c name ts' xid :
    next_xid (snapshot_manager ts) < U64_MAX ->
    TransactionState.savepoint c name ts = (ts', Some xid) ->
    txn_step (ts, σ) (ts', <[xid := Active]> σ)
| txn_release ts σ c name ts' r :
    TransactionState.release_savepoint c name ts = (ts', r) ->
    txn_step (ts, σ) (ts', σ)
| txn_rollback_to ts σ c name ts' rb ctx :
    contexts ts !! c = Some ctx ->
    TransactionState.rollback_to_savepoint c name ts = Ok (ts', Ok (Some rb)) ->
    txn_step (ts, σ) (ts', mark Aborted (aborted_xids rb) σ)
| txn_commit ts σ c ctx E P (prepare : SnapshotManager -> TxnContext -> SnapshotManager * result E P) ts' r :
    contexts ts !! c = Some ctx ->
    core (prepare (snapshot_manager ts) ctx).1 = core (snapshot_manager ts) ->
    TransactionState.commit c prepare ts = Ok (ts', r) ->
    txn_step (ts, σ)
      (ts', mark (match r with Ok _ => Committed | _ => Aborted end) (TransactionState.end_order ctx) σ)
| txn_rollback ts σ c ctx E ts' r :
    contexts ts !! c = Some ctx ->
    TransactionState.rollback (E := E) c ts = Ok (ts', r) ->
    txn_step (ts, σ) (ts', mark Aborted (TransactionState.end_order ctx) σ)
| txn_autocommit ts σ m xid :
    next_xid (snapshot_manager ts) + AUTOCOMMIT_POOL_BATCH <= U64_MAX ->
    SnapshotManager.allocate_committed_xid (snapshot_manager ts) = (m, xid) ->
    txn_step (ts, σ)
      ({| snapshot_manager := m; contexts := contexts ts; local_tenants := local_tenants ts |},
       <[xid := Committed]> σ).

Lemma autocommit_txns_ok ts σ m xid :
  txns_ok ts σ -> next_xid (snapshot_manager ts) + AUTOCOMMIT_POOL_BATCH <= U64_MAX ->
  SnapshotManager.allocate_committed_xid (snapshot_manager ts) = (m, xid) ->
  txns_ok {| snapshot_manager := m; contexts := contexts ts; local_tenants := local_tenants ts |}
    (<[xid := Committed]> σ).
Proof.
  intros Hok Hlt Hal. destruct (allocate_refines _ _ _ _ [] (txns_refine _ _ Hok) Hlt Hal) as [R L].
  destruct Hok as [R0 Ha Hd]. split; [done| |done].
  intros c ctx Hc. destruct (Ha _ _ Hc) as [Hn Hx]. split; [done|]. intros x Hin.
  rewrite lookup_insert_ne; [by apply Hx|]. intros ->. apply Hx in Hin as Hact.
  pose proof (ref_active _ _ R x) as [H1 _]. unfold SnapshotManager.allocate_committed_xid in Hal.
  rewrite lookup_insert_eq in H1. apply (ref_active _ _ R0) in Hact.
  assert (state m = state (snapshot_manager ts)) as Est.
  { injection Hal as <- <-. cbn. by destruct (_ <=? _). }
  rewrite Est in H1. by apply H1 in Hact.
Qed.

Lemma rollback_to_txns_ok c name ts σ ctx ts' rb :
  txns_ok ts σ -> contexts ts !! c = Some ctx ->
  TransactionState.rollback_to_savepoint c name ts = Ok (ts', Ok (Some rb)) ->
  txns_ok ts' (mark Aborted (aborted_xids rb) σ).
Proof.
  intros Hok Hc. unfold TransactionState.rollback_to_savepoint, TransactionState.rollback_to_savepoint_with.
  rewrite Hc. destruct (position name (savepoints ctx)) as [pos|] eqn:Hp; [|done].
  destruct (rollback_to_run (E := SavepointError) c ts σ ctx pos Hok Hc) as (m' & Em & Hok').
  destruct (savepoints ctx !! pos) as [[n x]|]; [|done]. cbv zeta. rewrite Em. cbn [mbind result_bind].
  by intros [= <- <-].
Qed.

Lemma commit_txns_ok {E P} c (prepare : SnapshotManager -> TxnContext -> SnapshotManager * result E P)
  ts σ ctx ts' r :
  txns_ok ts σ -> contexts ts !! c = Some ctx ->
  core (prepare (snapshot_manager ts) ctx).1 = core (snapshot_manager ts) ->
  TransactionState.commit c prepare ts = Ok (ts', r) ->
  txns_ok ts' (mark (match r with Ok _ => Committed | _ => Aborted end) (TransactionState.end_order ctx) σ).
Proof.
  intros Hok Hc Hcore. pose proof (txns_active _ _ Hok _ _ Hc) as Ha.
  unfold TransactionState.commit. rewrite Hc.
  destruct (prepare (snapshot_manager ts) ctx) as [m [p|e|]]; [| |done];
    pose proof (txns_ok_core _ _ _ Hcore Hok) as R.
  - intros [= <- <-]. apply (txns_ok_removed ts); [done|done|]. by apply commit_all_refines.
  - destruct (rollback_all_refines (E := E) _ _ _ R Ha) as (m' & Em & R').
    unfold TransactionState.rollback_context. cbn in Em. rewrite Em. intros [= <- <-].
    by apply (txns_ok_removed ts).
Qed.

(** C32. In every execution of the dispatcher, every id a connection owns is
    active and no id belongs to two connections; in particular no open
    transaction can find one of its ids committed or rolled back by another. *)
Theorem dispatcher_invariant ts σ :
  rtc txn_step (TransactionState.new, ∅) (ts, σ) -> txns_ok ts σ.
Proof.
  intros Hr. change (txns_ok (ts, σ).1 (ts, σ).2).
  apply rtc_ind_r with (P := fun w => txns_ok w.1 w.2) in Hr; [done| |].
  - cbn. split; [apply initial_refines| |]; set_solver.
  - intros w1 w2 _ [] Hok; cbn [fst snd] in *.
    + by eapply begin_xid_txns_ok.
    + by apply begin_context_txns_ok.
    + eapply savepoint_txns_ok; eassumption.
    + eapply release_txns_ok; eassumption.
    + eapply rollback_to_txns_ok; eassumption.
    + eapply commit_txns_ok; eassumption.
    + destruct (rollback_all_refines (E := E) _ _ _ (txns_refine _ _ Hok)
        (txns_active _ _ Hok _ _ H)) as (m' & Em & R').
      unfold TransactionState.rollback, TransactionState.rollback_context in *.
      rewrite H, Em in H0. injection H0 as <- <-. by apply (txns_ok_removed ts0).
    + by apply autocommit_txns_ok.
Qed.

(** The read context of a connection ([own_xids] and [current_snapshot]). *)
Definition connection_context (c : Z) (ts : TransactionState) : SnapshotContext :=
  {| ctx_snapshot := TransactionState.current_snapshot c ts;
     own_xids := TransactionState.own_xids c ts;
     requires_index_fallback := false; serializable_reader := None |}.

Lemma own_xids_end_order c ts ctx x :
  contexts ts !! c = Some ctx ->
  x ∈ TransactionState.own_xids c ts <-> x ∈ TransactionState.end_order ctx.
Proof.
  intros Hc. unfold TransactionState.own_xids, TransactionState.context, TransactionState.end_order.
  rewrite Hc. rewrite !elem_of_union, !elem_of_list_to_set, !elem_of_app, elem_of_singleton,
    list_elem_of_singleton. tauto.
Qed.

Lemma own_id_visible c ts σ ctx x :
  txns_ok ts σ -> contexts ts !! c = Some ctx -> x ∈ TransactionState.end_order ctx ->
  visibility_check (snapshot_manager ts) (connection_context c ts) x 0 = true /\
  forall xmin, visibility_check (snapshot_manager ts) (connection_context c ts) xmin x = false.
Proof.
  intros Hok Hc Hx. apply (txns_active _ _ Hok _ _ Hc) in Hx as Hact.
  pose proof (txns_refine _ _ Hok) as R. pose proof (ref_issued _ _ R _ _ Hact) as [Hpos _].
  assert (SnapshotManager.is_aborted x (snapshot_manager ts) = false) as Hna.
  { apply bool_decide_eq_false_2. rewrite (ref_aborted _ _ R). congruence. }
  assert (bool_decide (x ∈ own_xids (connection_context c ts)) = true) as Hown.
  { apply bool_decide_eq_true_2. by apply (own_xids_end_order c ts ctx). }
  unfold visibility_check. rewrite !Hna, !Hown, (proj2 (Z.eqb_neq x 0)) by lia. cbn [negb andb Z.eqb].
  split; [done|]. intros xmin. rewrite Hown, ?(proj2 (Z.eqb_neq x 0)) by lia. cbn [negb andb].
  by destruct (_ && _).
Qed.

(** Read your own writes: whatever its isolation level, an open transaction
    sees the row versions created under any id it owns (its own id, open and
    released savepoints) and does not see the versions that such an id deleted. *)
Theorem own_writes_visible c ts σ ctx x :
  txns_ok ts σ -> contexts ts !! c = Some ctx -> x ∈ TransactionState.own_xids c ts ->
  visibility_check (snapshot_manager ts) (connection_context c ts) x 0 = true /\
  forall xmin, visibility_check (snapshot_manager ts) (connection_context c ts) xmin x = false.
Proof.
  intros Hok Hc Hx. apply (own_id_visible c ts σ ctx); [done|done|].
  by apply (own_xids_end_order c ts).
Qed.

(** ROLLBACK TO SAVEPOINT does not undo a released inner savepoint: an id
    [x] released before, even one opened after the savepoint that is rolled back
    to, stays active and its writes stay visible to the transaction. *)
Theorem rollback_to_keeps_released c name ts σ ctx pos xid x :
  txns_ok ts σ -> contexts ts !! c = Some ctx -> position name (savepoints ctx) = Some pos ->
  savepoints ctx !! pos = Some (name, xid) -> xid < x -> x ∈ released_sub_xids ctx ->
  exists ts' r, TransactionState.rollback_to_savepoint c name ts = Ok (ts', Ok (Some r)) /\
    SnapshotManager.is_active x (snapshot_manager ts') = true /\
    visibility_check (snapshot_manager ts') (connection_context c ts') x 0 = true.
Proof.
  intros Hok Hc Hp Hs _ Hx.
  destruct (rollback_to_run (E := SavepointError) c ts σ ctx pos Hok Hc) as (m' & Em & Hok').
  unfold TransactionState.rollback_to_savepoint, TransactionState.rollback_to_savepoint_with.
  rewrite Hc, Hp, Hs. cbv zeta. rewrite Em. cbn [mbind result_bind].
  eexists _, _. split; [done|].
  set (ctx' := set_savepoints _ _ _) in *. set (ts' := TransactionState.set_context _ _ _ _) in *.
  assert (contexts ts' !! c = Some ctx') as Hc' by apply lookup_insert_eq.
  assert (x ∈ TransactionState.end_order ctx') as Hx'.
  { unfold ctx'. rewrite end_order_set, !elem_of_app. tauto. }
  split; [|by apply (own_id_visible c ts' _ ctx' x Hok')].
  apply bool_decide_eq_true_2, (ref_active _ _ (txns_refine _ _ Hok')).
  by apply (txns_active _ _ Hok' _ _ Hc').
Qed.

(** ** Serializable write skew

    The host's commit-time check, as the preparation of [commit]. *)
Definition serializable_prepare (write_set : gset LogicalRowKey) (m : SnapshotManager)
  (ctx : TxnContext) : SnapshotManager * result unit unit :=
  let '(m, dangerous) :=
    SnapshotManager.serializable_commit_would_be_dangerous (txn_xid ctx) write_set m in
  (m, if dangerous then Err tt else Ok tt).

Definition read_row (reader : Z) (row : LogicalRowKey) (ts : TransactionState) : TransactionState :=
  {| snapshot_manager := SnapshotManager.record_serializable_read reader row.1 row.2 (snapshot_manager ts);
     contexts := contexts ts; local_tenants := local_tenants ts |}.

Definition commit_writing (c : Z) (row : LogicalRowKey) (ts : TransactionState)
  : TransactionState * bool :=
  match TransactionState.commit c (serializable_prepare {[row]}) ts with
  | Ok (ts, Ok _) => (ts, true)
  | Ok (ts, _) => (ts, false)
  | _ => (ts, false)
  end.

(** Two serializable transactions, each reading the row that the other writes;
    the second one reads before or after the first has committed.  The result is
    whether each of them commits, and whether the second one's snapshot shows a
    row version written by the first. *)
Definition write_skew (late_read : bool) : bool * bool * bool :=
  let row_a := ("doctors", 1024) in
  let row_b := ("doctors", 1025) in
  let '(ts, first) := TransactionState.begin 1 Serializable TransactionState.new in
  let '(ts, second) := TransactionState.begin 2 Serializable ts in
  let ts := read_row first row_b ts in
  let ts := if late_read then ts else read_row second row_a ts in
  let '(ts, first_commits) := commit_writing 1 row_a ts in
  let ts := if late_read then read_row second row_a ts else ts in
  let shown := visibility_check (snapshot_manager ts) (connection_context 2 ts) first 0 in
  let '(ts, second_commits) := commit_writing 2 row_b ts in
  (first_commits, second_commits, shown).

(** The serializable check refuses write skew only when both reads were
    recorded before the first commit.  If the second transaction reads the row
    after the first one committed (and still sees the old version, since its
    snapshot is older), the conflict is never recorded and both commit. *)
Example write_skew_depends_on_read_order :
  write_skew false = (true, false, false) /\ write_skew true = (true, true, false).
Proof. split; vm_compute; reflexivity. Qed.

(** ** COMMIT seen by a concurrent statement *)

Definition shows (m : SnapshotManager) (x : Z) : bool :=
  sees (SnapshotManager.fresh_read_snapshot m) x 0.

(** COMMIT of a transaction with savepoints is not one atomic visibility
    transition: it ends its ids one manager call at a time, savepoints first, and
    after the first call a fresh statement snapshot already shows the savepoint's
    rows while it still hides the transaction's own. *)
Theorem commit_is_not_atomic c ts σ ctx name sub rest :
  txns_ok ts σ -> contexts ts !! c = Some ctx -> savepoints ctx = (name, sub) :: rest ->
  TransactionState.end_order ctx
    = sub :: rest.*2 ++ released_sub_xids ctx ++ [txn_xid ctx] /\
  shows (SnapshotManager.commit sub (snapshot_manager ts)) sub = true /\
  shows (SnapshotManager.commit sub (snapshot_manager ts)) (txn_xid ctx) = false.
Proof.
  intros Hok Hc Hs. destruct (txns_active _ _ Hok _ _ Hc) as [Hn Ha].
  assert (TransactionState.end_order ctx = sub :: rest.*2 ++ released_sub_xids ctx ++ [txn_xid ctx]) as Eo.
  { unfold TransactionState.end_order. by rewrite Hs. }
  split; [done|]. rewrite Eo in Hn, Ha.
  assert (σ !! sub = Some Active) as Hsub by (apply Ha; set_solver).
  destruct (commit_refines _ _ sub [] [] (txns_refine _ _ Hok) Hsub) as [R _].
  set (m := SnapshotManager.commit sub _) in *. clearbody m.
  assert (forall x o, <[sub := Committed]> σ !! x = Some o ->
            shows m x = negb (bool_decide (x ∈ active (state m)))) as Hshow.
  { intros x o Hx. destruct (ref_issued _ _ R _ _ Hx) as [Hpos Hu].
    pose proof (ref_next _ _ R). unfold unissued in Hu.
    unfold shows. rewrite sees_in_past, (proj2 (Z.eqb_neq x 0)) by lia.
    change (0 =? 0) with true. cbn [negb andb orb]. rewrite andb_true_r. unfold in_past. cbn.
    unfold saturating_dec. rewrite (proj2 (Z.leb_le _ _)) by lia. cbn [andb]. f_equal.
    apply bool_decide_ext. rewrite elem_of_union, elem_of_pool_range. split; [|by left].
    intros [?|?]; [done|lia]. }
  assert (txn_xid ctx <> sub) as Hne.
  { intros E. apply NoDup_cons in Hn as [Hn _]. apply Hn. rewrite E, !elem_of_app.
    right. right. by apply list_elem_of_singleton. }
  assert (σ !! txn_xid ctx = Some Active) as Hx.
  { apply Ha. rewrite elem_of_cons, !elem_of_app. right. right. right. by apply list_elem_of_singleton. }
  split.
  - rewrite (Hshow sub Committed) by apply lookup_insert_eq.
    rewrite bool_decide_eq_false_2; [done|]. rewrite (ref_active _ _ R), lookup_insert_eq. done.
  - rewrite (Hshow (txn_xid ctx) Active) by (by rewrite lookup_insert_ne).
    rewrite bool_decide_eq_true_2; [done|]. rewrite (ref_active _ _ R), lookup_insert_ne by done. done.
Qed.

(** ** Choosing a row version ([read.rs])

    Stored versions are an abstract type with their [xmin]; the version store is
    a parameter: its lookup result, the versions it lists, and for the fallible
    store the versions it streams before it ends or fails. *)
Section versions.
Context {A : Type} (xmin : A -> Z).

(** [Iterator::max_by_key]: the last of the greatest elements. *)
Definition max_by_key (l : list A) : option A :=
  foldl (fun best x =>
    match best with
    | None => Some x
    | Some b => if xmin x <? xmin b then Some b else Some x
    end) None l.

Definition resolve_logical_id (versions : list A) (current : option A)
  (select_versions : bool) (visible : A -> bool) : option A :=
  if select_versions then max_by_key (List.filter visible versions)
  else match current with
       | Some e => if visible e then Some e else None
       | None => None
       end.

Definition try_resolve_logical_id {E} (versions : list A) (ended : result E unit)
  (current : result E (option A)) (select_versions : bool) (visible : A -> bool)
  : result E (option A) :=
  if negb select_versions then
    (fun entity => match entity with
                   | Some e => if visible e then Some e else None
                   | None => None
                   end) <$> current
  else
    let selected :=
      foldl (fun selected e =>
        if visible e && (match selected with None => true | Some old => xmin old <=? xmin e end)
        then Some e else selected) None versions in
    _ ← ended; Ok selected.

Lemma max_by_key_snoc l x :
  max_by_key (l ++ [x]) =
    match max_by_key l with
    | None => Some x
    | Some b => if xmin x <? xmin b then Some b else Some x
    end.
Proof. unfold max_by_key. by rewrite foldl_app. Qed.

Lemma max_by_key_spec l :
  match max_by_key l with
  | None => l = []
  | Some b => b ∈ l /\ forall e, e ∈ l -> xmin e <= xmin b
  end.
Proof.
  induction l as [|x l IH] using rev_ind; [done|]. rewrite max_by_key_snoc.
  destruct (max_by_key l) as [b|]; [|subst; set_solver].
  destruct IH as [Hb Hall]. destruct (Z.ltb_spec (xmin x) (xmin b)) as [Hlt|Hge].
  - split; [set_solver|]. intros e [He| ->%list_elem_of_singleton]%elem_of_app; [by apply Hall|lia].
  - split; [set_solver|]. intros e [He| ->%list_elem_of_singleton]%elem_of_app; [|lia].
    specialize (Hall e He). lia.
Qed.

Lemma streamed_selection visible l :
  foldl (fun selected e =>
    if visible e && (match selected with None => true | Some old => xmin old <=? xmin e end)
    then Some e else selected) None l
  = max_by_key (List.filter visible l).
Proof.
  induction l as [|x l IH] using rev_ind; [done|].
  rewrite foldl_app, IH, List.filter_app. cbn.
  destruct (visible x); cbn; [|by rewrite app_nil_r].
  rewrite max_by_key_snoc. destruct (max_by_key _) as [b|]; [|done].
  rewrite Z.leb_antisym. by destruct (xmin x <? xmin b).
Qed.

End versions.

(** The version selector returns the newest version that is visible, and
    nothing only when no version is visible; the streaming selector over a
    fallible store returns the same version when the stream ends, and the
    store's error, never a partial answer, when it fails. *)
Theorem version_selection {A E} (xmin : A -> Z) (versions : list A) (current : option A) visible :
  match resolve_logical_id xmin versions current true visible with
  | Some b => b ∈ versions /\ visible b = true /\
              forall e, e ∈ versions -> visible e = true -> xmin e <= xmin b
  | None => forall e, e ∈ versions -> visible e = false
  end /\
  (forall select,
     try_resolve_logical_id (E := E) xmin versions (Ok tt) (Ok current) select visible
     = Ok (resolve_logical_id xmin versions current select visible)) /\
  (forall (e : E) cur,
     try_resolve_logical_id xmin versions (Err e) cur true visible = Err e).
Proof.
  split; [|split].
  - cbn. pose proof (max_by_key_spec xmin (List.filter visible versions)) as Hs.
    destruct (max_by_key xmin _) as [b|].
    + destruct Hs as [Hb Hall]. rewrite list_elem_of_In, List.filter_In in Hb.
      destruct Hb as [Hb Hv]. split; [by apply list_elem_of_In|]. split; [done|]. intros e He Hve. apply Hall.
      rewrite list_elem_of_In in *. by apply List.filter_In.
    + intros e He. destruct (visible e) eqn:Hv; [|done].
      assert (e ∈ List.filter visible versions) as Hin.
      { rewrite list_elem_of_In in *. by apply List.filter_In. }
      rewrite Hs in Hin. set_solver.
  - intros []; unfold try_resolve_logical_id, resolve_logical_id; cbn; [|done].
    by rewrite streamed_selection.
  - done.
Qed.

(** ** Sample executions *)

(** Connection 1 begins, opens savepoints [a] and [b], and releases [b]. *)
Definition demo0 : TransactionState := (TransactionState.begin 1 SnapshotIsolation TransactionState.new).1.
Definition demo1 : TransactionState := (TransactionState.savepoint 1 "a" demo0).1.
Definition demo2 : TransactionState := (TransactionState.savepoint 1 "b" demo1).1.
Definition demo3 : TransactionState := (TransactionState.release_savepoint 1 "b" demo2).1.

Definition demo_outcomes : gmap Z outcome := <[3 := Active]> (<[2 := Active]> (<[1 := Active]> ∅)).

Definition demo_context (sps : list (string * Z)) (released : list Z) : TxnContext :=
  {| txn_xid := 1; isolation := SnapshotIsolation;
     txn_snapshot := {| snapshot_xid := 1; in_progress := ∅ |};
     savepoints := sps; released_sub_xids := released |}.

Lemma demo2_ok : txns_ok demo2 demo_outcomes.
Proof.
  apply (savepoint_txns_ok 1 "b" demo1 (<[2 := Active]> (<[1 := Active]> ∅)) demo2 3);
    [|by vm_compute..].
  apply (savepoint_txns_ok 1 "a" demo0 (<[1 := Active]> ∅) demo1 2); [|by vm_compute..].
  apply (begin_txns_ok 1 SnapshotIsolation TransactionState.new ∅ demo0 1); [|by vm_compute..].
  split; [apply initial_refines| |]; cbn; set_solver.
Qed.

Lemma demo3_ok : txns_ok demo3 demo_outcomes.
Proof. eapply (release_txns_ok 1 "b" demo2); [apply demo2_ok|reflexivity]. Qed.

Lemma demo2_context : contexts demo2 !! 1 = Some (demo_context [("a", 2); ("b", 3)] []).
Proof. by vm_compute. Qed.

Lemma demo3_context : contexts demo3 !! 1 = Some (demo_context [("a", 2)] [3]).
Proof. by vm_compute. Qed.

Lemma commit_outcome_witness :
  exists ts', TransactionState.commit (E := unit) 1 (fun m _ => (m, Ok tt)) demo2
                = Ok (ts', Ok (Some (demo_context [("a", 2); ("b", 3)] []))) /\
    contexts ts' = delete 1 (contexts demo2) /\
    txns_ok ts' (mark Committed [2; 3; 1] demo_outcomes).
Proof.
  exact (commit_outcome (E := unit) 1 (fun m _ => (m, Ok tt)) demo2 demo_outcomes _ (snapshot_manager demo2)
    (Ok tt) demo2_ok demo2_context eq_refl eq_refl).
Defined.

Lemma rollback_outcome_witness :
  exists ts', TransactionState.rollback (E := unit) 1 demo3
                = Ok (ts', Some (demo_context [("a", 2)] [3])) /\
    contexts ts' = delete 1 (contexts demo3) /\
    txns_ok ts' (mark Aborted [2; 3; 1] demo_outcomes).
Proof. exact (rollback_outcome (E := unit) 1 demo3 demo_outcomes _ demo3_ok demo3_context). Defined.


Lemma dispatcher_invariant_witness :
  txns_ok demo0 (<[1 := Active]> ∅).
Proof.
  apply (dispatcher_invariant demo0 (<[1 := Active]> ∅)).
  eapply rtc_l; [eapply (txn_begin_xid TransactionState.new ∅ SnapshotIsolation); [by vm_compute|reflexivity]|].
  apply rtc_once. apply (txn_begin_context _ _ 1 SnapshotIsolation 1); [done|done|]. intros c ctx Hc. exfalso. by apply (lookup_empty_Some (M := gmap Z) c ctx).
Defined.

Lemma own_writes_visible_witness :
  visibility_check (snapshot_manager demo3) (connection_context 1 demo3) 3 0 = true /\
  forall xmin, visibility_check (snapshot_manager demo3) (connection_context 1 demo3) xmin 3 = false.
Proof.
  apply (own_writes_visible 1 demo3 demo_outcomes _ 3 demo3_ok demo3_context).
  by vm_compute.
Defined.

Lemma rollback_to_keeps_released_witness :
  exists ts' r, TransactionState.rollback_to_savepoint 1 "a" demo3 = Ok (ts', Ok (Some r)) /\
    SnapshotManager.is_active 3 (snapshot_manager ts') = true /\
    visibility_check (snapshot_manager ts') (connection_context 1 ts') 3 0 = true.
Proof.
  apply (rollback_to_keeps_released 1 "a" demo3 demo_outcomes (demo_context [("a", 2)] [3]) 0%nat 2 3
    demo3_ok demo3_context); try done. set_solver.
Defined.

Lemma commit_is_not_atomic_witness :
  shows (SnapshotManager.commit 2 (snapshot_manager demo2)) 2 = true /\
  shows (SnapshotManager.commit 2 (snapshot_manager demo2)) 1 = false.
Proof.
  apply (commit_is_not_atomic 1 demo2 demo_outcomes (demo_context [("a", 2); ("b", 3)] []) "a" 2
    [("b", 3)] demo2_ok demo2_context eq_refl).
Defined.
