(* ===== verification/Codec.v ===== *)
(** * Byte readers and UTF-8

    What the persisted record formats share: [std::io::Error] values, the reader
    state of the record decoders (the unread input and the bytes fed to the
    checksum), [String::from_utf8] and [String::from_utf8_lossy] as byte
    functions, and the lemmas that run a decoder over the bytes an encoder wrote. *)

From S2P Require Import Prelude.
From Stdlib Require Import ZArith Lia.

(** [io::Error] by kind; the messages are the code's. *)
Inductive IoError : Type :=
| UnexpectedEof
| InvalidData (msg : string)
| InvalidInput (msg : string).

#[global] Instance IoError_eq_dec : EqDecision IoError.
Proof. solve_decision. Defined.

(** ** UTF-8 *)

Definition utf8_cont (b : Z) : bool := (128 <=? b) && (b <=? 191).

Definition in_range (lo hi b : Z) : bool := (lo <=? b) && (b <=? hi).

(** One step of the decoder on a non-empty input: whether the next sequence is
    well formed, and how many bytes it (or the rejected part) takes.  A byte past
    the end reads as 0, which continues nothing. *)
Definition utf8_next (s : bytes) : bool * nat :=
  let at_ i := default 0 (s !! i) in
  let b0 := at_ 0%nat in
  let b1 := at_ 1%nat in
  let b2 := at_ 2%nat in
  let b3 := at_ 3%nat in
  if b0 <? 128 then (true, 1%nat)
  else if in_range 194 223 b0 then
    if utf8_cont b1 then (true, 2%nat) else (false, 1%nat)
  else if in_range 224 239 b0 then
    let lo := if b0 =? 224 then 160 else 128 in
    let hi := if b0 =? 237 then 159 else 191 in
    if negb (in_range lo hi b1) then (false, 1%nat)
    else if utf8_cont b2 then (true, 3%nat) else (false, 2%nat)
  else if in_range 240 244 b0 then
    let lo := if b0 =? 240 then 144 else 128 in
    let hi := if b0 =? 244 then 143 else 191 in
    if negb (in_range lo hi b1) then (false, 1%nat)
    else if negb (utf8_cont b2) then (false, 2%nat)
    else if utf8_cont b3 then (true, 4%nat) else (false, 3%nat)
  else (false, 1%nat).

Fixpoint utf8_valid_from (fuel : nat) (s : bytes) : bool :=
  match fuel, s with
  | _, [] => true
  | O, _ => false
  | S fuel, _ =>
      let '(ok, n) := utf8_next s in
      ok && utf8_valid_from fuel (drop n s)
  end.

(** [String::from_utf8(s).is_ok()]; every step takes at least one byte, so the
    length is enough fuel. *)
Definition utf8_valid (s : bytes) : bool := utf8_valid_from (length s) s.

Fixpoint utf8_lossy_from (fuel : nat) (s : bytes) : bytes :=
  match fuel, s with
  | _, [] => []
  | O, _ => s
  | S fuel, _ =>
      let '(ok, n) := utf8_next s in
      (if ok then take n s else [239; 191; 189]) ++ utf8_lossy_from fuel (drop n s)
  end.

(** [String::from_utf8_lossy]: every rejected part becomes U+FFFD. *)
Definition from_utf8_lossy (s : bytes) : bytes := utf8_lossy_from (length s) s.

Lemma from_utf8_lossy_valid s : utf8_valid s = true -> from_utf8_lossy s = s.
Proof.
  unfold utf8_valid, from_utf8_lossy. generalize (length s). intros fuel. revert s.
  induction fuel as [|fuel IH]; intros [|b s]; try done.
  cbn [utf8_valid_from utf8_lossy_from]. destruct (utf8_next (b :: s)) as [ok n].
  intros [-> Hv]%andb_true_iff. rewrite (IH _ Hv). apply take_drop.
Qed.

(** ** The reader *)

(** Unread input, and the bytes read so far for the checksum. *)
Definition Reader (A : Type) : Type := bytes * bytes -> result IoError (A * (bytes * bytes)).

#[global] Instance reader_ret : MRet Reader := fun A a st => Ok (a, st).

#[global] Instance reader_bind : MBind Reader := fun A B f m st =>
  match m st with Ok (a, st) => f a st | Err e => Err e | Panic => Panic end.

Definition reader_err {A} (e : IoError) : Reader A := fun _ => Err e.

Definition reader_map_err {A} (f : IoError -> IoError) (m : Reader A) : Reader A :=
  fun st => map_err f (m st).

(** [String::from_utf8(..)] and the like: lift a pure result. *)
Definition reader_lift {A} (r : result IoError A) : Reader A := fun st =>
  match r with Ok a => Ok (a, st) | Err e => Err e | Panic => Panic end.

(** [reader.read_exact(&mut [0; n])] without feeding the checksum *)
Definition read_exact (n : Z) : Reader bytes := fun '(input, ck) =>
  if n <=? zlen input then Ok (slice input 0 n, (drop (Z.to_nat n) input, ck))
  else Err UnexpectedEof.

Definition read_array_tracked (n : Z) : Reader bytes := fun '(input, ck) =>
  if n <=? zlen input
  then Ok (slice input 0 n, (drop (Z.to_nat n) input, ck ++ slice input 0 n))
  else Err UnexpectedEof.

Definition read_u8_tracked : Reader Z := b ← read_array_tracked 1; mret (le_val b).
Definition read_u32_tracked : Reader Z := b ← read_array_tracked 4; mret (le_val b).
Definition read_u64_tracked : Reader Z := b ← read_array_tracked 8; mret (le_val b).
Definition read_u32_untracked : Reader Z := b ← read_exact 4; mret (le_val b).

(** Running a reader on the bytes it expects, in full or cut short. *)
Record reads {A} (eof : IoError) (m : Reader A) (bs : bytes) (a : A) : Prop := {
  reads_all : forall rest ck, m (bs ++ rest, ck) = Ok (a, (rest, ck ++ bs));
  reads_cut : forall pre x suf ck, bs = pre ++ x :: suf -> m (pre, ck) = Err eof;
}.

Lemma reads_ret {A} eof (a : A) : reads eof (mret a) [] a.
Proof.
  split; [intros rest ck; cbn; by rewrite app_nil_r|]. intros pre x suf ck H. by destruct pre.
Qed.

(** A strict prefix of [b1 ++ b2] stops in [b1] or in [b2]. *)
Lemma strict_prefix_app {A} (b1 b2 pre : list A) x suf :
  b1 ++ b2 = pre ++ x :: suf ->
  (exists suf', b1 = pre ++ x :: suf') \/ (exists pre', pre = b1 ++ pre' /\ b2 = pre' ++ x :: suf).
Proof.
  revert pre. induction b1 as [|y b1 IH]; intros pre H.
  - right. by exists pre.
  - destruct pre as [|z pre]; cbn in H; injection H as <- H.
    + left. by exists b1.
    + destruct (IH pre H) as [[suf' ->]|(pre' & -> & ->)]; [left; by exists suf'|right; by exists pre'].
Qed.

Lemma reads_bind {A B} eof (m : Reader A) (f : A -> Reader B) b1 b2 a b :
  reads eof m b1 a -> reads eof (f a) b2 b -> reads eof (m ≫= f) (b1 ++ b2) b.
Proof.
  intros [H1 S1] [H2 S2]. split.
  - intros rest ck. unfold mbind, reader_bind. rewrite <- app_assoc, H1, H2. by rewrite app_assoc.
  - intros pre x suf ck Hp. unfold mbind, reader_bind.
    destruct (strict_prefix_app _ _ _ _ _ Hp) as [[suf' E]|(pre' & -> & E)].
    + by rewrite (S1 pre x suf' ck E).
    + rewrite H1. by apply (S2 pre' x suf).
Qed.

(** A step that reads nothing. *)
Lemma reads_skip {A B} eof (m : Reader A) (f : A -> Reader B) bs a b :
  reads eof m [] a -> reads eof (f a) bs b -> reads eof (m ≫= f) bs b.
Proof. apply (reads_bind eof m f [] bs a b). Qed.

Lemma reads_map_err {A} f eof (m : Reader A) bs a :
  reads eof m bs a -> reads (f eof) (reader_map_err f m) bs a.
Proof.
  intros [H S]. split; intros; unfold reader_map_err; [by rewrite H|]. by erewrite S.
Qed.

Lemma take_drop_app (bs rest : bytes) n :
  n = zlen bs -> slice (bs ++ rest) 0 n = bs /\ drop (Z.to_nat n) (bs ++ rest) = rest.
Proof.
  intros ->. unfold slice, zlen. rewrite !Nat2Z.id. rewrite drop_0. split.
  - apply take_app_length.
  - apply drop_app_length.
Qed.

Lemma reads_array n bs : zlen bs = n -> reads UnexpectedEof (read_array_tracked n) bs bs.
Proof.
  intros Hn. split.
  - intros rest ck. unfold read_array_tracked. rewrite zlen_app.
    pose proof (zlen_nonneg rest). rewrite (proj2 (Z.leb_le _ _)) by lia.
    destruct (take_drop_app bs rest n) as [-> ->]; done.
  - intros pre x suf ck ->. unfold read_array_tracked. rewrite zlen_app, zlen_cons in Hn.
    pose proof (zlen_nonneg suf). by rewrite (proj2 (Z.leb_gt _ _)) by lia.
Qed.

Lemma reads_fmap_array {A} (f : bytes -> A) n bs :
  zlen bs = n -> reads UnexpectedEof (b ← read_array_tracked n; mret (f b)) bs (f bs).
Proof.
  intros Hn. rewrite <- (app_nil_r bs) at 1.
  apply (reads_bind _ _ _ _ _ bs); [by apply reads_array|apply reads_ret].
Qed.

Lemma reads_u8 v : reads UnexpectedEof read_u8_tracked [v] v.
Proof. rewrite <- (le_val_u8 v) at 2. by apply (reads_fmap_array le_val). Qed.

Lemma reads_u32 v : u32_ok v -> reads UnexpectedEof read_u32_tracked (le_bytes 4 v) v.
Proof.
  intros Hv. rewrite <- (le_val_u32 v Hv) at 2. apply (reads_fmap_array le_val), zlen_le_bytes.
Qed.

Lemma reads_u64 v : u64_ok v -> reads UnexpectedEof read_u64_tracked (le_bytes 8 v) v.
Proof.
  intros Hv. rewrite <- (le_val_u64 v Hv) at 2. apply (reads_fmap_array le_val), zlen_le_bytes.
Qed.

Lemma read_u32_untracked_app v rest ck :
  u32_ok v -> read_u32_untracked (le_bytes 4 v ++ rest, ck) = Ok (v, (rest, ck)).
Proof.
  intros Hv. unfold read_u32_untracked, mbind, reader_bind, read_exact.
  rewrite zlen_app, zlen_le_bytes. pose proof (zlen_nonneg rest).
  rewrite (proj2 (Z.leb_le _ _)) by lia.
  destruct (take_drop_app (le_bytes 4 v) rest 4) as [-> ->]; [by rewrite zlen_le_bytes|].
  by rewrite (le_val_u32 _ Hv).
Qed.

Lemma read_u32_untracked_cut v pre x suf ck :
  le_bytes 4 v = pre ++ x :: suf -> read_u32_untracked (pre, ck) = Err UnexpectedEof.
Proof.
  intros E. unfold read_u32_untracked, mbind, reader_bind, read_exact.
  assert (zlen (pre ++ x :: suf) = 4) as Hn by (by rewrite <- E, zlen_le_bytes).
  rewrite zlen_app, zlen_cons in Hn. pose proof (zlen_nonneg suf).
  by rewrite (proj2 (Z.leb_gt _ _)) by lia.
Qed.

(** Reading [count] items with the same reader. *)
Fixpoint read_many {A} (count : nat) (m : Reader A) : Reader (list A) :=
  match count with
  | O => mret []
  | S count => x ← m; xs ← read_many count m; mret (x :: xs)
  end.

Lemma reads_many {A} eof (m : Reader A) (enc : A -> bytes) xs :
  (forall x, x ∈ xs -> reads eof m (enc x) x) ->
  reads eof (read_many (length xs) m) (concat (enc <$> xs)) xs.
Proof.
  induction xs as [|x xs IH]; intros H; cbn; [apply reads_ret|].
  eapply reads_bind; [apply H; set_solver|]. rewrite <- (app_nil_r (concat _)).
  eapply reads_bind; [apply IH; set_solver|]. apply reads_ret.
Qed.

(** What a reader has consumed and left: the checksum grows by what was read. *)
Definition consumes {A} (m : Reader A) : Prop :=
  forall input ck a input' ck', m (input, ck) = Ok (a, (input', ck')) ->
  exists bs, input = bs ++ input' /\ ck' = ck ++ bs.

Lemma consumes_ret {A} (a : A) : consumes (mret a).
Proof. intros input ck a' i' c' [= -> -> ->]. exists []. by rewrite app_nil_r. Qed.

Lemma consumes_err {A} e : consumes (@reader_err A e).
Proof. by intros ?????. Qed.

Lemma consumes_lift {A} (r : result IoError A) : consumes (reader_lift r).
Proof.
  intros input ck a i' c'. unfold reader_lift. destruct r; [|done|done].
  intros [= -> -> ->]. exists []. by rewrite app_nil_r.
Qed.

Lemma consumes_bind {A B} (m : Reader A) (f : A -> Reader B) :
  consumes m -> (forall a, consumes (f a)) -> consumes (m ≫= f).
Proof.
  intros Hm Hf input ck b i2 c2. unfold mbind, reader_bind.
  destruct (m (input, ck)) as [[a [i1 c1]]| |] eqn:E; [|done|done]. intros E2.
  destruct (Hm _ _ _ _ _ E) as (b1 & -> & ->). destruct (Hf _ _ _ _ _ _ E2) as (b2 & -> & ->).
  exists (b1 ++ b2). by rewrite !app_assoc.
Qed.

Lemma consumes_map_err {A} f (m : Reader A) : consumes m -> consumes (reader_map_err f m).
Proof.
  intros Hm input ck a i' c'. unfold reader_map_err, map_err.
  destruct (m (input, ck)) as [[? [??]]| |] eqn:E; [|done|done]. intros [= <- <- <-]. by eapply Hm.
Qed.

Lemma consumes_array n : 0 <= n -> consumes (read_array_tracked n).
Proof.
  intros Hn input ck a i' c'. unfold read_array_tracked.
  destruct (Z.leb_spec n (zlen input)); [|done]. intros [= <- <- <-].
  exists (slice input 0 n). split; [|done]. unfold slice. rewrite drop_0. by rewrite take_drop.
Qed.

Lemma consumes_many {A} n (m : Reader A) : consumes m -> consumes (read_many n m).
Proof.
  intros Hm. induction n as [|n IH]; cbn; [apply consumes_ret|].
  apply consumes_bind; [done|]. intros x. apply consumes_bind; [done|]. intros xs. apply consumes_ret.
Qed.

Create HintDb codec.
#[export] Hint Resolve reads_ret reads_u8 reads_u32 reads_u64 : codec.
#[export] Hint Resolve consumes_ret consumes_err consumes_lift consumes_map_err consumes_many : codec.
