(* ===== verification/Ownership.v ===== *)
(** * The page-ownership recovery journal

    Models [crates/reddb-file/src/page_ownership_journal.rs]: the 32-byte records,
    the scan that finds the unfinished epoch of a journal, and the recovery plan
    that decides which pages go back to the allocator.  The checksum
    [crc32fast::hash] is a parameter. *)

From S2P Require Import Prelude Codec.
From Stdlib Require Import ZArith Lia.

#[local] Set Warnings "-clear-no-such-hyp".

Definition OWNERSHIP_MAGIC : bytes := [82; 68; 79; 74].
Definition OWNERSHIP_VERSION : Z := 1.
Definition RECORD_SIZE : Z := 32.

Inductive PageOwnershipRecord : Type :=
| OBegin (epoch : Z)
| OReserve (epoch page_id : Z)
| ORetire (epoch page_id : Z)
| ODetachFree (epoch page_id : Z)
| OFinish (epoch : Z).

Definition ownership_fields (r : PageOwnershipRecord) : Z * Z * Z :=
  match r with
  | OBegin epoch => (1, epoch, 0)
  | OReserve epoch page_id => (2, epoch, page_id)
  | ORetire epoch page_id => (3, epoch, page_id)
  | OFinish epoch => (4, epoch, 0)
  | ODetachFree epoch page_id => (5, epoch, page_id)
  end.

Definition ownership_epoch_of (r : PageOwnershipRecord) : Z := (ownership_fields r).1.2.

Section codec.
Context (crc32 : bytes -> Z) (crc32_u32 : forall b, u32_ok (crc32 b)).

Definition encode_ownership (r : PageOwnershipRecord) : result IoError bytes :=
  let '(kind, epoch, page_id) := ownership_fields r in
  if (epoch =? 0) || (((kind =? 2) || (kind =? 3) || (kind =? 5)) && (page_id =? 0))
  then Err (InvalidInput "invalid ownership record")
  else
    let b := zeros RECORD_SIZE in
    let b := splice b 0 OWNERSHIP_MAGIC in
    let b := put_u8 b 4 OWNERSHIP_VERSION in
    let b := put_u8 b 5 kind in
    let b := put_u64 b 8 epoch in
    let b := put_u32 b 16 page_id in
    let checksum := crc32 (slice b 0 28) in
    Ok (put_u32 b 28 checksum).

Definition decode_ownership (b : bytes) : result IoError PageOwnershipRecord :=
  if negb (zlen b =? RECORD_SIZE) then Err (InvalidData "incomplete ownership record")
  else
    let invalid := Err (InvalidData "invalid ownership record") in
    if negb (bool_decide (slice b 0 4 = OWNERSHIP_MAGIC))
       || negb (u8_at b 4 =? OWNERSHIP_VERSION)
       || negb (bool_decide (slice b 6 2 = [0; 0]))
       || negb (bool_decide (slice b 20 8 = zeros 8))
    then invalid
    else if negb (crc32 (slice b 0 28) =? u32_at b 28) then invalid
    else
      let epoch := u64_at b 8 in
      let page_id := u32_at b 16 in
      if epoch =? 0 then invalid
      else
        match u8_at b 5 with
        | 1 => if page_id =? 0 then Ok (OBegin epoch) else invalid
        | 2 => if 1 <=? page_id then Ok (OReserve epoch page_id) else invalid
        | 3 => if 1 <=? page_id then Ok (ORetire epoch page_id) else invalid
        | 4 => if page_id =? 0 then Ok (OFinish epoch) else invalid
        | 5 => if 1 <=? page_id then Ok (ODetachFree epoch page_id) else invalid
        | _ => invalid
        end.

(** ** Scanning a journal *)

Record PendingOwnershipEpoch : Type := {
  pending_id : Z;
  reserved_pages : gset Z;
  retired_pages : gset Z;
  detached_free_pages : gset Z;
}.

(** [bytes.chunks_exact(32)] on input whose length is a multiple of 32 *)
Fixpoint chunks (fuel : nat) (b : bytes) : list bytes :=
  match fuel with
  | O => []
  | S fuel =>
      if zlen b <? RECORD_SIZE then []
      else slice b 0 RECORD_SIZE :: chunks fuel (drop 32 b)
  end.

(** The loop's state: the pending epoch and [last_epoch]. *)
Definition journal_step (st : option PendingOwnershipEpoch * Z) (r : PageOwnershipRecord)
  : result IoError (option PendingOwnershipEpoch * Z) :=
  let '(pending, last_epoch) := st in
  let invalid := Err (InvalidData "invalid ownership sequence") in
  let current epoch :=
    match pending with
    | Some p => if pending_id p =? epoch then Some p else None
    | None => None
    end in
  match r with
  | OBegin epoch =>
      if bool_decide (is_Some pending) || (epoch <=? last_epoch) then invalid
      else Ok (Some {| pending_id := epoch; reserved_pages := ∅; retired_pages := ∅;
                       detached_free_pages := ∅ |}, last_epoch)
  | OReserve epoch page_id =>
      match current epoch with
      | None => invalid
      | Some p => Ok (Some {| pending_id := pending_id p;
                              reserved_pages := reserved_pages p ∪ {[page_id]};
                              retired_pages := retired_pages p;
                              detached_free_pages := detached_free_pages p |}, last_epoch)
      end
  | ORetire epoch page_id =>
      match current epoch with
      | None => invalid
      | Some p => Ok (Some {| pending_id := pending_id p;
                              reserved_pages := reserved_pages p;
                              retired_pages := retired_pages p ∪ {[page_id]};
                              detached_free_pages := detached_free_pages p |}, last_epoch)
      end
  | ODetachFree epoch page_id =>
      match current epoch with
      | None => invalid
      | Some p => Ok (Some {| pending_id := pending_id p;
                              reserved_pages := reserved_pages p;
                              retired_pages := retired_pages p;
                              detached_free_pages := detached_free_pages p ∪ {[page_id]} |}, last_epoch)
      end
  | OFinish epoch =>
      match current epoch with
      | None => invalid
      | Some _ => Ok (None, epoch)
      end
  end.

Definition journal_frame (st : option PendingOwnershipEpoch * Z) (frame : bytes)
  : result IoError (option PendingOwnershipEpoch * Z) :=
  r ← decode_ownership frame; journal_step st r.

Definition pending_epoch (b : bytes) : result IoError (option PendingOwnershipEpoch) :=
  if negb (zlen b mod RECORD_SIZE =? 0) then Err (InvalidData "incomplete ownership journal")
  else
    st ← foldl (fun rst frame => st ← rst; journal_frame st frame)
           (Ok (None, 0)) (chunks (length b) b);
    Ok st.1.

End codec.

(** ** The recovery plan *)

(** [BTreeSet::iter]: ascending. *)
Definition set_iter (s : gset Z) : list Z := merge_sort Z.le (elements s).

Record OwnershipRecoveryPlan : Type := {
  plan_release : list Z;
  plan_preserve : list Z;
}.

Section plan.
Context (pending : PendingOwnershipEpoch) (published : bool) (first_allocatable_page page_count : Z).

Let invalid {A} : result IoError A := Err (InvalidData "invalid ownership recovery state").

Definition plan_reserved (st : gset Z * gset Z) (page : Z) : result IoError (gset Z * gset Z) :=
  let '(release, preserve) := st in
  if page <? first_allocatable_page then invalid
  else if page_count <=? page then
    if published then invalid else Ok (release, preserve)
  else if published then
    if bool_decide (page ∈ retired_pages pending) then invalid
    else Ok (release, preserve ∪ {[page]})
  else Ok (release ∪ {[page]}, preserve).

Definition plan_detached (st : gset Z * gset Z) (page : Z) : result IoError (gset Z * gset Z) :=
  let '(release, preserve) := st in
  if (page <? first_allocatable_page) || (page_count <=? page) then invalid
  else if bool_decide (page ∈ preserve) then Ok (release, preserve)
  else Ok (release ∪ {[page]}, preserve).

Definition plan_retired (st : gset Z * gset Z) (page : Z) : result IoError (gset Z * gset Z) :=
  let '(release, preserve) := st in
  if (page <? first_allocatable_page) || (page_count <=? page) then invalid
  else if published then Ok (release ∪ {[page]}, preserve)
  else Ok (release, preserve).

Definition for_each {S} (f : S -> Z -> result IoError S) (pages : gset Z) (st : S) : result IoError S :=
  foldl (fun rst page => st ← rst; f st page) (Ok st) (set_iter pages).

Definition plan_sets : result IoError (gset Z * gset Z) :=
  st ← for_each plan_reserved (reserved_pages pending) (∅, ∅);
  st ← for_each plan_detached (detached_free_pages pending) st;
  for_each plan_retired (retired_pages pending) st.

End plan.

Definition recovery_plan (pending : PendingOwnershipEpoch)
  (catalog_epoch first_allocatable_page page_count : Z) : result IoError OwnershipRecoveryPlan :=
  if (pending_id pending =? 0) || (pending_id pending <? catalog_epoch)
     || (page_count <? first_allocatable_page)
  then Err (InvalidData "invalid ownership recovery state")
  else
    let published := catalog_epoch =? pending_id pending in
    '(release, preserve) ← plan_sets pending published first_allocatable_page page_count;
    Ok {| plan_release := set_iter release; plan_preserve := set_iter preserve |}.

(** ** Records: encoding and decoding are inverse *)

Definition ownership_record_ok (r : PageOwnershipRecord) : Prop :=
  let '(kind, epoch, page_id) := ownership_fields r in
  u64_ok epoch /\ epoch <> 0 /\ u32_ok page_id /\
  match r with OBegin _ | OFinish _ => True | _ => page_id <> 0 end.

Section records.
Context (crc32 : bytes -> Z) (crc32_u32 : forall b, u32_ok (crc32 b)).

Definition ownership_body (kind epoch page_id : Z) : bytes :=
  OWNERSHIP_MAGIC ++ [OWNERSHIP_VERSION; kind; 0; 0] ++ le_bytes 8 epoch ++ le_bytes 4 page_id ++ zeros 8.

Definition ownership_bytes (r : PageOwnershipRecord) : bytes :=
  let '(kind, epoch, page_id) := ownership_fields r in
  let body := ownership_body kind epoch page_id in
  body ++ le_bytes 4 (crc32 body).

Lemma encode_ownership_layout r :
  ownership_record_ok r -> encode_ownership crc32 r = Ok (ownership_bytes r).
Proof.
  unfold ownership_record_ok, encode_ownership, ownership_bytes.
  destruct (ownership_fields r) as [[kind epoch] page_id] eqn:Ef.
  intros (_ & He & _ & Hp). rewrite (proj2 (Z.eqb_neq epoch 0)) by done.
  assert (((kind =? 2) || (kind =? 3) || (kind =? 5)) && (page_id =? 0) = false) as ->.
  { destruct r; injection Ef as <- <- <-; try done; by rewrite (proj2 (Z.eqb_neq _ 0)). }
  reflexivity.
Qed.

Lemma zlen_ownership_bytes r : zlen (ownership_bytes r) = RECORD_SIZE.
Proof. unfold ownership_bytes. by destruct (ownership_fields r) as [[kind epoch] page_id]. Qed.

Lemma decode_ownership_bytes r :
  ownership_record_ok r -> decode_ownership crc32 (ownership_bytes r) = Ok r.
Proof.
  unfold ownership_record_ok, decode_ownership. rewrite zlen_ownership_bytes.
  unfold ownership_bytes. destruct (ownership_fields r) as [[kind epoch] page_id] eqn:Ef.
  intros (Hu & He & Hp & Hr). set (body := ownership_body kind epoch page_id).
  set (b := body ++ le_bytes 4 (crc32 body)).
  assert (u64_at b 8 = epoch) as -> by (apply (le_val_u64 epoch Hu)).
  assert (u32_at b 16 = page_id) as -> by (apply (le_val_u32 page_id Hp)).
  assert (u32_at b 28 = crc32 body) as -> by (apply (le_val_u32 (crc32 body) (crc32_u32 body))).
  assert (u8_at b 5 = kind) as -> by apply le_val_u8.
  change (slice b 0 28) with body. rewrite !Z.eqb_refl. change (negb true) with false. cbv iota.
  rewrite (proj2 (Z.eqb_neq epoch 0)) by done. unfold u32_ok in Hp.
  match goal with |- (if ?g then _ else _) = _ => assert (g = false) as -> by reflexivity end.
  destruct r; injection Ef as <- <- <-; cbv iota beta zeta; try reflexivity;
    rewrite (proj2 (Z.leb_le 1 _)) by lia; reflexivity.
Qed.

(** A page-ownership record survives the journal: every record with a
    non-zero epoch (and a non-zero page where it names one) encodes to 32 bytes
    that decode to the same record; every other record is refused. *)
Theorem ownership_roundtrip r :
  (ownership_record_ok r ->
   exists b, encode_ownership crc32 r = Ok b /\ zlen b = RECORD_SIZE /\ decode_ownership crc32 b = Ok r) /\
  (ownership_epoch_of r = 0 -> encode_ownership crc32 r = Err (InvalidInput "invalid ownership record")).
Proof.
  split.
  - intros Hr. exists (ownership_bytes r). split; [by apply encode_ownership_layout|].
    split; [apply zlen_ownership_bytes|by apply decode_ownership_bytes].
  - unfold ownership_epoch_of, encode_ownership. destruct (ownership_fields r) as [[k e] p].
    cbn. intros ->. reflexivity.
Qed.

Lemma split_record (b : bytes) :
  zlen b = RECORD_SIZE ->
  b = slice b 0 4 ++ slice b 4 1 ++ slice b 5 1 ++ slice b 6 2 ++ slice b 8 8
      ++ slice b 16 4 ++ slice b 20 8 ++ slice b 28 4.
Proof.
  intros Hl. unfold RECORD_SIZE in Hl. unfold zlen in Hl.
  do 32 (destruct b as [|? b]; [cbn in Hl; lia|]). destruct b; [|cbn in Hl; lia]. reflexivity.
Qed.

Lemma decode_kind_ok (kind epoch page_id : Z) r :
  epoch <> 0 -> u64_ok epoch -> u32_ok page_id ->
  match kind with
  | 1 => if page_id =? 0 then Ok (OBegin epoch) else Err (InvalidData "invalid ownership record")
  | 2 => if 1 <=? page_id then Ok (OReserve epoch page_id) else Err (InvalidData "invalid ownership record")
  | 3 => if 1 <=? page_id then Ok (ORetire epoch page_id) else Err (InvalidData "invalid ownership record")
  | 4 => if page_id =? 0 then Ok (OFinish epoch) else Err (InvalidData "invalid ownership record")
  | 5 => if 1 <=? page_id then Ok (ODetachFree epoch page_id) else Err (InvalidData "invalid ownership record")
  | _ => Err (InvalidData "invalid ownership record")
  end = Ok r ->
  ownership_record_ok r /\ ownership_fields r = (kind, epoch, page_id).
Proof.
  intros He Hu Hp. destruct kind as [|k|k]; [done| |done].
  do 3 (try (destruct k as [k|k|]; try done));
    (destruct (Z.eqb_spec page_id 0); destruct (Z.leb_spec 1 page_id); try done; intros [= <-]; subst;
     unfold ownership_record_ok; cbn; repeat split; try done; try lia; unfold u32_ok, u64_ok in *; lia).
Qed.

(** Decoding is strict: whatever bytes decode to a record are exactly the
    bytes that the record encodes to, so no corrupted or padded record is
    accepted under another meaning. *)
Theorem ownership_decode_canonical b r :
  Forall byte_ok b -> decode_ownership crc32 b = Ok r -> encode_ownership crc32 r = Ok b.
Proof.
  intros Hb Hd. unfold decode_ownership in Hd.
  destruct (Z.eqb_spec (zlen b) RECORD_SIZE) as [Hl|]; [|done]. cbn [negb] in Hd.
  pose proof (split_record b Hl) as Hsplit. unfold RECORD_SIZE in Hl.
  destruct (negb (bool_decide (slice b 0 4 = _))) eqn:E1; [done|].
  destruct (negb (u8_at b 4 =? _)) eqn:E2; [done|].
  destruct (negb (bool_decide (slice b 6 2 = _))) eqn:E3; [done|].
  destruct (negb (bool_decide (slice b 20 8 = _))) eqn:E4; [done|]. cbn [orb] in Hd.
  destruct (negb (_ =? u32_at b 28)) eqn:E5; [done|].
  destruct (Z.eqb_spec (u64_at b 8) 0) as [|He]; [done|].
  apply negb_false_iff in E1, E2, E3, E4, E5. apply bool_decide_eq_true in E1, E3, E4.
  apply Z.eqb_eq in E2, E5.
  assert (u64_ok (u64_at b 8)) as Hu by (apply u64_at_ok; [done|lia|lia]).
  assert (u32_ok (u32_at b 16)) as Hp by (apply u32_at_ok; [done|lia|lia]).
  destruct (decode_kind_ok _ _ _ _ He Hu Hp Hd) as [Hr Hf].
  rewrite encode_ownership_layout by done. f_equal. unfold ownership_bytes. rewrite Hf.
  pose proof (le_bytes_slice b 8 8 Hb) as L8. pose proof (le_bytes_slice b 16 4 Hb) as L16.
  pose proof (le_bytes_slice b 28 4 Hb) as L28.
  change (Z.of_nat 8) with 8 in L8. change (Z.of_nat 4) with 4 in L16, L28.
  specialize (L8 ltac:(lia) ltac:(lia)). specialize (L16 ltac:(lia) ltac:(lia)).
  specialize (L28 ltac:(lia) ltac:(lia)).
  assert (ownership_body (u8_at b 5) (u64_at b 8) (u32_at b 16) = slice b 0 28) as ->.
  { unfold ownership_body. rewrite <- E1, <- E2, <- E4.
    change [u8_at b 4; u8_at b 5; 0; 0] with ([u8_at b 4] ++ [u8_at b 5] ++ [0; 0]).
    rewrite <- E3, !slice_1 by lia. unfold u64_at, u32_at.
    rewrite L8, L16.
    rewrite <- !app_assoc, !slice_join by lia. done. }
  rewrite E5. unfold u32_at. rewrite L28.
  rewrite slice_join by lia. apply slice_all. lia.
Qed.

End records.

(** ** The journal scan *)

Definition run_journal (recs : list PageOwnershipRecord) : result IoError (option PendingOwnershipEpoch * Z) :=
  foldl (fun rst r => st ← rst; journal_step st r) (Ok (None, 0)) recs.

Lemma run_journal_snoc recs r :
  run_journal (recs ++ [r]) = (st ← run_journal recs; journal_step st r).
Proof. unfold run_journal. by rewrite foldl_app. Qed.

Definition reserved_by (recs : list PageOwnershipRecord) : gset Z :=
  list_to_set (omap (fun r => match r with OReserve _ p => Some p | _ => None end) recs).
Definition retired_by (recs : list PageOwnershipRecord) : gset Z :=
  list_to_set (omap (fun r => match r with ORetire _ p => Some p | _ => None end) recs).
Definition detached_by (recs : list PageOwnershipRecord) : gset Z :=
  list_to_set (omap (fun r => match r with ODetachFree _ p => Some p | _ => None end) recs).

(** A record of an open epoch. *)
Definition page_record (epoch : Z) (r : PageOwnershipRecord) : Prop :=
  match r with
  | OReserve e _ | ORetire e _ | ODetachFree e _ => e = epoch
  | OBegin _ | OFinish _ => False
  end.

(** What an unfinished epoch consists of: the records after its [Begin]. *)
Definition epoch_of_suffix (p : PendingOwnershipEpoch) (recs : list PageOwnershipRecord) : Prop :=
  exists pre suf, recs = pre ++ OBegin (pending_id p) :: suf /\
    (exists last, run_journal pre = Ok (None, last)) /\
    Forall (page_record (pending_id p)) suf /\
    reserved_pages p = reserved_by suf /\ retired_pages p = retired_by suf /\
    detached_free_pages p = detached_by suf.

Lemma epoch_extend p p' recs r :
  epoch_of_suffix p recs -> page_record (pending_id p) r -> pending_id p' = pending_id p ->
  reserved_pages p' = reserved_pages p ∪ reserved_by [r] ->
  retired_pages p' = retired_pages p ∪ retired_by [r] ->
  detached_free_pages p' = detached_free_pages p ∪ detached_by [r] ->
  epoch_of_suffix p' (recs ++ [r]).
Proof.
  intros (pre & suf & -> & Hpre & Hall & H1 & H2 & H3) Hr Hid E1 E2 E3.
  exists pre, (suf ++ [r]). rewrite Hid. split; [by rewrite <- app_assoc|]. split; [done|].
  split; [by apply Forall_app; split; [|apply Forall_singleton]|].
  rewrite E1, E2, E3, H1, H2, H3. unfold reserved_by, retired_by, detached_by.
  rewrite !omap_app, !list_to_set_app_L. done.
Qed.

Lemma run_journal_pending recs p last :
  run_journal recs = Ok (Some p, last) -> epoch_of_suffix p recs.
Proof.
  revert p last. induction recs as [|r recs IH] using rev_ind; intros p last; [done|].
  rewrite run_journal_snoc. destruct (run_journal recs) as [[[q|] l]| |] eqn:E; cbn; [| |done|done].
  - specialize (IH q l eq_refl).
    destruct r as [e|e pg|e pg|e pg|e]; cbn; try (by case_match);
      destruct (Z.eqb_spec (pending_id q) e) as [He|]; try done; intros [= <- _];
      (eapply epoch_extend; [exact IH|done|done|cbn..]); unfold reserved_by, retired_by, detached_by; cbn; set_solver.
  - destruct r as [e|e pg|e pg|e pg|e]; cbn; try done.
    destruct (e <=? l); [done|]. intros [= <- _]. exists recs, []. cbn. eauto 10.
Qed.

Section scan.
Context (crc32 : bytes -> Z) (crc32_u32 : forall b, u32_ok (crc32 b)).

Definition journal_bytes (recs : list PageOwnershipRecord) : bytes :=
  concat (ownership_bytes crc32 <$> recs).

Lemma zlen_journal_bytes recs : zlen (journal_bytes recs) = 32 * zlen recs.
Proof.
  induction recs as [|r recs IH]; [done|]. unfold journal_bytes in *. cbn.
  rewrite zlen_app, zlen_cons, IH. rewrite (zlen_ownership_bytes crc32 r). unfold RECORD_SIZE. lia.
Qed.

Lemma chunks_journal recs fuel :
  (length recs <= fuel)%nat -> chunks fuel (journal_bytes recs) = ownership_bytes crc32 <$> recs.
Proof.
  revert fuel. induction recs as [|r recs IH]; intros fuel Hf.
  - destruct fuel; done.
  - destruct fuel as [|fuel]; [cbn in Hf; lia|]. cbn [chunks].
    pose proof (zlen_journal_bytes (r :: recs)) as Hz. rewrite zlen_cons in Hz.
    pose proof (zlen_nonneg recs). unfold RECORD_SIZE.
    rewrite (proj2 (Z.ltb_ge _ _)) by lia.
    destruct (take_drop_app (ownership_bytes crc32 r) (journal_bytes recs) 32) as [E1 E2];
      [by rewrite zlen_ownership_bytes|].
    change (journal_bytes (r :: recs)) with (ownership_bytes crc32 r ++ journal_bytes recs).
    rewrite E1. change (Z.to_nat 32) with 32%nat in E2. rewrite E2, IH by (cbn in Hf; lia). done.
Qed.

Lemma pending_epoch_run recs :
  Forall ownership_record_ok recs ->
  pending_epoch crc32 (journal_bytes recs) = (st ← run_journal recs; Ok st.1).
Proof.
  intros Hok. unfold pending_epoch. rewrite zlen_journal_bytes.
  rewrite (Z.mul_comm 32), Z_mod_mult. cbn [Z.eqb negb].
  rewrite chunks_journal.
  2:{ pose proof (zlen_journal_bytes recs). unfold zlen in *. lia. }
  f_equal. unfold run_journal. generalize (@Ok IoError _ (@None PendingOwnershipEpoch, 0)).
  induction Hok as [|r recs Hr _ IH]; intros st; [done|]. cbn. rewrite <- IH. f_equal.
  destruct st as [st| |]; [|done|done]. cbn. unfold journal_frame.
  by rewrite (decode_ownership_bytes crc32 crc32_u32 r Hr).
Qed.

(** C33. The scan of a journal written record by record runs the journal's state
    machine; when it reports an unfinished epoch, that epoch is the last one
    begun, nothing after its [Begin] belongs to another epoch, and the reported
    page sets are exactly the pages that the epoch's records reserved, retired
    and detached. *)
Theorem pending_epoch_correct recs :
  Forall ownership_record_ok recs ->
  pending_epoch crc32 (journal_bytes recs) = (st ← run_journal recs; Ok st.1) /\
  forall p, pending_epoch crc32 (journal_bytes recs) = Ok (Some p) -> epoch_of_suffix p recs.
Proof.
  intros Hok. rewrite (pending_epoch_run recs Hok). split; [done|]. intros p.
  destruct (run_journal recs) as [[q l]| |] eqn:E; cbn; [|done|done]. intros [= ->].
  by eapply run_journal_pending.
Qed.

(** A journal cut anywhere but at a record boundary is refused, never read
    as if the torn record had not been written. *)
Theorem torn_journal_rejected recs n :
  0 <= n < zlen (journal_bytes recs) -> n mod 32 <> 0 ->
  pending_epoch crc32 (slice (journal_bytes recs) 0 n) = Err (InvalidData "incomplete ownership journal").
Proof.
  intros Hn Hm. unfold pending_epoch. rewrite zlen_slice by lia.
  unfold RECORD_SIZE. by rewrite (proj2 (Z.eqb_neq _ _)).
Qed.

End scan.

(** ** The recovery plan *)

Lemma elem_of_set_iter s x : x ∈ set_iter s <-> x ∈ s.
Proof. unfold set_iter. by rewrite merge_sort_Permutation, elem_of_elements. Qed.

Lemma set_iter_sorted s : Sorted Z.le (set_iter s) /\ NoDup (set_iter s).
Proof.
  split.
  - apply (Sorted_merge_sort Z.le).
  - unfold set_iter. rewrite merge_sort_Permutation. apply NoDup_elements.
Qed.

(** A loop whose body either fails with [e] or updates the state. *)
Lemma for_each_spec {S} (f : S -> Z -> result IoError S) (ok : Z -> bool) (upd : S -> Z -> S) e pages st :
  (forall st x, f st x = if ok x then Ok (upd st x) else Err e) ->
  for_each f pages st =
    if forallb ok (set_iter pages) then Ok (foldl upd st (set_iter pages)) else Err e.
Proof.
  intros Hf. unfold for_each. generalize (set_iter pages) as l. intros l. revert st.
  induction l as [|x l IH]; intros st; [done|]. cbn. rewrite Hf. destruct (ok x); cbn; [apply IH|].
  clear. induction l as [|y l IH]; [done|]. apply IH.
Qed.

Section plan_proofs.
Context (pending : PendingOwnershipEpoch) (first_allocatable_page page_count : Z).

Let in_file (x : Z) : bool := (first_allocatable_page <=? x) && (x <? page_count).

(** What each loop requires of a page, and the state it computes. *)
Definition reserved_page_ok (published : bool) (x : Z) : bool :=
  (first_allocatable_page <=? x) &&
  (negb published || (x <? page_count) && negb (bool_decide (x ∈ retired_pages pending))).

Lemma plan_reserved_eq published st x :
  plan_reserved pending published first_allocatable_page page_count st x
  = if reserved_page_ok published x
    then Ok (if published then (st.1, st.2 ∪ {[x]})
             else (if x <? page_count then st.1 ∪ {[x]} else st.1, st.2))
    else Err (InvalidData "invalid ownership recovery state").
Proof.
  destruct st as [r p]. unfold plan_reserved, reserved_page_ok.
  rewrite (Z.leb_antisym x page_count), (Z.ltb_antisym first_allocatable_page x).
  destruct (first_allocatable_page <=? x), (x <? page_count), published; cbn; try done.
  by destruct (bool_decide _).
Qed.

Lemma plan_detached_eq st x :
  plan_detached first_allocatable_page page_count st x
  = if in_file x then Ok (if bool_decide (x ∈ st.2) then st else (st.1 ∪ {[x]}, st.2))
    else Err (InvalidData "invalid ownership recovery state").
Proof.
  destruct st as [r p]. unfold plan_detached, in_file.
  rewrite (Z.leb_antisym x page_count), (Z.ltb_antisym first_allocatable_page x).
  destruct (first_allocatable_page <=? x), (x <? page_count); cbn; try done. by destruct (bool_decide _).
Qed.

Lemma plan_retired_eq published st x :
  plan_retired published first_allocatable_page page_count st x
  = if in_file x then Ok (if published then (st.1 ∪ {[x]}, st.2) else st)
    else Err (InvalidData "invalid ownership recovery state").
Proof.
  destruct st as [r p]. unfold plan_retired, in_file.
  rewrite (Z.leb_antisym x page_count), (Z.ltb_antisym first_allocatable_page x).
  destruct (first_allocatable_page <=? x), (x <? page_count); cbn; try done. by destruct published.
Qed.

(** The states the loops compute. *)
Lemma reserved_state (published : bool) l (r p : gset Z) :
  foldl (fun st x => if published then (st.1, st.2 ∪ {[x]})
                     else (if x <? page_count then st.1 ∪ {[x]} else st.1, st.2)) (r, p) l
  = if published then (r, p ∪ list_to_set l)
    else (r ∪ list_to_set (List.filter (fun x => x <? page_count) l), p).
Proof.
  revert r p. induction l as [|x l IH]; intros r p; cbn.
  - by destruct published; rewrite (right_id_L ∅ (∪)).
  - destruct published; rewrite IH; cbn; [by rewrite (assoc_L (∪))|].
    destruct (x <? page_count); [|done]. by rewrite list_to_set_cons, (assoc_L (∪)).
Qed.

Lemma detached_state l (r p : gset Z) :
  foldl (fun st x => if bool_decide (x ∈ st.2) then st else (st.1 ∪ {[x]}, st.2)) (r, p) l
  = (r ∪ (list_to_set l ∖ p), p).
Proof.
  revert r. induction l as [|x l IH]; intros r; cbn.
  - f_equal. set_solver.
  - case_bool_decide; rewrite IH; f_equal; set_solver.
Qed.

Lemma retired_state (published : bool) l (r p : gset Z) :
  foldl (fun st x => if published then (st.1 ∪ {[x]}, st.2) else st) (r, p) l
  = (if published then r ∪ list_to_set l else r, p).
Proof.
  revert r. induction l as [|x l IH]; intros r; cbn.
  - destruct published; [by rewrite (right_id_L ∅ (∪))|done].
  - destruct published; rewrite IH; [|done]. by rewrite (assoc_L (∪)).
Qed.

(** When the three loops succeed, and with what. *)
Lemma plan_sets_eq published :
  plan_sets pending published first_allocatable_page page_count =
    if forallb (reserved_page_ok published) (set_iter (reserved_pages pending))
       && forallb in_file (set_iter (detached_free_pages pending))
       && forallb in_file (set_iter (retired_pages pending))
    then
      let reserved := set_iter (reserved_pages pending) in
      let preserve := if published then list_to_set reserved else ∅ in
      let release :=
        if published then ∅ else list_to_set (List.filter (fun x => x <? page_count) reserved) in
      let release := release ∪ (list_to_set (set_iter (detached_free_pages pending)) ∖ preserve) in
      Ok (if published then release ∪ list_to_set (set_iter (retired_pages pending)) else release,
          preserve)
    else Err (InvalidData "invalid ownership recovery state").
Proof.
  unfold plan_sets.
  rewrite (for_each_spec _ _ _ _ _ _ (plan_reserved_eq published)).
  destruct (forallb _ (set_iter (reserved_pages pending))); [|done]. cbn [mbind result_bind andb].
  rewrite reserved_state, (for_each_spec _ _ _ _ _ _ plan_detached_eq).
  destruct (forallb _ (set_iter (detached_free_pages pending))); [|done]. cbn [mbind result_bind andb].
  rewrite (for_each_spec _ _ _ _ _ _ (plan_retired_eq published)).
  destruct (forallb _ (set_iter (retired_pages pending))); [|done].
  match goal with |- context [foldl _ (foldl _ ?st _) _] => destruct st as [r p] eqn:E end.
  rewrite detached_state, retired_state.
  destruct published; injection E as <- <-; rewrite ?(left_id_L ∅ (∪)); done.
Qed.

End plan_proofs.

(** The state of a crashed epoch that recovery can act on. *)
Definition recoverable (p : PendingOwnershipEpoch) (catalog_epoch first count : Z) : Prop :=
  pending_id p <> 0 /\ catalog_epoch <= pending_id p /\ first <= count /\
  (forall x, x ∈ reserved_pages p -> first <= x /\
     (catalog_epoch = pending_id p -> x < count /\ x ∉ retired_pages p)) /\
  (forall x, x ∈ detached_free_pages p \/ x ∈ retired_pages p -> first <= x < count).

(** Which pages a plan returns to the allocator and which it keeps. *)
Definition plan_spec (p : PendingOwnershipEpoch) (catalog_epoch count : Z)
  (plan : OwnershipRecoveryPlan) : Prop :=
  (forall x, x ∈ plan_preserve plan <-> catalog_epoch = pending_id p /\ x ∈ reserved_pages p) /\
  (forall x, x ∈ plan_release plan <->
     if decide (catalog_epoch = pending_id p)
     then x ∈ detached_free_pages p /\ x ∉ reserved_pages p \/ x ∈ retired_pages p
     else x ∈ reserved_pages p /\ x < count \/ x ∈ detached_free_pages p) /\
  (Sorted Z.le (plan_release plan) /\ NoDup (plan_release plan)) /\
  (Sorted Z.le (plan_preserve plan) /\ NoDup (plan_preserve plan)).

Lemma forallb_set_iter f s : forallb f (set_iter s) = true <-> forall x, x ∈ s -> f x = true.
Proof.
  rewrite List.forallb_forall. setoid_rewrite <- list_elem_of_In. by setoid_rewrite elem_of_set_iter.
Qed.

Lemma recoverable_check p catalog_epoch first count :
  recoverable p catalog_epoch first count <->
  (pending_id p =? 0) || (pending_id p <? catalog_epoch) || (count <? first) = false /\
  forallb (reserved_page_ok p first count (catalog_epoch =? pending_id p)) (set_iter (reserved_pages p))
  && forallb (fun x => (first <=? x) && (x <? count)) (set_iter (detached_free_pages p))
  && forallb (fun x => (first <=? x) && (x <? count)) (set_iter (retired_pages p)) = true.
Proof.
  assert (forall x, reserved_page_ok p first count (catalog_epoch =? pending_id p) x = true <->
     first <= x /\ (catalog_epoch = pending_id p -> x < count /\ x ∉ retired_pages p)) as Hr.
  { intros x. unfold reserved_page_ok.
    rewrite andb_true_iff, orb_true_iff, andb_true_iff, !negb_true_iff.
    rewrite bool_decide_eq_false, Z.leb_le, Z.ltb_lt, Z.eqb_neq.
    destruct (decide (catalog_epoch = pending_id p)); naive_solver. }
  unfold recoverable. rewrite !andb_true_iff, !forallb_set_iter, !orb_false_iff.
  setoid_rewrite Hr. rewrite Z.eqb_neq, !Z.ltb_ge.
  setoid_rewrite andb_true_iff. setoid_rewrite Z.leb_le. setoid_rewrite Z.ltb_lt. split.
  - intros (? & ? & ? & ? & Hx). split; [done|]. split; [split; [done|]|]; intros x ?; apply Hx; auto.
  - intros ((? & ?) & (? & Hd) & Ht). repeat split; try done; intros; try lia; naive_solver.
Qed.

Lemma plan_spec_safe p catalog_epoch first count plan :
  recoverable p catalog_epoch first count -> plan_spec p catalog_epoch count plan ->
  (forall x, x ∈ plan_release plan -> x ∉ plan_preserve plan) /\
  (forall x, x ∈ plan_release plan \/ x ∈ plan_preserve plan -> first <= x < count).
Proof.
  intros (_ & _ & _ & Hr & Hd) (Hp & Hrel & _). split.
  - intros x. rewrite Hp, Hrel. case_decide; [|naive_solver].
    intros [[_ ?]|Ht] [_ Hx]; [done|]. apply Hr in Hx as [_ Hx]. naive_solver.
  - intros x. rewrite Hp, Hrel. case_decide.
    + intros [[[Hx _]|Hx]|[_ Hx]]; [apply Hd; auto|apply Hd; auto|]. apply Hr in Hx. naive_solver.
    + intros [[[Hx ?]|Hx]|[? _]]; [apply Hr in Hx as [? _]; lia|apply Hd; auto|done].
Qed.

(** C29. Recovery of an unfinished ownership epoch: it succeeds exactly when the
    epoch and its pages are consistent with the catalog and the file.  If the
    catalog had not published the epoch, every page it reserved (and that exists)
    and every detached page goes back to the allocator and nothing is preserved;
    if it had, the reserved pages are preserved and the retired and remaining
    detached pages are released.  The two lists are ascending without repeats, no
    page is in both, and all of them lie in the allocatable part of the file. *)
Theorem recovery_plan_correct p catalog_epoch first count :
  (recoverable p catalog_epoch first count ->
   exists plan, recovery_plan p catalog_epoch first count = Ok plan /\
     plan_spec p catalog_epoch count plan /\
     (forall x, x ∈ plan_release plan -> x ∉ plan_preserve plan) /\
     (forall x, x ∈ plan_release plan \/ x ∈ plan_preserve plan -> first <= x < count)) /\
  (~ recoverable p catalog_epoch first count ->
   recovery_plan p catalog_epoch first count
   = Err (InvalidData "invalid ownership recovery state")).
Proof.
  pose proof (recoverable_check p catalog_epoch first count) as Hck.
  unfold recovery_plan. rewrite plan_sets_eq. split; [intros Hrec|intros Hn].
  2:{ destruct (_ || _ || _) eqn:E1; [done|]. destruct (_ && _ && _) eqn:E2; [|done].
      destruct Hn. by apply Hck. }
  destruct (proj1 Hck Hrec) as [-> ->]. eexists. split; [done|].
  match goal with |- plan_spec _ _ _ ?pl /\ _ =>
    assert (plan_spec p catalog_epoch count pl) as Hspec; [|by split; [|apply (plan_spec_safe p catalog_epoch)]] end.
  unfold plan_spec. cbn. split; [|split; [|split; apply set_iter_sorted]].
  - intros x. rewrite elem_of_set_iter.
    destruct (Z.eqb_spec catalog_epoch (pending_id p)); rewrite ?elem_of_list_to_set, ?elem_of_set_iter;
      set_solver.
  - intros x. rewrite elem_of_set_iter.
    destruct (Z.eqb_spec catalog_epoch (pending_id p)); [rewrite decide_True by done|rewrite decide_False by done].
    + rewrite !elem_of_union, elem_of_difference, !elem_of_list_to_set, !elem_of_set_iter. set_solver.
    + rewrite elem_of_union, elem_of_difference, !elem_of_list_to_set, !elem_of_set_iter.
      rewrite list_elem_of_In, List.filter_In, <- list_elem_of_In, elem_of_set_iter, Z.ltb_lt.
      set_solver.
Qed.

(** ** Samples *)

Definition sample_journal : list PageOwnershipRecord :=
  [OBegin 7; OFinish 7; OBegin 8; OReserve 8 67; ODetachFree 8 68; ORetire 8 12].

Lemma sample_journal_ok : Forall ownership_record_ok sample_journal.
Proof. repeat constructor; done. Qed.

Lemma ownership_roundtrip_witness :
  exists b, encode_ownership byte_sum (OReserve 7 67) = Ok b /\ zlen b = RECORD_SIZE
            /\ decode_ownership byte_sum b = Ok (OReserve 7 67).
Proof.
  apply (ownership_roundtrip byte_sum byte_sum_u32 (OReserve 7 67)). repeat split; done.
Defined.

Lemma ownership_decode_canonical_witness :
  encode_ownership byte_sum (ODetachFree 7 68) = Ok (ownership_bytes byte_sum (ODetachFree 7 68)).
Proof.
  apply (ownership_decode_canonical byte_sum (ownership_bytes byte_sum (ODetachFree 7 68))).
  - repeat constructor; done.
  - by vm_compute.
Defined.

Lemma pending_epoch_correct_witness :
  pending_epoch byte_sum (journal_bytes byte_sum sample_journal)
    = Ok (Some {| pending_id := 8; reserved_pages := {[67]}; retired_pages := {[12]};
                  detached_free_pages := {[68]} |}).
Proof.
  rewrite (proj1 (pending_epoch_correct byte_sum byte_sum_u32 sample_journal sample_journal_ok)).
  by vm_compute.
Defined.

Lemma torn_journal_rejected_witness :
  pending_epoch byte_sum (slice (journal_bytes byte_sum sample_journal) 0 40)
    = Err (InvalidData "incomplete ownership journal").
Proof. apply (torn_journal_rejected byte_sum sample_journal 40); by vm_compute. Defined.

Lemma recovery_plan_correct_witness :
  exists plan,
    recovery_plan {| pending_id := 8; reserved_pages := {[67]}; retired_pages := {[12]};
                     detached_free_pages := {[68]} |} 8 3 100 = Ok plan /\
    plan_spec {| pending_id := 8; reserved_pages := {[67]}; retired_pages := {[12]};
                 detached_free_pages := {[68]} |} 8 100 plan /\
    (forall x, x ∈ plan_release plan -> x ∉ plan_preserve plan) /\
    (forall x, x ∈ plan_release plan \/ x ∈ plan_preserve plan -> 3 <= x < 100).
Proof.
  apply (recovery_plan_correct {| pending_id := 8; reserved_pages := {[67]}; retired_pages := {[12]};
                                  detached_free_pages := {[68]} |} 8 3 100).
  split; [done|]. split; [done|]. split; [done|]. cbn. split.
  - intros x ->%elem_of_singleton. split; [lia|]. intros _. split; [lia|set_solver].
  - intros x [->%elem_of_singleton| ->%elem_of_singleton]; lia.
Defined.
