(* ===== verification/Wal.v ===== *)
(** * The main write-ahead log

    Models [crates/reddb-file/src/wal_record.rs] and [wal_header.rs]: the record
    frames, the single encoder, the decoder with its tracked checksum, and the
    file header.  [crc32fast] and [zstd] are parameters.

    The encoder appends to a buffer and may stop half way, so it is a writer that
    returns the buffer with its result.  A 32-bit float is its bit pattern, a
    [String] its UTF-8 bytes.  The detail that the standard library prints for an
    invalid UTF-8 sequence is left out of the error messages. *)

From S2P Require Import Prelude Codec Ownership.
From Stdlib Require Import ZArith Lia.
From stdpp Require Import pretty.
#[local] Open Scope Z_scope.

Definition MAIN_WAL_DEFAULT_COMPRESS_THRESHOLD : Z := 256.
Definition MAX_MAIN_WAL_PAYLOAD : Z := 268435456.
Definition MAX_MAIN_WAL_ITEMS : Z := 1000000.

Definition WAL_FILE_MAGIC : bytes := [82; 68; 66; 87].
Definition WAL_FILE_VERSION : Z := 3.
Definition WAL_FILE_VERSION_V2 : Z := 2.
Definition WAL_FILE_HEADER_BYTES : Z := 8.
Definition MAIN_WAL_SEGMENT_BYTES : Z := 16777216.

Inductive MainWalRecordType : Type :=
| TBegin | TCommit | TRollback | TPageWrite | TCheckpoint | TPageWriteCompressed
| TTxCommitBatch | TFullPageImage | TVectorInsert | TProbabilisticDelta | TPageOwnership.

#[global] Instance MainWalRecordType_eq_dec : EqDecision MainWalRecordType.
Proof. solve_decision. Defined.

(** [record_type as u8] *)
Definition record_type_u8 (t : MainWalRecordType) : Z :=
  match t with
  | TBegin => 1 | TCommit => 2 | TRollback => 3 | TPageWrite => 4 | TCheckpoint => 5
  | TPageWriteCompressed => 6 | TTxCommitBatch => 7 | TFullPageImage => 8
  | TVectorInsert => 9 | TProbabilisticDelta => 10 | TPageOwnership => 11
  end.

Definition record_type_from_u8 (v : Z) : option MainWalRecordType :=
  match v with
  | 1 => Some TBegin | 2 => Some TCommit | 3 => Some TRollback | 4 => Some TPageWrite
  | 5 => Some TCheckpoint | 6 => Some TPageWriteCompressed | 7 => Some TTxCommitBatch
  | 8 => Some TFullPageImage | 9 => Some TVectorInsert | 10 => Some TProbabilisticDelta
  | 11 => Some TPageOwnership | _ => None
  end.

Inductive MainWalCompression : Type := CompressionNone | CompressionZstd.

Definition compression_u8 (c : MainWalCompression) : Z :=
  match c with CompressionNone => 0 | CompressionZstd => 1 end.

Definition compression_from_u8 (v : Z) : option MainWalCompression :=
  match v with 0 => Some CompressionNone | 1 => Some CompressionZstd | _ => None end.

Inductive MainWalRecordFrame : Type :=
| WPageOwnership (record : PageOwnershipRecord)
| WBegin (tx_id : Z)
| WCommit (tx_id : Z)
| WRollback (tx_id : Z)
| WPageWrite (tx_id page_id : Z) (data : bytes)
| WTxCommitBatch (tx_id : Z) (actions : list bytes)
| WFullPageImage (tx_id page_id ckpt_epoch : Z) (data : bytes)
| WVectorInsert (collection : bytes) (entity_id : Z) (vector : list Z)
| WProbabilisticDelta (kind operation : Z) (name : bytes) (operands : list bytes)
| WCheckpoint (lsn : Z).

Record MainWalRecordAuthority : Type := {
  term : Z;
  ownership_epoch : option Z;
}.

(** ** Writers *)

(** Appends to the buffer; on an error the bytes written so far stay. *)
Definition Writer : Type := bytes -> bytes * result IoError unit.

Definition put (bs : bytes) : Writer := fun out => (out ++ bs, Ok tt).

Definition wseq (w1 w2 : Writer) : Writer := fun out =>
  match w1 out with
  | (out, Ok _) => w2 out
  | (out, e) => (out, e)
  end.
Infix ";>" := wseq (at level 60, right associativity).

Fixpoint wlist {A} (w : A -> Writer) (xs : list A) : Writer :=
  match xs with
  | [] => put []
  | x :: xs => w x ;> wlist w xs
  end.

Definition write_u32_len (len : Z) (label : string) : Writer := fun out =>
  if U32_MAX <? len then (out, Err (InvalidInput label))
  else (out ++ le_bytes 4 len, Ok tt).

Definition write_type_and_authority (t : MainWalRecordType) (a : MainWalRecordAuthority) : Writer :=
  put [record_type_u8 t] ;> put (le_bytes 8 (term a))
  ;> put (le_bytes 8 (default 0 (ownership_epoch a))).

Section wal.
Context (crc32 : bytes -> Z) (crc32_u32 : forall b, u32_ok (crc32 b)).
(** [zstd::bulk::compress(data, 3).ok()] *)
Context (zstd_compress : bytes -> option bytes).
(** [zstd::bulk::decompress_to_buffer] into a zeroed buffer of the given length:
    the error's text, or the buffer afterwards. *)
Context (zstd_decompress_to_buffer : bytes -> Z -> string + bytes).

Definition append_crc (start : Z) : Writer := fun out =>
  (out ++ le_bytes 4 (crc32 (drop (Z.to_nat start) out)), Ok tt).

Definition write_page_plain (a : MainWalRecordAuthority) (tx_id page_id : Z) (data : bytes) : Writer :=
  write_type_and_authority TPageWrite a
  ;> put (le_bytes 8 tx_id) ;> put (le_bytes 4 page_id)
  ;> write_u32_len (zlen data) "main wal page length" ;> put data.

Definition write_page_compressed (a : MainWalRecordAuthority) (tx_id page_id : Z)
  (data compressed : bytes) : Writer :=
  write_type_and_authority TPageWriteCompressed a
  ;> put (le_bytes 8 tx_id) ;> put (le_bytes 4 page_id) ;> put [compression_u8 CompressionZstd]
  ;> write_u32_len (zlen data) "main wal original page length"
  ;> write_u32_len (zlen compressed) "main wal compressed page length"
  ;> put compressed.

(** The compressed form of [data], when the encoder uses one. *)
Definition compressed_form (data : bytes) : option bytes :=
  if MAIN_WAL_DEFAULT_COMPRESS_THRESHOLD <=? zlen data then
    match zstd_compress data with
    | Some compressed => if zlen compressed <? zlen data then Some compressed else None
    | None => None
    end
  else None.

(** The record without its checksum. *)
Definition write_record (frame : MainWalRecordFrame) (a : MainWalRecordAuthority) : Writer :=
  match frame with
  | WPageOwnership record =>
      match encode_ownership crc32 record with
      | Ok payload => write_type_and_authority TPageOwnership a ;> put payload
      | Err e => fun out => (out, Err e)
      | Panic => fun out => (out, Panic)
      end
  | WBegin tx_id => write_type_and_authority TBegin a ;> put (le_bytes 8 tx_id)
  | WCommit tx_id => write_type_and_authority TCommit a ;> put (le_bytes 8 tx_id)
  | WRollback tx_id => write_type_and_authority TRollback a ;> put (le_bytes 8 tx_id)
  | WPageWrite tx_id page_id data =>
      match compressed_form data with
      | Some compressed => write_page_compressed a tx_id page_id data compressed
      | None => write_page_plain a tx_id page_id data
      end
  | WTxCommitBatch tx_id actions =>
      write_type_and_authority TTxCommitBatch a ;> put (le_bytes 8 tx_id)
      ;> write_u32_len (zlen actions) "main wal action count"
      ;> wlist (fun action => write_u32_len (zlen action) "main wal action length" ;> put action) actions
  | WFullPageImage tx_id page_id ckpt_epoch data =>
      write_type_and_authority TFullPageImage a
      ;> put (le_bytes 8 tx_id) ;> put (le_bytes 4 page_id) ;> put (le_bytes 8 ckpt_epoch)
      ;> write_u32_len (zlen data) "main wal full-page image length" ;> put data
  | WVectorInsert collection entity_id vector =>
      write_type_and_authority TVectorInsert a
      ;> write_u32_len (zlen collection) "main wal collection name length" ;> put collection
      ;> put (le_bytes 8 entity_id)
      ;> write_u32_len (zlen vector) "main wal vector length"
      ;> wlist (fun value => put (le_bytes 4 value)) vector
  | WProbabilisticDelta kind operation name operands =>
      write_type_and_authority TProbabilisticDelta a
      ;> put [kind] ;> put [operation]
      ;> write_u32_len (zlen name) "main wal probabilistic name length" ;> put name
      ;> write_u32_len (zlen operands) "main wal probabilistic operand count"
      ;> wlist (fun operand => write_u32_len (zlen operand) "main wal probabilistic operand length"
                               ;> put operand) operands
  | WCheckpoint lsn => write_type_and_authority TCheckpoint a ;> put (le_bytes 8 lsn)
  end.

Definition encode_main_wal_record_frame_with_authority_into (frame : MainWalRecordFrame)
  (a : MainWalRecordAuthority) : Writer := fun out =>
  let start := zlen out in
  (write_record frame a ;> append_crc start) out.

Definition encode_main_wal_record_frame_into (frame : MainWalRecordFrame) (t : Z) : Writer :=
  encode_main_wal_record_frame_with_authority_into frame {| term := t; ownership_epoch := None |}.

Definition encode_main_wal_record_frame_with_authority (frame : MainWalRecordFrame)
  (a : MainWalRecordAuthority) : result IoError bytes :=
  match encode_main_wal_record_frame_with_authority_into frame a [] with
  | (out, Ok _) => Ok out
  | (_, Err e) => Err e
  | (_, Panic) => Panic
  end.

Definition encode_main_wal_record_frame (frame : MainWalRecordFrame) (t : Z) : result IoError bytes :=
  encode_main_wal_record_frame_with_authority frame {| term := t; ownership_epoch := None |}.

(** The size of the actions at the end of a batch frame, with the checksum. *)
Definition batch_suffix (actions : list bytes) : result IoError Z :=
  foldl (fun rsize action =>
    size ← rsize;
    if USIZE_MAX <? size + 4 then Err (InvalidInput "WAL action offsets overflow")
    else if USIZE_MAX <? size + 4 + zlen action then Err (InvalidInput "WAL action offsets overflow")
    else Ok (size + 4 + zlen action)) (Ok 4) actions.

(** [visit] is a stateful callback. *)
Definition visit_actions {S} (visit : S -> Z -> bytes -> result IoError S)
  (offset : Z) (actions : list bytes) (s : S) : result IoError S :=
  '(_, s) ← foldl (fun rst action =>
    '(offset, s) ← rst;
    let offset := offset + 4 in
    s ← visit s offset action;
    Ok (offset + zlen action, s)) (Ok (offset, s)) actions;
  Ok s.

Definition encode_main_wal_commit_batch_with_visitor {S} (tx_id : Z) (actions : list bytes) (t : Z)
  (visit : S -> Z -> bytes -> result IoError S) (s : S) : result IoError (bytes * S) :=
  out ← encode_main_wal_record_frame (WTxCommitBatch tx_id actions) t;
  suffix ← batch_suffix actions;
  if zlen out <? suffix then Err (InvalidData "WAL action offsets exceed frame")
  else
    s ← visit_actions visit (zlen out - suffix) actions s;
    Ok (out, s).

(** ** The decoder *)

Definition validate_len (len : Z) (label : string) : Reader unit :=
  if MAX_MAIN_WAL_PAYLOAD <? len
  then reader_err (InvalidData ("implausible " +:+ label +:+ ": " +:+ pretty len)) else mret tt.

Definition validate_count (count : Z) (label : string) : Reader unit :=
  if MAX_MAIN_WAL_ITEMS <? count
  then reader_err (InvalidData ("implausible " +:+ label +:+ ": " +:+ pretty count)) else mret tt.

Definition read_bytes_tracked : Reader bytes :=
  len ← read_u32_tracked;
  _ ← validate_len len "main WAL payload length";
  read_array_tracked len.

Definition read_compression_tracked : Reader MainWalCompression :=
  value ← read_u8_tracked;
  match compression_from_u8 value with
  | Some c => mret c
  | None => reader_err (InvalidData ("Unknown WAL compression algorithm: " +:+ pretty value))
  end.

Definition read_string_tracked (msg : string) : Reader bytes :=
  b ← read_bytes_tracked;
  if utf8_valid b then mret b else reader_err (InvalidData msg).

Definition strict_ownership (t : MainWalRecordType) (e : IoError) : IoError :=
  match t, e with
  | TPageOwnership, UnexpectedEof => InvalidData "incomplete page ownership WAL record"
  | _, _ => e
  end.

Definition read_authority (t : MainWalRecordType) (format_version : Z)
  (default_authority : MainWalRecordAuthority) : Reader MainWalRecordAuthority :=
  if format_version =? WAL_FILE_VERSION then
    term ← reader_map_err (strict_ownership t) read_u64_tracked;
    epoch ← reader_map_err (strict_ownership t) read_u64_tracked;
    mret {| term := term; ownership_epoch := if epoch =? 0 then None else Some epoch |}
  else if format_version =? WAL_FILE_VERSION_V2 then mret default_authority
  else reader_err (InvalidData ("Unsupported WAL version: " +:+ pretty format_version)).

Definition read_frame (t : MainWalRecordType) (format_version : Z) : Reader MainWalRecordFrame :=
  match t with
  | TPageOwnership =>
      if negb (format_version =? WAL_FILE_VERSION)
      then reader_err (InvalidData "page ownership record in old WAL")
      else
        payload ← reader_map_err (strict_ownership t) (read_array_tracked RECORD_SIZE);
        record ← reader_lift (decode_ownership crc32 payload);
        mret (WPageOwnership record)
  | TBegin => tx_id ← read_u64_tracked; mret (WBegin tx_id)
  | TCommit => tx_id ← read_u64_tracked; mret (WCommit tx_id)
  | TRollback => tx_id ← read_u64_tracked; mret (WRollback tx_id)
  | TPageWrite =>
      tx_id ← read_u64_tracked;
      page_id ← read_u32_tracked;
      data ← read_bytes_tracked;
      mret (WPageWrite tx_id page_id data)
  | TPageWriteCompressed =>
      tx_id ← read_u64_tracked;
      page_id ← read_u32_tracked;
      compression ← read_compression_tracked;
      original_len ← read_u32_tracked;
      _ ← validate_len original_len "main WAL original page length";
      compressed ← read_bytes_tracked;
      data ← match compression with
             | CompressionZstd =>
                 match zstd_decompress_to_buffer compressed original_len with
                 | inl err => reader_err (InvalidData ("WAL zstd decompress failed: " +:+ err))
                 | inr out => mret out
                 end
             | CompressionNone => mret compressed
             end;
      mret (WPageWrite tx_id page_id data)
  | TTxCommitBatch =>
      tx_id ← read_u64_tracked;
      count ← read_u32_tracked;
      _ ← validate_count count "main WAL action count";
      actions ← read_many (Z.to_nat count) read_bytes_tracked;
      mret (WTxCommitBatch tx_id actions)
  | TFullPageImage =>
      tx_id ← read_u64_tracked;
      page_id ← read_u32_tracked;
      ckpt_epoch ← read_u64_tracked;
      data ← read_bytes_tracked;
      mret (WFullPageImage tx_id page_id ckpt_epoch data)
  | TVectorInsert =>
      collection ← read_string_tracked "invalid collection utf8";
      entity_id ← read_u64_tracked;
      count ← read_u32_tracked;
      _ ← validate_count count "main WAL vector length";
      vector ← read_many (Z.to_nat count) read_u32_tracked;
      mret (WVectorInsert collection entity_id vector)
  | TProbabilisticDelta =>
      kind ← read_u8_tracked;
      operation ← read_u8_tracked;
      name ← read_string_tracked "invalid probabilistic name utf8";
      count ← read_u32_tracked;
      _ ← validate_count count "main WAL probabilistic operand count";
      operands ← read_many (Z.to_nat count) read_bytes_tracked;
      mret (WProbabilisticDelta kind operation name operands)
  | TCheckpoint => lsn ← read_u64_tracked; mret (WCheckpoint lsn)
  end.

(** Returns the record and the unread input; [None] at a clean end. *)
Definition decode_main_wal_record_frame_with_authority (input : bytes) (format_version : Z)
  (default_authority : MainWalRecordAuthority)
  : result IoError (option (MainWalRecordAuthority * MainWalRecordFrame) * bytes) :=
  match read_u8_tracked (input, []) with
  | Err UnexpectedEof => Ok (None, input)
  | Err e => Err e
  | Panic => Panic
  | Ok (value, st) =>
      match record_type_from_u8 value with
      | None => Err (InvalidData "Invalid record type")
      | Some t =>
          '(authority, st) ← read_authority t format_version default_authority st;
          '(frame, st) ← read_frame t format_version st;
          '(stored_crc, st') ← reader_map_err (strict_ownership t) read_u32_untracked st;
          if negb (crc32 st.2 =? stored_crc) then Err (InvalidData "WAL record checksum mismatch")
          else Ok (Some (authority, frame), st'.1)
      end
  end.

Definition decode_main_wal_record_frame (input : bytes) (format_version default_term : Z)
  : result IoError (option (Z * MainWalRecordFrame) * bytes) :=
  match decode_main_wal_record_frame_with_authority input format_version
          {| term := default_term; ownership_epoch := None |} with
  | Ok (Some (authority, frame), rest) => Ok (Some (term authority, frame), rest)
  | Ok (None, rest) => Ok (None, rest)
  | Err e => Err e
  | Panic => Panic
  end.

End wal.

(** ** The file header *)

Definition encode_wal_file_header : bytes :=
  put_u8 (splice (zeros WAL_FILE_HEADER_BYTES) 0 WAL_FILE_MAGIC) 4 WAL_FILE_VERSION.

(** The argument has [WAL_FILE_HEADER_BYTES] bytes; the result is the version. *)
Definition decode_wal_file_header (header : bytes) : result IoError Z :=
  if negb (bool_decide (slice header 0 4 = WAL_FILE_MAGIC))
  then Err (InvalidData "Invalid WAL magic bytes")
  else
    let version := u8_at header 4 in
    if negb (version =? WAL_FILE_VERSION) && negb (version =? WAL_FILE_VERSION_V2)
    then Err (InvalidData ("Unsupported WAL version: " +:+ pretty version))
    else Ok version.

Definition next_main_wal_segment_boundary (pos : Z) : Z :=
  as_u64 (as_u64 (pos / MAIN_WAL_SEGMENT_BYTES + 1) * MAIN_WAL_SEGMENT_BYTES).

(** ** Round trips *)

Definition writes (w : Writer) (bs : bytes) : Prop := forall out, w out = (out ++ bs, Ok tt).

Lemma writes_put bs : writes (put bs) bs.
Proof. done. Qed.

Lemma writes_seq w1 w2 b1 b2 : writes w1 b1 -> writes w2 b2 -> writes (w1 ;> w2) (b1 ++ b2).
Proof. intros H1 H2 out. unfold wseq. rewrite H1, H2. by rewrite app_assoc. Qed.

Lemma writes_len len label : len <= U32_MAX -> writes (write_u32_len len label) (le_bytes 4 len).
Proof. intros Hl out. unfold write_u32_len. by rewrite (proj2 (Z.ltb_ge _ _)). Qed.

Lemma writes_list {A} (w : A -> Writer) (enc : A -> bytes) xs :
  (forall x, x ∈ xs -> writes (w x) (enc x)) -> writes (wlist w xs) (concat (enc <$> xs)).
Proof.
  induction xs as [|x xs IH]; intros H; cbn; [apply writes_put|].
  apply writes_seq; [apply H; set_solver|apply IH; set_solver].
Qed.

Definition type_and_authority (t : MainWalRecordType) (a : MainWalRecordAuthority) : bytes :=
  [record_type_u8 t] ++ le_bytes 8 (term a) ++ le_bytes 8 (default 0 (ownership_epoch a)).

Lemma writes_authority t a : writes (write_type_and_authority t a) (type_and_authority t a).
Proof. repeat apply writes_seq; apply writes_put. Qed.

#[local] Hint Resolve writes_put writes_seq writes_len writes_authority : codec.

Definition payload_ok (data : bytes) : Prop := zlen data <= MAX_MAIN_WAL_PAYLOAD.

(** A length-prefixed byte string as the format stores it. *)
Definition prefixed (data : bytes) : bytes := le_bytes 4 (zlen data) ++ data.

Lemma zlen_prefixed data : zlen (prefixed data) = 4 + zlen data.
Proof. unfold prefixed. by rewrite zlen_app, zlen_le_bytes. Qed.

Definition authority_ok (a : MainWalRecordAuthority) : Prop :=
  u64_ok (term a) /\
  match ownership_epoch a with Some e => u64_ok e /\ e <> 0 | None => True end.

(** The frames whose fields fit their widths and the decoder's limits. *)
Definition frame_ok (f : MainWalRecordFrame) : Prop :=
  match f with
  | WPageOwnership record => ownership_record_ok record
  | WBegin x | WCommit x | WRollback x | WCheckpoint x => u64_ok x
  | WPageWrite tx_id page_id data => u64_ok tx_id /\ u32_ok page_id /\ payload_ok data
  | WTxCommitBatch tx_id actions =>
      u64_ok tx_id /\ zlen actions <= MAX_MAIN_WAL_ITEMS /\ Forall payload_ok actions
  | WFullPageImage tx_id page_id ckpt_epoch data =>
      u64_ok tx_id /\ u32_ok page_id /\ u64_ok ckpt_epoch /\ payload_ok data
  | WVectorInsert collection entity_id vector =>
      payload_ok collection /\ utf8_valid collection = true /\ u64_ok entity_id /\
      zlen vector <= MAX_MAIN_WAL_ITEMS /\ Forall u32_ok vector
  | WProbabilisticDelta kind operation name operands =>
      payload_ok name /\ utf8_valid name = true /\
      zlen operands <= MAX_MAIN_WAL_ITEMS /\ Forall payload_ok operands
  end.

Lemma reads_payload data :
  payload_ok data -> reads UnexpectedEof read_bytes_tracked (prefixed data) data.
Proof.
  unfold payload_ok, MAX_MAIN_WAL_PAYLOAD. intros Hd. pose proof (zlen_nonneg data).
  eapply reads_bind; [apply reads_u32; unfold u32_ok; lia|].
  eapply reads_skip; [|by apply reads_array].
  unfold validate_len, MAX_MAIN_WAL_PAYLOAD. rewrite (proj2 (Z.ltb_ge _ _)) by lia. apply reads_ret.
Qed.

Lemma reads_count count label :
  count <= MAX_MAIN_WAL_ITEMS -> reads UnexpectedEof (validate_count count label) [] tt.
Proof. intros Hc. unfold validate_count. rewrite (proj2 (Z.ltb_ge _ _)) by done. apply reads_ret. Qed.

Lemma reads_string data msg :
  payload_ok data -> utf8_valid data = true ->
  reads UnexpectedEof (read_string_tracked msg) (prefixed data) data.
Proof.
  intros Hd Hu. rewrite <- (app_nil_r (prefixed data)). eapply reads_bind; [by apply reads_payload|].
  rewrite Hu. apply reads_ret.
Qed.

Lemma reads_last {A B} eof (m : Reader A) (f : A -> Reader B) bs a b :
  reads eof m bs a -> reads eof (f a) [] b -> reads eof (m ≫= f) bs b.
Proof. intros. rewrite <- (app_nil_r bs). by eapply reads_bind. Qed.

(** Items of a counted list. *)
Lemma reads_items {A} (m : Reader A) (enc : A -> bytes) xs :
  (forall x, x ∈ xs -> reads UnexpectedEof m (enc x) x) ->
  reads UnexpectedEof (read_many (Z.to_nat (zlen xs)) m) (concat (enc <$> xs)) xs.
Proof. intros H. unfold zlen. rewrite Nat2Z.id. by apply reads_many. Qed.

Lemma writes_payload data label :
  payload_ok data -> writes (write_u32_len (zlen data) label ;> put data) (prefixed data).
Proof.
  unfold payload_ok, MAX_MAIN_WAL_PAYLOAD. intros. apply writes_seq; [|apply writes_put].
  apply writes_len. unfold U32_MAX. lia.
Qed.

Lemma writes_payloads xs label :
  Forall payload_ok xs ->
  writes (wlist (fun x => write_u32_len (zlen x) label ;> put x) xs) (concat (prefixed <$> xs)).
Proof.
  intros H. apply writes_list. intros x Hx. apply writes_payload. rewrite Forall_forall in H. by apply H.
Qed.

Lemma reads_payloads xs :
  Forall payload_ok xs ->
  reads UnexpectedEof (read_many (Z.to_nat (zlen xs)) read_bytes_tracked) (concat (prefixed <$> xs)) xs.
Proof.
  intros H. apply reads_items. intros x Hx. apply reads_payload. rewrite Forall_forall in H. by apply H.
Qed.

Lemma count_u32 {A} (xs : list A) : zlen xs <= MAX_MAIN_WAL_ITEMS -> u32_ok (zlen xs) /\ zlen xs <= U32_MAX.
Proof. unfold MAX_MAIN_WAL_ITEMS, u32_ok, U32_MAX. pose proof (zlen_nonneg xs). lia. Qed.

Section roundtrip.
Context (crc32 : bytes -> Z) (crc32_u32 : forall b, u32_ok (crc32 b)).
Context (zstd_compress : bytes -> option bytes).
Context (zstd_decompress_to_buffer : bytes -> Z -> string + bytes).
(** Decompressing into a buffer of the original length gives the original. *)
Context (zstd_roundtrip : forall data compressed,
  zstd_compress data = Some compressed ->
  zstd_decompress_to_buffer compressed (zlen data) = inr data).

(** The bytes of a record after its tag and authority, and how they are read. *)
Definition shaped (frame : MainWalRecordFrame) (t : MainWalRecordType) (payload : bytes) : Prop :=
  (forall a, writes (write_record crc32 zstd_compress frame a) (type_and_authority t a ++ payload)) /\
  reads (strict_ownership t UnexpectedEof)
    (read_frame crc32 zstd_decompress_to_buffer t WAL_FILE_VERSION) payload frame.

Lemma shaped_id t v (mk : Z -> MainWalRecordFrame) :
  (forall a, write_record crc32 zstd_compress (mk v) a
             = (write_type_and_authority t a ;> put (le_bytes 8 v))) ->
  read_frame crc32 zstd_decompress_to_buffer t WAL_FILE_VERSION = (x ← read_u64_tracked; mret (mk x)) ->
  strict_ownership t UnexpectedEof = UnexpectedEof -> u64_ok v ->
  shaped (mk v) t (le_bytes 8 v).
Proof.
  intros Hw Hr Ht Hv. split.
  - intros a. rewrite Hw. apply writes_seq; [apply writes_authority|apply writes_put].
  - rewrite Hr, Ht. eapply reads_last; [by apply reads_u64|apply reads_ret].
Qed.

Lemma shaped_ownership r :
  ownership_record_ok r -> shaped (WPageOwnership r) TPageOwnership (ownership_bytes crc32 r).
Proof.
  intros Hr. split.
  - intros a. cbn [write_record]. rewrite (encode_ownership_layout crc32 r Hr).
    apply writes_seq; [apply writes_authority|apply writes_put].
  - cbn [read_frame]. change (negb (WAL_FILE_VERSION =? WAL_FILE_VERSION)) with false. cbv iota.
    eapply reads_last; [apply reads_map_err, reads_array, zlen_ownership_bytes|].
    rewrite (decode_ownership_bytes crc32 crc32_u32 r Hr).
    eapply reads_skip; [|apply reads_ret]. apply (reads_ret _ r).
Qed.

Lemma shaped_page_plain tx_id page_id data :
  compressed_form zstd_compress data = None -> frame_ok (WPageWrite tx_id page_id data) ->
  shaped (WPageWrite tx_id page_id data) TPageWrite
    (le_bytes 8 tx_id ++ le_bytes 4 page_id ++ prefixed data).
Proof.
  intros Hc (Ht & Hp & Hd). split.
  - intros a. cbn [write_record]. rewrite Hc. apply writes_seq; [apply writes_authority|].
    repeat (apply writes_seq; [apply writes_put|]). by apply writes_payload.
  - eapply reads_bind; [by apply reads_u64|]. eapply reads_bind; [by apply reads_u32|].
    eapply reads_last; [by apply reads_payload|apply reads_ret].
Qed.

Lemma shaped_page_compressed tx_id page_id data compressed :
  compressed_form zstd_compress data = Some compressed -> frame_ok (WPageWrite tx_id page_id data) ->
  shaped (WPageWrite tx_id page_id data) TPageWriteCompressed
    (le_bytes 8 tx_id ++ le_bytes 4 page_id ++ [1] ++ le_bytes 4 (zlen data) ++ prefixed compressed).
Proof.
  intros Hc (Ht & Hp & Hd).
  assert (zstd_compress data = Some compressed /\ zlen compressed < zlen data) as [Hz Hlt].
  { unfold compressed_form in Hc. destruct (_ <=? _); [|done].
    destruct (zstd_compress data) as [c|]; [|done].
    destruct (Z.ltb_spec (zlen c) (zlen data)); [|done]. by injection Hc as <-. }
  unfold payload_ok, MAX_MAIN_WAL_PAYLOAD in Hd. pose proof (zlen_nonneg data). split.
  - intros a. cbn [write_record]. rewrite Hc. apply writes_seq; [apply writes_authority|].
    repeat (apply writes_seq; [apply writes_put|]).
    apply writes_seq; [apply writes_len; unfold U32_MAX; lia|].
    apply writes_payload. unfold payload_ok, MAX_MAIN_WAL_PAYLOAD. lia.
  - eapply reads_bind; [by apply reads_u64|]. eapply reads_bind; [by apply reads_u32|].
    eapply reads_bind; [eapply reads_last; [apply reads_u8|apply reads_ret]|].
    eapply reads_bind; [apply reads_u32; unfold u32_ok; lia|].
    eapply reads_skip.
    { unfold validate_len, MAX_MAIN_WAL_PAYLOAD. rewrite (proj2 (Z.ltb_ge _ _)) by lia. apply reads_ret. }
    eapply reads_last; [apply reads_payload; unfold payload_ok, MAX_MAIN_WAL_PAYLOAD; lia|].
    rewrite (zstd_roundtrip _ _ Hz). eapply reads_skip; [|apply reads_ret]. apply (reads_ret _ data).
Qed.

Lemma shaped_batch tx_id actions :
  frame_ok (WTxCommitBatch tx_id actions) ->
  shaped (WTxCommitBatch tx_id actions) TTxCommitBatch
    (le_bytes 8 tx_id ++ le_bytes 4 (zlen actions) ++ concat (prefixed <$> actions)).
Proof.
  intros (Ht & Hc & Ha). destruct (count_u32 _ Hc). split.
  - intros a. apply writes_seq; [apply writes_authority|]. apply writes_seq; [apply writes_put|].
    apply writes_seq; [by apply writes_len|by apply writes_payloads].
  - eapply reads_bind; [by apply reads_u64|]. eapply reads_bind; [by apply reads_u32|].
    eapply reads_skip; [by apply reads_count|].
    eapply reads_last; [by apply reads_payloads|apply reads_ret].
Qed.

Lemma shaped_image tx_id page_id ckpt_epoch data :
  frame_ok (WFullPageImage tx_id page_id ckpt_epoch data) ->
  shaped (WFullPageImage tx_id page_id ckpt_epoch data) TFullPageImage
    (le_bytes 8 tx_id ++ le_bytes 4 page_id ++ le_bytes 8 ckpt_epoch ++ prefixed data).
Proof.
  intros (Ht & Hp & Hc & Hd). split.
  - intros a. apply writes_seq; [apply writes_authority|].
    repeat (apply writes_seq; [apply writes_put|]). by apply writes_payload.
  - eapply reads_bind; [by apply reads_u64|]. eapply reads_bind; [by apply reads_u32|].
    eapply reads_bind; [by apply reads_u64|].
    eapply reads_last; [by apply reads_payload|apply reads_ret].
Qed.

Lemma writes_payload_then data label w bs :
  payload_ok data -> writes w bs ->
  writes (write_u32_len (zlen data) label ;> put data ;> w) (prefixed data ++ bs).
Proof.
  intros Hd Hw. unfold prefixed. rewrite <- app_assoc.
  unfold payload_ok, MAX_MAIN_WAL_PAYLOAD in Hd.
  apply writes_seq; [apply writes_len; unfold U32_MAX; lia|]. by apply writes_seq; [apply writes_put|].
Qed.

Lemma shaped_vector collection entity_id vector :
  frame_ok (WVectorInsert collection entity_id vector) ->
  shaped (WVectorInsert collection entity_id vector) TVectorInsert
    (prefixed collection ++ le_bytes 8 entity_id ++ le_bytes 4 (zlen vector)
     ++ concat (le_bytes 4 <$> vector)).
Proof.
  intros (Hp & Hu & He & Hc & Hv). destruct (count_u32 _ Hc). rewrite Forall_forall in Hv. split.
  - intros a. apply writes_seq; [apply writes_authority|]. apply writes_payload_then; [done|].
    apply writes_seq; [apply writes_put|]. apply writes_seq; [by apply writes_len|].
    apply writes_list. intros x Hx. apply writes_put.
  - eapply reads_bind; [by apply reads_string|]. eapply reads_bind; [by apply reads_u64|].
    eapply reads_bind; [by apply reads_u32|]. eapply reads_skip; [by apply reads_count|].
    eapply reads_last; [|apply reads_ret]. apply reads_items. intros x Hx. by apply reads_u32, Hv.
Qed.

Lemma shaped_delta kind operation name operands :
  frame_ok (WProbabilisticDelta kind operation name operands) ->
  shaped (WProbabilisticDelta kind operation name operands) TProbabilisticDelta
    ([kind] ++ [operation] ++ prefixed name ++ le_bytes 4 (zlen operands)
     ++ concat (prefixed <$> operands)).
Proof.
  intros (Hp & Hu & Hc & Ho). destruct (count_u32 _ Hc). split.
  - intros a. apply writes_seq; [apply writes_authority|].
    repeat (apply writes_seq; [apply writes_put|]). apply writes_payload_then; [done|].
    apply writes_seq; [by apply writes_len|by apply writes_payloads].
  - eapply reads_bind; [apply reads_u8|]. eapply reads_bind; [apply reads_u8|].
    eapply reads_bind; [by apply reads_string|]. eapply reads_bind; [by apply reads_u32|].
    eapply reads_skip; [by apply reads_count|].
    eapply reads_last; [by apply reads_payloads|apply reads_ret].
Qed.

(** The error of a record cut short. *)
Definition eof_error (frame : MainWalRecordFrame) : IoError :=
  match frame with
  | WPageOwnership _ => InvalidData "incomplete page ownership WAL record"
  | _ => UnexpectedEof
  end.

Lemma frame_shaped frame :
  frame_ok frame ->
  exists t payload, shaped frame t payload /\ strict_ownership t UnexpectedEof = eof_error frame.
Proof.
  intros Hf. destruct frame as [r|x|x|x|tx pg d|tx acts|tx pg ck d|c e v|k o n ops|x].
  - eexists _, _. split; [by apply shaped_ownership|done].
  - eexists TBegin, _. split; [by apply (shaped_id TBegin x WBegin)|done].
  - eexists TCommit, _. split; [by apply (shaped_id TCommit x WCommit)|done].
  - eexists TRollback, _. split; [by apply (shaped_id TRollback x WRollback)|done].
  - destruct (compressed_form zstd_compress d) as [c|] eqn:E;
      eexists _, _; (split; [first [by apply shaped_page_compressed|by apply shaped_page_plain]|done]).
  - eexists _, _. split; [by apply shaped_batch|done].
  - eexists _, _. split; [by apply shaped_image|done].
  - eexists _, _. split; [by apply shaped_vector|done].
  - eexists _, _. split; [by apply shaped_delta|done].
  - eexists TCheckpoint, _. split; [by apply (shaped_id TCheckpoint x WCheckpoint)|done].
Qed.

End roundtrip.

Section decoding.
Context (crc32 : bytes -> Z) (crc32_u32 : forall b, u32_ok (crc32 b)).
Context (zstd_compress : bytes -> option bytes).
Context (zstd_decompress_to_buffer : bytes -> Z -> string + bytes).

Abbreviation encode_into := (encode_main_wal_record_frame_with_authority_into crc32 zstd_compress).
Abbreviation decode := (decode_main_wal_record_frame_with_authority crc32 zstd_decompress_to_buffer).
Abbreviation frame_shape := (shaped crc32 zstd_compress zstd_decompress_to_buffer).

Definition authority_bytes (a : MainWalRecordAuthority) : bytes :=
  le_bytes 8 (term a) ++ le_bytes 8 (default 0 (ownership_epoch a)).

Lemma reads_authority t a d :
  authority_ok a ->
  reads (strict_ownership t UnexpectedEof) (read_authority t WAL_FILE_VERSION d) (authority_bytes a) a.
Proof.
  intros [Ht He]. unfold read_authority. rewrite Z.eqb_refl.
  eapply reads_bind; [by apply reads_map_err, reads_u64|].
  eapply reads_last.
  - apply reads_map_err, reads_u64. destruct (ownership_epoch a); [apply He|done].
  - destruct a as [tm [e|]]; cbn in *; [|apply reads_ret].
    rewrite (proj2 (Z.eqb_neq e 0)) by apply He. apply reads_ret.
Qed.

Lemma record_type_roundtrip t : record_type_from_u8 (record_type_u8 t) = Some t.
Proof. by destruct t. Qed.

(** A whole record. *)
Definition record_body (t : MainWalRecordType) (a : MainWalRecordAuthority) (payload : bytes) : bytes :=
  type_and_authority t a ++ payload.
Definition record_bytes (t : MainWalRecordType) (a : MainWalRecordAuthority) (payload : bytes) : bytes :=
  record_body t a payload ++ le_bytes 4 (crc32 (record_body t a payload)).

Lemma encode_into_shaped frame t payload a :
  frame_shape frame t payload -> writes (encode_into frame a) (record_bytes t a payload).
Proof.
  intros [Hw _] out. unfold encode_main_wal_record_frame_with_authority_into, wseq.
  rewrite Hw. unfold append_crc, record_bytes, record_body, zlen.
  rewrite Nat2Z.id, drop_app_length. f_equal. symmetry. apply app_assoc.
Qed.

(** The whole decoder, from the tag to the end of the payload. *)
Lemma reads_record frame t payload a d :
  frame_shape frame t payload -> authority_ok a ->
  reads (strict_ownership t UnexpectedEof)
    (authority ← read_authority t WAL_FILE_VERSION d;
     frame ← read_frame crc32 zstd_decompress_to_buffer t WAL_FILE_VERSION;
     mret (authority, frame))
    (authority_bytes a ++ payload) (a, frame).
Proof.
  intros [_ Hr] Ha. eapply reads_bind; [by apply reads_authority|].
  eapply reads_last; [done|apply reads_ret].
Qed.

(** The decoder after the tag. *)
Lemma decode_tagged t input d :
  decode (record_type_u8 t :: input) WAL_FILE_VERSION d =
    ('(af, st) ← (authority ← read_authority t WAL_FILE_VERSION d;
                  frame ← read_frame crc32 zstd_decompress_to_buffer t WAL_FILE_VERSION;
                  mret (authority, frame)) (input, [record_type_u8 t]);
     '(stored_crc, st') ← reader_map_err (strict_ownership t) read_u32_untracked st;
     if negb (crc32 st.2 =? stored_crc) then Err (InvalidData "WAL record checksum mismatch")
     else Ok (Some af, st'.1)).
Proof.
  unfold decode_main_wal_record_frame_with_authority.
  pose proof (reads_all _ _ _ _ (reads_u8 (record_type_u8 t)) input []) as E. cbn [app] in E.
  rewrite E, record_type_roundtrip. unfold mbind, reader_bind, result_bind, mret, reader_ret.
  destruct (read_authority t WAL_FILE_VERSION d _) as [[a st]| |]; [|done|done].
  by destruct (read_frame _ _ t WAL_FILE_VERSION st) as [[f st2]| |].
Qed.

Lemma decode_record frame t payload a d rest :
  frame_shape frame t payload -> authority_ok a ->
  decode (record_bytes t a payload ++ rest) WAL_FILE_VERSION d = Ok (Some (a, frame), rest).
Proof.
  intros Hs Ha. unfold record_bytes, record_body, type_and_authority. cbn [app].
  rewrite decode_tagged, <- !app_assoc. cbn [app].
  set (tail := le_bytes 4 _ ++ rest).
  pose proof (reads_all _ _ _ _ (reads_record frame t payload a d Hs Ha) tail [record_type_u8 t]) as E.
  unfold authority_bytes in E. rewrite <- !app_assoc in E. rewrite E. cbn [mbind result_bind snd].
  unfold tail, reader_map_err. rewrite read_u32_untracked_app by done. cbn [map_err mbind result_bind].
  rewrite Z.eqb_refl. done.
Qed.

(** A record cut short. *)
Lemma decode_cut frame t payload a d pre x suf :
  frame_shape frame t payload -> authority_ok a ->
  record_bytes t a payload = pre ++ x :: suf ->
  decode pre WAL_FILE_VERSION d =
    match pre with [] => Ok (None, []) | _ => Err (strict_ownership t UnexpectedEof) end.
Proof.
  intros Hs Ha Hp. destruct pre as [|y pre]; [done|].
  change (record_type_u8 t :: ((authority_bytes a ++ payload) ++ le_bytes 4 (crc32 (record_body t a payload)))
          = y :: (pre ++ x :: suf)) in Hp.
  remember ((authority_bytes a ++ payload) ++ _) as tail eqn:Htail in Hp.
  injection Hp as <- Hp. rewrite Htail in Hp. rewrite decode_tagged.
  pose proof (reads_record frame t payload a d Hs Ha) as Hr.
  destruct (strict_prefix_app _ _ _ _ _ Hp) as [[suf' E]|(pre' & -> & E)].
  - by rewrite (reads_cut _ _ _ _ Hr pre x suf' [record_type_u8 t] E).
  - rewrite (reads_all _ _ _ _ Hr). cbn [mbind result_bind]. unfold reader_map_err.
    by rewrite (read_u32_untracked_cut _ _ _ _ _ E).
Qed.

End decoding.

(** ** Reading a log file ([reddb-server]'s [storage/wal/reader.rs]) *)

Definition WAL_DEFAULT_AUTHORITY (default_term : Z) : MainWalRecordAuthority :=
  {| term := default_term; ownership_epoch := None |}.

Section reader.
Context (crc32 : bytes -> Z) (zstd_decompress_to_buffer : bytes -> Z -> string + bytes).
(** [WAL_DEFAULT_TERM] of the replication module *)
Context (default_term : Z).

(** The format version and the bytes after the header. *)
Definition wal_reader_open (file : bytes) : result IoError (Z * bytes) :=
  if zlen file <? WAL_FILE_HEADER_BYTES then Err UnexpectedEof
  else
    version ← decode_wal_file_header (slice file 0 WAL_FILE_HEADER_BYTES);
    Ok (version, drop (Z.to_nat WAL_FILE_HEADER_BYTES) file).

(** The items that the iterator yields, with the start position of each record,
    up to its end or its first error. *)
Fixpoint wal_iterate (fuel : nat) (position format_version : Z) (input : bytes)
  : list (Z * MainWalRecordFrame) * option IoError :=
  match fuel with
  | O => ([], None)
  | S fuel =>
      match decode_main_wal_record_frame_with_authority crc32 zstd_decompress_to_buffer
              input format_version (WAL_DEFAULT_AUTHORITY default_term) with
      | Ok (Some (_, record), rest) =>
          let '(items, stop) :=
            wal_iterate fuel (position + (zlen input - zlen rest)) format_version rest in
          ((position, record) :: items, stop)
      | Ok (None, _) => ([], None)
      | Err e => ([], Some e)
      | Panic => ([], None)
      end
  end.

(** A record takes at least one byte, so one more step than bytes is enough. *)
Definition wal_items (file : bytes) : result IoError (list (Z * MainWalRecordFrame) * option IoError) :=
  '(version, input) ← wal_reader_open file;
  Ok (wal_iterate (S (length input)) WAL_FILE_HEADER_BYTES version input).

Definition keep_image (out : gmap Z (Z * bytes)) (item : Z * MainWalRecordFrame) : gmap Z (Z * bytes) :=
  match item with
  | (lsn, WFullPageImage _ page_id _ data) =>
      match out !! page_id with
      | Some (existing_lsn, _) => if lsn <? existing_lsn then out else <[page_id := (lsn, data)]> out
      | None => <[page_id := (lsn, data)]> out
      end
  | _ => out
  end.

Definition collect_full_page_images (file : option bytes) : result IoError (gmap Z (Z * bytes)) :=
  match file with
  | None => Ok ∅
  | Some file =>
      '(items, stop) ← wal_items file;
      match stop with
      | Some e => Err e
      | None => Ok (foldl keep_image ∅ items)
      end
  end.

End reader.

(** ** The theorems *)

Section theorems.
Context (crc32 : bytes -> Z) (crc32_u32 : forall b, u32_ok (crc32 b)).
Context (zstd_compress : bytes -> option bytes).
Context (zstd_decompress_to_buffer : bytes -> Z -> string + bytes).
Context (zstd_roundtrip : forall data compressed,
  zstd_compress data = Some compressed ->
  zstd_decompress_to_buffer compressed (zlen data) = inr data).

Abbreviation encode_into := (encode_main_wal_record_frame_with_authority_into crc32 zstd_compress).
Abbreviation decode := (decode_main_wal_record_frame_with_authority crc32 zstd_decompress_to_buffer).

(** The bytes of one record. *)
Definition record_of (af : MainWalRecordAuthority * MainWalRecordFrame) : bytes :=
  (encode_into af.2 af.1 []).1.

Definition record_ok (af : MainWalRecordAuthority * MainWalRecordFrame) : Prop :=
  authority_ok af.1 /\ frame_ok af.2.

(** Everything the decoder does with one record. *)
Lemma record_spec a frame :
  record_ok (a, frame) ->
  (forall out, encode_into frame a out = (out ++ record_of (a, frame), Ok tt)) /\
  (forall d rest, decode (record_of (a, frame) ++ rest) WAL_FILE_VERSION d = Ok (Some (a, frame), rest)) /\
  (forall d pre x suf, record_of (a, frame) = pre ++ x :: suf ->
     decode pre WAL_FILE_VERSION d =
       match pre with [] => Ok (None, []) | _ => Err (eof_error frame) end) /\
  record_of (a, frame) <> [].
Proof.
  intros [Ha Hf]. cbn in Ha, Hf.
  destruct (frame_shaped crc32 crc32_u32 _ _ zstd_roundtrip frame Hf) as (t & payload & Hs & He).
  pose proof (encode_into_shaped crc32 zstd_compress zstd_decompress_to_buffer frame t payload a Hs) as Hw.
  assert (record_of (a, frame) = record_bytes crc32 t a payload) as E.
  { unfold record_of. cbn. by rewrite Hw. }
  rewrite E. split; [done|]. split; [intros; by apply (decode_record crc32 crc32_u32 zstd_compress)|].
  split; [|done]. intros d pre x suf Hp. rewrite <- He.
  by apply (decode_cut crc32 zstd_compress zstd_decompress_to_buffer frame t payload a d pre x suf).
Qed.

(** C34. A WAL record survives the log: for every record within the limits of the decoder (payloads of
    at most 256 MiB, at most a million items; names are UTF-8, and an ownership record is
    one that its encoder takes) and every authority (with a non-zero ownership epoch, if any), encoding appends bytes to the
    buffer without touching what is there, and decoding those bytes, whatever
    follows them, returns the same authority and record and leaves exactly what
    follows.  Page writes return uncompressed whether or not they were stored
    compressed. *)
Theorem wal_record_roundtrip frame a :
  frame_ok frame -> authority_ok a ->
  exists record, (forall out, encode_into frame a out = (out ++ record, Ok tt)) /\
    forall d rest, decode (record ++ rest) WAL_FILE_VERSION d = Ok (Some (a, frame), rest).
Proof.
  intros Hf Ha. destruct (record_spec a frame (conj Ha Hf)) as (Hw & Hd & _). by eexists.
Qed.

(** A torn record is never taken for a record: every strict prefix of an
    encoded record decodes to an end of file (a clean end when nothing was
    written), and for a page-ownership record to a hard error, because its
    intent may already have been acted on. *)
Theorem wal_torn_record frame a d record pre x suf :
  frame_ok frame -> authority_ok a ->
  encode_into frame a [] = (record, Ok tt) -> record = pre ++ x :: suf ->
  decode pre WAL_FILE_VERSION d =
    match pre with [] => Ok (None, []) | _ => Err (eof_error frame) end.
Proof.
  intros Hf Ha Hw Hp. destruct (record_spec a frame (conj Ha Hf)) as (Hw' & _ & Hc & _).
  rewrite Hw' in Hw. injection Hw as <-. by eapply Hc.
Qed.

(** The items of a log that starts at [pos]. *)
Fixpoint log_items (pos : Z) (recs : list (MainWalRecordAuthority * MainWalRecordFrame))
  : list (Z * MainWalRecordFrame) :=
  match recs with
  | [] => []
  | r :: recs => (pos, r.2) :: log_items (pos + zlen (record_of r)) recs
  end.

Lemma wal_iterate_log default_term recs fuel pos tail :
  Forall record_ok recs ->
  wal_iterate crc32 zstd_decompress_to_buffer default_term (length recs + fuel) pos WAL_FILE_VERSION
    (concat (record_of <$> recs) ++ tail) =
  let '(items, stop) := wal_iterate crc32 zstd_decompress_to_buffer default_term fuel
      (pos + zlen (concat (record_of <$> recs))) WAL_FILE_VERSION tail in
  (log_items pos recs ++ items, stop).
Proof.
  intros Hok. revert pos. induction Hok as [|[a f] recs Hr _ IH]; intros pos; cbn [length Nat.add fmap list_fmap concat].
  - cbn [app]. replace (pos + zlen []) with pos by (rewrite zlen_nil; lia). by destruct (wal_iterate _ _ _ _ _ _ _).
  - destruct (record_spec a f Hr) as (_ & Hd & _). cbn [wal_iterate]. rewrite <- app_assoc, Hd.
    change (list_fmap _ _ record_of recs) with (record_of <$> recs).
    replace (pos + (zlen (record_of (a, f) ++ concat (record_of <$> recs) ++ tail)
                    - zlen (concat (record_of <$> recs) ++ tail)))
      with (pos + zlen (record_of (a, f))) by (rewrite (zlen_app (record_of (a, f))); lia).
    rewrite IH, zlen_app, Z.add_assoc. by destruct (wal_iterate _ _ _ _ _ _ _) as [items stop].
Qed.

Lemma length_log recs : Forall record_ok recs -> (length recs <= length (concat (record_of <$> recs)))%nat.
Proof.
  induction 1 as [|[a f] recs Hr _ IH]; cbn; [lia|]. rewrite length_app.
  destruct (record_spec a f Hr) as (_ & _ & _ & Hne). destruct (record_of (a, f)); [done|].
  change (list_fmap _ _ record_of recs) with (record_of <$> recs). cbn. lia.
Qed.

(** C16. Crash recovery of the log: reading a log file of complete records whose
    last write was cut anywhere (possibly to nothing) yields exactly the complete
    records, in order and each with the position at which it starts, and then
    stops at the torn record.  The records are within the limits of the decoder ([record_ok]). *)
Theorem wal_replay default_term recs last pre x suf :
  Forall record_ok recs -> record_ok last -> record_of last = pre ++ x :: suf ->
  wal_items crc32 zstd_decompress_to_buffer default_term
    (encode_wal_file_header ++ concat (record_of <$> recs) ++ pre)
  = Ok (log_items WAL_FILE_HEADER_BYTES recs,
        match pre with [] => None | _ => Some (eof_error last.2) end).
Proof.
  intros Hok Hlast Hp. unfold wal_items, wal_reader_open.
  set (log := concat (record_of <$> recs) ++ pre).
  rewrite zlen_app. pose proof (zlen_nonneg log).
  change (zlen encode_wal_file_header) with WAL_FILE_HEADER_BYTES.
  rewrite (proj2 (Z.ltb_ge _ _)) by lia.
  destruct (take_drop_app encode_wal_file_header log WAL_FILE_HEADER_BYTES eq_refl) as [-> ->].
  change (decode_wal_file_header encode_wal_file_header) with (@Ok IoError Z WAL_FILE_VERSION).
  cbn [mbind result_bind]. f_equal. pose proof (length_log recs Hok) as Hlen.
  assert (S (length log) = length recs + S (length log - length recs))%nat as ->.
  { unfold log. rewrite length_app. lia. }
  unfold log at 2. rewrite wal_iterate_log by done.
  destruct last as [a f]. destruct (record_spec a f Hlast) as (_ & _ & Hc & _).
  cbn [wal_iterate]. rewrite (Hc _ pre x suf Hp). destruct pre; by rewrite app_nil_r.
Qed.

(** ** Accepted records are checksummed *)

Lemma consumes_u8 : consumes read_u8_tracked.
Proof. apply consumes_bind; [by apply consumes_array|]. intros b. apply consumes_ret. Qed.
Lemma consumes_u32 : consumes read_u32_tracked.
Proof. apply consumes_bind; [by apply consumes_array|]. intros b. apply consumes_ret. Qed.
Lemma consumes_u64 : consumes read_u64_tracked.
Proof. apply consumes_bind; [by apply consumes_array|]. intros b. apply consumes_ret. Qed.

Lemma consumes_len len label : consumes (validate_len len label).
Proof. unfold validate_len. destruct (_ <? _); [apply consumes_err|apply consumes_ret]. Qed.
Lemma consumes_count count label : consumes (validate_count count label).
Proof. unfold validate_count. destruct (_ <? _); [apply consumes_err|apply consumes_ret]. Qed.

(** A negative length cannot be read; the length of a field is never negative. *)
Lemma consumes_any_array n : consumes (read_array_tracked n).
Proof.
  destruct (decide (0 <= n)); [by apply consumes_array|].
  intros input ck a i' c'. unfold read_array_tracked. destruct (_ <=? _); [|done].
  intros [= <- <- <-]. exists []. split.
  - replace (Z.to_nat n) with 0%nat by lia. done.
  - unfold slice. replace (Z.to_nat n) with 0%nat by lia. done.
Qed.

Lemma consumes_payload : consumes read_bytes_tracked.
Proof.
  apply consumes_bind; [apply consumes_u32|]. intros len.
  apply consumes_bind; [apply consumes_len|]. intros _. apply consumes_any_array.
Qed.

Lemma consumes_string msg : consumes (read_string_tracked msg).
Proof.
  apply consumes_bind; [apply consumes_payload|]. intros b.
  destruct (utf8_valid b); [apply consumes_ret|apply consumes_err].
Qed.

Lemma consumes_compression : consumes read_compression_tracked.
Proof.
  apply consumes_bind; [apply consumes_u8|]. intros v.
  destruct (compression_from_u8 v); [apply consumes_ret|apply consumes_err].
Qed.

Ltac consume :=
  repeat first
    [ apply consumes_bind; [|intros ?] | apply consumes_u8 | apply consumes_u32 | apply consumes_u64
    | apply consumes_len | apply consumes_count | apply consumes_payload | apply consumes_string
    | apply consumes_compression | apply consumes_any_array | apply consumes_map_err
    | apply consumes_many | apply consumes_lift | apply consumes_ret | apply consumes_err
    | case_match ].

Lemma consumes_frame t v : consumes (read_frame crc32 zstd_decompress_to_buffer t v).
Proof. destruct t; cbn [read_frame]; consume. Qed.

Lemma consumes_authority t v d : consumes (read_authority t v d).
Proof. unfold read_authority. consume. Qed.

(** Nothing is accepted without its checksum: if the decoder returns a
    record, the bytes it consumed are a body followed by four bytes that hold the
    CRC of the whole body, tag and authority included. *)
Theorem wal_accepted_is_checksummed input v d r rest :
  decode input v d = Ok (Some r, rest) ->
  exists body stored, input = body ++ stored ++ rest /\ zlen stored = 4 /\ le_val stored = crc32 body.
Proof.
  unfold decode_main_wal_record_frame_with_authority.
  destruct (read_u8_tracked (input, [])) as [[tag [i1 c1]]|[]|] eqn:E1; try done.
  destruct (record_type_from_u8 tag) as [t|]; [|done].
  destruct (read_authority t v d (i1, c1)) as [[a [i2 c2]]| |] eqn:E2; [|done|done].
  cbn [mbind result_bind].
  destruct (read_frame crc32 zstd_decompress_to_buffer t v (i2, c2)) as [[f [i3 c3]]| |] eqn:E3; [|done|done].
  cbn [mbind result_bind]. unfold reader_map_err, read_u32_untracked.
  unfold mbind at 2, reader_bind, read_exact. destruct (Z.leb_spec 4 (zlen i3)); [|done].
  cbn [map_err mbind result_bind mret reader_ret fst snd].
  destruct (Z.eqb_spec (crc32 c3) (le_val (slice i3 0 4))) as [Hc|]; [|done].
  cbn [negb]. intros [= _ <-].
  destruct (consumes_u8 _ _ _ _ _ E1) as (b1 & -> & ->).
  destruct (consumes_authority _ _ _ _ _ _ _ _ E2) as (b2 & -> & ->).
  destruct (consumes_frame _ _ _ _ _ _ _ E3) as (b3 & -> & ->).
  exists (([] ++ b1) ++ b2 ++ b3), (slice i3 0 4). cbn [app]. split; [|split].
  - rewrite <- !app_assoc. do 3 f_equal. unfold slice. rewrite drop_0.
    change (Z.to_nat 4) with 4%nat. by rewrite take_drop.
  - apply zlen_slice; lia.
  - by rewrite <- Hc, app_assoc.
Qed.

(** ** What the encoder writes and the decoder refuses *)

(** The encoder does not enforce the decoder's limits: a commit batch of more
    than a million actions (up to the 32-bit count) is encoded without an error,
    and the decoder refuses the record it wrote. *)
Theorem wal_unreadable_batch tx_id actions a d rest :
  u64_ok tx_id -> authority_ok a -> MAX_MAIN_WAL_ITEMS < zlen actions <= U32_MAX ->
  Forall payload_ok actions ->
  exists record, encode_into (WTxCommitBatch tx_id actions) a [] = (record, Ok tt) /\
    decode (record ++ rest) WAL_FILE_VERSION d
    = Err (InvalidData ("implausible main WAL action count: " +:+ pretty (zlen actions))).
Proof.
  intros Ht Ha Hn Hp.
  assert (writes (write_record crc32 zstd_compress (WTxCommitBatch tx_id actions) a)
    (type_and_authority TTxCommitBatch a ++ le_bytes 8 tx_id ++ le_bytes 4 (zlen actions)
       ++ concat (prefixed <$> actions))) as Hw.
  { apply writes_seq; [apply writes_authority|]. apply writes_seq; [apply writes_put|].
    apply writes_seq; [apply writes_len; lia|by apply writes_payloads]. }
  unfold encode_main_wal_record_frame_with_authority_into, wseq. rewrite Hw. cbn [append_crc].
  eexists. split; [done|]. cbn [app]. unfold type_and_authority. cbn [app].
  change 7 with (record_type_u8 TTxCommitBatch). rewrite decode_tagged.
  rewrite <- !app_assoc. set (tail := concat _ ++ _).
  pose proof (reads_all _ _ _ _ (reads_authority TTxCommitBatch a d Ha)) as Ea.
  unfold authority_bytes in Ea. setoid_rewrite <- app_assoc in Ea.
  unfold mbind at 3, reader_bind. rewrite Ea. cbn [read_frame].
  unfold mbind, reader_bind. rewrite (reads_all _ _ _ _ (reads_u64 tx_id Ht)).
  rewrite (reads_all _ _ _ _ (reads_u32 (zlen actions) ltac:(unfold u32_ok, U32_MAX, MAX_MAIN_WAL_ITEMS in *; lia))).
  unfold validate_count. rewrite (proj2 (Z.ltb_lt _ _)) by lia. done.
Qed.

(** ** The action visitor *)

(** A visitor that records what it is shown. *)
Definition collect_visit (s : list (Z * bytes)) (offset : Z) (action : bytes)
  : result IoError (list (Z * bytes)) := Ok (s ++ [(offset, action)]).

Fixpoint action_offsets (offset : Z) (actions : list bytes) : list (Z * bytes) :=
  match actions with
  | [] => []
  | action :: actions => (offset + 4, action) :: action_offsets (offset + 4 + zlen action) actions
  end.

Lemma visit_actions_collect offset actions s :
  visit_actions collect_visit offset actions s = Ok (s ++ action_offsets offset actions).
Proof.
  unfold visit_actions. revert offset s. induction actions as [|action actions IH]; intros offset s.
  - cbn. by rewrite app_nil_r.
  - cbn [foldl mbind result_bind collect_visit action_offsets].
    specialize (IH (offset + 4 + zlen action) (s ++ [(offset + 4, action)])).
    etransitivity; [exact IH|]. by rewrite <- app_assoc.
Qed.

Lemma batch_suffix_eq actions :
  zlen actions <= MAX_MAIN_WAL_ITEMS -> Forall payload_ok actions ->
  batch_suffix actions = Ok (4 + zlen (concat (prefixed <$> actions))).
Proof.
  intros Hn Hp. unfold batch_suffix.
  assert (forall size, 0 <= size -> size + zlen actions * (4 + MAX_MAIN_WAL_PAYLOAD) <= USIZE_MAX ->
    foldl (fun rsize action =>
      size ← rsize;
      if USIZE_MAX <? size + 4 then Err (InvalidInput "WAL action offsets overflow")
      else if USIZE_MAX <? size + 4 + zlen action then Err (InvalidInput "WAL action offsets overflow")
      else Ok (size + 4 + zlen action)) (Ok size) actions
    = Ok (size + zlen (concat (prefixed <$> actions)))) as H.
  { clear Hn. induction Hp as [|action actions Ha Hp IH]; intros size Hs Hb.
    - cbn. by rewrite Z.add_0_r.
    - unfold payload_ok, MAX_MAIN_WAL_PAYLOAD in *. rewrite zlen_cons in Hb.
      pose proof (zlen_nonneg action). pose proof (zlen_nonneg actions).
      cbn [foldl mbind result_bind]. rewrite !(proj2 (Z.ltb_ge _ _)) by lia.
      rewrite IH by lia. f_equal. cbn [fmap list_fmap concat].
      change (list_fmap _ _ prefixed actions) with (prefixed <$> actions).
      rewrite zlen_app, zlen_prefixed. lia. }
  apply H; [lia|]. unfold MAX_MAIN_WAL_ITEMS, MAX_MAIN_WAL_PAYLOAD, USIZE_MAX, U64_MAX in *. lia.
Qed.

Lemma action_offsets_point (b : bytes) actions pre post :
  b = pre ++ concat (prefixed <$> actions) ++ post ->
  Forall (fun oa => slice b oa.1 (zlen oa.2) = oa.2) (action_offsets (zlen pre) actions).
Proof.
  revert pre. induction actions as [|action actions IH]; intros pre Hb; [constructor|].
  cbn [action_offsets]. cbn [fmap list_fmap concat] in Hb. unfold prefixed at 1 in Hb.
  change (list_fmap _ _ prefixed actions) with (prefixed <$> actions) in Hb.
  constructor.
  - cbn. rewrite Hb. pose proof (zlen_nonneg pre). pose proof (zlen_nonneg action).
    rewrite slice_app_r by lia. replace (zlen pre + 4 - zlen pre) with 4 by lia.
    rewrite <- !app_assoc.
    rewrite slice_app_r, zlen_le_bytes by (rewrite ?zlen_le_bytes; lia).
    change (4 - Z.of_nat 4) with 0.
    by destruct (take_drop_app action (concat (prefixed <$> actions) ++ post) (zlen action) eq_refl).
  - replace (zlen pre + 4 + zlen action) with (zlen (pre ++ le_bytes 4 (zlen action) ++ action))
      by (rewrite !zlen_app, zlen_le_bytes; lia).
    apply IH. rewrite Hb, <- !app_assoc. done.
Qed.

(** The commit-batch visitor is shown every action, in order, with the
    offset at which the action's bytes start in the encoded frame. *)
Theorem commit_batch_visitor_offsets tx_id actions t :
  u64_ok t -> frame_ok (WTxCommitBatch tx_id actions) ->
  exists b visited,
    encode_main_wal_commit_batch_with_visitor crc32 zstd_compress tx_id actions t collect_visit []
    = Ok (b, visited) /\
    visited.*2 = actions /\ Forall (fun oa => slice b oa.1 (zlen oa.2) = oa.2) visited.
Proof.
  intros Ht Hf. pose proof Hf as (Htx & Hn & Hp).
  pose proof (shaped_batch crc32 zstd_compress zstd_decompress_to_buffer tx_id actions Hf) as Hs.
  pose proof (encode_into_shaped crc32 _ _ _ _ _ {| term := t; ownership_epoch := None |} Hs []) as E.
  unfold encode_main_wal_commit_batch_with_visitor, encode_main_wal_record_frame,
    encode_main_wal_record_frame_with_authority. rewrite E. cbn [mbind result_bind app].
  rewrite batch_suffix_eq by done. cbn [mbind result_bind].
  unfold record_bytes, record_body. set (crc := le_bytes 4 (crc32 _)).
  assert (zlen crc = 4) as Hcrc by apply zlen_le_bytes.
  set (head := type_and_authority TTxCommitBatch {| term := t; ownership_epoch := None |} ++ le_bytes 8 tx_id ++ le_bytes 4 (zlen actions)).
  assert ((type_and_authority TTxCommitBatch {| term := t; ownership_epoch := None |} ++
      le_bytes 8 tx_id ++ le_bytes 4 (zlen actions) ++ concat (prefixed <$> actions)) ++ crc
    = head ++ concat (prefixed <$> actions) ++ crc) as ->.
  { unfold head. by rewrite <- !app_assoc. }
  pose proof (zlen_nonneg head). rewrite !zlen_app, (proj2 (Z.ltb_ge _ _)) by lia.
  replace (zlen head + (zlen (concat (prefixed <$> actions)) + zlen crc)
           - (4 + zlen (concat (prefixed <$> actions)))) with (zlen head) by lia.
  rewrite visit_actions_collect. cbn [mbind result_bind app].
  eexists _, _. split; [done|]. split; [|by eapply action_offsets_point].
  clear. generalize (zlen head). induction actions as [|x actions IH]; intros o; [done|].
  cbn. f_equal. apply IH.
Qed.

End theorems.

(** ** Full-page images *)

Definition image_of (page_id : Z) (item : Z * MainWalRecordFrame) : option (Z * bytes) :=
  match item with
  | (lsn, WFullPageImage _ p _ data) => if decide (p = page_id) then Some (lsn, data) else None
  | _ => None
  end.

Lemma keep_image_snoc items item :
  foldl keep_image ∅ (items ++ [item]) = keep_image (foldl keep_image ∅ items) item.
Proof. by rewrite foldl_app. Qed.

Lemma last_omap_snoc {A B} (f : A -> option B) l x :
  last (omap f (l ++ [x])) = match f x with Some y => Some y | None => last (omap f l) end.
Proof.
  rewrite omap_app. cbn. destruct (f x); [by rewrite last_snoc|by rewrite app_nil_r].
Qed.

Lemma image_in page_id items lsn data :
  last (omap (image_of page_id) items) = Some (lsn, data) -> exists r, (lsn, r) ∈ items.
Proof.
  intros Hl. apply last_Some_elem_of in Hl. apply list_elem_of_omap in Hl as ([l r] & Hin & Hi).
  destruct r; cbn in Hi; try done. case_decide; [|done]. injection Hi as -> ->. by eexists.
Qed.

Lemma keep_image_other lsn r out page_id :
  image_of page_id (lsn, r) = None -> keep_image out (lsn, r) !! page_id = out !! page_id.
Proof.
  destruct r; cbn; try done. case_decide as Hd; [done|]. intros _.
  destruct (out !! page_id0) as [[l d]|]; [destruct (lsn <? l); [done|]|]; by rewrite lookup_insert_ne.
Qed.

Lemma keep_image_same lsn r out page_id img :
  image_of page_id (lsn, r) = Some img ->
  (forall l d, out !! page_id = Some (l, d) -> l <= lsn) ->
  keep_image out (lsn, r) !! page_id = Some img.
Proof.
  destruct r; cbn; try done. case_decide as Hd; [|done]. intros [= <-] Hle. subst.
  destruct (out !! page_id) as [[l d]|] eqn:E; [|apply lookup_insert_eq].
  rewrite (proj2 (Z.ltb_ge _ _)) by (by eapply Hle). apply lookup_insert_eq.
Qed.

(** The scan for full-page images keeps, for every page, the image written
    last: over log items in ascending position the map holds exactly the last
    image of each page, and nothing for a page without one. *)
Theorem last_image_kept items page_id :
  StronglySorted (fun a b => a.1 < b.1) items ->
  foldl keep_image ∅ items !! page_id = last (omap (image_of page_id) items).
Proof.
  induction items as [|[lsn r] items IH] using rev_ind; intros Hs; [done|].
  apply sorted_app in Hs as (Hs1 & _ & Hlt). specialize (IH Hs1).
  rewrite keep_image_snoc, last_omap_snoc.
  destruct (image_of page_id (lsn, r)) as [img|] eqn:Ei.
  - apply keep_image_same; [done|]. intros l d Hl. rewrite IH in Hl.
    apply image_in in Hl as [r' Hin]. rewrite Forall_forall in Hlt. specialize (Hlt _ Hin).
    rewrite Forall_singleton in Hlt. cbn [fst] in Hlt. lia.
  - by rewrite keep_image_other.
Qed.

(** ** The file header and the segments *)

(** A log starts with a header that its reader accepts as the current
    version; a header with another magic or an unknown version is refused. *)
Theorem wal_header_roundtrip header :
  decode_wal_file_header encode_wal_file_header = Ok WAL_FILE_VERSION /\
  zlen encode_wal_file_header = WAL_FILE_HEADER_BYTES /\
  (decode_wal_file_header header = Ok WAL_FILE_VERSION \/
   decode_wal_file_header header = Ok WAL_FILE_VERSION_V2 \/
   exists msg, decode_wal_file_header header = Err (InvalidData msg)).
Proof.
  split; [done|]. split; [done|]. unfold decode_wal_file_header.
  destruct (negb (bool_decide _)); [by eauto|].
  destruct (Z.eqb_spec (u8_at header 4) WAL_FILE_VERSION) as [->|]; [by left|].
  destruct (Z.eqb_spec (u8_at header 4) WAL_FILE_VERSION_V2) as [->|]; [by auto|]. cbn. eauto.
Qed.

(** The next segment boundary is the least multiple of the segment size
    strictly above the position, as long as it fits 64 bits. *)
Theorem segment_boundary_next pos :
  0 <= pos < 18446744073709551616 - MAIN_WAL_SEGMENT_BYTES ->
  let b := next_main_wal_segment_boundary pos in
  pos < b <= pos + MAIN_WAL_SEGMENT_BYTES /\ b mod MAIN_WAL_SEGMENT_BYTES = 0.
Proof.
  unfold next_main_wal_segment_boundary, MAIN_WAL_SEGMENT_BYTES. intros Hp. cbv zeta.
  pose proof (Z.div_mod pos 16777216 ltac:(lia)) as Hd.
  pose proof (Z.mod_pos_bound pos 16777216 ltac:(lia)) as Hm.
  assert (0 <= pos / 16777216) by (apply Z.div_pos; lia).
  rewrite (as_u64_id (pos / 16777216 + 1)) by (unfold u64_ok; lia).
  rewrite as_u64_id by (unfold u64_ok; lia). split; [lia|]. apply Z_mod_mult.
Qed.

(** ** Samples *)

(** A codec that compresses pages of zeros. *)
Definition zero_compress (data : bytes) : option bytes :=
  if bool_decide (data = zeros (zlen data)) then Some [] else None.
Definition zero_decompress (_ : bytes) (n : Z) : string + bytes := inr (zeros n).

Lemma zero_codec data compressed :
  zero_compress data = Some compressed -> zero_decompress compressed (zlen data) = inr data.
Proof. unfold zero_compress, zero_decompress. case_bool_decide as H; [|done]. by rewrite <- H. Qed.

Definition sample_authority : MainWalRecordAuthority := {| term := 17; ownership_epoch := Some 4 |}.

Lemma sample_authority_ok : authority_ok sample_authority.
Proof. split; [done|]. split; done. Qed.

Lemma sample_page_ok : frame_ok (WPageWrite 1 2 (zeros 300)).
Proof. split; [done|]. split; [done|]. unfold payload_ok. by rewrite zlen_zeros. Qed.

(** A page of zeros, which is stored compressed. *)
Lemma wal_record_roundtrip_witness :
  exists record,
    (forall out, encode_main_wal_record_frame_with_authority_into byte_sum zero_compress
       (WPageWrite 1 2 (zeros 300)) sample_authority out = (out ++ record, Ok tt)) /\
    forall d rest, decode_main_wal_record_frame_with_authority byte_sum zero_decompress
       (record ++ rest) WAL_FILE_VERSION d
       = Ok (Some (sample_authority, WPageWrite 1 2 (zeros 300)), rest).
Proof.
  apply (wal_record_roundtrip byte_sum byte_sum_u32 zero_compress zero_decompress zero_codec);
    [apply sample_page_ok|apply sample_authority_ok].
Defined.

Definition sample_commit : bytes := record_of byte_sum zero_compress (sample_authority, WCommit 9).

(** The first five bytes of a commit record. *)
Lemma wal_torn_record_witness :
  decode_main_wal_record_frame_with_authority byte_sum zero_decompress
    (take 5 sample_commit) WAL_FILE_VERSION sample_authority = Err UnexpectedEof.
Proof.
  apply (wal_torn_record byte_sum byte_sum_u32 zero_compress zero_decompress zero_codec
    (WCommit 9) sample_authority sample_authority sample_commit (take 5 sample_commit)
    (default 0 (sample_commit !! 5%nat)) (drop 6 sample_commit)); [done|apply sample_authority_ok|done|].
  by vm_compute.
Defined.

(** A begin record followed by the torn commit record. *)
Lemma wal_replay_witness :
  wal_items byte_sum zero_decompress 1
    (encode_wal_file_header
     ++ concat (record_of byte_sum zero_compress <$> [(sample_authority, WBegin 9)])
     ++ take 5 sample_commit)
  = Ok ([(8, WBegin 9)], Some UnexpectedEof).
Proof.
  apply (wal_replay byte_sum byte_sum_u32 zero_compress zero_decompress zero_codec 1
    [(sample_authority, WBegin 9)] (sample_authority, WCommit 9) (take 5 sample_commit)
    (default 0 (sample_commit !! 5%nat)) (drop 6 sample_commit)).
  - apply Forall_singleton. split; [apply sample_authority_ok|done].
  - split; [apply sample_authority_ok|done].
  - by vm_compute.
Defined.

Lemma wal_accepted_is_checksummed_witness :
  exists body stored, sample_commit = body ++ stored ++ [] /\ zlen stored = 4
                      /\ le_val stored = byte_sum body.
Proof.
  apply (wal_accepted_is_checksummed byte_sum zero_decompress sample_commit WAL_FILE_VERSION
    sample_authority (sample_authority, WCommit 9) []). by vm_compute.
Defined.

Lemma wal_unreadable_batch_witness :
  exists record,
    encode_main_wal_record_frame_with_authority_into byte_sum zero_compress
      (WTxCommitBatch 9 (replicate (Z.to_nat 1000001) [])) sample_authority [] = (record, Ok tt) /\
    decode_main_wal_record_frame_with_authority byte_sum zero_decompress (record ++ [])
      WAL_FILE_VERSION sample_authority
    = Err (InvalidData ("implausible main WAL action count: "
                        +:+ pretty (zlen (replicate (Z.to_nat 1000001) ([] : bytes))))).
Proof.
  apply (wal_unreadable_batch byte_sum zero_compress zero_decompress 9
    (replicate (Z.to_nat 1000001) []) sample_authority sample_authority []);
    [done|apply sample_authority_ok| |].
  - unfold zlen. rewrite length_replicate, Z2Nat.id by lia. unfold MAX_MAIN_WAL_ITEMS, U32_MAX. lia.
  - apply Forall_replicate. done.
Defined.

Lemma commit_batch_visitor_offsets_witness :
  exists b visited,
    encode_main_wal_commit_batch_with_visitor byte_sum zero_compress 9 [[1; 2]; [3]] 17 collect_visit []
    = Ok (b, visited) /\
    visited.*2 = [[1; 2]; [3]] /\ Forall (fun oa => slice b oa.1 (zlen oa.2) = oa.2) visited.
Proof.
  apply (commit_batch_visitor_offsets byte_sum zero_compress zero_decompress 9 [[1; 2]; [3]] 17); [done|].
  split; [done|]. split; [done|]. repeat constructor; done.
Defined.

Lemma last_image_kept_witness :
  foldl keep_image ∅ [(8, WFullPageImage 1 5 0 [1]); (60, WFullPageImage 1 5 0 [2])] !! 5 = Some (60, [2]).
Proof.
  rewrite (last_image_kept [(8, WFullPageImage 1 5 0 [1]); (60, WFullPageImage 1 5 0 [2])] 5).
  - done.
  - repeat constructor.
Defined.

Lemma segment_boundary_next_witness :
  let b := next_main_wal_segment_boundary 16777216 in
  16777216 < b <= 16777216 + MAIN_WAL_SEGMENT_BYTES /\ b mod MAIN_WAL_SEGMENT_BYTES = 0.
Proof. apply (segment_boundary_next 16777216). by vm_compute. Defined.
