(* ===== verification/WalWriter.v ===== *)
(** * The log writer ([reddb-server/src/storage/wal/writer.rs])

    Records are appended to a buffer in front of the log file and become durable when the
    buffer has been written and the file synced.  The LSN of a record is its offset in the
    file.  [logged] relates the writer to the log it has accepted; what is durable is what
    every crash leaves. *)

From S2P Require Import Prelude Vfs Codec Wal.
From Stdlib Require Import ZArith Lia.
#[local] Open Scope Z_scope.

(** ** The buffer in front of the file *)

Record VfsBufWriter : Type := { buf_file : File; buffer : bytes }.

Definition set_buf_file (f : File) (b : VfsBufWriter) : VfsBufWriter := {| buf_file := f; buffer := buffer b |}.

Inductive WalSyncMethod : Type := SyncData | SyncAll.

(** What [fallocate] with [FALLOC_FL_KEEP_SIZE] answers; it never changes the bytes of the
    file or its length. *)
Inductive ReserveOutcome : Type := Reserved | Unsupported | ReserveFailed.

Record WalWriter : Type := {
  file : VfsBufWriter;
  current_lsn : Z;
  durable_lsn : Z;
  last_synced_size : Z;
  preallocated_to : Z;
  prealloc_supported : bool;
  prealloc_metadata_dirty : bool;
}.

Definition set_file (b : VfsBufWriter) (w : WalWriter) : WalWriter :=
  {| file := b; current_lsn := current_lsn w; durable_lsn := durable_lsn w; last_synced_size := last_synced_size w;
     preallocated_to := preallocated_to w; prealloc_supported := prealloc_supported w;
     prealloc_metadata_dirty := prealloc_metadata_dirty w |}.
Definition set_current_lsn (lsn : Z) (w : WalWriter) : WalWriter :=
  {| file := file w; current_lsn := lsn; durable_lsn := durable_lsn w; last_synced_size := last_synced_size w;
     preallocated_to := preallocated_to w; prealloc_supported := prealloc_supported w;
     prealloc_metadata_dirty := prealloc_metadata_dirty w |}.
Definition set_durable_lsn (lsn : Z) (w : WalWriter) : WalWriter :=
  {| file := file w; current_lsn := current_lsn w; durable_lsn := lsn; last_synced_size := last_synced_size w;
     preallocated_to := preallocated_to w; prealloc_supported := prealloc_supported w;
     prealloc_metadata_dirty := prealloc_metadata_dirty w |}.

(** A change of the state that cannot fail *)
Definition update {S E A} (g : S -> S * A) : eff S E A := fun s => ((g s).1, Ok (g s).2).

Section writer.
(** [Vec::with_capacity(WAL_BUFFER_BYTES)] may reserve more than it was asked for. *)
Context (capacity : Z) (reserve : File -> Z -> Z -> ReserveOutcome).

Definition buf_flush : eff VfsBufWriter string unit := fun b =>
  if bool_decide (buffer b = []) then (b, Ok tt)
  else match write_all (buffer b) (buf_file b) with
       | (f, Ok _) => ({| buf_file := f; buffer := [] |}, Ok tt)
       | (f, Err e) => (set_buf_file f b, Err e)
       | (f, Panic) => (set_buf_file f b, Panic)
       end.

Definition buf_write_all (data : bytes) : eff VfsBufWriter string unit :=
  _ ← ((fun b => if capacity <? zlen (buffer b) + zlen data then buf_flush b else (b, Ok tt)) : eff VfsBufWriter string unit);
  if capacity <=? zlen data then within buf_file set_buf_file id (write_all data)
  else update (fun b => ({| buf_file := buf_file b; buffer := buffer b ++ data |}, tt)).

Definition ensure_preallocated (w : WalWriter) : WalWriter :=
  if negb (prealloc_supported w) then w
  else
    let target := next_main_wal_segment_boundary (current_lsn w) in
    if target <=? preallocated_to w then w
    else
      let from := preallocated_to w in
      match reserve (buf_file (file w)) from (target - from) with
      | Reserved =>
          {| file := file w; current_lsn := current_lsn w; durable_lsn := durable_lsn w;
             last_synced_size := last_synced_size w; preallocated_to := target;
             prealloc_supported := prealloc_supported w; prealloc_metadata_dirty := true |}
      | Unsupported =>
          {| file := file w; current_lsn := current_lsn w; durable_lsn := durable_lsn w;
             last_synced_size := last_synced_size w; preallocated_to := preallocated_to w;
             prealloc_supported := false; prealloc_metadata_dirty := prealloc_metadata_dirty w |}
      | ReserveFailed => w
      end.

(** The second handle shares the file and serves only to sync it. *)
Definition try_clone : eff File string unit := attempt (fun f => (f, Ok tt)) (fun _ f => f).

(** [seek(SeekFrom::End(0))], which returns the new position *)
Definition seek_end : eff File string Z := fun f =>
  (_ ← seek (zlen (live f)); (mret (zlen (live f)) : eff File string Z)) f.

(** The LSN of a file just opened; an empty file gets its header *)
Definition opening_lsn (existing_len : Z) : eff File string Z :=
  if existing_len =? 0
  then (_ ← write_all encode_wal_file_header; _ ← sync_all; mret WAL_FILE_HEADER_BYTES)
  else seek_end.

(** [open_with_vfs] on the opened file *)
Definition open_with_vfs : eff File string WalWriter :=
  existing_len ← file_len;
  lsn ← opening_lsn existing_len;
  _ ← try_clone;
  update (fun f => (f, ensure_preallocated
    {| file := {| buf_file := f; buffer := [] |}; current_lsn := lsn; durable_lsn := lsn; last_synced_size := lsn;
       preallocated_to := 0; prealloc_supported := true; prealloc_metadata_dirty := false |})).

(** Also [append], whose bytes are those of the encoded record *)
Definition append_bytes (data : bytes) : eff WalWriter string Z :=
  _ ← within file set_file id (buf_write_all data);
  update (fun w => (ensure_preallocated (set_current_lsn (current_lsn w + zlen data) w), current_lsn w)).

Definition next_sync_method (w : WalWriter) : WalSyncMethod :=
  if negb (prealloc_metadata_dirty w) && (current_lsn w <=? last_synced_size w) then SyncData else SyncAll.

Definition mark_sync_complete (method : WalSyncMethod) (lsn : Z) (w : WalWriter) : WalWriter :=
  match method with
  | SyncData => w
  | SyncAll =>
      {| file := file w; current_lsn := current_lsn w; durable_lsn := durable_lsn w;
         last_synced_size := Z.max (preallocated_to w) lsn; preallocated_to := preallocated_to w;
         prealloc_supported := prealloc_supported w; prealloc_metadata_dirty := false |}
  end.

(** Both [sync_data] and [sync_all] make the bytes and the length of the file durable. *)
Definition sync_flushed_file : eff WalWriter string unit := fun w =>
  let method := next_sync_method w in
  (_ ← within file set_file id (within buf_file set_buf_file id sync_all);
   update (fun w => (mark_sync_complete method (current_lsn w) w, tt))) w.

Definition sync : eff WalWriter string unit :=
  _ ← within file set_file id buf_flush;
  _ ← sync_flushed_file;
  update (fun w => (set_durable_lsn (current_lsn w) w, tt)).

Definition flush_until (target : Z) : eff WalWriter string unit := fun w =>
  if target <=? durable_lsn w then (w, Ok tt)
  else (_ ← within file set_file id buf_flush;
        _ ← sync_flushed_file;
        update (fun w => (set_durable_lsn (current_lsn w) w, tt))) w.
End writer.

(** ** Files that are only appended to *)

(** The writes since the last sync lie behind the stable bytes, and the next one goes to the end. *)
Definition appending (f : File) : Prop :=
  stable f `prefix_of` live f /\ cursor f = zlen (live f) /\ Forall (fun w => zlen (stable f) <= w.1) (unsynced f).

Lemma write_at_end b data : write_at b (zlen b) data = b ++ data.
Proof.
  unfold write_at. destruct (Z.eqb_spec (zlen data) 0) as [E|E]; [apply zlen_nil_inv in E as ->; by rewrite app_nil_r|].
  pose proof (zlen_nonneg data). unfold splice. replace (zlen b + zlen data - zlen b) with (zlen data) by lia.
  assert (Hz : zlen (zeros (zlen data)) = zlen data) by (by rewrite zlen_zeros).
  rewrite (proj2 (Z.leb_le 0 (zlen b))) by apply zlen_nonneg. rewrite zlen_app, Hz, Z.leb_refl. cbn [andb].
  unfold zlen in *. rewrite take_app_length', drop_ge by (rewrite ?length_app; lia). by rewrite app_nil_r.
Qed.

Lemma live_append data f : cursor f = zlen (live f) -> live (add_write data f) = live f ++ data.
Proof. intros E. unfold live, add_write. cbn. rewrite foldl_app. cbn. fold (live f). by rewrite E, write_at_end. Qed.

Lemma appending_add_write data f : appending f -> appending (add_write data f).
Proof.
  intros (Hp & Hc & Hu). pose proof (live_append data f Hc) as E. split_and!.
  - rewrite E. by apply prefix_app_r.
  - rewrite E, zlen_app. cbn. by rewrite Hc.
  - cbn. apply Forall_app. split; [done|]. apply Forall_singleton. cbn. rewrite Hc. destruct Hp as [t ->]. rewrite zlen_app. pose proof (zlen_nonneg t). lia.
Qed.

Lemma appending_settle f : appending f -> appending (settle f).
Proof. intros (_ & Hc & _). split_and!; [done|done|by apply Forall_nil]. Qed.

(** A crash leaves the stable bytes of such a file where they are. *)
Lemma appending_crash f c n :
  appending f -> crash_image f c -> 0 <= n <= zlen (stable f) -> slice c 0 n = slice (stable f) 0 n.
Proof.
  intros (_ & _ & Hu) [Hl Hc] Hn. apply slice_same; try lia. intros i Hi. destruct (Hc i ltac:(lia)) as [E|(w & Hw & E)]; [done|].
  rewrite Forall_forall in Hu. specialize (Hu w Hw). rewrite zget_None in E by lia. done.
Qed.

(** ** The writer and its log *)

(** What a file operation leaves: the stable bytes, and a device that works or fails as before. *)
Definition file_kept (f f' : File) : Prop :=
  appending f' /\ stable f `prefix_of` stable f' /\ (faults f = None <-> faults f' = None).

#[export] Instance file_kept_trans : Transitive file_kept.
Proof. intros f g h (_ & H1 & H2) (H3 & H4 & H5). split_and!; [done|by etrans|by etrans]. Qed.

Lemma file_kept_refl f : appending f -> file_kept f f.
Proof. by intros. Qed.

(** Every outcome of an operation: [Q] when it returns, an error only from a failing device *)
Definition outcome {S A} (dev : S -> File) (m : eff S string A) (s : S) (Q : A -> S -> Prop) : Prop :=
  match m s with
  | (s', Ok a) => file_kept (dev s) (dev s') /\ Q a s'
  | (s', Err _) => file_kept (dev s) (dev s') /\ faults (dev s) <> None
  | (_, Panic) => False
  end.

Lemma outcome_bind {S A B} dev (m : eff S string A) (k : A -> eff S string B) s Q R :
  outcome dev m s Q -> (forall a s', Q a s' -> appending (dev s') -> outcome dev (k a) s' R) -> outcome dev (m ≫= k) s R.
Proof.
  unfold outcome, mbind, eff_bind. destruct (m s) as [s1 [a|e|]]; [|done|done]. intros [Hk HQ] H.
  specialize (H a s1 HQ (proj1 Hk)). destruct (k a s1) as [s2 [b|e|]]; [| |done]; destruct H as [H1 H2].
  - split; [by etrans|done].
  - split; [by etrans|]. intros E. apply H2. by apply Hk.
Qed.

Lemma outcome_mono {S A} dev (m : eff S string A) s (Q R : A -> S -> Prop) :
  outcome dev m s Q -> (forall a s', Q a s' -> R a s') -> outcome dev m s R.
Proof. unfold outcome. destruct (m s) as [s1 [a|e|]]; naive_solver. Qed.

Lemma outcome_within {S T A} (dev : S -> File) (get : T -> S) set (m : eff S string A) t Q :
  (forall s t, get (set s t) = s) -> outcome dev m (get t) Q ->
  outcome (fun t => dev (get t)) (within get set id m) t (fun a t' => exists s', Q a s' /\ t' = set s' t).
Proof.
  intros Hg. unfold outcome, within. destruct (m (get t)) as [s1 [a|e|]]; cbn; [| |done]; rewrite Hg; naive_solver.
Qed.

Lemma outcome_update {S A} dev (g : S -> S * A) s (Q : A -> S -> Prop) :
  appending (dev s) -> dev (g s).1 = dev s -> Q (g s).2 (g s).1 -> outcome dev (update g) s Q.
Proof. intros Ha E HQ. unfold outcome, update. rewrite E. split; [by apply file_kept_refl|done]. Qed.

Lemma outcome_write data f :
  appending f -> outcome id (write_all data) f (fun _ f' => live f' = live f ++ data /\ stable f' = stable f).
Proof.
  intros Ha. unfold outcome, write_all, attempt. cbn.
  assert (Hw : forall d x, appending (add_write d (set_faults x f))) by (intros d x; by apply appending_add_write).
  assert (Hk : forall d, appending (add_write d f)) by (intros d; by apply appending_add_write).
  destruct (faults f) as [[[|n] k]|] eqn:E; cbn.
  - split; [split_and!; [apply Hk|done|cbn; rewrite ?E; naive_solver]|congruence].
  - split; [split_and!; [apply Hw|done|cbn; rewrite ?E; naive_solver]|]. split; [apply (live_append data (set_faults (Some (n, k)) f)), Ha|done].
  - split; [split_and!; [apply Hk|done|done]|]. split; [apply live_append, Ha|done].
Qed.

Lemma outcome_sync f :
  appending f -> outcome id sync_all f (fun _ f' => live f' = live f /\ stable f' = live f).
Proof.
  intros Ha. pose proof Ha as (Hp & _ & _). unfold outcome, sync_all, attempt.
  destruct (faults f) as [[[|n] k]|] eqn:E; cbn.
  - split; [by apply file_kept_refl|congruence].
  - split; [|done]. split_and!; [by apply (appending_settle (set_faults _ f))|done|cbn; rewrite ?E; naive_solver].
  - split; [|done]. split_and!; [by apply appending_settle|done|done].
Qed.

Definition dev (w : WalWriter) : File := buf_file (file w).

(** The writer has accepted the log [L], and what it calls durable is stable. *)
Definition logged (L : bytes) (w : WalWriter) : Prop :=
  appending (dev w) /\ live (dev w) ++ buffer (file w) = L /\ current_lsn w = zlen L /\ 0 <= durable_lsn w <= zlen (stable (dev w)).

Lemma buf_flush_outcome b :
  appending (buf_file b) ->
  outcome buf_file buf_flush b (fun _ b' => buffer b' = [] /\ live (buf_file b') = live (buf_file b) ++ buffer b /\ stable (buf_file b') = stable (buf_file b)).
Proof.
  intros Ha. pose proof (outcome_write (buffer b) _ Ha) as Hw. unfold outcome, buf_flush in *.
  case_bool_decide as E; [rewrite E, app_nil_r; split; [by apply file_kept_refl|done]|].
  destruct (write_all _ _) as [f [a|e|]]; naive_solver.
Qed.

Section operations.
Context (capacity : Z) (reserve : File -> Z -> Z -> ReserveOutcome).
Abbreviation ensure_preallocated := (ensure_preallocated reserve).
Abbreviation append_bytes := (append_bytes capacity reserve).

Lemma buf_write_outcome data b :
  appending (buf_file b) ->
  outcome buf_file (buf_write_all capacity data) b (fun _ b' =>
    live (buf_file b') ++ buffer b' = (live (buf_file b) ++ buffer b) ++ data /\ stable (buf_file b') = stable (buf_file b)).
Proof.
  intros Ha. apply outcome_bind with (Q := fun _ b' => live (buf_file b') ++ buffer b' = live (buf_file b) ++ buffer b /\
    stable (buf_file b') = stable (buf_file b) /\ (capacity <= zlen data -> buffer b' = [])).
  - destruct (Z.ltb_spec capacity (zlen (buffer b) + zlen data)) as [Hc|Hc].
    + unfold outcome. rewrite (proj2 (Z.ltb_lt _ _)) by done. pose proof (buf_flush_outcome b Ha) as H. unfold outcome in H.
      destruct (buf_flush b) as [b' [a|e|]]; [|done|done]. destruct H as [? (E1 & E2 & E3)]. rewrite E1, E2, app_nil_r. done.
    + unfold outcome. rewrite (proj2 (Z.ltb_ge _ _)) by done. split; [by apply file_kept_refl|]. split_and!; [done|done|].
      intros Hd. apply zlen_nil_inv. pose proof (zlen_nonneg (buffer b)). lia.
  - intros [] b1 (E1 & E2 & E3) Ha1. rewrite <- E1. destruct (Z.leb_spec capacity (zlen data)) as [Hc|Hc].
    + eapply outcome_mono; [by apply (outcome_within id), outcome_write|]. intros [] b' (f & (E4 & E5) & ->). cbn in *.
      rewrite E4, (E3 Hc), !app_nil_r, E5. done.
    + apply outcome_update; [done|done|]. cbn. by rewrite app_assoc.
Qed.

(** Preallocation changes neither the log nor what is durable. *)
Lemma preallocated_same w :
  file (ensure_preallocated w) = file w /\ current_lsn (ensure_preallocated w) = current_lsn w /\ durable_lsn (ensure_preallocated w) = durable_lsn w.
Proof. unfold WalWriter.ensure_preallocated. repeat case_match; done. Qed.

Lemma append_outcome L data w :
  logged L w -> outcome dev (append_bytes data) w (fun lsn w' => lsn = zlen L /\ logged (L ++ data) w' /\ durable_lsn w' = durable_lsn w).
Proof.
  intros (Ha & HL & Hc & Hd). apply outcome_bind with (Q := fun _ w' => exists b,
    (live (buf_file b) ++ buffer b = (live (dev w) ++ buffer (file w)) ++ data /\ stable (buf_file b) = stable (dev w)) /\ w' = set_file b w).
  { by apply (outcome_within buf_file file set_file), buf_write_outcome. }
  intros [] w1 (b & (E1 & E2) & ->) Ha1. set (w2 := set_current_lsn (current_lsn w + zlen data) (set_file b w)).
  destruct (preallocated_same w2) as (P1 & P2 & P3). apply outcome_update; [done|exact (f_equal buf_file P1)|].
  change (current_lsn w = zlen L /\ logged (L ++ data) (ensure_preallocated w2) /\ durable_lsn (ensure_preallocated w2) = durable_lsn w).
  split; [done|]. split; [|exact P3]. unfold logged, dev. rewrite P1, P2, P3. cbn.
  rewrite E1, HL, E2, Hc, zlen_app. split_and!; [exact Ha1|done|done|lia|lia].
Qed.
End operations.

Lemma mark_complete_same m lsn w :
  file (mark_sync_complete m lsn w) = file w /\ current_lsn (mark_sync_complete m lsn w) = current_lsn w.
Proof. by destruct m. Qed.

(** A sync that returns has put the whole log into the stable file. *)
Lemma sync_outcome L w :
  logged L w -> outcome dev sync w (fun _ w' => logged L w' /\ stable (dev w') = L /\ durable_lsn w' = zlen L).
Proof.
  intros (Ha & HL & Hc & Hd). unfold sync. apply outcome_bind with (Q := fun _ w' => exists b,
    (buffer b = [] /\ live (buf_file b) = live (dev w) ++ buffer (file w) /\ stable (buf_file b) = stable (dev w)) /\ w' = set_file b w).
  { by apply (outcome_within buf_file file set_file), buf_flush_outcome. }
  intros [] w1 (b & (E1 & E2 & E3) & ->) Ha1. rewrite HL in E2.
  apply outcome_bind with (Q := fun _ w' => live (dev w') = L /\ stable (dev w') = L /\ buffer (file w') = [] /\ current_lsn w' = zlen L).
  - unfold sync_flushed_file. apply outcome_bind with (Q := fun _ w' => exists b', (exists f, (live f = L /\ stable f = L) /\ b' = set_buf_file f b) /\ w' = set_file b' (set_file b w)).
    + apply (outcome_within buf_file file set_file); [done|]. apply (outcome_within id buf_file set_buf_file); [done|].
      eapply outcome_mono; [by apply outcome_sync|]. cbn. intros _ f [F1 F2]. by rewrite F1, F2.
    + intros [] w2 (b' & (f & [F1 F2] & ->) & ->) Ha2. set (m := next_sync_method _).
      destruct (mark_complete_same m (current_lsn (set_file (set_buf_file f b) (set_file b w))) (set_file (set_buf_file f b) (set_file b w))) as [M1 M2].
      apply outcome_update; [done|exact (f_equal buf_file M1)|]. cbn [fst snd]. unfold dev. rewrite M1, M2. by cbn.
  - intros [] w2 (F1 & F2 & F3 & F4) Ha2. apply outcome_update; [done|done|]. unfold logged, dev in *. cbn.
    pose proof (zlen_nonneg L). rewrite F1, F2, F3, F4, app_nil_r. done.
Qed.

Lemma flush_until_outcome L target w :
  logged L w -> outcome dev (flush_until target) w (fun _ w' => logged L w' /\ durable_lsn w <= durable_lsn w' /\ Z.min target (zlen L) <= durable_lsn w').
Proof.
  intros Hl. pose proof (sync_outcome L w Hl) as Hs. destruct Hl as (Ha & HL & Hc & Hd). unfold outcome in *.
  change (flush_until target w) with (if target <=? durable_lsn w then (w, Ok tt) else sync w).
  destruct (Z.leb_spec target (durable_lsn w)).
  - split; [by apply file_kept_refl|]. split_and!; [done|lia|lia].
  - destruct (sync w) as [w' [a|e|]]; [|done|done]. destruct Hs as [Hk (H1 & H2 & H3)]. split; [done|]. split_and!; [done| |lia].
    rewrite H3. destruct Ha as ([t Et] & _ & _). rewrite <- HL, Et, !zlen_app. pose proof (zlen_nonneg t). pose proof (zlen_nonneg (buffer (file w))). lia.
Qed.

(** What is durable survives every crash. *)
Lemma logged_crash L w c n : logged L w -> crash_image (dev w) c -> 0 <= n <= zlen (stable (dev w)) -> slice c 0 n = slice L 0 n.
Proof.
  intros (Ha & HL & _ & _) Hc Hn. rewrite (appending_crash _ _ _ Ha Hc Hn). destruct Ha as ([t Et] & _ & _).
  rewrite <- HL, Et, <- app_assoc. by rewrite slice_app_l by lia.
Qed.

(** ** Opening *)

(** The writer that [open_with_vfs] builds on the file *)
Definition opened (reserve : File -> Z -> Z -> ReserveOutcome) (f : File) (lsn : Z) : WalWriter :=
  ensure_preallocated reserve
    {| file := {| buf_file := f; buffer := [] |}; current_lsn := lsn; durable_lsn := lsn; last_synced_size := lsn;
       preallocated_to := 0; prealloc_supported := true; prealloc_metadata_dirty := false |}.

Lemma opened_logged reserve b n x : n = zlen b ->
  logged b (opened reserve {| stable := b; unsynced := []; cursor := n; faults := x |} n).
Proof.
  intros ->. unfold opened. match goal with |- logged _ (ensure_preallocated _ ?w) => destruct (preallocated_same reserve w) as (P1 & P2 & P3) end.
  unfold logged, dev. rewrite P1, P2, P3. cbn. pose proof (zlen_nonneg b). rewrite app_nil_r.
  split_and!; [split_and!; [done|done|by apply Forall_nil]|done|done|lia|lia].
Qed.

(** A log opened on the bytes that a crash left holds those bytes, or the header if there were none. *)
Lemma open_outcome reserve b x :
  match open_with_vfs reserve (reopen b x) with
  | (_, Ok w) => logged (if zlen b =? 0 then encode_wal_file_header else b) w
  | (_, Err _) => x <> None
  | (_, Panic) => False
  end.
Proof.
  destruct (Z.eqb_spec (zlen b) 0) as [E|E].
  - apply zlen_nil_inv in E as ->.
    destruct x as [[[|[|[|[|n]]]] k]|]; try discriminate; exact (opened_logged reserve encode_wal_file_header 8 _ eq_refl).
  - apply Z.eqb_neq in E. unfold open_with_vfs, opening_lsn, seek_end, mbind, eff_bind, file_len, seek, try_clone, attempt.
    destruct x as [[[|[|[|n]]] k]|]; cbn -[ensure_preallocated]; try discriminate; rewrite E; cbn -[ensure_preallocated]; try discriminate;
      exact (opened_logged reserve b (zlen b) _ eq_refl).
Qed.

(** ** What the reader finds *)

Section replay.
Context (crc32 : bytes -> Z) (crc32_u32 : forall b, u32_ok (crc32 b)).
Context (zstd_compress : bytes -> option bytes) (zstd_decompress_to_buffer : bytes -> Z -> string + bytes).
Context (zstd_roundtrip : forall data compressed,
  zstd_compress data = Some compressed -> zstd_decompress_to_buffer compressed (zlen data) = inr data).
Abbreviation record_of := (record_of crc32 zstd_compress).

(** The log of a sequence of records *)
Definition log_of (recs : list (MainWalRecordAuthority * MainWalRecordFrame)) : bytes :=
  encode_wal_file_header ++ concat (record_of <$> recs).

(** A file that begins with a log is read as the records of that log and whatever follows. *)
Lemma log_prefix_read default_term recs c :
  Forall record_ok recs -> log_of recs `prefix_of` c ->
  exists items stop, wal_items crc32 zstd_decompress_to_buffer default_term c
    = Ok (log_items crc32 zstd_compress WAL_FILE_HEADER_BYTES recs ++ items, stop).
Proof.
  intros Hok [t ->]. unfold log_of. rewrite <- app_assoc. unfold wal_items, wal_reader_open.
  set (log := concat (record_of <$> recs) ++ t). rewrite zlen_app. pose proof (zlen_nonneg log).
  change (zlen encode_wal_file_header) with WAL_FILE_HEADER_BYTES. rewrite (proj2 (Z.ltb_ge _ _)) by lia.
  destruct (take_drop_app encode_wal_file_header log WAL_FILE_HEADER_BYTES eq_refl) as [-> ->].
  change (decode_wal_file_header encode_wal_file_header) with (@Ok IoError Z WAL_FILE_VERSION). cbn [mbind result_bind].
  pose proof (length_log crc32 crc32_u32 zstd_compress zstd_decompress_to_buffer zstd_roundtrip recs Hok) as Hlen.
  assert (S (length log) = length recs + S (length log - length recs))%nat as -> by (unfold log; rewrite length_app; lia).
  unfold log at 2. rewrite (wal_iterate_log crc32 crc32_u32 zstd_compress zstd_decompress_to_buffer zstd_roundtrip) by done.
  destruct (wal_iterate _ _ _ _ _ _ _) as [items stop]. by exists items, stop.
Qed.

Lemma slice_prefix {A} (l k c : list A) : slice c 0 (zlen l) = slice (l ++ k) 0 (zlen l) -> l `prefix_of` c.
Proof.
  pose proof (zlen_nonneg l). rewrite slice_app_l, (slice_all l) by lia. intros E. exists (drop (length l) c). rewrite <- E at 1.
  unfold slice, zlen. rewrite Nat2Z.id. cbn. symmetry. apply take_drop.
Qed.

(** C12. The writer and the reader of the log: when [flush_until] has returned for the end of a
    sequence of records, every crash leaves a file from which the reader returns those records,
    in order and at their LSNs, before anything else. *)
Theorem wal_flush_durable default_term recs more w w' target c :
  Forall record_ok recs -> logged (log_of recs ++ more) w -> target = zlen (log_of recs) ->
  flush_until target w = (w', Ok tt) -> crash_image (dev w') c ->
  exists items stop, wal_items crc32 zstd_decompress_to_buffer default_term c
    = Ok (log_items crc32 zstd_compress WAL_FILE_HEADER_BYTES recs ++ items, stop).
Proof.
  intros Hok Hl -> E Hc. pose proof (flush_until_outcome _ (zlen (log_of recs)) w Hl) as Ho. unfold outcome in Ho. rewrite E in Ho.
  destruct Ho as [_ (Hl' & _ & Hm)]. rewrite zlen_app in Hm. pose proof (zlen_nonneg more). pose proof Hl' as (_ & _ & _ & Hd).
  apply log_prefix_read; [done|]. eapply slice_prefix. apply (logged_crash _ w' c (zlen (log_of recs)) Hl' Hc). pose proof (zlen_nonneg (log_of recs)). lia.
Qed.
End replay.

(** ** Limits *)

(** [flush_until] behind the end of the log returns although the log does not reach so far. *)
Example flush_until_past_end :
  match open_with_vfs (fun _ _ _ => Reserved) (reopen [] None) with
  | (_, Ok w) => exists w', flush_until 100 w = (w', Ok tt) /\ durable_lsn w' = 8
  | _ => False
  end.
Proof. eexists. split; reflexivity. Qed.

(** A file whose bytes are not yet synced, as a process that dies leaves it, is opened as durable. *)
Example open_trusts_unsynced :
  let f := {| stable := []; unsynced := [(0, encode_wal_file_header)]; cursor := 0; faults := None |} in
  match open_with_vfs (fun _ _ _ => Reserved) f with
  | (f', Ok w) => durable_lsn w = 8 /\ stable f' = [] /\ crash_image (dev w) []
  | _ => False
  end.
Proof. split; [reflexivity|]. split; [reflexivity|]. split; [by vm_compute|]. intros i _. by left. Qed.

(** After a flush that stopped in the middle, the next one writes the buffer again from its
    beginning, behind the part that is already there. *)
Example flush_again_repeats :
  let b := {| buf_file := {| stable := []; unsynced := []; cursor := 0; faults := Some (0%nat, 1%nat) |}; buffer := [1; 2; 3] |} in
  let b1 := (buf_flush b).1 in
  let b2 := (buf_flush (set_buf_file (set_faults None (buf_file b1)) b1)).1 in
  (buf_flush b).2 = Err "i/o error" /\ live (buf_file b2) = [1; 1; 2; 3].
Proof. split; reflexivity. Qed.

(** ** Sample *)

(** A begin record in the buffer of a new log. *)
Definition sample_recs : list (MainWalRecordAuthority * MainWalRecordFrame) := [(sample_authority, WBegin 9)].
Definition sample_writer : WalWriter :=
  {| file := {| buf_file := {| stable := encode_wal_file_header; unsynced := []; cursor := 8; faults := None |};
                buffer := record_of byte_sum zero_compress (sample_authority, WBegin 9) |};
     current_lsn := zlen (log_of byte_sum zero_compress sample_recs); durable_lsn := 8; last_synced_size := 8; preallocated_to := 0;
     prealloc_supported := false; prealloc_metadata_dirty := false |}.

Lemma wal_flush_durable_witness :
  exists items stop, wal_items byte_sum zero_decompress 1 (log_of byte_sum zero_compress sample_recs) = Ok ((8, WBegin 9) :: items, stop).
Proof.
  apply (wal_flush_durable byte_sum byte_sum_u32 zero_compress zero_decompress zero_codec 1 sample_recs [] sample_writer
    (flush_until (zlen (log_of byte_sum zero_compress sample_recs)) sample_writer).1 (zlen (log_of byte_sum zero_compress sample_recs))).
  - apply Forall_singleton. split; [apply sample_authority_ok|done].
  - split_and!; [split_and!; [done|done|by apply Forall_nil]|by vm_compute|by vm_compute|done|done].
  - done.
  - by vm_compute.
  - split; [by vm_compute|]. intros i _. by left.
Defined.
