(* ===== verification/AppendCoordinator.v ===== *)
(** * The append coordinator ([reddb-server/src/storage/wal/append_coordinator.rs])

    Transactions reserve a range of the log with one atomic addition, queue their bytes, and
    wait until the log is durable so far.  One of the waiting threads is the leader: it empties
    the queue, writes what continues the log, syncs, and publishes the new durable LSN.  The
    threads are modelled by a step relation with a step for each access to shared memory; the
    leader's work on the writer is under a mutex and one step.  A crash inside that step leaves what
    the step leaves on a device that fails there, and the theorems are about every device.

    LSNs are unbounded: the log is taken to stay below 2^64 bytes, where [fetch_add] does not
    wrap.  A blob is not empty: every caller queues the encoding of at least one record. *)

From S2P Require Import Prelude Vfs Codec Wal WalWriter.
From Stdlib Require Import ZArith Lia.
#[local] Open Scope Z_scope.

Definition entry : Type := Z * bytes.

Record WalAppendCoordinator : Type := {
  queue : list entry;
  next_lsn : Z;
  written_lsn : Z;
  durable_lsn : Z;
  leader_in_progress : bool;
}.

Definition new (initial_lsn initial_durable_lsn : Z) : WalAppendCoordinator :=
  {| queue := []; next_lsn := initial_lsn; written_lsn := initial_lsn; durable_lsn := initial_durable_lsn; leader_in_progress := false |}.

Definition set_queue (q : list entry) (c : WalAppendCoordinator) : WalAppendCoordinator :=
  {| queue := q; next_lsn := next_lsn c; written_lsn := written_lsn c; durable_lsn := durable_lsn c; leader_in_progress := leader_in_progress c |}.
Definition set_next (n : Z) (c : WalAppendCoordinator) : WalAppendCoordinator :=
  {| queue := queue c; next_lsn := n; written_lsn := written_lsn c; durable_lsn := durable_lsn c; leader_in_progress := leader_in_progress c |}.
Definition set_written (n : Z) (c : WalAppendCoordinator) : WalAppendCoordinator :=
  {| queue := queue c; next_lsn := next_lsn c; written_lsn := n; durable_lsn := durable_lsn c; leader_in_progress := leader_in_progress c |}.
Definition set_durable (n : Z) (c : WalAppendCoordinator) : WalAppendCoordinator :=
  {| queue := queue c; next_lsn := next_lsn c; written_lsn := written_lsn c; durable_lsn := n; leader_in_progress := leader_in_progress c |}.
Definition set_leader (b : bool) (c : WalAppendCoordinator) : WalAppendCoordinator :=
  {| queue := queue c; next_lsn := next_lsn c; written_lsn := written_lsn c; durable_lsn := durable_lsn c; leader_in_progress := b |}.

(** ** The leader's local work *)

(** [pending.sort_by_key(|(lsn, _)| *lsn)], which is stable *)
Fixpoint insert_entry (e : entry) (l : list entry) : list entry :=
  match l with
  | [] => [e]
  | x :: l' => if e.1 <=? x.1 then e :: l else x :: insert_entry e l'
  end.
Definition sort_by_lsn (l : list entry) : list entry := foldr insert_entry [] l.

Fixpoint skip_stale (cursor : Z) (l : list entry) : list entry :=
  match l with
  | e :: l' => if e.1 <? cursor then skip_stale cursor l' else l
  | [] => []
  end.

(** The contiguous prefix, and the entries behind it *)
Fixpoint take_prefix (cursor : Z) (l : list entry) : list entry * list entry :=
  match l with
  | e :: l' =>
      if e.1 =? cursor then let '(taken, rest) := take_prefix (cursor + zlen e.2) l' in (e :: taken, rest)
      else ([], l)
  | [] => ([], [])
  end.

Definition contiguous (cursor : Z) (pending : list entry) : list entry * list entry :=
  take_prefix cursor (skip_stale cursor (sort_by_lsn pending)).

(** ** The threads *)

(** Where a thread is.  In [commit_at_least(target)]: [Committing] at the head of the loop,
    [Contending] after the fast path has failed, then as leader in [drive_drain] (popping, pushing
    back the rest, writing, storing [written_lsn], storing [durable_lsn]) and before it gives up
    leadership.  A thread that finds a leader parks and tries again. *)
Inductive phase : Type :=
| Idle
| Pushing (lsn : Z) (blob : bytes)
| Committing (target : Z)
| Contending (target : Z)
| Draining (target cursor : Z) (pending : list entry)
| Requeueing (target cursor : Z) (writeable rest : list entry)
| Writing (target : Z) (writeable : list entry)
| Storing (target lsn : Z)
| Publishing (target lsn : Z)
| Releasing (target : Z) (r : result string unit)
| Returned (target : Z) (r : result string unit).

(** What the threads share, with the blobs in the order in which their ranges were reserved *)
Record shared : Type := { coordinator : WalAppendCoordinator; wal : WalWriter; history : list bytes }.

Definition on_coordinator (f : WalAppendCoordinator -> WalAppendCoordinator) (s : shared) : shared :=
  {| coordinator := f (coordinator s); wal := wal s; history := history s |}.
Definition set_wal (w : WalWriter) (s : shared) : shared :=
  {| coordinator := coordinator s; wal := w; history := history s |}.

Section threads.
Context (capacity : Z) (reserve : File -> Z -> Z -> ReserveOutcome).

(** Phase 1 of [drive_drain], under the writer's mutex *)
Definition write_batch (writeable : list entry) : eff WalWriter string Z :=
  _ ← for_each writeable (fun e => _ ← append_bytes capacity reserve e.2; mret tt);
  _ ← sync;
  update (fun w => (w, current_lsn w)).

(** A step of one thread *)
Inductive acts : shared -> phase -> shared -> phase -> Prop :=
| a_reserve s blob :
    (* every caller queues the encoding of at least one record *)
    blob <> [] ->
    acts s Idle
      {| coordinator := set_next (next_lsn (coordinator s) + zlen blob) (coordinator s); wal := wal s; history := history s ++ [blob] |}
      (Pushing (next_lsn (coordinator s)) blob)
| a_push s lsn blob :
    acts s (Pushing lsn blob) (on_coordinator (fun c => set_queue (queue c ++ [(lsn, blob)]) c) s) Idle
| a_commit s target : 0 <= target -> acts s Idle s (Committing target)
| a_covered s target : target <= durable_lsn (coordinator s) -> acts s (Committing target) s (Returned target (Ok tt))
| a_uncovered s target : durable_lsn (coordinator s) < target -> acts s (Committing target) s (Contending target)
| a_park s target : leader_in_progress (coordinator s) = true -> acts s (Contending target) s (Committing target)
| a_lead s target :
    leader_in_progress (coordinator s) = false ->
    acts s (Contending target) (on_coordinator (set_leader true) s) (Draining target (written_lsn (coordinator s)) [])
| a_pop s target cursor pending e q :
    queue (coordinator s) = e :: q ->
    acts s (Draining target cursor pending) (on_coordinator (set_queue q) s) (Draining target cursor (pending ++ [e]))
| a_nothing s target cursor :
    queue (coordinator s) = [] -> acts s (Draining target cursor []) s (Releasing target (Ok tt))
| a_drained s target cursor pending taken rest :
    queue (coordinator s) = [] -> pending <> [] -> contiguous cursor pending = (taken, rest) ->
    acts s (Draining target cursor pending) s (Requeueing target cursor taken rest)
| a_requeue s target cursor taken e rest :
    acts s (Requeueing target cursor taken (e :: rest))
      (on_coordinator (fun c => if bool_decide (e.2 = []) then c else set_queue (queue c ++ [e]) c) s)
      (Requeueing target cursor taken rest)
| a_spin s target cursor : acts s (Requeueing target cursor [] []) s (Draining target cursor [])
| a_bail s target cursor : acts s (Requeueing target cursor [] []) s (Releasing target (Ok tt))
| a_take s target cursor taken :
    taken <> [] -> acts s (Requeueing target cursor taken []) s (Writing target taken)
| a_write s target taken w lsn :
    write_batch taken (wal s) = (w, Ok lsn) -> acts s (Writing target taken) (set_wal w s) (Storing target lsn)
| a_write_fails s target taken w e :
    write_batch taken (wal s) = (w, Err e) -> acts s (Writing target taken) (set_wal w s) (Releasing target (Err e))
| a_store s target lsn :
    acts s (Storing target lsn) (on_coordinator (set_written lsn) s) (Publishing target lsn)
| a_publish s target lsn :
    acts s (Publishing target lsn)
      (on_coordinator (fun c => if durable_lsn c <? lsn then set_durable lsn c else c) s) (Releasing target (Ok tt))
| a_release_error s target e :
    acts s (Releasing target (Err e)) (on_coordinator (set_leader false) s) (Returned target (Err e))
| a_release_done s target :
    target <= durable_lsn (coordinator s) ->
    acts s (Releasing target (Ok tt)) (on_coordinator (set_leader false) s) (Returned target (Ok tt))
| a_release_again s target :
    durable_lsn (coordinator s) < target ->
    acts s (Releasing target (Ok tt)) (on_coordinator (set_leader false) s) (Committing target)
| a_next s target r : acts s (Returned target r) s Idle.

(** A step of the system: one thread acts.  The writer belongs to the transaction manager,
    and only the leader uses it. *)
Inductive step : shared * list phase -> shared * list phase -> Prop :=
| step_thread s s' l1 p p' l2 : acts s p s' p' -> step (s, l1 ++ p :: l2) (s', l1 ++ p' :: l2).

(** The system at the start, over a writer that has accepted the log [L] and made it durable *)
Definition initial (L : bytes) (x : shared * list phase) : Prop :=
  logged L (wal x.1) /\ stable (dev (wal x.1)) = L /\ history x.1 = [] /\
  coordinator x.1 = new (zlen L) (zlen L) /\ Forall (eq Idle) x.2.
End threads.

(** ** Ranges of the log *)

(** The ranges of consecutive blobs from [n] on *)
Fixpoint laid (n : Z) (blobs : list bytes) : list entry :=
  match blobs with
  | [] => []
  | b :: blobs => (n, b) :: laid (n + zlen b) blobs
  end.

Lemma zlen_pos {A} (l : list A) : l <> [] -> 0 < zlen l.
Proof. intros H. pose proof (zlen_nonneg l). destruct (decide (zlen l = 0)) as [E|]; [by apply zlen_nil_inv in E|lia]. Qed.

Lemma laid_app n d t : laid n (d ++ t) = laid n d ++ laid (n + zlen (concat d)) t.
Proof.
  revert n. induction d as [|b d IH]; intros n; cbn.
  - by replace (n + zlen []) with n by (rewrite zlen_nil; lia).
  - rewrite IH, zlen_app. by replace (n + zlen b + zlen (concat d)) with (n + (zlen b + zlen (concat d))) by lia.
Qed.

Lemma laid_above n t : Forall (.≠ []) t -> Forall (fun e => n <= e.1) (laid n t).
Proof.
  intros H. revert n. induction H as [|b t Hb _ IH]; intros n; cbn; constructor; [cbn; lia|].
  eapply Forall_impl; [apply IH|]. cbn. intros e He. pose proof (zlen_nonneg b). lia.
Qed.

Lemma laid_tail_above n (b : bytes) t : b <> [] -> Forall (.≠ []) t -> Forall (fun e => n < e.1) (laid (n + zlen b) t).
Proof. intros Hb Ht. eapply Forall_impl; [by apply laid_above|]. cbn. intros e He. apply zlen_pos in Hb. lia. Qed.

(** The entry at the beginning is the first blob. *)
Lemma laid_first n t b : Forall (.≠ []) t -> (n, b) ∈ laid n t -> exists t', t = b :: t'.
Proof.
  intros Ht Hin. destruct t as [|b' t]; [by apply elem_of_nil in Hin|]. apply Forall_cons in Ht as [Hb Ht].
  cbn in Hin. apply elem_of_cons in Hin as [[= ->]|Hin]; [by exists t|].
  pose proof (laid_tail_above n b' t Hb Ht) as Hf. rewrite Forall_forall in Hf. specialize (Hf _ Hin). cbn in Hf. lia.
Qed.

Lemma laid_nonempty n t : Forall (.≠ []) t -> Forall (fun e => e.2 <> []) (laid n t).
Proof. intros H. revert n. induction H as [|b t Hb _ IH]; intros n; cbn; constructor; [done|apply IH]. Qed.

(** ** The contiguous prefix *)

Lemma insert_entry_perm e l : insert_entry e l ≡ₚ e :: l.
Proof. induction l as [|x l IH]; cbn; [done|]. destruct (_ <=? _); [done|]. rewrite IH. apply Permutation_swap. Qed.

Lemma sort_perm l : sort_by_lsn l ≡ₚ l.
Proof. induction l as [|x l IH]; cbn; [done|]. by rewrite insert_entry_perm, IH. Qed.

Lemma skip_stale_none cursor l : Forall (fun e => cursor <= e.1) l -> skip_stale cursor l = l.
Proof. destruct 1 as [|e l He]; [done|]. cbn. by rewrite (proj2 (Z.ltb_ge _ _)). Qed.

Lemma take_prefix_app cursor l taken rest : take_prefix cursor l = (taken, rest) -> l = taken ++ rest.
Proof.
  revert cursor taken. induction l as [|e l IH]; intros cursor taken; cbn; [by intros [= <- <-]|].
  destruct (_ =? _); [|by intros [= <- <-]]. destruct (take_prefix _ l) as [t r] eqn:E. intros [= <- <-]. by rewrite (IH _ _ E).
Qed.

(** What is taken continues the log: the blobs are the next ones in the order of reservation. *)
Lemma take_prefix_laid l n t taken rest :
  Forall (.≠ []) t -> Forall (.∈ laid n t) l -> NoDup l -> take_prefix n l = (taken, rest) ->
  exists d t', t = d ++ t' /\ taken = laid n d.
Proof.
  revert n t taken. induction l as [|e l IH]; intros n t taken Ht Hl Hn; cbn; [intros [= <- <-]; by exists [], t|].
  destruct (Z.eqb_spec e.1 n) as [E|E]; [|intros [= <- <-]; by exists [], t].
  apply Forall_cons in Hl as [He Hl]. apply NoDup_cons in Hn as [Hne Hn]. destruct e as [m b]. cbn in E. subst m.
  destruct (laid_first _ _ _ Ht He) as [t' ->]. apply Forall_cons in Ht as [Hb Ht]. cbn.
  destruct (take_prefix _ l) as [tk r] eqn:Et. intros [= <- <-].
  destruct (IH (n + zlen b) t' tk Ht) as (d & t2 & -> & ->); [|done|done|by exists (b :: d), t2].
  rewrite Forall_forall in *. intros x Hx. specialize (Hl x Hx). cbn in Hl. apply elem_of_cons in Hl as [->|?]; done.
Qed.

Lemma laid_NoDup n t : Forall (.≠ []) t -> NoDup (laid n t).
Proof.
  intros H. revert n. induction H as [|b t Hb Ht IH]; intros n; cbn; [by apply NoDup_nil|]. apply NoDup_cons. split; [|apply IH].
  intros Hin. pose proof (laid_tail_above n b t Hb Ht) as Hf. rewrite Forall_forall in Hf. specialize (Hf _ Hin). cbn in Hf. lia.
Qed.

Lemma contiguous_laid n t pending others taken rest :
  Forall (.≠ []) t -> pending ++ others ≡ₚ laid n t -> contiguous n pending = (taken, rest) ->
  taken ++ rest ≡ₚ pending /\ exists d t', t = d ++ t' /\ taken = laid n d.
Proof.
  intros Ht Hp Hc. unfold contiguous in Hc.
  assert (Hin : Forall (.∈ laid n t) (sort_by_lsn pending)).
  { rewrite sort_perm, Forall_forall. intros x Hx. rewrite <- Hp. apply elem_of_app. by left. }
  assert (Hnd : NoDup (sort_by_lsn pending)).
  { rewrite sort_perm. pose proof (laid_NoDup n t Ht) as H. rewrite <- Hp in H. by apply NoDup_app in H as (? & _ & _). }
  rewrite skip_stale_none in Hc.
  - split; [by rewrite <- (take_prefix_app _ _ _ _ Hc), sort_perm|]. by eapply take_prefix_laid.
  - eapply Forall_impl; [exact Hin|]. cbn. intros x Hx. pose proof (laid_above n t Ht) as H. rewrite Forall_forall in H. by apply H.
Qed.

Lemma insert_entry_comm a b l : a.1 <> b.1 -> insert_entry a (insert_entry b l) = insert_entry b (insert_entry a l).
Proof.
  intros Hab. induction l as [|x l IH]; cbn [insert_entry].
  - destruct (Z.leb_spec a.1 b.1), (Z.leb_spec b.1 a.1); try done; lia.
  - repeat (cbn [insert_entry]; match goal with |- context [?u <=? ?v] => destruct (Z.leb_spec u v) end); try done; try lia. by rewrite IH.
Qed.

Lemma sort_by_perm l k : l ≡ₚ k -> NoDup l.*1 -> sort_by_lsn l = sort_by_lsn k.
Proof.
  induction 1 as [|x l k _ IH|x y l|l k j H1 IH1 H2 IH2]; intros Hn; [done| | |].
  - cbn in Hn. apply NoDup_cons in Hn as [_ Hn]. exact (f_equal (insert_entry x) (IH Hn)).
  - cbn in *. apply NoDup_cons in Hn as [Hx _]. apply insert_entry_comm. intros E. apply Hx. rewrite E. left.
  - rewrite IH1 by done. apply IH2. by rewrite <- H1.
Qed.

Lemma sort_laid n t : Forall (.≠ []) t -> sort_by_lsn (laid n t) = laid n t /\ NoDup (laid n t).*1.
Proof.
  intros H. revert n. induction H as [|b t Hb Ht IH]; intros n; [split; [done|by apply NoDup_nil]|].
  destruct (IH (n + zlen b)) as [Hs Hn]. cbn [laid]. change (sort_by_lsn (?e :: ?l)) with (insert_entry e (sort_by_lsn l)). rewrite Hs. pose proof (laid_tail_above n b t Hb Ht) as Hf. split.
  - destruct Hf as [|e l He _]; [done|]. cbn. by rewrite (proj2 (Z.leb_le _ _)) by lia.
  - rewrite fmap_cons. apply NoDup_cons. split; [|done]. intros (e & E & He)%list_elem_of_fmap. rewrite Forall_forall in Hf. specialize (Hf e He). cbn in *. lia.
Qed.

Lemma take_laid n t : take_prefix n (laid n t) = (laid n t, []).
Proof. revert n. induction t as [|b t IH]; intros n; cbn; [done|]. by rewrite Z.eqb_refl, IH. Qed.

(** When no blob is missing, the leader takes all of them. *)
Lemma contiguous_all n t pending : Forall (.≠ []) t -> pending ≡ₚ laid n t -> contiguous n pending = (laid n t, []).
Proof.
  intros Ht Hp. destruct (sort_laid n t Ht) as [Hs Hn]. unfold contiguous.
  rewrite <- (sort_by_perm _ _ (symmetry Hp) Hn), Hs, skip_stale_none by (by apply laid_above). apply take_laid.
Qed.

(** ** The invariant *)

(** Entries on their way from a thread to the log *)
Definition held_by (p : phase) : list entry :=
  match p with
  | Pushing lsn blob => [(lsn, blob)]
  | Draining _ _ pending => pending
  | Requeueing _ _ taken rest => taken ++ rest
  | Writing _ taken => taken
  | _ => []
  end.
Definition held (l : list phase) : list entry := concat (held_by <$> l).

Definition leading (p : phase) : bool :=
  match p with
  | Draining _ _ _ | Requeueing _ _ _ _ | Writing _ _ | Storing _ _ | Publishing _ _ | Releasing _ _ => true
  | _ => false
  end.
Definition leaders (l : list phase) : list phase := filter leading l.

Definition returned_ok (durable : Z) (p : phase) : Prop :=
  match p with
  | Returned target (Ok _) => 0 <= target <= durable
  | Committing target | Contending target | Draining target _ _ | Requeueing target _ _ _ | Writing target _
  | Storing target _ | Publishing target _ | Releasing target _ => 0 <= target
  | _ => True
  end.

Lemma held_mid l1 p l2 : held (l1 ++ p :: l2) ≡ₚ held_by p ++ held (l1 ++ l2).
Proof. unfold held. rewrite !fmap_app, fmap_cons, !concat_app. cbn. by rewrite !(Permutation_app_comm (concat (held_by <$> l1))), <- app_assoc. Qed.

Lemma leaders_mid l1 p l2 : leaders (l1 ++ p :: l2) = leaders l1 ++ (if leading p then [p] else []) ++ leaders l2.
Proof. unfold leaders. rewrite filter_app, filter_cons. destruct (leading p); cbn; repeat case_decide; naive_solver. Qed.

Section invariant.
(** The log at the start *)
Context (L : bytes).

Definition log (d : list bytes) : bytes := L ++ concat d.
Definition at_end (d : list bytes) : Z := zlen (log d).

Definition continues (d t : list bytes) (taken : list entry) : Prop := exists d' t', t = d' ++ t' /\ taken = laid (at_end d) d'.

(** What has been written has been published. *)
Definition settled (d : list bytes) (s : shared) : Prop :=
  written_lsn (coordinator s) = at_end d /\ durable_lsn (coordinator s) = at_end d.

(** What the leader knows: [d] has been written, [t] has been reserved behind it. *)
Definition leader_ok (d t : list bytes) (s : shared) (p : phase) : Prop :=
  match p with
  | Draining _ cursor _ => settled d s /\ cursor = at_end d
  | Requeueing _ cursor taken _ => settled d s /\ cursor = at_end d /\ continues d t taken
  | Writing _ taken => settled d s /\ taken <> [] /\ continues d t taken
  | Storing _ lsn => lsn = at_end d /\ log d `prefix_of` stable (dev (wal s))
  | Publishing _ lsn => written_lsn (coordinator s) = at_end d /\ lsn = at_end d /\ log d `prefix_of` stable (dev (wal s))
  | Releasing _ _ => settled d s
  | _ => False
  end.

Definition lead_ok (d t : list bytes) (s : shared) (l : list phase) : Prop :=
  if leader_in_progress (coordinator s) then exists p, leaders l = [p] /\ leader_ok d t s p
  else leaders l = [] /\ settled d s.

(** Nothing is lost: the writer holds what was written, and every other blob is on its way. *)
Definition healthy (d t : list bytes) (s : shared) (l : list phase) : Prop :=
  logged (log d) (wal s) /\ queue (coordinator s) ++ held l ≡ₚ laid (at_end d) t.

(** A write has failed: the blob that continues the log is gone, and only later ones are on their way. *)
Definition failed (d : list bytes) (s : shared) (l : list phase) : Prop :=
  Forall (fun e => at_end d < e.1 /\ e.2 <> []) (queue (coordinator s) ++ held l) /\ at_end d < next_lsn (coordinator s) /\
  faults (dev (wal s)) <> None.

(** The published LSN is one that the stable file covers. *)
Definition covered (d : list bytes) (s : shared) : Prop :=
  appending (dev (wal s)) /\ 0 <= durable_lsn (coordinator s) <= at_end d /\
  slice (log d) 0 (durable_lsn (coordinator s)) `prefix_of` stable (dev (wal s)).

Record inv (d t : list bytes) (s : shared) (l : list phase) : Prop := {
  i_history : history s = d ++ t;
  i_blobs : Forall (.≠ []) (d ++ t);
  i_next : next_lsn (coordinator s) = at_end (d ++ t);
  i_covered : covered d s;
  i_returned : Forall (returned_ok (durable_lsn (coordinator s))) l;
  i_lead : lead_ok d t s l;
  i_mode : healthy d t s l \/ failed d s l;
}.

Lemma at_end_app d t : at_end (d ++ t) = at_end d + zlen (concat t).
Proof. unfold at_end, log. rewrite concat_app, !zlen_app. lia. Qed.

Lemma at_end_next d t : Forall (.≠ []) t -> t <> [] -> at_end d < at_end (d ++ t).
Proof.
  intros Ht Hne. rewrite at_end_app. destruct Ht as [|b t Hb _]; [done|]. cbn. rewrite zlen_app.
  apply zlen_pos in Hb. pose proof (zlen_nonneg (concat t)). lia.
Qed.

Lemma leader_ok_mono d t x s s' p :
  written_lsn (coordinator s') = written_lsn (coordinator s) -> durable_lsn (coordinator s') = durable_lsn (coordinator s) -> stable (dev (wal s)) `prefix_of` stable (dev (wal s')) ->
  leader_ok d t s p -> leader_ok d (t ++ x) s' p.
Proof.
  intros E Ed Hs. assert (Hc : forall tk, continues d t tk -> continues d (t ++ x) tk).
  { intros tk (d' & t' & -> & ->). exists d', (t' ++ x). by rewrite app_assoc. }
  destruct p; cbn; unfold settled; rewrite ?E, ?Ed; naive_solver (by etrans).
Qed.

(** The leader is the thread in a leading phase. *)
Lemma lead_inv d t s l1 p l2 :
  leading p = true -> lead_ok d t s (l1 ++ p :: l2) ->
  leader_in_progress (coordinator s) = true /\ leaders l1 = [] /\ leaders l2 = [] /\ leader_ok d t s p.
Proof.
  unfold lead_ok. rewrite leaders_mid. intros ->. destruct (leader_in_progress _).
  - intros (q & E & Hq). destruct (leaders l1) as [|a [|b k]]; cbn in E; try discriminate. injection E as -> E. by rewrite E.
  - intros [E _]. by apply app_eq_nil in E as [_ E].
Qed.

Lemma lead_move d t s l1 p l2 :
  leading p = true -> leader_in_progress (coordinator s) = true -> leaders l1 = [] -> leaders l2 = [] -> leader_ok d t s p ->
  lead_ok d t s (l1 ++ p :: l2).
Proof. unfold lead_ok. rewrite leaders_mid. intros -> -> -> -> Hp. by exists p. Qed.

Lemma lead_other d t x s s' l1 p p' l2 :
  leading p = false -> leading p' = false -> leader_in_progress (coordinator s') = leader_in_progress (coordinator s) ->
  written_lsn (coordinator s') = written_lsn (coordinator s) -> durable_lsn (coordinator s') = durable_lsn (coordinator s) ->
  stable (dev (wal s)) `prefix_of` stable (dev (wal s')) -> lead_ok d t s (l1 ++ p :: l2) -> lead_ok d (t ++ x) s' (l1 ++ p' :: l2).
Proof.
  unfold lead_ok. rewrite !leaders_mid. intros -> -> -> E Ed Hs. destruct (leader_in_progress _); [|unfold settled; by rewrite E, Ed].
  intros (q & Eq & Hq). exists q. split; [done|]. by eapply leader_ok_mono.
Qed.

(** Entries behind a gap stay where they are. *)
Lemma contiguous_late n pending : Forall (fun e => n < e.1) pending -> contiguous n pending = ([], sort_by_lsn pending).
Proof.
  intros Hf. unfold contiguous. rewrite skip_stale_none by (rewrite sort_perm; eapply Forall_impl; [exact Hf|cbn; lia]).
  rewrite <- (sort_perm pending) in Hf. destruct Hf as [|e l He _]; [done|]. cbn. by rewrite (proj2 (Z.eqb_neq _ _)) by lia.
Qed.

Lemma in_transit s l1 p l2 : queue (coordinator s) ++ held (l1 ++ p :: l2) ≡ₚ held_by p ++ (queue (coordinator s) ++ held (l1 ++ l2)).
Proof. by rewrite held_mid, app_assoc, (Permutation_app_comm (queue _)), <- app_assoc. Qed.

(** Every entry in transit has bytes. *)
Lemma transit_nonempty d t s l : inv d t s l -> Forall (fun e => e.2 <> []) (queue (coordinator s) ++ held l).
Proof.
  intros Hi. destruct (i_mode _ _ _ _ Hi) as [[_ Hp]|[Hf _]]; [|eapply Forall_impl; [exact Hf|naive_solver]].
  rewrite Hp. apply laid_nonempty. pose proof (i_blobs _ _ _ _ Hi) as H. by apply Forall_app in H as [_ ?].
Qed.

(** A step of a thread that neither reserves nor writes nor publishes *)
Lemma inv_move d t s s' l1 p p' l2 :
  inv d t s (l1 ++ p :: l2) -> history s' = history s -> wal s' = wal s ->
  next_lsn (coordinator s') = next_lsn (coordinator s) -> durable_lsn (coordinator s') = durable_lsn (coordinator s) ->
  queue (coordinator s') ++ held_by p' ≡ₚ queue (coordinator s) ++ held_by p ->
  returned_ok (durable_lsn (coordinator s)) p' -> lead_ok d t s' (l1 ++ p' :: l2) -> inv d t s' (l1 ++ p' :: l2).
Proof.
  intros [H1 H2 H3 H4 H5 H6 H7] Eh Ew En Ed Hq Hr Hl.
  assert (Ht : queue (coordinator s') ++ held (l1 ++ p' :: l2) ≡ₚ queue (coordinator s) ++ held (l1 ++ p :: l2)) by (by rewrite !held_mid, !app_assoc, Hq).
  split; [congruence|done|congruence|unfold covered in *; by rewrite Ew, Ed| |done|].
  - rewrite Ed. apply Forall_app in H5 as [? H5]. apply Forall_cons in H5 as [_ ?]. by apply Forall_app; split; [|constructor].
  - unfold healthy, failed in *. by rewrite Ew, En, Ht.
Qed.

Lemma inv_reserve d t s l1 l2 blob :
  blob <> [] -> inv d t s (l1 ++ Idle :: l2) ->
  inv d (t ++ [blob])
    {| coordinator := set_next (next_lsn (coordinator s) + zlen blob) (coordinator s); wal := wal s; history := history s ++ [blob] |}
    (l1 ++ Pushing (next_lsn (coordinator s)) blob :: l2).
Proof.
  intros Hb [H1 H2 H3 H4 H5 H6 H7].
  split; cbn; [by rewrite H1, app_assoc|rewrite app_assoc; apply Forall_app; by split; [|constructor]| |done| | |].
  - rewrite H3, app_assoc, (at_end_app (d ++ t)). cbn. by rewrite app_nil_r.
  - apply Forall_app in H5 as [? H5]. apply Forall_cons in H5 as [_ ?]. by apply Forall_app; split; [|constructor].
  - by apply (lead_other d t [blob] s _ l1 Idle _ l2).
  - destruct H7 as [[Hw Hp]|[Hf Hn]]; [left|right]; cbn.
    + split; [done|]. change (queue _) with (queue (coordinator s)). rewrite in_transit in Hp |- *. cbn [held_by app] in *.
      rewrite Hp, laid_app, H3, (at_end_app d t). cbn. by rewrite Permutation_app_comm.
    + destruct Hn as [Hn Hdev]. apply zlen_pos in Hb as Hz. split; [|split; [cbn; lia|done]]. change (queue _) with (queue (coordinator s)). rewrite in_transit in Hf |- *. by constructor.
Qed.
End invariant.

(** ** The leader writes *)

Section system.
Context (capacity : Z) (reserve : File -> Z -> Z -> ReserveOutcome) (L : bytes).
Abbreviation acts := (acts capacity reserve).
Abbreviation step := (step capacity reserve).
Abbreviation inv := (inv L).
Abbreviation log := (log L).
Abbreviation at_end := (at_end L).

Lemma write_all_outcome B n blobs w :
  logged B w ->
  outcome dev (for_each (laid n blobs) (fun e => _ ← append_bytes capacity reserve e.2; mret tt)) w (fun _ w' => logged (B ++ concat blobs) w').
Proof.
  revert B n w. induction blobs as [|b blobs IH]; intros B n w Hw; cbn [laid for_each].
  - unfold outcome. cbn. rewrite app_nil_r. split; [apply file_kept_refl, Hw|done].
  - apply outcome_bind with (Q := fun _ w' => logged (B ++ b) w').
    + apply outcome_bind with (Q := fun _ w' => logged (B ++ b) w').
      * eapply outcome_mono; [by apply append_outcome|]. naive_solver.
      * intros _ w' Hw' Ha. unfold outcome. cbn. by split; [apply file_kept_refl|].
    + intros [] w' Hw' _. cbn [concat]. rewrite app_assoc. by apply IH.
Qed.

Lemma write_batch_outcome B n blobs w :
  logged B w ->
  outcome dev (write_batch capacity reserve (laid n blobs)) w (fun lsn w' =>
    lsn = zlen (B ++ concat blobs) /\ logged (B ++ concat blobs) w' /\ stable (dev w') = B ++ concat blobs).
Proof.
  intros Hw. eapply outcome_bind; [by apply write_all_outcome|]. intros [] w1 H1 _.
  eapply outcome_bind; [by apply sync_outcome|]. intros [] w2 (H2 & H3 & _) Ha. apply outcome_update; [done|done|].
  cbn. split_and!; [apply H2|done|done].
Qed.

Lemma prefix_slice (l : bytes) n : 0 <= n <= zlen l -> slice l 0 n `prefix_of` l.
Proof. intros Hn. unfold slice. cbn. apply prefix_take. Qed.

Lemma slice_log d x n : 0 <= n <= at_end d -> slice (log (d ++ x)) 0 n = slice (log d) 0 n.
Proof. intros Hn. unfold AppendCoordinator.log. rewrite concat_app, app_assoc. by rewrite slice_app_l by (unfold AppendCoordinator.at_end, AppendCoordinator.log in Hn; lia). Qed.

Lemma covered_kept d s w : covered L d s -> file_kept (dev (wal s)) (dev w) -> covered L d (set_wal w s).
Proof. intros (_ & H2 & H3) (H4 & H5 & _). split_and!; [done|apply H2|apply H2|by etrans]. Qed.

(** A batch that is written moves its blobs from the threads to the log. *)
Lemma inv_write d t s l1 target taken w lsn l2 :
  inv d t s (l1 ++ Writing target taken :: l2) -> write_batch capacity reserve taken (wal s) = (w, Ok lsn) ->
  exists d' t', inv d' t' (set_wal w s) (l1 ++ Storing target lsn :: l2).
Proof.
  intros [H1 H2 H3 H4 H5 H6 H7] E. apply lead_inv in H6 as (Hf & Hl1 & Hl2 & Hw & Hne & d' & t' & -> & ->); [|done].
  destruct H7 as [[Hg Hp]|[Hlate _]].
  2:{ rewrite in_transit in Hlate. destruct d' as [|b d']; [done|]. cbn in Hlate. apply Forall_cons in Hlate as [[? _] _]. cbn in *. lia. }
  pose proof (write_batch_outcome (log d) (at_end d) d' (wal s) Hg) as Ho. unfold outcome in Ho. rewrite E in Ho.
  destruct Ho as [Hk (-> & Hg' & Hst)]. assert (El : log d ++ concat d' = log (d ++ d')) by (unfold AppendCoordinator.log; by rewrite concat_app, app_assoc).
  rewrite El in Hg', Hst. exists (d ++ d'), t'. rewrite (app_assoc d) in H1, H2, H3.
  pose proof (covered_kept d s w H4 Hk) as (C1 & C2 & C3). pose proof (at_end_app L d d') as Ea. pose proof (zlen_nonneg (concat d')).
  split; cbn; [done|done|done| | | |].
  - split_and!; [done|apply C2|cbn in *; lia|]. by rewrite slice_log.
  - apply Forall_app in H5 as [? H5]. apply Forall_cons in H5 as [? ?]. by apply Forall_app; split; [|constructor].
  - apply lead_move; try done. cbn. rewrite El. split; [done|]. by rewrite Hst.
  - left. split; [done|]. cbn. rewrite in_transit in Hp |- *. cbn [held_by app] in *.
    rewrite laid_app in Hp. apply Permutation_app_inv_l in Hp. rewrite Ea. exact Hp.
Qed.

(** A batch that fails loses its blobs, the one that continues the log among them. *)
Lemma inv_write_fails d t s l1 target taken w e l2 :
  inv d t s (l1 ++ Writing target taken :: l2) -> write_batch capacity reserve taken (wal s) = (w, Err e) ->
  inv d t (set_wal w s) (l1 ++ Releasing target (Err e) :: l2) /\ failed L d (set_wal w s) (l1 ++ Releasing target (Err e) :: l2).
Proof.
  intros [H1 H2 H3 H4 H5 H6 H7] E. apply lead_inv in H6 as (Hf & Hl1 & Hl2 & Hw & Hne & d' & t' & -> & ->); [|done].
  destruct H7 as [[Hg Hp]|[Hlate _]].
  2:{ rewrite in_transit in Hlate. destruct d' as [|b d']; [done|]. cbn in Hlate. apply Forall_cons in Hlate as [[? _] _]. cbn in *. lia. }
  pose proof (write_batch_outcome (log d) (at_end d) d' (wal s) Hg) as Ho. unfold outcome in Ho. rewrite E in Ho. destruct Ho as [Hk Hdev].
  assert (Hfail : failed L d (set_wal w s) (l1 ++ Releasing target (Err e) :: l2)).
  { destruct d' as [|b d']; [done|]. apply Forall_app in H2 as [_ H2]. cbn in H2. apply Forall_cons in H2 as [Hb Ht].
    split; [|split; [cbn; rewrite H3; apply at_end_next; [by constructor|done]|cbn; intros Ef; by apply Hdev, Hk]]. rewrite (laid_app (at_end d) (b :: d') t'), in_transit in Hp.
    apply Permutation_app_inv_l in Hp. rewrite in_transit. cbn [held_by app queue coordinator set_wal]. rewrite Hp. apply Forall_and. split.
    - apply Forall_app in Ht as [_ Ht]. eapply Forall_impl; [by apply laid_above|]. cbn. intros x Hx. rewrite zlen_app in Hx.
      apply zlen_pos in Hb. pose proof (zlen_nonneg (concat d')). lia.
    - apply Forall_app in Ht as [_ Ht]. by apply laid_nonempty. }
  split; [|done]. split; [done|done|done|by apply covered_kept| |by apply lead_move|by right].
  apply Forall_app in H5 as [? H5]. apply Forall_cons in H5 as [? ?]. by apply Forall_app; split; [|constructor].
Qed.

Lemma inv_publish d t s l1 target lsn l2 :
  inv d t s (l1 ++ Publishing target lsn :: l2) ->
  inv d t (on_coordinator (fun c => if durable_lsn c <? lsn then set_durable lsn c else c) s) (l1 ++ Releasing target (Ok tt) :: l2).
Proof.
  intros Hi. pose proof (lead_inv L d t s l1 (Publishing target lsn) l2 eq_refl (i_lead _ _ _ _ _ Hi)) as (Hf & Hl1 & Hl2 & Hw & -> & Hst).
  unfold on_coordinator. destruct (Z.ltb_spec (durable_lsn (coordinator s)) (at_end d)) as [Hd|Hd].
  2:{ apply (inv_move L d t s _ l1 (Publishing target (at_end d)) _ l2); try done; [|apply lead_move; try done; split; [done|]; cbn; destruct (i_covered _ _ _ _ _ Hi) as (_ & ? & _); lia].
      pose proof (i_returned _ _ _ _ _ Hi) as H. apply Forall_app in H as [_ H]. by apply Forall_cons in H as [? _]. }
  destruct Hi as [H1 H2 H3 H4 H5 H6 H7]. destruct H4 as (C1 & C2 & C3).
  split; cbn; [done|done|done| | |by apply lead_move|].
  - split_and!; [done|cbn; lia|cbn; lia|]. cbn. by rewrite (slice_all (log d)).
  - apply Forall_app in H5 as [Ha H5]. apply Forall_cons in H5 as [Hp Hb]. apply Forall_app. split; [|constructor; [done|]].
    all: (eapply Forall_impl; [eassumption|]); intros [| | | | | | | | | |? [[]| |]]; cbn; try done; lia.
  - unfold healthy, failed in *. cbn in *. by rewrite !held_mid in *.
Qed.

Lemma inv_returned d t s l1 p l2 : inv d t s (l1 ++ p :: l2) -> returned_ok (durable_lsn (coordinator s)) p.
Proof. intros Hi. pose proof (i_returned _ _ _ _ _ Hi) as H. apply Forall_app in H as [_ H]. by apply Forall_cons in H as [? _]. Qed.

Lemma inv_durable_nonneg d t s l : inv d t s l -> 0 <= durable_lsn (coordinator s).
Proof. intros Hi. destruct (i_covered _ _ _ _ _ Hi) as (_ & ? & _). lia. Qed.

Lemma inv_other d t s s' l1 p p' l2 :
  inv d t s (l1 ++ p :: l2) -> leading p = false -> leading p' = false -> s' = on_coordinator (set_queue (queue (coordinator s'))) s ->
  queue (coordinator s') ++ held_by p' ≡ₚ queue (coordinator s) ++ held_by p -> returned_ok (durable_lsn (coordinator s)) p' ->
  inv d t s' (l1 ++ p' :: l2).
Proof.
  intros Hi Hp Hp' Es Hq Hr. apply (inv_move L d t s s' l1 p p' l2); try done; try (rewrite Es; done).
  rewrite <- (app_nil_r t). apply (lead_other L d t [] s s' l1 p p' l2); try done; try (rewrite Es; done). apply Hi.
Qed.

(** What the leader takes from the entries it has popped continues the log. *)
Lemma inv_drained d t s l1 target pending l2 taken rest :
  inv d t s (l1 ++ Draining target (at_end d) pending :: l2) -> contiguous (at_end d) pending = (taken, rest) ->
  taken ++ rest ≡ₚ pending /\ continues L d t taken.
Proof.
  intros Hi Hc. pose proof (i_blobs _ _ _ _ _ Hi) as Hb. apply Forall_app in Hb as [_ Hb].
  destruct (i_mode _ _ _ _ _ Hi) as [[_ Hp]|[Hf _]].
  - rewrite in_transit in Hp. destruct (contiguous_laid _ _ _ _ _ _ Hb Hp Hc) as [? (d' & t' & ? & ?)]. split; [done|by exists d', t'].
  - rewrite in_transit in Hf. apply Forall_app in Hf as [Hf _]. cbn in Hf. rewrite contiguous_late in Hc by (eapply Forall_impl; [exact Hf|naive_solver]).
    injection Hc as <- <-. split; [apply sort_perm|by exists [], t].
Qed.

(** A step of the leader inside [drive_drain] *)
Lemma inv_leader_move d t s s' l1 p p' l2 :
  inv d t s (l1 ++ p :: l2) -> leading p = true -> leading p' = true ->
  leader_in_progress (coordinator s') = leader_in_progress (coordinator s) -> history s' = history s -> wal s' = wal s ->
  next_lsn (coordinator s') = next_lsn (coordinator s) -> durable_lsn (coordinator s') = durable_lsn (coordinator s) ->
  queue (coordinator s') ++ held_by p' ≡ₚ queue (coordinator s) ++ held_by p -> returned_ok (durable_lsn (coordinator s)) p' ->
  (leader_ok L d t s p -> leader_ok L d t s' p') -> inv d t s' (l1 ++ p' :: l2).
Proof.
  intros Hi Hp Hp' Ef Eh Ew En Ed Eq Hr Hl. destruct (lead_inv L d t s l1 p l2 Hp (i_lead _ _ _ _ _ Hi)) as (Hf & Hl1 & Hl2 & Ho).
  apply (inv_move L d t s s' l1 p p' l2); try done. apply lead_move; try done; [by rewrite Ef|auto].
Qed.

Lemma inv_release d t s l1 target r q l2 :
  inv d t s (l1 ++ Releasing target r :: l2) -> leading q = false -> held_by q = [] -> returned_ok (durable_lsn (coordinator s)) q ->
  inv d t (on_coordinator (set_leader false) s) (l1 ++ q :: l2).
Proof.
  intros Hi Hq E Hr. destruct (lead_inv L d t s l1 (Releasing target r) l2 eq_refl (i_lead _ _ _ _ _ Hi)) as (_ & Hl1 & Hl2 & Hw).
  apply (inv_move L d t s _ l1 (Releasing target r) q l2); try done; [by rewrite E|]. unfold lead_ok. cbn. by rewrite leaders_mid, Hq, Hl1, Hl2.
Qed.

Lemma inv_lead d t s l1 target l2 :
  inv d t s (l1 ++ Contending target :: l2) -> leader_in_progress (coordinator s) = false ->
  inv d t (on_coordinator (set_leader true) s) (l1 ++ Draining target (written_lsn (coordinator s)) [] :: l2).
Proof.
  intros Hi Hf. pose proof (i_lead _ _ _ _ _ Hi) as Hl. unfold lead_ok in Hl. rewrite Hf, leaders_mid in Hl. destruct Hl as [Hl [Hw Hd]].
  apply app_eq_nil in Hl as [Hl1 Hl2]. apply (inv_move L d t s _ l1 (Contending target) _ l2); try done; [|by apply lead_move; [..|split]].
  exact (inv_returned _ _ _ _ _ _ Hi).
Qed.

Lemma requeue_nonempty d t s l1 target cursor taken e rest l2 : inv d t s (l1 ++ Requeueing target cursor taken (e :: rest) :: l2) -> e.2 <> [].
Proof.
  intros Hi. pose proof (transit_nonempty L d t s _ Hi) as H. rewrite in_transit in H. cbn in H.
  apply Forall_app in H as [H _]. apply Forall_app in H as [_ H]. by apply Forall_cons in H as [? _].
Qed.

Lemma acts_inv d t s l1 p s' p' l2 :
  acts s p s' p' -> inv d t s (l1 ++ p :: l2) -> exists d' t', inv d' t' s' (l1 ++ p' :: l2).
Proof.
  intros Ha Hi. pose proof (inv_durable_nonneg _ _ _ _ Hi) as Hd. pose proof (inv_returned _ _ _ _ _ _ Hi) as Hr.
  pose proof (fun q s2 => inv_other d t s s2 l1 p q l2 Hi) as Hother. pose proof (fun q s2 => inv_leader_move d t s s2 l1 p q l2 Hi) as Hmove.
  destruct Ha as [s blob Hb|s lsn blob|s target|s target|s target|s target|s target Hf|s target cursor pending e q Eq|s target cursor Eq
    |s target cursor pending taken rest Eq Hne Ec|s target cursor taken e rest|s target cursor|s target cursor|s target cursor taken Hne
    |s target taken w lsn Ew|s target taken w e Ew|s target lsn|s target lsn|s target e|s target|s target|s target r].
  1: by exists d, (t ++ [blob]); apply inv_reserve.
  14: by eapply inv_write.
  all: exists d, t.
  - apply Hother; try done. cbn. by rewrite app_nil_r.
  - apply Hother; try done. by destruct s as [[] ? ?].
  - apply Hother; try done; first [by destruct s as [[] ? ?]|cbn in *; lia].
  - apply Hother; try done. by destruct s as [[] ? ?].
  - apply Hother; try done. by destruct s as [[] ? ?].
  - by apply inv_lead.
  - apply Hmove; try done. cbn. rewrite Eq. solve_Permutation.
  - apply Hmove; try done. cbn. by intros [? _].
  - destruct (lead_inv L d t s l1 (Draining target cursor pending) l2 eq_refl (i_lead _ _ _ _ _ Hi)) as (_ & _ & _ & Hw & ->).
    destruct (inv_drained _ _ _ _ _ _ _ _ _ Hi Ec) as [Hp Hc]. apply Hmove; try done. cbn. by rewrite Hp.
  - rewrite bool_decide_false by (by eapply requeue_nonempty). apply Hmove; try done. cbn. solve_Permutation.
  - apply Hmove; try done. cbn. naive_solver.
  - apply Hmove; try done. cbn. naive_solver.
  - apply Hmove; try done; [cbn; by rewrite app_nil_r|cbn; naive_solver].
  - by eapply (inv_write_fails d t s l1 target taken w e l2).
  - apply Hmove; try done. cbn. by intros [-> ?].
  - by apply inv_publish.
  - by apply (inv_release d t s l1 target (Err e)).
  - by apply (inv_release d t s l1 target (Ok tt)).
  - by apply (inv_release d t s l1 target (Ok tt)).
  - apply Hother; try done. by destruct s as [[] ? ?].
Qed.

(** ** Reachable states *)

Lemma initial_inv x : initial L x -> inv [] [] x.1 x.2.
Proof.
  destruct x as [s l]. intros (Hw & Hst & Hh & Hc & Hl). cbn in *. pose proof (zlen_nonneg L).
  assert (El : log [] = L) by (unfold AppendCoordinator.log; cbn; by rewrite app_nil_r).
  assert (Ea : at_end [] = zlen L) by (unfold AppendCoordinator.at_end; by rewrite El).
  assert (Hno : leaders l = [] /\ held l = []) by (induction Hl as [|p l <- _ IH]; [done|exact IH]). destruct Hno as [Hno Hhe].
  split; [done|by apply Forall_nil|rewrite Hc; cbn [app]; by rewrite Ea| | | |].
  - unfold covered. rewrite Hc, El, Ea. cbn. split_and!; [apply Hw|lia|lia|]. by rewrite (slice_all L), Hst.
  - eapply Forall_impl; [exact Hl|]. by intros ? <-.
  - unfold lead_ok, settled. rewrite Hc. cbn. by rewrite Ea.
  - left. unfold healthy. rewrite El, Hc, Hhe. by split.
Qed.

Lemma step_inv d t x y : step x y -> inv d t x.1 x.2 -> exists d' t', inv d' t' y.1 y.2.
Proof. intros [s s' l1 p p' l2 Ha] Hi. by eapply acts_inv. Qed.

Lemma steps_inv d t x y : rtc step x y -> inv d t x.1 x.2 -> exists d' t', inv d' t' y.1 y.2.
Proof. intros Hs. revert d t. induction Hs as [x|x y z Hxy _ IH]; intros d t Hi; [by eauto|]. destruct (step_inv _ _ _ _ Hxy Hi) as (d' & t' & ?). by eapply IH. Qed.

Lemma reachable_inv x y : initial L x -> rtc step x y -> exists d t, inv d t y.1 y.2.
Proof. intros Hx Hs. eapply steps_inv; [exact Hs|by apply initial_inv]. Qed.

Lemma returned_durable x s l target c :
  initial L x -> rtc step x (s, l) -> Returned target (Ok tt) ∈ l -> crash_image (dev (wal s)) c ->
  0 <= target <= zlen (L ++ concat (history s)) /\ slice c 0 target = slice (L ++ concat (history s)) 0 target.
Proof.
  intros Hx Hs Hin Hc. destruct (reachable_inv _ _ Hx Hs) as (d & t & Hi). cbn in Hi.
  pose proof (i_returned _ _ _ _ _ Hi) as Hr. rewrite Forall_forall in Hr. specialize (Hr _ Hin). cbn in Hr.
  destruct (i_covered _ _ _ _ _ Hi) as (Ha & Hd & Hp). rewrite (i_history _ _ _ _ _ Hi).
  change (L ++ concat (d ++ t)) with (log (d ++ t)). change (zlen (log (d ++ t))) with (at_end (d ++ t)).
  pose proof (at_end_app L d t). pose proof (zlen_nonneg (concat t)). rewrite slice_log by lia. split; [lia|].
  assert (Hl : zlen (slice (log d) 0 (durable_lsn (coordinator s))) = durable_lsn (coordinator s)) by (rewrite zlen_slice; unfold AppendCoordinator.at_end in *; lia).
  destruct Hp as [k Ek]. rewrite (appending_crash _ c target Ha Hc) by (rewrite Ek, zlen_app, Hl; pose proof (zlen_nonneg k); lia).
  rewrite Ek, slice_app_l by lia. rewrite slice_slice by lia. f_equal; lia.
Qed.

(** C9. A commit that has returned is durable, however the threads interleave and whatever writes
    fail: in every reachable state, when [commit_at_least(target)] has returned [Ok] to some
    thread, every crash leaves the log up to [target], with the blobs in the order in which
    their ranges were reserved. *)
Theorem commit_durable x s l target c :
  initial L x -> rtc step x (s, l) -> Returned target (Ok tt) ∈ l -> crash_image (dev (wal s)) c ->
  0 <= target <= zlen (L ++ concat (history s)) /\ slice c 0 target = slice (L ++ concat (history s)) 0 target.
Proof. apply returned_durable. Qed.

(** ** After a failed write *)

(** The log ends at [m] and there is a gap behind it; [n] has been published. *)
Definition stuck_at (n m : Z) (p : phase) : Prop :=
  match p with
  | Draining _ cursor _ => cursor = m
  | Requeueing _ cursor taken _ => cursor = m /\ taken = []
  | Writing _ _ | Storing _ _ | Publishing _ _ => False
  | Returned target (Ok _) => target <= n
  | _ => True
  end.

Record stalled (n m : Z) (s : shared) (l : list phase) : Prop := {
  st_late : Forall (fun e => m < e.1) (queue (coordinator s) ++ held l);
  st_next : m < next_lsn (coordinator s);
  st_durable : durable_lsn (coordinator s) = n;
  st_written : written_lsn (coordinator s) = m;
  st_threads : Forall (stuck_at n m) l;
}.

Lemma stalled_move n m s s' l1 p p' l2 :
  stalled n m s (l1 ++ p :: l2) -> m < next_lsn (coordinator s') -> durable_lsn (coordinator s') = durable_lsn (coordinator s) ->
  written_lsn (coordinator s') = written_lsn (coordinator s) ->
  (Forall (fun e => m < e.1) (queue (coordinator s) ++ held_by p) -> Forall (fun e => m < e.1) (queue (coordinator s') ++ held_by p')) ->
  stuck_at n m p' -> stalled n m s' (l1 ++ p' :: l2).
Proof.
  intros [H1 H2 H3 H4 H5] Hn Ed Ew Hq Hp. split; [|done|congruence|congruence|].
  - rewrite held_mid, app_assoc in H1 |- *. apply Forall_app in H1 as [? ?]. apply Forall_app. auto.
  - apply Forall_app in H5 as [? H5]. apply Forall_cons in H5 as [_ ?]. by apply Forall_app; split; [|constructor].
Qed.

Lemma acts_stalled n m s l1 p s' p' l2 : acts s p s' p' -> stalled n m s (l1 ++ p :: l2) -> stalled n m s' (l1 ++ p' :: l2).
Proof.
  intros Ha Hi. pose proof Hi as [H1 H2 H3 H4 H5]. apply Forall_app in H5 as [_ H5]. apply Forall_cons in H5 as [Hp _].
  rewrite in_transit in H1. apply Forall_app in H1 as [Hh _].
  destruct Ha; try done; apply (stalled_move n m s _ l1 _ _ l2 Hi); cbn in *; try done; try lia; rewrite ?app_nil_r; try done.
  - pose proof (zlen_nonneg blob). lia.
  - intros ?. apply Forall_app. split; [done|by constructor].
  - rewrite H. cbn. intros [? Hf]%Forall_cons. apply Forall_app in Hf as [? ?]. apply Forall_app. split; [done|]. apply Forall_app. by split; [|constructor].
  - subst cursor. rewrite contiguous_late in H1 by done. injection H1 as <- <-. cbn. by rewrite sort_perm.
  - subst cursor. rewrite contiguous_late in H1 by done. by injection H1 as <- <-.
  - by case_bool_decide.
  - by case_bool_decide.
  - by case_bool_decide.
  - destruct Hp as [-> ->]. cbn. intros Hf. case_bool_decide; cbn; [|by rewrite <- app_assoc].
    apply Forall_app in Hf as [? Hf]. apply Forall_cons in Hf as [_ ?]. by apply Forall_app.
  - by destruct Hp as [_ ->].
Qed.

Lemma steps_stalled n m z y : rtc step z y -> stalled n m z.1 z.2 -> stalled n m y.1 y.2.
Proof. intros Hz. induction Hz as [z|z1 z2 z3 [s s' k1 p p' k2 Ha] _ IH]; [done|]. intros H. apply IH. by eapply acts_stalled. Qed.

Lemma leaders_nil l : leaders l = [] -> Forall (fun p => leading p = false) l.
Proof.
  induction l as [|p l IH]; intros E; [by constructor|]. pose proof (leaders_mid [] p l) as Em. cbn [app] in Em. rewrite E in Em.
  destruct (leading p) eqn:Ep; [done|]. constructor; [done|]. by apply IH.
Qed.

Lemma other_stuck n m l : leaders l = [] -> Forall (returned_ok n) l -> Forall (stuck_at n m) l.
Proof.
  intros Hl%leaders_nil Hr. pose proof (proj2 (Forall_and _ l) (conj Hl Hr)) as H.
  eapply Forall_impl; [exact H|]. intros [| | | | | | | | | |? [[]| |]] [? ?]; cbn in *; try done; lia.
Qed.

Lemma failure_stalls d t s l1 target taken w e l2 :
  inv d t s (l1 ++ Writing target taken :: l2) -> write_batch capacity reserve taken (wal s) = (w, Err e) ->
  stalled (durable_lsn (coordinator s)) (at_end d) (set_wal w s) (l1 ++ Releasing target (Err e) :: l2).
Proof.
  intros Hi E. destruct (inv_write_fails _ _ _ _ _ _ _ _ _ Hi E) as [Hi' (Hf & Hn & _)].
  destruct (lead_inv L d t _ l1 (Releasing target (Err e)) l2 eq_refl (i_lead _ _ _ _ _ Hi')) as (_ & Hl1 & Hl2 & Hw).
  split; [eapply Forall_impl; [exact Hf|naive_solver]|done|done|apply Hw|].
  pose proof (i_returned _ _ _ _ _ Hi') as Hr. apply Forall_app in Hr as [? Hr]. apply Forall_cons in Hr as [_ ?].
  apply Forall_app. split; [by apply other_stuck|]. constructor; [done|by apply other_stuck].
Qed.

(** C11. After a write of the leader has failed, the coordinator never makes progress again: the
    entries that continue the log are gone, so that in every later state the published LSN is
    the same, no thread is about to write, and no commit beyond that LSN has returned [Ok]. *)
Theorem failed_drain_stalls x s l1 target taken w e l2 y :
  initial L x -> rtc step x (s, l1 ++ Writing target taken :: l2) ->
  write_batch capacity reserve taken (wal s) = (w, Err e) ->
  rtc step (set_wal w s, l1 ++ Releasing target (Err e) :: l2) y ->
  durable_lsn (coordinator y.1) = durable_lsn (coordinator s) /\
  Forall (fun p => match p with
    | Writing _ _ => False
    | Returned target' (Ok _) => target' <= durable_lsn (coordinator s)
    | _ => True end) y.2.
Proof.
  intros Hx Hs E Hy. destruct (reachable_inv _ _ Hx Hs) as (d & t & Hi). cbn [fst snd] in Hi.
  pose proof (failure_stalls _ _ _ _ _ _ _ _ _ Hi E) as Hst.
  pose proof (steps_stalled _ _ _ _ Hy Hst) as Hend.
  split; [apply Hend|]. eapply Forall_impl; [apply Hend|]. intros [| | | | | | | | | |? [[]| |]]; cbn; done.
Qed.

(** ** Progress *)

(** The leader pops the queue to its end. *)
Lemma pop_all s l1 target cursor pending l2 :
  rtc step (s, l1 ++ Draining target cursor pending :: l2)
    (on_coordinator (set_queue []) s, l1 ++ Draining target cursor (pending ++ queue (coordinator s)) :: l2).
Proof.
  remember (queue (coordinator s)) as q eqn:Eq. revert s pending Eq. induction q as [|e q IH]; intros s pending Eq.
  - rewrite app_nil_r. replace (on_coordinator (set_queue []) s) with s; [done|]. destruct s as [[] ? ?]. cbn in *. by subst.
  - eapply rtc_l; [apply step_thread; by eapply a_pop|]. replace (pending ++ e :: q) with ((pending ++ [e]) ++ q) by (by rewrite <- app_assoc).
    exact (IH (on_coordinator (set_queue q) s) (pending ++ [e]) eq_refl).
Qed.

(** A leader that has all blobs writes and publishes them. *)
Lemma drain_all d t s l1 target l2 :
  inv d t s (l1 ++ Draining target (at_end d) [] :: l2) -> healthy L d t s (l1 ++ Draining target (at_end d) [] :: l2) ->
  faults (dev (wal s)) = None -> held (l1 ++ l2) = [] -> t <> [] ->
  exists s', rtc step (s, l1 ++ Draining target (at_end d) [] :: l2) (s', l1 ++ Releasing target (Ok tt) :: l2) /\
    durable_lsn (coordinator s') = next_lsn (coordinator s).
Proof.
  intros Hi [Hg Hp] Hdev Hh Hne. rewrite in_transit, Hh, app_nil_r in Hp. cbn in Hp.
  pose proof (i_blobs _ _ _ _ _ Hi) as Hb. apply Forall_app in Hb as [_ Hb].
  pose proof (write_batch_outcome (log d) (at_end d) t (wal s) Hg) as Ho. unfold outcome in Ho.
  destruct (write_batch _ _ _ _) as [w [lsn|e|]] eqn:Ew; [|by destruct Ho|done]. destruct Ho as [_ (-> & _ & _)].
  assert (En : zlen (log d ++ concat t) = next_lsn (coordinator s)).
  { rewrite (i_next _ _ _ _ _ Hi), at_end_app, zlen_app. done. }
  assert (Hl : durable_lsn (coordinator s) < next_lsn (coordinator s)).
  { destruct (i_covered _ _ _ _ _ Hi) as (_ & ? & _). rewrite (i_next _ _ _ _ _ Hi). pose proof (at_end_next L d t Hb Hne). lia. }
  assert (Hq : queue (coordinator s) <> [] /\ laid (at_end d) t <> []).
  { destruct t as [|b t]; [done|]. split; [|done]. intros E. rewrite E in Hp. by apply Permutation_nil_cons in Hp. }
  eexists. split.
  - etrans; [apply pop_all|]. cbn [app].
    eapply rtc_l; [apply step_thread, a_drained; [done|apply Hq|by apply contiguous_all]|].
    eapply rtc_l; [apply step_thread, a_take; apply Hq|]. eapply rtc_l; [apply step_thread, a_write; exact Ew|].
    eapply rtc_l; [apply step_thread, a_store|]. eapply rtc_l; [apply step_thread, a_publish|]. reflexivity.
  - cbn. rewrite En. by rewrite (proj2 (Z.ltb_lt _ _)).
Qed.

(** C10. Commits make progress: in a reachable state in which no thread leads, every reserved blob has
    been queued and the device works, a thread in [commit_at_least(target)], for a [target] that
    has been reserved, returns [Ok] by its own steps, and everything reserved is then published. *)
Theorem commit_progress x s l1 target l2 :
  initial L x -> rtc step x (s, l1 ++ Committing target :: l2) ->
  faults (dev (wal s)) = None -> leader_in_progress (coordinator s) = false -> held (l1 ++ l2) = [] ->
  durable_lsn (coordinator s) < target <= next_lsn (coordinator s) ->
  exists s', rtc step (s, l1 ++ Committing target :: l2) (s', l1 ++ Returned target (Ok tt) :: l2) /\
    durable_lsn (coordinator s') = next_lsn (coordinator s).
Proof.
  intros Hx Hs Hdev Hf Hh Ht. destruct (reachable_inv _ _ Hx Hs) as (d & t & Hi). cbn [fst snd] in Hi.
  assert (Hi1 : inv d t s (l1 ++ Contending target :: l2)).
  { apply (inv_other d t s s l1 (Committing target) _ l2); try done; [by destruct s as [[] ? ?]|exact (inv_returned _ _ _ _ _ _ Hi)]. }
  pose proof (inv_lead d t s l1 target l2 Hi1 Hf) as Hi2.
  assert (Ew : settled L d s).
  { pose proof (i_lead _ _ _ _ _ Hi) as H. unfold lead_ok in H. rewrite Hf in H. apply H. }
  destruct Ew as [Ew Ed]. rewrite Ew in Hi2. assert (Hne : t <> []).
  { intros ->. pose proof (i_next _ _ _ _ _ Hi) as En. rewrite app_nil_r in En. lia. }
  destruct (drain_all d t _ l1 target l2 Hi2) as (s2 & Hrun & Es2); [|done|done|done|].
  { destruct (i_mode _ _ _ _ _ Hi2) as [?|(_ & _ & ?)]; done. }
  exists (on_coordinator (set_leader false) s2). split; [|done].
  eapply rtc_l; [apply step_thread, a_uncovered; lia|]. eapply rtc_l; [by apply step_thread, a_lead|]. rewrite Ew.
  etrans; [exact Hrun|]. apply rtc_once, step_thread, a_release_done. rewrite Es2. apply Ht.
Qed.
End system.

(** ** Recovery of committed records *)

Section recovery.
Context (capacity : Z) (reserve : File -> Z -> Z -> ReserveOutcome).
Context (crc32 : bytes -> Z) (crc32_u32 : forall b, u32_ok (crc32 b)).
Context (zstd_compress : bytes -> option bytes) (zstd_decompress_to_buffer : bytes -> Z -> string + bytes).
Context (zstd_roundtrip : forall data compressed,
  zstd_compress data = Some compressed -> zstd_decompress_to_buffer compressed (zlen data) = inr data).
Abbreviation log_of := (log_of crc32 zstd_compress).

(** The blob of a transaction: its records one after the other *)
Definition blob_of (recs : list (MainWalRecordAuthority * MainWalRecordFrame)) : bytes :=
  concat (record_of crc32 zstd_compress <$> recs).

Lemma log_of_blobs recs rss : log_of (recs ++ concat rss) = log_of recs ++ concat (blob_of <$> rss).
Proof.
  unfold WalWriter.log_of. rewrite fmap_app, concat_app, <- !app_assoc. do 2 f_equal.
  induction rss as [|rs rss IH]; [done|]. cbn. rewrite fmap_app, concat_app. by f_equal.
Qed.

(** C8. From commit to recovery: when the commit of a transaction has returned [Ok], however the threads
    interleaved, the reader finds after every crash the records that the log had at the start
    and those of all blobs reserved up to that transaction, in order and at their LSNs, before
    anything else.  The records are within the limits of the decoder ([record_ok]). *)
Theorem committed_records_replayed default_term recs rss rest x s l target c :
  Forall record_ok (recs ++ concat rss) -> initial (log_of recs) x -> rtc (step capacity reserve) x (s, l) ->
  history s = (blob_of <$> rss) ++ rest -> target = zlen (log_of (recs ++ concat rss)) ->
  Returned target (Ok tt) ∈ l -> crash_image (dev (wal s)) c ->
  exists items stop, wal_items crc32 zstd_decompress_to_buffer default_term c
    = Ok (log_items crc32 zstd_compress WAL_FILE_HEADER_BYTES (recs ++ concat rss) ++ items, stop).
Proof.
  intros Hok Hx Hs Eh -> Hin Hc. destruct (returned_durable _ _ _ _ _ _ _ _ Hx Hs Hin Hc) as [_ E].
  eapply log_prefix_read; [done|done|done|]. rewrite Eh, concat_app, app_assoc, <- log_of_blobs in E. by eapply slice_prefix.
Qed.
End recovery.

(** ** Samples *)

Module SampleCommit.
(** A new log, and a thread that commits one begin record *)
Definition recs : list (MainWalRecordAuthority * MainWalRecordFrame) := [(sample_authority, WBegin 9)].
Definition blob : bytes := blob_of byte_sum zero_compress recs.
Definition writer (x : option (nat * nat)) : WalWriter :=
  {| file := {| buf_file := {| stable := encode_wal_file_header; unsynced := []; cursor := 8; faults := x |}; buffer := [] |};
     current_lsn := 8; WalWriter.durable_lsn := 8; last_synced_size := 8; preallocated_to := 0; prealloc_supported := true;
     prealloc_metadata_dirty := false |}.
Definition start (x : option (nat * nat)) : shared := {| coordinator := new 8 8; wal := writer x; history := [] |}.
Definition finish : Z := 8 + zlen blob.
Abbreviation go := (step 65536 (fun _ _ _ => Reserved)).
Abbreviation write := (write_batch 65536 (fun _ _ _ => Reserved) [(8, blob)]).

Definition queued (x : option (nat * nat)) : shared :=
  {| coordinator := {| queue := [(8, blob)]; next_lsn := finish; written_lsn := 8; durable_lsn := 8; leader_in_progress := false |};
     wal := writer x; history := [blob] |}.
Definition popped (x : option (nat * nat)) : shared := on_coordinator (set_queue []) (on_coordinator (set_leader true) (queued x)).
Definition synced : shared := set_wal (write (writer None)).1 (popped None).
Definition done_state : shared :=
  {| coordinator := {| queue := []; next_lsn := finish; written_lsn := finish; durable_lsn := finish; leader_in_progress := false |};
     wal := wal synced; history := [blob] |}.

Lemma start_initial x : initial encode_wal_file_header (start x, [Idle]).
Proof.
  split_and!; [|done|done|done|by constructor].
  split; [split; [done|split; [done|exact (Forall_nil_2 _)]]|]. by vm_compute.
Qed.

Lemma blob_nonempty : blob <> [].
Proof. by vm_compute. Qed.

(** A step of the only thread *)
Lemma alone s p s' p' z :
  acts 65536 (fun _ _ _ => Reserved) s p s' p' -> rtc go (s', [p']) z -> rtc go (s, [p]) z.
Proof. intros Ha Hz. eapply rtc_l; [|exact Hz]. exact (step_thread _ _ s s' [] p p' [] Ha). Qed.

Lemma queues x : rtc go (start x, [Idle]) (queued x, [Committing finish]).
Proof.
  eapply alone; [apply (a_reserve _ _ (start x) blob), blob_nonempty|].
  eapply alone; [apply a_push|].
  eapply alone; [apply (a_commit _ _ _ finish); by vm_compute|]. reflexivity.
Qed.

Lemma leads x : rtc go (start x, [Idle]) (popped x, [Writing finish [(8, blob)]]).
Proof.
  etrans; [apply queues|].
  eapply alone; [apply a_uncovered; by vm_compute|].
  eapply alone; [by apply a_lead|].
  eapply alone; [by apply a_pop|].
  eapply alone; [by apply a_drained|].
  eapply alone; [by apply a_take|]. reflexivity.
Qed.

Lemma commits : rtc go (start None, [Idle]) (done_state, [Returned finish (Ok tt)]).
Proof.
  etrans; [apply leads|].
  eapply alone; [apply (a_write _ _ _ _ _ (wal synced) finish); by vm_compute|].
  eapply alone; [apply a_store|].
  eapply alone; [apply a_publish|].
  eapply alone; [by apply a_release_done|]. reflexivity.
Qed.

Lemma log_crash : crash_image (dev (wal done_state)) (stable (dev (wal done_state))).
Proof. split; [done|]. intros i _. by left. Qed.

Lemma commit_durable_witness :
  0 <= finish <= zlen (encode_wal_file_header ++ concat (history done_state)) /\
  slice (stable (dev (wal done_state))) 0 finish = slice (encode_wal_file_header ++ concat (history done_state)) 0 finish.
Proof.
  apply (commit_durable 65536 (fun _ _ _ => Reserved) encode_wal_file_header (start None, [Idle]) done_state [Returned finish (Ok tt)]).
  - apply start_initial.
  - apply commits.
  - left.
  - apply log_crash.
Defined.

(** The device fails at the first write. *)
Lemma failed_drain_stalls_witness :
  durable_lsn (coordinator (popped (Some (0%nat, 0%nat)))) = 8 /\
  Forall (fun p => match p with
    | Writing _ _ => False
    | Returned target' (Ok _) => target' <= 8
    | _ => True end) [Releasing finish (Err "i/o error")].
Proof.
  apply (failed_drain_stalls 65536 (fun _ _ _ => Reserved) encode_wal_file_header (start (Some (0%nat, 0%nat)), [Idle])
    (popped (Some (0%nat, 0%nat))) [] finish [(8, blob)] (write (writer (Some (0%nat, 0%nat)))).1 "i/o error" []
    (set_wal (write (writer (Some (0%nat, 0%nat)))).1 (popped (Some (0%nat, 0%nat))), [Releasing finish (Err "i/o error")])).
  - apply start_initial.
  - apply leads.
  - by vm_compute.
  - reflexivity.
Defined.

Lemma commit_progress_witness :
  exists s', rtc go (queued None, [Committing finish]) (s', [Returned finish (Ok tt)]) /\ durable_lsn (coordinator s') = finish.
Proof.
  apply (commit_progress 65536 (fun _ _ _ => Reserved) encode_wal_file_header (start None, [Idle]) (queued None) [] finish []).
  - apply start_initial.
  - apply queues.
  - done.
  - done.
  - done.
  - by vm_compute.
Defined.

Lemma committed_records_replayed_witness :
  exists items stop, wal_items byte_sum zero_decompress 1 (stable (dev (wal done_state))) = Ok ((8, WBegin 9) :: items, stop).
Proof.
  apply (committed_records_replayed 65536 (fun _ _ _ => Reserved) byte_sum byte_sum_u32 zero_compress zero_decompress zero_codec 1
    [] [recs] [] (start None, [Idle]) done_state [Returned finish (Ok tt)] finish).
  - apply Forall_singleton. split; [apply sample_authority_ok|done].
  - unfold log_of. cbn [fmap list_fmap concat]. rewrite app_nil_r. apply start_initial.
  - apply commits.
  - done.
  - by vm_compute.
  - left.
  - apply log_crash.
Defined.
End SampleCommit.

